(* ===== verification/_CoqProject ===== *)
-Q . S2P
Prelude.v
Mpi.v
Constants.v
VirtualId.v
VirtualIdInv.v
VirtualIdSpec.v
Kvdb.v
SeqNum.v
CollectiveDrain.v
CollectiveDrainInv.v
CollectiveDrainSpec.v
MemArena.v
ArenaWrappers.v
ArenaSpec.v
PendingLog.v
PendingLogSpec.v
DatatypeRefs.v
DatatypeSpec.v
Restart.v
RestartSpec.v
LowerHalfGuard.v
LowerHalfGuardSpec.v
RequestTable.v
P2p.v
P2pDrain.v
P2pLaws.v
P2pInv.v
P2pSteps.v
P2pCount.v
P2pSim.v
P2pSample.v
P2pCountSpec.v
P2pOrder.v
P2pReceive.v
P2pOrderSpec.v
P2pBufferSpec.v
P2pJob.v
P2pJobInv.v
P2pJobSteps.v
P2pJobLive.v
P2pJobRun.v
P2pJobSpec.v
Keyvals.v
KeyvalsInv.v
KeyvalsLife.v
KeyvalsFinalize.v
KeyvalsSpec.v
CkptMemory.v
ImageRestore.v
ImageWalk.v
ImageRegions.v
ImageRestoreSpec.v
ImageSample.v
Collectives.v
CollectivesSpec.v
CommClocks.v
CommClocksSpec.v
CommGids.v
CommAttrs.v
ForwardCalls.v
Objects.v
Files.v
FortranHandles.v
PendingCollectives.v
RestartFds.v
Signals.v
FortranAttrs.v
MpiTools.v
BarrierDrain.v
BarrierDrainInv.v
BarrierDrainControl.v
BarrierDrainSteps.v
BarrierDrainPosts.v
BarrierDrainSafe.v
BarrierDrainLive.v
BarrierDrainRun.v
BarrierDrainSpec.v
LaunchStack.v
Launch.v
ElfLoad.v
