(* ===== verification/Prelude.v ===== *)
(** * MANA: a verification library for the checkpointing layer

    MANA checkpoints MPI programs.  A process has two halves: the upper half is
    the application and MANA's wrappers, which a checkpoint saves; the lower
    half is the MPI library and a loader, which a restart makes anew.  A wrapper
    translates the application's handles, enters the lower half, calls the MPI
    library and returns.  Before a checkpoint the processes together bring the
    network to rest: no collective call is half done, every point-to-point
    message is received, and no thread is in the lower half.  The sources are
    under [src/src/].

    ** Conventions

    A C integer is a [Z] whose width is written where it matters ([u32], [u64],
    [s32], [s64]).  Sequential code is a program of the state monad [prog] with
    two failures, [Abort] (a failed assertion, an abort, an access that C++ does
    not define) and [Spin] (a loop that does not end).  [wp m Q s] says that [m]
    returns from [s] with [Q]; [wlp] is the same without the return.  Code that
    several threads or processes run is a step relation, one step for each
    access to shared state or each section under a lock.  Loops that the C++
    code bounds only by its data take fuel; a theorem about them states how much
    is enough, or that the run ends.  What the repository calls and does not
    contain is a parameter with named laws: the MPI library of the lower half
    (classes [MpiLib], [P2pLib], [P2pLaws], [P2pQuiet], [ObjectLib], [ObjectLaws],
    [CollLib], [NbcLaws], [FwdLib], [ObjLib], [FileLib]),
    DMTCP's key-value store ([Kvdb], [KvdbLaws], [KvdbText], [KvdbTextLaws]), the kernel's memory
    calls ([Kernel], [KernelLaws], [ImageKernel], [ImageLaws]), its descriptors
    ([FdKernel], [FdLaws]) and signals ([SigLib], [SigLaws]), the constants of the
    tool interface ([ToolLib]) and the application's callbacks ([CallbacksOk],
    [ProgramFns]); those with laws have an instance in the examples.

    ** Components

    - [Mpi]: the types of [virtual_id.h] and [lower-half-api.h], MPI's constants.
    - [Constants]: the hash table of predefined handles ([virtual_id.cpp]).  It
      refines a finite map; filling it succeeds, translation is exact and can be
      inverted.
    - [VirtualId], [VirtualIdInv], [VirtualIdSpec]: the virtual-ID table.  The
      operations implement a finite map from handles to real handles and
      descriptors; a stale handle is detected until its slot's four-bit
      generation wraps.
    - [PendingLog], [PendingLogSpec]: the pending nonblocking point-to-point
      calls ([p2p_drain.cpp]), a doubly linked list through the table's slots.
      It implements a list in posting order.
    - [DatatypeRefs], [DatatypeSpec]: reference counts and deferred frees of
      datatypes.  The counts are exact, nothing leaks, and a free returns.
    - [Restart], [RestartSpec]: the datatype constructors' wrappers
      ([mpi_type_wrappers.cpp]) and [reconstruct_descriptors()].  Restart makes
      every object again, in an order in which parents come first.
    - [Kvdb], [SeqNum], [CollectiveDrain], [CollectiveDrainInv],
      [CollectiveDrainSpec]: the collective clocks and the drain of collective
      calls ([seq_num.cpp]) over all processes.  When a drain ends, no process is
      in a collective call or can start one and all members of a communicator
      have made the same number of calls.
    - [MemArena], [ArenaWrappers], [ArenaSpec]: the upper half's address ranges
      and the wrappers of mmap, munmap, mremap and sbrk
      ([lower-half/mem-wrapper.cpp]).  The lists are sets of addresses, first fit
      is first fit, and nothing is mapped over an existing mapping.
    - [CkptMemory]: which memory a checkpoint saves ([mpi_plugin.cpp]): exactly
      the upper half's.
    - [ImageRestore], [ImageWalk], [ImageRegions], [ImageRestoreSpec],
      [ImageSample]: the walks along a checkpoint image ([lower-half.cpp]).  A
      restart restores the saved memory and touches no other, whatever DMTCP's
      [RestoreTarget::initialize()] maps in the places that are not reserved.
    - [LowerHalfGuard], [LowerHalfGuardSpec]: the entry to the lower half and its
      closing ([lower_half_ckpt.h], [lower_half_ckpt.cpp]) with x86-64 store
      buffers.  After the close no other thread is inside.
    - [RequestTable], [P2p], [P2pDrain]: sends, receives, requests, probes
      ([mpi_p2p_wrappers.cpp], [mpi_request_wrappers.cpp]), the buffer of drained
      messages and the drain of one process ([p2p_drain.cpp]).  [P2pLaws] states
      what the lower half promises; [P2pSim] is a lower half that keeps it.
      [P2pInv], [P2pSteps], [P2pCount], [P2pCountSpec]: the message counters are
      exact.  [P2pOrder], [P2pReceive], [P2pOrderSpec]: the drain ends with the
      network empty, but for messages that a blocked receive waits for, and keeps
      the order of messages; receives and probes see the earliest match.
      [P2pBufferSpec]: acks of MPI_Issends, unpacking of buffered messages.
    - [P2pJob], [P2pJobInv], [P2pJobSteps], [P2pJobLive], [P2pJobRun],
      [P2pJobSpec]: [drainWithoutBarriers()] over all processes, with the
      application threads in blocking receives and their pending MPI_Irecvs,
      which take messages and dummies too.  The drain ends only when nothing is
      left, one read of [p2p_dummy_phase] tells a dummy from a message, and the
      drain can always finish when no pending MPI_Irecv matches a blocked
      receive's dummy and a receive from MPI_ANY_SOURCE has a member of its
      communicator that can send one ([no_obstacle]).  An MPI_Irecv that takes a
      dummy keeps the drain from ending ([taken_dummy_never_exits]).  [RanksDone]
      of [BarrierDrainSpec]: [waitForAllRanksDone()], which ends it.
    - [BarrierDrain], [BarrierDrainInv], [BarrierDrainControl],
      [BarrierDrainSteps], [BarrierDrainPosts], [BarrierDrainSafe],
      [BarrierDrainLive], [BarrierDrainRun], [BarrierDrainSpec]: the drain with
      global barriers ([drainInFlightP2p()], [unblockPendingRecvs()]), with the
      coordinator's store in which the processes add up their counters, set the
      bits of blocked receives and ask for dummies.  The processes stay
      together at the barriers, the loop ends only when everything is counted,
      one dummy is sent for every blocked receive and matches it, and the drain
      can always finish under the conditions named above, here [no_rival];
      without them see [taken_dummy_never_done].
    - [Keyvals], [KeyvalsInv], [KeyvalsLife], [KeyvalsFinalize], [KeyvalsSpec]:
      keyvals and attributes of communicators ([mpi_comm_wrappers.cpp]), with
      callbacks that call MANA again.  MPI_Finalize deletes the attributes of
      MPI_COMM_SELF latest first, also those that its callbacks set.
    - [Collectives], [CollectivesSpec]: the blocking and nonblocking collectives
      ([mpi_collective_wrappers.cpp]) and the calls that make or free a
      communicator, over the table, the clocks and the lower half.  A wrapper
      passes the application's arguments with every handle translated, counts
      one call, and gives a nonblocking call's request a handle.
    - [CommClocks], [CommClocksSpec], [CommGids], [CommAttrs]: the clocks of
      communicators from their creation to the end of their free barrier
      ([seq_num.cpp], [mpi_comm_wrappers.cpp]).  The clocks are exactly those of
      the live communicators and the pending frees and no two share one, every
      gid is new in the whole job, MPI_Comm_free and MPI_Comm_dup run the
      attributes' callbacks, and MPI_Finalize completes every free.
    - [PendingCollectives]: the completion of nonblocking collectives before a
      checkpoint ([seq_num.cpp]), on the process of [P2p].  When each completes
      after some tests, all complete and the application's requests are null.
    - [ForwardCalls]: the wrappers that translate handles and forward
      ([mpi_comm_wrappers.cpp], [mpi_cart_wrappers.cpp], [mpi_error_wrappers.cpp],
      [mpi_type_wrappers.cpp] and others).
    - [Objects]: the wrappers of groups and operations
      ([mpi_group_wrappers.cpp], [mpi_op_wrappers.cpp]), which record what
      [Restart] makes them again from.
    - [Files]: the files of MPI-IO ([mpi_file_wrappers.cpp]) and the state of
      open files that a checkpoint saves: what a restart reads and sets again is
      what the lower half answered about each file; if the list cannot be opened
      nothing is written.
    - [FortranHandles]: conversion of handles to Fortran integers and back.
    - [FortranAttrs]: the attribute calls of Fortran
      ([mpi_fortran_attr_wrappers.cpp]), on [Keyvals].  A program reads back the
      integers it stored, at both widths.
    - [MpiTools]: the tool interface ([mpi_t_wrappers.cpp]).  It is open to a
      thread between that thread's initialisation and finalisation.
    - [RestartFds]: the numbers of the open descriptors, from the header of a
      checkpoint ([mpi_plugin.cpp]) through the script [mana_restart] to the
      placeholders of the new lower half ([lower-half.cpp]).
    - [Signals]: the wrappers of sigaction and signal and the handlers they
      install ([mpi_plugin.cpp]).  The application's handler runs in the upper
      half; the actions for which it does not are listed in the theorem.
    - [LaunchStack]: the stack on which the launcher starts the upper half
      ([copy-stack.c], and [patchAuxv()] of [lower-half.cpp]).  The arguments, the
      environment and the auxiliary vector are read back from the new stack, up to
      2 GB, the range of the sizes' type.
    - [Launch]: the jumps that replace the linker's mmap and munmap
      ([patch-trampoline.c]), the launcher's own arguments and environment
      ([lower-half.cpp]) and the areas that MPI_Init maps ([mpi_plugin.cpp]).
    - [ElfLoad]: the loader of the application's dynamic linker, on the bytes of its
      ELF file, and the place of the stack, its red zone and the arena
      ([lower-half.cpp]).

    The classes are the interfaces: [RequestTable] gives the wrappers what they
    use of the table, the log and the datatypes; the point-to-point theorems are
    proved against [P2pLaws] and [P2pQuiet]; the drains are proved against
    [Kvdb].

    ** Bounds

    The loops that take fuel: [delete_self_loop] (the length of the list and the
    number of attributes that the callbacks can still set), [skip_predefined] (eight, since
    seven keyvals are predefined), the waits of [P2p] (a theorem about a call
    that returns says so), [drain_comm] (the messages that can still arrive),
    the walk of the list of threads and of pending calls (their lengths), the
    walks along an image (its headers and the longest area), the probes of the
    hash table (its size), and the polls of a barrier in [Collectives] ([polls]; a
    theorem about a call that can wait for one is about a call that returns, or
    says that no barrier is pending) and of a request in [PendingCollectives]
    (more than the tests it still needs).  [parse_fds] takes the length of its
    text, which is enough ([parse_fds_ends]); a decimal number of a descriptor has
    at most ten digits; [patchAuxv] takes more than the entries of the vector, and
    [remove_dangling_loop] the length of the array; [call_handler] has depth two,
    since a wrapper that calls a wrapper calls itself without end, at any depth
    ([wrapper_recurses]).

    ** Not modelled

    - The rest of the launch: [main()] of [lower-half.cpp] and its re-execution,
      the FS register ([switch-context.cpp]) and symbols in debug files
      ([get-symbol-offset.c], [build-id-debug.cpp]): they act on registers and on
      files, through libraries that are not here.
    - Windows ([mpi_win_wrappers.cpp], allocation of memory) and the generated
      Fortran wrappers: calls that keep no state of MANA.
    - The order of MPI_Init ([mpi_wrappers.cpp]) and the rest of the plugin's
      event hook ([mpi_plugin.cpp]): they call the components in a fixed order.
    - Statistics, logging, tests and benchmarks. *)
From stdpp Require Export base gmap list sets strings sorting.
From Stdlib Require Export ZArith Lia.

(** ** Scopes and notations *)

Declare Scope mana_scope.
Delimit Scope mana_scope with mana.
Open Scope Z_scope.

(** ** Record update

    [r <| f := v |>] is [r] with its field [f] replaced.  A record type
    declares its eta expansion once ([Eta]); the setter of each field is
    computed from it, so that a projection of an update reduces by
    conversion without destructing the record. *)

Class Eta (R : Type) := eta : R → R.
Class Setter {R T : Type} (proj : R → T) := set_field : (T → T) → R → R.
Arguments set_field {R T} proj {_} _ _ : assert.
#[export] Hint Mode Setter - - + : typeclass_instances.

Ltac derive_setter :=
  match goal with
  | |- @Setter ?R ?T ?proj =>
      let f := fresh "f" in
      let r := fresh "r" in
      intros f r;
      let e := eval hnf in (@eta R _ r) in
      let t := eval pattern (proj r) in e in
      match t with
      | ?g _ => let u := eval cbv beta in (g (f (proj r))) in exact u
      end
  end.

#[export] Hint Extern 1 (Setter _) => derive_setter : typeclass_instances.

Notation "r <| f := v |>" := (set_field f (λ _, v) r)
  (at level 1, left associativity, f at next level,
   format "r  <| f  :=  v |>") : mana_scope.
Notation "r <| f ::= g |>" := (set_field f g r)
  (at level 1, left associativity, f at next level,
   format "r  <| f  ::=  g |>") : mana_scope.
Open Scope mana_scope.

(** ** Machine integers

    A C integer is a [Z]; a conversion or an operation that can leave the
    range of its type says so with one of these functions. *)

Definition u32 (z : Z) : Z := z mod 2 ^ 32.
Definition u64 (z : Z) : Z := z mod 2 ^ 64.
(** Two's complement: the value in [[-2^(w-1), 2^(w-1))] that [z] has in [w] bits. *)
Definition s32 (z : Z) : Z := (z + 2 ^ 31) mod 2 ^ 32 - 2 ^ 31.
Definition s64 (z : Z) : Z := (z + 2 ^ 63) mod 2 ^ 64 - 2 ^ 63.

Lemma u32_small z : 0 ≤ z < 2 ^ 32 → u32 z = z.
Proof. apply Z.mod_small. Qed.
Lemma u64_small z : 0 ≤ z < 2 ^ 64 → u64 z = z.
Proof. apply Z.mod_small. Qed.
Lemma s32_small z : - 2 ^ 31 ≤ z < 2 ^ 31 → s32 z = z.
Proof. intros. unfold s32. rewrite Z.mod_small; lia. Qed.
Lemma s64_small z : - 2 ^ 63 ≤ z < 2 ^ 63 → s64 z = z.
Proof. intros. unfold s64. rewrite Z.mod_small; lia. Qed.
Lemma u32_range z : 0 ≤ u32 z < 2 ^ 32.
Proof. apply Z.mod_pos_bound. lia. Qed.
Lemma u64_range z : 0 ≤ u64 z < 2 ^ 64.
Proof. apply Z.mod_pos_bound. lia. Qed.

Lemma land_ones_mod z n : 0 ≤ n → Z.land z (2 ^ n - 1) = z mod 2 ^ n.
Proof. intros. replace (2 ^ n - 1) with (Z.ones n) by (rewrite Z.ones_equiv; lia).
  by apply Z.land_ones. Qed.

(** Disjoint bit fields: [a << n | b] is [a * 2^n + b] when [b] fits below [n]. *)
Lemma lor_shiftl_add a b n :
  0 ≤ n → 0 ≤ b < 2 ^ n → Z.lor (Z.shiftl a n) b = a * 2 ^ n + b.
Proof.
  intros Hn Hb.
  assert (Z.land (Z.shiftl a n) b = 0) as Hd.
  { apply Z.bits_inj'. intros i Hi. rewrite Z.land_spec, Z.bits_0.
    destruct (decide (i < n)); [by rewrite Z.shiftl_spec_low|].
    rewrite <- (Z.mod_small b (2 ^ n)) by done.
    rewrite Z.mod_pow2_bits_high by lia. apply andb_false_r. }
  rewrite <- Z.lxor_lor by done. rewrite <- Z.add_nocarry_lxor by done.
  by rewrite Z.shiftl_mul_pow2.
Qed.

Lemma land_mod_small y z n : 0 ≤ n → 0 ≤ y < 2 ^ n → Z.land y (z mod 2 ^ n) = Z.land y z.
Proof.
  intros Hn Hy. rewrite <- (Z.land_ones z n) by done. rewrite (Z.land_comm z), Z.land_assoc.
  by rewrite Z.land_ones, Z.mod_small.
Qed.

(** Clearing the low bits rounds down. *)
Lemma land_lnot_ones y n : 0 ≤ n → Z.land y (Z.lnot (2 ^ n - 1)) = y / 2 ^ n * 2 ^ n.
Proof.
  intros Hn. replace (2 ^ n - 1) with (Z.ones n) by (rewrite Z.ones_equiv; lia).
  rewrite <- Z.ldiff_land, Z.ldiff_ones_r by done.
  by rewrite Z.shiftl_mul_pow2, Z.shiftr_div_pow2.
Qed.

(** The lowest bit of a positive number. *)
Lemma land_opp_low x : 0 < x → ∃ k, 0 ≤ k ∧ Z.land x (- x) = 2 ^ k ∧ (2 ^ k | x).
Proof.
  intros Hx. destruct x as [|p|p]; [lia| |lia]. induction p as [p IH|p IH|].
  - exists 0. split; [lia|]. split; [|apply Z.divide_1_l]. change (2 ^ 0) with 1.
    apply Z.bits_inj'. intros i Hi. rewrite Z.land_spec, Z.bits_opp by done.
    replace (Z.pred (Z.pos p~1)) with (2 * Z.pos p) by lia. change (Z.pos p~1) with (2 * Z.pos p + 1).
    destruct (decide (i = 0)) as [->|]; [by rewrite Z.testbit_odd_0, Z.testbit_even_0|].
    replace i with (Z.succ (i - 1)) by lia.
    rewrite Z.testbit_odd_succ, Z.testbit_even_succ by lia.
    rewrite andb_negb_r. symmetry. apply Z.bits_above_log2; [lia|]. simpl. lia.
  - destruct IH as (k & Hk & Hl & Hd); [lia|]. exists (Z.succ k). split; [lia|].
    change (Z.pos p~0) with (2 * Z.pos p). split.
    + rewrite Z.pow_succ_r, <- Hl by done. replace (- (2 * Z.pos p)) with (2 * - Z.pos p) by lia.
      rewrite !(Z.mul_comm 2), <- !(Z.shiftl_mul_pow2 _ 1) by lia. by rewrite Z.shiftl_land.
    + rewrite Z.pow_succ_r by done. by apply Z.mul_divide_mono_l.
  - exists 0. split; [lia|]. split; [done|]. apply Z.divide_1_l.
Qed.

(** ** Programs: state, abort and endless loops

    [Abort] is [abort()], a failed [assert] or [ASSERT], or an access that is
    undefined in C++.  [Spin] is a loop that never ends. *)

Inductive outcome (S A : Type) : Type :=
  | Ok (a : A) (s : S)
  | Abort
  | Spin.
Arguments Ok {S A} a s.
Arguments Abort {S A}.
Arguments Spin {S A}.

Definition prog (S A : Type) : Type := S → outcome S A.

#[export] Instance prog_ret S : MRet (prog S) := λ A a s, Ok a s.
#[export] Instance prog_bind S : MBind (prog S) := λ A B f m s,
  match m s with
  | Ok a s' => f a s'
  | Abort => Abort
  | Spin => Spin
  end.

Definition get_state {S} : prog S S := λ s, Ok s s.
Definition gets {S A} (f : S → A) : prog S A := λ s, Ok (f s) s.
Definition modify {S} (f : S → S) : prog S unit := λ s, Ok () (f s).
Definition abort {S A} : prog S A := λ _, Abort.
Definition spin {S A} : prog S A := λ _, Spin.
(** [ASSERT(b)]: aborts if [b] is false. *)
Definition assert_ {S} (b : bool) : prog S unit := if b then mret () else abort.
(** The value of an option, which the code uses without a check. *)
Definition deref {S A} (o : option A) : prog S A :=
  match o with Some a => mret a | None => abort end.

(** [for (x : l) f(x)]. *)
Fixpoint for_each {S A} (l : list A) (f : A → prog S unit) : prog S unit :=
  match l with
  | [] => mret ()
  | x :: l' => f x ;; for_each l' f
  end.

Lemma prog_bind_ok {S A B} (m : prog S A) (f : A → prog S B) s a s' :
  m s = Ok a s' → (m ≫= f) s = f a s'.
Proof. intros H. unfold mbind, prog_bind. by rewrite H. Qed.

Lemma prog_bind_inv {S A B} (m : prog S A) (f : A → prog S B) s b s' :
  (m ≫= f) s = Ok b s' → ∃ a s1, m s = Ok a s1 ∧ f a s1 = Ok b s'.
Proof. unfold mbind, prog_bind. destruct (m s); naive_solver. Qed.

Lemma prog_bind_assoc {S A B C} (m : prog S A) (f : A → prog S B) (g : B → prog S C) s :
  ((m ≫= f) ≫= g) s = (m ≫= (λ a, f a ≫= g)) s.
Proof. unfold mbind, prog_bind. by destruct (m s). Qed.

Lemma for_each_app {S A} (l k : list A) (f : A → prog S unit) s :
  for_each (l ++ k) f s = (for_each l f ;; for_each k f) s.
Proof.
  revert s. induction l as [|x l IH]; intros s; [done|]. simpl.
  unfold mbind, prog_bind in *. destruct (f x s); [apply IH|done|done].
Qed.

(** An invariant that each iteration keeps holds after the loop. *)
Lemma for_each_inv {S A} (P : S → Prop) (l : list A) (f : A → prog S unit) s s' :
  (∀ x t t', x ∈ l → P t → f x t = Ok () t' → P t') →
  P s → for_each l f s = Ok () s' → P s'.
Proof.
  revert s. induction l as [|x l IH]; intros s Hf HP; simpl.
  { unfold mret, prog_ret. naive_solver. }
  intros ([] & s1 & H1 & H2)%prog_bind_inv.
  eapply IH; [|by eapply Hf, H1; [left|]|done]. intros. eapply Hf; eauto. by right.
Qed.

(** Computes a program up to the calls it makes. *)
Ltac prog_red :=
  cbv beta iota delta [mbind prog_bind mret prog_ret get_state gets modify
    assert_ deref abort spin].
Tactic Notation "prog_red" "in" hyp(H) :=
  cbv beta iota delta [mbind prog_bind mret prog_ret get_state gets modify
    assert_ deref abort spin] in H.
Ltac prog_inv H :=
  match type of H with
  | (mbind _ _) _ = Ok _ _ =>
      let a := fresh "a" in let s := fresh "s" in let E := fresh "E" in
      apply prog_bind_inv in H as (a & s & E & H)
  end.

(** ** Postconditions

    [wlp m Q s]: if [m] returns from [s], then [Q] holds of the result.
    [wp m Q s]: [m] returns from [s], and [Q] holds of the result. *)

Definition wlp {S A} (m : prog S A) (Q : A → S → Prop) (s : S) : Prop :=
  match m s with Ok a s' => Q a s' | _ => True end.
Definition wp {S A} (m : prog S A) (Q : A → S → Prop) (s : S) : Prop :=
  match m s with Ok a s' => Q a s' | _ => False end.

Lemma wlp_bind {S A B} (m : prog S A) (f : A → prog S B) Q s :
  wlp m (λ a, wlp (f a) Q) s → wlp (m ≫= f) Q s.
Proof. unfold wlp, mbind, prog_bind. by destruct (m s). Qed.
Lemma wlp_ret {S A} (a : A) Q (s : S) : Q a s → wlp (mret a) Q s.
Proof. done. Qed.
Lemma wlp_mono {S A} (m : prog S A) (Q R : A → S → Prop) s :
  wlp m Q s → (∀ a s', Q a s' → R a s') → wlp m R s.
Proof. unfold wlp. destruct (m s); auto. Qed.
Lemma wlp_and {S A} (m : prog S A) (Q R : A → S → Prop) s :
  wlp m Q s → wlp m R s → wlp m (λ a s', Q a s' ∧ R a s') s.
Proof. unfold wlp. by destruct (m s). Qed.
Lemma wlp_for_each {S A} (I : S → Prop) (l : list A) (f : A → prog S unit) s :
  I s → (∀ x t, x ∈ l → I t → wlp (f x) (λ _, I) t) → wlp (for_each l f) (λ _, I) s.
Proof.
  intros HI Hf. unfold wlp. destruct (for_each l f s) as [[] s'| |] eqn:E; [|done|done].
  eapply for_each_inv; [|exact HI|exact E]. intros x t t' Hx Ht Hr. specialize (Hf x t Hx Ht).
  unfold wlp in Hf. by rewrite Hr in Hf.
Qed.
Lemma wlp_ok {S A} (m : prog S A) Q s a s' : wlp m Q s → m s = Ok a s' → Q a s'.
Proof. intros HQ E. unfold wlp in HQ. by rewrite E in HQ. Qed.

Lemma wp_bind {S A B} (m : prog S A) (f : A → prog S B) Q s :
  wp m (λ a, wp (f a) Q) s → wp (m ≫= f) Q s.
Proof. unfold wp, mbind, prog_bind. by destruct (m s). Qed.
Lemma wp_ret {S A} (a : A) Q (s : S) : Q a s → wp (mret a) Q s.
Proof. done. Qed.
Lemma wp_mono {S A} (m : prog S A) (Q R : A → S → Prop) s :
  wp m Q s → (∀ a s', Q a s' → R a s') → wp m R s.
Proof. unfold wp. destruct (m s); auto. Qed.
Lemma wp_wlp {S A} (m : prog S A) Q s : wp m Q s → wlp m Q s.
Proof. unfold wp, wlp. by destruct (m s). Qed.
Lemma wp_ok {S A} (m : prog S A) Q s : wp m Q s → ∃ a s', m s = Ok a s' ∧ Q a s'.
Proof. unfold wp. destruct (m s) as [a s'| |]; [eauto|done|done]. Qed.

(** ** Sets and lists *)

Lemma size_list_to_set_le `{Countable A} (l : list A) :
  (size (list_to_set l : gset A) ≤ length l)%nat.
Proof.
  induction l as [|x l IH]; simpl; [by vm_compute|].
  rewrite size_union_alt, size_singleton.
  assert (size ((list_to_set l : gset A) ∖ {[x]}) ≤ size (list_to_set l : gset A))%nat
    by (apply subseteq_size; set_solver). lia.
Qed.

Lemma elem_of_snoc {A} (x y : A) l : y ∈ l ++ [x] ↔ y ∈ l ∨ y = x.
Proof. by rewrite elem_of_app, list_elem_of_singleton. Qed.

Lemma filter_id {A} (P : A → Prop) `{∀ x, Decision (P x)} (l : list A) :
  (∀ x, x ∈ l → P x) → filter P l = l.
Proof.
  induction l as [|x l IH]; [done|]. intros Hl.
  rewrite filter_cons_True by (apply Hl; left). f_equal. apply IH. intros. apply Hl. by right.
Qed.

Lemma filter_iff_in {A} (P Q : A → Prop) `{∀ x, Decision (P x), ∀ x, Decision (Q x)} (l : list A) :
  (∀ x, x ∈ l → P x ↔ Q x) → filter P l = filter Q l.
Proof.
  induction l as [|x l IH]; [done|]. intros Hl.
  assert (filter P l = filter Q l) as E by (apply IH; intros; apply Hl; by right).
  assert (P x ↔ Q x) as Hx by (apply Hl; left).
  rewrite !filter_cons, E. destruct (decide (P x)), (decide (Q x)); tauto.
Qed.

Lemma elem_of_remove {A} `{EqDecision A} (x y : A) (l : list A) :
  y ∈ filter (.≠ x) l ↔ y ∈ l ∧ y ≠ x.
Proof. rewrite list_elem_of_filter. tauto. Qed.

Lemma length_remove {A} `{EqDecision A} (x : A) (l : list A) :
  NoDup l → x ∈ l → length l = S (length (filter (.≠ x) l)).
Proof.
  induction 1 as [|y l Hy Hnd IH]; [by intros []%not_elem_of_nil|].
  intros [->|Hin]%elem_of_cons; rewrite filter_cons.
  - rewrite decide_False by tauto. simpl. f_equal. by rewrite filter_id by (by intros z Hz ->).
  - rewrite decide_True by (by intros ->). simpl. f_equal. by apply IH.
Qed.

(** ** Sorted lists *)

Lemma StronglySorted_impl {A} (R R' : relation A) l :
  (∀ x y, x ∈ l → y ∈ l → R x y → R' x y) → StronglySorted R l → StronglySorted R' l.
Proof.
  intros HR. induction 1 as [|x l Hs IH Hf]; constructor.
  - apply IH. intros y z ??. apply HR; by right.
  - rewrite Forall_forall in *. intros y Hy. apply HR; [left|by right|auto].
Qed.

Lemma sublist_Forall {A} (P : A → Prop) l k : l `sublist_of` k → Forall P k → Forall P l.
Proof.
  rewrite !Forall_forall. intros Hs Hk x Hx. apply Hk. by eapply elem_of_sublist.
Qed.

Lemma StronglySorted_sublist {A} (R : relation A) l k :
  l `sublist_of` k → StronglySorted R k → StronglySorted R l.
Proof.
  induction 1 as [|x l k Hs IH|x l k Hs IH]; intros Hk; [done|..];
    apply StronglySorted_inv in Hk as [Hk Hf]; [|auto].
  constructor; [auto|]. by eapply sublist_Forall.
Qed.

Lemma StronglySorted_filter {A} (R : relation A) (P : A → Prop) `{∀ x, Decision (P x)} l :
  StronglySorted R l → StronglySorted R (filter P l).
Proof.
  induction 1 as [|x l Hs IH Hf]; [constructor|]. rewrite filter_cons.
  case_decide; [|done]. constructor; [done|]. rewrite Forall_forall in *.
  intros y [_ Hy]%list_elem_of_filter. auto.
Qed.

(** ** Hint database of the development *)

Create HintDb mana.
#[export] Hint Resolve u32_range u64_range : mana.
