(* ===== verification/Mpi.v ===== *)
(** * MPI data shared by the components

    The types of [src/src/virtual_id.h] and [src/src/lower-half/lower-half-api.h]
    that several components use, and the interface to what is not in the
    repository: the constants of [mpi.h] (class [MpiLib]). *)
From S2P Require Import Prelude.

(** ** Kinds of handles and the layout of a virtual handle *)

Definition MANA_COMM_KIND : Z := 1.
Definition MANA_GROUP_KIND : Z := 2.
Definition MANA_DATATYPE_KIND : Z := 3.
Definition MANA_OP_KIND : Z := 4.
Definition MANA_REQUEST_KIND : Z := 5.
Definition MANA_FILE_KIND : Z := 6.
Definition MANA_NUM_KINDS : Z := 6.
Definition MANA_ERRHANDLER_KIND : Z := 7.
Definition MANA_INFO_KIND : Z := 8.
Definition MANA_WIN_KIND : Z := 9.
Definition MANA_MESSAGE_KIND : Z := 10.
Definition MANA_NUM_HANDLE_KINDS : Z := 10.

Definition MANA_VIRT_ID_KIND_SHIFT : Z := 28.
Definition MANA_VIRT_ID_GEN_SHIFT : Z := 24.
Definition MANA_VIRT_ID_GEN_MASK : Z := 0xf.
Definition MANA_VIRT_ID_SLOT_MASK : Z := 0xffffff.
Definition MANA_VIRT_ID_CHUNK_SHIFT : Z := 12.
Definition MANA_VIRT_ID_CHUNK_SIZE : Z := Z.shiftl 1 MANA_VIRT_ID_CHUNK_SHIFT.
Definition MANA_VIRT_ID_NUM_CHUNKS : Z :=
  Z.shiftr (MANA_VIRT_ID_SLOT_MASK + 1) MANA_VIRT_ID_CHUNK_SHIFT.

(** A [mana_mpi_handle] is the union's 64-bit value; [_handle] is its low
    32 bits as an [int]. *)
Definition mana_mpi_handle : Type := Z.
Definition _handle (h : mana_mpi_handle) : Z := s32 h.

(** ** MPI_Status: the public fields, and the length of the message in bytes
    (what [MPI_Get_count] of [MPI_BYTE] returns). *)
Record MPI_Status := mk_status {
  MPI_SOURCE : Z;
  MPI_TAG : Z;
  MPI_ERROR : Z;
  status_bytes : Z
}.
Definition empty_status : MPI_Status := mk_status 0 0 0 0.
#[export] Instance MPI_Status_eq_dec : EqDecision MPI_Status.
Proof. solve_decision. Defined.

(** ** A pending non-blocking call ([mpi_nonblocking_call_t]) *)

Inductive mpi_req_t :=
  | UNKNOW_REQUEST
  | ISEND_REQUEST
  | IRECV_REQUEST
  | ISSEND_REQUEST.
#[export] Instance mpi_req_t_eq_dec : EqDecision mpi_req_t.
Proof. solve_decision. Defined.

Record mpi_nonblocking_call_t := mk_call {
  call_type : mpi_req_t;
  sendbuf : Z;
  recvbuf : Z;
  call_count : Z;
  call_datatype : Z;
  call_comm : Z;
  remote_node : Z;
  call_tag : Z;
  later_sends : Z
}.
Definition zero_call : mpi_nonblocking_call_t :=
  mk_call UNKNOW_REQUEST 0 0 0 0 0 0 0 0.
#[export] Instance eta_call : Eta mpi_nonblocking_call_t := λ c,
  mk_call (call_type c) (sendbuf c) (recvbuf c) (call_count c)
    (call_datatype c) (call_comm c) (remote_node c) (call_tag c)
    (later_sends c).
#[export] Instance call_eq_dec : EqDecision mpi_nonblocking_call_t.
Proof. solve_decision. Defined.

(** ** Descriptors *)

Record mana_group_desc := mk_group_desc {
  grp_size : Z;
  grp_rank : Z;
  grp_global_ranks : list Z
}.

(** The [clock] field points to the clock of [comm_gid] in the map of clocks,
    so the gid stands for it. *)
Record mana_comm_desc := mk_comm_desc {
  comm_size : Z;
  comm_rank : Z;
  comm_global_ranks : list Z;
  cart_ndims : Z;
  cart_dims : list Z;
  cart_periods : list Z;
  comm_gid : Z
}.

Record mana_op_desc := mk_op_desc {
  op_user_fn : Z;
  op_commute : Z
}.

Inductive type_constructor :=
  | MANA_TYPE_NONE          (* 0, after memset *)
  | MANA_TYPE_CONTIGUOUS
  | MANA_TYPE_VECTOR
  | MANA_TYPE_HVECTOR
  | MANA_TYPE_INDEXED
  | MANA_TYPE_HINDEXED
  | MANA_TYPE_STRUCT
  | MANA_TYPE_DUP
  | MANA_TYPE_RESIZED.
#[export] Instance type_constructor_eq_dec : EqDecision type_constructor.
Proof. solve_decision. Defined.

Record mana_datatype_desc := mk_datatype_desc {
  dt_constructor : type_constructor;
  dt_count : Z;
  dt_blocklength : Z;
  dt_stride : Z;
  dt_hstride : Z;
  dt_lb : Z;
  dt_extent : Z;
  dt_oldtype : Z;
  dt_blocklengths : list Z;
  dt_displacements : list Z;
  dt_hdisplacements : list Z;
  dt_oldtypes : list Z;
  dt_committed : bool;
  dt_refs : Z
}.
Definition zero_datatype_desc : mana_datatype_desc :=
  mk_datatype_desc MANA_TYPE_NONE 0 0 0 0 0 0 0 [] [] [] [] false 0.
#[export] Instance eta_datatype_desc : Eta mana_datatype_desc := λ d,
  mk_datatype_desc (dt_constructor d) (dt_count d) (dt_blocklength d)
    (dt_stride d) (dt_hstride d) (dt_lb d) (dt_extent d) (dt_oldtype d)
    (dt_blocklengths d) (dt_displacements d) (dt_hdisplacements d)
    (dt_oldtypes d) (dt_committed d) (dt_refs d).

(** What the [void *desc] of an entry points to; [NoDesc] is NULL. *)
Inductive descriptor :=
  | NoDesc
  | CommDesc (d : mana_comm_desc)
  | GroupDesc (d : mana_group_desc)
  | OpDesc (d : mana_op_desc)
  | DatatypeDesc (d : mana_datatype_desc).

(** ** A slot of the virtual-ID table *)
Record virt_id_entry := mk_entry {
  real_id : Z;
  desc : descriptor;
  entry_seq : Z;
  virt : Z;
  next_free : Z;
  gen : Z;
  call : mpi_nonblocking_call_t;
  pending_prev : option Z;      (* the slot of the entry, NULL is None *)
  pending_next : option Z;
  collective : bool;
  completed : bool;
  status : MPI_Status
}.
#[export] Instance eta_entry : Eta virt_id_entry := λ e,
  mk_entry (real_id e) (desc e) (entry_seq e) (virt e) (next_free e) (gen e) (call e)
    (pending_prev e) (pending_next e) (collective e) (completed e) (status e).
(** An entry of a new chunk ([calloc]). *)
Definition zero_entry : virt_id_entry :=
  mk_entry 0 NoDesc 0 0 0 0 zero_call None None false false empty_status.

(** ** The MPI library's constants

    [handle64] is [sizeof(MPI_Comm) > sizeof(int)] (Open MPI).  [upper_const]
    and [lower_const] give the value of a predefined handle in the upper half
    ([MPI_<name>]) and in the lower half ([lh_info->MANA_<name>]). *)
Class MpiLib := {
  handle64 : bool;
  upper_const : string → Z;
  MPI_SUCCESS : Z;
  MPI_ERR_TYPE : Z;
  MPI_ERR_COMM : Z;
  MPI_ERR_KEYVAL : Z;
  MPI_ANY_SOURCE : Z;
  MPI_ANY_TAG : Z;
  MPI_PROC_NULL : Z;
  MPI_UNDEFINED : Z;
  MPI_CART : Z
}.

Definition MPI_COMM_NULL `{MpiLib} : Z := upper_const "COMM_NULL".
Definition MPI_COMM_WORLD `{MpiLib} : Z := upper_const "COMM_WORLD".
Definition MPI_COMM_SELF `{MpiLib} : Z := upper_const "COMM_SELF".
Definition MPI_REQUEST_NULL `{MpiLib} : Z := upper_const "REQUEST_NULL".
Definition MPI_DATATYPE_NULL `{MpiLib} : Z := upper_const "DATATYPE_NULL".
Definition MPI_BYTE `{MpiLib} : Z := upper_const "BYTE".
