(* ===== verification/Constants.v ===== *)
(** * The predefined constants ([src/src/virtual_id.cpp])

    [upper_to_lower_constants] is a hash table with open addressing and
    linear probing that maps the upper half's value of a predefined handle to
    the lower half's.  The inverse map, the Fortran handles and the reserved
    slots of the virtual-ID table are computed from the same constants.

    The table refines a finite map ([repr]): [find_constant] is lookup and
    [set_upper_to_lower] is insertion, with the probe loop shown to end. *)
From S2P Require Import Prelude Mpi.

Definition MANA_CONSTANTS_TABLE_SIZE : Z := 512.

Record mana_constant := mk_constant {
  c_upper : Z;
  c_lower : Z;
  c_fortran : Z;
  c_used : bool
}.
Definition zero_constant : mana_constant := mk_constant 0 0 0 false.

Record constants_state := mk_constants {
  upper_to_lower_constants : list mana_constant;   (* 512 entries *)
  num_constants : Z;
  lower_to_upper_constants : gmap Z Z;
  fortran_constants : gmap (Z * Z) Z;              (* (kind, Fortran handle) *)
  reserved_slots : list bool                       (* std::vector<bool> *)
}.
#[export] Instance eta_constants : Eta constants_state := λ c,
  mk_constants (upper_to_lower_constants c) (num_constants c)
    (lower_to_upper_constants c) (fortran_constants c) (reserved_slots c).
Definition init_constants : constants_state :=
  mk_constants (replicate (Z.to_nat MANA_CONSTANTS_TABLE_SIZE) zero_constant)
    0 ∅ ∅ [].

(** ** Operations *)

Definition constant_hash (upper : Z) : Z :=
  Z.land (u32 (Z.shiftr (u64 (u64 upper * 0x9e3779b97f4a7c15)) 55))
    (MANA_CONSTANTS_TABLE_SIZE - 1).

Definition next_probe (i : Z) : Z :=
  Z.land (u32 (i + 1)) (MANA_CONSTANTS_TABLE_SIZE - 1).

Definition table_at (tbl : list mana_constant) (i : Z) : mana_constant :=
  default zero_constant (tbl !! Z.to_nat i).

(** The probe loop: [None] if it never ends within [fuel] probes. *)
Fixpoint find_from (fuel : nat) (tbl : list mana_constant) (upper i : Z)
  : option (option mana_constant) :=
  match fuel with
  | O => None
  | S fuel' =>
      let c := table_at tbl i in
      if negb (c_used c) then Some None
      else if c_upper c =? upper then Some (Some c)
      else find_from fuel' tbl upper (next_probe i)
  end.

(** After [MANA_CONSTANTS_TABLE_SIZE] probes the loop is where it began. *)
Definition find_constant (upper : Z) (cs : constants_state)
  : option (option mana_constant) :=
  find_from (Z.to_nat MANA_CONSTANTS_TABLE_SIZE)
    (upper_to_lower_constants cs) upper (constant_hash upper).

Definition constant_key `{MpiLib} (id : mana_mpi_handle) : Z :=
  if handle64 then id else _handle id.

Definition slot_is_reserved (cs : constants_state) (slot : Z) : bool :=
  if Z.of_nat (length (reserved_slots cs)) <=? u64 slot then false
  else default false (reserved_slots cs !! Z.to_nat slot).

Definition reserve_constant_slot `{MpiLib} (upper : Z) (cs : constants_state)
  : constants_state :=
  let value := if handle64 then u64 upper else u32 (u64 upper) in
  let kind := u32 (Z.shiftr value MANA_VIRT_ID_KIND_SHIFT) in
  if (negb (Z.shiftr value 32 =? 0)) || (MANA_NUM_KINDS <=? u32 (kind - 1))
  then cs
  else
    let slot := Z.land value MANA_VIRT_ID_SLOT_MASK in
    let slots := reserved_slots cs in
    let slots := if Z.of_nat (length slots) <=? slot
                 then resize (Z.to_nat (slot + 1)) false slots else slots in
    cs <| reserved_slots := <[Z.to_nat slot := true]> slots |>.

(** The insertion's probe loop.  [fortran] is the result of the lower half's
    [handle_c2f]. *)
Fixpoint insert_from (fuel : nat) (upper lower fortran i : Z)
  : prog constants_state unit :=
  match fuel with
  | O => spin
  | S fuel' =>
      cs ← get_state;
      let c := table_at (upper_to_lower_constants cs) i in
      if negb (c_used c) || (c_upper c =? upper) then
        (if negb (c_used c) then
           modify (λ cs, cs <| num_constants ::= Z.succ |>) ;;
           n ← gets num_constants;
           assert_ (n <=? MANA_CONSTANTS_TABLE_SIZE / 4)
         else mret ()) ;;
        modify (λ cs, cs
          <| upper_to_lower_constants ::=
               insert (Z.to_nat i) (mk_constant upper lower fortran true) |>
          <| lower_to_upper_constants ::= insert lower upper |>)
      else insert_from fuel' upper lower fortran (next_probe i)
  end.

Definition set_upper_to_lower `{MpiLib} (handle_c2f : Z → Z → Z)
    (kind upper lower : Z) : prog constants_state unit :=
  let fortran := handle_c2f kind lower in
  modify (λ cs, cs <| fortran_constants ::= insert (kind, fortran) upper |>) ;;
  modify (reserve_constant_slot upper) ;;
  insert_from (Z.to_nat MANA_CONSTANTS_TABLE_SIZE) upper lower fortran
    (constant_hash upper).

Definition is_predefined_id `{MpiLib} (id : mana_mpi_handle)
  : prog constants_state bool := λ cs,
  match find_constant (constant_key id) cs with
  | Some c => Ok (bool_decide (is_Some c)) cs
  | None => Spin
  end.

Definition lower_of_constant (key : Z) : prog constants_state Z := λ cs,
  match find_constant key cs with
  | Some (Some c) => Ok (c_lower c) cs
  | Some None => Ok key cs
  | None => Spin
  end.

Definition upper_of_constant (key : Z) : prog constants_state Z :=
  gets (λ cs, default key (lower_to_upper_constants cs !! key)).

(** [lower_half_handle()] and [upper_half_handle()], of the handles that MANA
    does not virtualize. *)
Definition lower_half_handle `{MpiLib} (handle : Z) : prog constants_state Z :=
  lower_of_constant (constant_key handle).
Definition upper_half_handle `{MpiLib} (handle : Z) : prog constants_state Z :=
  upper_of_constant (constant_key handle).

(** The constants that [init_predefined_virt_ids()] enters, in its order. *)
Definition PREDEFINED : list (Z * string) :=
  [ (MANA_GROUP_KIND, "GROUP_NULL"); (MANA_COMM_KIND, "COMM_NULL");
    (MANA_COMM_KIND, "COMM_WORLD"); (MANA_COMM_KIND, "COMM_SELF");
    (MANA_REQUEST_KIND, "REQUEST_NULL"); (MANA_MESSAGE_KIND, "MESSAGE_NULL");
    (MANA_OP_KIND, "OP_NULL"); (MANA_ERRHANDLER_KIND, "ERRHANDLER_NULL");
    (MANA_INFO_KIND, "INFO_NULL"); (MANA_WIN_KIND, "WIN_NULL");
    (MANA_FILE_KIND, "FILE_NULL"); (MANA_INFO_KIND, "INFO_ENV");
    (MANA_GROUP_KIND, "GROUP_EMPTY"); (MANA_MESSAGE_KIND, "MESSAGE_NO_PROC") ]
  ++ map (λ n, (MANA_OP_KIND, n))
    [ "MAX"; "MIN"; "SUM"; "PROD"; "LAND"; "BAND"; "LOR"; "BOR"; "LXOR";
      "BXOR"; "MAXLOC"; "MINLOC"; "REPLACE"; "NO_OP" ]
  ++ map (λ n, (MANA_DATATYPE_KIND, n))
    [ "DATATYPE_NULL"; "BYTE"; "PACKED"; "CHAR"; "SHORT"; "INT"; "LONG";
      "FLOAT"; "DOUBLE"; "LONG_DOUBLE"; "UNSIGNED_CHAR"; "SIGNED_CHAR";
      "UNSIGNED_SHORT"; "UNSIGNED_LONG"; "UNSIGNED"; "FLOAT_INT"; "DOUBLE_INT";
      "LONG_DOUBLE_INT"; "LONG_INT"; "SHORT_INT"; "2INT"; "WCHAR";
      "LONG_LONG_INT"; "LONG_LONG"; "UNSIGNED_LONG_LONG"; "CHARACTER";
      "LOGICAL"; "INTEGER"; "INTEGER1"; "INTEGER2"; "INTEGER4"; "INTEGER8";
      "REAL"; "REAL4"; "REAL8"; "REAL16"; "DOUBLE_PRECISION"; "COMPLEX";
      "COMPLEX8"; "COMPLEX16"; "COMPLEX32"; "DOUBLE_COMPLEX"; "2REAL";
      "2DOUBLE_PRECISION"; "2INTEGER"; "INT8_T"; "UINT8_T"; "INT16_T";
      "UINT16_T"; "INT32_T"; "UINT32_T"; "INT64_T"; "UINT64_T"; "AINT";
      "OFFSET"; "C_BOOL"; "C_COMPLEX"; "C_FLOAT_COMPLEX"; "C_DOUBLE_COMPLEX";
      "C_LONG_DOUBLE_COMPLEX"; "CXX_BOOL"; "CXX_FLOAT_COMPLEX";
      "CXX_DOUBLE_COMPLEX"; "CXX_LONG_DOUBLE_COMPLEX"; "COUNT" ]
  ++ [ (MANA_ERRHANDLER_KIND, "ERRORS_ARE_FATAL");
       (MANA_ERRHANDLER_KIND, "ERRORS_RETURN") ].

(** The table part of [init_predefined_virt_ids()]; at restart it runs again
    with the lower half's new values. *)
Definition init_predefined_constants `{MpiLib} (handle_c2f : Z → Z → Z)
    (lower_const : string → Z) : prog constants_state unit :=
  modify (λ cs, cs <| lower_to_upper_constants := ∅ |>
                   <| fortran_constants := ∅ |>) ;;
  for_each PREDEFINED (λ '(kind, name),
    set_upper_to_lower handle_c2f kind (upper_const name) (lower_const name)).

(** ** The hash table refines a finite map *)

(** The [k]-th cell that a probe from hash value [h] visits. *)
Definition probe (h : Z) (k : nat) : Z := (h + Z.of_nat k) mod MANA_CONSTANTS_TABLE_SIZE.

(** A probe for [u] goes on past cell [i]. *)
Definition blocked (tbl : list mana_constant) (u i : Z) : Prop :=
  c_used (table_at tbl i) = true ∧ c_upper (table_at tbl i) ≠ u.
#[export] Instance blocked_dec tbl u i : Decision (blocked tbl u i).
Proof. unfold blocked. apply _. Defined.

Definition in_table (tbl : list mana_constant) (u : Z) (c : mana_constant) : Prop :=
  ∃ j : nat, tbl !! j = Some c ∧ c_used c = true ∧ c_upper c = u.

(** A used cell is reached from the hash value of its key through cells that
    do not stop a probe for that key. *)
Definition reachable_cell (tbl : list mana_constant) (j : nat) (c : mana_constant) : Prop :=
  ∃ k : nat, (k < 512)%nat ∧ Z.of_nat j = probe (constant_hash (c_upper c)) k ∧
    ∀ m : nat, (m < k)%nat → blocked tbl (c_upper c) (probe (constant_hash (c_upper c)) m).

Definition used_count (tbl : list mana_constant) : nat :=
  length (filter (λ c, c_used c = true) tbl).

Record table_ok (cs : constants_state) : Prop := {
  table_length : length (upper_to_lower_constants cs) = 512%nat;
  table_paths : ∀ j c, upper_to_lower_constants cs !! j = Some c →
    c_used c = true → reachable_cell (upper_to_lower_constants cs) j c;
  table_count : num_constants cs = Z.of_nat (used_count (upper_to_lower_constants cs));
  table_sparse : num_constants cs ≤ MANA_CONSTANTS_TABLE_SIZE / 4
}.

(** [cs] represents the map [m] from upper values to table entries. *)
Record repr (cs : constants_state) (m : gmap Z mana_constant) : Prop := {
  repr_ok : table_ok cs;
  repr_map : ∀ u c, m !! u = Some c ↔ in_table (upper_to_lower_constants cs) u c;
  repr_size : num_constants cs = Z.of_nat (size m)
}.

Lemma probe_range h k : 0 ≤ probe h k < 512.
Proof. apply Z.mod_pos_bound. unfold MANA_CONSTANTS_TABLE_SIZE. lia. Qed.

Lemma constant_hash_range u : 0 ≤ constant_hash u < 512.
Proof.
  unfold constant_hash, MANA_CONSTANTS_TABLE_SIZE.
  change (512 - 1) with (2 ^ 9 - 1). rewrite land_ones_mod by lia.
  apply Z.mod_pos_bound. lia.
Qed.

Lemma probe_0 u : probe (constant_hash u) 0 = constant_hash u.
Proof.
  unfold probe. rewrite Z.add_0_r. apply Z.mod_small.
  apply constant_hash_range.
Qed.

Lemma next_probe_probe h k : next_probe (probe h k) = probe h (S k).
Proof.
  pose proof (probe_range h k). unfold next_probe, MANA_CONSTANTS_TABLE_SIZE.
  rewrite u32_small by lia. change (512 - 1) with (2 ^ 9 - 1).
  rewrite land_ones_mod by lia. unfold probe, MANA_CONSTANTS_TABLE_SIZE.
  change (2 ^ 9) with 512. rewrite Zplus_mod_idemp_l. f_equal. lia.
Qed.
#[local] Hint Resolve probe_range constant_hash_range : mana.

Lemma least_nat (P : nat → Prop) `{∀ n, Decision (P n)} n :
  P n → ∃ k, (k ≤ n)%nat ∧ P k ∧ ∀ m, (m < k)%nat → ¬ P m.
Proof.
  induction n as [n IH] using lt_wf_ind. intros Hn.
  destruct (decide (Exists P (seq 0 n))) as [He|He].
  - apply Exists_exists in He as (m & Hm & HP).
    apply elem_of_seq in Hm. destruct (IH m) as (k & ? & ? & ?); [lia|done|].
    exists k. split; [lia|done].
  - exists n. split_and!; [done..|]. intros m Hm HP. apply He.
    apply Exists_exists. exists m. split; [|done]. apply elem_of_seq. lia.
Qed.

Lemma find_from_stop tbl u h k fuel a :
  (∀ m : nat, (a ≤ m < k)%nat → blocked tbl u (probe h m)) →
  ¬ blocked tbl u (probe h k) → (a ≤ k < a + fuel)%nat →
  find_from fuel tbl u (probe h a) =
    Some (if c_used (table_at tbl (probe h k))
          then Some (table_at tbl (probe h k)) else None).
Proof.
  revert a. induction fuel as [|fuel IH]; intros a Hb Hs Hk; [lia|]. simpl.
  destruct (decide (a = k)) as [->|Hne].
  - unfold blocked in Hs. destruct (c_used _) eqn:Hu; simpl; [|done].
    destruct (Z.eqb_spec (c_upper (table_at tbl (probe h k))) u) as [E|E]; [done|].
    by destruct Hs.
  - destruct (Hb a) as [Hu Hne']; [lia|]. rewrite Hu. simpl.
    apply Z.eqb_neq in Hne' as ->. rewrite next_probe_probe. apply IH; [|done|lia].
    intros. apply Hb. lia.
Qed.

Lemma not_blocked_key tbl u i :
  ¬ blocked tbl u i → c_used (table_at tbl i) = true → c_upper (table_at tbl i) = u.
Proof.
  intros Hb Hu. destruct (decide (c_upper (table_at tbl i) = u)) as [|Hne]; [done|].
  by destruct Hb.
Qed.

Lemma used_count_full tbl :
  (∀ c, c ∈ tbl → c_used c = true) → used_count tbl = length tbl.
Proof.
  intros H. unfold used_count. f_equal.
  induction tbl as [|c tbl IH]; [done|].
  rewrite filter_cons_True by (apply H; left). f_equal. apply IH. set_solver.
Qed.

Lemma table_at_lookup (tbl : list mana_constant) (j : nat) c :
  tbl !! j = Some c → table_at tbl (Z.of_nat j) = c.
Proof. unfold table_at. rewrite Nat2Z.id. by intros ->. Qed.

Lemma table_at_probe tbl h k :
  length tbl = 512%nat → tbl !! Z.to_nat (probe h k) = Some (table_at tbl (probe h k)).
Proof.
  intros Hl. unfold table_at. destruct (tbl !! _) eqn:E; [done|].
  apply lookup_ge_None in E. pose proof (probe_range h k). lia.
Qed.

(** Some cell stops every probe: at most a quarter of the cells are used. *)
Lemma stop_exists cs u :
  table_ok cs → ∃ k : nat, (k < 512)%nat ∧
    ¬ blocked (upper_to_lower_constants cs) u (probe (constant_hash u) k) ∧
    ∀ m : nat, (m < k)%nat →
      blocked (upper_to_lower_constants cs) u (probe (constant_hash u) m).
Proof.
  intros [Hl _ Hc Hs]. set (tbl := upper_to_lower_constants cs) in *.
  destruct (decide (Forall (λ c, c_used c = true) tbl)) as [Hall|Hall].
  { rewrite used_count_full in Hc by (by apply Forall_forall).
    unfold MANA_CONSTANTS_TABLE_SIZE in *. rewrite Hc, Hl in Hs. by vm_compute in Hs. }
  apply not_Forall_Exists in Hall; [|apply _].
  apply Exists_exists in Hall as (c & [j Hj]%list_elem_of_lookup & Hu).
  pose proof (lookup_lt_Some _ _ _ Hj) as Hlt.
  set (k := Z.to_nat ((Z.of_nat j - constant_hash u) mod 512)).
  assert (probe (constant_hash u) k = Z.of_nat j) as Hk.
  { unfold probe, k, MANA_CONSTANTS_TABLE_SIZE.
    rewrite Z2Nat.id by (apply Z.mod_pos_bound; lia).
    rewrite Zplus_mod_idemp_r.
    replace (_ + (_ - _)) with (Z.of_nat j) by lia. apply Z.mod_small. lia. }
  destruct (least_nat (λ k, ¬ blocked tbl u (probe (constant_hash u) k)) k)
    as (k' & Hk' & Hst & Hm).
  { simpl. rewrite Hk. unfold blocked. rewrite (table_at_lookup _ _ _ Hj). naive_solver. }
  exists k'. split_and!; [|done|].
  - pose proof (Z.mod_pos_bound (Z.of_nat j - constant_hash u) 512). lia.
  - intros m ?. destruct (decide (blocked tbl u (probe (constant_hash u) m))); naive_solver.
Qed.

(** The probe loop ends, and finds exactly the entries of the table. *)
Lemma find_constant_spec cs u :
  table_ok cs →
  ∃ r, find_constant u cs = Some r ∧
    ∀ c, r = Some c ↔ in_table (upper_to_lower_constants cs) u c.
Proof.
  intros Hok. destruct (stop_exists cs u Hok) as (k & Hk & Hst & Hm).
  pose proof (table_length _ Hok) as Hl.
  eexists. split.
  { unfold find_constant. rewrite <- (probe_0 u) at 1.
    apply (find_from_stop _ _ _ k); [intros; apply Hm; lia|done|].
    unfold MANA_CONSTANTS_TABLE_SIZE. lia. }
  intros c. split.
  - destruct (c_used _) eqn:Hu; [|done]. intros [= <-].
    exists (Z.to_nat (probe (constant_hash u) k)). split_and!; [by apply table_at_probe|done|].
    by apply not_blocked_key.
  - intros (j & Hj & Hu & <-).
    destruct (table_paths _ Hok j c Hj Hu) as (k' & Hk' & Hjk & Hpath).
    assert (k = k') as ->.
    { apply Nat.le_antisymm; apply Nat.nlt_ge; intros Hlt.
      - destruct (Hm k' Hlt) as [_ Hne]. rewrite <- Hjk in Hne.
        by rewrite (table_at_lookup _ _ _ Hj) in Hne.
      - by apply Hst, Hpath. }
    rewrite <- Hjk, (table_at_lookup _ _ _ Hj), Hu. done.
Qed.

(** ** Insertion *)

Definition put_constant (upper lower fortran i : Z) (cs : constants_state)
  : constants_state :=
  cs <| upper_to_lower_constants ::=
          insert (Z.to_nat i) (mk_constant upper lower fortran true) |>
     <| lower_to_upper_constants ::= insert lower upper |>.

Lemma insert_from_stop u l f h k fuel a cs :
  let tbl := upper_to_lower_constants cs in
  (∀ m : nat, (a ≤ m < k)%nat → blocked tbl u (probe h m)) →
  ¬ blocked tbl u (probe h k) → (a ≤ k < a + fuel)%nat →
  insert_from fuel u l f (probe h a) cs =
    if c_used (table_at tbl (probe h k))
    then Ok () (put_constant u l f (probe h k) cs)
    else if Z.succ (num_constants cs) <=? MANA_CONSTANTS_TABLE_SIZE / 4
    then Ok () (put_constant u l f (probe h k) (cs <| num_constants ::= Z.succ |>))
    else Abort.
Proof.
  intros tbl. revert a. induction fuel as [|fuel IH]; intros a Hb Hs Hk; [lia|].
  simpl. unfold get_state, mbind at 1, prog_bind at 1.
  destruct (decide (a = k)) as [->|Hne].
  - fold tbl. destruct (c_used (table_at tbl (probe h k))) eqn:Hu; simpl.
    + unfold blocked in Hs. destruct (Z.eqb_spec (c_upper (table_at tbl (probe h k))) u)
        as [E|E]; [done|]. by destruct Hs.
    + unfold modify, gets, mbind, prog_bind, assert_. simpl.
      by destruct (_ <=? _).
  - destruct (Hb a) as [Hu Hne']; [lia|]. fold tbl. rewrite Hu. simpl.
    apply Z.eqb_neq in Hne' as ->. rewrite next_probe_probe. apply IH; [|done|lia].
    intros. apply Hb. lia.
Qed.

Lemma table_at_insert tbl s i (c : mana_constant) :
  0 ≤ s < 512 → 0 ≤ i → length tbl = 512%nat →
  table_at (<[Z.to_nat s := c]> tbl) i = if decide (i = s) then c else table_at tbl i.
Proof.
  intros Hs Hi Hl. unfold table_at. case_decide as E.
  - subst. rewrite list_lookup_insert_eq; [done|lia].
  - by rewrite list_lookup_insert_ne by lia.
Qed.

(** Overwriting the cell where the probe for [u] stops keeps other probes going. *)
Lemma blocked_insert tbl u s c u' i :
  length tbl = 512%nat → 0 ≤ s < 512 → 0 ≤ i → ¬ blocked tbl u s →
  c_used c = true → c_upper c = u → blocked tbl u' i →
  blocked (<[Z.to_nat s := c]> tbl) u' i.
Proof.
  intros Hl Hs Hi Hst Hcu Hck [Hu Hne]. unfold blocked.
  rewrite table_at_insert by done. case_decide as E; [|done]. subst i.
  split; [done|]. intros Hc. apply Hst. split; [done|congruence].
Qed.

Lemma used_count_insert tbl (j : nat) c c' :
  tbl !! j = Some c → c_used c' = true →
  used_count (<[j := c']> tbl) =
    if c_used c then used_count tbl else S (used_count tbl).
Proof.
  unfold used_count. revert j. induction tbl as [|x tbl IH]; intros [|j] Hj Hu; simplify_eq/=.
  - rewrite !filter_cons, Hu. destruct (c_used c); by repeat case_decide.
  - rewrite !filter_cons. specialize (IH j Hj Hu).
    case_decide; simpl; destruct (c_used c); congruence.
Qed.

Lemma put_constant_table u l f i cs :
  upper_to_lower_constants (put_constant u l f i cs) =
    <[Z.to_nat i := mk_constant u l f true]> (upper_to_lower_constants cs).
Proof. done. Qed.

Section insertion.
Context (cs : constants_state) (u l f : Z) (k : nat).
Context (Hok : table_ok cs) (Hk : (k < 512)%nat).
Let tbl := upper_to_lower_constants cs.
Let s := probe (constant_hash u) k.
Context (Hst : ¬ blocked tbl u s)
  (Hm : ∀ m : nat, (m < k)%nat → blocked tbl u (probe (constant_hash u) m)).
Let c := mk_constant u l f true.
Let tbl' := <[Z.to_nat s := c]> tbl.

Lemma insertion_paths j c' :
  tbl' !! j = Some c' → c_used c' = true → reachable_cell tbl' j c'.
Proof.
  intros Hj Hu. pose proof (table_length _ Hok) as Hl.
  pose proof (probe_range (constant_hash u) k) as Hs.
  assert (∀ u' m, blocked tbl u' (probe (constant_hash u') m) →
                  blocked tbl' u' (probe (constant_hash u') m)) as Hbl.
  { intros. apply (blocked_insert _ u); try done. apply probe_range. }
  destruct (decide (j = Z.to_nat s)) as [->|Hne].
  - unfold tbl' in Hj. rewrite list_lookup_insert_eq in Hj by (unfold tbl, s; lia).
    injection Hj as <-. exists k. split_and!; [done| |].
    + rewrite Z2Nat.id by (unfold s; lia). done.
    + intros m Hlt. by apply Hbl, Hm.
  - unfold tbl' in Hj. rewrite list_lookup_insert_ne in Hj by done.
    destruct (table_paths _ Hok j c' Hj Hu) as (k' & ? & ? & Hp).
    exists k'. split_and!; [done|done|]. intros m Hlt. by apply Hbl, Hp.
Qed.

Lemma insertion_in_table u' c' :
  in_table tbl' u' c' ↔ (u' = u ∧ c' = c) ∨ (u' ≠ u ∧ in_table tbl u' c').
Proof.
  pose proof (table_length _ Hok) as Hl.
  pose proof (probe_range (constant_hash u) k) as Hs.
  assert (tbl !! Z.to_nat s = Some (table_at tbl s)) as Hat by (by apply table_at_probe).
  destruct (find_constant_spec cs u Hok) as (r & Hr & Hin).
  split.
  - intros (j & Hj & Hu & <-). destruct (decide (j = Z.to_nat s)) as [->|Hne].
    + unfold tbl' in Hj. rewrite list_lookup_insert_eq in Hj by (unfold tbl, s; lia).
      injection Hj as <-. by left.
    + unfold tbl' in Hj. rewrite list_lookup_insert_ne in Hj by done.
      right. split; [|by exists j]. intros Heq. apply Hne.
      destruct (table_paths _ Hok j c' Hj Hu) as (k' & ? & Hjk & Hp).
      rewrite Heq in Hjk, Hp.
      assert (k' = k) as ->.
      { apply Nat.le_antisymm; apply Nat.nlt_ge; intros Hlt.
        - by apply Hst, Hp.
        - destruct (Hm k' Hlt) as [_ Hne']. rewrite <- Hjk in Hne'.
          by rewrite (table_at_lookup _ _ _ Hj) in Hne'. }
      unfold s. lia.
  - intros [[-> ->]|[Hne (j & Hj & Hu & <-)]].
    + exists (Z.to_nat s). split_and!; [|done|done].
      apply list_lookup_insert_eq. unfold tbl, s. lia.
    + exists j. split_and!; [|done|done]. unfold tbl'.
      rewrite list_lookup_insert_ne; [done|]. intros <-. apply Hst.
      rewrite Hat in Hj. injection Hj as Hj. unfold blocked. by rewrite Hj.
Qed.
End insertion.

(** ** Refinement theorems *)

Lemma insert_from_refines cs m u l f :
  repr cs m →
  (is_Some (m !! u) ∨ Z.of_nat (size m) < MANA_CONSTANTS_TABLE_SIZE / 4) →
  ∃ cs', insert_from (Z.to_nat MANA_CONSTANTS_TABLE_SIZE) u l f (constant_hash u) cs = Ok () cs' ∧
    repr cs' (<[u := mk_constant u l f true]> m) ∧
    lower_to_upper_constants cs' = <[l := u]> (lower_to_upper_constants cs) ∧
    fortran_constants cs' = fortran_constants cs ∧ reserved_slots cs' = reserved_slots cs.
Proof.
  intros [Hok Hmap Hsize] Hroom.
  destruct (stop_exists cs u Hok) as (k & Hk & Hst & Hm).
  pose proof (table_length _ Hok) as Hl.
  pose proof (probe_range (constant_hash u) k) as Hs.
  pose proof (table_at_probe _ (constant_hash u) k Hl) as Hat.
  pose proof (used_count_insert _ _ _ (mk_constant u l f true) Hat eq_refl) as Hcnt.
  pose proof (insertion_paths cs u l f k Hok Hk Hst Hm) as Hpaths.
  pose proof (insertion_in_table cs u l f k Hok Hk Hst Hm) as Hin.
  pose proof (table_sparse _ Hok) as Hsp. pose proof (table_count _ Hok) as Hco.
  pose proof (insert_from_stop u l f (constant_hash u) k
    (Z.to_nat MANA_CONSTANTS_TABLE_SIZE) 0 cs) as Hins. cbv zeta in Hins.
  rewrite probe_0 in Hins.
  rewrite Hins by (done || unfold MANA_CONSTANTS_TABLE_SIZE; lia || (intros; apply Hm; lia)).
  assert (∀ c, m !! u = Some c → c_used (table_at (upper_to_lower_constants cs)
    (probe (constant_hash u) k)) = true) as Hused.
  { intros c Hc. apply Hmap in Hc as (j & Hj & Hu & Huc).
    destruct (table_paths _ Hok j c Hj Hu) as (k' & ? & Hjk & Hp). rewrite Huc in *.
    assert (k = k') as ->; [|by rewrite <- Hjk, (table_at_lookup _ _ _ Hj)].
    apply Nat.le_antisymm; apply Nat.nlt_ge; intros Hlt; [|by apply Hst, Hp].
    destruct (Hm k' Hlt) as [_ Hne]. rewrite <- Hjk in Hne.
    by rewrite (table_at_lookup _ _ _ Hj) in Hne. }
  destruct (c_used (table_at _ (probe _ k))) eqn:Hu.
  - assert (is_Some (m !! u)) as [c Hc].
    { exists (table_at (upper_to_lower_constants cs) (probe (constant_hash u) k)).
      apply Hmap. exists (Z.to_nat (probe (constant_hash u) k)).
      split_and!; [done|done|]. by apply not_blocked_key. }
    eexists. split; [done|]. split; [|done]. split.
    + split; rewrite ?put_constant_table, ?length_insert; [done..| |done].
      rewrite Hcnt. exact Hco.
    + intros u' c'. rewrite put_constant_table, Hin, lookup_insert_Some, Hmap. clear. naive_solver.
    + rewrite map_size_insert_Some by eauto. done.
  - assert (m !! u = None) as Hn.
    { apply eq_None_not_Some. intros [c Hc]. specialize (Hused c Hc). congruence. }
    assert (Z.of_nat (size m) < MANA_CONSTANTS_TABLE_SIZE / 4) as Hlt.
    { destruct Hroom as [[c Hc]|]; [congruence|done]. }
    rewrite (proj2 (Z.leb_le _ _)) by lia.
    eexists. split; [done|]. split; [|done].
    set (cs' := put_constant _ _ _ _ _).
    assert (num_constants cs' = Z.succ (num_constants cs)) as En by done.
    assert (upper_to_lower_constants cs' = <[Z.to_nat (probe (constant_hash u) k) :=
      mk_constant u l f true]> (upper_to_lower_constants cs)) as Et by done.
    clearbody cs'. split; [split|..]; rewrite ?En, ?Et.
    + by rewrite length_insert.
    + exact Hpaths.
    + rewrite Hcnt. lia.
    + lia.
    + intros u' c'. rewrite Hin, lookup_insert_Some, Hmap. clear. naive_solver.
    + rewrite map_size_insert_None by done. lia.
Qed.

Lemma reserve_constant_slot_table `{MpiLib} u cs :
  upper_to_lower_constants (reserve_constant_slot u cs) = upper_to_lower_constants cs ∧
  num_constants (reserve_constant_slot u cs) = num_constants cs ∧
  lower_to_upper_constants (reserve_constant_slot u cs) = lower_to_upper_constants cs ∧
  fortran_constants (reserve_constant_slot u cs) = fortran_constants cs.
Proof. unfold reserve_constant_slot. by destruct (_ || _). Qed.

Lemma repr_ext cs cs' m :
  upper_to_lower_constants cs' = upper_to_lower_constants cs →
  num_constants cs' = num_constants cs → repr cs m → repr cs' m.
Proof. intros Ht Hn [[]]. split; [split|..]; rewrite ?Ht, ?Hn; done. Qed.

Lemma set_upper_to_lower_refines `{MpiLib} c2f cs m kind u l :
  repr cs m →
  (is_Some (m !! u) ∨ Z.of_nat (size m) < MANA_CONSTANTS_TABLE_SIZE / 4) →
  ∃ cs', set_upper_to_lower c2f kind u l cs = Ok () cs' ∧
    repr cs' (<[u := mk_constant u l (c2f kind l) true]> m) ∧
    lower_to_upper_constants cs' = <[l := u]> (lower_to_upper_constants cs) ∧
    fortran_constants cs' = <[(kind, c2f kind l) := u]> (fortran_constants cs) ∧
    reserved_slots cs' = reserved_slots (reserve_constant_slot u cs).
Proof.
  intros Hr Hroom. unfold set_upper_to_lower, modify, mbind, prog_bind.
  set (cs1 := cs <| fortran_constants ::= insert (kind, c2f kind l) u |>).
  destruct (reserve_constant_slot_table u cs1) as (E1 & E2 & E3 & E4).
  destruct (insert_from_refines (reserve_constant_slot u cs1) m u l (c2f kind l))
    as (cs' & -> & Hr' & H1 & H2 & H3); [by apply (repr_ext cs)|done|].
  exists cs'. split_and!; [done|done|by rewrite H1, E3|by rewrite H2, E4|].
  rewrite H3. unfold reserve_constant_slot, cs1. by destruct (_ || _).
Qed.

Lemma init_table_unused j c :
  upper_to_lower_constants init_constants !! j = Some c → c_used c = false.
Proof. cbv [init_constants upper_to_lower_constants]. by intros [-> _]%lookup_replicate. Qed.

Lemma repr_empty : repr init_constants ∅.
Proof.
  split; [split|..]; try done.
  - intros j c Hj Hu. apply init_table_unused in Hj. congruence.
  - intros u c. rewrite lookup_empty. split; [done|]. intros (j & Hj & Hu & _).
    apply init_table_unused in Hj. congruence.
Qed.

Lemma find_constant_repr cs m u : repr cs m → find_constant u cs = Some (m !! u).
Proof.
  intros [Hok Hmap _]. destruct (find_constant_spec cs u Hok) as (r & -> & Hr).
  f_equal. apply option_eq. intros c. by rewrite Hr, Hmap.
Qed.

(** ** Reserved slots *)

(** The values that a virtual handle can have: a kind in bits 31..28. *)
Definition virtual_value (h : Z) : Prop :=
  0 ≤ h < 2 ^ 31 ∧ 1 ≤ Z.shiftr h MANA_VIRT_ID_KIND_SHIFT ≤ MANA_NUM_KINDS.

(** The application cannot tell the handle [h] from the constant [upper]. *)
Definition same_handle `{MpiLib} (upper h : Z) : Prop :=
  constant_key upper = h.

(** [slot_is_reserved] is membership in the vector, padded with [false]. *)
Lemma slot_is_reserved_lookup cs slot :
  0 ≤ slot < 2 ^ 64 →
  slot_is_reserved cs slot = default false (reserved_slots cs !! Z.to_nat slot).
Proof.
  intros Hs. unfold slot_is_reserved. rewrite u64_small by done.
  destruct (Z.leb_spec (Z.of_nat (length (reserved_slots cs))) slot); [|done].
  rewrite lookup_ge_None_2 by lia. done.
Qed.

Lemma slot_mask_range h : 0 ≤ Z.land h MANA_VIRT_ID_SLOT_MASK < 2 ^ 24.
Proof.
  change MANA_VIRT_ID_SLOT_MASK with (2 ^ 24 - 1). rewrite land_ones_mod by lia.
  apply Z.mod_pos_bound. lia.
Qed.

Lemma reserve_constant_slot_lookup `{MpiLib} u cs slot :
  0 ≤ slot < 2 ^ 64 → slot_is_reserved cs slot = true →
  slot_is_reserved (reserve_constant_slot u cs) slot = true.
Proof.
  intros Hs. rewrite !slot_is_reserved_lookup by done.
  unfold reserve_constant_slot. destruct (_ || _); [done|]. cbv zeta.
  set (v := if handle64 then _ else _). cbn [reserved_slots set_field].
  destruct (reserved_slots cs !! Z.to_nat slot) as [b|] eqn:E; [|done].
  simpl. intros ->. pose proof (lookup_lt_Some _ _ _ E). pose proof (slot_mask_range v).
  destruct (decide (Z.to_nat (Z.land v MANA_VIRT_ID_SLOT_MASK) = Z.to_nat slot)) as [Hn|Hn].
  - rewrite Hn. rewrite list_lookup_insert_eq; [done|].
    destruct (Z.leb_spec (Z.of_nat (length (reserved_slots cs)))
      (Z.land v MANA_VIRT_ID_SLOT_MASK)); rewrite ?length_resize; lia.
  - rewrite list_lookup_insert_ne by done. destruct (Z.leb_spec (Z.of_nat (length (reserved_slots cs)))
      (Z.land v MANA_VIRT_ID_SLOT_MASK)); [|by rewrite E].
    rewrite lookup_resize by lia. by rewrite E.
Qed.

Lemma reserve_constant_slot_covers `{MpiLib} u h cs :
  virtual_value h → same_handle u h →
  slot_is_reserved (reserve_constant_slot u cs) (Z.land h MANA_VIRT_ID_SLOT_MASK) = true.
Proof.
  intros [Hh Hk] Hsame.
  assert ((if handle64 then u64 u else u32 (u64 u)) = h) as Hv.
  { unfold same_handle, constant_key, _handle, s32 in Hsame. unfold u64, u32.
    destruct handle64; [subst; apply Z.mod_small; lia|].
    rewrite Z.mod_mod_divide by (exists (2 ^ 32); lia).
    rewrite <- (Z.mod_small h (2 ^ 32)) by lia.
    rewrite <- Hsame, Zminus_mod_idemp_l. f_equal. lia. }
  pose proof (slot_mask_range h) as Hs.
  rewrite slot_is_reserved_lookup by lia.
  unfold reserve_constant_slot. cbv zeta. rewrite Hv.
  rewrite (proj2 (Z.eqb_eq (Z.shiftr h 32) 0))
    by (rewrite Z.shiftr_div_pow2 by lia; apply Z.div_small; lia).
  unfold MANA_NUM_KINDS in *. rewrite !u32_small by (rewrite ?u32_small; lia).
  rewrite (proj2 (Z.leb_gt _ _)) by lia. simpl.
  rewrite list_lookup_insert_eq; [done|].
  destruct (Z.leb_spec (Z.of_nat (length (reserved_slots cs))) (Z.land h MANA_VIRT_ID_SLOT_MASK));
    rewrite ?length_resize; lia.
Qed.

(** ** Filling the table *)

Section predefined.
Context `{MpiLib} (c2f : Z → Z → Z) (lower_const : string → Z).

Definition enter : Z * string → prog constants_state unit :=
  λ '(kind, name), set_upper_to_lower c2f kind (upper_const name) (lower_const name).

Definition uppers (l : list (Z * string)) : gset Z :=
  list_to_set ((λ x, upper_const x.2) <$> l).

(** Two names of one upper constant are names of one lower constant. *)
Definition coherent (l : list (Z * string)) : Prop :=
  ∀ x y, x ∈ l → y ∈ l → upper_const x.2 = upper_const y.2 → lower_const x.2 = lower_const y.2.
Definition coherent_inv (l : list (Z * string)) : Prop :=
  ∀ x y, x ∈ l → y ∈ l → lower_const x.2 = lower_const y.2 → upper_const x.2 = upper_const y.2.

(** What the loop has entered after the constants [l]. *)
Record entered (U : gset Z) (m0 : gmap Z mana_constant) (l : list (Z * string))
    (cs : constants_state) (m : gmap Z mana_constant) : Prop := {
  entered_repr : repr cs m;
  entered_dom : dom m ⊆ U;
  entered_lower : ∀ x, x ∈ l → ∃ c, m !! upper_const x.2 = Some c ∧ c_lower c = lower_const x.2;
  entered_other : ∀ u, u ∉ uppers l → m !! u = m0 !! u;
  entered_upper : ∀ x, x ∈ l →
    ∃ y, y ∈ l ∧ lower_const y.2 = lower_const x.2 ∧
      lower_to_upper_constants cs !! lower_const x.2 = Some (upper_const y.2);
  entered_reserved : ∀ x h, x ∈ l → virtual_value h → same_handle (upper_const x.2) h →
    slot_is_reserved cs (Z.land h MANA_VIRT_ID_SLOT_MASK) = true
}.

(** There is room for one of at most 128 constants. *)
Lemma table_room (U : gset Z) (m : gmap Z mana_constant) u :
  (size U ≤ 128)%nat → dom m ⊆ U → u ∈ U →
  is_Some (m !! u) ∨ Z.of_nat (size m) < MANA_CONSTANTS_TABLE_SIZE / 4.
Proof.
  intros HU Hd Hx. destruct (m !! u) eqn:E; [by left; eexists|]. right.
  assert (size (dom m) < size U)%nat as Hlt.
  { apply subset_size. split; [done|]. intros HUd. apply (HUd _) in Hx.
    apply elem_of_dom in Hx as [? ?]. congruence. }
  rewrite size_dom in Hlt. change (MANA_CONSTANTS_TABLE_SIZE / 4) with 128. lia.
Qed.

Lemma enter_step U m0 l x cs m :
  (size U ≤ 128)%nat → coherent (l ++ [x]) → upper_const x.2 ∈ U →
  entered U m0 l cs m →
  ∃ cs' m', enter x cs = Ok () cs' ∧ entered U m0 (l ++ [x]) cs' m'.
Proof.
  intros HU Hc Hx [Hr Hd Hl Ho Hu Hres]. destruct x as [kind name]. simpl in *.
  destruct (set_upper_to_lower_refines c2f cs m kind (upper_const name) (lower_const name))
    as (cs' & Hs & Hr' & Hlu & _ & Hrs); [done|by eapply table_room|].
  exists cs', (<[upper_const name := mk_constant (upper_const name) (lower_const name)
    (c2f kind (lower_const name)) true]> m).
  split; [done|]. split; [done| | | | |].
  - rewrite dom_insert_L. clear -Hd Hx. set_solver.
  - intros y [Hy| ->]%elem_of_snoc; [|by simpl; rewrite lookup_insert_eq; eexists].
    destruct (decide (upper_const y.2 = upper_const name)) as [E|E].
    + rewrite E, lookup_insert_eq. eexists. split; [done|]. simpl. symmetry.
      apply (Hc y (kind, name)); rewrite ?elem_of_snoc; auto.
    + rewrite lookup_insert_ne by done. auto.
  - intros u Hn. unfold uppers in *. rewrite fmap_app, list_to_set_app in Hn.
    apply not_elem_of_union in Hn as [Hn1 Hn2]. simpl in Hn2.
    rewrite lookup_insert_ne by (clear -Hn2; set_solver). by apply Ho.
  - intros y Hy. rewrite Hlu.
    destruct (decide (lower_const y.2 = lower_const name)) as [E|E].
    + exists (kind, name). rewrite E, lookup_insert_eq, elem_of_snoc. auto.
    + rewrite lookup_insert_ne by done.
      apply elem_of_snoc in Hy as [Hy|Hy]; [|by subst].
      destruct (Hu y Hy) as (z & ? & ? & ?). exists z. rewrite elem_of_snoc. auto.
  - intros y h Hy Hv Hsame. pose proof (slot_mask_range h).
    rewrite slot_is_reserved_lookup by lia. rewrite Hrs.
    rewrite <- slot_is_reserved_lookup by lia.
    apply elem_of_snoc in Hy as [Hy|Hy].
    + apply reserve_constant_slot_lookup; [lia|]. by apply (Hres y).
    + subst y. by apply reserve_constant_slot_covers.
Qed.

Lemma enter_all U m0 l2 l1 cs m :
  (size U ≤ 128)%nat → coherent (l1 ++ l2) → uppers l2 ⊆ U →
  entered U m0 l1 cs m →
  ∃ cs' m', for_each l2 enter cs = Ok () cs' ∧ entered U m0 (l1 ++ l2) cs' m'.
Proof.
  revert l1 cs m. induction l2 as [|x l2 IH]; intros l1 cs m HU Hc Hsub He.
  { rewrite app_nil_r. by exists cs, m. }
  destruct (enter_step U m0 l1 x cs m) as (cs1 & m1 & H1 & He1); [done| | |done|].
  { intros y z Hy Hz. apply Hc; apply elem_of_app; [apply elem_of_snoc in Hy|apply elem_of_snoc in Hz];
      rewrite elem_of_cons; clear -Hy Hz; tauto. }
  { apply Hsub. unfold uppers. clear. set_solver. }
  rewrite cons_middle, app_assoc in Hc |- *.
  destruct (IH (l1 ++ [x]) cs1 m1) as (cs' & m' & H2 & He'); [done|done| |done|].
  { unfold uppers in *. clear -Hsub. set_solver. }
  exists cs', m'. split; [|done]. simpl. unfold mbind, prog_bind. by rewrite H1.
Qed.
End predefined.

Lemma predefined_count `{MpiLib} : (size (uppers PREDEFINED) ≤ 128)%nat.
Proof.
  unfold uppers. etrans; [apply size_list_to_set_le|]. rewrite length_fmap.
  vm_compute. lia.
Qed.

Lemma init_predefined_entered `{MpiLib} c2f lower cs m :
  repr cs m → dom m ⊆ uppers PREDEFINED → coherent lower PREDEFINED →
  ∃ cs' m', init_predefined_constants c2f lower cs = Ok () cs' ∧
    entered lower (uppers PREDEFINED) m PREDEFINED cs' m'.
Proof.
  intros Hr Hd Hc. unfold init_predefined_constants, modify.
  set (cs0 := cs <| lower_to_upper_constants := ∅ |> <| fortran_constants := ∅ |>).
  destruct (enter_all c2f lower (uppers PREDEFINED) m PREDEFINED [] cs0 m)
    as (cs' & m' & Hf & He); [apply predefined_count|done|done| |].
  { split; [by apply (repr_ext cs)|done|..]; try done; intros x; intros; by destruct (not_elem_of_nil x). }
  exists cs', m'. split; [|done]. unfold mbind, prog_bind. exact Hf.
Qed.

(** C30. Predefined constants translate, at launch and at every restart.
    From a table that holds at most the upper half's predefined constants
    (the empty one, or the one of an earlier launch or restart), filling it
    with the lower half's values ends without hitting the sparseness
    assertion; afterwards each [MPI_<name>] is translated to
    [lh_info->MANA_<name>], every other key is translated to itself, the
    probe loops end, and the table can be refilled at the next restart. *)
Theorem predefined_constants_translate `{MpiLib} c2f lower cs m :
  repr cs m → dom m ⊆ uppers PREDEFINED → coherent lower PREDEFINED →
  ∃ cs' m', init_predefined_constants c2f lower cs = Ok () cs' ∧
    repr cs' m' ∧ dom m' ⊆ uppers PREDEFINED ∧
    (∀ kind name, (kind, name) ∈ PREDEFINED →
       lower_of_constant (upper_const name) cs' = Ok (lower name) cs') ∧
    (∀ key, key ∉ uppers PREDEFINED → lower_of_constant key cs' = Ok key cs').
Proof.
  intros Hr Hd Hc.
  destruct (init_predefined_entered c2f lower cs m Hr Hd Hc) as (cs' & m' & Hi & He).
  pose proof (entered_repr _ _ _ _ _ _ He) as Hr'.
  exists cs', m'. split_and!; [done|done|by eapply entered_dom|..].
  - intros kind name Hin. unfold lower_of_constant. rewrite (find_constant_repr _ _ _ Hr').
    destruct (entered_lower _ _ _ _ _ _ He (kind, name) Hin) as (c & Hm & Hl).
    simpl in Hm. by rewrite Hm, Hl.
  - intros key Hk. unfold lower_of_constant. rewrite (find_constant_repr _ _ _ Hr').
    rewrite (not_elem_of_dom_1 m' key); [done|]. intros Hin. apply Hk.
    by apply (entered_dom _ _ _ _ _ _ He).
Qed.

(** Translation to the lower half and back is the identity on predefined
    constants, provided that the lower half gives different constants
    different values. *)
Theorem constants_round_trip `{MpiLib} c2f lower cs m kind name :
  repr cs m → dom m ⊆ uppers PREDEFINED →
  coherent lower PREDEFINED → coherent_inv lower PREDEFINED →
  (kind, name) ∈ PREDEFINED →
  ∃ cs', init_predefined_constants c2f lower cs = Ok () cs' ∧
    (lower_of_constant (upper_const name) ≫= upper_of_constant) cs' =
      Ok (upper_const name) cs'.
Proof.
  intros Hr Hd Hc Hci Hin.
  destruct (init_predefined_entered c2f lower cs m Hr Hd Hc) as (cs' & m' & Hi & He).
  exists cs'. split; [done|].
  pose proof (entered_repr _ _ _ _ _ _ He) as Hr'.
  destruct (entered_lower _ _ _ _ _ _ He (kind, name) Hin) as (c & Hm & Hl).
  destruct (entered_upper _ _ _ _ _ _ He (kind, name) Hin) as (y & Hy & Heq & Hup).
  simpl in *. unfold mbind, prog_bind, lower_of_constant, upper_of_constant, gets.
  rewrite (find_constant_repr _ _ _ Hr'), Hm, Hl, Hup. simpl.
  by rewrite (Hci _ _ Hy Hin Heq).
Qed.

(** ** A library with 32-bit handles

    The values below are MPICH's shape: every constant is a 32-bit number
    with a kind in its upper bits. *)

Definition name_index (name : string) : Z :=
  match list_find (λ x, x.2 = name) PREDEFINED with
  | Some (i, _) => Z.of_nat i
  | None => 1000
  end.
Definition sample_lib : MpiLib := {|
  handle64 := false;
  upper_const := λ name, 0x44000000 + name_index name;
  MPI_SUCCESS := 0; MPI_ERR_TYPE := 3; MPI_ERR_COMM := 5; MPI_ERR_KEYVAL := 48;
  MPI_ANY_SOURCE := -2; MPI_ANY_TAG := -1; MPI_PROC_NULL := -1;
  MPI_UNDEFINED := -32766; MPI_CART := 2
|}.
Definition sample_lower (name : string) : Z := 0x54000000 + name_index name.
Definition sample_c2f (kind lower : Z) : Z := lower mod 1000.

Lemma sample_coherent : @coherent sample_lib sample_lower PREDEFINED.
Proof. intros x y _ _. unfold sample_lower. simpl. lia. Qed.
Lemma sample_coherent_inv : @coherent_inv sample_lib sample_lower PREDEFINED.
Proof. intros x y _ _. unfold sample_lower. simpl. lia. Qed.

Lemma predefined_constants_translate_witness :
  ∃ cs' : constants_state,
    @init_predefined_constants sample_lib sample_c2f sample_lower init_constants = Ok () cs' ∧
    lower_of_constant (@upper_const sample_lib "INT") cs' = Ok (sample_lower "INT") cs'.
Proof.
  destruct (@predefined_constants_translate sample_lib sample_c2f sample_lower
    init_constants ∅ repr_empty) as (cs' & m' & Hi & _ & _ & Ht & _).
  - set_solver.
  - apply sample_coherent.
  - exists cs'. split; [exact Hi|]. apply (Ht MANA_DATATYPE_KIND "INT").
    apply list_elem_of_In. vm_compute. tauto.
Defined.

Lemma constants_round_trip_witness :
  ∃ cs' : constants_state,
    @init_predefined_constants sample_lib sample_c2f sample_lower init_constants = Ok () cs' ∧
    (lower_of_constant (@upper_const sample_lib "COMM_WORLD") ≫= upper_of_constant) cs' =
      Ok (@upper_const sample_lib "COMM_WORLD") cs'.
Proof.
  apply (@constants_round_trip sample_lib sample_c2f sample_lower init_constants ∅
    MANA_COMM_KIND "COMM_WORLD" repr_empty).
  - set_solver.
  - apply sample_coherent.
  - apply sample_coherent_inv.
  - apply list_elem_of_In. vm_compute. tauto.
Defined.
