(* ===== verification/VirtualId.v ===== *)
(** * The virtual-ID table ([src/src/virtual_id.h], [src/src/virtual_id.cpp])

    A virtual handle packs a kind, a generation and a slot of a chunked
    table.  This file models the allocation, lookup, update and release of
    handles and proves the invariant [vid_ok] of the table: the slots below
    the high-water mark are live, reserved or on the free list, and a live
    slot holds the handle that names it.

    A pointer to an entry is the number of its slot.  [malloc] and [calloc]
    are taken to succeed.  The table's atomic loads and stores are the plain
    reads and writes of one process; the checkpoint thread's concurrent
    lookups read one entry each.  [real_id] holds the value of the handle
    member of the entry's kind. *)
From S2P Require Import Prelude Mpi Constants.

Record vid_state := mk_vid {
  consts : constants_state;
  virt_id_chunks : gmap Z (gmap Z virt_id_entry);
  virt_id_free_head : Z;
  virt_id_high_water : Z;
  virt_id_next_seq : Z;
  virt_id_live : Z;
  gids_made : Z;
  self_desc : option mana_comm_desc;
  g_world_comm : Z;
  datatype_desc_pool : list mana_datatype_desc;
  datatypes_freed_while_pending : list Z;
  pendingHead : option Z;
  pendingTail : option Z;
  pendingIssends : Z
}.
#[export] Instance eta_vid : Eta vid_state := λ s,
  mk_vid (consts s) (virt_id_chunks s) (virt_id_free_head s)
    (virt_id_high_water s) (virt_id_next_seq s) (virt_id_live s)
    (gids_made s) (self_desc s) (g_world_comm s) (datatype_desc_pool s)
    (datatypes_freed_while_pending s) (pendingHead s) (pendingTail s)
    (pendingIssends s).
Definition init_vid : vid_state :=
  mk_vid init_constants ∅ (-1) 0 0 0 0 None 0 [] [] None None 0.

(** ** Entries of the table *)

Definition chunk_of (slot : Z) : Z := Z.shiftr slot MANA_VIRT_ID_CHUNK_SHIFT.
Definition chunk_index (slot : Z) : Z := Z.land slot (MANA_VIRT_ID_CHUNK_SIZE - 1).

(** The entry of a slot, or [None] if its chunk is not allocated.  A chunk is
    all zeros when it is allocated. *)
Definition slot_entry (st : vid_state) (slot : Z) : option virt_id_entry :=
  match virt_id_chunks st !! chunk_of slot with
  | Some chunk => Some (default zero_entry (chunk !! chunk_index slot))
  | None => None
  end.

Definition update_entry (slot : Z) (f : virt_id_entry → virt_id_entry)
    (st : vid_state) : vid_state :=
  st <| virt_id_chunks ::= alter (λ chunk,
          <[chunk_index slot := f (default zero_entry (chunk !! chunk_index slot))]> chunk)
        (chunk_of slot) |>.

(** ** Lookup *)

(** [lookup_virt_id_entry()]: the slot of a handle in use. *)
Definition lookup_virt_id_entry `{MpiLib} (st : vid_state) (virt_id : mana_mpi_handle)
  : option Z :=
  if handle64 && negb (Z.shiftr (u64 virt_id) 32 =? 0) then None else
  let handle := u32 (_handle virt_id) in
  let kind := Z.shiftr handle MANA_VIRT_ID_KIND_SHIFT in
  if MANA_NUM_KINDS <=? u32 (kind - 1) then None else
  let slot := Z.land handle MANA_VIRT_ID_SLOT_MASK in
  match slot_entry st slot with
  | None => None
  | Some entry => if virt entry =? _handle virt_id then Some slot else None
  end.

(** The entry that [lookup_virt_id_entry()] returns. *)
Definition entry_of `{MpiLib} (st : vid_state) (virt_id : mana_mpi_handle)
  : option virt_id_entry :=
  slot ← lookup_virt_id_entry st virt_id; slot_entry st slot.

(** [get_virt_id_entry()]: an invalid handle is reported and the process
    loops ([DEBUG_VIRTID]). *)
Definition get_virt_id_entry `{MpiLib} (virt_id : mana_mpi_handle) : prog vid_state Z := λ st,
  match lookup_virt_id_entry st virt_id with
  | Some slot => Ok slot st
  | None => Spin
  end.

Definition get_real_id_slow `{MpiLib} (virt_id : mana_mpi_handle) : prog vid_state Z := λ st,
  match find_constant (constant_key virt_id) (consts st) with
  | None => Spin
  | Some (Some c) => Ok (c_lower c) st
  | Some None =>
      (slot ← get_virt_id_entry virt_id;
       entry ← (st ← get_state; deref (slot_entry st slot));
       mret (real_id entry)) st
  end.

Definition get_real_id `{MpiLib} (virt_id : mana_mpi_handle) : prog vid_state Z := λ st,
  match entry_of st virt_id with
  | Some entry => Ok (real_id entry) st
  | None => get_real_id_slow virt_id st
  end.

Definition get_virt_id_desc `{MpiLib} (virt_id : mana_mpi_handle) : prog vid_state descriptor := λ st,
  match entry_of st virt_id with
  | Some entry => Ok (desc entry) st
  | None =>
      match find_constant (constant_key virt_id) (consts st) with
      | None => Spin
      | Some (Some _) => Ok NoDesc st
      | Some None =>
          (slot ← get_virt_id_entry virt_id;
           entry ← (st ← get_state; deref (slot_entry st slot));
           mret (desc entry)) st
      end
  end.

(** ** Allocation *)

(** [while (slot_is_reserved(slot)) slot++]: no slot past the end of the
    vector is reserved, so its length bounds the loop. *)
Fixpoint skip_reserved (fuel : nat) (cs : constants_state) (slot : Z) : Z :=
  match fuel with
  | O => slot
  | S fuel' => if slot_is_reserved cs slot then skip_reserved fuel' cs (slot + 1) else slot
  end.

(** The chunks from the high-water mark's to the slot's. *)
Definition alloc_chunks (from upto : Z) : prog vid_state unit :=
  for_each (seqZ from (upto - from + 1)) (λ chunk,
    modify (λ st, st <| virt_id_chunks ::= λ chunks,
      match chunks !! chunk with
      | Some _ => chunks
      | None => <[chunk := ∅]> chunks
      end |>)).

Definition alloc_slot : prog vid_state Z :=
  st ← get_state;
  if 0 <=? virt_id_free_head st then
    let slot := virt_id_free_head st in
    entry ← deref (slot_entry st slot);
    modify (λ st, st <| virt_id_free_head := next_free entry |>) ;;
    mret slot
  else
    let slot := skip_reserved (length (reserved_slots (consts st)))
                  (consts st) (virt_id_high_water st) in
    if MANA_VIRT_ID_SLOT_MASK <? slot then abort else
    alloc_chunks (chunk_of (virt_id_high_water st)) (chunk_of slot) ;;
    modify (λ st, st <| virt_id_high_water := slot + 1 |>) ;;
    mret slot.

Definition make_handle (kind g slot : Z) : Z :=
  s32 (Z.lor (Z.lor (Z.shiftl kind MANA_VIRT_ID_KIND_SHIFT)
    (Z.shiftl (Z.land g MANA_VIRT_ID_GEN_MASK) MANA_VIRT_ID_GEN_SHIFT)) slot).

Definition add_virt_id (real : Z) (d : descriptor) (kind : Z) : prog vid_state mana_mpi_handle :=
  slot ← alloc_slot;
  st ← get_state;
  entry ← deref (slot_entry st slot);
  let handle := make_handle kind (gen entry) slot in
  let next_seq := u64 (virt_id_next_seq st + 1) in
  modify (λ st, st <| virt_id_next_seq := next_seq |>) ;;
  modify (update_entry slot (λ e, e
    <| real_id := real |> <| desc := d |> <| entry_seq := next_seq |>
    <| call ::= λ c, c <| call_type := UNKNOW_REQUEST |> |>
    <| collective := false |> <| completed := false |> <| virt := handle |>)) ;;
  modify (λ st, st <| virt_id_live ::= Z.succ |>) ;;
  mret handle.

(** ** Release and update *)

(** [free_desc()]: the descriptor is cast by kind, so a NULL or mismatched one
    is an invalid access.  A datatype's goes to the free list. *)
Definition free_desc (d : descriptor) (kind : Z) : prog vid_state unit :=
  if kind =? MANA_DATATYPE_KIND then
    match d with
    | DatatypeDesc t => modify (λ st, st <| datatype_desc_pool ::= cons t |>)
    | _ => abort
    end
  else if kind =? MANA_COMM_KIND then
    match d with CommDesc _ => mret () | _ => abort end
  else if kind =? MANA_GROUP_KIND then
    match d with GroupDesc _ => mret () | _ => abort end
  else mret ().

Definition free_virt_id `{MpiLib} (virt_id : mana_mpi_handle) : prog vid_state unit :=
  st ← get_state;
  match lookup_virt_id_entry st virt_id with
  | None => abort
  | Some slot =>
      entry ← deref (slot_entry st slot);
      assert_ (bool_decide (call_type (call entry) = UNKNOW_REQUEST)) ;;
      let kind := Z.shiftr (_handle virt_id) MANA_VIRT_ID_KIND_SHIFT in
      let d := desc entry in
      modify (update_entry slot (λ e, e
        <| gen ::= λ g, u32 (g + 1) |> <| virt := 0 |> <| desc := NoDesc |>)) ;;
      free_desc d kind ;;
      st ← get_state;
      modify (update_entry slot (λ e, e <| next_free := virt_id_free_head st |>)) ;;
      modify (λ st, st
        <| virt_id_free_head := Z.land (_handle virt_id) MANA_VIRT_ID_SLOT_MASK |>
        <| virt_id_live ::= Z.pred |>)
  end.

Definition update_virt_id `{MpiLib} (virt_id : mana_mpi_handle) (real : Z) : prog vid_state unit :=
  st ← get_state;
  match lookup_virt_id_entry st virt_id with
  | None => abort
  | Some slot => modify (update_entry slot (λ e, e <| real_id := real |>))
  end.

(** [request_null] is [lh_info->MANA_REQUEST_NULL]. *)
Definition complete_virt_request `{MpiLib} (request_null : Z) (request : Z) (st0 : MPI_Status)
  : prog vid_state unit :=
  slot ← get_virt_id_entry request;
  modify (update_entry slot (λ e, e <| status := st0 |> <| completed := true |>
    <| real_id := request_null |>)).

(** The status that [completed_request_status()] copies, or [None] if it
    returns false. *)
Definition completed_request_status `{MpiLib} (request : Z) (st : vid_state) : option MPI_Status :=
  match entry_of st request with
  | Some entry => if completed entry then Some (status entry) else None
  | None => None
  end.

Definition virt_id_live_count (st : vid_state) : Z := virt_id_live st.

(** ** Scans of the table *)

Definition kind_of (handle : Z) : Z := Z.shiftr handle MANA_VIRT_ID_KIND_SHIFT.

(** The entries of the slots below the high-water mark, in slot order. *)
Definition scan (st : vid_state) : option (list virt_id_entry) :=
  mapM (slot_entry st) (seqZ 0 (virt_id_high_water st)).

(** The order of [std::pair<uint64_t, handle>]. *)
Definition pair_le (a b : Z * Z) : Prop := a.1 < b.1 ∨ (a.1 = b.1 ∧ a.2 ≤ b.2).
#[export] Instance pair_le_dec : RelDecision pair_le.
Proof. intros a b. unfold pair_le. apply _. Defined.

Definition is_live_comm (e : virt_id_entry) : bool :=
  negb (virt e =? 0) && (kind_of (virt e) =? MANA_COMM_KIND).

Definition live_virt_comms : prog vid_state (list Z) :=
  st ← get_state;
  entries ← deref (scan st);
  let comms := omap (λ e, if is_live_comm e then Some (entry_seq e, virt e) else None) entries in
  mret (snd <$> merge_sort pair_le comms).

Definition pending_collective_requests (request_null : Z) : prog vid_state (list Z) :=
  st ← get_state;
  entries ← deref (scan st);
  let requests := omap (λ e,
    if negb (virt e =? 0) && (kind_of (virt e) =? MANA_REQUEST_KIND) && collective e &&
       negb (real_id e =? request_null)
    then Some (entry_seq e, virt e) else None) entries in
  mret (snd <$> merge_sort pair_le requests).

(** [None] is NULL. *)
Definition get_comm_desc `{MpiLib} (st : vid_state) (comm : Z) : option mana_comm_desc :=
  if comm =? MPI_COMM_SELF then self_desc st else
  let virt_comm := if comm =? MPI_COMM_WORLD then g_world_comm st else comm in
  match entry_of st virt_comm with
  | None => None
  | Some entry =>
      if negb (kind_of (virt entry) =? MANA_COMM_KIND) then None
      else match desc entry with CommDesc d => Some d | _ => None end
  end.

Definition has_gid (gid : Z) (e : virt_id_entry) : bool :=
  match desc e with CommDesc d => comm_gid d =? gid | _ => false end.

Definition find_virt_comm `{MpiLib} (gid : Z) : prog vid_state Z :=
  st ← get_state;
  world ← deref (get_comm_desc st MPI_COMM_WORLD);
  if gid =? comm_gid world then mret MPI_COMM_WORLD else
  self ← deref (self_desc st);
  if gid =? comm_gid self then mret MPI_COMM_SELF else
  entries ← deref (scan st);
  mret (match list_find (λ e, is_live_comm e && has_gid gid e = true) entries with
        | Some (_, e) => virt e
        | None => MPI_COMM_NULL
        end).

(** ** Reading and writing entries *)

Lemma chunk_index_mod slot : chunk_index slot = slot mod 2 ^ 12.
Proof.
  unfold chunk_index. change (MANA_VIRT_ID_CHUNK_SIZE - 1) with (2 ^ 12 - 1).
  by rewrite land_ones_mod.
Qed.
Lemma chunk_of_div slot : chunk_of slot = slot / 2 ^ 12.
Proof. unfold chunk_of. by rewrite Z.shiftr_div_pow2. Qed.

Lemma slot_split a b : chunk_of a = chunk_of b → chunk_index a = chunk_index b → a = b.
Proof.
  rewrite !chunk_index_mod, !chunk_of_div. intros H1 H2.
  rewrite (Z.div_mod a (2 ^ 12)), (Z.div_mod b (2 ^ 12)) by lia. congruence.
Qed.

Lemma slot_entry_update_eq s f st :
  slot_entry (update_entry s f st) s = f <$> slot_entry st s.
Proof.
  unfold slot_entry, update_entry. cbn [virt_id_chunks set_field].
  rewrite lookup_alter_eq. destruct (virt_id_chunks st !! chunk_of s); [|done].
  simpl. by rewrite lookup_insert_eq.
Qed.

Lemma slot_entry_update_ne s s' f st :
  s ≠ s' → slot_entry (update_entry s f st) s' = slot_entry st s'.
Proof.
  intros Hne. unfold slot_entry, update_entry. cbn [virt_id_chunks set_field].
  destruct (decide (chunk_of s = chunk_of s')) as [E|E].
  - rewrite <- E, lookup_alter_eq. destruct (virt_id_chunks st !! chunk_of s); [|done].
    simpl. rewrite lookup_insert_ne; [done|]. intros E'. by apply Hne, slot_split.
  - by rewrite lookup_alter_ne.
Qed.

Lemma slot_entry_update s s' f st :
  slot_entry (update_entry s f st) s' =
    if decide (s = s') then f <$> slot_entry st s' else slot_entry st s'.
Proof.
  case_decide; [subst; apply slot_entry_update_eq|by apply slot_entry_update_ne].
Qed.

(** Updates of the other fields do not change entries. *)
Lemma slot_entry_ext st st' s :
  virt_id_chunks st' = virt_id_chunks st → slot_entry st' s = slot_entry st s.
Proof. intros E. unfold slot_entry. by rewrite E. Qed.

Section entries_of_updates.
Context (st : vid_state) (s : Z).
Lemma slot_entry_live f : slot_entry (st <| virt_id_live ::= f |>) s = slot_entry st s.
Proof. done. Qed.
Lemma slot_entry_next_seq f : slot_entry (st <| virt_id_next_seq ::= f |>) s = slot_entry st s.
Proof. done. Qed.
Lemma slot_entry_free_head f : slot_entry (st <| virt_id_free_head ::= f |>) s = slot_entry st s.
Proof. done. Qed.
Lemma slot_entry_pool f : slot_entry (st <| datatype_desc_pool ::= f |>) s = slot_entry st s.
Proof. done. Qed.
Lemma slot_entry_freed f :
  slot_entry (st <| datatypes_freed_while_pending ::= f |>) s = slot_entry st s.
Proof. done. Qed.
Lemma slot_entry_phead f : slot_entry (st <| pendingHead ::= f |>) s = slot_entry st s.
Proof. done. Qed.
Lemma slot_entry_ptail f : slot_entry (st <| pendingTail ::= f |>) s = slot_entry st s.
Proof. done. Qed.
Lemma slot_entry_pissends f : slot_entry (st <| pendingIssends ::= f |>) s = slot_entry st s.
Proof. done. Qed.
Lemma slot_entry_gids f : slot_entry (st <| gids_made ::= f |>) s = slot_entry st s.
Proof. done. Qed.
End entries_of_updates.

Create Rewrite HintDb entry.
#[export] Hint Rewrite slot_entry_live slot_entry_next_seq slot_entry_free_head slot_entry_pool
  slot_entry_freed slot_entry_phead slot_entry_ptail slot_entry_pissends slot_entry_gids
  slot_entry_update_eq : entry.
#[export] Hint Rewrite slot_entry_update_ne using done : entry.

(** ** The bit fields of a handle *)

Lemma make_handle_eq kind g slot :
  0 ≤ kind < 8 → 0 ≤ slot < 2 ^ 24 →
  make_handle kind g slot = kind * 2 ^ 28 + (g mod 16) * 2 ^ 24 + slot.
Proof.
  intros Hk Hs. unfold make_handle. change MANA_VIRT_ID_GEN_MASK with (2 ^ 4 - 1).
  rewrite land_ones_mod by lia. change (2 ^ 4) with 16.
  pose proof (Z.mod_pos_bound g 16).
  rewrite <- Z.lor_assoc, (lor_shiftl_add (g mod 16)) by (unfold MANA_VIRT_ID_GEN_SHIFT; lia).
  rewrite lor_shiftl_add by (unfold MANA_VIRT_ID_KIND_SHIFT, MANA_VIRT_ID_GEN_SHIFT; lia).
  unfold MANA_VIRT_ID_KIND_SHIFT, MANA_VIRT_ID_GEN_SHIFT. rewrite s32_small by lia. lia.
Qed.

Section handle_fields.
Context (kind g slot : Z) (Hk : 1 ≤ kind ≤ MANA_NUM_KINDS) (Hs : 0 ≤ slot < 2 ^ 24).
Let h := make_handle kind g slot.

Lemma make_handle_range : 2 ^ 28 ≤ h < 2 ^ 31.
Proof using Hk Hs.
  unfold h, MANA_NUM_KINDS in *. rewrite make_handle_eq by lia.
  pose proof (Z.mod_pos_bound g 16). lia.
Qed.

Lemma make_handle_kind : kind_of h = kind.
Proof using Hk Hs.
  unfold h, kind_of, MANA_NUM_KINDS, MANA_VIRT_ID_KIND_SHIFT in *.
  rewrite make_handle_eq by lia. rewrite Z.shiftr_div_pow2 by lia.
  pose proof (Z.mod_pos_bound g 16).
  rewrite <- Z.add_assoc, Z.div_add_l by lia. rewrite Z.div_small; lia.
Qed.

Lemma make_handle_slot : Z.land h MANA_VIRT_ID_SLOT_MASK = slot.
Proof using Hk Hs.
  unfold h, MANA_NUM_KINDS in *. change MANA_VIRT_ID_SLOT_MASK with (2 ^ 24 - 1).
  rewrite land_ones_mod, make_handle_eq by lia.
  replace (kind * 2 ^ 28 + g mod 16 * 2 ^ 24 + slot)
    with (slot + (kind * 16 + g mod 16) * 2 ^ 24) by lia.
  rewrite Z.mod_add by lia. by apply Z.mod_small.
Qed.

Lemma make_handle_small : _handle h = h ∧ u32 (_handle h) = h ∧ u64 h = h.
Proof using Hk Hs.
  pose proof make_handle_range. unfold _handle.
  rewrite s32_small, u32_small, u64_small by lia. done.
Qed.

(** What [lookup_virt_id_entry()] decides about a well-formed handle. *)
Lemma lookup_make_handle `{MpiLib} st :
  lookup_virt_id_entry st h =
    match slot_entry st slot with
    | Some e => if virt e =? h then Some slot else None
    | None => None
    end.
Proof using Hk Hs.
  pose proof make_handle_range. destruct make_handle_small as (E1 & E2 & E3).
  unfold lookup_virt_id_entry. rewrite E3.
  rewrite (proj2 (Z.eqb_eq (Z.shiftr h 32) 0))
    by (rewrite Z.shiftr_div_pow2 by lia; apply Z.div_small; lia).
  rewrite andb_false_r, E2, E1. fold (kind_of h).
  rewrite make_handle_kind, make_handle_slot.
  unfold MANA_NUM_KINDS in *. rewrite u32_small by lia.
  by rewrite (proj2 (Z.leb_gt _ _)) by lia.
Qed.
End handle_fields.

(** Two handles are equal only if their kind, slot and generation (modulo 16) are. *)
Lemma make_handle_inj kind g slot kind' g' slot' :
  1 ≤ kind ≤ MANA_NUM_KINDS → 0 ≤ slot < 2 ^ 24 →
  1 ≤ kind' ≤ MANA_NUM_KINDS → 0 ≤ slot' < 2 ^ 24 →
  make_handle kind g slot = make_handle kind' g' slot' →
  kind = kind' ∧ slot = slot' ∧ g mod 16 = g' mod 16.
Proof.
  intros Hk Hs Hk' Hs' E.
  assert (kind = kind') as <-.
  { rewrite <- (make_handle_kind kind g slot Hk Hs), E. by apply make_handle_kind. }
  assert (slot = slot') as <-.
  { rewrite <- (make_handle_slot kind g slot Hk Hs), E. by apply make_handle_slot. }
  unfold MANA_NUM_KINDS in *. rewrite !make_handle_eq in E by lia. lia.
Qed.
