(* ===== verification/VirtualIdInv.v ===== *)
(** * Invariant of the virtual-ID table

    [vid_inv st free live taken] describes a reachable table: [free] is its
    free list, [live] the slots in use in creation order, and [taken] the
    slots that an operation has removed from the free list and not yet put
    into use (empty between operations). *)
From S2P Require Import Prelude Mpi Constants VirtualId.

(** The slots linked from [head] through [next_free]. *)
Fixpoint free_chain (st : vid_state) (head : Z) (l : list Z) : Prop :=
  match l with
  | [] => head < 0
  | s :: l' => head = s ∧ 0 ≤ s ∧
      ∃ e, slot_entry st s = Some e ∧ free_chain st (next_free e) l'
  end.

Definition seq_of (st : vid_state) (slot : Z) : Z :=
  default 0 (entry_seq <$> slot_entry st slot).

Definition gen_of (st : vid_state) (slot : Z) : Z := default 0 (gen <$> slot_entry st slot).

(** A live entry's descriptor is of its kind. *)
Definition desc_kind (kind : Z) (d : descriptor) : Prop :=
  match d with
  | NoDesc => kind = MANA_REQUEST_KIND ∨ kind = MANA_FILE_KIND
  | CommDesc _ => kind = MANA_COMM_KIND
  | GroupDesc _ => kind = MANA_GROUP_KIND
  | OpDesc _ => kind = MANA_OP_KIND
  | DatatypeDesc _ => kind = MANA_DATATYPE_KIND
  end.

(** The entry of a slot in use: its handle names the slot. *)
Record live_entry (slot : Z) (e : virt_id_entry) (kind : Z) : Prop := {
  live_kind : 1 ≤ kind ≤ MANA_NUM_KINDS;
  live_virt : virt e = make_handle kind (gen e) slot;
  live_desc : desc_kind kind (desc e)
}.

Definition free_slot (st : vid_state) (live : list Z) (slot : Z) : Prop :=
  0 ≤ slot < virt_id_high_water st ∧ (slot ∉ live) ∧ slot_is_reserved (consts st) slot = false.

Record vid_inv (st : vid_state) (free live taken : list Z) : Prop := {
  inv_hw : 0 ≤ virt_id_high_water st ≤ 2 ^ 24;
  inv_reserved : Z.of_nat (length (reserved_slots (consts st))) ≤ 2 ^ 24;
  inv_published : ∀ slot, 0 ≤ slot < virt_id_high_water st → is_Some (slot_entry st slot);
  inv_above : ∀ slot e, virt_id_high_water st ≤ slot → slot_entry st slot = Some e → e = zero_entry;
  inv_live : ∀ slot, slot ∈ live → 0 ≤ slot < virt_id_high_water st ∧
    slot_is_reserved (consts st) slot = false ∧
    ∃ e kind, slot_entry st slot = Some e ∧ live_entry slot e kind;
  inv_dead : ∀ slot e, slot_entry st slot = Some e → slot ∉ live → virt e = 0;
  inv_chain : free_chain st (virt_id_free_head st) free;
  inv_free : ∀ slot, slot ∈ free → free_slot st live slot;
  inv_taken : ∀ slot, slot ∈ taken → free_slot st live slot;
  inv_nodup : NoDup (taken ++ free);
  inv_part : ∀ slot, 0 ≤ slot < virt_id_high_water st →
    slot_is_reserved (consts st) slot = true ∨ slot ∈ free ∨ slot ∈ live ∨ slot ∈ taken;
  inv_count : virt_id_live st = Z.of_nat (length live);
  inv_next_seq : 0 ≤ virt_id_next_seq st;
  inv_seq : ∀ slot, slot ∈ live → seq_of st slot ≤ virt_id_next_seq st;
  inv_sorted : StronglySorted (λ a b, seq_of st a < seq_of st b) live
}.

(** The table between two operations. *)
Definition vid_ok (st : vid_state) (free live : list Z) : Prop := vid_inv st free live [].

(** ** The free list *)

Lemma free_chain_ext st st' head l :
  (∀ s, s ∈ l → slot_entry st' s = slot_entry st s) →
  free_chain st head l → free_chain st' head l.
Proof.
  revert head. induction l as [|s l IH]; intros head Hext; simpl; [done|].
  intros (-> & Hs & e & He & Hc). split_and!; [done..|]. exists e. rewrite Hext by left.
  split; [done|]. apply IH; [|done]. intros. apply Hext. by right.
Qed.

Lemma vid_init_ok : vid_ok init_vid [] [].
Proof.
  split; simpl; try (by intros ? []%not_elem_of_nil); try lia; try constructor; try done; try lia.
  all: intros; try (by unfold slot_entry in *; simpl in *; rewrite lookup_empty in *).
Qed.

(** ** [alloc_slot] *)

Lemma skip_reserved_spec cs fuel slot :
  0 ≤ slot ≤ 2 ^ 24 → Z.of_nat (length (reserved_slots cs)) ≤ 2 ^ 24 →
  Z.of_nat (length (reserved_slots cs)) ≤ slot + Z.of_nat fuel →
  let r := skip_reserved fuel cs slot in
  slot ≤ r ≤ 2 ^ 24 ∧ slot_is_reserved cs r = false ∧
  ∀ x, slot ≤ x < r → slot_is_reserved cs x = true.
Proof.
  revert slot. induction fuel as [|fuel IH]; intros slot Hs Hl Hf; simpl.
  - split; [lia|]. split; [|lia]. rewrite slot_is_reserved_lookup by lia.
    rewrite lookup_ge_None_2 by lia. done.
  - destruct (slot_is_reserved cs slot) eqn:E; [|split; [lia|split; [done|lia]]].
    assert (slot < Z.of_nat (length (reserved_slots cs))) as Hlt.
    { rewrite slot_is_reserved_lookup in E by lia.
      destruct (reserved_slots cs !! Z.to_nat slot) eqn:E'; [|done].
      apply lookup_lt_Some in E'. lia. }
    destruct (IH (slot + 1)) as (H1 & H2 & H3); [lia|done|lia|].
    split; [lia|]. split; [done|]. intros x Hx.
    destruct (decide (x = slot)) as [->|]; [done|]. apply H3. lia.
Qed.

Definition publish (l : list Z) (chunks : gmap Z (gmap Z virt_id_entry)) :=
  foldl (λ cs c, match cs !! c with Some _ => cs | None => <[c := ∅]> cs end) chunks l.

Lemma alloc_chunks_run from upto st :
  alloc_chunks from upto st =
    Ok () (st <| virt_id_chunks ::= publish (seqZ from (upto - from + 1)) |>).
Proof.
  unfold alloc_chunks. generalize (seqZ from (upto - from + 1)). intros l.
  revert st. induction l as [|c l IH]; intros st; simpl; [by destruct st|].
  unfold mbind, prog_bind, modify. by rewrite IH.
Qed.

Lemma publish_lookup l chunks c :
  publish l chunks !! c =
    match chunks !! c with
    | Some x => Some x
    | None => if decide (c ∈ l) then Some ∅ else None
    end.
Proof.
  revert chunks. induction l as [|a l IH]; intros chunks; simpl.
  { by destruct (chunks !! c). }
  rewrite IH. assert (c ≠ a → (if decide (c ∈ l) then Some ∅ else None) =
    (if decide (c ∈ a :: l) then Some (∅ : gmap Z virt_id_entry) else None)) as Hd.
  { intros Hne. destruct (decide (c ∈ l)) as [H1|H1], (decide (c ∈ a :: l)) as [H2|H2];
      rewrite elem_of_cons in H2; tauto. }
  destruct (chunks !! a) as [x|] eqn:Ea.
  - destruct (chunks !! c) as [y|] eqn:Ec; [done|]. apply Hd. congruence.
  - destruct (decide (c = a)) as [->|Hne].
    + rewrite lookup_insert_eq, Ea. rewrite decide_True; [done|left].
    + rewrite lookup_insert_ne by done. destruct (chunks !! c); [done|]. by apply Hd.
Qed.

Lemma chunk_of_mono a b : a ≤ b → chunk_of a ≤ chunk_of b.
Proof. rewrite !chunk_of_div. intros. apply Z.div_le_mono; lia. Qed.

(** Entries after [alloc_chunks]: old ones are unchanged, new ones are zero. *)
Lemma slot_entry_publish st from upto s :
  slot_entry (st <| virt_id_chunks ::= publish (seqZ from (upto - from + 1)) |>) s =
    match slot_entry st s with
    | Some e => Some e
    | None => if decide (from ≤ chunk_of s ≤ upto) then Some zero_entry else None
    end.
Proof.
  unfold slot_entry. cbn [virt_id_chunks set_field]. rewrite publish_lookup.
  destruct (virt_id_chunks st !! chunk_of s); [done|].
  destruct (decide (chunk_of s ∈ _)) as [H|H], (decide (from ≤ chunk_of s ≤ upto)) as [H'|H'];
    rewrite elem_of_seqZ in H; [by rewrite lookup_empty|lia|lia|done].
Qed.

(** [alloc_slot()] takes the first slot of the free list, or else the first
    unreserved slot past the high-water mark. *)
Lemma alloc_slot_reuse st s free live :
  vid_ok st (s :: free) live →
  ∃ st1, alloc_slot st = Ok s st1 ∧ vid_inv st1 free live [s] ∧
    (∀ x, slot_entry st1 x = slot_entry st x) ∧
    consts st1 = consts st ∧ virt_id_next_seq st1 = virt_id_next_seq st ∧
    virt_id_high_water st1 = virt_id_high_water st.
Proof.
  intros [? ? ? ? ? ? Hchain Hfree ? Hnd Hpart ? ? ? ?].
  destruct Hchain as (Hh & Hs & e & He & Hc).
  unfold alloc_slot. prog_red. rewrite Hh, (proj2 (Z.leb_le _ _)), He by done.
  eexists. split; [done|]. split; [|done]. simpl in Hnd.
  split; simpl; try done.
  - eapply free_chain_ext; [|exact Hc]. done.
  - intros x Hx. apply (Hfree x). by right.
  - intros x ->%list_elem_of_singleton. apply (Hfree s). left.
  - intros x Hx. destruct (Hpart x Hx) as [?|[Hin|[?|Hn]]]; [by left| |tauto|].
    + apply elem_of_cons in Hin as [->|?]; [|tauto].
      do 3 right. by apply list_elem_of_singleton.
    + by destruct (not_elem_of_nil x).
Qed.

Lemma alloc_slot_fresh st live :
  vid_ok st [] live →
  let s := skip_reserved (length (reserved_slots (consts st))) (consts st) (virt_id_high_water st) in
  if MANA_VIRT_ID_SLOT_MASK <? s then alloc_slot st = Abort
  else ∃ st1, alloc_slot st = Ok s st1 ∧ vid_inv st1 [] live [s] ∧
    (∀ x, 0 ≤ x < virt_id_high_water st → slot_entry st1 x = slot_entry st x) ∧
    consts st1 = consts st ∧ virt_id_next_seq st1 = virt_id_next_seq st ∧
    virt_id_high_water st1 = s + 1.
Proof.
  intros [Hhw Hrs Hpub Habove Hlive Hdead Hchain Hfree _ Hnd Hpart Hcnt Hns Hseq Hsort] s.
  destruct (skip_reserved_spec (consts st) (length (reserved_slots (consts st)))
    (virt_id_high_water st)) as (Hle & Hres & Hskip); [lia|done|lia|]. fold s in Hle, Hres, Hskip.
  simpl in Hchain. unfold alloc_slot. prog_red.
  rewrite (proj2 (Z.leb_gt _ _)) by done. fold s.
  destruct (Z.ltb_spec MANA_VIRT_ID_SLOT_MASK s) as [Hbig|Hsm]; [done|].
  unfold MANA_VIRT_ID_SLOT_MASK in Hsm.
  rewrite alloc_chunks_run.
  set (st0 := st <| virt_id_chunks ::= _ |>).
  pose proof (slot_entry_publish st (chunk_of (virt_id_high_water st)) (chunk_of s)) as Hent.
  fold st0 in Hent. clearbody s.
  assert (∀ x, 0 ≤ x < virt_id_high_water st → slot_entry st0 x = slot_entry st x) as Hold.
  { intros x Hx. rewrite Hent. by destruct (Hpub x Hx) as [e ->]. }
  assert (∀ x, virt_id_high_water st ≤ x ≤ s → slot_entry st0 x = Some zero_entry) as Hnew.
  { intros x Hx. rewrite Hent. destruct (slot_entry st x) as [e|] eqn:E.
    - by rewrite (Habove x e) by (lia || done).
    - rewrite decide_True; [done|]. split; apply chunk_of_mono; lia. }
  assert (∀ x e, slot_entry st0 x = Some e → slot_entry st x = Some e ∨ e = zero_entry) as Hsome.
  { intros x e. rewrite Hent. destruct (slot_entry st x); [naive_solver|].
    case_decide; naive_solver. }
  eexists. split; [done|]. split; [|done]. split; simpl; try done.
  - lia.
  - intros x Hx. destruct (decide (x < virt_id_high_water st)).
    + change (is_Some (slot_entry st0 x)). rewrite Hold by lia. apply Hpub. lia.
    + exists zero_entry. apply Hnew. lia.
  - intros x e Hx He. apply Hsome in He as [He|He]; [|done]. apply (Habove x); [lia|done].
  - intros x Hx. destruct (Hlive x Hx) as (? & ? & e & k & He & ?). split_and!; [lia|lia|done|].
    exists e, k. split; [|done]. rewrite <- He. apply Hold. lia.
  - intros x e He Hx. apply Hsome in He as [He|He]; [|by subst]. by apply (Hdead x).
  - by intros x []%not_elem_of_nil.
  - intros x ->%list_elem_of_singleton. split_and!; [lia|simpl; lia| |done].
    intros Hin. destruct (Hlive _ Hin). lia.
  - constructor; [apply not_elem_of_nil|constructor].
  - intros x Hx. rewrite list_elem_of_singleton.
    destruct (decide (x = s)) as [->|]; [tauto|].
    destruct (decide (x < virt_id_high_water st)).
    + destruct (Hpart x) as [?|[?|[?|[]%not_elem_of_nil]]]; [lia|tauto..].
    + left. apply Hskip. lia.
  - intros x Hx. unfold seq_of. change (default 0 (entry_seq <$> slot_entry st0 x) ≤ virt_id_next_seq st).
    rewrite Hold by (apply Hlive; done). by apply Hseq.
  - eapply StronglySorted_impl, Hsort. intros x y Hx Hy. unfold seq_of.
    change (slot_entry (st0 <| virt_id_high_water := s + 1 |>)) with (slot_entry st0).
    by rewrite !Hold by (apply Hlive; done).
Qed.

(** The slot that [alloc_slot()] returns. *)
Definition next_slot (st : vid_state) (free : list Z) : Z :=
  match free with
  | s :: _ => s
  | [] => skip_reserved (length (reserved_slots (consts st))) (consts st) (virt_id_high_water st)
  end.

Lemma alloc_slot_spec st free live :
  vid_ok st free live →
  if MANA_VIRT_ID_SLOT_MASK <? next_slot st free then alloc_slot st = Abort
  else ∃ st1, alloc_slot st = Ok (next_slot st free) st1 ∧
    vid_inv st1 (tail free) live [next_slot st free] ∧
    (∀ x, 0 ≤ x < virt_id_high_water st → slot_entry st1 x = slot_entry st x) ∧
    consts st1 = consts st ∧ virt_id_next_seq st1 = virt_id_next_seq st ∧
    virt_id_high_water st ≤ virt_id_high_water st1.
Proof.
  intros Hok. destruct free as [|s free].
  - pose proof (alloc_slot_fresh st live Hok) as H. simpl in *.
    destruct (_ <? _); [done|]. destruct H as (st1 & ? & ? & Hold & ? & ? & Hhw).
    exists st1. do 5 (split; [done|]). rewrite Hhw.
    pose proof (inv_hw _ _ _ _ Hok). pose proof (inv_reserved _ _ _ _ Hok).
    destruct (skip_reserved_spec (consts st) (length (reserved_slots (consts st)))
      (virt_id_high_water st)) as (? & _); lia.
  - destruct (alloc_slot_reuse st s free live Hok) as (st1 & ? & ? & Hold & ? & ? & Hhw).
    simpl. destruct (inv_free _ _ _ _ Hok s) as (Hs & _); [left|].
    pose proof (inv_hw _ _ _ _ Hok). unfold MANA_VIRT_ID_SLOT_MASK.
    rewrite (proj2 (Z.ltb_ge _ _)) by lia. exists st1. do 5 (split; [done|]). lia.
Qed.

Lemma inv_slot_range st free live taken slot :
  vid_inv st free live taken → slot ∈ live → 0 ≤ slot < 2 ^ 24.
Proof.
  intros Hok Hin. destruct (inv_live _ _ _ _ Hok slot Hin).
  pose proof (inv_hw _ _ _ _ Hok). lia.
Qed.

Lemma seq_of_update_ne s f st x : s ≠ x → seq_of (update_entry s f st) x = seq_of st x.
Proof. intros. unfold seq_of. by rewrite slot_entry_update_ne. Qed.

(** Putting a taken slot into use. *)
Lemma vid_inv_use st free live s real d kind e n :
  vid_inv st free live [s] → slot_entry st s = Some e →
  1 ≤ kind ≤ MANA_NUM_KINDS → desc_kind kind d → n = virt_id_next_seq st + 1 →
  vid_ok ((update_entry s (λ x, x
    <| real_id := real |> <| desc := d |> <| entry_seq := n |>
    <| call ::= λ c, c <| call_type := UNKNOW_REQUEST |> |>
    <| collective := false |> <| completed := false |>
    <| virt := make_handle kind (gen e) s |>) (st <| virt_id_next_seq := n |>))
      <| virt_id_live ::= Z.succ |>) free (live ++ [s]).
Proof.
  intros [Hhw Hrs Hpub Habove Hlive Hdead Hchain Hfree Htaken Hnd Hpart Hcnt Hns Hseq Hsort]
    He Hk Hd ->.
  destruct (Htaken s) as (Hs & Hsl & Hsr); [by left|].
  set (st2 := _ <| virt_id_live ::= Z.succ |>).
  assert (∀ x, x ≠ s → slot_entry st2 x = slot_entry st x) as Hne.
  { intros x Hx. unfold st2. by autorewrite with entry. }
  assert (∃ e', slot_entry st2 s = Some e' ∧ live_entry s e' kind ∧
    entry_seq e' = virt_id_next_seq st + 1) as (e' & He' & Hle & Hse).
  { eexists. split; [|split].
    - unfold st2. autorewrite with entry. by rewrite He.
    - split; [exact Hk|reflexivity|exact Hd].
    - done. }
  assert (∀ x, x ∈ live → seq_of st2 x = seq_of st x) as Hseqs.
  { intros x Hx. unfold seq_of. rewrite Hne; [done|]. by intros ->. }
  assert (seq_of st2 s = virt_id_next_seq st + 1) as Hss.
  { unfold seq_of. by rewrite He', <- Hse. }
  change (consts st) with (consts st2) in *. change (virt_id_high_water st) with (virt_id_high_water st2) in *.
  split; try done.
  - intros x Hx. destruct (decide (x = s)) as [->|]; [by eexists|]. rewrite Hne by done. auto.
  - intros x ex Hx. rewrite Hne by lia. eauto.
  - intros x [Hx| ->]%elem_of_snoc; [|split_and!; eauto; lia].
    rewrite Hne by (by intros ->). by apply Hlive.
  - intros x ex Hex Hx. rewrite elem_of_snoc in Hx. rewrite Hne in Hex by tauto.
    eapply Hdead; [done|tauto].
  - eapply free_chain_ext; [|exact Hchain]. intros x Hx. apply Hne. intros ->.
    simpl in Hnd. apply NoDup_cons in Hnd. tauto.
  - intros x Hx. destruct (Hfree x Hx) as (? & ? & ?). split; [done|split; [|done]].
    rewrite elem_of_snoc. intros [?| ->]; [done|]. simpl in Hnd. apply NoDup_cons in Hnd. tauto.
  - by intros x []%not_elem_of_nil.
  - simpl in Hnd. apply NoDup_cons in Hnd. tauto.
  - intros x Hx. rewrite elem_of_snoc.
    destruct (Hpart x Hx) as [?|[?|[?|?%list_elem_of_singleton]]]; tauto.
  - rewrite length_app. simpl. unfold st2. simpl. lia.
  - simpl. lia.
  - simpl. intros x [Hx| ->]%elem_of_snoc; [|lia]. rewrite Hseqs by done.
    specialize (Hseq x Hx). lia.
  - apply StronglySorted_app_2; [|eapply StronglySorted_impl, Hsort|repeat constructor].
    + intros x y Hx ->%list_elem_of_singleton. rewrite Hseqs, Hss by done.
      specialize (Hseq x Hx). lia.
    + intros x y Hx Hy. by rewrite !Hseqs.
Qed.

(** What [add_virt_id()] does: it fails only if all slots are in use. *)
Lemma add_virt_id_spec st free live real d kind :
  vid_ok st free live → 1 ≤ kind ≤ MANA_NUM_KINDS → desc_kind kind d →
  virt_id_next_seq st + 1 < 2 ^ 64 →
  let s := next_slot st free in
  if MANA_VIRT_ID_SLOT_MASK <? s then add_virt_id real d kind st = Abort
  else ∃ st' e, add_virt_id real d kind st = Ok (virt e) st' ∧
    vid_ok st' (tail free) (live ++ [s]) ∧
    slot_entry st' s = Some e ∧ live_entry s e kind ∧ real_id e = real ∧ desc e = d ∧
    call_type (call e) = UNKNOW_REQUEST ∧ collective e = false ∧ completed e = false ∧
    (s ∉ live) ∧ consts st' = consts st ∧ virt_id_next_seq st' = virt_id_next_seq st + 1 ∧
    virt_id_high_water st ≤ virt_id_high_water st' ∧
    (∀ x, 0 ≤ x < virt_id_high_water st → x ≠ s → slot_entry st' x = slot_entry st x) ∧
    (0 ≤ s < virt_id_high_water st → gen e = gen_of st s).
Proof.
  intros Hok Hk Hd Hn s. pose proof (alloc_slot_spec st free live Hok) as Ha. fold s in Ha.
  unfold add_virt_id. destruct (_ <? s).
  { unfold mbind, prog_bind. by rewrite Ha. }
  destruct Ha as (st1 & Hrun & Hinv & Hold & Hc & Hns & Hhw).
  destruct (inv_taken _ _ _ _ Hinv s) as (Hs & Hsl & _); [by left|].
  destruct (inv_published _ _ _ _ Hinv s Hs) as [e He].
  rewrite (prog_bind_ok _ _ _ _ _ Hrun). prog_red. rewrite He.
  rewrite u64_small by (rewrite Hns; pose proof (inv_next_seq _ _ _ _ Hok); lia).
  pose proof (vid_inv_use st1 (tail free) live s real d kind e _ Hinv He Hk Hd eq_refl) as Hok'.
  set (st' := _ <| virt_id_live ::= Z.succ |>) in Hok' |- *.
  set (e' := e <| real_id := real |> <| desc := d |> <| entry_seq := virt_id_next_seq st1 + 1 |>
    <| call ::= λ c, c <| call_type := UNKNOW_REQUEST |> |>
    <| collective := false |> <| completed := false |> <| virt := make_handle kind (gen e) s |>).
  assert (slot_entry st' s = Some e') as He'.
  { unfold st'. autorewrite with entry. by rewrite He. }
  assert (live_entry s e' kind) by (split; [exact Hk|reflexivity|exact Hd]).
  exists st', e'. do 11 (split; [done|]). split; [by rewrite <- Hns|]. split; [done|]. split.
  - intros x Hx Hne. rewrite <- Hold by done. unfold st'. by autorewrite with entry.
  - intros Hlt. unfold gen_of. by rewrite <- Hold, He.
Qed.

(** ** Lookup *)

(** The handle of a slot in use. *)
Definition handle_of (st : vid_state) (slot : Z) : Z :=
  default 0 (virt <$> slot_entry st slot).

Lemma inv_live_entry st free live taken slot :
  vid_inv st free live taken → slot ∈ live →
  ∃ e kind, slot_entry st slot = Some e ∧ live_entry slot e kind.
Proof. intros Hok Hin. by destruct (inv_live _ _ _ _ Hok slot Hin) as (_ & _ & ?). Qed.

Lemma live_entry_kind_of slot e kind :
  0 ≤ slot < 2 ^ 24 → live_entry slot e kind → kind_of (virt e) = kind.
Proof. intros Hs [Hk -> _]. by apply make_handle_kind. Qed.

Lemma live_entry_virt_pos slot e kind :
  0 ≤ slot < 2 ^ 24 → live_entry slot e kind → 2 ^ 28 ≤ virt e < 2 ^ 31.
Proof. intros Hs [Hk -> _]. by apply make_handle_range. Qed.

Lemma lookup_live_entry `{MpiLib} st slot e kind :
  0 ≤ slot < 2 ^ 24 → slot_entry st slot = Some e → live_entry slot e kind →
  lookup_virt_id_entry st (virt e) = Some slot.
Proof.
  intros Hs He [Hk Hv _]. rewrite Hv, lookup_make_handle by done.
  by rewrite He, Hv, Z.eqb_refl.
Qed.

(** The handle of a live slot is found. *)
Lemma lookup_live `{MpiLib} st free live taken slot :
  vid_inv st free live taken → slot ∈ live →
  lookup_virt_id_entry st (handle_of st slot) = Some slot.
Proof.
  intros Hok Hin. destruct (inv_live_entry _ _ _ _ _ Hok Hin) as (e & k & He & Hl).
  unfold handle_of. rewrite He. simpl. eapply lookup_live_entry; eauto using inv_slot_range.
Qed.

Lemma lookup_slot_entry `{MpiLib} st v slot :
  lookup_virt_id_entry st v = Some slot → ∃ e, slot_entry st slot = Some e ∧ virt e = _handle v.
Proof.
  unfold lookup_virt_id_entry. intros Hl. repeat case_match; try done.
  simplify_eq. eexists. split; [eassumption|]. by apply Z.eqb_eq.
Qed.

(** Whatever 64-bit value is looked up, the slot found is a live one, and the
    value's low half is the handle of that slot. *)
Lemma lookup_sound `{MpiLib} st free live taken v slot :
  vid_inv st free live taken → lookup_virt_id_entry st v = Some slot →
  slot ∈ live ∧ handle_of st slot = _handle v.
Proof.
  intros Hok Hl. destruct (lookup_slot_entry _ _ _ Hl) as (e & He & Hv).
  assert (handle_of st slot = _handle v) as Hh by (unfold handle_of; by rewrite He).
  split; [|done]. destruct (decide (slot ∈ live)) as [?|Hn]; [done|].
  pose proof (inv_dead _ _ _ _ Hok slot e He Hn) as Hz.
  unfold lookup_virt_id_entry in Hl.
  assert (u32 (_handle v) = 0) as E0 by (rewrite <- Hv, Hz; done).
  rewrite E0 in Hl. destruct (handle64 && _); [done|].
  exfalso. revert Hl. by vm_compute.
Qed.

Lemma handle_of_inj st free live taken a b :
  vid_inv st free live taken → a ∈ live → b ∈ live →
  handle_of st a = handle_of st b → a = b.
Proof.
  intros Hok Ha Hb. unfold handle_of.
  destruct (inv_live_entry _ _ _ _ _ Hok Ha) as (ea & ka & -> & [? Hva _]).
  destruct (inv_live_entry _ _ _ _ _ Hok Hb) as (eb & kb & -> & [? Hvb _]).
  simpl. rewrite Hva, Hvb. intros E.
  apply make_handle_inj in E; [by destruct E as (_ & ? & _)|done|
    by eapply inv_slot_range|done|by eapply inv_slot_range].
Qed.

(** Lookups of a handle depend on its slot only. *)
Lemma lookup_ext `{MpiLib} st st' v :
  slot_entry st' (Z.land (u32 (_handle v)) MANA_VIRT_ID_SLOT_MASK) =
    slot_entry st (Z.land (u32 (_handle v)) MANA_VIRT_ID_SLOT_MASK) →
  lookup_virt_id_entry st' v = lookup_virt_id_entry st v.
Proof. intros E. unfold lookup_virt_id_entry. cbv zeta. by rewrite E. Qed.

(** ** [free_virt_id] *)

Lemma inv_live_nodup st free live taken : vid_inv st free live taken → NoDup live.
Proof.
  intros Hok. pose proof (inv_sorted _ _ _ _ Hok) as Hs. clear Hok.
  induction Hs as [|x l Hs IH Hf]; constructor; [|].
  - intros Hx. rewrite Forall_forall in Hf. specialize (Hf x Hx). simpl in Hf. lia.
  - done.
Qed.

(** [free_desc()] of a live entry succeeds and keeps the entries. *)
Lemma free_desc_run d kind st :
  desc_kind kind d → 1 ≤ kind ≤ MANA_NUM_KINDS →
  ∃ pool, free_desc d kind st = Ok () (st <| datatype_desc_pool := pool |>).
Proof.
  intros Hd Hk. unfold free_desc, MANA_NUM_KINDS in *.
  destruct d; simpl in Hd;
    try (destruct Hd as [Hd|Hd]);
    subst kind; cbn; try (by exists (datatype_desc_pool st); destruct st).
  by eexists.
Qed.

(** The state after [free_virt_id()] of a live handle. *)
Definition freed (st : vid_state) (slot : Z) (pool : list mana_datatype_desc) : vid_state :=
  ((update_entry slot (λ e, e <| next_free := virt_id_free_head st |>)
    ((update_entry slot (λ e, e <| gen ::= λ g, u32 (g + 1) |> <| virt := 0 |>
       <| desc := NoDesc |>) st) <| datatype_desc_pool := pool |>))
    <| virt_id_free_head := slot |> <| virt_id_live ::= Z.pred |>).

Lemma free_virt_id_run `{MpiLib} st free live slot e :
  vid_ok st free live → slot ∈ live → slot_entry st slot = Some e →
  if decide (call_type (call e) = UNKNOW_REQUEST)
  then ∃ pool, free_virt_id (virt e) st = Ok () (freed st slot pool)
  else free_virt_id (virt e) st = Abort.
Proof.
  intros Hok Hin He. pose proof (inv_slot_range _ _ _ _ _ Hok Hin) as Hs.
  destruct (inv_live_entry _ _ _ _ _ Hok Hin) as (e' & k & He' & Hl). simplify_eq.
  unfold free_virt_id. prog_red. rewrite (lookup_live_entry _ _ _ _ Hs He Hl), He.
  case_decide as Hc; [|by rewrite bool_decide_eq_false_2].
  rewrite bool_decide_eq_true_2 by done.
  set (st1 := update_entry _ _ st). destruct Hl as [Hk Hv Hd].
  pose proof (make_handle_small k (gen e) slot Hk Hs) as (Es & _ & _). rewrite <- Hv in Es.
  rewrite Es. fold (kind_of (virt e)).
  rewrite Hv, make_handle_kind, make_handle_slot by done.
  destruct (free_desc_run (desc e) k st1 Hd Hk) as [pool ->]. by exists pool.
Qed.

Section freed_state.
Context (st : vid_state) (free live : list Z) (slot : Z) (e : virt_id_entry)
  (pool : list mana_datatype_desc).
Context (Hok : vid_ok st free live) (Hin : slot ∈ live) (He : slot_entry st slot = Some e).
Let st' := freed st slot pool.

Lemma freed_entry_eq :
  slot_entry st' slot = Some (e <| gen ::= λ g, u32 (g + 1) |> <| virt := 0 |>
    <| desc := NoDesc |> <| next_free := virt_id_free_head st |>).
Proof using He. unfold st', freed. autorewrite with entry. by rewrite He. Qed.

Lemma freed_entry_ne x : x ≠ slot → slot_entry st' x = slot_entry st x.
Proof. intros. unfold st', freed. by autorewrite with entry. Qed.

Lemma freed_ok : vid_ok st' (slot :: free) (filter (.≠ slot) live).
Proof using Hok Hin He.
  pose proof freed_entry_eq as Heq. pose proof freed_entry_ne as Hne.
  pose proof (inv_live_nodup _ _ _ _ Hok) as Hndl.
  destruct Hok as [Hhw Hrs Hpub Habove Hlive Hdead Hchain Hfree Htaken Hnd Hpart Hcnt Hns Hseq Hsort].
  assert (∀ x, x ∈ live → x ≠ slot → seq_of st' x = seq_of st x) as Hseqs.
  { intros x Hx Hxs. unfold seq_of. by rewrite Hne. }
  destruct (Hlive slot Hin) as (Hslot & Hres & _).
  assert (slot ∉ free) as Hnf by (intros Hf; by destruct (Hfree slot Hf) as (_ & ? & _)).
  split; try done.
  - intros x Hx. destruct (decide (x = slot)) as [->|]; [by eexists|]. rewrite Hne by done. auto.
  - intros x ex Hx. change (virt_id_high_water st') with (virt_id_high_water st) in Hx.
    rewrite Hne by lia. eauto.
  - intros x [Hx Hxs]%elem_of_remove. rewrite Hne by done. by apply Hlive.
  - intros x ex Hex Hx. rewrite elem_of_remove in Hx.
    destruct (decide (x = slot)) as [->|]; [by simplify_eq|].
    rewrite Hne in Hex by done. eapply Hdead; [done|tauto].
  - split; [done|]. split; [lia|]. eexists. split; [exact Heq|].
    eapply free_chain_ext; [|exact Hchain]. intros x Hx. apply Hne. by intros ->.
  - intros x [->|Hx]%elem_of_cons.
    + split; [done|]. split; [|done]. rewrite elem_of_remove. tauto.
    + destruct (Hfree x Hx) as (? & ? & ?). split; [done|]. split; [|done].
      rewrite elem_of_remove. tauto.
  - by intros x []%not_elem_of_nil.
  - by constructor.
  - intros x Hx. destruct (decide (x = slot)) as [->|]; [right; left; left|].
    destruct (Hpart x Hx) as [?|[?|[?|[]%not_elem_of_nil]]]; [by left|right; left; by right|].
    right; right; left. by apply elem_of_remove.
  - unfold st', freed. simpl. rewrite Hcnt, (length_remove slot live) by done. lia.
  - intros x [Hx Hxs]%elem_of_remove. rewrite Hseqs by done. by apply Hseq.
  - apply StronglySorted_impl with (R := λ a b, seq_of st a < seq_of st b);
      [|by apply StronglySorted_filter].
    intros x y [? ?]%elem_of_remove [? ?]%elem_of_remove. by rewrite !Hseqs.
Qed.

(** The slot names no handle of the old generation; others keep theirs. *)
Lemma freed_lookup_slot `{MpiLib} kind g :
  1 ≤ kind ≤ MANA_NUM_KINDS → lookup_virt_id_entry st' (make_handle kind g slot) = None.
Proof using Hok Hin He.
  intros Hk. pose proof (inv_slot_range _ _ _ _ _ Hok Hin) as Hs.
  rewrite lookup_make_handle by done. rewrite freed_entry_eq. cbn [virt set_field].
  pose proof (make_handle_range kind g slot Hk Hs).
  case_match eqn:E; [|done]. apply Z.eqb_eq in E. lia.
Qed.
End freed_state.

(** ** Updates that keep a live entry's identity *)

(** An update that keeps the fields the invariant is about. *)
Definition benign (f : virt_id_entry → virt_id_entry) : Prop :=
  ∀ e, virt (f e) = virt e ∧ gen (f e) = gen e ∧ entry_seq (f e) = entry_seq e ∧
    next_free (f e) = next_free e ∧ (∀ k, desc_kind k (desc e) → desc_kind k (desc (f e))).

Lemma free_chain_benign st st' head l :
  (∀ x e', slot_entry st' x = Some e' → ∃ e, slot_entry st x = Some e ∧ next_free e' = next_free e) →
  (∀ x, is_Some (slot_entry st x) → is_Some (slot_entry st' x)) →
  free_chain st head l → free_chain st' head l.
Proof.
  intros Hb Hs. revert head. induction l as [|x l IH]; intros head; simpl; [done|].
  intros (-> & Hx & e & He & Hc). split_and!; [done..|].
  destruct (Hs x) as [e' He']; [by eexists|]. exists e'. split; [done|].
  destruct (Hb _ _ He') as (e0 & He0 & E). simplify_eq. rewrite E. by apply IH.
Qed.

Lemma update_live_ok st free live slot f :
  vid_ok st free live → slot ∈ live → benign f → vid_ok (update_entry slot f st) free live.
Proof.
  intros [Hhw Hrs Hpub Habove Hlive Hdead Hchain Hfree Htaken Hnd Hpart Hcnt Hns Hseq Hsort] Hin Hf.
  set (st' := update_entry slot f st).
  assert (∀ x, x ≠ slot → slot_entry st' x = slot_entry st x) as Hne.
  { intros x Hx. unfold st'. by autorewrite with entry. }
  assert (slot_entry st' slot = f <$> slot_entry st slot) as Heq.
  { unfold st'. by autorewrite with entry. }
  assert (∀ x, seq_of st' x = seq_of st x) as Hseqs.
  { intros x. unfold seq_of. destruct (decide (x = slot)) as [->|]; [|by rewrite Hne].
    rewrite Heq. destruct (slot_entry st slot); [|done]. simpl. apply Hf. }
  split; try done.
  - intros x Hx. destruct (decide (x = slot)) as [->|]; [|rewrite Hne by done; auto].
    rewrite Heq. by apply fmap_is_Some, Hpub.
  - intros x e Hx. rewrite Hne; [eauto|]. intros ->. destruct (Hlive slot Hin) as (? & _).
    simpl in Hx. lia.
  - intros x Hx. destruct (Hlive x Hx) as (? & ? & e & k & He & Hl). split; [done|]. split; [done|].
    destruct (decide (x = slot)) as [->|]; [|rewrite Hne by done; eauto].
    rewrite Heq, He. exists (f e), k. split; [done|].
    destruct Hl as [? Hv ?], (Hf e) as (E1 & E2 & ? & ? & Hd).
    split; [done| |auto]. by rewrite E1, E2.
  - intros x e He Hx. rewrite Hne in He by (by intros ->). eauto.
  - eapply free_chain_ext; [|exact Hchain]. intros x Hx. apply Hne. intros ->.
    by destruct (Hfree slot Hx) as (_ & ? & _).
  - intros x Hx. rewrite Hseqs. by apply Hseq.
  - eapply StronglySorted_impl, Hsort. intros x y _ _. by rewrite !Hseqs.
Qed.
