(* ===== verification/VirtualIdSpec.v ===== *)
(** * What the virtual-ID table promises

    The rest of MANA sees the table as a finite map from virtual handles to
    the real handle and the descriptor behind each.  [vid_repr st m] relates
    a table to that map; the theorems show that each operation of
    [src/src/virtual_id.cpp] implements an operation on the map, that no
    virtual handle equals a predefined constant, when a stale handle is
    recognised, and that the scans list live objects in creation order. *)
From S2P Require Import Prelude Mpi Constants VirtualId VirtualIdInv.

(** ** The abstract map *)

Definition abs_entry (e : virt_id_entry) : Z * descriptor := (real_id e, desc e).

(** [m] holds the live entries of the table, by handle. *)
Definition represents (st : vid_state) (live : list Z) (m : gmap Z (Z * descriptor)) : Prop :=
  ∀ h x, m !! h = Some x ↔
    ∃ slot e, slot ∈ live ∧ slot_entry st slot = Some e ∧ virt e = h ∧ abs_entry e = x.

Definition vid_repr (st : vid_state) (m : gmap Z (Z * descriptor)) : Prop :=
  ∃ free live, vid_ok st free live ∧ represents st live m.

Lemma vid_repr_init : vid_repr init_vid ∅.
Proof.
  exists [], []. split; [apply vid_init_ok|]. intros h x. rewrite lookup_empty.
  split; [done|]. by intros (s & e & []%not_elem_of_nil & _).
Qed.

(** The empty table with the constants of a launch. *)
Lemma vid_ok_consts cs :
  Z.of_nat (length (reserved_slots cs)) ≤ 2 ^ 24 → vid_ok (init_vid <| consts := cs |>) [] [].
Proof.
  intros Hl. split; simpl; try (by intros ? []%not_elem_of_nil); try lia; try constructor; try done; try lia.
  all: intros; try (by unfold slot_entry in *; simpl in *; rewrite lookup_empty in *).
Qed.
Lemma vid_repr_consts cs :
  Z.of_nat (length (reserved_slots cs)) ≤ 2 ^ 24 → vid_repr (init_vid <| consts := cs |>) ∅.
Proof.
  intros Hl. exists [], []. split; [by apply vid_ok_consts|].
  - intros h x. rewrite lookup_empty. split; [done|]. by intros (s & e & []%not_elem_of_nil & _).
Qed.

(** Every reachable table represents a map. *)
Definition abs_map (st : vid_state) (live : list Z) : gmap Z (Z * descriptor) :=
  list_to_map ((λ s, (handle_of st s, abs_entry (default zero_entry (slot_entry st s)))) <$> live).

Lemma represents_abs_map st free live : vid_ok st free live → represents st live (abs_map st live).
Proof.
  intros Hok h x. unfold abs_map. rewrite <- elem_of_list_to_map.
  - rewrite list_elem_of_fmap. split.
    + intros (s & [= -> ->] & Hs). destruct (inv_live_entry _ _ _ _ _ Hok Hs) as (e & k & He & _).
      exists s, e. unfold handle_of. by rewrite He.
    + intros (s & e & Hs & He & <- & <-). exists s. unfold handle_of. by rewrite He.
  - rewrite <- list_fmap_compose. apply NoDup_fmap_2_strong; [|by eapply inv_live_nodup].
    intros a b Ha Hb. by apply (handle_of_inj st free live []).
Qed.

Lemma represents_lookup `{MpiLib} st free live m h x :
  vid_ok st free live → represents st live m → m !! h = Some x →
  ∃ slot e, slot ∈ live ∧ slot_entry st slot = Some e ∧ virt e = h ∧ abs_entry e = x ∧
    lookup_virt_id_entry st h = Some slot.
Proof.
  intros Hok Hr (slot & e & Hin & He & Hv & Hx)%Hr.
  exists slot, e. split_and!; try done. subst h.
  destruct (inv_live_entry _ _ _ _ _ Hok Hin) as (e' & k & He' & Hl). simplify_eq.
  eapply lookup_live_entry; eauto using inv_slot_range.
Qed.

(** The kind recorded in a handle. *)
Lemma represents_kind `{MpiLib} st free live m h r d :
  vid_ok st free live → represents st live m → m !! h = Some (r, d) →
  1 ≤ kind_of h ≤ MANA_NUM_KINDS ∧ desc_kind (kind_of h) d ∧ 2 ^ 28 ≤ h < 2 ^ 31.
Proof.
  intros Hok Hr Hm. destruct (represents_lookup _ _ _ _ _ _ Hok Hr Hm)
    as (slot & e & Hin & He & <- & Hx & _).
  pose proof (inv_slot_range _ _ _ _ _ Hok Hin) as Hs.
  destruct (inv_live_entry _ _ _ _ _ Hok Hin) as (e' & k & He' & Hl). simplify_eq.
  rewrite (live_entry_kind_of _ _ _ Hs Hl). unfold abs_entry in Hx. simplify_eq.
  split; [apply Hl|]. split; [apply Hl|]. by eapply live_entry_virt_pos.
Qed.

(** ** Refinement: allocation *)

Lemma represents_insert st st' free live m s e kind :
  vid_ok st free live → represents st live m →
  slot_entry st' s = Some e → live_entry s e kind → (s ∉ live) → 0 ≤ s < 2 ^ 24 →
  (∀ x, x ∈ live → slot_entry st' x = slot_entry st x) →
  m !! virt e = None ∧ represents st' (live ++ [s]) (<[virt e := abs_entry e]> m).
Proof.
  intros Hok Hr He Hl Hs Hrange Hold.
  assert (∀ x ex, x ∈ live → slot_entry st x = Some ex → virt ex ≠ virt e) as Hdiff.
  { intros x ex Hx Hex Heq.
    destruct (inv_live_entry _ _ _ _ _ Hok Hx) as (e' & k & He' & [Hk Hv _]). simplify_eq.
    destruct Hl as [Hk' Hv' _]. rewrite Hv, Hv' in Heq.
    apply make_handle_inj in Heq as (_ & -> & _); [done|done| |done|done].
    by eapply inv_slot_range. }
  split.
  - apply eq_None_not_Some. intros [y (slot & ex & Hin & Hex & Hv & _)%Hr]. by eapply Hdiff.
  - intros h y. destruct (decide (h = virt e)) as [->|Hne].
    + rewrite lookup_insert_eq. split.
      * intros [= <-]. exists s, e. by rewrite elem_of_snoc; eauto.
      * intros (slot & ex & [Hin| ->]%elem_of_snoc & Hex & Hv & Hy).
        -- rewrite Hold in Hex by done. by destruct (Hdiff slot ex).
        -- by simplify_eq.
    + rewrite lookup_insert_ne by done. rewrite (Hr h y). split.
      * intros (slot & ex & Hin & Hex & ?). exists slot, ex. rewrite elem_of_snoc, Hold by done. eauto.
      * intros (slot & ex & [Hin| ->]%elem_of_snoc & Hex & Hv & Hy); [|by simplify_eq].
        rewrite Hold in Hex by done. eauto 6.
Qed.

(** C21. Allocation refines map insertion.  [add_virt_id()] on a table that
    represents [m] either aborts because all unreserved slots are in use, or
    returns a handle that is not in [m] and leaves a table that represents
    [m] with that handle mapped to the real object and its descriptor: every
    other handle keeps its object.  The handle carries the kind asked for. *)
Theorem add_virt_id_refines `{MpiLib} st m real d kind :
  vid_repr st m → 1 ≤ kind ≤ MANA_NUM_KINDS → desc_kind kind d →
  virt_id_next_seq st + 1 < 2 ^ 64 →
  match add_virt_id real d kind st with
  | Ok h st' => m !! h = None ∧ kind_of h = kind ∧ vid_repr st' (<[h := (real, d)]> m) ∧
      consts st' = consts st
  | Abort => ∃ free live, vid_ok st free live ∧ free = [] ∧ MANA_VIRT_ID_SLOT_MASK < next_slot st free
  | Spin => False
  end.
Proof.
  intros (free & live & Hok & Hr) Hk Hd Hn.
  pose proof (add_virt_id_spec st free live real d kind Hok Hk Hd Hn) as Ha. simpl in Ha.
  destruct (Z.ltb_spec MANA_VIRT_ID_SLOT_MASK (next_slot st free)) as [Hlt|Hle].
  { rewrite Ha. exists free, live. split; [done|]. split; [|done].
    destruct free as [|s free]; [done|]. simpl in Hlt.
    destruct (inv_free _ _ _ _ Hok s) as (? & _); [left|].
    pose proof (inv_hw _ _ _ _ Hok). unfold MANA_VIRT_ID_SLOT_MASK in Hlt. lia. }
  destruct Ha as (st' & e & -> & Hok' & He & Hl & Hre & Hde & _ & _ & _ & Hs & Hc & _ & _ & Hall & _).
  assert (∀ x, x ∈ live → slot_entry st' x = slot_entry st x) as Hold.
  { intros x Hx. apply Hall; [by apply Hok|]. by intros ->. }
  assert (0 ≤ next_slot st free < 2 ^ 24) as Hrange.
  { eapply inv_slot_range; [exact Hok'|]. rewrite elem_of_snoc. tauto. }
  destruct (represents_insert _ _ _ _ _ _ _ _ Hok Hr He Hl Hs Hrange Hold) as [Hm Hr'].
  split; [done|]. split; [by eapply live_entry_kind_of|]. split; [|done].
  exists (tail free), (live ++ [next_slot st free]). split; [done|].
  unfold abs_entry in Hr'. by rewrite Hre, Hde in Hr'.
Qed.

(** ** Refinement: release *)

Lemma represents_delete st st' free live m slot e :
  vid_ok st free live → represents st live m → slot ∈ live → slot_entry st slot = Some e →
  (∀ x, x ≠ slot → slot_entry st' x = slot_entry st x) →
  represents st' (filter (.≠ slot) live) (delete (virt e) m).
Proof.
  intros Hok Hr Hin He Hold h y.
  assert (∀ x ex, x ∈ live → slot_entry st x = Some ex → virt ex = virt e → x = slot) as Hinj.
  { intros x ex Hx Hex Hv. eapply handle_of_inj; [exact Hok|done|done|].
    unfold handle_of. by rewrite Hex, He. }
  rewrite lookup_delete_Some, (Hr h y). split.
  - intros (Hne & x & ex & Hx & Hex & Hv & Hy). assert (x ≠ slot) by (intros ->; simplify_eq).
    exists x, ex. rewrite elem_of_remove, Hold by done. done.
  - intros (x & ex & [Hx Hxs]%elem_of_remove & Hex & Hv & Hy). rewrite Hold in Hex by done.
    split; [|eauto 6]. intros Heq. apply Hxs. eapply Hinj; [done..|congruence].
Qed.

(** The values of a C handle. *)
Definition handle_range `{MpiLib} (h : Z) : Prop :=
  if handle64 then - 2 ^ 63 ≤ h < 2 ^ 63 else - 2 ^ 31 ≤ h < 2 ^ 31.

(** A value that is found is the handle in the slot, also where a handle has 64
    bits and the table's 32. *)
Lemma lookup_key `{MpiLib} st free live u slot :
  vid_ok st free live → - 2 ^ 63 ≤ u < 2 ^ 63 → lookup_virt_id_entry st u = Some slot →
  slot ∈ live ∧ handle_of st slot = constant_key u.
Proof.
  intros Hok Hu El. destruct (lookup_sound _ _ _ _ _ _ Hok El) as [Hin Hv]. split; [done|].
  pose proof (inv_slot_range _ _ _ _ _ Hok Hin) as Hs.
  destruct (inv_live_entry _ _ _ _ _ Hok Hin) as (e & k & He & Hl).
  pose proof (live_entry_virt_pos _ _ _ Hs Hl) as Hpos. unfold handle_of in *. rewrite He in *. simpl in *.
  unfold constant_key. destruct handle64 eqn:H64; [|done].
  unfold lookup_virt_id_entry in El. rewrite H64, andb_true_l in El.
  destruct (Z.eqb_spec (Z.shiftr (u64 u) 32) 0) as [Hhi|]; [|done].
  rewrite Z.shiftr_div_pow2 in Hhi by lia. unfold u64 in Hhi. unfold _handle, s32 in Hv.
  apply Z.div_small_iff in Hhi; [|lia].
  destruct (decide (0 ≤ u)); [rewrite Z.mod_small in Hhi by lia|].
  - rewrite Hv in Hpos |- *. destruct (decide (u < 2 ^ 31)); [rewrite Z.mod_small by lia; lia|].
    replace (u + 2 ^ 31) with (u - 2 ^ 31 + 1 * 2 ^ 32) in Hpos by lia.
    rewrite Z.mod_add, Z.mod_small in Hpos by lia. lia.
  - replace u with (u + 2 ^ 64 + (-1) * 2 ^ 64) in Hhi by lia.
    rewrite Z.mod_add, Z.mod_small in Hhi by lia. lia.
Qed.
Lemma handle_range_key `{MpiLib} h : handle_range h → - 2 ^ 63 ≤ h < 2 ^ 63 ∧ constant_key h = h.
Proof.
  unfold handle_range, constant_key, _handle. destruct handle64; [done|]. intros Hh. rewrite s32_small by lia. lia.
Qed.

(** A value that is not a handle of the map is not found. *)
Lemma lookup_absent `{MpiLib} st free live m h :
  vid_ok st free live → represents st live m → m !! h = None → handle_range h → lookup_virt_id_entry st h = None.
Proof.
  intros Hok Hr Hm [Hh Hk]%handle_range_key. destruct (lookup_virt_id_entry st h) as [slot|] eqn:El; [|done].
  destruct (lookup_key _ _ _ _ _ Hok Hh El) as [Hin Hv]. rewrite Hk in Hv. exfalso.
  destruct (inv_live_entry _ _ _ _ _ Hok Hin) as (e & k & He & _). unfold handle_of in Hv. rewrite He in Hv. simpl in Hv.
  assert (is_Some (m !! h)) as [? ?]; [|congruence]. eexists. apply Hr. eauto 6.
Qed.

(** C22. Release refines map deletion.  [free_virt_id()] of a handle in use
    (whose pending call, if it is a request, was taken off the log) leaves a
    table that represents the map without the handle; of any other value of
    the type of a handle (32 bits, or 64 where handles are pointers) it aborts:
    NULL handles, predefined constants, pointers whose low half is a handle in
    use and handles already freed are refused. *)
Theorem free_virt_id_refines `{MpiLib} st m (h : Z) :
  vid_repr st m →
  match m !! h with
  | Some _ =>
      match entry_of st h with
      | Some e =>
          if decide (call_type (call e) = UNKNOW_REQUEST)
          then ∃ st', free_virt_id h st = Ok () st' ∧ vid_repr st' (delete h m) ∧
            lookup_virt_id_entry st' h = None
          else free_virt_id h st = Abort
      | None => False
      end
  | None => handle_range h → free_virt_id h st = Abort
  end.
Proof.
  intros (free & live & Hok & Hr). destruct (m !! h) as [x|] eqn:Em.
  - destruct (represents_lookup _ _ _ _ _ _ Hok Hr Em) as (slot & e & Hin & He & <- & Hx & Hl).
    unfold entry_of. rewrite Hl. simpl. rewrite He.
    pose proof (free_virt_id_run st free live slot e Hok Hin He) as Hrun.
    case_decide; [|done]. destruct Hrun as [pool ->]. eexists. split; [done|]. split.
    + exists (slot :: free), (filter (.≠ slot) live). split; [by eapply freed_ok|].
      eapply represents_delete; eauto using freed_entry_ne.
    + destruct (inv_live_entry _ _ _ _ _ Hok Hin) as (e' & k & He' & [? Hv ?]). simplify_eq.
      rewrite Hv. by eapply freed_lookup_slot.
  - intros Hh. unfold free_virt_id. prog_red. by rewrite (lookup_absent _ _ _ _ _ Hok Hr Em Hh).
Qed.

(** ** Translation of handles *)

(** The slots of the registered constants are reserved. *)
Definition constants_reserved `{MpiLib} (st : vid_state) (mc : gmap Z mana_constant) : Prop :=
  ∀ u h, is_Some (mc !! u) → virtual_value h → same_handle u h →
    slot_is_reserved (consts st) (Z.land h MANA_VIRT_ID_SLOT_MASK) = true.

(** A constant is not found in the table. *)
Lemma lookup_constant_none `{MpiLib} st free live mc u :
  vid_ok st free live → constants_reserved st mc → is_Some (mc !! u) →
  - 2 ^ 63 ≤ u < 2 ^ 63 → lookup_virt_id_entry st u = None.
Proof.
  intros Hok Hres Hu Hrange. destruct (lookup_virt_id_entry st u) as [slot|] eqn:El; [|done].
  destruct (lookup_key _ _ _ _ _ Hok Hrange El) as [Hin Hv]. exfalso.
  pose proof (inv_slot_range _ _ _ _ _ Hok Hin) as Hs.
  destruct (inv_live _ _ _ _ Hok slot Hin) as (_ & Hfree & e & k & He & Hl).
  unfold handle_of in Hv. rewrite He in Hv. simpl in Hv.
  pose proof (live_entry_virt_pos _ _ _ Hs Hl) as Hpos.
  pose proof (live_entry_kind_of _ _ _ Hs Hl) as Hkind.
  assert (slot_is_reserved (consts st) slot = true) as Hr; [|congruence].
  replace slot with (Z.land (virt e) MANA_VIRT_ID_SLOT_MASK).
  - apply (Hres u); [done| |done]. split; [lia|]. fold (kind_of (virt e)). rewrite Hkind. apply Hl.
  - destruct Hl as [? -> ?]. by apply make_handle_slot.
Qed.

(** The fill of the table of constants reserves their slots. *)
Lemma entered_constants_reserved `{MpiLib} lower mc0 st mc :
  entered lower (uppers PREDEFINED) mc0 PREDEFINED (consts st) mc → constants_reserved st mc.
Proof.
  intros He u h Hu Hv Hs. apply elem_of_dom, (entered_dom _ _ _ _ _ _ He) in Hu. unfold uppers in Hu.
  apply elem_of_list_to_set, list_elem_of_fmap in Hu as (x & -> & Hx). by apply (entered_reserved _ _ _ _ _ _ He x).
Qed.

(** C23. Handles translate to the right object.  After the constants were entered,
    at launch or again at a restart ([init_predefined_constants] succeeds), and
    with any number of virtual handles in use: a handle in use is translated to
    the real handle last stored for it, and its descriptor is the one it was
    made with; every predefined constant is translated to the lower half's
    value and has no descriptor, and no virtual handle in use equals it, since
    its slot was reserved.  Two names of one constant of the upper half name one
    constant of the lower half. *)
Theorem get_real_id_translates `{MpiLib} c2f lower cs0 mc0 :
  repr cs0 mc0 → dom mc0 ⊆ uppers PREDEFINED → coherent lower PREDEFINED →
  (∀ x, x ∈ PREDEFINED → handle_range (upper_const x.2)) →
  ∃ cs, init_predefined_constants c2f lower cs0 = Ok () cs ∧
  ∀ st m, vid_repr st m → consts st = cs →
    (∀ h r d, m !! h = Some (r, d) → get_real_id h st = Ok r st ∧ get_virt_id_desc h st = Ok d st) ∧
    ∀ kind name, (kind, name) ∈ PREDEFINED →
      get_real_id (upper_const name) st = Ok (lower name) st ∧ get_virt_id_desc (upper_const name) st = Ok NoDesc st ∧
      m !! upper_const name = None.
Proof.
  intros Hc Hd Hco Hra. destruct (init_predefined_entered c2f lower cs0 mc0 Hc Hd Hco) as (cs & mc & E & He).
  exists cs. split; [done|]. intros st m (free & live & Hok & Hr) <-. split.
  - intros h r d Hm. destruct (represents_lookup _ _ _ _ _ _ Hok Hr Hm)
      as (slot & e & Hin & Hse & Hv & Hx & Hl). unfold abs_entry in Hx. simplify_eq.
    unfold get_real_id, get_virt_id_desc, entry_of. rewrite Hl. simpl. by rewrite Hse.
  - intros kind name Hn. destruct (handle_range_key _ (Hra _ Hn)) as [Hu Hk]. simpl in Hu, Hk.
    destruct (entered_lower _ _ _ _ _ _ He _ Hn) as (c & Hm & El'). simpl in Hm, El'.
    assert (lookup_virt_id_entry st (upper_const name) = None) as El.
    { eapply lookup_constant_none; [done|by eapply entered_constants_reserved|by eexists|done]. }
    unfold get_real_id, get_virt_id_desc, entry_of. rewrite El. simpl.
    unfold get_real_id_slow. rewrite (find_constant_repr _ _ _ (entered_repr _ _ _ _ _ _ He)), Hk, Hm, El'.
    split; [done|]. split; [done|].
    apply eq_None_not_Some. intros [x Hx].
    destruct (represents_lookup _ _ _ _ _ _ Hok Hr Hx) as (? & ? & ? & ? & ? & ? & ?). congruence.
Qed.

(** Updating a real handle touches that handle only, and refuses a value
    that is not in use. *)
Theorem update_virt_id_refines `{MpiLib} st m (h real : Z) :
  vid_repr st m →
  match m !! h with
  | Some (_, d) => ∃ st', update_virt_id h real st = Ok () st' ∧ vid_repr st' (<[h := (real, d)]> m)
  | None => handle_range h → update_virt_id h real st = Abort
  end.
Proof.
  intros (free & live & Hok & Hr). destruct (m !! h) as [[r d]|] eqn:Em.
  - destruct (represents_lookup _ _ _ _ _ _ Hok Hr Em) as (slot & e & Hin & He & Hv & Hx & Hl).
    unfold abs_entry in Hx. simplify_eq. unfold update_virt_id. prog_red. rewrite Hl.
    eexists. split; [done|]. exists free, live.
    split; [apply update_live_ok; [done..|]; by intros ?|].
    intros h' y. destruct (decide (h' = virt e)) as [->|Hne].
    + rewrite lookup_insert_eq. split.
      * intros [= <-]. exists slot. eexists. autorewrite with entry. rewrite He. by split_and!.
      * intros (x & ex & Hx & Hex & Hv & <-). assert (x = slot) as ->.
        { eapply handle_of_inj; [exact Hok|done|done|]. unfold handle_of. rewrite He.
          rewrite slot_entry_update in Hex. case_decide; [by subst; rewrite He|].
          by rewrite Hex. }
        autorewrite with entry in Hex. rewrite He in Hex. simpl in Hex. by simplify_eq.
    + rewrite lookup_insert_ne by done. rewrite (Hr h' y).
      assert (∀ x ex, x ∈ live → virt ex = h' →
        slot_entry (update_entry slot (λ e, e <| real_id := real |>) st) x = Some ex ↔
        slot_entry st x = Some ex) as Hsame; [|naive_solver].
      intros x ex Hx Hv. rewrite slot_entry_update. case_decide; [|done]. subst x. rewrite He. simpl.
      split; intros [= <-]; by destruct Hne.
  - intros Hh. unfold update_virt_id. prog_red. by rewrite (lookup_absent _ _ _ _ _ Hok Hr Em Hh).
Qed.

(** ** Histories and stale handles *)

Inductive vid_op :=
  | OpAdd (real : Z) (d : descriptor) (kind : Z)
  | OpFree (h : Z)
  | OpUpdate (h real : Z).

Definition run_op `{MpiLib} (op : vid_op) : prog vid_state unit :=
  match op with
  | OpAdd real d kind => add_virt_id real d kind ;; mret ()
  | OpFree h => free_virt_id h
  | OpUpdate h real => update_virt_id h real
  end.

Definition run_ops `{MpiLib} (ops : list vid_op) : prog vid_state unit := for_each ops run_op.

(** A call of the operation as the rest of the code makes it. *)
Definition op_valid (op : vid_op) : Prop :=
  match op with
  | OpAdd _ d kind => 1 ≤ kind ≤ MANA_NUM_KINDS ∧ desc_kind kind d
  | OpFree h | OpUpdate h _ => - 2 ^ 31 ≤ h < 2 ^ 31
  end.

(** The operation frees the slot. *)
Definition frees (slot : Z) (op : vid_op) : bool :=
  match op with OpFree h => Z.land h MANA_VIRT_ID_SLOT_MASK =? slot | _ => false end.

Lemma u32_add_mod a b : u32 (u32 a + b) = u32 (a + b).
Proof. unfold u32. by rewrite Zplus_mod_idemp_l. Qed.

(** Generations count the releases of a slot. *)
Lemma run_op_gen `{MpiLib} op st st' free live slot :
  vid_ok st free live → op_valid op → virt_id_next_seq st + 1 < 2 ^ 64 →
  0 ≤ slot < virt_id_high_water st →
  run_op op st = Ok () st' →
  (∃ free' live', vid_ok st' free' live') ∧
  virt_id_next_seq st' ≤ virt_id_next_seq st + 1 ∧ 0 ≤ slot < virt_id_high_water st' ∧
  gen_of st' slot = if frees slot op then u32 (gen_of st slot + 1) else gen_of st slot.
Proof.
  intros Hok Hv Hn Hs. destruct op as [real d kind|h|h real]; simpl in *.
  - intros (h & s1 & Ha & Hr)%prog_bind_inv. destruct Hv as [Hk Hd].
    unfold mret, prog_ret in Hr. simplify_eq.
    pose proof (add_virt_id_spec st free live real d kind Hok Hk Hd Hn) as Hspec. simpl in Hspec.
    destruct (_ <? _); [congruence|].
    destruct Hspec as (st2 & e & Ha' & Hok' & He & _ & _ & _ & _ & _ & _ & _ & _ & Hns & Hhw & Hall & Hg).
    rewrite Ha in Ha'. simplify_eq.
    split; [eauto|]. split; [lia|]. split; [lia|]. unfold gen_of at 1.
    destruct (decide (slot = next_slot st free)) as [->|]; [by rewrite He, <- Hg|].
    by rewrite Hall.
  - intros Hf. unfold free_virt_id in Hf. prog_red in Hf.
    destruct (lookup_virt_id_entry st h) as [sl|] eqn:El; [|done].
    destruct (lookup_sound _ _ _ _ _ _ Hok El) as [Hin Hh].
    destruct (inv_live_entry _ _ _ _ _ Hok Hin) as (e & k & He & Hl).
    pose proof (inv_slot_range _ _ _ _ _ Hok Hin) as Hrange.
    unfold handle_of, _handle in Hh. rewrite He in Hh. simpl in Hh. rewrite s32_small in Hh by lia.
    pose proof (free_virt_id_run st free live sl e Hok Hin He) as Hrun.
    unfold free_virt_id in Hrun. prog_red in Hrun. rewrite Hh, El in Hrun.
    case_decide; [|congruence]. destruct Hrun as [pool Hrun]. rewrite Hf in Hrun. simplify_eq.
    split; [eauto using freed_ok|]. split; [simpl; lia|]. split; [done|].
    assert (Z.land (virt e) MANA_VIRT_ID_SLOT_MASK = sl) as ->.
    { destruct Hl as [? -> _]. by apply make_handle_slot. }
    unfold gen_of at 1. destruct (Z.eqb_spec sl slot) as [->|Hne].
    + rewrite (freed_entry_eq _ _ _ _ He). unfold gen_of. by rewrite He.
    + by rewrite freed_entry_ne by done.
  - intros Hu. unfold update_virt_id in Hu. prog_red in Hu.
    destruct (lookup_virt_id_entry st h) as [sl|] eqn:El; [|done].
    destruct (lookup_sound _ _ _ _ _ _ Hok El) as [Hin _]. simplify_eq.
    split; [do 2 eexists; apply update_live_ok; [done..|by intros ?]|]. split; [simpl; lia|]. split; [done|].
    unfold gen_of. rewrite slot_entry_update. case_decide; [|done]. subst. by destruct (slot_entry st slot).
Qed.

(** How often a history frees the slot. *)
Definition times_freed (slot : Z) (ops : list vid_op) : Z :=
  Z.of_nat (length (filter (λ op, frees slot op = true) ops)).

Lemma run_ops_gen `{MpiLib} ops st st' free live slot :
  vid_ok st free live → Forall op_valid ops →
  virt_id_next_seq st + Z.of_nat (length ops) < 2 ^ 64 →
  0 ≤ slot < virt_id_high_water st → run_ops ops st = Ok () st' →
  (∃ free' live', vid_ok st' free' live') ∧ 0 ≤ slot < virt_id_high_water st' ∧
  gen_of st' slot mod 16 = (gen_of st slot + times_freed slot ops) mod 16.
Proof.
  unfold run_ops. revert st free live.
  induction ops as [|op ops IH]; intros st free live Hok Hv Hn Hs; simpl.
  { intros [= <-]. split; [eauto|]. split; [done|]. by rewrite Z.add_0_r. }
  intros ([] & st1 & H1 & H2)%prog_bind_inv. apply Forall_cons in Hv as [Hv Hvs].
  simpl length in Hn.
  destruct (run_op_gen op st st1 free live slot Hok Hv) as ((f1 & l1 & Hok1) & Hn1 & Hs1 & Hg);
    [lia|done|done|].
  destruct (IH st1 f1 l1 Hok1 Hvs) as (? & ? & Hg'); [lia|done|done|].
  split; [done|]. split; [done|]. rewrite Hg'. unfold times_freed. rewrite filter_cons, Hg.
  destruct (frees slot op); simpl; [|done].
  unfold u32. rewrite <- Zplus_mod_idemp_l, Z.mod_mod_divide by (by exists (2 ^ 28)).
  rewrite Zplus_mod_idemp_l. f_equal. lia.
Qed.

(** C29. Stale handles are detected for fifteen reuses.  After a handle is
    freed, as long as the operations that follow free its slot at most
    fourteen more times, looking the handle up finds nothing: it is not
    mistaken for an object that was made later, of any kind. *)
Theorem stale_handle_detected `{MpiLib} st free live slot ops st' :
  vid_ok st free live → slot ∈ live → Forall op_valid ops →
  virt_id_next_seq st + Z.of_nat (length ops) + 1 < 2 ^ 64 →
  run_ops (OpFree (handle_of st slot) :: ops) st = Ok () st' →
  times_freed slot ops < 15 →
  lookup_virt_id_entry st' (handle_of st slot) = None.
Proof.
  intros Hok Hin Hv Hn Hrun Hfew.
  pose proof (inv_slot_range _ _ _ _ _ Hok Hin) as Hrange.
  destruct (inv_live _ _ _ _ Hok slot Hin) as (Hhw & _ & e & k & He & Hl).
  assert (handle_of st slot = virt e) as Hh by (unfold handle_of; by rewrite He).
  pose proof (live_entry_virt_pos _ _ _ Hrange Hl) as Hpos. rewrite Hh in *.
  destruct (run_ops_gen (OpFree (virt e) :: ops) st st' free live slot) as ((f' & l' & Hok') & Hs' & Hg);
    [done|constructor; [simpl; lia|done]|simpl; lia|done|done|].
  assert (times_freed slot (OpFree (virt e) :: ops) = 1 + times_freed slot ops) as Ht.
  { unfold times_freed. rewrite filter_cons. simpl. destruct Hl as [? -> _].
    rewrite make_handle_slot, Z.eqb_refl by done. simpl. lia. }
  rewrite Ht in Hg. destruct Hl as [Hk Hvirt _]. rewrite Hvirt, lookup_make_handle by done.
  destruct (slot_entry st' slot) as [e'|] eqn:He'; [|done].
  destruct (Z.eqb_spec (virt e') (make_handle k (gen e) slot)) as [Heq|]; [|done]. exfalso.
  destruct (decide (slot ∈ l')) as [Hin'|Hn'].
  - destruct (inv_live_entry _ _ _ _ _ Hok' Hin') as (e2 & k2 & He2 & [Hk2 Hv2 _]). simplify_eq.
    rewrite Hv2 in Heq. apply make_handle_inj in Heq as (_ & _ & Hm); [|done..].
    unfold gen_of in Hg. rewrite He, He' in Hg. simpl in Hg. rewrite Hm in Hg.
    assert (0 ≤ times_freed slot ops) by (unfold times_freed; lia).
    rewrite <- (Z.add_mod_idemp_l (gen e)) in Hg by lia.
    pose proof (Z.mod_pos_bound (gen e) 16 ltac:(lia)). clear - Hg H0 H1 Hfew. 
    Z.to_euclidean_division_equations. lia.
  - pose proof (inv_dead _ _ _ _ Hok' slot e' He' Hn').
    pose proof (make_handle_range k (gen e) slot Hk Hrange). lia.
Qed.

(** Makes an object and frees it, [n] times. *)
Fixpoint make_and_free `{MpiLib} (n : nat) (real : Z) (kind : Z) : prog vid_state unit :=
  match n with
  | O => mret ()
  | S n' => h ← add_virt_id real NoDesc kind; free_virt_id h ;; make_and_free n' real kind
  end.

(** The generation has four bits: after sixteen releases of its slot a
    stale handle is taken for a live one.  Here a request is made and freed,
    fifteen others are, and the handle of the first names the next request. *)
Theorem stale_handle_aliases_after_16 :
  ∃ h st, (h ← @add_virt_id 100 NoDesc MANA_REQUEST_KIND;
           @free_virt_id sample_lib h ;;
           @make_and_free sample_lib 15 200 MANA_REQUEST_KIND ;;
           h' ← @add_virt_id 300 NoDesc MANA_REQUEST_KIND;
           r ← @get_real_id sample_lib h;
           mret (h, h', r)) init_vid = Ok (h, h, 300) st.
Proof. do 2 eexists. vm_compute. reflexivity. Qed.

(** ** Scans *)

Lemma mapM_slot_entry st free live l :
  vid_ok st free live → (∀ s, s ∈ l → 0 ≤ s < virt_id_high_water st) →
  mapM (slot_entry st) l = Some ((λ s, default zero_entry (slot_entry st s)) <$> l).
Proof.
  intros Hok Hl. apply mapM_Some. induction l as [|s l IH]; simpl; constructor.
  - destruct (inv_published _ _ _ _ Hok s) as [e ->]; [|done]. apply Hl. left.
  - apply IH. intros. apply Hl. by right.
Qed.

Lemma scan_run st free live :
  vid_ok st free live →
  scan st = Some ((λ s, default zero_entry (slot_entry st s)) <$> seqZ 0 (virt_id_high_water st)).
Proof.
  intros Hok. eapply mapM_slot_entry; [done|]. intros s Hs%elem_of_seqZ. lia.
Qed.

(** A scan that keeps entries by a test that free entries fail keeps the live
    ones. *)
Lemma scan_live_perm {A} st free live (f : virt_id_entry → option A) :
  vid_ok st free live → (∀ e, virt e = 0 → f e = None) →
  omap f ((λ s, default zero_entry (slot_entry st s)) <$> seqZ 0 (virt_id_high_water st)) ≡ₚ
  omap (λ s, f (default zero_entry (slot_entry st s))) live.
Proof.
  intros Hok Hf. set (g := λ s, f (default zero_entry (slot_entry st s))).
  assert (∀ l, omap f ((λ s, default zero_entry (slot_entry st s)) <$> l) = omap g l) as ->.
  { intros l. induction l as [|s l IH]; [done|]. csimpl. by rewrite IH. }
  assert (∀ l : list Z, (∀ s, s ∈ l → 0 ≤ s < virt_id_high_water st) →
    omap g l = omap g (filter (λ s, s ∈ live) l)) as Hfil.
  { intros l Hl. induction l as [|s l IH]; [done|]. rewrite filter_cons.
    destruct (decide (s ∈ live)) as [Hs|Hs]; csimpl; rewrite IH by (intros; apply Hl; by right); [done|].
    assert (g s = None) as ->; [|done]. unfold g. apply Hf.
    destruct (inv_published _ _ _ _ Hok s) as [e He]; [apply Hl; left|]. rewrite He. simpl.
    by eapply inv_dead. }
  rewrite Hfil by (intros s Hs%elem_of_seqZ; lia). apply omap_Permutation.
  apply NoDup_Permutation.
  - apply NoDup_filter, NoDup_seqZ.
  - by eapply inv_live_nodup.
  - intros s. rewrite list_elem_of_filter, elem_of_seqZ. split; [tauto|]. intros Hs. split; [done|].
    destruct (inv_live _ _ _ _ Hok s Hs) as (? & _). lia.
Qed.

#[export] Instance pair_le_total : Total pair_le.
Proof. intros [a b] [c d]. unfold pair_le. simpl. lia. Qed.
#[export] Instance pair_le_trans : Transitive pair_le.
Proof. intros [a b] [c d] [e f]. unfold pair_le. simpl. lia. Qed.
#[export] Instance pair_le_antisym : AntiSymm eq pair_le.
Proof. intros [a b] [c d]. unfold pair_le. simpl. intros. f_equal; lia. Qed.

(** Sorting by creation number gives creation order. *)
Lemma sort_by_seq st free live (q : virt_id_entry → bool) l :
  vid_ok st free live →
  l ≡ₚ omap (λ s, let e := default zero_entry (slot_entry st s) in
                  if q e then Some (entry_seq e, virt e) else None) live →
  snd <$> merge_sort pair_le l =
    handle_of st <$> filter (λ s, q (default zero_entry (slot_entry st s)) = true) live.
Proof.
  intros Hok Hl. set (g := λ s, _) in Hl.
  assert (StronglySorted pair_le (omap g live)) as Hs.
  { pose proof (inv_sorted _ _ _ _ Hok) as Hsort. clear Hl Hok.
    induction Hsort as [|s l' Hs IH Hf]; csimpl; [constructor|].
    unfold g at 1. destruct (q _); [|done]. constructor; [done|]. apply Forall_forall.
    intros [x y] (s' & Hs' & Hx)%list_elem_of_omap. rewrite Forall_forall in Hf.
    specialize (Hf s' Hs'). unfold g in Hx. destruct (q _); [|done]. simplify_eq.
    left. simpl. unfold seq_of in Hf.
    destruct (slot_entry st s), (slot_entry st s'); simpl in *; done. }
  assert (merge_sort pair_le l = omap g live) as ->.
  { apply (StronglySorted_unique pair_le); [apply StronglySorted_merge_sort; apply _|done|].
    rewrite merge_sort_Permutation. done. }
  clear - Hok. pose proof (inv_published _ _ _ _ Hok) as Hp.
  assert (∀ s, s ∈ live → 0 ≤ s < virt_id_high_water st) as Hr by (intros; by apply Hok).
  clear Hok. induction live as [|s l IH]; [done|]. rewrite filter_cons. csimpl. unfold g at 1.
  destruct (Hp s) as [e He]; [apply Hr; left|].
  destruct (q (default zero_entry (slot_entry st s))) eqn:Eq; csimpl.
  - f_equal; [|apply IH; intros; apply Hr; by right]. unfold handle_of. by rewrite He.
  - apply IH. intros. apply Hr. by right.
Qed.

(** [live_virt_comms()] lists exactly the communicators in use, each once,
    in the order in which they were made, however their slots were reused:
    this order is the same on all members, which the checkpoint's collective
    exchange relies on. *)
Theorem live_virt_comms_in_creation_order st free live :
  vid_ok st free live →
  live_virt_comms st =
    Ok (handle_of st <$> filter (λ s, kind_of (handle_of st s) = MANA_COMM_KIND) live) st.
Proof.
  intros Hok. unfold live_virt_comms. prog_red. rewrite (scan_run _ _ _ Hok).
  rewrite (sort_by_seq st free live is_live_comm _ Hok).
  - f_equal. f_equal. apply filter_iff_in. intros s Hs.
    pose proof (inv_slot_range _ _ _ _ _ Hok Hs) as Hrange.
    destruct (inv_live_entry _ _ _ _ _ Hok Hs) as (e & k & He & Hl). unfold handle_of.
    rewrite He. simpl. unfold is_live_comm.
    pose proof (live_entry_virt_pos _ _ _ Hrange Hl).
    rewrite (proj2 (Z.eqb_neq (virt e) 0)) by lia. cbn [negb andb]. apply Z.eqb_eq.
  - apply (scan_live_perm st free live (λ e, if is_live_comm e then Some (entry_seq e, virt e) else None) Hok).
    intros e He. unfold is_live_comm. by rewrite He.
Qed.

(** ** Witnesses *)

(** A table with a request and a communicator, after the table of constants
    was filled. *)
Definition sample_comm : mana_comm_desc := mk_comm_desc 2 0 [0; 1] (-1) [] [] 7.

Definition sample_run : prog vid_state (Z * Z) :=
  r ← add_virt_id 100 NoDesc MANA_REQUEST_KIND;
  c ← add_virt_id 200 (CommDesc sample_comm) MANA_COMM_KIND;
  mret (r, c).

Lemma sample_run_ok : ∃ r c st free live, sample_run init_vid = Ok (r, c) st ∧
  vid_ok st free live ∧ live = [0; 1] ∧ handle_of st 0 = r ∧ handle_of st 1 = c.
Proof.
  pose proof (add_virt_id_spec init_vid [] [] 100 NoDesc MANA_REQUEST_KIND vid_init_ok
    ltac:(by vm_compute) ltac:(by left) ltac:(by vm_compute)) as H. cbv zeta in H.
  change (MANA_VIRT_ID_SLOT_MASK <? next_slot init_vid []) with false in H. cbv iota in H.
  destruct H as (st1 & e1 & H1 & Hok1 & He1 & _ & _ & _ & _ & _ & _ & _ & Hc1 & Hn1 & _).
  change (next_slot init_vid []) with 0 in *.
  assert (virt_id_high_water st1 = 1) as Hhw.
  { vm_compute in H1. injection H1 as _ <-. done. }
  pose proof (add_virt_id_spec st1 [] [0] 200 (CommDesc sample_comm) MANA_COMM_KIND Hok1
    ltac:(by vm_compute) ltac:(done) ltac:(rewrite Hn1; by vm_compute)) as H. cbv zeta in H.
  assert (next_slot st1 [] = 1) as Hs.
  { unfold next_slot. rewrite Hc1, Hhw. done. }
  rewrite Hs in H. change (MANA_VIRT_ID_SLOT_MASK <? 1) with false in H. cbv iota in H.
  destruct H as (st2 & e2 & H2 & Hok2 & He2 & _ & _ & _ & _ & _ & _ & _ & _ & _ & _ & Hold & _).
  exists (virt e1), (virt e2), st2, [], [0; 1]. split_and!; try done.
  - unfold sample_run. rewrite (prog_bind_ok _ _ _ _ _ H1). by rewrite (prog_bind_ok _ _ _ _ _ H2).
  - unfold handle_of. by rewrite Hold, He1 by lia.
  - unfold handle_of. by rewrite He2.
Qed.

Lemma add_virt_id_refines_witness :
  ∃ h st', add_virt_id 100 NoDesc MANA_REQUEST_KIND init_vid = Ok h st' ∧
    vid_repr st' (<[h := (100, NoDesc)]> ∅).
Proof.
  pose proof (@add_virt_id_refines sample_lib init_vid ∅ 100 NoDesc MANA_REQUEST_KIND vid_repr_init
    ltac:(by vm_compute) ltac:(by left) ltac:(by vm_compute)) as H.
  destruct (add_virt_id 100 NoDesc MANA_REQUEST_KIND init_vid) as [h st'| |] eqn:E.
  - exists h, st'. destruct H as (_ & _ & H & _). split; [done|exact H].
  - vm_compute in E. discriminate E.
  - vm_compute in E. discriminate E.
Defined.

(** The sample table, with what it represents. *)
Lemma sample_run_repr : ∃ r c st m, sample_run init_vid = Ok (r, c) st ∧ vid_repr st m ∧
  m !! r = Some (100, NoDesc) ∧ consts st = init_constants ∧
  ∃ e, @entry_of sample_lib st r = Some e ∧ call_type (call e) = UNKNOW_REQUEST.
Proof.
  destruct sample_run_ok as (r & c & st & free & live & Hrun & Hok & -> & Hr & _).
  exists r, c, st, (abs_map st [0; 1]). split; [done|].
  pose proof (represents_abs_map _ _ _ Hok) as Hrep.
  split; [by exists free, [0; 1]|]. clear Hok Hr.
  vm_compute in Hrun. injection Hrun as <- _ <-. split; [|split].
  - apply Hrep. exists 0. eexists. split; [left|]. by vm_compute.
  - done.
  - eexists. by vm_compute.
Qed.

Lemma free_virt_id_refines_witness :
  ∃ r c st st' m, sample_run init_vid = Ok (r, c) st ∧ m !! r = Some (100, NoDesc) ∧
    @free_virt_id sample_lib r st = Ok () st' ∧ vid_repr st' (delete r m).
Proof.
  destruct sample_run_repr as (r & c & st & m & Hrun & Hr & Hm & _ & e & He & Hcall).
  pose proof (@free_virt_id_refines sample_lib st m r Hr) as H. rewrite Hm, He in H.
  rewrite decide_True in H by done. destruct H as (st' & Hf & Hr' & _).
  by exists r, c, st, st', m.
Defined.

(** A request is made after a launch: it and MPI_INT are translated. *)
Lemma sample_request_made `{MpiLib} cs :
  Z.of_nat (length (reserved_slots cs)) ≤ 2 ^ 24 → next_slot (init_vid <| consts := cs |>) [] ≤ MANA_VIRT_ID_SLOT_MASK →
  ∃ h st m, add_virt_id 100 NoDesc MANA_REQUEST_KIND (init_vid <| consts := cs |>) = Ok h st ∧ vid_repr st m ∧
    m !! h = Some (100, NoDesc) ∧ consts st = cs.
Proof.
  intros Hl Hs. pose proof (vid_ok_consts cs Hl) as Hok. set (live := []) in Hok.
  pose proof (add_virt_id_spec (init_vid <| consts := cs |>) [] live 100 NoDesc MANA_REQUEST_KIND Hok
    ltac:(by vm_compute) ltac:(by left) ltac:(by vm_compute)) as Ha. cbv zeta in Ha.
  rewrite (proj2 (Z.ltb_ge _ _)) in Ha by exact Hs.
  destruct Ha as (st & e & E & Hok' & He & _ & Hre & Hde & _ & _ & _ & _ & Hcs & _).
  pose proof (represents_abs_map _ _ _ Hok') as Hrep.
  exists (virt e), st, (abs_map st (live ++ [next_slot (init_vid <| consts := cs |>) []])). split; [done|].
  split; [by eexists _, _|]. split; [|by rewrite Hcs]. apply Hrep. eexists _, e. rewrite elem_of_snoc.
  unfold abs_entry. rewrite Hre, Hde. eauto.
Qed.

Lemma get_real_id_translates_witness :
  ∃ cs h st, @init_predefined_constants sample_lib sample_c2f sample_lower init_constants = Ok () cs ∧
    add_virt_id 100 NoDesc MANA_REQUEST_KIND (init_vid <| consts := cs |>) = Ok h st ∧
    @get_real_id sample_lib h st = Ok 100 st ∧
    @get_real_id sample_lib (@upper_const sample_lib "INT") st = Ok (sample_lower "INT") st ∧ h ≠ @upper_const sample_lib "INT".
Proof.
  destruct (@get_real_id_translates sample_lib sample_c2f sample_lower init_constants ∅ repr_empty) as (cs & E & Ht).
  - set_solver.
  - apply sample_coherent.
  - intros x Hx. assert (forallb (λ x, bool_decide (- 2 ^ 31 ≤ @upper_const sample_lib x.2 < 2 ^ 31)) PREDEFINED = true) as Hb
      by (vm_compute; reflexivity).
    rewrite forallb_forall in Hb. specialize (Hb x (proj1 (list_elem_of_In _ _) Hx)). apply bool_decide_eq_true in Hb.
    unfold handle_range. destruct handle64; lia.
  - assert (match @init_predefined_constants sample_lib sample_c2f sample_lower init_constants with
      | Ok _ cs => (Z.of_nat (length (reserved_slots cs)) <=? 2 ^ 24) && (next_slot (init_vid <| consts := cs |>) [] <=? MANA_VIRT_ID_SLOT_MASK)
      | _ => false end = true) as Hc by (vm_compute; reflexivity).
    rewrite E in Hc. apply andb_prop in Hc as [Hl%Z.leb_le Hs%Z.leb_le].
    destruct (@sample_request_made sample_lib cs Hl Hs) as (h & st & m & Ea & Hr & Hm & Hcs).
    destruct (Ht st m Hr Hcs) as [H1 H2]. exists cs, h, st. split; [exact E|]. split; [exact Ea|]. split; [by apply (H1 h 100 NoDesc)|].
    destruct (H2 MANA_DATATYPE_KIND "INT") as (H3 & _ & H4); [apply list_elem_of_In; vm_compute; tauto|].
    split; [exact H3|]. intros Eq. rewrite Eq in Hm. discriminate (eq_trans (eq_sym H4) Hm).
Defined.

Lemma update_virt_id_refines_witness :
  ∃ r c st st' m, sample_run init_vid = Ok (r, c) st ∧
    @update_virt_id sample_lib r 300 st = Ok () st' ∧ vid_repr st' (<[r := (300, NoDesc)]> m).
Proof.
  destruct sample_run_repr as (r & c & st & m & Hrun & Hr & Hm & _).
  pose proof (@update_virt_id_refines sample_lib st m r 300 Hr) as H. rewrite Hm in H.
  destruct H as (st' & ? & ?). by exists r, c, st, st', m.
Defined.

Lemma stale_handle_detected_witness :
  ∃ r c st st', sample_run init_vid = Ok (r, c) st ∧
    @run_ops sample_lib [OpFree r; OpAdd 5 NoDesc MANA_REQUEST_KIND] st = Ok () st' ∧
    lookup_virt_id_entry (H := sample_lib) st' r = None.
Proof.
  destruct sample_run_ok as (r & c & st & free & live & Hrun & Hok & -> & Hr & Hc).
  assert (virt_id_next_seq st = 2) as Hn by (vm_compute in Hrun; by injection Hrun as _ _ <-).
  assert (∃ st', @run_ops sample_lib [OpFree (handle_of st 0); OpAdd 5 NoDesc MANA_REQUEST_KIND] st
    = Ok () st') as [st' Hst'].
  { clear Hr Hc. vm_compute in Hrun. injection Hrun as _ _ <-. eexists. vm_compute. reflexivity. }
  exists r, c, st, st'. rewrite Hr in Hst'. split; [exact Hrun|]. split; [exact Hst'|].
  rewrite <- Hr in Hst' |- *.
  apply (@stale_handle_detected sample_lib st free [0; 1] 0 [OpAdd 5 NoDesc MANA_REQUEST_KIND] st' Hok).
  - left.
  - constructor; [|constructor]. split; [by vm_compute|by left].
  - rewrite Hn. by vm_compute.
  - exact Hst'.
  - by vm_compute.
Defined.

Lemma live_virt_comms_in_creation_order_witness :
  ∃ r c st, sample_run init_vid = Ok (r, c) st ∧ live_virt_comms st = Ok [c] st.
Proof.
  destruct sample_run_ok as (r & c & st & free & live & Hrun & Hok & -> & Hr & Hc).
  exists r, c, st. split; [exact Hrun|].
  rewrite (live_virt_comms_in_creation_order st free [0; 1] Hok).
  rewrite <- Hc. clear Hr Hc. vm_compute in Hrun. injection Hrun as _ _ <-. by vm_compute.
Defined.
