(* ===== verification/Kvdb.v ===== *)
(** * The coordinator's key-value store

    The drains of a checkpoint share data through DMTCP's KVDB
    ([dmtcp::kvdb::request64], [get64], [set64]), which is not part of the
    repository.  The class [Kvdb] states the operations that the code uses and
    what it relies on: a request changes only its own key, MAX keeps the
    largest value, INCRBY adds and returns the old value (0 for a new key), OR
    accumulates bits.  A request succeeds, as the code asserts.  [KvdbText] has
    the operations on text values.  [assoc_kvdb] is
    a store that has these laws.

    A database name is [ckpt_kvdb_name(what, attempt)], and a key is printed
    from the gid, the round or the list entry that it stands for; both are kept
    here as what they are made from.  Values are 64-bit patterns, so that a gid
    that is stored as an [int64_t] and read back as a [uint64_t] is
    unchanged. *)
From S2P Require Import Prelude.

Inductive kvdb_name :=
  | COMM_SEQ_MAX (attempt : nat)
  | CRITICAL_SECTION (attempt : nat)
  | CONVERGE (attempt : nat)
  | TARGETS_RAISED (attempt : nat)
  | RAISED_GIDS (attempt : nat)
  | P2P                                  (* g_drain_db *)
  | OTHER_DB (name : string).

Inductive kvdb_key :=
  | gid_key (gid : Z)                    (* jalib::XToString(gid) *)
  | round_key (round : nat)              (* round-%06d *)
  | raised_entry_key (round : nat) (i : Z)  (* round-%06d-%lld *)
  | sent_key (round : nat)               (* sent_%d *)
  | recv_key (round : nat)               (* recv_%d *)
  | blocked_key (word : Z)               (* blocked_%d *)
  | ndummies_key (rank : Z)              (* ndummies_%d *)
  | dummy_key (rank slot : Z)            (* dummy_%d_%lld *)
  | nssends_key (rank : Z)               (* nssends_%d *)
  | ssend_key (rank slot : Z)            (* ssend_%d_%lld *)
  | other_key (key : string).

#[export] Instance kvdb_name_eq_dec : EqDecision kvdb_name.
Proof. solve_decision. Defined.
#[export] Instance kvdb_key_eq_dec : EqDecision kvdb_key.
Proof. solve_decision. Defined.

Class Kvdb (K : Type) := {
  get64 : kvdb_name → kvdb_key → K → option Z;
  set64 : kvdb_name → kvdb_key → Z → K → K;
  request_MAX : kvdb_name → kvdb_key → Z → K → K;
  request_INCRBY : kvdb_name → kvdb_key → Z → K → Z * K;
  request_OR : kvdb_name → kvdb_key → Z → K → K
}.

(** Text values ([kvdb::set], [kvdb::get]): the code prints numbers with blanks
    between them and reads them back, so a text is kept as its numbers. *)
Class KvdbText (K : Type) := {
  get_text : kvdb_name → kvdb_key → K → option (list Z);
  set_text : kvdb_name → kvdb_key → list Z → K → K
}.

(** A request on one key sets it to [f] of its old value. *)
Definition upd_key `{Kvdb K} (db : kvdb_name) (key : kvdb_key) (f : option Z → Z) (kv kv' : K) : Prop :=
  get64 db key kv' = Some (f (get64 db key kv)) ∧
  ∀ db' key', (db', key') ≠ (db, key) → get64 db' key' kv' = get64 db' key' kv.

Class KvdbLaws (K : Type) `{!Kvdb K} : Prop := {
  set64_spec db key v kv : upd_key db key (λ _, v) kv (set64 db key v kv);
  MAX_spec db key v kv :
    upd_key db key (λ o, match o with Some o => Z.max o v | None => v end) kv (request_MAX db key v kv);
  INCRBY_spec db key v kv :
    upd_key db key (λ o, default 0 o + v) kv (snd (request_INCRBY db key v kv));
  INCRBY_old db key v kv :
    fst (request_INCRBY db key v kv) = default 0 (get64 db key kv);
  OR_spec db key v kv :
    upd_key db key (λ o, Z.lor (default 0 o) v) kv (request_OR db key v kv)
}.

Class KvdbTextLaws (K : Type) `{!Kvdb K, !KvdbText K} : Prop := {
  set_text_eq db key v kv : get_text db key (set_text db key v kv) = Some v;
  set_text_ne db key v kv db' key' :
    (db', key') ≠ (db, key) → get_text db' key' (set_text db key v kv) = get_text db' key' kv;
  set_text_get64 db key v kv db' key' : get64 db' key' (set_text db key v kv) = get64 db' key' kv;
  INCRBY_text db key v kv db' key' : get_text db' key' (snd (request_INCRBY db key v kv)) = get_text db' key' kv;
  OR_text db key v kv db' key' : get_text db' key' (request_OR db key v kv) = get_text db' key' kv
}.

Lemma upd_key_eq `{Kvdb K} db key f kv kv' :
  upd_key db key f kv kv' → get64 db key kv' = Some (f (get64 db key kv)).
Proof. by intros [? _]. Qed.
Lemma upd_key_ne `{Kvdb K} db key f kv kv' db' key' :
  upd_key db key f kv kv' → (db', key') ≠ (db, key) → get64 db' key' kv' = get64 db' key' kv.
Proof. intros [_ Hne]. apply Hne. Qed.

(** ** A store with these laws *)

Definition assoc_kvdb : Type := list ((kvdb_name * kvdb_key) * Z).

Definition assoc_get (db : kvdb_name) (key : kvdb_key) (kv : assoc_kvdb) : option Z :=
  snd ∘ snd <$> list_find (λ x, x.1 = (db, key)) kv.

Definition assoc_put (db : kvdb_name) (key : kvdb_key) (f : option Z → Z) (kv : assoc_kvdb) : assoc_kvdb :=
  ((db, key), f (assoc_get db key kv)) :: kv.

#[export] Instance assoc_kvdb_ops : Kvdb assoc_kvdb := {|
  get64 := assoc_get;
  set64 db key v := assoc_put db key (λ _, v);
  request_MAX db key v := assoc_put db key (λ o, match o with Some o => Z.max o v | None => v end);
  request_INCRBY db key v kv :=
    (default 0 (assoc_get db key kv), assoc_put db key (λ o, default 0 o + v) kv);
  request_OR db key v := assoc_put db key (λ o, Z.lor (default 0 o) v)
|}.

Lemma assoc_put_spec db key f kv : upd_key db key f kv (assoc_put db key f kv).
Proof.
  split.
  - simpl. unfold assoc_get, assoc_put. simpl. by rewrite decide_True.
  - intros db' key' Hne. simpl. unfold assoc_get, assoc_put. simpl.
    rewrite decide_False by congruence. by destruct (list_find _ kv) as [[]|].
Qed.

#[export] Instance assoc_kvdb_laws : KvdbLaws assoc_kvdb.
Proof. split; intros; try apply assoc_put_spec. done. Qed.
