(* ===== verification/SeqNum.v ===== *)
(** * Collective clocks of one process ([src/src/seq_num.cpp])

    The state that [seq_num_lock] protects and the operations on it, each of
    which runs under the lock: counting a collective call, adding a clock, and
    the exchanges of the drain with the KVDB.  [CollectiveDrain] composes them
    into the drain of a whole job.

    [std::unordered_map] is [gmap]: no operation depends on the order in which
    it visits the clocks, because each visit touches one clock and one key.
    [begin_critical_section] returns [None] while
    [wait_while_targets_reached()] waits. *)
From S2P Require Import Prelude Mpi Kvdb.

Inductive phase_t := IN_CS | IS_READY.
#[export] Instance phase_t_eq_dec : EqDecision phase_t.
Proof. solve_decision. Defined.

Record comm_clock := mk_clock { clock_seq : Z; clock_target : Z }.
#[export] Instance eta_clock : Eta comm_clock := λ c, mk_clock (clock_seq c) (clock_target c).

Record seq_state := mk_seq {
  ckpt_pending : bool;
  current_phase : phase_t;
  clocks : gmap Z comm_clock;
  raised_clocks : list Z;
  added_clock : bool;
  targets_version : Z
}.
#[export] Instance eta_seq_state : Eta seq_state := λ s,
  mk_seq (ckpt_pending s) (current_phase s) (clocks s) (raised_clocks s) (added_clock s)
    (targets_version s).

Definition seq_num_init (s : seq_state) : seq_state := s <| ckpt_pending := false |>.
Definition seq_num_reset (s : seq_state) : seq_state := s <| ckpt_pending := false |>.

(** ** Operations of application threads *)

(** Every clock has reached its target. *)
Definition check_seq_nums (s : seq_state) : bool :=
  forallb (λ x : Z * comm_clock, negb (clock_seq x.2 <? clock_target x.2)) (map_to_list (clocks s)).

Definition add_comm_clock (gid : Z) : prog seq_state unit :=
  s ← get_state;
  assert_ (bool_decide (clocks s !! gid = None)) ;;
  modify (λ s, s <| clocks ::= <[gid := mk_clock 0 0]> |>) ;;
  if ckpt_pending s then modify (λ s, s <| added_clock := true |>) else mret ().

(** [wait_while_targets_reached()] waits in this state. *)
Definition must_wait (s : seq_state) : bool := ckpt_pending s && check_seq_nums s.

(** The part of [begin_critical_section()] after the wait; [desc] is the gid
    and the size of the communicator, or [None] if the call is not counted. *)
Definition count_call (desc : option (Z * Z)) : prog seq_state unit :=
  modify (λ s, s <| current_phase := IN_CS |>) ;;
  match desc with
  | None => mret ()
  | Some (gid, size) =>
      s ← get_state;
      clock ← deref (clocks s !! gid);
      let seq' := u64 (clock_seq clock + 1) in
      if ckpt_pending s && (clock_target clock <? seq') then
        modify (λ s, s <| clocks ::= <[gid := mk_clock seq' seq']> |>) ;;
        if 1 <? size then modify (λ s, s <| raised_clocks ::= λ l, l ++ [gid] |>) else mret ()
      else
        modify (λ s, s <| clocks ::= <[gid := clock <| clock_seq := seq' |>]> |>)
  end.

Definition begin_critical_section (desc : option (Z * Z)) (s : seq_state)
  : option (outcome seq_state unit) :=
  if must_wait s then None else Some (count_call desc s).

(** [commit_begin()] does nothing for [MPI_COMM_NULL]; [desc] is the
    communicator's descriptor. *)
Definition commit_begin `{MpiLib} (comm : Z) (desc : option (Z * Z)) (s : seq_state)
  : option (outcome seq_state unit) :=
  if comm =? MPI_COMM_NULL then Some (Ok () s) else begin_critical_section desc s.

(** The first statement of [commit_finish()], which runs without the lock. *)
Definition commit_ready (s : seq_state) : seq_state := s <| current_phase := IS_READY |>.

(** [clocks.erase(gid)] in [finish_free()]. *)
Definition erase_clock (gid : Z) (s : seq_state) : seq_state := s <| clocks ::= delete gid |>.

(** ** Exchanges with the KVDB *)

Section exchange.
Context `{Kvdb K}.

Definition upload_seq (db : kvdb_name) (gid seq : Z) (kv : K) : K :=
  request_MAX db (gid_key gid) seq kv.

Definition upload_seq_num (db : kvdb_name) (s : seq_state) (kv : K) : K :=
  map_fold (λ gid c kv, upload_seq db gid (clock_seq c) kv) kv (clocks s).

(** The new value of a clock of [download_targets()]. *)
Definition download_clock (db : kvdb_name) (kv : K) (gid : Z) (c : comm_clock) : comm_clock :=
  match get64 db (gid_key gid) kv with
  | Some max_seq => c <| clock_target := max_seq |>
  | None => c
  end.

Definition download_targets (db : kvdb_name) (kv : K) (s : seq_state) : seq_state :=
  s <| clocks ::= map_imap (λ gid c, Some (download_clock db kv gid c)) |>
    <| targets_version ::= λ v, u64 (v + 1) |>.

(** The loop of [upload_raised_targets()]: the gids uploaded so far, which are
    the set [uploaded] and the vector [gids]. *)
Fixpoint upload_loop (db : kvdb_name) (cl : gmap Z comm_clock) (l : list Z)
    (gids : list Z) (kv : K) : list Z * K :=
  match l with
  | [] => (gids, kv)
  | gid :: l' =>
      match cl !! gid with
      | None => upload_loop db cl l' gids kv
      | Some c =>
          if decide (gid ∈ gids) then upload_loop db cl l' gids kv
          else upload_loop db cl l' (gids ++ [gid]) (upload_seq db gid (clock_seq c) kv)
      end
  end.

(** The entries of the round's list, from index [first] on. *)
Fixpoint set_entries (list_db : kvdb_name) (round : nat) (first : Z) (gids : list Z) (kv : K) : K :=
  match gids with
  | [] => kv
  | gid :: gids' =>
      set_entries list_db round (first + 1) gids'
        (set64 list_db (raised_entry_key round first) gid kv)
  end.

Definition upload_raised_targets (db list_db count_db : kvdb_name) (round : nat)
    (s : seq_state) (kv : K) : seq_state * K :=
  let '(gids, kv1) := upload_loop db (clocks s) (raised_clocks s) [] kv in
  let '(first, kv2) := request_INCRBY count_db (round_key round) (Z.of_nat (length gids)) kv1 in
  (s <| raised_clocks := [] |>, set_entries list_db round first gids kv2).

(** The loop of [download_raised_targets()] from entry [i] on; [fuel] entries
    are left. *)
Fixpoint download_loop (db list_db : kvdb_name) (round : nat) (kv : K) (fuel : nat) (i : Z)
    (downloaded : gset Z) (cl : gmap Z comm_clock) : option (gmap Z comm_clock) :=
  match fuel with
  | O => Some cl
  | S fuel' =>
      gid ← get64 list_db (raised_entry_key round i) kv;
      match cl !! gid with
      | None => download_loop db list_db round kv fuel' (i + 1) downloaded cl
      | Some c =>
          if decide (gid ∈ downloaded)
          then download_loop db list_db round kv fuel' (i + 1) downloaded cl
          else
            max_seq ← get64 db (gid_key gid) kv;
            download_loop db list_db round kv fuel' (i + 1) ({[gid]} ∪ downloaded)
              (<[gid := c <| clock_target := max_seq |>]> cl)
      end
  end.

(** [None] is a failed ASSERT. *)
Definition download_raised_targets (db list_db : kvdb_name) (round : nat) (raised : Z)
    (kv : K) (s : seq_state) : option seq_state :=
  if Z.of_nat (size (clocks s)) <=? raised then Some (download_targets db kv s)
  else
    cl ← download_loop db list_db round kv (Z.to_nat raised) 0 ∅ (clocks s);
    Some (s <| clocks := cl |> <| targets_version ::= λ v, u64 (v + 1) |>).

End exchange.

(** ** What the exchanges do *)

(** The value of a key after MAX requests. *)
Definition max_opt (o : option Z) (v : Z) : option Z :=
  Some (match o with Some o => Z.max o v | None => v end).

Section exchange_lemmas.
Context `{KvdbLaws K}.
Implicit Types (kv : K) (s : seq_state).

Lemma get_upload_seq_eq db g v kv :
  get64 db (gid_key g) (upload_seq db g v kv) = max_opt (get64 db (gid_key g) kv) v.
Proof. exact (proj1 (MAX_spec db (gid_key g) v kv)). Qed.

Lemma get_upload_seq_ne db g v kv db' key' :
  (db', key') ≠ (db, gid_key g) → get64 db' key' (upload_seq db g v kv) = get64 db' key' kv.
Proof. apply (proj2 (MAX_spec db (gid_key g) v kv)). Qed.

Lemma get_upload_seq_num db s kv g :
  get64 db (gid_key g) (upload_seq_num db s kv) =
    match clocks s !! g with
    | Some c => max_opt (get64 db (gid_key g) kv) (clock_seq c)
    | None => get64 db (gid_key g) kv
    end.
Proof.
  unfold upload_seq_num. revert kv. generalize (clocks s). intros m kv.
  apply (map_fold_weak_ind (λ kv' m', get64 db (gid_key g) kv' =
    match m' !! g with
    | Some c => max_opt (get64 db (gid_key g) kv) (clock_seq c)
    | None => get64 db (gid_key g) kv
    end)); [by rewrite lookup_empty|].
  intros g' c m' kv' Hg' IH. destruct (decide (g' = g)) as [->|Hne].
  - rewrite get_upload_seq_eq, IH, lookup_insert_eq. by rewrite Hg'.
  - rewrite get_upload_seq_ne, lookup_insert_ne by congruence. done.
Qed.

Lemma get_upload_seq_num_other db s kv db' key' :
  (∀ g, (db', key') ≠ (db, gid_key g)) →
  get64 db' key' (upload_seq_num db s kv) = get64 db' key' kv.
Proof.
  intros Hne. unfold upload_seq_num. generalize (clocks s). intros m.
  apply (map_fold_weak_ind (λ kv' _, get64 db' key' kv' = get64 db' key' kv)); [done|].
  intros g c m' kv' _ IH. by rewrite get_upload_seq_ne.
Qed.

Lemma clocks_download db kv s g :
  clocks (download_targets db kv s) !! g = download_clock db kv g <$> clocks s !! g.
Proof.
  unfold download_targets. cbn [clocks set_field]. rewrite map_lookup_imap.
  by destruct (clocks s !! g).
Qed.

Lemma upload_loop_spec db cl l gids kv gids' kv' :
  upload_loop db cl l gids kv = (gids', kv') →
  (∀ g, g ∈ gids' ↔ g ∈ gids ∨ (g ∈ l ∧ is_Some (cl !! g))) ∧
  (∀ g, get64 db (gid_key g) kv' =
     if decide (g ∈ gids' ∧ g ∉ gids)
     then max_opt (get64 db (gid_key g) kv) (default 0 (clock_seq <$> cl !! g))
     else get64 db (gid_key g) kv) ∧
  (∀ db' key', (∀ g, (db', key') ≠ (db, gid_key g)) → get64 db' key' kv' = get64 db' key' kv).
Proof.
  revert gids kv. induction l as [|x l IH]; intros gids kv; simpl.
  { intros [= <- <-]. split_and!; [|intros g; rewrite decide_False; tauto|done].
    intros g. rewrite elem_of_nil. tauto. }
  destruct (cl !! x) as [c|] eqn:Ex; [destruct (decide (x ∈ gids)) as [Hx|Hx]|];
    intros (H1 & H2 & H3)%IH.
  - split_and!; [|done|done]. intros g. rewrite H1, elem_of_cons. naive_solver.
  - split_and!.
    + intros g. rewrite H1, elem_of_snoc, elem_of_cons. naive_solver.
    + intros g. rewrite H2. destruct (decide (g = x)) as [->|Hne].
      * rewrite decide_False, decide_True, get_upload_seq_eq, Ex; [done| |].
        -- split; [|done]. apply H1. left. apply elem_of_snoc. by right.
        -- rewrite elem_of_snoc. tauto.
      * rewrite get_upload_seq_ne by congruence.
        destruct (decide (g ∈ gids' ∧ g ∉ gids)) as [Hd|Hd];
          [rewrite decide_True|rewrite decide_False]; try done; rewrite elem_of_snoc; tauto.
    + intros db' key' Hne. rewrite H3 by done. by apply get_upload_seq_ne.
  - split_and!; [|done|done]. intros g. rewrite H1, elem_of_cons.
    split; [naive_solver|]. intros [?|([->|?] & [? ?])]; [tauto|congruence|eauto].
Qed.

Lemma upload_loop_len db cl l gids kv gids' kv' :
  upload_loop db cl l gids kv = (gids', kv') → (∃ x, x ∈ gids') → gids' ≠ [].
Proof. intros _ [x Hx] ->. by apply not_elem_of_nil in Hx. Qed.

Lemma get_set_entries list_db round first gids kv :
  (∀ i, get64 list_db (raised_entry_key round i) (set_entries list_db round first gids kv) =
     match (if first <=? i then gids !! Z.to_nat (i - first) else None) with
     | Some g => Some g
     | None => get64 list_db (raised_entry_key round i) kv
     end) ∧
  (∀ db' key', (∀ i, (db', key') ≠ (list_db, raised_entry_key round i)) →
     get64 db' key' (set_entries list_db round first gids kv) = get64 db' key' kv).
Proof.
  revert first kv. induction gids as [|g gids IH]; intros first kv; simpl.
  { split; [|done]. intros i. by destruct (first <=? i). }
  destruct (IH (first + 1) (set64 list_db (raised_entry_key round first) g kv)) as [IH1 IH2].
  split.
  - intros i. rewrite IH1. destruct (decide (i = first)) as [->|Hne].
    + rewrite (proj2 (Z.leb_gt _ _)) by lia. rewrite Z.leb_refl, Z.sub_diag. simpl.
      exact (proj1 (set64_spec list_db (raised_entry_key round first) g kv)).
    + rewrite (proj2 (set64_spec list_db (raised_entry_key round first) g kv)) by congruence.
      destruct (Z.leb_spec first i), (Z.leb_spec (first + 1) i); try lia; try done.
      replace (Z.to_nat (i - first)) with (S (Z.to_nat (i - (first + 1)))) by lia. done.
  - intros db' key' Hne. rewrite IH2 by done.
    by apply (proj2 (set64_spec list_db (raised_entry_key round first) g kv)).
Qed.

(** The list of a round has the gid among its first [n] entries. *)
Definition listed (list_db : kvdb_name) (round : nat) (kv : K) (i n : Z) (g : Z) : Prop :=
  ∃ j, i ≤ j < n ∧ get64 list_db (raised_entry_key round j) kv = Some g.

Lemma download_clock_idem db kv g (o : option comm_clock) :
  download_clock db kv g <$> (download_clock db kv g <$> o) = download_clock db kv g <$> o.
Proof. destruct o as [c|]; [|done]. simpl. f_equal. unfold download_clock. by destruct (get64 _ _ _). Qed.

(** [download_raised_targets()] updates the listed clocks, and no clock in
    another way. *)
Lemma download_loop_spec db list_db round kv fuel i D cl :
  (∀ j, i ≤ j < i + Z.of_nat fuel → ∃ g, get64 list_db (raised_entry_key round j) kv = Some g ∧
     is_Some (get64 db (gid_key g) kv)) →
  (∀ g, g ∈ D → download_clock db kv g <$> cl !! g = cl !! g) →
  ∃ cl', download_loop db list_db round kv fuel i D cl = Some cl' ∧
    (∀ g, cl' !! g = cl !! g ∨ cl' !! g = download_clock db kv g <$> cl !! g) ∧
    (∀ g, listed list_db round kv i (i + Z.of_nat fuel) g →
       cl' !! g = download_clock db kv g <$> cl !! g).
Proof.
  revert i D cl. induction fuel as [|fuel IH]; intros i D cl Hl HD.
  { exists cl. split_and!; [done|intros; by left|]. intros g (j & ? & _). lia. }
  destruct (Hl i) as (gid & Hg & m & Hm); [lia|]. cbn [download_loop]. rewrite Hg. simpl mbind.
  assert (∀ cl' cl0 : gmap Z comm_clock,
    (∀ g, listed list_db round kv (i + 1) (i + 1 + Z.of_nat fuel) g → cl' !! g = cl0 !! g) →
    cl' !! gid = cl0 !! gid →
    ∀ g, listed list_db round kv i (i + Z.of_nat (S fuel)) g → cl' !! g = cl0 !! g) as Hstep.
  { intros cl' cl0 H1 H2 g (j & ? & Hj). destruct (decide (j = i)) as [->|].
    - assert (g = gid) as -> by congruence. done.
    - apply H1. exists j. split; [lia|done]. }
  assert (∀ D' cl0, (∀ g, g ∈ D' → download_clock db kv g <$> cl0 !! g = cl0 !! g) →
    ∃ cl', download_loop db list_db round kv fuel (i + 1) D' cl0 = Some cl' ∧
    (∀ g, cl' !! g = cl0 !! g ∨ cl' !! g = download_clock db kv g <$> cl0 !! g) ∧
    (∀ g, listed list_db round kv (i + 1) (i + 1 + Z.of_nat fuel) g →
       cl' !! g = download_clock db kv g <$> cl0 !! g)) as IH'.
  { intros D' cl0 HD'. apply IH; [|done]. intros j Hj. apply Hl. lia. }
  assert (∀ cl0 : gmap Z comm_clock, (∀ g, download_clock db kv g <$> cl0 !! g = map_imap
    (λ gid c, Some (download_clock db kv gid c)) cl0 !! g)) as Himap.
  { intros cl0 g. rewrite map_lookup_imap. by destruct (cl0 !! g). }
  assert (download_clock db kv gid <$> cl !! gid = cl !! gid →
    ∃ cl', download_loop db list_db round kv fuel (i + 1) D cl = Some cl' ∧
    (∀ g, cl' !! g = cl !! g ∨ cl' !! g = download_clock db kv g <$> cl !! g) ∧
    (∀ g, listed list_db round kv i (i + Z.of_nat (S fuel)) g →
       cl' !! g = download_clock db kv g <$> cl !! g)) as Hskip.
  { intros Hs. destruct (IH' D cl HD) as (cl' & Hr & H1 & H2). exists cl'.
    split_and!; [done|done|]. intros g Hg'. rewrite Himap. revert g Hg'.
    apply Hstep; [intros g; rewrite <- Himap; by apply H2|].
    rewrite <- Himap. destruct (H1 gid) as [->| ->]; [by rewrite Hs|done]. }
  destruct (cl !! gid) as [c|] eqn:Ec; [|by apply Hskip].
  case_decide as Hd; [apply Hskip; rewrite <- Ec; by apply HD|]. rewrite Hm. simpl mbind.
  set (cl1 := <[gid := c <| clock_target := m |>]> cl).
  assert (∀ g, download_clock db kv g <$> cl1 !! g = download_clock db kv g <$> cl !! g) as Hdl.
  { intros g. unfold cl1. destruct (decide (g = gid)) as [->|]; [|by rewrite lookup_insert_ne].
    rewrite lookup_insert_eq, Ec. simpl. unfold download_clock. by rewrite Hm. }
  assert (cl1 !! gid = download_clock db kv gid <$> cl !! gid) as Hgid.
  { unfold cl1. rewrite lookup_insert_eq, Ec. simpl. unfold download_clock. by rewrite Hm. }
  destruct (IH' ({[gid]} ∪ D) cl1) as (cl' & Hr & H1 & H2).
  { intros g [->%elem_of_singleton|Hg']%elem_of_union; [by rewrite Hgid, download_clock_idem|].
    rewrite Hdl. unfold cl1. destruct (decide (g = gid)) as [->|]; [done|].
    rewrite lookup_insert_ne by done. by apply HD. }
  exists cl'. split_and!; [done| |].
  - intros g. destruct (H1 g) as [E|E]; [|right; by rewrite E, Hdl].
    destruct (decide (g = gid)) as [->|]; [right; by rewrite E, Hgid|left].
    rewrite E. unfold cl1. by rewrite lookup_insert_ne.
  - intros g Hg'. rewrite Himap. revert g Hg'. apply Hstep.
    + intros g Hg'. rewrite <- Himap, H2 by done. apply Hdl.
    + rewrite <- Himap. destruct (H1 gid) as [->| ->]; [done|apply Hdl].
Qed.
End exchange_lemmas.

(** ** Reaching the targets *)

Lemma check_seq_nums_spec s :
  check_seq_nums s = true ↔ ∀ g c, clocks s !! g = Some c → clock_target c ≤ clock_seq c.
Proof.
  unfold check_seq_nums. rewrite forallb_forall. split.
  - intros Hf g c Hg. specialize (Hf (g, c)). simpl in Hf.
    assert (negb (clock_seq c <? clock_target c) = true) as E.
    { apply Hf. by apply list_elem_of_In, elem_of_map_to_list. }
    apply negb_true_iff, Z.ltb_ge in E. done.
  - intros Hall [g c] Hin. apply list_elem_of_In, elem_of_map_to_list in Hin. simpl.
    apply negb_true_iff, Z.ltb_ge. eauto.
Qed.
