(* ===== verification/CollectiveDrain.v ===== *)
(** * The drain of collective calls over a job ([src/src/seq_num.cpp])

    [drain_mpi_collective()] runs on the checkpoint thread of every process
    while application threads go on until they reach their targets.  A job is
    the list of its processes and the KVDB that they share; a step is one
    section that a thread runs under [seq_num_lock], a KVDB exchange of the
    checkpoint thread, or the passing of a global barrier.

    The model keeps the lock's effect: from [start_attempt] to [finish_share]
    the checkpoint thread holds the lock, so that no application thread counts
    a call meanwhile; every other locked section is one step.
    [commit_ready] runs without the lock.  [dmtcp_global_barrier] lets a
    process pass once all processes have arrived.  A call on a clock keeps its
    number below 2^63. *)
From S2P Require Import Prelude Mpi Kvdb SeqNum.

Definition MAX_DRAIN_ROUNDS : nat := 200.

(** Where the checkpoint thread is: before an attempt; at the barrier of
    [share_seq_nums()], with the lock; before the locked section of a round;
    after it, with the sampled values; at the barrier of the round; after
    [drain_mpi_collective()]. *)
Inductive stage_t :=
  | Running
  | Sharing
  | Round (k : nat)
  | Sampled (k : nat) (target_reached cs : bool)
  | Waiting (k : nat)
  | Drained (k : nat).
#[export] Instance stage_t_eq_dec : EqDecision stage_t.
Proof. solve_decision. Defined.

Record proc := mk_proc {
  sq : seq_state;
  attempt : nat;
  stage : stage_t;
  rounds_without_raise : nat
}.
#[export] Instance eta_proc : Eta proc := λ p,
  mk_proc (sq p) (attempt p) (stage p) (rounds_without_raise p).

Section drain.
Context `{Kvdb K}.
Context (g_world_size : Z).

(** ** The checkpoint thread *)

(** [drain_mpi_collective()] up to the barrier of [share_seq_nums()]. *)
Definition start_attempt (pr : proc) (kv : K) : proc * K :=
  let s := (sq pr) <| ckpt_pending := true |> <| raised_clocks := [] |> <| added_clock := false |> in
  (pr <| sq := s |> <| stage := Sharing |>, upload_seq_num (COMM_SEQ_MAX (attempt pr)) s kv).

(** The rest of [share_seq_nums()]. *)
Definition finish_share (pr : proc) (kv : K) : proc :=
  pr <| sq ::= download_targets (COMM_SEQ_MAX (attempt pr)) kv |>
     <| stage := Round 0 |> <| rounds_without_raise := O |>.

(** The locked section of a round. *)
Definition round_section (k : nat) (pr : proc) (kv : K) : proc * K :=
  let a := attempt pr in
  let s1 := if added_clock (sq pr)
            then (download_targets (COMM_SEQ_MAX a) kv (sq pr)) <| added_clock := false |>
            else sq pr in
  let '(s2, kv') := upload_raised_targets (COMM_SEQ_MAX a) (RAISED_GIDS a) (TARGETS_RAISED a) k s1 kv in
  (pr <| sq := s2 |>
      <| stage := Sampled k (check_seq_nums s2) (bool_decide (current_phase s2 = IN_CS)) |>, kv').

(** The requests after the section. *)
Definition post_sample (k : nat) (target_reached cs : bool) (pr : proc) (kv : K) : proc * K :=
  let a := attempt pr in
  let kv1 := snd (request_INCRBY (CONVERGE a) (round_key k) (Z.b2z target_reached) kv) in
  (pr <| stage := Waiting k |>, request_OR (CRITICAL_SECTION a) (round_key k) (Z.b2z cs) kv1).

(** The rest of a round, after its barrier: the drain ends, goes on with the
    next round, or gives up the attempt.  [None] is a failed ASSERT. *)
Definition decide_round (k : nat) (pr : proc) (kv : K) : option proc :=
  let a := attempt pr in
  num_converged ← get64 (CONVERGE a) (round_key k) kv;
  in_cs ← get64 (CRITICAL_SECTION a) (round_key k) kv;
  raised ← get64 (TARGETS_RAISED a) (round_key k) kv;
  if (in_cs =? 0) && (num_converged =? g_world_size) && (raised =? 0) then
    Some (pr <| stage := Drained k |>)
  else
    pr' ← (if 0 <? raised then
             s ← download_raised_targets (COMM_SEQ_MAX a) (RAISED_GIDS a) k raised kv (sq pr);
             Some (pr <| sq := s |> <| rounds_without_raise := O |>)
           else Some (pr <| rounds_without_raise ::= S |>));
    Some (if (rounds_without_raise pr' <? MAX_DRAIN_ROUNDS)%nat
          then pr' <| stage := Round (S k) |>
          else pr' <| sq ::= λ s, s <| ckpt_pending := false |> |>
                   <| attempt ::= S |> <| stage := Running |>).

(** ** Steps of a job *)

(** How far a process is in an attempt. *)
Definition idx (st : stage_t) : nat :=
  match st with
  | Running => 0
  | Sharing => 1
  | Round k | Sampled k _ _ => 2 + 2 * k
  | Waiting k | Drained k => 3 + 2 * k
  end.

Definition arrived (a i : nat) (pr : proc) : Prop :=
  (a < attempt pr)%nat ∨ (attempt pr = a ∧ (i ≤ idx (stage pr))%nat).
#[global] Instance arrived_dec a i pr : Decision (arrived a i pr).
Proof. unfold arrived. apply _. Defined.

Record job := mk_job { procs : list proc; store : K }.

Definition all_arrived (j : job) (a i : nat) : Prop := Forall (arrived a i) (procs j).

(** What an application thread does under the lock: it counts a call, adds the
    clock of a new communicator (in a critical section), erases one after its
    barrier; or, without the lock, leaves its critical section. *)
Inductive app_step (comm_size : Z → Z) : bool → seq_state → seq_state → Prop :=
  | app_begin desc s s' :
      begin_critical_section desc s = Some (Ok () s') →
      (∀ gid size, desc = Some (gid, size) → size = comm_size gid ∧
         ∀ c, clocks s !! gid = Some c → clock_seq c + 1 < 2 ^ 63) →
      app_step comm_size true s s'
  | app_add gid s s' :
      current_phase s = IN_CS → add_comm_clock gid s = Ok () s' →
      app_step comm_size true s s'
  | app_erase gid s : app_step comm_size true s (erase_clock gid s)
  | app_ready locked s : app_step comm_size locked s (commit_ready s).

Inductive job_step (comm_size : Z → Z) (j : job) : job → Prop :=
  | step_app p pr s locked :
      procs j !! p = Some pr → (locked = true → stage pr ≠ Sharing) →
      app_step comm_size locked (sq pr) s →
      job_step comm_size j (mk_job (<[p := pr <| sq := s |>]> (procs j)) (store j))
  | step_attempt p pr pr' kv' :
      procs j !! p = Some pr → stage pr = Running →
      start_attempt pr (store j) = (pr', kv') →
      job_step comm_size j (mk_job (<[p := pr']> (procs j)) kv')
  | step_share p pr :
      procs j !! p = Some pr → stage pr = Sharing → all_arrived j (attempt pr) 1 →
      job_step comm_size j (mk_job (<[p := finish_share pr (store j)]> (procs j)) (store j))
  | step_round p pr k pr' kv' :
      procs j !! p = Some pr → stage pr = Round k →
      round_section k pr (store j) = (pr', kv') →
      job_step comm_size j (mk_job (<[p := pr']> (procs j)) kv')
  | step_post p pr k r c pr' kv' :
      procs j !! p = Some pr → stage pr = Sampled k r c →
      post_sample k r c pr (store j) = (pr', kv') →
      job_step comm_size j (mk_job (<[p := pr']> (procs j)) kv')
  | step_decide p pr k pr' :
      procs j !! p = Some pr → stage pr = Waiting k → all_arrived j (attempt pr) (3 + 2 * k) →
      decide_round k pr (store j) = Some pr' →
      job_step comm_size j (mk_job (<[p := pr']> (procs j)) (store j)).

(** The start: no drain runs, and the KVDB has no entries of the drain. *)
Record initial (j : job) : Prop := {
  init_size : Z.of_nat (length (procs j)) = g_world_size;
  init_procs : ∀ p pr, procs j !! p = Some pr → attempt pr = O ∧ stage pr = Running ∧
    ∀ g c, clocks (sq pr) !! g = Some c → 0 ≤ clock_seq c ∧ 0 ≤ clock_target c;
  init_store : ∀ a key, get64 (COMM_SEQ_MAX a) key (store j) = None ∧
    get64 (CRITICAL_SECTION a) key (store j) = None ∧ get64 (CONVERGE a) key (store j) = None ∧
    get64 (TARGETS_RAISED a) key (store j) = None ∧ get64 (RAISED_GIDS a) key (store j) = None
}.

Inductive reachable (comm_size : Z → Z) (j0 : job) : job → Prop :=
  | reach_refl : reachable comm_size j0 j0
  | reach_step j j' : reachable comm_size j0 j → job_step comm_size j j' → reachable comm_size j0 j'.

End drain.
