(* ===== verification/CollectiveDrainInv.v ===== *)
(** * Invariant of the collective drain

    The invariant [drain_inv] relates, for each attempt, the KVDB's maxima and
    the round's counters to the processes' clocks and positions; every step of
    a job keeps it. *)
From S2P Require Import Prelude Mpi Kvdb SeqNum CollectiveDrain.

Section drain_inv.
Context `{KvdbLaws K} (N : Z) (comm_size : Z → Z).
Implicit Types (kv : K) (j : job (K := K)) (s : seq_state) (a k i : nat) (g : Z).

(** ** What the KVDB holds *)

Definition maxseq kv a g : Z := default 0 (get64 (COMM_SEQ_MAX a) (gid_key g) kv).
Definition converge kv a k : Z := default 0 (get64 (CONVERGE a) (round_key k) kv).
Definition incs kv a k : Z := default 0 (get64 (CRITICAL_SECTION a) (round_key k) kv).
Definition nraised kv a k : Z := default 0 (get64 (TARGETS_RAISED a) (round_key k) kv).
Definition in_list kv a k g : Prop := listed (RAISED_GIDS a) k kv 0 (nraised kv a k) g.

(** The outcome of a round that the counters give. *)
Definition succeeds kv a k : Prop := incs kv a k = 0 ∧ converge kv a k = N ∧ nraised kv a k = 0.
Fixpoint rounds_before kv a k : nat :=
  match k with
  | O => O
  | S k' => if 0 <? nraised kv a k' then O else S (rounds_before kv a k')
  end.
Definition goes_on kv a k : Prop :=
  ¬ succeeds kv a k ∧ (rounds_before kv a (S k) < MAX_DRAIN_ROUNDS)%nat.
Definition gives_up kv a k : Prop :=
  ¬ succeeds kv a k ∧ ¬ (rounds_before kv a (S k) < MAX_DRAIN_ROUNDS)%nat.

(** ** One process *)

(** A process that a round found ready: it stays so until its targets rise. *)
Definition frozen s : Prop :=
  ckpt_pending s = true ∧ check_seq_nums s = true ∧ current_phase s = IS_READY ∧
  added_clock s = false ∧ raised_clocks s = [].

Definition round_of (st : stage_t) : option nat :=
  match st with
  | Round k | Sampled k _ _ | Waiting k | Drained k => Some k
  | _ => None
  end.

(** The clock's number is known to the KVDB, or will be uploaded. *)
Definition shared kv a s g (c : comm_clock) : Prop :=
  1 < comm_size g → clock_seq c ≤ maxseq kv a g ∨ g ∈ raised_clocks s.
(** Its target is no higher than the KVDB's maximum, or was raised here. *)
Definition target_sound kv a s g (c : comm_clock) : Prop :=
  1 < comm_size g →
  clock_target c ≤ maxseq kv a g ∨ (g ∈ raised_clocks s ∧ clock_target c ≤ clock_seq c).
(** Its target is up to date, unless the process has a download to do. *)
Definition target_fresh kv a k s g (c : comm_clock) : Prop :=
  maxseq kv a g ≤ clock_target c ∨ added_clock s = true ∨ in_list kv a k g ∨ in_list kv a (S k) g.

Definition clocks_all s (P : Z → comm_clock → Prop) : Prop :=
  ∀ g c, clocks s !! g = Some c → P g c.

Definition clock_nonneg (_ : Z) (c : comm_clock) : Prop := 0 ≤ clock_seq c ∧ 0 ≤ clock_target c.

Definition data_ok kv a (st : stage_t) s : Prop :=
  clocks_all s clock_nonneg ∧
  (st ≠ Running → ckpt_pending s = true ∧ clocks_all s (shared kv a s)) ∧
  (∀ k, round_of st = Some k →
     clocks_all s (target_sound kv a s) ∧ clocks_all s (target_fresh kv a k s)) ∧
  (st = Sharing → clocks_all s (λ g _, is_Some (get64 (COMM_SEQ_MAX a) (gid_key g) kv))).

(** ** Application threads *)

Lemma must_wait_frozen s : frozen s → must_wait s = true.
Proof. intros (Hp & Hc & _). unfold must_wait. by rewrite Hp, Hc. Qed.

Lemma check_erase s gid : check_seq_nums s = true → check_seq_nums (erase_clock gid s) = true.
Proof.
  rewrite !check_seq_nums_spec. intros Hc g c. cbn [clocks erase_clock set_field].
  intros [_ Hg]%lookup_delete_Some. eauto.
Qed.

Lemma app_step_frozen locked s s' : app_step comm_size locked s s' → frozen s → frozen s'.
Proof.
  intros Hstep Hf. pose proof Hf as (Hp & Hc & Hr & Ha & Hl). destruct Hstep as [desc s s' Hb _|gid s s' Hcs _|gid s|].
  - unfold begin_critical_section in Hb. by rewrite must_wait_frozen in Hb.
  - congruence.
  - split_and!; try done. by apply check_erase.
  - by split_and!.
Qed.

(** What counting a call does to the clocks. *)
Lemma count_call_inv desc s s' :
  count_call desc s = Ok () s' →
  match desc with
  | None => s' = s <| current_phase := IN_CS |>
  | Some (gid, size) => ∃ c, clocks s !! gid = Some c ∧
      let n := u64 (clock_seq c + 1) in
      s' = (if ckpt_pending s && (clock_target c <? n)
            then s <| current_phase := IN_CS |> <| clocks ::= <[gid := mk_clock n n]> |>
                   <| raised_clocks ::= λ l, if 1 <? size then l ++ [gid] else l |>
            else s <| current_phase := IN_CS |> <| clocks ::= <[gid := c <| clock_seq := n |>]> |>)
  end.
Proof.
  unfold count_call. prog_red. destruct desc as [[gid size]|]; [|by intros [= <-]].
  change (clocks (s <| current_phase := IN_CS |>)) with (clocks s).
  change (ckpt_pending (s <| current_phase := IN_CS |>)) with (ckpt_pending s).
  destruct (clocks s !! gid) as [c|]; [|by intros [=]].
  intros Hs'. exists c. split; [done|]. cbv zeta. revert Hs'.
  destruct (ckpt_pending s && _); [destruct (1 <? size)|]; by intros [= <-].
Qed.

Lemma clocks_all_insert s s' gid c' (P : Z → comm_clock → Prop) :
  clocks s' = <[gid := c']> (clocks s) → P gid c' →
  (∀ g x, g ≠ gid → clocks s !! g = Some x → P g x) → clocks_all s' P.
Proof.
  intros E Hp Ho g x. rewrite E. destruct (decide (g = gid)) as [->|Hne];
    [rewrite lookup_insert_eq; intros [= <-]; done|rewrite lookup_insert_ne by done; auto].
Qed.

(** Counting a call on a clock in a round. *)
Lemma data_ok_count kv a k s s' gid c n :
  clocks s !! gid = Some c → n = clock_seq c + 1 →
  clocks_all s (shared kv a s) → clocks_all s (target_sound kv a s) →
  clocks_all s (target_fresh kv a k s) →
  (s' = if clock_target c <? n
        then s <| current_phase := IN_CS |> <| clocks ::= <[gid := mk_clock n n]> |>
               <| raised_clocks ::= λ l, if 1 <? comm_size gid then l ++ [gid] else l |>
        else s <| current_phase := IN_CS |> <| clocks ::= <[gid := c <| clock_seq := n |>]> |>) →
  clocks_all s' (shared kv a s') ∧ clocks_all s' (target_sound kv a s') ∧
  clocks_all s' (target_fresh kv a k s').
Proof.
  intros Hg -> Hs Hsound Hfresh Hs'.
  assert (added_clock s' = added_clock s) as Ea by (subst s'; by destruct (_ <? _)).
  assert (∀ g, g ∈ raised_clocks s → g ∈ raised_clocks s') as Hmono.
  { intros g Hin. subst s'. destruct (_ <? _); simpl; [|done].
    destruct (1 <? _); [by apply elem_of_app; left|done]. }
  destruct (Z.ltb_spec (clock_target c) (clock_seq c + 1)) as [Ht|Ht].
  - assert (1 < comm_size gid → gid ∈ raised_clocks s') as Hnew.
    { intros Hgt. subst s'. simpl. rewrite (proj2 (Z.ltb_lt _ _)) by done. by apply elem_of_snoc; right. }
    split_and!; (eapply clocks_all_insert; [by rewrite Hs'|..]).
    + intros; right; auto.
    + intros g x Hne Hx Hgt. destruct (Hs g x Hx Hgt); auto.
    + intros Hgt. right. simpl. split; [auto|lia].
    + intros g x Hne Hx Hgt. destruct (Hsound g x Hx Hgt) as [|[]]; auto.
    + unfold target_fresh. rewrite Ea. destruct (Hfresh gid c Hg) as [Hm|Hm]; [left; simpl; lia|by right].
    + intros g x Hne Hx. unfold target_fresh. rewrite Ea. by apply Hfresh.
  - split_and!; (eapply clocks_all_insert; [by rewrite Hs'|..]).
    + intros Hgt. simpl. destruct (Hsound gid c Hg Hgt) as [|[]]; [left; lia|right; auto].
    + intros g x Hne Hx Hgt. destruct (Hs g x Hx Hgt); auto.
    + intros Hgt. simpl. destruct (Hsound gid c Hg Hgt) as [|[]]; [left; lia|right; split; [auto|lia]].
    + intros g x Hne Hx Hgt. destruct (Hsound g x Hx Hgt) as [|[]]; auto.
    + unfold target_fresh. rewrite Ea. simpl. by apply Hfresh.
    + intros g x Hne Hx. unfold target_fresh. rewrite Ea. by apply Hfresh.
Qed.

Lemma round_of_some st : st ≠ Running → st ≠ Sharing → ∃ k, round_of st = Some k.
Proof. destruct st; intros; simplify_eq; eauto; done. Qed.

Lemma data_ok_begin kv a st desc s s' :
  count_call desc s = Ok () s' → st ≠ Sharing →
  (∀ gid size, desc = Some (gid, size) → size = comm_size gid ∧
     ∀ c, clocks s !! gid = Some c → clock_seq c + 1 < 2 ^ 63) →
  data_ok kv a st s → data_ok kv a st s'.
Proof.
  intros Hc%count_call_inv Hst Hd (Hpos & Hsh & Hrd & Hkey). destruct desc as [[gid size]|]; [|by subst].
  destruct Hc as (c & Hg & Hs'). destruct (Hd gid size eq_refl) as [-> Hn]. specialize (Hn c Hg).
  destruct (Hpos gid c Hg) as [Hc0 Ht0]. cbv zeta in Hs'. rewrite u64_small in Hs' by lia.
  assert (clocks_all s' clock_nonneg) as Hpos'.
  { destruct (ckpt_pending s && _) in Hs';
      (eapply clocks_all_insert; [by rewrite Hs'|split; simpl; lia|eauto]). }
  split; [done|]. destruct (decide (st = Running)) as [->|Hrun]; [done|].
  destruct (Hsh Hrun) as [Hp Hs]. rewrite Hp in Hs'. simpl andb in Hs'.
  assert (ckpt_pending s' = true) as Hp' by (subst s'; by destruct (_ <? _)).
  destruct (round_of_some st Hrun Hst) as [k Hk]. destruct (Hrd k Hk) as [Hsound Hfresh].
  destruct (data_ok_count kv a k s s' gid c _ Hg eq_refl Hs Hsound Hfresh Hs') as (? & ? & ?).
  split; [done|]. split; [intros k' Hk'; by simplify_eq|done].
Qed.

Lemma data_ok_add kv a st gid s s' :
  add_comm_clock gid s = Ok () s' → st ≠ Sharing → (∀ g, 0 ≤ maxseq kv a g) →
  data_ok kv a st s → data_ok kv a st s'.
Proof.
  unfold add_comm_clock. prog_red. intros Hadd Hst Hm (Hpos & Hsh & Hrd & Hkey).
  case_bool_decide as Hnone; [|done].
  assert (clocks s' = <[gid := mk_clock 0 0]> (clocks s) ∧ ckpt_pending s' = ckpt_pending s ∧
    raised_clocks s' = raised_clocks s ∧ (ckpt_pending s = true → added_clock s' = true)) as (E1 & E2 & E3 & E4).
  { destruct (ckpt_pending s) eqn:Ep; simplify_eq; simpl; split_and!; done. }
  split_and!.
  - eapply clocks_all_insert; [done|split; simpl; lia|eauto].
  - intros Hrun. destruct (Hsh Hrun) as [Hp Hs]. split; [by rewrite E2|].
    eapply clocks_all_insert; [done|intros _; left; apply Hm|].
    intros g x _ Hx Hgt. rewrite E3. by apply Hs.
  - intros k Hk. destruct (Hrd k Hk) as [Hsound Hfresh].
    assert (added_clock s' = true) as Ha.
    { apply E4. apply Hsh. by intros ->. }
    split; [|by intros g x _; right; left].
    eapply clocks_all_insert; [done|intros _; left; apply Hm|].
    intros g x _ Hx Hgt. rewrite E3. by apply Hsound.
  - done.
Qed.

Lemma data_ok_erase kv a st gid s : data_ok kv a st s → data_ok kv a st (erase_clock gid s).
Proof.
  assert (∀ P, clocks_all s P → clocks_all (erase_clock gid s) P) as Hsub.
  { intros P HP g c. cbn [clocks erase_clock set_field]. intros [_ Hg]%lookup_delete_Some. by apply HP. }
  intros (Hpos & Hsh & Hrd & Hkey). split_and!; [by apply Hsub|..].
  - intros Hrun. destruct (Hsh Hrun) as [Hp Hs]. split; [done|]. by apply Hsub.
  - intros k Hk. destruct (Hrd k Hk). split; by apply Hsub.
  - intros Hst. by apply Hsub, Hkey.
Qed.

Lemma app_step_data locked kv a st s s' :
  app_step comm_size locked s s' → (locked = true → st ≠ Sharing) → (∀ g, 0 ≤ maxseq kv a g) →
  data_ok kv a st s → data_ok kv a st s'.
Proof.
  intros Hstep Hl Hm Hd. destruct Hstep as [desc s s' Hb Hv|gid s s' _ Ha|gid s|].
  - unfold begin_critical_section in Hb. destruct (must_wait s); [done|]. injection Hb as Hb.
    by eapply data_ok_begin; eauto.
  - eapply data_ok_add; eauto.
  - by apply data_ok_erase.
  - done.
Qed.

(** ** The whole job *)

Definition posted j a k : Z := Z.of_nat (length (filter (arrived a (3 + 2 * k)) (procs j))).

Record store_ok kv : Prop := {
  so_max : ∀ a g, 0 ≤ maxseq kv a g;
  so_raised : ∀ a k, 0 ≤ nraised kv a k;
  so_list : ∀ a k (i : Z), 0 ≤ i < nraised kv a k → ∃ g,
    get64 (RAISED_GIDS a) (raised_entry_key k i) kv = Some g ∧
    is_Some (get64 (COMM_SEQ_MAX a) (gid_key g) kv)
}.

Record proc_ok j (pr : proc) : Prop := {
  po_data : data_ok (store j) (attempt pr) (stage pr) (sq pr);
  po_round : ∀ k, round_of (stage pr) = Some k →
    all_arrived j (attempt pr) 1 ∧
    (∀ i, (i < k)%nat → all_arrived j (attempt pr) (3 + 2 * i) ∧ goes_on (store j) (attempt pr) i) ∧
    rounds_without_raise pr = rounds_before (store j) (attempt pr) k;
  po_past : ∀ a, (a < attempt pr)%nat → ∃ kf, all_arrived j a (3 + 2 * kf) ∧
    gives_up (store j) a kf ∧ ∀ i, (i < kf)%nat → goes_on (store j) a i;
  po_sampled : ∀ k r c, stage pr = Sampled k r c →
    (r = true → c = false → frozen (sq pr)) ∧
    is_Some (get64 (TARGETS_RAISED (attempt pr)) (round_key k) (store j));
  po_waiting : ∀ k, stage pr = Waiting k →
    (converge (store j) (attempt pr) k < posted j (attempt pr) k ∨
     incs (store j) (attempt pr) k ≠ 0 ∨ frozen (sq pr)) ∧
    is_Some (get64 (CONVERGE (attempt pr)) (round_key k) (store j)) ∧
    is_Some (get64 (CRITICAL_SECTION (attempt pr)) (round_key k) (store j)) ∧
    is_Some (get64 (TARGETS_RAISED (attempt pr)) (round_key k) (store j));
  po_drained : ∀ k, stage pr = Drained k →
    frozen (sq pr) ∧ all_arrived j (attempt pr) (3 + 2 * k) ∧ succeeds (store j) (attempt pr) k
}.

Record drain_inv j : Prop := {
  di_len : Z.of_nat (length (procs j)) = N;
  di_store : store_ok (store j);
  di_conv : ∀ a k, 0 ≤ converge (store j) a k ≤ posted j a k;
  di_raised : ∀ a k, 0 < nraised (store j) a k →
    ∃ p pr, procs j !! p = Some pr ∧ arrived a (2 + 2 * k) pr;
  di_proc : ∀ p pr, procs j !! p = Some pr → proc_ok j pr
}.

(** *** Positions *)

Lemma arrived_le a i i' pr : (i' ≤ i)%nat → arrived a i pr → arrived a i' pr.
Proof. intros ? [?|[? ?]]; [by left|right; lia]. Qed.

Lemma all_arrived_le j a i i' : (i' ≤ i)%nat → all_arrived j a i → all_arrived j a i'.
Proof. intros ? Hall. eapply Forall_impl; [exact Hall|]. intros pr. by apply arrived_le. Qed.

Lemma all_arrived_lookup j a i p pr : all_arrived j a i → procs j !! p = Some pr → arrived a i pr.
Proof. intros Hall Hp. by eapply Forall_lookup. Qed.

Lemma all_arrived_insert j a i p pr pr' kv' :
  procs j !! p = Some pr → (arrived a i pr → arrived a i pr') →
  all_arrived j a i → all_arrived (mk_job (<[p := pr']> (procs j)) kv') a i.
Proof. intros Hp Hm Hall. apply Forall_insert; [done|]. apply Hm. by eapply all_arrived_lookup. Qed.

Lemma posted_insert j a k p pr pr' kv' :
  procs j !! p = Some pr →
  posted (mk_job (<[p := pr']> (procs j)) kv') a k =
    posted j a k - Z.b2z (bool_decide (arrived a (3 + 2 * k) pr)) +
    Z.b2z (bool_decide (arrived a (3 + 2 * k) pr')).
Proof.
  intros Hp. unfold posted. cbn [procs].
  pose proof (lookup_lt_Some _ _ _ Hp) as Hlt.
  rewrite insert_take_drop by done.
  rewrite <- (take_drop_middle (procs j) p pr Hp) at 3.
  rewrite !filter_app, !filter_cons, !length_app.
  repeat case_decide; repeat case_bool_decide; try done; simpl; lia.
Qed.

Lemma posted_all j a k : all_arrived j a (3 + 2 * k) → posted j a k = Z.of_nat (length (procs j)).
Proof.
  intros Hall. unfold posted. rewrite filter_id; [done|].
  intros pr Hin. unfold all_arrived in Hall. rewrite Forall_forall in Hall. by apply Hall.
Qed.

(** ** Steps that the other processes see *)

Record evolves j j' : Prop := {
  ev_arrived : ∀ a i, all_arrived j a i → all_arrived j' a i;
  ev_converge : ∀ a k, all_arrived j a (3 + 2 * k) → converge (store j') a k = converge (store j) a k;
  ev_incs : ∀ a k, all_arrived j a (3 + 2 * k) → incs (store j') a k = incs (store j) a k;
  ev_nraised : ∀ a k, all_arrived j a (3 + 2 * k) → nraised (store j') a k = nraised (store j) a k;
  ev_posted : ∀ a k, converge (store j') a k - converge (store j) a k ≤ posted j' a k - posted j a k;
  ev_incs_mono : ∀ a k, incs (store j) a k ≠ 0 → incs (store j') a k ≠ 0;
  ev_keys : ∀ a k db, db = CONVERGE a ∨ db = CRITICAL_SECTION a ∨ db = TARGETS_RAISED a →
    is_Some (get64 db (round_key k) (store j)) → is_Some (get64 db (round_key k) (store j'))
}.

Lemma rounds_before_ext kv kv' a k :
  (∀ i, (i < k)%nat → nraised kv' a i = nraised kv a i) → rounds_before kv' a k = rounds_before kv a k.
Proof.
  induction k as [|k IH]; intros Hi; simpl; [done|]. rewrite (Hi k) by lia.
  rewrite IH; [done|]. intros. apply Hi. lia.
Qed.

Lemma ev_succeeds j j' a k :
  evolves j j' → all_arrived j a (3 + 2 * k) →
  succeeds (store j') a k ↔ succeeds (store j) a k.
Proof.
  intros Hev Hall. unfold succeeds.
  by rewrite (ev_converge j j'), (ev_incs j j'), (ev_nraised j j').
Qed.

Lemma ev_rounds_before j j' a k :
  evolves j j' → (∀ i, (i < k)%nat → all_arrived j a (3 + 2 * i)) →
  rounds_before (store j') a k = rounds_before (store j) a k.
Proof. intros Hev Hall. apply rounds_before_ext. intros i Hi. eapply ev_nraised; auto. Qed.

Lemma ev_goes_on j j' a k :
  evolves j j' → all_arrived j a (3 + 2 * k) → goes_on (store j) a k → goes_on (store j') a k.
Proof.
  intros Hev Hall [Hs Hr]. split; [by rewrite (ev_succeeds j j')|].
  rewrite (ev_rounds_before j j'); [done..|]. intros. eapply all_arrived_le; [|done]. lia.
Qed.

Lemma ev_gives_up j j' a k :
  evolves j j' → all_arrived j a (3 + 2 * k) → gives_up (store j) a k → gives_up (store j') a k.
Proof.
  intros Hev Hall [Hs Hr]. split; [by rewrite (ev_succeeds j j')|].
  rewrite (ev_rounds_before j j'); [done..|]. intros. eapply all_arrived_le; [|done]. lia.
Qed.

Lemma ev_past j j' a :
  evolves j j' →
  (∃ kf, all_arrived j a (3 + 2 * kf) ∧ gives_up (store j) a kf ∧
     ∀ i, (i < kf)%nat → goes_on (store j) a i) →
  ∃ kf, all_arrived j' a (3 + 2 * kf) ∧ gives_up (store j') a kf ∧
     ∀ i, (i < kf)%nat → goes_on (store j') a i.
Proof.
  intros Hev (kf & Hall & Hg & Hi). exists kf. split_and!.
  - by eapply ev_arrived.
  - by eapply ev_gives_up.
  - intros i Hlt. eapply ev_goes_on; [done| |by apply Hi]. eapply all_arrived_le; [|done]. lia.
Qed.

Lemma ev_round j j' a k rwr :
  evolves j j' →
  all_arrived j a 1 ∧ (∀ i, (i < k)%nat → all_arrived j a (3 + 2 * i) ∧ goes_on (store j) a i) ∧
    rwr = rounds_before (store j) a k →
  all_arrived j' a 1 ∧ (∀ i, (i < k)%nat → all_arrived j' a (3 + 2 * i) ∧ goes_on (store j') a i) ∧
    rwr = rounds_before (store j') a k.
Proof.
  intros Hev (H1 & H2 & H3). split_and!.
  - by eapply ev_arrived.
  - intros i Hi. destruct (H2 i Hi). split; [by eapply ev_arrived|by eapply ev_goes_on].
  - rewrite H3. symmetry. apply ev_rounds_before; [done|]. intros. by apply H2.
Qed.

Lemma proc_ok_evolves j j' pr :
  evolves j j' → data_ok (store j') (attempt pr) (stage pr) (sq pr) →
  proc_ok j pr → proc_ok j' pr.
Proof.
  intros Hev Hdata [_ Hround Hpast Hsamp Hwait Hdrain]. split; [done|..].
  - intros k Hk. by eapply ev_round, Hround.
  - intros a Ha. apply (ev_past _ _ _ Hev), (Hpast _ Ha).
  - intros k r c Hst. destruct (Hsamp k r c Hst). split; [done|]. eapply ev_keys; eauto.
  - intros k Hst. destruct (Hwait k Hst) as (Hw & ? & ? & ?). split_and!; try (eapply ev_keys; eauto).
    destruct Hw as [Hw|[Hw|Hw]]; [left|right; left; by eapply ev_incs_mono|by right; right].
    pose proof (ev_posted _ _ Hev (attempt pr) k). lia.
  - intros k Hst. destruct (Hdrain k Hst) as (? & ? & ?). split; [done|].
    split; [by eapply ev_arrived|by apply (ev_succeeds j j')].
Qed.

Lemma data_ok_mono kv kv' a st s :
  (∀ g, maxseq kv a g ≤ maxseq kv' a g) →
  (∀ g, is_Some (get64 (COMM_SEQ_MAX a) (gid_key g) kv) →
        is_Some (get64 (COMM_SEQ_MAX a) (gid_key g) kv')) →
  (∀ k, round_of st = Some k → ∀ g,
     (in_list kv a k g → in_list kv' a k g) ∧ (in_list kv a (S k) g → in_list kv' a (S k) g) ∧
     (maxseq kv' a g = maxseq kv a g ∨ in_list kv' a k g ∨ in_list kv' a (S k) g)) →
  data_ok kv a st s → data_ok kv' a st s.
Proof.
  intros Hmax Hkeys Hlist (Hpos & Hsh & Hrd & Hkey). split_and!; [done|..].
  - intros Hst. destruct (Hsh Hst) as [Hp Hs]. split; [done|]. intros g c Hg Hgt.
    destruct (Hs g c Hg Hgt) as [Hle|]; [left; specialize (Hmax g); lia|by right].
  - intros k Hk. destruct (Hrd k Hk) as [Hsound Hfresh]. split; intros g c Hg.
    + intros Hgt. destruct (Hsound g c Hg Hgt) as [Hle|]; [left; specialize (Hmax g); lia|by right].
    + destruct (Hlist k Hk g) as (H1 & H2 & [Heq|[Hin|Hin]]); [|by right; right; left|by right; right; right].
      unfold target_fresh. rewrite Heq. destruct (Hfresh g c Hg) as [?|[?|[?|?]]]; auto.
  - intros Hst g c Hg. by eapply Hkeys, Hkey.
Qed.

(** ** Preservation: one process moves *)

Lemma drain_inv_step j p pr pr' kv' :
  let j' := mk_job (<[p := pr']> (procs j)) kv' in
  drain_inv j → procs j !! p = Some pr → evolves j j' → store_ok kv' →
  (∀ a k, 0 ≤ converge kv' a k) →
  (∀ a k, 0 < nraised kv' a k → 0 < nraised (store j) a k ∨ arrived a (2 + 2 * k) pr) →
  (∀ a i, arrived a i pr → arrived a i pr') →
  (∀ q prq, q ≠ p → procs j !! q = Some prq → data_ok kv' (attempt prq) (stage prq) (sq prq)) →
  proc_ok j' pr' → drain_inv j'.
Proof.
  intros j' [Hlen Hst Hconv Hraised Hproc] Hp Hev Hst' Hpos Hnr Hmono Hdata Hpr'.
  pose proof (lookup_lt_Some _ _ _ Hp) as Hlt. split.
  - cbn. by rewrite length_insert.
  - done.
  - intros a k. split; [apply Hpos|]. pose proof (ev_posted _ _ Hev a k). specialize (Hconv a k). lia.
  - assert (procs j' !! p = Some pr') as Hp' by (by apply list_lookup_insert_eq).
    intros a k [Hr|Hr]%Hnr; [|by exists p, pr'; auto].
    apply Hraised in Hr as (q & prq & Hq & Ha).
    destruct (decide (q = p)) as [->|Hne]; [exists p, pr'; simplify_eq; by auto|].
    exists q, prq. split; [|done]. cbn. by rewrite list_lookup_insert_ne.
  - intros q prq Hq. destruct (decide (q = p)) as [->|Hne].
    + cbn in Hq. rewrite list_lookup_insert_eq in Hq by (by eapply lookup_lt_Some).
      by simplify_eq.
    + cbn in Hq. rewrite list_lookup_insert_ne in Hq by done.
      eapply proc_ok_evolves; [done| |by eapply Hproc]. by eapply Hdata.
Qed.

(** A move that leaves the KVDB's counters alone. *)
Lemma evolves_same_counters j p pr pr' kv' :
  procs j !! p = Some pr → (∀ a i, arrived a i pr → arrived a i pr') →
  (∀ a k db, db = CONVERGE a ∨ db = CRITICAL_SECTION a ∨ db = TARGETS_RAISED a →
     get64 db (round_key k) kv' = get64 db (round_key k) (store j)) →
  evolves j (mk_job (<[p := pr']> (procs j)) kv').
Proof.
  intros Hp Hm Hkeys.
  assert (∀ a k, converge kv' a k = converge (store j) a k ∧ incs kv' a k = incs (store j) a k ∧
    nraised kv' a k = nraised (store j) a k) as Hc.
  { intros a k. unfold converge, incs, nraised. rewrite !(Hkeys a) by auto. done. }
  split; cbn [store].
  - intros a i. eapply all_arrived_insert; eauto.
  - intros a k _. apply Hc.
  - intros a k _. apply Hc.
  - intros a k _. apply Hc.
  - intros a k. destruct (Hc a k) as (-> & _). erewrite posted_insert by done.
    specialize (Hm a (3 + 2 * k)%nat). repeat case_bool_decide; simpl; try lia. tauto.
  - intros a k. by destruct (Hc a k) as (_ & -> & _).
  - intros a k db Hdb. by rewrite (Hkeys a).
Qed.

Lemma other_data j q prq :
  drain_inv j → procs j !! q = Some prq → data_ok (store j) (attempt prq) (stage prq) (sq prq).
Proof. intros Hinv Hq. by apply (po_data j), (di_proc j Hinv q). Qed.

Lemma inv_app j p pr s locked :
  drain_inv j → procs j !! p = Some pr → (locked = true → stage pr ≠ Sharing) →
  app_step comm_size locked (sq pr) s →
  drain_inv (mk_job (<[p := pr <| sq := s |>]> (procs j)) (store j)).
Proof.
  intros Hinv Hp Hl Hstep. pose proof (di_store _ Hinv) as Hst.
  assert (evolves j (mk_job (<[p := pr <| sq := s |>]> (procs j)) (store j))) as Hev.
  { by eapply evolves_same_counters. }
  eapply drain_inv_step; [done|done|done|done|by intros; apply di_conv|by left|done|..].
  { intros q prq _ Hq. by eapply other_data. }
  destruct (di_proc j Hinv p pr Hp) as [Hdata Hround Hpast Hsamp Hwait Hdrain].
  assert (frozen (sq pr) → frozen s) as Hfr by (by eapply app_step_frozen).
  split; cbn [sq attempt stage rounds_without_raise set_field].
  - eapply app_step_data; [done|done|intros; by apply so_max|done].
  - intros k Hk. by eapply ev_round, Hround.
  - intros a Ha. apply (ev_past _ _ _ Hev), (Hpast _ Ha).
  - intros k r c Hk. destruct (Hsamp k r c Hk). split; [by eauto|done].
  - intros k Hk. destruct (Hwait k Hk) as (Hw & ? & ? & ?). split_and!; try done.
    destruct Hw as [Hw|[Hw|Hw]]; [left|by right; left|right; right; auto].
    pose proof (ev_posted _ _ Hev (attempt pr) k) as Hpo. cbn [store] in Hpo |- *. lia.
  - intros k Hk. destruct (Hdrain k Hk) as (? & ? & ?). split; [auto|].
    split; [by eapply ev_arrived|done].
Qed.

(** ** Preservation: an attempt starts *)

Section upload_all.
Context (a : nat) (s : seq_state) (kv : K).
Let kv' := upload_seq_num (COMM_SEQ_MAX a) s kv.

Lemma upload_other db key : db ≠ COMM_SEQ_MAX a → get64 db key kv' = get64 db key kv.
Proof. intros Hne. apply get_upload_seq_num_other. intros g. congruence. Qed.

Lemma upload_some a' g :
  is_Some (get64 (COMM_SEQ_MAX a') (gid_key g) kv) → is_Some (get64 (COMM_SEQ_MAX a') (gid_key g) kv').
Proof.
  destruct (decide (a' = a)) as [->|Hne]; [|by rewrite upload_other by congruence].
  unfold kv'. rewrite get_upload_seq_num. by destruct (clocks s !! g).
Qed.

Lemma upload_max_other a' g : a' ≠ a → maxseq kv' a' g = maxseq kv a' g.
Proof. intros Hne. unfold maxseq. by rewrite upload_other by congruence. Qed.

Lemma upload_max_mono a' g :
  clocks_all s clock_nonneg → maxseq kv a' g ≤ maxseq kv' a' g.
Proof.
  intros Hpos. destruct (decide (a' = a)) as [->|Hne]; [|by rewrite upload_max_other].
  unfold maxseq, kv'. rewrite get_upload_seq_num. destruct (clocks s !! g) as [c|] eqn:E; [|done].
  destruct (Hpos g c E) as [? _]. destruct (get64 _ _ kv); simpl; lia.
Qed.

Lemma upload_max_own g c :
  clocks s !! g = Some c →
  is_Some (get64 (COMM_SEQ_MAX a) (gid_key g) kv') ∧ clock_seq c ≤ maxseq kv' a g.
Proof.
  intros Hg. unfold maxseq, kv'. rewrite get_upload_seq_num, Hg.
  split; [by eexists|]. destruct (get64 _ _ kv); simpl; lia.
Qed.

Lemma upload_store_ok : clocks_all s clock_nonneg → store_ok kv → store_ok kv'.
Proof.
  intros Hpos [Hm Hr Hl]. unfold nraised in *. split.
  - intros a' g. specialize (Hm a' g). pose proof (upload_max_mono a' g Hpos). lia.
  - intros a' k. unfold nraised. by rewrite upload_other.
  - intros a' k i. unfold nraised. rewrite !upload_other by done. intros Hi.
    destruct (Hl a' k i Hi) as (g & ? & ?). exists g. split; [done|]. by apply upload_some.
Qed.

Lemma upload_in_list a' k g : in_list kv' a' k g ↔ in_list kv a' k g.
Proof.
  unfold in_list, listed, nraised. rewrite upload_other by done.
  split; intros (i & ? & ?); exists i; [rewrite <- (upload_other (RAISED_GIDS a'))|rewrite upload_other]; done.
Qed.
End upload_all.

Lemma inv_attempt j p pr pr' kv' :
  drain_inv j → procs j !! p = Some pr → stage pr = Running →
  start_attempt pr (store j) = (pr', kv') →
  drain_inv (mk_job (<[p := pr']> (procs j)) kv').
Proof.
  intros Hinv Hp Hrun. unfold start_attempt. intros [= <- <-].
  set (s1 := (sq pr) <| ckpt_pending := true |> <| raised_clocks := [] |> <| added_clock := false |>).
  set (a := attempt pr). set (kv' := upload_seq_num _ _ _).
  destruct (di_proc j Hinv p pr Hp) as [Hdata _ Hpast _ _ _]. destruct Hdata as (Hpos & _).
  assert (clocks_all s1 clock_nonneg) as Hpos1 by done.
  set (pr' := pr <| sq := s1 |> <| stage := Sharing |>).
  assert (∀ a i, arrived a i pr → arrived a i pr') as Hmono.
  { intros a' i [?|[? Hi]]; [by left|right]. split; [done|]. rewrite Hrun in Hi. simpl in *. lia. }
  assert (evolves j (mk_job (<[p := pr']> (procs j)) kv')) as Hev.
  { eapply evolves_same_counters; [done|done|].
    intros a' k db [->|[->| ->]]; by apply upload_other. }
  eapply drain_inv_step; [done|done|done|..].
  - by apply upload_store_ok, Hinv.
  - intros a' k. unfold converge, kv'. rewrite upload_other by done. by apply Hinv.
  - intros a' k. unfold nraised, kv'. rewrite upload_other by done. by left.
  - done.
  - intros q prq Hne Hq. pose proof (other_data j q prq Hinv Hq) as Hd.
    eapply data_ok_mono, Hd; [by intros; apply upload_max_mono|by intros; apply upload_some|].
    intros k Hk g. unfold kv'. rewrite !upload_in_list. split_and!; [done|done|]. left.
    apply upload_max_other. intros Heq.
    destruct (po_round _ _ (di_proc j Hinv q prq Hq) k Hk) as (Harr & _).
    pose proof (all_arrived_lookup _ _ _ _ _ Harr Hp) as [Hlt|[_ Hle]]; [lia|].
    rewrite Hrun in Hle. simpl in Hle. lia.
  - split; cbn [sq attempt stage rounds_without_raise set_field]; try done.
    + split_and!; [done| |done|].
      * intros _. split; [done|]. intros g c Hg Hgt. left. by eapply upload_max_own.
      * intros _ g c Hg. by eapply upload_max_own.
    + intros a' Ha. apply (ev_past _ _ _ Hev), (Hpast _ Ha).
Qed.

(** ** Preservation: the targets are downloaded *)

Lemma downloaded_clock kv a s g c :
  clocks (download_targets (COMM_SEQ_MAX a) kv s) !! g = Some c →
  ∃ c0, clocks s !! g = Some c0 ∧ clock_seq c = clock_seq c0 ∧
    ((is_Some (get64 (COMM_SEQ_MAX a) (gid_key g) kv) ∧ clock_target c = maxseq kv a g) ∨
     (get64 (COMM_SEQ_MAX a) (gid_key g) kv = None ∧ c = c0)).
Proof.
  rewrite clocks_download. destruct (clocks s !! g) as [c0|]; [|done]. intros [= <-].
  exists c0. unfold download_clock, maxseq. destruct (get64 _ _ kv); simpl; split_and!; eauto.
Qed.

Lemma downloaded_nonneg kv a s :
  store_ok kv → clocks_all s clock_nonneg →
  clocks_all (download_targets (COMM_SEQ_MAX a) kv s) clock_nonneg.
Proof.
  intros Hok Hpos g c (c0 & Hg & E & Ht)%downloaded_clock. destruct (Hpos g c0 Hg) as [? ?].
  split; [lia|]. destruct Ht as [[_ ->]|[_ ->]]; [by apply so_max|done].
Qed.

Lemma inv_share j p pr :
  drain_inv j → procs j !! p = Some pr → stage pr = Sharing → all_arrived j (attempt pr) 1 →
  drain_inv (mk_job (<[p := finish_share pr (store j)]> (procs j)) (store j)).
Proof.
  intros Hinv Hp Hsh Harr. set (pr' := finish_share pr (store j)).
  assert (∀ a i, arrived a i pr → arrived a i pr') as Hmono.
  { intros a' i [?|[? Hi]]; [by left|right]. split; [done|]. rewrite Hsh in Hi. simpl in *. lia. }
  assert (evolves j (mk_job (<[p := pr']> (procs j)) (store j))) as Hev.
  { by eapply evolves_same_counters. }
  destruct (di_proc j Hinv p pr Hp) as [Hdata _ Hpast _ _ _].
  eapply drain_inv_step; [done|done|done|by apply Hinv|by intros; apply Hinv|by left|done|..].
  { intros q prq _ Hq. by eapply other_data. }
  destruct Hdata as (Hpos & Hshared & _ & Hkey). rewrite Hsh in *.
  destruct (Hshared ltac:(done)) as [Hpend Hs]. specialize (Hkey eq_refl).
  split; cbn [sq attempt stage rounds_without_raise set_field finish_share pr' store]; try done.
  - split_and!; [| |intros k [= <-]|done].
    + by apply downloaded_nonneg; [apply Hinv|].
    + intros _. split; [done|]. intros g c (c0 & Hg & E & _)%downloaded_clock Hgt. rewrite E.
      by apply Hs.
    + split; intros g c (c0 & Hg & E & [[_ Ht]|[Hn _]])%downloaded_clock;
        try (destruct (Hkey g c0 Hg); congruence).
      * intros _. left. lia.
      * left. lia.
  - intros k [= <-]. split; [by eapply ev_arrived|]. split; [intros; lia|done].
  - intros a' Ha. apply (ev_past _ _ _ Hev), (Hpast _ Ha).
Qed.

(** ** Preservation: the locked section of a round *)

Section round.
Context (a k : nat) (s : seq_state) (kv : K) (s' : seq_state) (kv' : K).
Context (Hrun : upload_raised_targets (COMM_SEQ_MAX a) (RAISED_GIDS a) (TARGETS_RAISED a) k s kv = (s', kv')).
(** The section changes the maxima of the attempt, and the round's list and
    its length. *)
Lemma round_run :
  s' = s <| raised_clocks := [] |> ∧
  ∃ gids, (∀ g, g ∈ gids ↔ g ∈ raised_clocks s ∧ is_Some (clocks s !! g)) ∧
    (∀ g, get64 (COMM_SEQ_MAX a) (gid_key g) kv' =
       if decide (g ∈ gids)
       then max_opt (get64 (COMM_SEQ_MAX a) (gid_key g) kv) (default 0 (clock_seq <$> clocks s !! g))
       else get64 (COMM_SEQ_MAX a) (gid_key g) kv) ∧
    get64 (TARGETS_RAISED a) (round_key k) kv' = Some (nraised kv a k + Z.of_nat (length gids)) ∧
    (∀ i : Z, get64 (RAISED_GIDS a) (raised_entry_key k i) kv' =
       match (if nraised kv a k <=? i then gids !! Z.to_nat (i - nraised kv a k) else None) with
       | Some g => Some g
       | None => get64 (RAISED_GIDS a) (raised_entry_key k i) kv
       end) ∧
    (∀ db key, (∀ g, (db, key) ≠ (COMM_SEQ_MAX a, gid_key g)) →
       (db, key) ≠ (TARGETS_RAISED a, round_key k) →
       (∀ i : Z, (db, key) ≠ (RAISED_GIDS a, raised_entry_key k i)) →
       get64 db key kv' = get64 db key kv).
Proof using All.
  unfold upload_raised_targets in Hrun.
  destruct (upload_loop _ _ _ _ kv) as [gids kv1] eqn:El.
  destruct (upload_loop_spec _ _ _ _ _ _ _ El) as (Hg & Hm & Ho).
  destruct (request_INCRBY _ _ _ kv1) as [first kv2] eqn:Ei.
  pose proof (INCRBY_spec (TARGETS_RAISED a) (round_key k) (Z.of_nat (length gids)) kv1) as [Hi1 Hi2].
  pose proof (INCRBY_old (TARGETS_RAISED a) (round_key k) (Z.of_nat (length gids)) kv1) as Hold.
  rewrite Ei in Hi1, Hi2, Hold. simpl in Hi1, Hi2, Hold.
  rewrite Ho in Hi1, Hold by congruence. fold (nraised kv a k) in Hi1, Hold. subst first.
  destruct (get_set_entries (RAISED_GIDS a) k (nraised kv a k) gids kv2) as [He1 He2].
  injection Hrun as <- <-. split; [done|]. exists gids. split_and!.
  - intros g. rewrite Hg. split; [|tauto]. intros [[]%not_elem_of_nil|?]; done.
  - intros g. rewrite He2, Hi2, Hm by congruence. pose proof (not_elem_of_nil g).
    destruct (decide (g ∈ gids)); [rewrite decide_True by done|rewrite decide_False by tauto]; done.
  - by rewrite He2 by congruence.
  - intros i. rewrite He1, Hi2, Ho by congruence. done.
  - intros db key H1 H2 H3. by rewrite He2, Hi2, Ho.
Qed.

Context (Hpos : clocks_all s clock_nonneg) (Hok : store_ok kv).

Lemma round_other db key :
  (∀ a, db ≠ COMM_SEQ_MAX a ∧ db ≠ TARGETS_RAISED a ∧ db ≠ RAISED_GIDS a) →
  get64 db key kv' = get64 db key kv.
Proof.
  intros Hne. destruct round_run as (_ & gids & _ & _ & _ & _ & Ho).
  destruct (Hne a) as (? & ? & ?). apply Ho; intros; congruence.
Qed.

Lemma round_other_attempt a' :
  a' ≠ a → (∀ g, get64 (COMM_SEQ_MAX a') (gid_key g) kv' = get64 (COMM_SEQ_MAX a') (gid_key g) kv) ∧
  (∀ i, nraised kv' a' i = nraised kv a' i) ∧ (∀ i g, in_list kv' a' i g ↔ in_list kv a' i g).
Proof.
  intros Hne. destruct round_run as (_ & gids & _ & _ & _ & _ & Ho).
  assert (∀ i, nraised kv' a' i = nraised kv a' i) as Hr.
  { intros i. unfold nraised. by rewrite Ho by congruence. }
  split_and!; [intros; by rewrite Ho by congruence|done|].
  intros i g. unfold in_list, listed. rewrite Hr.
  split; intros (x & ? & Hx); exists x; rewrite Ho in * by congruence; done.
Qed.

Lemma round_nraised i : i ≠ k → nraised kv' a i = nraised kv a i.
Proof.
  intros Hne. destruct round_run as (_ & gids & _ & _ & _ & _ & Ho).
  unfold nraised. by rewrite Ho by congruence.
Qed.

Lemma round_nraised_mono i : nraised kv a i ≤ nraised kv' a i.
Proof.
  destruct (decide (i = k)) as [->|Hne]; [|by rewrite round_nraised].
  destruct round_run as (_ & gids & _ & _ & Hc & _ & _). unfold nraised at 2. rewrite Hc. simpl. lia.
Qed.

Lemma round_in_list_mono i g : in_list kv a i g → in_list kv' a i g.
Proof.
  intros (x & Hx & Hg). pose proof (round_nraised_mono i). exists x. split; [lia|].
  destruct round_run as (_ & gids & _ & _ & _ & Hl & Ho).
  destruct (decide (i = k)) as [->|Hne]; [|by rewrite Ho by congruence].
  rewrite Hl, (proj2 (Z.leb_gt _ _)) by lia. done.
Qed.

(** A maximum that rises is in the list of the round. *)
Lemma round_max g :
  (maxseq kv' a g = maxseq kv a g ∨ in_list kv' a k g) ∧ maxseq kv a g ≤ maxseq kv' a g ∧
  (∀ c, clocks s !! g = Some c → g ∈ raised_clocks s → clock_seq c ≤ maxseq kv' a g) ∧
  (is_Some (get64 (COMM_SEQ_MAX a) (gid_key g) kv) → is_Some (get64 (COMM_SEQ_MAX a) (gid_key g) kv')).
Proof.
  destruct round_run as (_ & gids & Hg & Hm & Hc & Hl & _). unfold maxseq. rewrite Hm.
  destruct (decide (g ∈ gids)) as [Hin|Hin].
  - split_and!; [right| | |by eexists].
    + apply list_elem_of_lookup in Hin as [n Hn]. pose proof (lookup_lt_Some _ _ _ Hn).
      pose proof (so_raised _ Hok a k) as Hr0.
      exists (nraised kv a k + Z.of_nat n). unfold nraised at 3. rewrite Hc. simpl.
      split; [lia|]. rewrite Hl, (proj2 (Z.leb_le _ _)) by lia.
      replace (Z.to_nat _) with n by lia. by rewrite Hn.
    + apply Hg in Hin as [_ [c Hcl]]. rewrite Hcl. simpl. destruct (Hpos g c Hcl) as [? _].
      pose proof (so_max _ Hok a g) as Hm0. unfold maxseq in Hm0.
      destruct (get64 _ _ kv); simpl in *; lia.
    + intros c Hcl _. rewrite Hcl. simpl. destruct (get64 _ _ kv); simpl; lia.
  - split_and!; [by left|done| |done]. intros c Hcl Hr. destruct Hin. apply Hg. eauto.
Qed.

Lemma round_store_ok : store_ok kv'.
Proof.
  destruct Hok as [Hm Hr Hl]. split.
  - intros a' g. destruct (decide (a' = a)) as [->|Hne].
    + specialize (Hm a g). destruct (round_max g) as (_ & ? & _). lia.
    + unfold maxseq. destruct (round_other_attempt a' Hne) as (-> & _). apply Hm.
  - intros a' i. destruct (decide (a' = a)) as [->|Hne].
    + specialize (Hr a i). pose proof (round_nraised_mono i). lia.
    + destruct (round_other_attempt a' Hne) as (_ & -> & _). apply Hr.
  - intros a' i x Hx. destruct round_run as (_ & gids & Hg & Hmax & Hc & Hlist & Ho).
    destruct (decide (a' = a)) as [->|Hne].
    2:{ unfold nraised in Hx. rewrite Ho in Hx by congruence. destruct (Hl a' i x Hx) as (g & ? & ?).
        exists g. by rewrite !Ho by congruence. }
    assert (∀ g, is_Some (get64 (COMM_SEQ_MAX a) (gid_key g) kv) →
      is_Some (get64 (COMM_SEQ_MAX a) (gid_key g) kv')) as Hsome by (intros g; apply round_max).
    destruct (decide (i = k)) as [->|Hne].
    2:{ rewrite round_nraised in Hx by done. destruct (Hl a i x Hx) as (g & Hg' & ?).
        exists g. rewrite Ho by congruence. eauto. }
    unfold nraised in Hx. rewrite Hc in Hx. simpl in Hx. rewrite Hlist.
    destruct (Z.leb_spec (nraised kv a k) x).
    + destruct (lookup_lt_is_Some_2 gids (Z.to_nat (x - nraised kv a k))) as [g Hgi]; [lia|].
      rewrite Hgi. exists g. split; [done|]. rewrite Hmax.
      rewrite decide_True by (by eapply list_elem_of_lookup_2). by eexists.
    + destruct (Hl a k x) as (g & Hg' & ?); [lia|]. exists g. eauto.
Qed.
End round.

(** Before the upload, a process with a new clock downloads its targets. *)
Definition section_state kv a s : seq_state :=
  if added_clock s then (download_targets (COMM_SEQ_MAX a) kv s) <| added_clock := false |> else s.

Lemma section_state_ok kv a k s :
  store_ok kv → data_ok kv a (Round k) s →
  data_ok kv a (Round k) (section_state kv a s) ∧ added_clock (section_state kv a s) = false.
Proof.
  intros Hok Hd. unfold section_state. destruct (added_clock s) eqn:Ea; [|done].
  destruct Hd as (Hpos & Hsh & Hrd & _). destruct (Hsh ltac:(done)) as [Hp Hs].
  destruct (Hrd k eq_refl) as [Hsound _]. split; [|done]. split_and!.
  - by apply downloaded_nonneg.
  - intros _. split; [done|]. intros g c (c0 & Hg & E & _)%downloaded_clock Hgt. rewrite E. by apply Hs.
  - intros k' [= <-]. split; intros g c Hc; pose proof Hc as (c0 & Hg & E & Ht)%downloaded_clock.
    + intros Hgt. destruct Ht as [[_ ->]|[_ ->]]; [by left|by apply Hsound].
    + left. destruct Ht as [[_ ->]|[Hn ->]]; [done|]. unfold maxseq. rewrite Hn. by apply (Hpos g).
  - done.
Qed.

Lemma section_data kv kv' a k s s' :
  upload_raised_targets (COMM_SEQ_MAX a) (RAISED_GIDS a) (TARGETS_RAISED a) k s kv = (s', kv') →
  store_ok kv → data_ok kv a (Round k) s → added_clock s = false →
  ∀ r c, data_ok kv' a (Sampled k r c) s'.
Proof.
  intros Hrun Hok (Hpos & Hsh & Hrd & _) Ha r0 c0.
  destruct (Hsh ltac:(done)) as [Hp Hs]. destruct (Hrd k eq_refl) as [Hsound Hfresh].
  pose proof (round_run _ _ _ _ _ _ Hrun) as [-> _].
  pose proof (round_max _ _ _ _ _ _ Hrun Hpos Hok) as Hmax. split_and!; [done| | |done].
  - intros _. split; [done|]. intros g c Hg Hgt. left. destruct (Hmax g) as (_ & Hle & Hr & _).
    destruct (Hs g c Hg Hgt); [lia|auto].
  - intros k' [= <-]. split; intros g c Hg; destruct (Hmax g) as (Heq & Hle & Hr & _).
    + intros Hgt. left. destruct (Hsound g c Hg Hgt) as [|[Hin ?]]; [lia|].
      specialize (Hr c Hg Hin). lia.
    + destruct Heq as [Heq|Hin]; [|by right; right; left]. unfold target_fresh. rewrite Heq.
      destruct (Hfresh g c Hg) as [?|[?|[?|?]]]; [by left|congruence|..].
      * right; right; left. by eapply round_in_list_mono.
      * right; right; right. by eapply round_in_list_mono.
Qed.

(** The processes of an attempt are in the same round or the one before. *)
Lemma neighbour_round j p pr q prq k kq :
  drain_inv j → procs j !! p = Some pr → stage pr = Round k →
  procs j !! q = Some prq → attempt prq = attempt pr → round_of (stage prq) = Some kq →
  k = kq ∨ k = S kq.
Proof.
  intros Hinv Hp Hk Hq Ha Hkq.
  destruct (po_round _ _ (di_proc _ Hinv p pr Hp) k) as (_ & H1 & _); [by rewrite Hk|].
  destruct (po_round _ _ (di_proc _ Hinv q prq Hq) kq Hkq) as (_ & H2 & _).
  assert (idx (stage prq) ≤ 3 + 2 * kq)%nat by (destruct (stage prq); simplify_eq/=; lia).
  destruct (decide (k < kq)%nat) as [Hlt|Hge].
  - destruct (H2 k Hlt) as [Harr _].
    pose proof (all_arrived_lookup _ _ _ _ _ Harr Hp) as [?|[? Hi]]; [lia|].
    rewrite Hk in Hi. simpl in Hi. lia.
  - destruct (decide (S kq < k)%nat) as [Hlt|]; [|lia]. destruct (H1 (S kq) Hlt) as [Harr _].
    pose proof (all_arrived_lookup _ _ _ _ _ Harr Hq) as [?|[? Hi]]; lia.
Qed.

Lemma inv_round j p pr k pr' kv' :
  drain_inv j → procs j !! p = Some pr → stage pr = Round k →
  round_section k pr (store j) = (pr', kv') →
  drain_inv (mk_job (<[p := pr']> (procs j)) kv').
Proof.
  intros Hinv Hp Hk. unfold round_section. fold (section_state (store j) (attempt pr) (sq pr)).
  destruct (upload_raised_targets _ _ _ _ _ (store j)) as [s2 kv2] eqn:Hrun.
  set (pr2 := pr <| sq := s2 |> <| stage := _ |>). intros [= <- <-].
  pose proof (di_store _ Hinv) as Hok.
  destruct (di_proc j Hinv p pr Hp) as [Hdata Hround Hpast _ _ _]. rewrite Hk in Hdata, Hround.
  destruct (section_state_ok _ _ _ _ Hok Hdata) as [Hd1 Ha1].
  pose proof Hd1 as (Hpos & Hpend & _). destruct (Hpend ltac:(done)) as [Hp1 _].
  pose proof (round_run _ _ _ _ _ _ Hrun) as [Hs2 (gids & _ & _ & Hcnt & _)].
  set (a := attempt pr) in *.
  assert (∀ a' i, arrived a' i pr ↔ arrived a' i pr2) as Harr.
  { intros a' i. unfold arrived. cbn [attempt stage pr2 set_field]. by rewrite Hk. }
  assert (evolves j (mk_job (<[p := pr2]> (procs j)) kv2)) as Hev.
  { assert (∀ a' i, converge kv2 a' i = converge (store j) a' i ∧ incs kv2 a' i = incs (store j) a' i) as Hc.
    { intros a' i. unfold converge, incs. by rewrite !(round_other _ _ _ _ _ _ Hrun). }
    split; cbn [store].
    - intros a' i. eapply all_arrived_insert; [done|]. apply Harr.
    - intros a' i _. apply Hc.
    - intros a' i _. apply Hc.
    - intros a' i Hall. destruct (decide (a' = a)) as [->|Hne].
      + apply (round_nraised _ _ _ _ _ _ Hrun). intros ->.
        pose proof (all_arrived_lookup _ _ _ _ _ Hall Hp) as [?|[_ Hi]]; [lia|].
        rewrite Hk in Hi. simpl in Hi. lia.
      + by apply (round_other_attempt _ _ _ _ _ _ Hrun).
    - intros a' i. destruct (Hc a' i) as [-> _]. erewrite posted_insert by done.
      rewrite (bool_decide_ext _ _ (Harr a' (3 + 2 * i)%nat)). lia.
    - intros a' i. by destruct (Hc a' i) as [_ ->].
    - intros a' i db Hdb Hsome. destruct (decide (db = TARGETS_RAISED a ∧ i = k)) as [[-> ->]|Hne].
      + rewrite Hcnt. by eexists.
      + pose proof (round_run _ _ _ _ _ _ Hrun) as [_ (? & _ & _ & _ & _ & Ho)].
        rewrite Ho; [done|..].
        * intros g. destruct Hdb as [->|[->| ->]]; congruence.
        * intros [= -> ->]. tauto.
        * intros y. destruct Hdb as [->|[->| ->]]; congruence. }
  eapply drain_inv_step; [done|done|done|..].
  - by eapply round_store_ok.
  - intros a' i. unfold converge. rewrite (round_other _ _ _ _ _ _ Hrun) by done. by apply Hinv.
  - intros a' i Hi. destruct (decide (a' = a)) as [->|Hne].
    + destruct (decide (i = k)) as [->|Hne]; [right; right; split; [done|by rewrite Hk]|left].
      by rewrite (round_nraised _ _ _ _ _ _ Hrun) in Hi.
    + left. destruct (round_other_attempt _ _ _ _ _ _ Hrun a' Hne) as (_ & E & _). by rewrite E in Hi.
  - intros a' i. apply Harr.
  - intros q prq Hne Hq. pose proof (other_data j q prq Hinv Hq) as Hd.
    destruct (decide (attempt prq = a)) as [Haq|Haq].
    + rewrite Haq in *. pose proof (round_max _ _ _ _ _ _ Hrun Hpos Hok) as Hmax.
      eapply data_ok_mono, Hd; [intros g; by apply Hmax|intros g; by apply Hmax|].
      intros kq Hkq g. destruct (Hmax g) as (Heq & _).
      split; [by eapply round_in_list_mono|]. split; [by eapply round_in_list_mono|].
      destruct Heq as [|Hin]; [by left|right].
      destruct (neighbour_round j p pr q prq k kq) as [->| ->]; auto.
    + destruct (round_other_attempt _ _ _ _ _ _ Hrun (attempt prq) Haq) as (H1 & H2 & H3).
      eapply data_ok_mono, Hd; unfold maxseq; [intros g; by rewrite H1|intros g; by rewrite H1|].
      intros kq Hkq g. rewrite !H3, H1. auto.
  - split; cbn [sq attempt stage rounds_without_raise set_field pr2 store].
    + by eapply section_data.
    + intros k' [= <-]. by apply (ev_round _ _ _ _ _ Hev), Hround.
    + intros a' Ha. apply (ev_past _ _ _ Hev), (Hpast _ Ha).
    + intros k' r c [= <- <- <-]. split; [|exact (mk_is_Some _ _ Hcnt)].
      intros Hr Hc. subst s2. split_and!; try done. case_bool_decide as Hph; [done|].
      by destruct (current_phase _).
    + done.
    + done.
Qed.

(** ** Preservation: the sample is posted *)

Lemma data_ok_stage kv a st st' s k :
  round_of st = Some k → round_of st' = Some k → data_ok kv a st s → data_ok kv a st' s.
Proof.
  intros Hk Hk' (Hpos & Hsh & Hrd & _). split_and!; [done|..].
  - intros _. apply Hsh. by intros ->.
  - intros k2 Hk2. simplify_eq. by apply Hrd.
  - by intros ->.
Qed.

Lemma data_ok_ext kv kv' a st s :
  (∀ a db key, db = COMM_SEQ_MAX a ∨ db = TARGETS_RAISED a ∨ db = RAISED_GIDS a →
     get64 db key kv' = get64 db key kv) →
  data_ok kv a st s → data_ok kv' a st s.
Proof.
  intros He. apply data_ok_mono.
  - intros g. unfold maxseq. rewrite (He a) by auto. lia.
  - intros g. by rewrite (He a) by auto.
  - intros k _ g.
    assert (∀ i, in_list kv a i g → in_list kv' a i g) as Hl.
    { intros i (x & Hx & Hg). exists x. unfold nraised in *. by rewrite !(He a) by auto. }
    split_and!; [apply Hl|apply Hl|]. left. unfold maxseq. by rewrite (He a) by auto.
Qed.

Lemma inv_post j p pr k r c pr' kv' :
  drain_inv j → procs j !! p = Some pr → stage pr = Sampled k r c →
  post_sample k r c pr (store j) = (pr', kv') →
  drain_inv (mk_job (<[p := pr']> (procs j)) kv').
Proof.
  intros Hinv Hp Hk. unfold post_sample. intros [= <- <-]. set (a := attempt pr).
  set (kv1 := snd _). set (kv2 := request_OR _ _ _ _). set (pr2 := pr <| stage := Waiting k |>).
  pose proof (INCRBY_spec (CONVERGE a) (round_key k) (Z.b2z r) (store j)) as [Hi1 Hi2]. fold kv1 in Hi1, Hi2.
  pose proof (OR_spec (CRITICAL_SECTION a) (round_key k) (Z.b2z c) kv1) as [Ho1 Ho2]. fold kv2 in Ho1, Ho2.
  rewrite Hi2 in Ho1 by congruence. fold (converge (store j) a k) in Hi1. fold (incs (store j) a k) in Ho1.
  assert (converge kv2 a k = converge (store j) a k + Z.b2z r) as Hconv.
  { unfold converge. rewrite Ho2 by congruence. by rewrite Hi1. }
  assert (incs kv2 a k = Z.lor (incs (store j) a k) (Z.b2z c)) as Hincs by (unfold incs at 1; by rewrite Ho1).
  assert (∀ a' i, (a', i) ≠ (a, k) →
    converge kv2 a' i = converge (store j) a' i ∧ incs kv2 a' i = incs (store j) a' i) as Hother.
  { intros a' i Hne. unfold converge, incs. by rewrite !Ho2, !Hi2 by congruence. }
  assert (∀ db key, db ≠ CONVERGE a → db ≠ CRITICAL_SECTION a → get64 db key kv2 = get64 db key (store j)) as Hdb.
  { intros db key H1 H2. by rewrite Ho2, Hi2 by congruence. }
  destruct (di_proc j Hinv p pr Hp) as [Hdata Hround Hpast Hsamp _ _]. rewrite Hk in Hdata, Hround.
  assert (arrived a (3 + 2 * k) pr → False) as Hnot.
  { intros [?|[_ Hi]]; [lia|]. rewrite Hk in Hi. simpl in Hi. lia. }
  assert (∀ a' i, arrived a' i pr → arrived a' i pr2) as Hmono.
  { intros a' i [?|[? Hi]]; [by left|right]. split; [done|]. rewrite Hk in Hi. simpl in *. lia. }
  assert (posted (mk_job (<[p := pr2]> (procs j)) kv2) a k = posted j a k + 1) as Hposted.
  { erewrite posted_insert by done. rewrite (bool_decide_eq_false_2 _ Hnot).
    rewrite bool_decide_eq_true_2; [simpl; lia|]. right. split; [done|]. simpl. lia. }
  assert (evolves j (mk_job (<[p := pr2]> (procs j)) kv2)) as Hev.
  { assert (∀ a' i, all_arrived j a' (3 + 2 * i) → (a', i) ≠ (a, k)) as Hne.
    { intros a' i Hall [= -> ->]. by apply Hnot, (all_arrived_lookup _ _ _ _ _ Hall Hp). }
    split; cbn [store].
    - intros a' i. eapply all_arrived_insert; eauto.
    - intros a' i Hall. by apply Hother, Hne.
    - intros a' i Hall. by apply Hother, Hne.
    - intros a' i Hall. unfold nraised. by rewrite Hdb.
    - intros a' i. destruct (decide ((a', i) = (a, k))) as [[= -> ->]|Hd].
      + rewrite Hposted, Hconv. destruct r; simpl; lia.
      + destruct (Hother a' i Hd) as [-> _]. erewrite posted_insert by done.
        specialize (Hmono a' (3 + 2 * i)%nat). repeat case_bool_decide; simpl; try lia. tauto.
    - intros a' i. destruct (decide ((a', i) = (a, k))) as [[= -> ->]|Hd].
      + rewrite Hincs. rewrite Z.lor_eq_0_iff. tauto.
      + by destruct (Hother a' i Hd) as [_ ->].
    - intros a' i db Hcase Hsome. destruct (decide (db = CRITICAL_SECTION a ∧ i = k)) as [[-> ->]|Hd1];
        [rewrite Ho1; by eexists|].
      destruct (decide (db = CONVERGE a ∧ i = k)) as [[-> ->]|Hd2];
        [rewrite Ho2 by congruence; rewrite Hi1; by eexists|].
      rewrite Ho2, Hi2; [done|intros [= -> ->]; tauto..]. }
  assert (∀ a db key, db = COMM_SEQ_MAX a ∨ db = TARGETS_RAISED a ∨ db = RAISED_GIDS a →
     get64 db key kv2 = get64 db key (store j)) as Hsame.
  { intros a' db key [->|[->| ->]]; by apply Hdb. }
  eapply drain_inv_step; [done|done|done|..].
  - destruct (di_store _ Hinv) as [Hm Hr Hl].
    assert (∀ a' i, nraised kv2 a' i = nraised (store j) a' i) as Hnr.
    { intros. unfold nraised. by rewrite Hdb. }
    split.
    + intros a' g. unfold maxseq. rewrite Hdb by done. apply Hm.
    + intros a' i. rewrite Hnr. apply Hr.
    + intros a' i x. rewrite Hnr. intros Hx. destruct (Hl a' i x Hx) as (g & ? & ?).
      exists g. by rewrite !Hdb by done.
  - intros a' i. pose proof (di_conv _ Hinv a' i).
    destruct (decide ((a', i) = (a, k))) as [[= -> ->]|Hd]; [rewrite Hconv; destruct r; simpl; lia|].
    destruct (Hother a' i Hd) as [-> _]. lia.
  - intros a' i. unfold nraised. rewrite Hdb by done. by left.
  - done.
  - intros q prq _ Hq. eapply data_ok_ext; [done|]. by eapply other_data.
  - destruct (Hsamp k r c Hk) as [Hfr Hkey].
    split; cbn [sq attempt stage rounds_without_raise set_field pr2 store]; try done.
    + eapply data_ok_ext; [done|]. by eapply data_ok_stage; [..|exact Hdata].
    + intros k' [= <-]. by apply (ev_round _ _ _ _ _ Hev), Hround.
    + intros a' Ha. apply (ev_past _ _ _ Hev), (Hpast _ Ha).
    + intros k' [= <-]. fold a in Hkey |- *. split_and!.
      * rewrite Hposted, Hconv, Hincs. pose proof (di_conv _ Hinv a k).
        destruct r; [|left; simpl; lia]. destruct c; [|auto].
        right; left. rewrite Z.lor_eq_0_iff. intros [_ ?]. done.
      * rewrite Ho2, Hi1 by congruence. by eexists.
      * rewrite Ho1. by eexists.
      * by rewrite Hdb.
Qed.

(** ** Preservation: a round ends *)

(** [download_raised_targets()] succeeds, and brings the listed clocks up to
    date. *)
Lemma download_raised_run kv a k s :
  store_ok kv →
  ∃ s', download_raised_targets (COMM_SEQ_MAX a) (RAISED_GIDS a) k (nraised kv a k) kv s = Some s' ∧
    ckpt_pending s' = ckpt_pending s ∧ raised_clocks s' = raised_clocks s ∧
    added_clock s' = added_clock s ∧
    ∀ g c', clocks s' !! g = Some c' → ∃ c, clocks s !! g = Some c ∧ clock_seq c' = clock_seq c ∧
      (c' = c ∨ clock_target c' = maxseq kv a g) ∧
      (in_list kv a k g → clock_target c' = maxseq kv a g).
Proof.
  intros Hok. unfold download_raised_targets.
  assert (∀ g c, clock_seq (download_clock (COMM_SEQ_MAX a) kv g c) = clock_seq c ∧
    (download_clock (COMM_SEQ_MAX a) kv g c = c ∨
     clock_target (download_clock (COMM_SEQ_MAX a) kv g c) = maxseq kv a g)) as Hdc.
  { intros g c. unfold download_clock, maxseq. destruct (get64 _ _ kv); simpl; auto. }
  assert (∀ g c, in_list kv a k g →
    clock_target (download_clock (COMM_SEQ_MAX a) kv g c) = maxseq kv a g) as Hin.
  { intros g c (i & Hi & Hg). destruct (so_list _ Hok a k i Hi) as (g' & Hg' & m & Hm).
    simplify_eq. unfold download_clock, maxseq. by rewrite Hm. }
  destruct (Z.leb_spec (Z.of_nat (size (clocks s))) (nraised kv a k)).
  - eexists. split; [done|]. do 3 (split; [done|]). intros g c'. rewrite clocks_download.
    destruct (clocks s !! g) as [c|]; [|done]. intros [= <-]. exists c.
    destruct (Hdc g c). eauto.
  - destruct (download_loop_spec (COMM_SEQ_MAX a) (RAISED_GIDS a) k kv (Z.to_nat (nraised kv a k)) 0 ∅
      (clocks s)) as (cl & -> & H1 & H2).
    + intros i Hi. pose proof (so_raised _ Hok a k). apply (so_list _ Hok). lia.
    + set_solver.
    + eexists. split; [done|]. do 3 (split; [done|]). cbn [clocks set_field]. intros g c' Hc'.
      destruct (H1 g) as [E|E]; rewrite Hc' in E.
      * exists c'. split_and!; [done|done|by left|]. intros Hl.
        pose proof (so_raised _ Hok a k). rewrite (H2 g) in Hc'.
        -- rewrite <- E in Hc'. simplify_eq/=. rewrite <- Hc' at 1. by apply Hin.
        -- destruct Hl as (i & Hi & Hg). exists i. split; [lia|done].
      * destruct (clocks s !! g) as [c|]; [|done]. simplify_eq/=. exists c. destruct (Hdc g c). eauto.
Qed.

(** What a round's end does. *)
Lemma decide_round_inv j p pr k :
  drain_inv j → procs j !! p = Some pr → stage pr = Waiting k →
  all_arrived j (attempt pr) (3 + 2 * k) →
  let a := attempt pr in let kv := store j in
  (succeeds kv a k ∧ decide_round N k pr kv = Some (pr <| stage := Drained k |>)) ∨
  (¬ succeeds kv a k ∧ ∃ s', 
     (if 0 <? nraised kv a k
      then download_raised_targets (COMM_SEQ_MAX a) (RAISED_GIDS a) k (nraised kv a k) kv (sq pr) = Some s'
      else s' = sq pr) ∧
     decide_round N k pr kv = Some (
       if (rounds_before kv a (S k) <? MAX_DRAIN_ROUNDS)%nat
       then mk_proc s' a (Round (S k)) (rounds_before kv a (S k))
       else mk_proc (s' <| ckpt_pending := false |>) (S a) Running (rounds_before kv a (S k)))).
Proof.
  intros Hinv Hp Hk Hall a kv.
  destruct (di_proc j Hinv p pr Hp) as [_ Hround _ _ Hwait _].
  destruct (Hwait k Hk) as (_ & [nc Hnc] & [ics Hics] & [nr Hnr]).
  rewrite Hk in Hround. destruct (Hround k eq_refl) as (_ & _ & Hrwr). fold a kv in Hrwr.
  assert (converge kv a k = nc ∧ incs kv a k = ics ∧ nraised kv a k = nr) as (E1 & E2 & E3).
  { unfold converge, incs, nraised, a, kv. by rewrite Hnc, Hics, Hnr. }
  fold a kv in Hnc, Hics, Hnr. unfold decide_round. fold a. rewrite Hnc, Hics, Hnr. simpl mbind. rewrite <- E1, <- E2, <- E3.
  pose proof (so_raised _ (di_store _ Hinv) a k) as Hr0. fold kv in Hr0.
  assert ((incs kv a k =? 0) && (converge kv a k =? N) && (nraised kv a k =? 0) = true ↔
    succeeds kv a k) as Hsucc.
  { unfold succeeds. rewrite !andb_true_iff, !Z.eqb_eq. tauto. }
  destruct (_ && _ && _); [left; by split; [apply Hsucc|]|right].
  split; [intros ?%Hsucc; done|]. cbn [rounds_before].
  destruct (Z.ltb_spec 0 (nraised kv a k)).
  - destruct (download_raised_run kv a k (sq pr) (di_store _ Hinv)) as (s' & Hs' & _).
    exists s'. split; [done|]. rewrite Hs'. done.
  - exists (sq pr). split; [done|]. rewrite <- Hrwr. simpl mbind.
    change (rounds_without_raise (pr <| rounds_without_raise ::= S |>)) with (S (rounds_without_raise pr)).
    by destruct (_ <? _)%nat.
Qed.

Lemma arrived_next k j a pr pr' :
  stage pr = Waiting k → attempt pr = a →
  (attempt pr' = a ∧ (3 + 2 * k ≤ idx (stage pr'))%nat) ∨ (attempt pr' = S a) →
  ∀ a' i, arrived a' i pr → arrived a' i pr'.
Proof.
  intros Hk <- Hn a' i [Hlt|[Ha Hi]]; unfold arrived; [left; lia|].
  rewrite Hk in Hi. simpl in Hi. destruct Hn as [[? ?]|?]; [right|left]; lia.
Qed.

(** A process that goes on to the next round has its targets up to date. *)
Lemma next_round_data kv a k s s' :
  store_ok kv → data_ok kv a (Waiting k) s →
  (if 0 <? nraised kv a k
   then download_raised_targets (COMM_SEQ_MAX a) (RAISED_GIDS a) k (nraised kv a k) kv s = Some s'
   else s' = s) →
  data_ok kv a (Round (S k)) s'.
Proof.
  intros Hok (Hpos & Hsh & Hrd & _) Hs'. destruct (Hsh ltac:(done)) as [Hp Hs].
  destruct (Hrd k eq_refl) as [Hsound Hfresh].
  assert (ckpt_pending s' = true ∧ raised_clocks s' = raised_clocks s ∧ added_clock s' = added_clock s ∧
    ∀ g c', clocks s' !! g = Some c' → ∃ c, clocks s !! g = Some c ∧ clock_seq c' = clock_seq c ∧
      (c' = c ∨ clock_target c' = maxseq kv a g) ∧
      (in_list kv a k g → clock_target c' = maxseq kv a g)) as (Hp' & Er & Ea & Hc).
  { destruct (Z.ltb_spec 0 (nraised kv a k)).
    - destruct (download_raised_run kv a k s Hok) as (s2 & Hs2 & E1 & E2 & E3 & E4).
      simplify_eq. by rewrite E1.
    - subst s'. split_and!; [done..|]. intros g c Hg. exists c. split_and!; [done|done|by left|].
      intros (i & Hi & _). lia. }
  split_and!; [| |intros k' [= <-]|done].
  - intros g c' Hg'. destruct (Hc g c' Hg') as (c & Hg & E & Ht & _). destruct (Hpos g c Hg).
    split; [lia|]. destruct Ht as [->| ->]; [done|by apply so_max].
  - intros _. split; [done|]. intros g c' Hg' Hgt. destruct (Hc g c' Hg') as (c & Hg & E & _).
    rewrite E, Er. by apply Hs.
  - split; intros g c' Hg'; destruct (Hc g c' Hg') as (c & Hg & E & Ht & Hl).
    + intros Hgt. destruct Ht as [->| ->]; [rewrite Er; by apply Hsound|by left].
    + unfold target_fresh. rewrite Ea. destruct Ht as [->| ->]; [|by left].
      destruct (Hfresh g c Hg) as [?|[?|[Hin|?]]]; [by left|by right; left| |by right; right; left].
      left. specialize (Hl Hin). lia.
Qed.

Lemma inv_decide j p pr k pr' :
  drain_inv j → procs j !! p = Some pr → stage pr = Waiting k →
  all_arrived j (attempt pr) (3 + 2 * k) → decide_round N k pr (store j) = Some pr' →
  drain_inv (mk_job (<[p := pr']> (procs j)) (store j)).
Proof.
  intros Hinv Hp Hk Hall Hdec.
  pose proof (decide_round_inv j p pr k Hinv Hp Hk Hall) as Hcases. cbv zeta in Hcases.
  destruct (di_proc j Hinv p pr Hp) as [Hdata Hround Hpast _ Hwait _]. rewrite Hk in Hdata, Hround.
  destruct (Hround k eq_refl) as (Harr & Hbefore & _).
  assert (∀ a' i, arrived a' i pr → arrived a' i pr') as Hmono.
  { eapply (arrived_next k j); [done|done|].
    destruct Hcases as [[_ E]|(_ & s' & _ & E)]; rewrite E in Hdec; injection Hdec as <-.
    - left. split; [done|simpl; lia].
    - destruct (_ <? _)%nat; [left; split; [done|simpl; lia]|by right]. }
  assert (evolves j (mk_job (<[p := pr']> (procs j)) (store j))) as Hev.
  { by eapply evolves_same_counters. }
  eapply drain_inv_step; [done|done|done|by apply Hinv|by intros; apply Hinv|by left|done|..].
  { intros q prq _ Hq. by eapply other_data. }
  destruct Hcases as [[Hs E]|(Hs & s' & Hs' & E)]; rewrite E in Hdec.
  - injection Hdec as <-. split; cbn [sq attempt stage rounds_without_raise set_field store]; try done.
    + by eapply data_ok_stage; [..|exact Hdata].
    + intros k' [= <-]. apply (ev_round _ _ _ _ _ Hev). by apply Hround.
    + intros a' Ha. apply (ev_past _ _ _ Hev), (Hpast _ Ha).
    + intros k' [= <-]. split; [|split; [by apply (ev_arrived _ _ Hev)|done]].
      destruct (Hwait k Hk) as ([Hlt|[Hn|Hf]] & _); [|by destruct Hs|done].
      rewrite posted_all, (di_len _ Hinv) in Hlt by done. destruct Hs as (_ & Hc & _). lia.
  - destruct (Nat.ltb_spec (rounds_before (store j) (attempt pr) (S k)) MAX_DRAIN_ROUNDS) as [Hlt|Hge];
      apply (inj Some) in Hdec; subst pr'; (split; cbn [sq attempt stage rounds_without_raise store]; try done).
    + eapply next_round_data; [by apply Hinv|exact Hdata|exact Hs'].
    + intros k' Hk'. simpl in Hk'. injection Hk' as <-.
      apply (ev_round _ _ _ _ _ Hev). split; [done|]. split; [|done].
      intros i Hi. destruct (decide (i = k)) as [->|]; [by split|]. apply Hbefore. lia.
    + intros a' Ha. apply (ev_past _ _ _ Hev), (Hpast _ Ha).
    + assert (data_ok (store j) (attempt pr) (Round (S k)) s') as (Hpos & _).
      { eapply next_round_data; [by apply Hinv|exact Hdata|exact Hs']. }
      by split_and!.
    + intros a' Ha. apply (ev_past _ _ _ Hev). destruct (decide (a' = attempt pr)) as [->|].
      * exists k. split_and!; [done|split; [done|lia]|]. intros i Hi. by apply Hbefore.
      * apply Hpast. lia.
Qed.

(** ** Every reachable job *)

Lemma inv_step j j' : drain_inv j → job_step N comm_size j j' → drain_inv j'.
Proof.
  intros Hinv [].
  - by eapply inv_app.
  - by eapply inv_attempt.
  - by eapply inv_share.
  - by eapply inv_round.
  - by eapply inv_post.
  - by eapply inv_decide.
Qed.

Lemma inv_initial j : initial N j → drain_inv j.
Proof.
  intros [Hlen Hprocs Hstore].
  assert (∀ a k, converge (store j) a k = 0 ∧ nraised (store j) a k = 0) as Hz.
  { intros a k. unfold converge, nraised. destruct (Hstore a (round_key k)) as (_ & _ & E1 & E2 & _).
    by rewrite E1, E2. }
  split; [done|..].
  - split.
    + intros a g. unfold maxseq. by destruct (Hstore a (gid_key g)) as (-> & _).
    + intros a k. by destruct (Hz a k) as [_ ->].
    + intros a k i. destruct (Hz a k) as [_ ->]. lia.
  - intros a k. destruct (Hz a k) as [-> _]. unfold posted. lia.
  - intros a k. destruct (Hz a k) as [_ ->]. lia.
  - intros p pr Hp. destruct (Hprocs p pr Hp) as (Ha & Hs & Hpos).
    split; rewrite ?Hs, ?Ha; try done. intros a. lia.
Qed.

Lemma inv_reachable j0 j : initial N j0 → reachable N comm_size j0 j → drain_inv j.
Proof. intros Hi. induction 1; [by apply inv_initial|by eapply inv_step]. Qed.
End drain_inv.
