(* ===== verification/CollectiveDrainSpec.v ===== *)
(** * What the collective drain guarantees

    The theorems about [drain_mpi_collective()], and an executable scheduler
    ([run_events]) with which concrete runs of a job are computed. *)
From S2P Require Import Prelude Mpi Kvdb SeqNum CollectiveDrain CollectiveDrainInv.

Section drain_spec.
Context `{KvdbLaws K} (N : Z) (comm_size : Z → Z).
Implicit Types (j : job (K := K)).

(** When one process has drained, every process is at the end of that round. *)
Lemma drained_together j p pr k q prq :
  drain_inv N comm_size j → procs j !! p = Some pr → stage pr = Drained k →
  procs j !! q = Some prq →
  attempt prq = attempt pr ∧ (stage prq = Waiting k ∨ stage prq = Drained k) ∧ frozen (sq prq).
Proof.
  intros Hinv Hp Hk Hq.
  destruct (po_drained _ _ _ _ (di_proc _ _ _ Hinv p pr Hp) k Hk) as (_ & Hall & Hs).
  pose proof (di_proc _ _ _ Hinv q prq Hq) as Hok.
  pose proof (all_arrived_lookup _ _ _ _ _ Hall Hq) as Hpos.
  assert (attempt prq = attempt pr) as Ha.
  { destruct Hpos as [Hlt|[? _]]; [|done]. exfalso.
    destruct (po_past _ _ _ _ Hok _ Hlt) as (kf & Hallf & [Hns Hmax] & _).
    pose proof (all_arrived_lookup _ _ _ _ _ Hallf Hp) as [?|[_ Hi]]; [lia|].
    rewrite Hk in Hi. simpl in Hi.
    destruct (decide (kf = k)) as [->|Hne]; [done|].
    destruct (po_round _ _ _ _ (di_proc _ _ _ Hinv p pr Hp) k) as (_ & Hb & _); [by rewrite Hk|].
    destruct (Hb kf) as [_ [_ Hlt']]; [lia|done]. }
  assert (stage prq = Waiting k ∨ stage prq = Drained k) as Hst.
  { destruct Hpos as [?|[_ Hi]]; [lia|].
    assert (∀ k', round_of (stage prq) = Some k' → (k' ≤ k)%nat) as Hle.
    { intros k' Hk'. destruct (decide (k < k')%nat); [|lia].
      destruct (po_round _ _ _ _ Hok k' Hk') as (_ & Hb & _). destruct (Hb k) as [_ [Hns _]]; [done|].
      by rewrite Ha in Hns. }
    destruct (stage prq) as [| |k'|k' ? ?|k'|k']; simpl in Hi; try lia;
      specialize (Hle k' eq_refl); first [lia | replace k' with k by lia; auto]. }
  split; [done|]. split; [done|]. destruct Hst as [Hst|Hst].
  - destruct (po_waiting _ _ _ _ Hok k Hst) as ([Hlt|[Hn|Hf]] & _); [| |done]; rewrite Ha in *.
    + rewrite posted_all, (di_len _ _ _ Hinv) in Hlt by done. destruct Hs as (_ & Hc & _). lia.
    + by destruct Hs.
  - by apply (po_drained _ _ _ _ Hok k Hst).
Qed.

(** A process at the end of the drain has reached the KVDB's maximum. *)
Lemma drained_at_max j p pr k q prq g c :
  drain_inv N comm_size j → procs j !! p = Some pr → stage pr = Drained k →
  procs j !! q = Some prq → clocks (sq prq) !! g = Some c → 1 < comm_size g →
  clock_seq c = maxseq (store j) (attempt pr) g.
Proof.
  intros Hinv Hp Hk Hq Hg Hgt.
  destruct (drained_together j p pr k q prq Hinv Hp Hk Hq) as (Ha & Hst & Hfr).
  destruct (po_drained _ _ _ _ (di_proc _ _ _ Hinv p pr Hp) k Hk) as (_ & _ & _ & _ & Hnr).
  destruct Hfr as (_ & Hcheck & _ & Hadd & Hraised).
  destruct (po_data _ _ _ _ (di_proc _ _ _ Hinv q prq Hq)) as (_ & Hsh & Hrd & _).
  assert (round_of (stage prq) = Some k) as Hrk by (destruct Hst as [-> | ->]; done).
  destruct (Hrd k Hrk) as [_ Hfresh]. destruct Hsh as [_ Hs]; [by intros E; rewrite E in Hrk|].
  rewrite Ha in *.
  assert (clock_seq c ≤ maxseq (store j) (attempt pr) g) as H1.
  { destruct (Hs g c Hg Hgt) as [?|Hin]; [done|]. rewrite Hraised in Hin. by apply not_elem_of_nil in Hin. }
  assert (maxseq (store j) (attempt pr) g ≤ clock_target c) as H2.
  { destruct (Hfresh g c Hg) as [?|[?|[(i & Hi & _)|(i & Hi & _)]]]; [done|congruence|lia|].
    destruct (di_raised _ _ _ Hinv (attempt pr) (S k)) as (p' & pr' & Hp' & Harr); [lia|].
    destruct (drained_together j p pr k p' pr' Hinv Hp Hk Hp') as (Ha' & Hst' & _).
    destruct Harr as [?|[_ Hi']]; [lia|]. destruct Hst' as [E|E]; rewrite E in Hi'; simpl in Hi'; lia. }
  pose proof (proj1 (check_seq_nums_spec _) Hcheck g c Hg). lia.
Qed.

(** C2. The drain is safe.  Once [drain_mpi_collective()] returns on one
    process of a job, every process has ended the same round of the same
    attempt; none is in a critical section, none can start a collective call,
    and any two processes that have the clock of a communicator have made the
    same number of collective calls on it.  So no collective call has started
    on only some of its members.  This holds in every reachable state, however
    the threads and processes interleave, with communicators made and freed
    during the drain and attempts that failed before. *)
Theorem collective_drain_safe j0 j p pr k :
  initial N j0 → reachable N comm_size j0 j → procs j !! p = Some pr → stage pr = Drained k →
  ∀ q prq, procs j !! q = Some prq →
    attempt prq = attempt pr ∧ (stage prq = Waiting k ∨ stage prq = Drained k) ∧
    current_phase (sq prq) = IS_READY ∧
    (∀ desc, begin_critical_section desc (sq prq) = None) ∧
    ∀ g c c', clocks (sq pr) !! g = Some c → clocks (sq prq) !! g = Some c' → 1 < comm_size g →
      clock_seq c = clock_seq c'.
Proof.
  intros Hi Hr Hp Hk q prq Hq. pose proof (inv_reachable N comm_size j0 j Hi Hr) as Hinv.
  destruct (drained_together j p pr k q prq Hinv Hp Hk Hq) as (Ha & Hst & Hfr).
  split_and!; [done|done|apply Hfr|..].
  - intros desc. unfold begin_critical_section. by rewrite must_wait_frozen.
  - intros g c c' Hc Hc' Hgt.
    rewrite (drained_at_max j p pr k p pr g c Hinv Hp Hk Hp Hc Hgt).
    by rewrite (drained_at_max j p pr k q prq g c' Hinv Hp Hk Hq Hc' Hgt).
Qed.

(** C32. No assertion of a round fails: when the processes have passed the
    barrier of a round, its counters are in the KVDB, so are all entries of the
    list of raised gids and the sequence numbers of its clocks, and the process
    ends the drain, goes on with the next round, or gives up the attempt. *)
Theorem drain_round_total j0 j p pr k :
  initial N j0 → reachable N comm_size j0 j → procs j !! p = Some pr → stage pr = Waiting k →
  all_arrived j (attempt pr) (3 + 2 * k) →
  ∃ pr', decide_round N k pr (store j) = Some pr' ∧
    ((stage pr' = Drained k ∧ attempt pr' = attempt pr) ∨
     (stage pr' = Round (S k) ∧ attempt pr' = attempt pr ∧
        (rounds_without_raise pr' < MAX_DRAIN_ROUNDS)%nat) ∨
     (stage pr' = Running ∧ attempt pr' = S (attempt pr) ∧ ckpt_pending (sq pr') = false)).
Proof.
  intros Hi Hr Hp Hk Hall. pose proof (inv_reachable N comm_size j0 j Hi Hr) as Hinv.
  pose proof (decide_round_inv N comm_size j p pr k Hinv Hp Hk Hall) as Hcases. cbv zeta in Hcases.
  destruct Hcases as [[_ ->]|(_ & s' & _ & ->)]; eexists; (split; [done|]); [by left|right].
  destruct (Nat.ltb_spec (rounds_before (store j) (attempt pr) (S k)) MAX_DRAIN_ROUNDS); [left|right];
    by split_and!.
Qed.

(** ** A scheduler *)

Inductive event :=
  | EBegin (p : nat) (gid : Z)
  | EReady (p : nat)
  | EAdd (p : nat) (gid : Z)
  | EAttempt (p : nat)
  | EShare (p : nat)
  | ERound (p : nat)
  | EPost (p : nat)
  | EDecide (p : nat).

Definition put (p : nat) (pr : proc) (kv : K) j : job := mk_job (<[p := pr]> (procs j)) kv.

#[local] Instance all_arrived_dec j a i : Decision (all_arrived j a i).
Proof. unfold all_arrived. apply _. Defined.

Definition run_event (e : event) j : option job :=
  match e with
  | EBegin p gid =>
      pr ← procs j !! p;
      guard (stage pr ≠ Sharing);;
      guard (clock_seq (default (mk_clock 0 0) (clocks (sq pr) !! gid)) + 1 < 2 ^ 63);;
      match begin_critical_section (Some (gid, comm_size gid)) (sq pr) with
      | Some (Ok _ s) => Some (put p (pr <| sq := s |>) (store j) j)
      | _ => None
      end
  | EReady p => pr ← procs j !! p; Some (put p (pr <| sq := commit_ready (sq pr) |>) (store j) j)
  | EAdd p gid =>
      pr ← procs j !! p;
      guard (stage pr ≠ Sharing);;
      guard (current_phase (sq pr) = IN_CS);;
      match add_comm_clock gid (sq pr) with
      | Ok _ s => Some (put p (pr <| sq := s |>) (store j) j)
      | _ => None
      end
  | EAttempt p =>
      pr ← procs j !! p;
      guard (stage pr = Running);;
      let '(pr', kv) := start_attempt pr (store j) in Some (put p pr' kv j)
  | EShare p =>
      pr ← procs j !! p;
      guard (stage pr = Sharing);;
      guard (all_arrived j (attempt pr) 1);;
      Some (put p (finish_share pr (store j)) (store j) j)
  | ERound p =>
      pr ← procs j !! p;
      match stage pr with
      | Round k => let '(pr', kv) := round_section k pr (store j) in Some (put p pr' kv j)
      | _ => None
      end
  | EPost p =>
      pr ← procs j !! p;
      match stage pr with
      | Sampled k r c => let '(pr', kv) := post_sample k r c pr (store j) in Some (put p pr' kv j)
      | _ => None
      end
  | EDecide p =>
      pr ← procs j !! p;
      match stage pr with
      | Waiting k =>
          guard (all_arrived j (attempt pr) (3 + 2 * k));;
          pr' ← decide_round N k pr (store j); Some (put p pr' (store j) j)
      | _ => None
      end
  end.

Definition run_events (es : list event) j : option job :=
  foldl (λ oj e, oj ≫= run_event e) (Some j) es.

Lemma run_event_sound e j j' : run_event e j = Some j' → job_step N comm_size j j'.
Proof.
  destruct e as [p gid|p|p gid|p|p|p|p|p]; simpl; intros Hr;
    destruct (procs j !! p) as [pr|] eqn:Hp; simpl in Hr; try done; unfold put in Hr.
  - repeat case_guard; simpl in Hr; try done.
    destruct (begin_critical_section _ _) as [[[] s| |]|] eqn:Hb; simplify_eq.
    apply (step_app N comm_size j p pr s true); [done|done|].
    eapply app_begin; [done|]. intros g size [= <- <-]. split; [done|].
    intros c Hc. rewrite Hc in *. done.
  - simplify_eq. apply (step_app N comm_size j p pr _ false); [done|done|constructor].
  - repeat case_guard; simpl in Hr; try done.
    destruct (add_comm_clock _ _) as [[] s| |] eqn:Ha; simplify_eq.
    apply (step_app N comm_size j p pr s true); [done|done|by eapply app_add].
  - case_guard; simpl in Hr; [|done]. destruct (start_attempt pr (store j)) as [pr' kv] eqn:E.
    simplify_eq. by eapply step_attempt.
  - repeat case_guard; simpl in Hr; try done. simplify_eq. by apply step_share.
  - destruct (stage pr) eqn:Est; try done.
    destruct (round_section k pr (store j)) as [pr' kv] eqn:E. simplify_eq. by eapply step_round.
  - destruct (stage pr) eqn:Est; try done.
    destruct (post_sample k target_reached cs pr (store j)) as [pr' kv] eqn:E. simplify_eq.
    by eapply step_post.
  - destruct (stage pr) eqn:Est; try done. case_guard; simpl in Hr; [|done].
    destruct (decide_round N k pr (store j)) as [pr'|] eqn:E; simpl in Hr; [|done].
    simplify_eq. by eapply step_decide.
Qed.

Lemma run_events_sound es j0 j j' :
  reachable N comm_size j0 j → run_events es j = Some j' → reachable N comm_size j0 j'.
Proof.
  unfold run_events. revert j. induction es as [|e es IH]; intros j Hr; simpl; [by intros [= <-]|].
  destruct (run_event e j) as [j1|] eqn:E.
  - apply IH. eapply reach_step; [done|]. by apply run_event_sound in E.
  - clear. induction es; simpl; [done|]. intros ?. by apply IHes.
Qed.

End drain_spec.

(** ** A run of a job with two processes

    Both are members of the communicators 7 and 9.  The first process has made
    one more call on 7.  The second one passes its target on 9 during the drain
    before it catches up on 7, so a second round is needed. *)

Definition sample_size (gid : Z) : Z := 2.
Definition sample_proc (seq7 : Z) : proc :=
  mk_proc (mk_seq false IS_READY {[7 := mk_clock seq7 0; 9 := mk_clock 1 0]} [] false 0) 0 Running 0.
Definition sample_job : job (K := assoc_kvdb) := mk_job [sample_proc 3; sample_proc 2] [].
Definition sample_events : list event :=
  [EAttempt 0; EAttempt 1; EShare 1; EShare 0; EBegin 1 9; EReady 1;
   ERound 0; ERound 1; EPost 1; EPost 0; EDecide 0; EDecide 1;
   EBegin 0 9; EBegin 1 7; EReady 0; EReady 1;
   ERound 1; ERound 0; EPost 0; EPost 1]%nat.

Lemma sample_initial : initial 2 sample_job.
Proof.
  split; [done| |done]. intros p pr Hp.
  assert (∃ s, pr = sample_proc s ∧ 0 ≤ s) as (s & -> & Hs).
  { destruct p as [|[|]]; simpl in Hp; simplify_eq; eexists; (split; [done|lia]). }
  split_and!; [done..|]. intros g c Hc. cbn in Hc.
  apply lookup_insert_Some in Hc as [[<- <-]|[_ Hc]]; [simpl; lia|].
  apply lookup_singleton_Some in Hc as [<- <-]. simpl. lia.
Qed.

(** The clock numbers of a process. *)
Definition seqs (pr : proc) : list (Z * Z) :=
  (λ x : Z * comm_clock, (x.1, clock_seq x.2)) <$> map_to_list (clocks (sq pr)).

Lemma sample_drains :
  ∃ j, run_events 2 sample_size (sample_events ++ [EDecide 0%nat]) sample_job = Some j ∧
    (stage <$> procs j) = [Drained 1; Waiting 1] ∧
    (seqs <$> procs j) = [[(7, 3); (9, 2)]; [(7, 3); (9, 2)]].
Proof. eexists. split; [vm_compute; reflexivity|]. split; vm_compute; reflexivity. Qed.

Lemma collective_drain_safe_witness :
  ∃ j pr prq, reachable 2 sample_size sample_job j ∧ procs j !! 0%nat = Some pr ∧
    procs j !! 1%nat = Some prq ∧ stage pr = Drained 1 ∧ current_phase (sq prq) = IS_READY ∧
    begin_critical_section None (sq prq) = None.
Proof.
  destruct sample_drains as (j & Hrun & Hst & _).
  assert (reachable 2 sample_size sample_job j) as Hr.
  { eapply run_events_sound; [apply reach_refl|exact Hrun]. }
  destruct (procs j) as [|pr [|prq [|]]] eqn:Hp; try discriminate Hst.
  injection Hst as Hst0 Hst1.
  assert (procs j !! 0%nat = Some pr) as Hp0 by (rewrite Hp; reflexivity).
  assert (procs j !! 1%nat = Some prq) as Hp1 by (rewrite Hp; reflexivity).
  destruct (collective_drain_safe 2 sample_size sample_job j 0 pr 1 sample_initial Hr Hp0 Hst0 1%nat prq Hp1)
    as (_ & _ & Hph & Hb & _).
  exists j, pr, prq. exact (conj Hr (conj Hp0 (conj Hp1 (conj Hst0 (conj Hph (Hb None)))))).
Defined.

Lemma drain_round_total_witness :
  ∃ j pr pr', reachable 2 sample_size sample_job j ∧ procs j !! 0%nat = Some pr ∧
    decide_round 2 1 pr (store j) = Some pr'.
Proof.
  assert (∃ j, run_events 2 sample_size sample_events sample_job = Some j ∧
    (stage <$> procs j) = [Waiting 1; Waiting 1] ∧ (attempt <$> procs j) = [0; 0]%nat)
    as (j & Hrun & Hst & Hat).
  { eexists. split; [vm_compute; reflexivity|]. split; vm_compute; reflexivity. }
  assert (reachable 2 sample_size sample_job j) as Hr.
  { eapply run_events_sound; [apply reach_refl|exact Hrun]. }
  destruct (procs j) as [|pr [|prq [|]]] eqn:Hp; try discriminate Hst.
  injection Hst as Hst0 Hst1. injection Hat as Hat0 Hat1.
  assert (procs j !! 0%nat = Some pr) as Hp0 by (rewrite Hp; reflexivity).
  destruct (drain_round_total 2 sample_size sample_job j 0 pr 1 sample_initial Hr Hp0 Hst0)
    as (pr' & Hd & _).
  - unfold all_arrived. rewrite Hp, Hat0.
    constructor; [right; split; [done|by rewrite Hst0]|].
    constructor; [right; split; [done|by rewrite Hst1]|constructor].
  - exists j, pr, pr'. exact (conj Hr (conj Hp0 Hd)).
Defined.
