(* ===== verification/MemArena.v ===== *)
(** * The upper half's memory arena ([src/src/lower-half/mem-wrapper.cpp])

    The lower half's wrappers of [mmap], [munmap] and [mremap] keep two lists
    of address ranges, the upper half's mappings and the arena's free ranges.
    This file models the operations on these lists and proves that they
    implement union and difference of sets of addresses, and that
    [next_free_addr] is a first fit.  [ArenaWrappers] models the wrappers.

    An address is a [Z].  A block ends inside the address space (a pointer past
    it is undefined in C++), so only the sums that the code computes in
    [size_t] wrap. *)
From S2P Require Import Prelude.

Record MmapInfo_t := mk_block { b_addr : Z; b_len : Z }.
#[export] Instance block_eq_dec : EqDecision MmapInfo_t.
Proof. solve_decision. Defined.

Definition b_end (b : MmapInfo_t) : Z := b_addr b + b_len b.

(** ** Operations on lists of blocks *)

Definition mem_compare (a b : MmapInfo_t) : bool := b_addr a <? b_addr b.

Definition addr_le (a b : MmapInfo_t) : Prop := b_addr a ≤ b_addr b.
#[export] Instance addr_le_dec : RelDecision addr_le.
Proof. intros a b. unfold addr_le. apply _. Defined.

(** [std::sort(blocks.begin(), blocks.end(), mem_compare)]. *)
Definition sort_blocks (l : list MmapInfo_t) : list MmapInfo_t := merge_sort addr_le l.

(** The loop of [merge_overlap_blocks()]: the merged block and the blocks that
    stay in the vector. *)
Fixpoint merge_loop (merged : MmapInfo_t) (blocks : list MmapInfo_t)
  : MmapInfo_t * list MmapInfo_t :=
  match blocks with
  | [] => (merged, [])
  | b :: rest =>
      if b_end b <? b_addr merged then
        let '(m, kept) := merge_loop merged rest in (m, b :: kept)
      else if b_end merged <? b_addr b then (merged, blocks)
      else
        let min_start := if b_addr b <? b_addr merged then b_addr b else b_addr merged in
        let max_end := if b_end merged <? b_end b then b_end b else b_end merged in
        merge_loop (mk_block min_start (max_end - min_start)) rest
  end.

Definition merge_overlap_blocks (new_block : MmapInfo_t) (blocks : list MmapInfo_t)
  : list MmapInfo_t :=
  let '(merged, kept) := merge_loop new_block blocks in sort_blocks (kept ++ [merged]).

(** [if (len > 0) blocks.push_back(...)]. *)
Definition push_block (addr len : Z) : list MmapInfo_t :=
  if 0 <? len then [mk_block addr len] else [].

(** The loop of [remove_overlap_blocks()]: the blocks that stay in the vector,
    and those pushed to its end, which the loop does not visit.  [old_it] is
    the block of the previous iteration; [None] is the endless loop of
    "loop detected". *)
Fixpoint remove_loop (new_block : MmapInfo_t) (old_start old_end : Z) (blocks pushed : list MmapInfo_t)
  : option (list MmapInfo_t * list MmapInfo_t) :=
  match blocks with
  | [] => Some ([], pushed)
  | b :: rest =>
      if (b_addr b =? 0) || ((b_addr b =? old_start) && (b_end b =? old_end)) then None
      else if b_end b <=? b_addr new_block then
        '(kept, pushed') ← remove_loop new_block (b_addr b) (b_end b) rest pushed;
        Some (b :: kept, pushed')
      else if b_end new_block <=? b_addr b then Some (blocks, pushed)
      else
        let front := push_block (b_addr b) (b_len b - (b_end b - b_addr new_block)) in
        let back := push_block (b_end new_block) (b_end b - b_end new_block) in
        remove_loop new_block (b_addr b) (b_end b) rest (pushed ++
          (if b_addr b <? b_addr new_block then
             if (b_addr new_block <? b_end b) && (b_end b <? b_end new_block) then front
             else front ++ back
           else if b_end new_block <? b_end b then back
           else []))
  end.

Definition remove_overlap_blocks (new_block : MmapInfo_t) (blocks : list MmapInfo_t)
  : option (list MmapInfo_t) :=
  '(kept, pushed) ← remove_loop new_block 0 0 blocks [];
  Some (sort_blocks (kept ++ pushed)).

(** ** First fit *)

Definition PAGE_SIZE : Z := 0x1000.

(** [((unsigned long)(addr) + size - 1) & ~(size - 1)]. *)
Definition ROUND_UP (addr size : Z) : Z :=
  Z.land (u64 (addr + size - 1)) (u64 (Z.lnot (size - 1))).

Definition fit_align_mask (addr : Z) : Z :=
  let align_mask := PAGE_SIZE - 1 in
  if addr =? 0 then align_mask else
  let hint_align := Z.land addr (u64 (- addr)) in
  if (PAGE_SIZE <? hint_align) && (hint_align <=? Z.shiftl 1 21)
  then Z.lor align_mask (hint_align - 1) else align_mask.

Fixpoint first_fit (align length : Z) (free_blocks : list MmapInfo_t) : option Z :=
  match free_blocks with
  | [] => None
  | it :: rest =>
      let aligned := ROUND_UP (b_addr it) align in
      if u64 (u64 (aligned - b_addr it) + length) <=? b_len it then Some aligned
      else first_fit align length rest
  end.

(** [None] is NULL. *)
Definition next_free_addr (addr length : Z) (free_blocks : list MmapInfo_t) : option Z :=
  first_fit (fit_align_mask addr + 1) length free_blocks.

(** Whether the range is in one of the free blocks. *)
Definition is_free_range (addr len : Z) (free_blocks : list MmapInfo_t) : bool :=
  existsb (λ b, (b_addr b <=? addr) && (addr + len <=? b_end b)) free_blocks.

(** ** Blocks as sets of addresses *)

Definition in_block (b : MmapInfo_t) (x : Z) : Prop := b_addr b ≤ x < b_end b.
Definition covers (l : list MmapInfo_t) (x : Z) : Prop := ∃ b, b ∈ l ∧ in_block b x.

(** The lists that the wrappers keep: positive blocks in ascending order that
    do not overlap. *)
Definition before (a b : MmapInfo_t) : Prop := b_end a ≤ b_addr b.
Definition block_pos (b : MmapInfo_t) : Prop := 0 < b_addr b ≤ 2 ^ 63 ∧ 0 < b_len b.
(** A range of the address space. *)
Definition is_range (b : MmapInfo_t) : Prop := 0 ≤ b_len b ∧ b_end b ≤ 2 ^ 63.
Definition blocks_ok (l : list MmapInfo_t) : Prop := StronglySorted before l ∧ Forall block_pos l.

(** Two blocks that do not overlap, in either order. *)
Definition apart (a b : MmapInfo_t) : Prop := before a b ∨ before b a.
#[export] Instance apart_sym : Symmetric apart.
Proof. intros a b [?|?]; [by right|by left]. Qed.

(** Pairwise, and so independent of the order of the list. *)
Inductive all_apart : list MmapInfo_t → Prop :=
  | all_apart_nil : all_apart []
  | all_apart_cons b l : Forall (apart b) l → all_apart l → all_apart (b :: l).

#[export] Instance all_apart_proper : Proper ((≡ₚ) ==> iff) all_apart.
Proof.
  assert (∀ l l', l ≡ₚ l' → all_apart l → all_apart l') as Hp; [|intros l l' E; split; apply Hp; done].
  induction 1 as [|b l l' E IH|a b l|l1 l2 l3 E1 IH1 E2 IH2]; intros Ha; [done|..|auto].
  - inversion_clear Ha. constructor; [by rewrite <- E|auto].
  - inversion_clear Ha as [|? ? H1 H2]. inversion_clear H2 as [|? ? H3 H4].
    apply Forall_cons in H1 as [H1 H1']. constructor; [constructor; [by symmetry|done]|by constructor].
Qed.

#[export] Instance covers_proper : Proper ((≡ₚ) ==> eq ==> iff) covers.
Proof. intros l l' E x _ <-. unfold covers. by setoid_rewrite E. Qed.

Lemma all_apart_app l k :
  all_apart (l ++ k) ↔ all_apart l ∧ all_apart k ∧ ∀ a b, a ∈ l → b ∈ k → apart a b.
Proof.
  induction l as [|x l IH]; simpl.
  - split; [intros; split_and!; [constructor|done|by intros ? ? []%not_elem_of_nil]|tauto].
  - split.
    + inversion_clear 1 as [|? ? H1 H2]. apply Forall_app in H1 as [H1 H1']. apply IH in H2 as (? & ? & ?).
      split_and!; [by constructor|done|]. intros a b [->|Ha]%elem_of_cons Hb; [|eauto].
      rewrite Forall_forall in H1'. by apply H1'.
    + intros (H1 & H2 & H3). inversion_clear H1 as [|? ? H4 H5]. constructor.
      * apply Forall_app. split; [done|]. apply Forall_forall. intros b Hb. apply H3; [left|done].
      * apply IH. split_and!; [done|done|]. intros a b Ha Hb. apply H3; [by right|done].
Qed.

Lemma sorted_apart l : StronglySorted before l → all_apart l.
Proof.
  induction 1 as [|b l Hs IH Hf]; constructor; [|done]. eapply Forall_impl; [done|]. by left.
Qed.

#[export] Instance addr_le_total : Total addr_le.
Proof. intros a b. unfold addr_le. lia. Qed.
#[export] Instance addr_le_trans : Transitive addr_le.
Proof. intros a b c. unfold addr_le. lia. Qed.

(** Sorting blocks that do not overlap puts them in order. *)
Lemma sort_blocks_ok l : all_apart l → Forall block_pos l → blocks_ok (sort_blocks l).
Proof.
  intros Ha Hp. pose proof (merge_sort_Permutation addr_le l) as E. fold (sort_blocks l) in E.
  rewrite <- E in Ha, Hp. split; [|done].
  pose proof (StronglySorted_merge_sort addr_le l) as Hs. fold (sort_blocks l) in Hs.
  clear E. induction Hs as [|b k Hs IH Hf]; [constructor|].
  inversion_clear Ha as [|? ? H1 H2]. apply Forall_cons in Hp as [Hb Hp].
  constructor; [by apply IH|]. rewrite Forall_forall in *. intros c Hc.
  specialize (Hf c Hc). specialize (Hp c Hc). specialize (H1 c Hc).
  unfold apart, before, addr_le, block_pos, b_end in *. lia.
Qed.

Lemma covers_sort l x : covers (sort_blocks l) x ↔ covers l x.
Proof. unfold sort_blocks. by rewrite merge_sort_Permutation. Qed.

Lemma covers_cons b l x : covers (b :: l) x ↔ in_block b x ∨ covers l x.
Proof.
  unfold covers. split.
  - intros (c & [->|Hc]%elem_of_cons & Hx); [by left|right; eauto].
  - intros [Hx|(c & Hc & Hx)]; [exists b; split; [left|done]|exists c; split; [by right|done]].
Qed.
Lemma covers_app l k x : covers (l ++ k) x ↔ covers l x ∨ covers k x.
Proof.
  unfold covers. setoid_rewrite elem_of_app. split.
  - intros (b & [?|?] & ?); [left|right]; eauto.
  - intros [(b & ? & ?)|(b & ? & ?)]; eauto.
Qed.
Lemma covers_nil x : ¬ covers [] x.
Proof. by intros (b & []%not_elem_of_nil & _). Qed.

(** ** Merging is union *)

Lemma in_merged b m x :
  block_pos b → block_pos m → b_addr m ≤ b_end b → b_addr b ≤ b_end m →
  let lo := if b_addr b <? b_addr m then b_addr b else b_addr m in
  let hi := if b_end m <? b_end b then b_end b else b_end m in
  let u := mk_block lo (hi - lo) in
  block_pos u ∧ b_addr u = Z.min (b_addr b) (b_addr m) ∧ b_end u = Z.max (b_end b) (b_end m) ∧
  (in_block u x ↔ in_block m x ∨ in_block b x).
Proof.
  unfold block_pos, in_block, b_end. intros. cbn.
  destruct (Z.ltb_spec (b_addr b) (b_addr m)), (Z.ltb_spec (b_addr m + b_len m) (b_addr b + b_len b));
    lia.
Qed.

Record merged_ok (m : MmapInfo_t) (l : list MmapInfo_t) (m' : MmapInfo_t) (kept : list MmapInfo_t)
  : Prop := {
  mo_pos : block_pos m';
  mo_sub : kept `sublist_of` l;
  mo_apart : ∀ b, b ∈ kept → apart b m';
  mo_low : ∀ y, y ≤ b_addr m → (∀ b, b ∈ l → y ≤ b_addr b) → y ≤ b_addr m';
  mo_covers : ∀ x, in_block m' x ∨ covers kept x ↔ in_block m x ∨ covers l x
}.

Lemma merge_loop_spec l : ∀ m m' kept,
  blocks_ok l → block_pos m → merge_loop m l = (m', kept) → merged_ok m l m' kept.
Proof.
  induction l as [|b l IH]; intros m m' kept [Hs Hp] Hm; cbn [merge_loop].
  { intros [= <- <-]. split; try done. by intros b []%not_elem_of_nil. }
  apply StronglySorted_inv in Hs as [Hs Hb]. apply Forall_cons in Hp as [Hpb Hp].
  rewrite Forall_forall in Hb. destruct (Z.ltb_spec (b_end b) (b_addr m)) as [H1|H1].
  - destruct (merge_loop m l) as [m1 kept1] eqn:E. intros [= <- <-].
    destruct (IH m m1 kept1 (conj Hs Hp) Hm E) as [Hpos Hsub Hap Hlow Hcov]. split.
    + done.
    + by constructor.
    + intros c [->|Hc]%elem_of_cons; [|auto]. left. apply Hlow; [lia|]. intros c Hc. by apply Hb.
    + intros y Hy Hall. apply Hlow; [done|]. intros c Hc. apply Hall. by right.
    + intros x. rewrite !covers_cons. specialize (Hcov x). tauto.
  - destruct (Z.ltb_spec (b_end m) (b_addr b)) as [H2|H2].
    + intros [= <- <-]. split; try done. intros c Hc. right. unfold before.
      apply elem_of_cons in Hc as [->|Hc]; [lia|]. specialize (Hb c Hc).
      unfold before, block_pos, b_end in *. lia.
    + cbv zeta. set (u := mk_block _ _). intros E.
      pose proof (λ x, in_merged b m x Hpb Hm H1 H2) as Hu. cbv zeta in Hu. fold u in Hu.
      destruct (Hu 0) as (Hpu & Hau & Heu & _).
      destruct (IH u m' kept (conj Hs Hp) Hpu E) as [Hpos Hsub Hap Hlow Hcov]. split.
      * done.
      * by constructor.
      * done.
      * intros y Hy Hall. apply Hlow.
        -- rewrite Hau. specialize (Hall b ltac:(left)). lia.
        -- intros c Hc. apply Hall. by right.
      * intros x. rewrite covers_cons. specialize (Hcov x). destruct (Hu x) as (_ & _ & _ & Hux). tauto.
Qed.

Lemma merge_overlap_blocks_spec new l :
  blocks_ok l → block_pos new →
  blocks_ok (merge_overlap_blocks new l) ∧
  ∀ x, covers (merge_overlap_blocks new l) x ↔ covers l x ∨ in_block new x.
Proof.
  intros Hl Hn. unfold merge_overlap_blocks. destruct (merge_loop new l) as [m kept] eqn:E.
  destruct (merge_loop_spec l new m kept Hl Hn E) as [Hpos Hsub Hap _ Hcov]. destruct Hl as [Hs Hp]. split.
  - apply sort_blocks_ok.
    + apply all_apart_app. split_and!.
      * apply sorted_apart. by eapply StronglySorted_sublist.
      * constructor; constructor.
      * intros a b Ha ->%list_elem_of_singleton. auto.
    + apply Forall_app. split; [|by constructor]. by eapply sublist_Forall.
  - intros x. rewrite covers_sort, covers_app, covers_cons. specialize (Hcov x).
    pose proof (covers_nil x). tauto.
Qed.

(** ** Removing is difference *)

(** The part of a block outside a range, as the reference. *)
Definition block_minus (new b : MmapInfo_t) : list MmapInfo_t :=
  push_block (b_addr b) (Z.min (b_end b) (b_addr new) - b_addr b) ++
  push_block (Z.max (b_addr b) (b_end new)) (b_end b - Z.max (b_addr b) (b_end new)).

Lemma in_push_block a n b : b ∈ push_block a n ↔ 0 < n ∧ b = mk_block a n.
Proof.
  unfold push_block. destruct (Z.ltb_spec 0 n); [rewrite list_elem_of_singleton|]; try naive_solver.
  split; [by intros []%not_elem_of_nil|lia].
Qed.

Lemma block_minus_id new b :
  block_pos b → b_end b ≤ b_addr new ∨ b_end new ≤ b_addr b → 0 ≤ b_len new → block_minus new b = [b].
Proof.
  intros [Ha Hb] Hcase Hn. unfold block_minus, push_block, b_end in *. destruct b as [a n], new as [a' n'].
  cbn in *. destruct Hcase.
  - rewrite Z.min_l by lia. rewrite (proj2 (Z.ltb_lt _ _)) by lia.
    rewrite Z.max_r by lia. rewrite (proj2 (Z.ltb_ge _ _)) by lia. simpl. repeat f_equal. lia.
  - rewrite Z.max_l by lia. rewrite (proj2 (Z.ltb_lt 0 (a + n - a))) by lia.
    rewrite (proj2 (Z.ltb_ge 0 (Z.min (a + n) a' - a))) by lia. simpl. repeat f_equal. lia.
Qed.

(** What the loop pushes for a block that overlaps the range. *)
Lemma overlap_pieces new b :
  block_pos b → 0 ≤ b_len new → b_addr new < b_end b → b_addr b < b_end new →
  (let front := push_block (b_addr b) (b_len b - (b_end b - b_addr new)) in
   let back := push_block (b_end new) (b_end b - b_end new) in
   if b_addr b <? b_addr new then
     if (b_addr new <? b_end b) && (b_end b <? b_end new) then front else front ++ back
   else if b_end new <? b_end b then back else []) = block_minus new b.
Proof.
  intros [Ha Hb] Hn H1 H2. unfold block_minus. cbv zeta. rewrite (Z.max_r (b_addr b)) by lia.
  rewrite (proj2 (Z.ltb_lt (b_addr new) (b_end b))) by lia. rewrite andb_true_l.
  rewrite (Z.min_r (b_end b)) by lia.
  assert (b_len b - (b_end b - b_addr new) = b_addr new - b_addr b) as -> by (unfold b_end; lia).
  assert (∀ a n, n ≤ 0 → push_block a n = []) as Hnil.
  { intros a n Hle. unfold push_block. by rewrite (proj2 (Z.ltb_ge 0 n)). }
  destruct (Z.ltb_spec (b_addr b) (b_addr new)).
  - destruct (Z.ltb_spec (b_end b) (b_end new)); [|done].
    rewrite (Hnil (b_end new)) by lia. by rewrite app_nil_r.
  - rewrite (Hnil (b_addr b)) by lia. simpl. destruct (Z.ltb_spec (b_end new) (b_end b)); [done|].
    by rewrite Hnil by lia.
Qed.

Lemma remove_loop_spec new l : ∀ s e pushed,
  blocks_ok l → 0 ≤ b_len new → (∀ b, b ∈ l → b_addr b ≠ s) →
  ∃ kept pushed', remove_loop new s e l pushed = Some (kept, pushed') ∧
    kept ++ pushed' ≡ₚ pushed ++ (l ≫= block_minus new).
Proof.
  induction l as [|b l IH]; intros s e pushed [Hs Hp] Hn Hold; cbn [remove_loop].
  { exists [], pushed. split; [done|]. simpl. by rewrite app_nil_r. }
  apply StronglySorted_inv in Hs as [Hs Hb]. apply Forall_cons in Hp as [Hpb Hp].
  rewrite Forall_forall in Hb.
  rewrite (proj2 (Z.eqb_neq (b_addr b) 0)) by (unfold block_pos in Hpb; lia).
  rewrite (proj2 (Z.eqb_neq (b_addr b) s)) by (apply Hold; left). simpl orb.
  assert (∀ c, c ∈ l → b_addr c ≠ b_addr b) as Hnext.
  { intros c Hc Heq. specialize (Hb c Hc). unfold before, block_pos, b_end in *. lia. }
  cbn [mbind list_bind]. fold (mbind (M := list) (block_minus new)).
  destruct (Z.leb_spec (b_end b) (b_addr new)) as [H1|H1].
  - destruct (IH (b_addr b) (b_end b) pushed (conj Hs Hp) Hn Hnext) as (kept & pushed' & -> & E).
    exists (b :: kept), pushed'. split; [done|]. rewrite block_minus_id by auto.
    simpl. rewrite E. by rewrite Permutation_middle.
  - destruct (Z.leb_spec (b_end new) (b_addr b)) as [H2|H2].
    + exists (b :: l), pushed. split; [done|]. rewrite block_minus_id by auto.
      assert (l ≫= block_minus new = l) as ->; [|exact (Permutation_app_comm (b :: l) pushed)].
      clear IH Hold Hnext Hs. induction l as [|c l IHl]; [done|]. simpl.
      apply Forall_cons in Hp as [Hpc Hp]. rewrite block_minus_id; [simpl; f_equal|done| |done].
      * apply IHl; [intros d Hd; apply Hb; by right|done].
      * right. specialize (Hb c ltac:(left)). unfold before, block_pos, b_end in *. lia.
    + rewrite overlap_pieces by done.
      destruct (IH (b_addr b) (b_end b) (pushed ++ block_minus new b) (conj Hs Hp) Hn Hnext)
        as (kept & pushed' & -> & E).
      exists kept, pushed'. split; [done|]. rewrite E. by rewrite app_assoc.
Qed.

Lemma block_minus_spec new b :
  is_range new → block_pos b →
  all_apart (block_minus new b) ∧ Forall block_pos (block_minus new b) ∧
  (∀ c, c ∈ block_minus new b → b_addr b ≤ b_addr c ∧ b_end c ≤ b_end b) ∧
  ∀ x, covers (block_minus new b) x ↔ in_block b x ∧ ¬ in_block new x.
Proof.
  intros [Hn Hne] Hb. assert (∀ c, c ∈ block_minus new b ↔
    (0 < Z.min (b_end b) (b_addr new) - b_addr b ∧
       c = mk_block (b_addr b) (Z.min (b_end b) (b_addr new) - b_addr b)) ∨
    (0 < b_end b - Z.max (b_addr b) (b_end new) ∧
       c = mk_block (Z.max (b_addr b) (b_end new)) (b_end b - Z.max (b_addr b) (b_end new)))) as Hin.
  { intros c. unfold block_minus. by rewrite elem_of_app, !in_push_block. }
  unfold block_pos, b_end in *. split_and!.
  - unfold block_minus. apply all_apart_app.
    assert (∀ a n, all_apart (push_block a n)) as Hpb.
    { intros a n. unfold push_block. destruct (0 <? n); repeat constructor. }
    split_and!; [apply Hpb|apply Hpb|].
    intros x y [? ->]%in_push_block [? ->]%in_push_block. left. unfold before, b_end. cbn. lia.
  - apply Forall_forall. intros c [[? ->]|[? ->]]%Hin; cbn; lia.
  - intros c [[? ->]|[? ->]]%Hin; cbn; lia.
  - intros x. unfold covers, in_block, b_end. split.
    + intros (c & [[? ->]|[? ->]]%Hin & Hx); cbn in *; lia.
    + intros [Hx Hnx]. destruct (decide (x < b_addr new)).
      * eexists. split; [apply Hin; left; split; [lia|done]|]. cbn. lia.
      * eexists. split; [apply Hin; right; split; [lia|done]|]. cbn. lia.
Qed.

Lemma minus_list_spec new l :
  blocks_ok l → is_range new →
  all_apart (l ≫= block_minus new) ∧ Forall block_pos (l ≫= block_minus new) ∧
  ∀ x, covers (l ≫= block_minus new) x ↔ covers l x ∧ ¬ in_block new x.
Proof.
  intros [Hs Hp] Hn. induction l as [|b l IH]; simpl.
  { split_and!; [constructor|done|]. intros x. pose proof (covers_nil x). tauto. }
  apply StronglySorted_inv in Hs as [Hs Hb]. apply Forall_cons in Hp as [Hpb Hp].
  destruct (IH Hs Hp) as (IH1 & IH2 & IH3). rewrite Forall_forall in Hb, Hp.
  destruct (block_minus_spec new b Hn Hpb) as (B1 & B2 & B3 & B4). split_and!.
  - apply all_apart_app. split_and!; [done|done|]. intros x y Hx Hy.
    apply list_elem_of_bind in Hy as (c & Hy & Hc).
    destruct (block_minus_spec new c Hn (Hp c Hc)) as (_ & _ & C3 & _).
    specialize (B3 x Hx). specialize (C3 y Hy). specialize (Hb c Hc).
    left. unfold before, b_end in *. lia.
  - by apply Forall_app.
  - intros x. rewrite covers_app, covers_cons, B4, IH3. tauto.
Qed.

Lemma remove_overlap_blocks_spec new l :
  blocks_ok l → is_range new →
  ∃ l', remove_overlap_blocks new l = Some l' ∧ l' ≡ₚ l ≫= block_minus new ∧ blocks_ok l' ∧
    ∀ x, covers l' x ↔ covers l x ∧ ¬ in_block new x.
Proof.
  intros Hl Hn. destruct (remove_loop_spec new l 0 0 [] Hl (proj1 Hn)) as (kept & pushed & Hr & E).
  { intros b Hb. destruct Hl as [_ Hp]. rewrite Forall_forall in Hp. specialize (Hp b Hb).
    unfold block_pos in Hp. lia. }
  destruct (minus_list_spec new l Hl Hn) as (M1 & M2 & M3). simpl in E.
  unfold remove_overlap_blocks. rewrite Hr. simpl. eexists. split; [done|]. split_and!.
  - unfold sort_blocks. by rewrite merge_sort_Permutation.
  - apply sort_blocks_ok; by rewrite E.
  - intros x. rewrite covers_sort, E. apply M3.
Qed.

(** ** First fit *)

Lemma ROUND_UP_pow2 x k :
  0 ≤ k < 64 → 0 ≤ x → x + 2 ^ k - 1 < 2 ^ 64 →
  ROUND_UP x (2 ^ k) = (x + 2 ^ k - 1) / 2 ^ k * 2 ^ k.
Proof.
  intros Hk Hx Hlt. pose proof (Z.pow_pos_nonneg 2 k). unfold ROUND_UP. rewrite (u64_small (x + _ - 1)) by lia.
  unfold u64. rewrite land_mod_small by lia. by rewrite land_lnot_ones by lia.
Qed.

Lemma ROUND_UP_spec x k :
  0 ≤ k < 64 → 0 ≤ x → x + 2 ^ k - 1 < 2 ^ 64 →
  x ≤ ROUND_UP x (2 ^ k) < x + 2 ^ k ∧ (2 ^ k | ROUND_UP x (2 ^ k)) ∧
  ∀ y, x ≤ y → (2 ^ k | y) → ROUND_UP x (2 ^ k) ≤ y.
Proof.
  intros Hk Hx Hlt. rewrite ROUND_UP_pow2 by done. pose proof (Z.pow_pos_nonneg 2 k ltac:(lia) ltac:(lia)).
  pose proof (Z.div_mod (x + 2 ^ k - 1) (2 ^ k) ltac:(lia)).
  pose proof (Z.mod_pos_bound (x + 2 ^ k - 1) (2 ^ k) ltac:(lia)).
  split; [nia|]. split; [apply Z.divide_factor_r|].
  intros y Hy [q ->]. apply Z.mul_le_mono_nonneg_r; [lia|].
  assert ((x + 2 ^ k - 1) / 2 ^ k < q + 1); [|lia]. apply Z.div_lt_upper_bound; nia.
Qed.

(** The alignment is a power of two: a page, or the hint's if that is larger
    and at most 2 MB. *)
Lemma fit_align addr :
  0 ≤ addr < 2 ^ 64 →
  ∃ k, 12 ≤ k ≤ 21 ∧ fit_align_mask addr + 1 = 2 ^ k ∧
    (k = 12 ∨ (0 < addr ∧ (2 ^ k | addr) ∧ Z.land addr (- addr) = 2 ^ k)).
Proof.
  intros Ha. unfold fit_align_mask. destruct (Z.eqb_spec addr 0) as [->|Hne].
  { exists 12. split; [lia|]. split; [done|by left]. }
  unfold u64. rewrite land_mod_small by lia.
  destruct (land_opp_low addr) as (k & Hk & -> & Hd); [lia|].
  destruct (Z.ltb_spec PAGE_SIZE (2 ^ k)) as [H1|H1]; [|exists 12; split; [lia|split; [done|by left]]].
  destruct (Z.leb_spec (2 ^ k) (Z.shiftl 1 21)) as [H2|H2]; [|exists 12; split; [lia|split; [done|by left]]].
  change PAGE_SIZE with (2 ^ 12) in *. change (Z.shiftl 1 21) with (2 ^ 21) in H2.
  apply Z.pow_lt_mono_r_iff in H1; [|lia|lia]. apply Z.pow_le_mono_r_iff in H2; [|lia|lia].
  exists k. split; [lia|]. split; [|right; by split_and!; [lia|..]]. simpl andb. cbv iota.
  replace (2 ^ 12 - 1) with (Z.ones 12) by done.
  replace (2 ^ k - 1) with (Z.ones k) by (rewrite Z.ones_equiv; lia).
  assert (Z.lor (Z.ones 12) (Z.ones k) = Z.ones k) as ->; [|rewrite Z.ones_equiv; lia].
  apply Z.bits_inj'. intros i Hi. rewrite Z.lor_spec, !Z.testbit_ones_nonneg by lia.
  destruct (Z.ltb_spec i 12), (Z.ltb_spec i k); try done; lia.
Qed.

(** The range at [a] is aligned and inside the block. *)
Definition fits (align length : Z) (b : MmapInfo_t) (a : Z) : Prop :=
  b_addr b ≤ a ∧ a + length ≤ b_end b ∧ (align | a).

Lemma first_fit_spec k length l :
  12 ≤ k ≤ 21 → 0 < length < 2 ^ 63 → Forall block_pos l →
  match first_fit (2 ^ k) length l with
  | Some a => ∃ pre b post, l = pre ++ b :: post ∧ fits (2 ^ k) length b a ∧
      (∀ a', fits (2 ^ k) length b a' → a ≤ a') ∧
      ∀ c a', c ∈ pre → ¬ fits (2 ^ k) length c a'
  | None => ∀ c a', c ∈ l → ¬ fits (2 ^ k) length c a'
  end.
Proof.
  intros Hk Hn. induction 1 as [|b l [Hb0 Hbl] Hl IH]; cbn [first_fit].
  { by intros c a' []%not_elem_of_nil. }
  assert (2 ^ k ≤ 2 ^ 21) by (apply Z.pow_le_mono_r; lia).
  destruct (ROUND_UP_spec (b_addr b) k) as (Hr & Hd & Hmin); [lia..|].
  rewrite (u64_small (ROUND_UP _ _ - _)) by lia. rewrite u64_small by lia.
  destruct (Z.leb_spec (ROUND_UP (b_addr b) (2 ^ k) - b_addr b + length) (b_len b)).
  - exists [], b, l. split; [done|]. unfold fits, b_end. split_and!; [lia|lia|done| |].
    + intros a' (? & ? & ?). by apply Hmin.
    + by intros c a' []%not_elem_of_nil.
  - assert (∀ a', ¬ fits (2 ^ k) length b a') as Hno.
    { intros a' (H1 & H2 & H3). specialize (Hmin a' H1 H3). unfold b_end in H2. lia. }
    destruct (first_fit (2 ^ k) length l) as [a|].
    + destruct IH as (pre & c & post & -> & Hf & Hm & Hp). exists (b :: pre), c, post.
      split_and!; try done. intros c' a' [->|Hc']%elem_of_cons; [apply Hno|by apply Hp].
    + intros c a' [->|Hc]%elem_of_cons; [apply Hno|by apply IH].
Qed.

(** ** Properties *)

(** C27. The lists are sets of addresses.  On a sorted list of blocks that do
    not overlap, [merge_overlap_blocks()] is the union with the new block and
    [remove_overlap_blocks()] is the difference: it cuts the part inside the
    range out of each block and keeps the rest, and never enters its endless
    "loop detected" loop.  Both keep the list sorted, positive and without
    overlaps. *)
Theorem block_lists_are_sets new l :
  blocks_ok l → block_pos new → b_end new ≤ 2 ^ 63 →
  (blocks_ok (merge_overlap_blocks new l) ∧
   ∀ x, covers (merge_overlap_blocks new l) x ↔ covers l x ∨ in_block new x) ∧
  (∃ l', remove_overlap_blocks new l = Some l' ∧ l' ≡ₚ l ≫= block_minus new ∧ blocks_ok l' ∧
     ∀ x, covers l' x ↔ covers l x ∧ ¬ in_block new x).
Proof.
  intros Hl Hn He. split; [by apply merge_overlap_blocks_spec|].
  apply remove_overlap_blocks_spec; [done|]. split; [unfold block_pos in Hn; lia|done].
Qed.

Lemma block_lists_are_sets_witness :
  let l := [mk_block 0x1000 0x2000; mk_block 0x8000 0x1000] in
  let new := mk_block 0x2000 0x1000 in
  merge_overlap_blocks new l = l ∧
  remove_overlap_blocks new l = Some [mk_block 0x1000 0x1000; mk_block 0x8000 0x1000] ∧
  blocks_ok (merge_overlap_blocks new l).
Proof.
  cbv zeta. split; [by vm_compute|]. split; [by vm_compute|].
  destruct (block_lists_are_sets (mk_block 0x2000 0x1000) [mk_block 0x1000 0x2000; mk_block 0x8000 0x1000])
    as [[H _] _].
  - split; repeat constructor; by vm_compute.
  - split; by vm_compute.
  - by vm_compute.
  - exact H.
Defined.

(** [next_free_addr()] is an aligned first fit.  The result is the lowest
    aligned address of the first free block in which an aligned range of the
    length fits, and NULL only if no block has one.  The alignment is a page,
    or the hint's own alignment when that is larger and at most 2 MB. *)
Theorem next_free_addr_first_fit addr length l :
  0 ≤ addr < 2 ^ 64 → 0 < length < 2 ^ 63 → blocks_ok l →
  ∃ k, 12 ≤ k ≤ 21 ∧ (k = 12 ∨ (0 < addr ∧ Z.land addr (- addr) = 2 ^ k)) ∧
  match next_free_addr addr length l with
  | Some a => ∃ pre b post, l = pre ++ b :: post ∧ fits (2 ^ k) length b a ∧
      (∀ a', fits (2 ^ k) length b a' → a ≤ a') ∧
      ∀ c a', c ∈ pre → ¬ fits (2 ^ k) length c a'
  | None => ∀ c a', c ∈ l → ¬ fits (2 ^ k) length c a'
  end.
Proof.
  intros Ha Hl [_ Hp]. destruct (fit_align addr Ha) as (k & Hk & E & Hd). exists k. split; [done|].
  split; [tauto|]. unfold next_free_addr. rewrite E. by apply first_fit_spec.
Qed.

Lemma next_free_addr_first_fit_witness :
  let l := [mk_block 0x1000 0x1000; mk_block 0x205000 0x400000] in
  next_free_addr 0x200000 0x2000 l = Some 0x400000 ∧
  ∃ k, 12 ≤ k ≤ 21 ∧ (k = 12 ∨ (0 < 0x200000 ∧ Z.land 0x200000 (- 0x200000) = 2 ^ k)).
Proof.
  cbv zeta. split; [by vm_compute|].
  destruct (next_free_addr_first_fit 0x200000 0x2000 [mk_block 0x1000 0x1000; mk_block 0x205000 0x400000])
    as (k & Hk & Hd & _).
  - lia.
  - lia.
  - split; repeat constructor; by vm_compute.
  - exists k. split; [exact Hk|exact Hd].
Defined.
