(* ===== verification/ArenaWrappers.v ===== *)
(** * The wrappers of mmap, munmap, mremap and sbrk
    ([src/src/lower-half/mem-wrapper.cpp], [mmap-fixed-noreplace.c])

    The bodies that run under [lock_wrappers()] with signals blocked, over the
    lists of [MemArena] and a kernel.  The kernel is a parameter: the class
    [Kernel] gives the system calls that the wrappers make and the mappings
    that [/proc/self/maps] lists; [KernelLaws] states what the manual pages of
    the calls say.  A system call returns [inl] its result or [inr] its errno.

    Not modelled: writing trampolines into libc's code ([patchLibc]) and the
    machine code of the sbrk stub; [sbrk_offset] is the offset of [__sbrk] in
    libc, 0 if it has none. *)
From S2P Require Import Prelude MemArena.

Definition MAP_PRIVATE : Z := 0x02.
Definition MAP_FIXED : Z := 0x10.
Definition MAP_ANONYMOUS : Z := 0x20.
Definition MAP_NORESERVE : Z := 0x4000.
Definition MAP_FIXED_NOREPLACE : Z := 0x100000.
Definition MREMAP_MAYMOVE : Z := 1.
Definition MREMAP_FIXED : Z := 2.
Definition MREMAP_DONTUNMAP : Z := 4.
Definition PROT_NONE : Z := 0.
Definition PROT_READ : Z := 1.
Definition PROT_WRITE : Z := 2.
Definition PROT_EXEC : Z := 4.
Definition ENOMEM : Z := 12.
Definition EEXIST : Z := 17.
Definition EINVAL : Z := 22.
Definition SIZE_MAX : Z := 2 ^ 64 - 1.

Definition has_flag (flags f : Z) : bool := negb (Z.land flags f =? 0).

Class Kernel (K : Type) := {
  sys_mmap : Z → Z → Z → Z → Z → Z → K → (Z + Z) * K;      (* addr length prot flags fd offset *)
  sys_munmap : Z → Z → K → (unit + Z) * K;
  sys_mremap : Z → Z → Z → Z → Z → K → (Z + Z) * K;        (* old old_size new_size flags new *)
  sys_mprotect : Z → Z → Z → K → bool * K;                 (* false: it failed *)
  sys_madvise_dontneed : Z → Z → K → bool * K;
  proc_maps : K → list (Z * Z);                            (* [start, end), ascending *)
  is_libc : Z → K → bool                                   (* checkLibrary(fd, "libc.so" or "libc-") *)
}.

(** The upper half's heap. *)
Record UhBrk := mk_uhbrk {
  uh_brk : Z;
  uh_base : Z;
  uh_end : Z;
  libc_text : Z;
  libc_text_end : Z
}.
#[export] Instance eta_uhbrk : Eta UhBrk := λ h,
  mk_uhbrk (uh_brk h) (uh_base h) (uh_end h) (libc_text h) (libc_text_end h).

Section wrappers.
Context `{Kernel K} (sbrk_offset : Z).

Record arena := mk_arena {
  allocated_blocks : list MmapInfo_t;
  free_blocks : list MmapInfo_t;
  max_allocated_addr : Z;
  arena_base : Z;
  libc_base_addr : Z;
  has_map_fixed_noreplace : option bool;       (* None is -1 *)
  uh_heap : option UhBrk;
  kern : K
}.
#[global] Instance eta_arena : Eta arena := λ a,
  mk_arena (allocated_blocks a) (free_blocks a) (max_allocated_addr a) (arena_base a)
    (libc_base_addr a) (has_map_fixed_noreplace a) (uh_heap a) (kern a).

(** A system call on the arena's kernel. *)
Definition sys {A} (f : K → A * K) : prog arena A := λ st,
  let '(r, k) := f (kern st) in Ok r (st <| kern := k |>).

(** ** Bookkeeping *)

(** [merge_overlap_blocks(b, allocated_blocks)] and the other three calls. *)
Definition merge_allocated (b : MmapInfo_t) : prog arena unit :=
  modify (λ st, st <| allocated_blocks ::= merge_overlap_blocks b |>).
Definition merge_free (b : MmapInfo_t) : prog arena unit :=
  modify (λ st, st <| free_blocks ::= merge_overlap_blocks b |>).
Definition remove_allocated (b : MmapInfo_t) : prog arena unit := λ st,
  match remove_overlap_blocks b (allocated_blocks st) with
  | Some l => Ok () (st <| allocated_blocks := l |>)
  | None => Spin
  end.
Definition remove_free (b : MmapInfo_t) : prog arena unit := λ st,
  match remove_overlap_blocks b (free_blocks st) with
  | Some l => Ok () (st <| free_blocks := l |>)
  | None => Spin
  end.

Definition raise_max (e : Z) : prog arena unit :=
  modify (λ st, st <| max_allocated_addr ::= λ m, if m <? e then e else m |>).

(** ** The arena *)

Definition init_mem_arena (base : Z) : prog arena unit :=
  st ← get_state;
  let len := match list_find (λ m : Z * Z, base ≤ m.1) (proc_maps (kern st)) with
             | Some (_, m) => m.1 - base
             | None => SIZE_MAX / 2
             end in
  modify (λ st, st <| arena_base := base |> <| free_blocks := [mk_block base len] |>).

Definition init_mem_arena_after_restore : prog arena unit :=
  st ← get_state;
  init_mem_arena (ROUND_UP (max_allocated_addr st) PAGE_SIZE).

(** [mmap-fixed-noreplace.c]: the first call finds out whether the kernel knows
    [MAP_FIXED_NOREPLACE]. *)
Definition probe_noreplace : prog arena (option Z) :=
  st ← get_state;
  match has_map_fixed_noreplace st with
  | Some _ => mret None
  | None =>
      let test_flag := Z.lor MAP_PRIVATE MAP_ANONYMOUS in
      r ← sys (sys_mmap 0 PAGE_SIZE 0 test_flag (-1) 0);
      match r with
      | inr e => mret (Some e)
      | inl a =>
          r2 ← sys (sys_mmap a PAGE_SIZE 0 (Z.lor test_flag MAP_FIXED_NOREPLACE) (-1) 0);
          match r2 with
          | inl _ => abort
          | inr e =>
              modify (λ st, st <| has_map_fixed_noreplace := Some (e =? EEXIST) |>) ;;
              r3 ← sys (sys_munmap a PAGE_SIZE);
              match r3 with inl _ => mret None | inr _ => abort end
          end
      end
  end.

Definition mmap_fixed_noreplace (addr length prot flags fd offset : Z) : prog arena (Z + Z) :=
  p ← probe_noreplace;
  match p with
  | Some e => mret (inr e)
  | None =>
      let flags := if has_flag flags MAP_FIXED then Z.lxor flags MAP_FIXED else flags in
      st ← get_state;
      if default false (has_map_fixed_noreplace st) then
        sys (sys_mmap addr length prot (Z.lor flags MAP_FIXED_NOREPLACE) fd offset)
      else
        let flags := if has_flag flags MAP_FIXED_NOREPLACE
                     then Z.lxor flags MAP_FIXED_NOREPLACE else flags in
        r ← sys (sys_mmap addr length prot flags fd offset);
        match r with
        | inl addr2 =>
            if addr2 =? addr then mret (inl addr)
            else
              r2 ← sys (sys_munmap addr2 length);
              match r2 with inl _ => mret (inr EEXIST) | inr _ => abort end
        | inr e => mret (inr e)
        end
  end.

(** The mappings that [for_each_mapping()] passes to the callback of
    [arena_mmap()] and that overlap the range. *)
Fixpoint overlapping (addr length : Z) (maps : list (Z * Z)) : list MmapInfo_t :=
  match maps with
  | [] => []
  | (start, end_) :: rest =>
      (if (start <? addr + length) && (addr <? end_) then [mk_block start (end_ - start)] else [])
      ++ (if addr + length <=? start then [] else overlapping addr length rest)
  end.

Fixpoint arena_tries (tries : nat) (hint length prot flags fd offset : Z) : prog arena (Z + Z) :=
  match tries with
  | O => mret (inr ENOMEM)
  | S tries' =>
      st ← get_state;
      match next_free_addr hint length (free_blocks st) with
      | None => mret (inr ENOMEM)
      | Some addr =>
          r ← mmap_fixed_noreplace addr length prot flags fd offset;
          match r with
          | inl ret => raise_max (addr + length) ;; mret (inl ret)
          | inr e =>
              if negb (e =? EEXIST) then mret (inr e)
              else
                st ← get_state;
                for_each (overlapping addr length (proc_maps (kern st))) remove_free ;;
                arena_tries tries' hint length prot flags fd offset
          end
      end
  end.

Definition arena_mmap : Z → Z → Z → Z → Z → Z → prog arena (Z + Z) := arena_tries 16.

(** ** mmap *)

(** Clears a flag: [flags &= ~f]. *)
Definition clear_flag (flags f : Z) : Z := Z.land flags (Z.lnot f).

(** [__mmap_wrapper()] up to the bookkeeping. *)
Definition mmap_core (addr length0 prot flags0 fd offset : Z) : prog arena (Z + Z) :=
  let length := ROUND_UP length0 PAGE_SIZE in
  st ← get_state;
  let in_arena := negb (arena_base st =? 0) in
  let chosen := in_arena && ((addr =? 0) || negb (has_flag flags0 MAP_FIXED) ||
    (negb (max_allocated_addr st =? 0) && (max_allocated_addr st <? addr))) in
  let flags := if in_arena then Z.lor (clear_flag flags0 MAP_FIXED_NOREPLACE) MAP_FIXED else flags0 in
  r ← (if chosen then arena_mmap addr length prot flags fd offset
       else sys (sys_mmap addr length prot flags fd offset));
  match r with
  | inl ret =>
      let new_block := mk_block ret length in
      merge_allocated new_block ;; remove_free new_block ;; mret (inl ret)
  | inr e => mret (inr e)
  end.

Definition UH_BRK_RESERVE : Z := 2 ^ 36.

(** The stub that is written over [sbrk()] has 22 bytes.  [uh_heap] is the heap that
    a patched [sbrk()] passes to [uhSbrk()]. *)
Definition patchSbrk (sbrk text len : Z) : prog arena unit :=
  r ← mmap_core 0 UH_BRK_RESERVE PROT_NONE
        (Z.lor (Z.lor MAP_PRIVATE MAP_ANONYMOUS) MAP_NORESERVE) (-1) 0;
  match r with
  | inr _ => mret ()
  | inl base =>
      ok ← sys (sys_mprotect base PAGE_SIZE (Z.lor PROT_READ PROT_WRITE));
      if (ok : bool) then
        let page := Z.land sbrk (Z.lnot (PAGE_SIZE - 1)) in
        let page_len := ROUND_UP (sbrk + 22) PAGE_SIZE - page in
        ok ← sys (sys_mprotect page page_len (Z.lor (Z.lor PROT_READ PROT_WRITE) PROT_EXEC));
        if (ok : bool) then
          modify (λ st, st <| uh_heap := Some (mk_uhbrk (base + PAGE_SIZE) (base + PAGE_SIZE)
            (base + UH_BRK_RESERVE) text (text + len)) |>) ;;
          sys (sys_mprotect page page_len (Z.lor PROT_READ PROT_EXEC)) ;;
          mret ()
        else mret ()
      else mret ()
  end.

(** [inl 0] is NULL. *)
Definition mmap_wrapper (addr length prot flags fd offset : Z) : prog arena (Z + Z) :=
  r ← mmap_core addr length prot flags fd offset;
  st ← get_state;
  match r with
  | inr e => mret (inr e)
  | inl ret =>
      if (0 <? fd) && is_libc fd (kern st) then
        modify (λ st, st <| libc_base_addr ::= λ b, if b =? 0 then ret else b |>) ;;
        if has_flag prot PROT_EXEC then
          let len := ROUND_UP length PAGE_SIZE in
          ok ← sys (sys_mprotect ret len (Z.lor prot PROT_WRITE));
          if negb ok then mret (inl 0) else
          (if negb (sbrk_offset =? 0) then st ← get_state; patchSbrk (libc_base_addr st + sbrk_offset) ret len else mret ()) ;;
          ok ← sys (sys_mprotect ret len prot);
          if negb ok then mret (inl 0) else
          modify (λ st, st <| libc_base_addr := 0 |>) ;;
          mret (inl ret)
        else mret (inl ret)
      else mret (inl ret)
  end.

(** Restores an area at restart. *)
Definition restore_mmap (addr length0 prot flags fd offset : Z) : prog arena (Z + Z) :=
  let length := ROUND_UP length0 PAGE_SIZE in
  raise_max (addr + length) ;;
  r ← sys (sys_mmap addr length prot (Z.lor flags MAP_FIXED) fd offset);
  match r with
  | inl ret =>
      let new_block := mk_block addr length in
      merge_allocated new_block ;; remove_free new_block ;; mret (inl ret)
  | inr e => mret (inr e)
  end.

(** ** munmap and mremap *)

Definition munmap_wrapper (addr length0 : Z) : prog arena (unit + Z) :=
  if addr =? 0 then mret (inr EINVAL) else
  let length := ROUND_UP length0 PAGE_SIZE in
  r ← sys (sys_munmap addr length);
  match r with
  | inl _ =>
      let new_block := mk_block addr length in
      remove_allocated new_block ;; merge_free new_block ;; mret (inl ())
  | inr e => mret (inr e)
  end.

(** The system calls of [__mremap_wrapper()], for rounded sizes. *)
Definition mremap_move (old_address old_size new_size flags dontunmap : Z) : prog arena (Z + Z) :=
  st ← get_state;
  let in_place := (dontunmap =? 0) && ((new_size <=? old_size) ||
    is_free_range (old_address + old_size) (new_size - old_size) (free_blocks st)) in
  ret ← (if in_place then sys (sys_mremap old_address old_size new_size 0 0)
         else mret (inr ENOMEM));
  match ret with
  | inl a => mret (inl a)
  | inr e =>
      if has_flag flags MREMAP_MAYMOVE then
        to ← arena_mmap 0 new_size PROT_NONE
               (Z.lor (Z.lor (Z.lor MAP_PRIVATE MAP_ANONYMOUS) MAP_NORESERVE) MAP_FIXED) (-1) 0;
        match to with
        | inl t =>
            r ← sys (sys_mremap old_address old_size new_size
                   (Z.lor (Z.lor MREMAP_MAYMOVE MREMAP_FIXED) dontunmap) t);
            match r with
            | inl a => mret (inl a)
            | inr e2 => sys (sys_munmap t new_size) ;; mret (inr e2)
            end
        | inr e2 => mret (inr e2)
        end
      else mret (inr e)
  end.

Definition mremap_wrapper (old_address old_size0 new_size0 flags new_address : Z) : prog arena (Z + Z) :=
  let old_size := ROUND_UP old_size0 PAGE_SIZE in
  let new_size := ROUND_UP new_size0 PAGE_SIZE in
  let dontunmap := Z.land flags MREMAP_DONTUNMAP in
  let other_flags := Z.land flags (Z.lnot (Z.lor (Z.lor MREMAP_MAYMOVE MREMAP_FIXED) dontunmap)) in
  let invalid := negb (other_flags =? 0) ||
    (negb (dontunmap =? 0) && negb (has_flag flags MREMAP_MAYMOVE)) in
  st ← get_state;
  ret ← (if (arena_base st =? 0) || (old_size =? 0) || has_flag flags MREMAP_FIXED || invalid
         then sys (sys_mremap old_address old_size new_size flags new_address)
         else mremap_move old_address old_size new_size flags dontunmap);
  match ret with
  | inl r =>
      (if dontunmap =? 0 then
         remove_allocated (mk_block old_address old_size) ;;
         merge_free (mk_block old_address old_size)
       else mret ()) ;;
      merge_allocated (mk_block r new_size) ;;
      remove_free (mk_block r new_size) ;;
      raise_max (r + new_size) ;;
      mret (inl r)
  | inr e => mret (inr e)
  end.

(** ** sbrk *)

(** [uhSbrk()]; [caller] is the return address and [kernel_brk] what
    [syscall(SYS_brk, 0)] returns.  -1 is a failure. *)
Definition uhSbrk (caller kernel_brk increment : Z) (h : UhBrk) : prog arena (Z * UhBrk) :=
  if (caller <? libc_text h) || (libc_text_end h <=? caller) then
    mret (if increment =? 0 then kernel_brk else -1, h)
  else
    let old := uh_brk h in
    let brk := old + increment in
    if (uh_base h <=? brk) && (brk <=? uh_end h) then
      let from := ROUND_UP old PAGE_SIZE in
      let to := ROUND_UP brk PAGE_SIZE in
      ok ← (if from <? to then sys (sys_mprotect from (to - from) (Z.lor PROT_READ PROT_WRITE))
            else if to <? from then
              ok ← sys (sys_madvise_dontneed to (from - to));
              if (ok : bool) then sys (sys_mprotect to (from - to) PROT_NONE) else mret false
            else mret true);
      if (ok : bool) then mret (old, h <| uh_brk := brk |>) else mret (-1, h)
    else mret (-1, h).

End wrappers.
