(* ===== verification/ArenaSpec.v ===== *)
(** * What the memory wrappers guarantee

    [arena_ok]: the list of the upper half's mappings and the arena's free list
    are sorted lists of ranges that do not overlap, and no address is in both.
    Every wrapper keeps it and changes the two sets as the system call did. *)
From S2P Require Import Prelude MemArena ArenaWrappers.

(** What the manual pages say of the calls: a successful call has a non-empty
    range in user space; without [MAP_FIXED], [mmap] replaces no mapping; a
    failed call changes no mapping; a kernel that knows [MAP_FIXED_NOREPLACE]
    maps at the address or fails, and one that does not never fails with
    [EEXIST].  The laws are about the set [mapped] of mapped addresses. *)
Class KernelLaws (K : Type) `{!Kernel K} (mapped : K → Z → Prop) (knows : bool) : Prop := {
  mmap_range addr len prot flags fd off k r k' :
    sys_mmap addr len prot flags fd off k = (inl r, k') → 0 < r ∧ 0 < len ∧ r + len ≤ 2 ^ 63;
  mmap_free addr len prot flags fd off k r k' :
    has_flag flags MAP_FIXED = false → sys_mmap addr len prot flags fd off k = (inl r, k') →
    (∀ x, r ≤ x < r + len → ¬ mapped k x) ∧ ∀ x, mapped k' x ↔ mapped k x ∨ r ≤ x < r + len;
  mmap_noreplace addr len prot flags fd off k r k' :
    knows = true → has_flag flags MAP_FIXED_NOREPLACE = true →
    sys_mmap addr len prot flags fd off k = (inl r, k') → r = addr;
  mmap_eexist addr len prot flags fd off k k' :
    knows = false → sys_mmap addr len prot flags fd off k ≠ (inr EEXIST, k');
  mmap_fails addr len prot flags fd off k e k' :
    sys_mmap addr len prot flags fd off k = (inr e, k') → ∀ x, mapped k' x ↔ mapped k x;
  munmap_range addr len k k' :
    sys_munmap addr len k = (inl (), k') → 0 < len ∧ 0 ≤ addr ∧ addr + len ≤ 2 ^ 63 ∧
    ∀ x, mapped k' x ↔ mapped k x ∧ ¬ (addr ≤ x < addr + len);
  munmap_fails addr len k e k' :
    sys_munmap addr len k = (inr e, k') → ∀ x, mapped k' x ↔ mapped k x;
  mremap_range old old_size new_size flags new k r k' :
    sys_mremap old old_size new_size flags new k = (inl r, k') →
    0 < old ∧ old + old_size ≤ 2 ^ 63 ∧ 0 < r ∧ 0 < new_size ∧ r + new_size ≤ 2 ^ 63;
  maps_range k s e : (s, e) ∈ proc_maps k → s ≤ e ≤ 2 ^ 63
}.

Section arena_spec.
Context `{KL : KernelLaws K mapped knows} (sbrk_offset : Z).
Implicit Types (st : arena (K := K)).

Record arena_ok st : Prop := {
  ao_allocated : blocks_ok (allocated_blocks st);
  ao_free : blocks_ok (free_blocks st);
  ao_disjoint : ∀ x, covers (allocated_blocks st) x → ¬ covers (free_blocks st) x;
  ao_noreplace : has_map_fixed_noreplace st = Some true → knows = true
}.

(** Only the kernel, the free list (which may shrink), the highest address and
    the probe's result differ. *)
Record reserves st st' : Prop := {
  rs_ok : arena_ok st';
  rs_allocated : allocated_blocks st' = allocated_blocks st;
  rs_free : ∀ x, covers (free_blocks st') x → covers (free_blocks st) x;
  rs_base : arena_base st' = arena_base st
}.

(** The same set of mapped addresses. *)
Definition same_maps st st' : Prop := ∀ x, mapped (kern st') x ↔ mapped (kern st) x.

Lemma reserves_refl st : arena_ok st → reserves st st.
Proof. by split. Qed.
Lemma reserves_trans st1 st2 st3 : reserves st1 st2 → reserves st2 st3 → reserves st1 st3.
Proof. intros [? E1 F1 B1] [? E2 F2 B2]. split; [done|congruence|auto|congruence]. Qed.

(** ** Bookkeeping *)

(** [merge_overlap_blocks(b, allocated_blocks); remove_overlap_blocks(b, free_blocks)]. *)
Lemma record_mapping st b :
  arena_ok st → block_pos b → b_end b ≤ 2 ^ 63 →
  ∃ st', (merge_allocated b ;; remove_free b) st = Ok () st' ∧ arena_ok st' ∧
    (∀ x, covers (allocated_blocks st') x ↔ covers (allocated_blocks st) x ∨ in_block b x) ∧
    (∀ x, covers (free_blocks st') x ↔ covers (free_blocks st) x ∧ ¬ in_block b x) ∧
    kern st' = kern st.
Proof.
  intros [Ha Hf Hd Hn] Hb He. destruct (merge_overlap_blocks_spec b _ Ha Hb) as [M1 M2].
  destruct (remove_overlap_blocks_spec b _ Hf) as (l & Hr & _ & R1 & R2).
  { split; [unfold block_pos in Hb; lia|done]. }
  unfold merge_allocated, remove_free. prog_red. cbn [free_blocks allocated_blocks set_field]. rewrite Hr.
  eexists. split; [done|]. split; [|done]. split; try done.
  cbn [free_blocks allocated_blocks set_field]. intros x. rewrite M2, R2. intros [?|?]; [|tauto].
  intros [? _]. by eapply Hd.
Qed.

(** [remove_overlap_blocks(b, allocated_blocks); merge_overlap_blocks(b, free_blocks)]. *)
Lemma record_unmapping st b :
  arena_ok st → block_pos b → b_end b ≤ 2 ^ 63 →
  ∃ st', (remove_allocated b ;; merge_free b) st = Ok () st' ∧ arena_ok st' ∧
    (∀ x, covers (allocated_blocks st') x ↔ covers (allocated_blocks st) x ∧ ¬ in_block b x) ∧
    (∀ x, covers (free_blocks st') x ↔ covers (free_blocks st) x ∨ in_block b x) ∧
    kern st' = kern st.
Proof.
  intros [Ha Hf Hd Hn] Hb He. destruct (merge_overlap_blocks_spec b _ Hf Hb) as [M1 M2].
  destruct (remove_overlap_blocks_spec b _ Ha) as (l & Hr & _ & R1 & R2).
  { split; [unfold block_pos in Hb; lia|done]. }
  unfold remove_allocated, merge_free. prog_red. rewrite Hr.
  eexists. split; [done|]. split; [|done]. split; try done.
  cbn [free_blocks allocated_blocks set_field]. intros x. rewrite R2, M2. intros [Hx Hnx] [?|?]; [|done].
  by eapply Hd.
Qed.

Lemma remove_frees st l :
  arena_ok st → Forall is_range l →
  ∃ st', for_each l remove_free st = Ok () st' ∧ reserves st st' ∧ kern st' = kern st.
Proof.
  intros Hok Hl. revert st Hok. induction Hl as [|b l Hb Hl IH]; intros st Hok; simpl.
  { exists st. split; [done|]. split; [by apply reserves_refl|done]. }
  destruct Hok as [Ha Hf Hd Hn]. destruct (remove_overlap_blocks_spec b _ Hf Hb) as (k & Hr & _ & R1 & R2).
  set (st1 := st <| free_blocks := k |>).
  assert (remove_free b st = Ok () st1) as Hb1 by (unfold remove_free; by rewrite Hr).
  rewrite (prog_bind_ok _ _ _ _ _ Hb1).
  assert (arena_ok st1) as Hok1.
  { split; try done. cbn. intros x Hx. rewrite R2. intros [? _]. by eapply Hd. }
  destruct (IH st1 Hok1) as (st' & Hrun & Hres & Hk). exists st'. split; [done|]. split; [|done].
  eapply reserves_trans; [|done]. split; try done. cbn. intros x. rewrite R2. tauto.
Qed.

(** ** The arena never replaces a mapping *)

Lemma flag_bit flags i : 0 ≤ i → has_flag flags (2 ^ i) = Z.testbit flags i.
Proof.
  intros Hi. unfold has_flag. destruct (Z.testbit flags i) eqn:E.
  - apply negb_true_iff, Z.eqb_neq. intros H0.
    assert (Z.testbit (Z.land flags (2 ^ i)) i = true) as Hb.
    { by rewrite Z.land_spec, E, Z.pow2_bits_true. }
    by rewrite H0, Z.bits_0 in Hb.
  - apply negb_false_iff, Z.eqb_eq. apply Z.bits_inj'. intros j Hj. rewrite Z.land_spec, Z.bits_0.
    destruct (decide (i = j)) as [->|]; [by rewrite E|]. by rewrite Z.pow2_bits_false, andb_false_r.
Qed.

(** Clearing [MAP_FIXED] the way [mmap_fixed_noreplace()] does. *)
Definition drop_fixed (flags : Z) : Z :=
  if has_flag flags MAP_FIXED then Z.lxor flags MAP_FIXED else flags.

Lemma drop_fixed_spec flags : has_flag (drop_fixed flags) MAP_FIXED = false.
Proof.
  change MAP_FIXED with (2 ^ 4) in *. unfold drop_fixed. change MAP_FIXED with (2 ^ 4).
  destruct (has_flag flags (2 ^ 4)) eqn:E; [|done].
  rewrite flag_bit in E |- * by done. by rewrite Z.lxor_spec, E, Z.pow2_bits_true.
Qed.

Lemma noreplace_flags flags :
  has_flag (Z.lor (drop_fixed flags) MAP_FIXED_NOREPLACE) MAP_FIXED = false ∧
  has_flag (Z.lor (drop_fixed flags) MAP_FIXED_NOREPLACE) MAP_FIXED_NOREPLACE = true.
Proof.
  pose proof (drop_fixed_spec flags) as Hd. change MAP_FIXED with (2 ^ 4) in *.
  change MAP_FIXED_NOREPLACE with (2 ^ 20). rewrite !flag_bit in * by done.
  rewrite !Z.lor_spec, Hd, Z.pow2_bits_true by done. split; [done|]. by rewrite orb_true_r.
Qed.

Lemma hint_flags flags :
  has_flag (let f := drop_fixed flags in
            if has_flag f MAP_FIXED_NOREPLACE then Z.lxor f MAP_FIXED_NOREPLACE else f) MAP_FIXED = false.
Proof.
  pose proof (drop_fixed_spec flags) as Hd. cbv zeta. set (f := drop_fixed flags) in *. clearbody f.
  destruct (has_flag f MAP_FIXED_NOREPLACE); [|done].
  change MAP_FIXED with (2 ^ 4) in *. change MAP_FIXED_NOREPLACE with (2 ^ 20).
  rewrite !flag_bit in * by done. by rewrite Z.lxor_spec, Hd.
Qed.

(** A step that leaves the lists alone. *)
Record same_lists st st' : Prop := {
  sl_allocated : allocated_blocks st' = allocated_blocks st;
  sl_free : free_blocks st' = free_blocks st;
  sl_base : arena_base st' = arena_base st;
  sl_noreplace : has_map_fixed_noreplace st' = Some true → knows = true;
  sl_max : max_allocated_addr st' = max_allocated_addr st
}.

Lemma same_lists_reserves st st' : arena_ok st → same_lists st st' → reserves st st'.
Proof.
  intros [Ha Hf Hd Hn] [E1 E2 E3 E4 _]. split; [|done|by rewrite E2|done].
  split; [by rewrite E1|by rewrite E2|by rewrite E1, E2|done].
Qed.

Lemma probe_noreplace_spec st :
  arena_ok st →
  match probe_noreplace st with
  | Ok o st' => same_lists st st' ∧ same_maps st st'
  | Abort => True
  | Spin => False
  end.
Proof.
  intros Hok. unfold probe_noreplace, sys. prog_red.
  destruct (has_map_fixed_noreplace st) as [b|] eqn:Eh; [split; [split; try done; apply Hok|done]|].
  set (tf := Z.lor MAP_PRIVATE MAP_ANONYMOUS).
  destruct (sys_mmap 0 _ 0 tf _ _ (kern st)) as [[a|e] k1] eqn:E1.
  2:{ split; [split; try done|]. - cbn. by rewrite Eh.
      - intros x. cbn. by eapply mmap_fails. }
  destruct (mmap_free 0 PAGE_SIZE 0 tf (-1) 0 (kern st) a k1 eq_refl E1) as [Hfree Hmap1].
  cbn [kern set_field].
  destruct (sys_mmap a _ 0 _ _ _ k1) as [[a2|e2] k2] eqn:E2; [done|].
  cbn [kern set_field]. destruct (sys_munmap a PAGE_SIZE k2) as [[[]|e3] k3] eqn:E3; [|done].
  destruct (munmap_range _ _ _ _ E3) as (_ & _ & _ & Hmap3).
  split; [split; try done|].
  - cbn. intros [= He%Z.eqb_eq]. subst e2. destruct knows eqn:Hk; [done|].
    by destruct (mmap_eexist (K := K) a PAGE_SIZE 0 (Z.lor tf MAP_FIXED_NOREPLACE) (-1) 0 k1 k2 eq_refl).
  - intros x. cbn. rewrite Hmap3, (mmap_fails _ _ _ _ _ _ _ _ _ E2 x), Hmap1.
    specialize (Hfree x). tauto.
Qed.

(** The range is new, and is now mapped. *)
Definition maps_new st r length st' : Prop :=
  (∀ x, r ≤ x < r + length → ¬ mapped (kern st) x) ∧
  ∀ x, mapped (kern st') x ↔ mapped (kern st) x ∨ r ≤ x < r + length.

Lemma mmap_fixed_noreplace_spec addr length prot flags fd offset st :
  arena_ok st →
  match mmap_fixed_noreplace addr length prot flags fd offset st with
  | Ok (inl r) st' => r = addr ∧ 0 < r ∧ 0 < length ∧ r + length ≤ 2 ^ 63 ∧
      same_lists st st' ∧ maps_new st r length st'
  | Ok (inr e) st' => same_lists st st' ∧ same_maps st st'
  | Abort => True
  | Spin => False
  end.
Proof.
  intros Hok. unfold mmap_fixed_noreplace. pose proof (probe_noreplace_spec st Hok) as Hp.
  unfold mbind, prog_bind. destruct (probe_noreplace st) as [o st1| |]; [|done|done].
  destruct Hp as [Hl1 Hm1]. destruct o as [e|]; [done|].
  unfold get_state, sys, mret, prog_ret, abort. fold (drop_fixed flags). cbv zeta.
  destruct (default false (has_map_fixed_noreplace st1)) eqn:Eh.
  - destruct (noreplace_flags flags) as [F1 F2].
    destruct (sys_mmap _ _ _ _ _ _ (kern st1)) as [[r|e] k] eqn:E.
    + destruct (mmap_free _ _ _ _ _ _ _ _ _ F1 E) as [Hf Hm].
      destruct (mmap_range _ _ _ _ _ _ _ _ _ E) as (? & ? & ?). split.
      { eapply mmap_noreplace; [|exact F2|exact E]. apply (sl_noreplace _ _ Hl1).
        by destruct (has_map_fixed_noreplace st1) as [[|]|]. }
      do 3 (split; [done|]). destruct Hl1. split; [by split|]. split; intros x; cbn.
      * rewrite <- (Hm1 x). apply Hf.
      * by rewrite Hm, (Hm1 x).
    + destruct Hl1. split; [by split|]. intros x. cbn.
      rewrite (mmap_fails _ _ _ _ _ _ _ _ _ E x). apply Hm1.
  - pose proof (hint_flags flags) as F1. cbv zeta in F1.
    set (fl := if has_flag (drop_fixed flags) _ then _ else _) in *.
    destruct (sys_mmap _ _ _ _ _ _ (kern st1)) as [[r|e] k] eqn:E.
    + destruct (mmap_free _ _ _ _ _ _ _ _ _ F1 E) as [Hf Hm].
      destruct (mmap_range _ _ _ _ _ _ _ _ _ E) as (? & ? & ?).
      destruct (Z.eqb_spec r addr) as [->|Hne].
      * do 4 (split; [done|]). destruct Hl1. split; [by split|]. split; intros x; cbn.
        -- rewrite <- (Hm1 x). apply Hf.
        -- by rewrite Hm, (Hm1 x).
      * cbn [kern set_field]. destruct (sys_munmap r length k) as [[[]|e2] k2] eqn:E2; [|done].
        destruct (munmap_range _ _ _ _ E2) as (_ & _ & _ & Hm2).
        destruct Hl1. split; [by split|]. intros x. cbn. rewrite Hm2, Hm, <- (Hm1 x).
        specialize (Hf x). tauto.
    + destruct Hl1. split; [by split|]. intros x. cbn.
      rewrite (mmap_fails _ _ _ _ _ _ _ _ _ E x). apply Hm1.
Qed.

(** What [arena_mmap()] returns: a page-aligned range of the free list, aligned
    like the hint, that was not mapped. *)
Definition reserved_at st hint r length st' : Prop :=
  reserves st st' ∧ maps_new st r length st' ∧ 0 < r ∧ 0 < length ∧ r + length ≤ 2 ^ 63 ∧
  (fit_align_mask hint + 1 | r) ∧ ∀ x, r ≤ x < r + length → covers (free_blocks st) x.

Lemma overlapping_range addr length k :
  Forall is_range (overlapping addr length (proc_maps k)).
Proof.
  apply Forall_forall. intros b Hb.
  assert (∃ s e, (s, e) ∈ proc_maps k ∧ b = mk_block s (e - s)) as (s & e & Hin & ->).
  { revert Hb. generalize (proc_maps k). intros l. induction l as [|[s e] l IH]; simpl;
      [by intros []%not_elem_of_nil|].
    rewrite elem_of_app. intros [Hb|Hb].
    - destruct (_ && _); [|by apply not_elem_of_nil in Hb]. apply list_elem_of_singleton in Hb as ->.
      exists s, e. split; [left|done].
    - destruct (_ <=? _); [by apply not_elem_of_nil in Hb|]. destruct (IH Hb) as (s' & e' & ? & ?).
      exists s', e'. split; [by right|done]. }
  pose proof (maps_range k s e Hin). unfold is_range, b_end. cbn. lia.
Qed.

Lemma raise_max_run e st : ∃ st', raise_max e st = Ok () st' ∧
  allocated_blocks st' = allocated_blocks st ∧ free_blocks st' = free_blocks st ∧
  arena_base st' = arena_base st ∧ kern st' = kern st ∧
  has_map_fixed_noreplace st' = has_map_fixed_noreplace st.
Proof. eexists. by split. Qed.

Lemma maps_new_same st st1 r length st2 :
  same_maps st st1 → maps_new st1 r length st2 → maps_new st r length st2.
Proof.
  intros Hs [H1 H2]. split; intros x; [rewrite <- (Hs x); apply H1|by rewrite H2, (Hs x)].
Qed.

Lemma arena_tries_spec tries hint length prot flags fd offset st :
  arena_ok st → 0 ≤ hint < 2 ^ 64 → 0 < length < 2 ^ 63 →
  match arena_tries tries hint length prot flags fd offset st with
  | Ok (inl r) st' => reserved_at st hint r length st'
  | Ok (inr e) st' => reserves st st' ∧ same_maps st st'
  | Abort => True
  | Spin => False
  end.
Proof.
  intros Hok Hh Hlen. revert st Hok. induction tries as [|tries IH]; intros st Hok; cbn [arena_tries].
  { split; [by apply reserves_refl|done]. }
  unfold mbind at 1, prog_bind at 1, get_state at 1.
  destruct (fit_align hint Hh) as (k & Hk & Ek & _).
  unfold next_free_addr. rewrite Ek.
  pose proof (first_fit_spec k length (free_blocks st) Hk Hlen (proj2 (ao_free _ Hok))) as Hfit.
  destruct (first_fit _ _ (free_blocks st)) as [addr|];
    [|by split; [apply reserves_refl|]].
  destruct Hfit as (pre & b & post & Hfr & (F1 & F2 & F3) & _).
  assert (∀ x, addr ≤ x < addr + length → covers (free_blocks st) x) as Hcov.
  { intros x Hx. exists b. rewrite Hfr. split; [apply elem_of_app; right; left|].
    unfold in_block. lia. }
  pose proof (mmap_fixed_noreplace_spec addr length prot flags fd offset st Hok) as Hm.
  unfold mbind, prog_bind.
  destruct (mmap_fixed_noreplace addr length prot flags fd offset st) as [[r|e] st1| |]; [| |done|done].
  - destruct Hm as (-> & H1 & H2 & H3 & Hl & Hmn).
    destruct (raise_max_run (addr + length) st1) as (st2 & -> & E1 & E2 & E3 & E4 & E5).
    assert (reserves st st2) as Hl2.
    { destruct (same_lists_reserves _ _ Hok Hl) as [[A1 A2 A3 A4] R1 R2 R3].
      split; [split; rewrite ?E1, ?E2, ?E5; done|congruence|by rewrite E2|congruence]. }
    split; [done|]. rewrite Ek.
    split; [destruct Hmn as [M1 M2]; split; [done|by rewrite E4]|done].
  - destruct Hm as [Hl Hs]. pose proof (same_lists_reserves _ _ Hok Hl) as Hres1.
    destruct (negb _); [by split|]. unfold get_state.
    destruct (remove_frees st1 _ (rs_ok _ _ Hres1) (overlapping_range addr length (kern st1)))
      as (st2 & -> & Hres2 & Hk2).
    assert (same_maps st st2) as Hs2 by (intros x; rewrite Hk2; apply Hs).
    assert (reserves st st2) as Hres by (by eapply reserves_trans).
    specialize (IH st2 (rs_ok _ _ Hres2)).
    destruct (arena_tries tries hint length prot flags fd offset st2) as [[r|e'] st3| |]; [| |done|done].
    + destruct IH as (R1 & R2 & R3 & R4 & R5 & R6 & R7). split; [by eapply reserves_trans|].
      split; [by eapply maps_new_same|]. do 4 (split; [done|]).
      intros x Hx. by apply (rs_free _ _ Hres), R7.
    + destruct IH as [R1 R2]. split; [by eapply reserves_trans|]. intros x. rewrite (R2 x). apply Hs2.
Qed.

(** ** The wrappers *)

Lemma sys_kern {A} (f : K → A * K) st r st' :
  sys f st = Ok r st' → ∃ k, f (kern st) = (r, k) ∧ st' = st <| kern := k |>.
Proof. unfold sys. destruct (f (kern st)) as [x k]. intros [= <- <-]. by exists k. Qed.

(** A system call changes the kernel only. *)
Lemma sys_lists {A} (f : K → A * K) st :
  arena_ok st → ∃ r k, sys f st = Ok r (st <| kern := k |>) ∧ f (kern st) = (r, k) ∧
    reserves st (st <| kern := k |>).
Proof.
  intros Hok. unfold sys. destruct (f (kern st)) as [r k] eqn:E. exists r, k. do 2 (split; [done|]).
  apply same_lists_reserves; [done|]. split; try done. apply Hok.
Qed.

(** A mapping recorded after a reservation. *)
Lemma record_after st st1 b :
  reserves st st1 → block_pos b → b_end b ≤ 2 ^ 63 →
  ∃ st', (merge_allocated b ;; remove_free b) st1 = Ok () st' ∧ arena_ok st' ∧
    (∀ x, covers (allocated_blocks st') x ↔ covers (allocated_blocks st) x ∨ in_block b x) ∧
    (∀ x, covers (free_blocks st') x → covers (free_blocks st) x ∧ ¬ in_block b x) ∧
    kern st' = kern st1.
Proof.
  intros [Hok Ha Hf _] Hb He. destruct (record_mapping st1 b Hok Hb He) as (st' & Hr & Hok' & H1 & H2 & H3).
  exists st'. split; [done|]. split; [done|]. rewrite Ha in H1. split; [done|]. split; [|done].
  intros x [? ?]%H2. auto.
Qed.

(** Whether [__mmap_wrapper()] chooses the address. *)
Definition arena_chooses st (addr flags : Z) : bool :=
  negb (arena_base st =? 0) && ((addr =? 0) || negb (has_flag flags MAP_FIXED) ||
    (negb (max_allocated_addr st =? 0) && (max_allocated_addr st <? addr))).

Lemma mmap_core_spec addr length prot flags fd offset st :
  arena_ok st → 0 ≤ addr < 2 ^ 64 → 0 < ROUND_UP length PAGE_SIZE < 2 ^ 63 →
  let len := ROUND_UP length PAGE_SIZE in
  match mmap_core addr length prot flags fd offset st with
  | Ok (inl r) st' => arena_ok st' ∧ 0 < r ∧ r + len ≤ 2 ^ 63 ∧
      (∀ x, covers (allocated_blocks st') x ↔ covers (allocated_blocks st) x ∨ r ≤ x < r + len) ∧
      (∀ x, covers (free_blocks st') x → covers (free_blocks st) x ∧ ¬ (r ≤ x < r + len)) ∧
      (arena_chooses st addr flags = true →
         maps_new st r len st' ∧ (fit_align_mask addr + 1 | r) ∧
         ∀ x, r ≤ x < r + len → covers (free_blocks st) x)
  | Ok (inr e) st' => reserves st st'
  | Abort => True
  | Spin => False
  end.
Proof.
  intros Hok Ha Hlen len. unfold mmap_core. fold len.
  unfold mbind at 1, prog_bind at 1, get_state at 1. fold (arena_chooses st addr flags).
  set (fl := if negb (arena_base st =? 0) then _ else _).
  destruct (arena_chooses st addr flags) eqn:Ec.
  - pose proof (arena_tries_spec 16 addr len prot fl fd offset st Hok Ha Hlen) as Ht.
    fold (arena_mmap (K := K)) in Ht. unfold mbind at 1, prog_bind at 1.
    destruct (arena_mmap addr len prot fl fd offset st) as [[r|e] st1| |]; [|by apply Ht|done|done].
    destruct Ht as (R1 & R2 & R3 & R4 & R5 & R6 & R7).
    destruct (record_after st st1 (mk_block r len) R1) as (st' & Hrun & Hok' & H1 & H2 & H3);
      [unfold block_pos; cbn; lia|unfold b_end; cbn; lia|].
    rewrite <- prog_bind_assoc. rewrite (prog_bind_ok _ _ _ _ _ Hrun). cbn.
    split_and!; try done. intros _. split; [|done]. destruct R2 as [M1 M2]. split; [done|by rewrite H3].
  - destruct (sys_lists (sys_mmap addr len prot fl fd offset) st Hok) as (r0 & k & Hs & Hk & Hres).
    rewrite (prog_bind_ok _ _ _ _ _ Hs). destruct r0 as [r|e]; [|done].
    destruct (mmap_range _ _ _ _ _ _ _ _ _ Hk) as (? & ? & ?).
    destruct (record_after st _ (mk_block r len) Hres) as (st' & Hrun & Hok' & G1 & G2 & G3);
      [unfold block_pos; cbn; lia|unfold b_end; cbn; lia|].
    rewrite <- prog_bind_assoc. rewrite (prog_bind_ok _ _ _ _ _ Hrun). cbn. by split_and!.
Qed.

(** ** Invariance *)

(** The program keeps [arena_ok] and does not loop forever. *)
Definition keeps {A} (m : prog (arena (K := K)) A) : Prop := ∀ st, arena_ok st →
  match m st with Ok _ st' => arena_ok st' | Abort => True | Spin => False end.

Lemma keeps_bind {A B} (m : prog arena A) (f : A → prog arena B) :
  keeps m → (∀ a, keeps (f a)) → keeps (m ≫= f).
Proof.
  intros Hm Hf st Hok. specialize (Hm st Hok). unfold mbind, prog_bind.
  destruct (m st) as [a st1| |]; [by apply Hf|done|done].
Qed.
Lemma keeps_ret {A} (a : A) : keeps (mret a).
Proof. by intros st Hok. Qed.
Lemma keeps_get : keeps get_state.
Proof. by intros st Hok. Qed.
Lemma keeps_sys {A} (f : K → A * K) : keeps (sys f).
Proof.
  intros st Hok. destruct (sys_lists f st Hok) as (r & k & -> & _ & Hr). apply Hr.
Qed.
(** A change of a field that the invariant does not mention. *)
Lemma keeps_modify f :
  (∀ st, allocated_blocks (f st) = allocated_blocks st ∧ free_blocks (f st) = free_blocks st ∧
     has_map_fixed_noreplace (f st) = has_map_fixed_noreplace st) → keeps (modify f).
Proof.
  intros Hf st [? ? ? ?]. cbn. destruct (Hf st) as (E1 & E2 & E3).
  split; rewrite ?E1, ?E2, ?E3; done.
Qed.
Create HintDb keeps.
Hint Resolve keeps_bind keeps_ret keeps_get keeps_sys : keeps.

Lemma keeps_map b : block_pos b → b_end b ≤ 2 ^ 63 → keeps (merge_allocated b ;; remove_free b).
Proof. intros Hb He st Hok. by destruct (record_mapping st b Hok Hb He) as (st' & -> & ? & _). Qed.
Lemma keeps_unmap b : block_pos b → b_end b ≤ 2 ^ 63 → keeps (remove_allocated b ;; merge_free b).
Proof. intros Hb He st Hok. by destruct (record_unmapping st b Hok Hb He) as (st' & -> & ? & _). Qed.
Lemma keeps_raise e : keeps (raise_max e).
Proof. apply keeps_modify. done. Qed.

Lemma keeps_arena_mmap hint length prot flags fd offset :
  0 ≤ hint < 2 ^ 64 → 0 < length < 2 ^ 63 → keeps (arena_mmap hint length prot flags fd offset).
Proof.
  intros Hh Hl st Hok. pose proof (arena_tries_spec 16 hint length prot flags fd offset st Hok Hh Hl) as Ht.
  fold (arena_mmap (K := K)) in Ht. destruct (arena_mmap _ _ _ _ _ _ st) as [[r|e] st'| |]; [| |done|done].
  - apply Ht.
  - apply Ht.
Qed.

Lemma keeps_mmap_core addr length prot flags fd offset :
  0 ≤ addr < 2 ^ 64 → 0 < ROUND_UP length PAGE_SIZE < 2 ^ 63 →
  keeps (mmap_core addr length prot flags fd offset).
Proof.
  intros Ha Hl st Hok. pose proof (mmap_core_spec addr length prot flags fd offset st Hok Ha Hl) as Hm.
  simpl in Hm. destruct (mmap_core addr length prot flags fd offset st) as [[r|e] st'| |]; [| |done|done].
  - apply Hm.
  - apply Hm.
Qed.

Lemma round_up_reserve : 0 < ROUND_UP UH_BRK_RESERVE PAGE_SIZE < 2 ^ 63.
Proof. by vm_compute. Qed.

Lemma keeps_patchSbrk sbrk text len : keeps (patchSbrk sbrk text len).
Proof.
  unfold patchSbrk. apply keeps_bind; [apply keeps_mmap_core; [lia|apply round_up_reserve]|].
  intros [base|e]; [|apply keeps_ret]. apply keeps_bind; [apply keeps_sys|].
  intros [|]; [|apply keeps_ret]. apply keeps_bind; [apply keeps_sys|]. intros [|]; [|apply keeps_ret].
  apply keeps_bind; [by apply keeps_modify|]. intros []. apply keeps_bind; [apply keeps_sys|]. intros _. apply keeps_ret.
Qed.

Lemma keeps_mmap_wrapper addr length prot flags fd offset :
  0 ≤ addr < 2 ^ 64 → 0 < ROUND_UP length PAGE_SIZE < 2 ^ 63 →
  keeps (mmap_wrapper sbrk_offset addr length prot flags fd offset).
Proof.
  intros Ha Hl. unfold mmap_wrapper. apply keeps_bind; [by apply keeps_mmap_core|].
  intros [r|e]; (apply keeps_bind; [apply keeps_get|]); intros st; [|apply keeps_ret].
  destruct (_ && _); [|apply keeps_ret]. apply keeps_bind; [by apply keeps_modify|]. intros [].
  destruct (has_flag prot PROT_EXEC); [|apply keeps_ret].
  apply keeps_bind; [apply keeps_sys|]. intros [|]; cbn [negb]; [|apply keeps_ret].
  apply keeps_bind; [destruct (negb _); [apply keeps_bind; [apply keeps_get|]; intros ?; apply keeps_patchSbrk|apply keeps_ret]|]. intros [].
  apply keeps_bind; [apply keeps_sys|]. intros [|]; cbn [negb]; [|apply keeps_ret].
  apply keeps_bind; [by apply keeps_modify|]. intros []. apply keeps_ret.
Qed.

Lemma keeps_restore_mmap addr length prot flags fd offset :
  0 < addr → 0 < ROUND_UP length PAGE_SIZE → addr + ROUND_UP length PAGE_SIZE ≤ 2 ^ 63 →
  keeps (restore_mmap addr length prot flags fd offset).
Proof.
  intros Ha Hl He. unfold restore_mmap. apply keeps_bind; [apply keeps_raise|]. intros [].
  apply keeps_bind; [apply keeps_sys|]. intros [r|e]; [|apply keeps_ret].
  intros st Hok. rewrite <- prog_bind_assoc. revert st Hok. apply keeps_bind; [|intros; apply keeps_ret].
  apply keeps_map; [unfold block_pos; cbn; lia|unfold b_end; cbn; lia].
Qed.

Lemma keeps_munmap_wrapper addr length : 0 ≤ addr → keeps (munmap_wrapper addr length).
Proof.
  intros Ha st Hok. unfold munmap_wrapper. destruct (Z.eqb_spec addr 0); [done|].
  destruct (sys_lists (sys_munmap addr (ROUND_UP length PAGE_SIZE)) st Hok) as (r & k & Hs & Hk & Hr).
  rewrite (prog_bind_ok _ _ _ _ _ Hs). destruct r as [[]|e]; [|apply Hr].
  destruct (munmap_range _ _ _ _ Hk) as (? & ? & ? & _). rewrite <- prog_bind_assoc.
  revert Hr. intros [Hok' _ _ _]. revert Hok'. generalize (st <| kern := k |>). clear st Hok Hs Hk.
  intros st Hok. revert st Hok. apply keeps_bind; [|intros; apply keeps_ret].
  apply keeps_unmap; [unfold block_pos; cbn; lia|unfold b_end; cbn; lia].
Qed.

(** *** mremap *)

Lemma mremap_move_spec old old_size new_size flags dontunmap st :
  arena_ok st → 0 < new_size < 2 ^ 63 →
  match mremap_move old old_size new_size flags dontunmap st with
  | Ok (inl r) st' => reserves st st' ∧ 0 < old ∧ old + old_size ≤ 2 ^ 63 ∧ 0 < r ∧ r + new_size ≤ 2 ^ 63
  | Ok (inr e) st' => reserves st st'
  | Abort => True
  | Spin => False
  end.
Proof.
  intros Hok Hn. unfold mremap_move. unfold mbind at 1, prog_bind at 1, get_state at 1.
  set (in_place := _ && _).
  assert (∃ r st1, (if in_place then sys (sys_mremap old old_size new_size 0 0)
    else mret (inr ENOMEM)) st = Ok r st1 ∧ reserves st st1 ∧
    ∀ a, r = inl a → 0 < old ∧ old + old_size ≤ 2 ^ 63 ∧ 0 < a ∧ a + new_size ≤ 2 ^ 63)
    as (r & st1 & Hr & Hres & Ha).
  { destruct in_place.
    - destruct (sys_lists (sys_mremap old old_size new_size 0 0) st Hok) as (r & k & Hs & Hk & Hr).
      exists r, (st <| kern := k |>). split; [done|]. split; [done|]. intros a ->.
      by destruct (mremap_range _ _ _ _ _ _ _ _ Hk) as (? & ? & ? & ? & ?).
    - exists (inr ENOMEM), st. split; [done|]. split; [by apply reserves_refl|done]. }
  rewrite (prog_bind_ok _ _ _ _ _ Hr). destruct r as [a|e]; [by split; [|apply Ha]|].
  destruct (has_flag flags MREMAP_MAYMOVE); [|done].
  set (fl := Z.lor (Z.lor (Z.lor _ _) _) _).
  pose proof (arena_tries_spec 16 0 new_size PROT_NONE fl (-1) 0 st1 (rs_ok _ _ Hres) ltac:(lia) Hn) as Ht.
  fold (arena_mmap (K := K)) in Ht. unfold mbind at 1, prog_bind at 1.
  destruct (arena_mmap 0 new_size PROT_NONE fl (-1) 0 st1) as [[t|e2] st2| |]; [| |done|done].
  - destruct Ht as (R1 & _). assert (reserves st st2) as Hres2 by (by eapply reserves_trans).
    destruct (sys_lists (sys_mremap old old_size new_size
      (Z.lor (Z.lor MREMAP_MAYMOVE MREMAP_FIXED) dontunmap) t) st2 (rs_ok _ _ Hres2)) as (r & k & Hs & Hk & Hr2).
    rewrite (prog_bind_ok _ _ _ _ _ Hs). destruct r as [a|e2].
    + destruct (mremap_range _ _ _ _ _ _ _ _ Hk) as (? & ? & ? & ? & ?).
      split; [by eapply reserves_trans|done].
    + destruct (sys_lists (sys_munmap t new_size) _ (rs_ok _ _ Hr2)) as (r3 & k3 & Hs3 & _ & Hr3).
      rewrite (prog_bind_ok _ _ _ _ _ Hs3). cbn. eapply reserves_trans; [done|].
      by eapply reserves_trans.
  - destruct Ht as [R1 _]. by eapply reserves_trans.
Qed.

Lemma mremap_wrapper_spec old old_size0 new_size0 flags new_address st :
  let old_size := ROUND_UP old_size0 PAGE_SIZE in
  let new_size := ROUND_UP new_size0 PAGE_SIZE in
  arena_ok st → 0 < old_size → 0 < new_size < 2 ^ 63 →
  match mremap_wrapper old old_size0 new_size0 flags new_address st with
  | Ok (inl r) st' => arena_ok st' ∧
      (∀ x, covers (allocated_blocks st') x ↔
         (covers (allocated_blocks st) x ∧
          (has_flag flags MREMAP_DONTUNMAP = false → ¬ (old ≤ x < old + old_size))) ∨
         r ≤ x < r + new_size) ∧
      (∀ x, covers (free_blocks st') x →
         (covers (free_blocks st) x ∨
          (has_flag flags MREMAP_DONTUNMAP = false ∧ old ≤ x < old + old_size)) ∧
         ¬ (r ≤ x < r + new_size))
  | Ok (inr e) st' => reserves st st'
  | Abort => True
  | Spin => False
  end.
Proof.
  intros old_size new_size Hok Ho Hn. unfold mremap_wrapper. fold old_size new_size.
  unfold mbind at 1, prog_bind at 1, get_state at 1.
  set (dontunmap := Z.land flags MREMAP_DONTUNMAP). set (direct := _ || _ || _ || _).
  set (call := if direct then _ else _).
  assert (match call st with
    | Ok (inl r) st' => reserves st st' ∧ 0 < old ∧ old + old_size ≤ 2 ^ 63 ∧ 0 < r ∧ r + new_size ≤ 2 ^ 63
    | Ok (inr e) st' => reserves st st'
    | Abort => True
    | Spin => False
    end) as Hcall.
  { unfold call. destruct direct; [|by apply mremap_move_spec].
    destruct (sys_lists (sys_mremap old old_size new_size flags new_address) st Hok) as (r & k & -> & Hk & Hr).
    destruct r as [a|e]; [|done].
    by destruct (mremap_range _ _ _ _ _ _ _ _ Hk) as (? & ? & ? & ? & ?). }
  unfold mbind at 1, prog_bind at 1. destruct (call st) as [[r|e] st1| |]; [|done|done|done].
  destruct Hcall as (Hres & H1 & H2 & H3 & H4). unfold has_flag. fold dontunmap.
  assert (∃ st2, (if dontunmap =? 0 then remove_allocated (mk_block old old_size) ;;
      merge_free (mk_block old old_size) else mret ()) st1 = Ok () st2 ∧ arena_ok st2 ∧
    (∀ x, covers (allocated_blocks st2) x ↔ covers (allocated_blocks st) x ∧
       (negb (dontunmap =? 0) = false → ¬ (old ≤ x < old + old_size))) ∧
    (∀ x, covers (free_blocks st2) x → covers (free_blocks st) x ∨
       (negb (dontunmap =? 0) = false ∧ old ≤ x < old + old_size))) as (st2 & Hrun & Hok2 & HA & HF).
  { destruct Hres as [Hok1 E1 E2 E3]. destruct (dontunmap =? 0); cbn [negb].
    - destruct (record_unmapping st1 (mk_block old old_size) Hok1) as (st2 & Hr & Hok2 & G1 & G2 & _);
        [unfold block_pos; cbn; lia|unfold b_end; cbn; lia|].
      exists st2. split; [done|]. split; [done|]. split.
      + intros x. rewrite G1, E1. unfold in_block, b_end. cbn. tauto.
      + intros x. rewrite G2. unfold in_block, b_end. cbn. intros [?|?]; [left; auto|by right].
    - exists st1. split; [done|]. split; [done|]. rewrite E1. split; [intros x; split; [by split|tauto]|].
      intros x ?. left. auto. }
  rewrite (prog_bind_ok _ _ _ _ _ Hrun). rewrite <- prog_bind_assoc.
  destruct (record_mapping st2 (mk_block r new_size) Hok2) as (st3 & Hrun3 & Hok3 & G1 & G2 & _);
    [unfold block_pos; cbn; lia|unfold b_end; cbn; lia|].
  rewrite (prog_bind_ok _ _ _ _ _ Hrun3).
  destruct (raise_max_run (r + new_size) st3) as (st4 & Hrun4 & F1 & F2 & F3 & F4 & F5).
  rewrite (prog_bind_ok _ _ _ _ _ Hrun4). cbn. split.
  { destruct Hok3. split; rewrite ?F1, ?F2, ?F5; done. }
  rewrite F1, F2. split; intros x.
  - rewrite G1, HA. unfold in_block, b_end. cbn. tauto.
  - rewrite G2. unfold in_block, b_end. cbn. intros [?%HF ?]. done.
Qed.

Lemma keeps_mremap_wrapper old old_size new_size flags new_address :
  0 < ROUND_UP old_size PAGE_SIZE → 0 < ROUND_UP new_size PAGE_SIZE < 2 ^ 63 →
  keeps (mremap_wrapper old old_size new_size flags new_address).
Proof.
  intros Ho Hn st Hok. pose proof (mremap_wrapper_spec old old_size new_size flags new_address st Hok Ho Hn) as Hs.
  destruct (mremap_wrapper _ _ _ _ _ st) as [[r|e] st'| |]; [by apply Hs|by apply Hs|done|done].
Qed.

(** ** Properties *)

(** C26. The arena maps only where nothing is mapped.  When the wrapper chooses
    the address of an [mmap] (always, except for [MAP_FIXED] below the highest
    address used so far), a successful call returns a range of the arena's free
    list, aligned like the hint, in which no address was mapped before: the
    lower half's mappings, and those the lists do not know, are never
    replaced.  The range enters the list of the upper half's mappings and
    leaves the free list; no other address enters either list. *)
Theorem arena_maps_unmapped_ranges addr length prot flags fd offset st :
  arena_ok st → 0 ≤ addr < 2 ^ 64 → 0 < ROUND_UP length PAGE_SIZE < 2 ^ 63 →
  arena_chooses st addr flags = true →
  let len := ROUND_UP length PAGE_SIZE in
  match mmap_core addr length prot flags fd offset st with
  | Ok (inl r) st' =>
      (∀ x, r ≤ x < r + len → ¬ mapped (kern st) x ∧ covers (free_blocks st) x) ∧
      (∀ x, mapped (kern st') x ↔ mapped (kern st) x ∨ r ≤ x < r + len) ∧
      (fit_align_mask addr + 1 | r) ∧
      (∀ x, covers (allocated_blocks st') x ↔ covers (allocated_blocks st) x ∨ r ≤ x < r + len) ∧
      (∀ x, covers (free_blocks st') x → covers (free_blocks st) x ∧ ¬ (r ≤ x < r + len))
  | Ok (inr e) st' => allocated_blocks st' = allocated_blocks st
  | Abort => True
  | Spin => False
  end.
Proof.
  intros Hok Ha Hl Hc len. pose proof (mmap_core_spec addr length prot flags fd offset st Hok Ha Hl) as Hm.
  cbv zeta in Hm. fold len in Hm.
  destruct (mmap_core addr length prot flags fd offset st) as [[r|e] st'| |]; [| |done|done].
  - destruct Hm as (_ & _ & _ & H1 & H2 & H3). destruct (H3 Hc) as ([M1 M2] & Hd & Hf).
    split; [intros x Hx; split; auto|]. by split_and!.
  - apply Hm.
Qed.

(** Calls of the wrappers, in any order. *)
Inductive arena_call :=
  | CMmap (addr length prot flags fd offset : Z)
  | CRestore (addr length prot flags fd offset : Z)
  | CMunmap (addr length : Z)
  | CMremap (old_address old_size new_size flags new_address : Z).

Definition run_call (c : arena_call) : prog (arena (K := K)) unit :=
  match c with
  | CMmap addr length prot flags fd offset =>
      mmap_wrapper sbrk_offset addr length prot flags fd offset ;; mret ()
  | CRestore addr length prot flags fd offset =>
      restore_mmap addr length prot flags fd offset ;; mret ()
  | CMunmap addr length => munmap_wrapper addr length ;; mret ()
  | CMremap old_address old_size new_size flags new_address =>
      mremap_wrapper old_address old_size new_size flags new_address ;; mret ()
  end.

(** Addresses are 64-bit, lengths are not so large that rounding wraps, and an
    [mremap] is of a non-empty range. *)
Definition call_valid (c : arena_call) : Prop :=
  match c with
  | CMmap addr length _ _ _ _ => 0 ≤ addr < 2 ^ 64 ∧ 0 < ROUND_UP length PAGE_SIZE < 2 ^ 63
  | CRestore addr length _ _ _ _ =>
      0 < addr ∧ 0 < ROUND_UP length PAGE_SIZE ∧ addr + ROUND_UP length PAGE_SIZE ≤ 2 ^ 63
  | CMunmap addr _ => 0 ≤ addr
  | CMremap _ old_size new_size _ _ =>
      0 < ROUND_UP old_size PAGE_SIZE ∧ 0 < ROUND_UP new_size PAGE_SIZE < 2 ^ 63
  end.

Lemma keeps_call c : call_valid c → keeps (run_call c).
Proof.
  destruct c; cbn [call_valid run_call]; intros Hv; (apply keeps_bind; [|intros; apply keeps_ret]).
  - destruct Hv. by apply keeps_mmap_wrapper.
  - destruct Hv as (? & ? & ?). by apply keeps_restore_mmap.
  - by apply keeps_munmap_wrapper.
  - destruct Hv. by apply keeps_mremap_wrapper.
Qed.

(** C37. The lists stay consistent.  After any sequence of calls of the
    wrappers, both lists are sorted lists of ranges that do not overlap, and no
    address is both in a mapping of the upper half and free; no call hangs. *)
Theorem arena_calls_keep_invariant calls st :
  arena_ok st → Forall call_valid calls →
  match for_each calls run_call st with
  | Ok _ st' => blocks_ok (allocated_blocks st') ∧ blocks_ok (free_blocks st') ∧
      ∀ x, covers (allocated_blocks st') x → ¬ covers (free_blocks st') x
  | Abort => True
  | Spin => False
  end.
Proof.
  intros Hok Hv. assert (keeps (for_each calls run_call)) as Hk.
  { induction Hv as [|c calls Hc Hv IH]; simpl; [apply keeps_ret|].
    apply keeps_bind; [by apply keeps_call|done]. }
  specialize (Hk st Hok). destruct (for_each calls run_call st); [|done|done]. by destruct Hk.
Qed.

(** [mremap()] moves a mapping in the lists as the kernel did.  On success
    the old range leaves the upper half's mappings and becomes free (unless
    [MREMAP_DONTUNMAP] keeps it), and the new range is mapped and not free;
    nothing else enters a list.  On failure the upper half's mappings are
    unchanged. *)
Theorem mremap_updates_lists old old_size0 new_size0 flags new_address st :
  let old_size := ROUND_UP old_size0 PAGE_SIZE in
  let new_size := ROUND_UP new_size0 PAGE_SIZE in
  arena_ok st → 0 < old_size → 0 < new_size < 2 ^ 63 →
  match mremap_wrapper old old_size0 new_size0 flags new_address st with
  | Ok (inl r) st' =>
      (∀ x, covers (allocated_blocks st') x ↔
         (covers (allocated_blocks st) x ∧
          (has_flag flags MREMAP_DONTUNMAP = false → ¬ (old ≤ x < old + old_size))) ∨
         r ≤ x < r + new_size) ∧
      (∀ x, covers (free_blocks st') x →
         (covers (free_blocks st) x ∨
          (has_flag flags MREMAP_DONTUNMAP = false ∧ old ≤ x < old + old_size)) ∧
         ¬ (r ≤ x < r + new_size))
  | Ok (inr e) st' => allocated_blocks st' = allocated_blocks st
  | Abort => True
  | Spin => False
  end.
Proof.
  intros old_size new_size Hok Ho Hn.
  pose proof (mremap_wrapper_spec old old_size0 new_size0 flags new_address st Hok Ho Hn) as Hs.
  cbv zeta in Hs. destruct (mremap_wrapper _ _ _ _ _ st) as [[r|e] st'| |]; [|apply Hs|done|done].
  by destruct Hs as (_ & ? & ?).
Qed.

(** ** The upper half's heap *)

Definition heap_ok (h : UhBrk) : Prop :=
  0 ≤ uh_base h ∧ uh_base h ≤ uh_brk h ≤ uh_end h ∧ uh_end h < 2 ^ 63.

(** C39. The upper half's break stays in its region.  A call from libc returns
    the old break and moves it by the increment when the new break is in
    [[base, end]] and the kernel changed the pages' protection; in every other
    case, and for every other caller, it changes nothing and returns -1 (or,
    for an increment of 0 from another caller, the kernel's break). *)
Theorem uhSbrk_moves_break caller kernel_brk increment h st :
  heap_ok h →
  match uhSbrk caller kernel_brk increment h st with
  | Ok (ret, h') _ => heap_ok h' ∧
      uh_base h' = uh_base h ∧ uh_end h' = uh_end h ∧
      if decide (libc_text h ≤ caller < libc_text_end h) then
        (ret = uh_brk h ∧ uh_brk h' = uh_brk h + increment) ∨ (ret = -1 ∧ h' = h)
      else h' = h ∧ ret = (if increment =? 0 then kernel_brk else -1)
  | _ => False
  end.
Proof.
  intros Hok. pose proof Hok as (H1 & H2 & H3). unfold uhSbrk.
  destruct (decide (libc_text h ≤ caller < libc_text_end h)) as [Hc|Hc].
  2:{ assert ((caller <? libc_text h) || (libc_text_end h <=? caller) = true) as ->.
      { apply orb_true_iff. rewrite Z.ltb_lt, Z.leb_le. lia. }
      cbn. by split_and!. }
  assert ((caller <? libc_text h) || (libc_text_end h <=? caller) = false) as ->.
  { apply orb_false_iff. rewrite Z.ltb_ge, Z.leb_gt. lia. }
  cbv zeta iota.
  destruct (Z.leb_spec (uh_base h) (uh_brk h + increment)); cbn [andb];
    [|cbn; split; [done|]; split; [done|]; split; [done|by right]].
  destruct (Z.leb_spec (uh_brk h + increment) (uh_end h));
    [|cbn; split; [done|]; split; [done|]; split; [done|by right]].
  set (m := if ROUND_UP (uh_brk h) PAGE_SIZE <? _ then _ else _).
  assert (∃ ok st', m st = Ok ok st') as (ok & st' & Hm).
  { unfold m, sys. destruct (_ <? _); [destruct (sys_mprotect _ _ _ (kern st)); eauto|].
    destruct (_ <? _); [|cbn; eauto]. unfold mbind, prog_bind.
    destruct (sys_madvise_dontneed _ _ (kern st)) as [[|] k]; [|cbn; eauto].
    destruct (sys_mprotect _ _ _ _); eauto. }
  rewrite (prog_bind_ok _ _ _ _ _ Hm). destruct ok; cbn.
  - split; [|split; [done|split; [done|by left]]]. unfold heap_ok. cbn. lia.
  - split; [done|]. split; [done|]. split; [done|by right].
Qed.
End arena_spec.

(** ** A kernel that satisfies the laws

    The kernel's state is the log of the ranges that were mapped ([true]) and
    unmapped, the latest first.  It refuses a range that overlaps one that was
    ever mapped, unless the caller forces it with [MAP_FIXED]. *)

Fixpoint log_mapped (k : list (Z * Z * bool)) (x : Z) : bool :=
  match k with
  | [] => false
  | (s, e, b) :: k => if (s <=? x) && (x <? e) then b else log_mapped k x
  end.

Definition log_range (addr len : Z) : bool :=
  (0 <? addr) && (0 <? len) && (addr + len <=? 2 ^ 63).

Definition log_unused (addr len : Z) (k : list (Z * Z * bool)) : bool :=
  forallb (λ '(s, e, _), (e <=? addr) || (addr + len <=? s)) k.

Definition log_mmap (addr len _ flags _ _ : Z) (k : list (Z * Z * bool)) : (Z + Z) * list (Z * Z * bool) :=
  if negb (log_range addr len) then (inr EINVAL, k)
  else if has_flag flags MAP_FIXED || log_unused addr len k then (inl addr, (addr, addr + len, true) :: k)
  else (inr (if has_flag flags MAP_FIXED_NOREPLACE then EEXIST else ENOMEM), k).

Definition log_munmap (addr len : Z) (k : list (Z * Z * bool)) : (unit + Z) * list (Z * Z * bool) :=
  if log_range addr len then (inl (), (addr, addr + len, false) :: k) else (inr EINVAL, k).

Definition log_mremap (old old_size new_size flags new : Z) (k : list (Z * Z * bool))
  : (Z + Z) * list (Z * Z * bool) :=
  let to := if has_flag flags MREMAP_FIXED then new else old in
  if log_range old old_size && log_range to new_size then
    (inl to, (to, to + new_size, true) :: (old, old + old_size, false) :: k)
  else (inr EINVAL, k).

#[local] Instance log_kernel : Kernel (list (Z * Z * bool)) := {
  sys_mmap := log_mmap;
  sys_munmap := log_munmap;
  sys_mremap := log_mremap;
  sys_mprotect _ _ _ k := (true, k);
  sys_madvise_dontneed _ _ k := (true, k);
  proc_maps k := filter (λ m : Z * Z, m.1 ≤ m.2 ≤ 2 ^ 63)
    (omap (λ '(s, e, b), if b : bool then Some (s, e) else None) k);
  is_libc _ _ := false
}.

Lemma log_range_spec addr len :
  log_range addr len = true → 0 < addr ∧ 0 < len ∧ addr + len ≤ 2 ^ 63.
Proof. unfold log_range. rewrite !andb_true_iff, !Z.ltb_lt, Z.leb_le. tauto. Qed.

Lemma log_unused_spec addr len k x :
  log_unused addr len k = true → addr ≤ x < addr + len → log_mapped k x = false.
Proof.
  intros Hu Hx. induction k as [|[[s e] b] k IH]; [done|]. cbn in Hu |- *.
  apply andb_true_iff in Hu as [Hu1 Hu2]. apply orb_true_iff in Hu1.
  rewrite !Z.leb_le in Hu1. destruct (Z.leb_spec s x); [|by apply IH].
  destruct (Z.ltb_spec x e); [lia|by apply IH].
Qed.

Lemma log_cons_mapped s e k x :
  log_mapped ((s, e, true) :: k) x = true ↔ log_mapped k x = true ∨ s ≤ x < e.
Proof. cbn. destruct (Z.leb_spec s x), (Z.ltb_spec x e); cbn; split; auto; intros [?|?]; (lia||done). Qed.

#[local] Instance log_laws : KernelLaws (list (Z * Z * bool)) (λ k x, log_mapped k x = true) true.
Proof.
  split; cbn; unfold log_mmap, log_munmap, log_mremap.
  - intros addr len _ flags _ _ k r k'. destruct (log_range addr len) eqn:E; cbn; [|done].
    destruct (_ || _); [|done]. intros [= <- _]. by apply log_range_spec.
  - intros addr len _ flags _ _ k r k' Hf. destruct (log_range addr len); cbn; [|done]. rewrite Hf. cbn.
    destruct (log_unused addr len k) eqn:Eu; [|done]. intros [= <- <-]. split; intros x.
    + intros Hx. by rewrite (log_unused_spec addr len k x Eu Hx).
    + apply log_cons_mapped.
  - intros addr len _ flags _ _ k r k' _ _. destruct (log_range addr len); cbn; [|done].
    destruct (_ || _); by intros [= ? ?].
  - done.
  - intros addr len _ flags _ _ k e k'. destruct (log_range addr len); cbn; [|by intros [= _ <-]].
    destruct (_ || _); [done|by intros [= _ <-]].
  - intros addr len k k'. destruct (log_range addr len) eqn:E; [|done]. intros [= <-].
    apply log_range_spec in E. split; [lia|]. split; [lia|]. split; [lia|]. intros x. cbn.
    destruct (Z.leb_spec addr x), (Z.ltb_spec x (addr + len)); cbn; split; try done;
      try (intros [? ?]; try lia; done); intros ?; split; try done; lia.
  - intros addr len k e k'. destruct (log_range addr len); [done|by intros [= _ <-]].
  - intros old os ns flags new k r k'. destruct (log_range old os) eqn:E1; [|done].
    destruct (log_range _ ns) eqn:E2; [|done]. cbn. intros [= <- _].
    apply log_range_spec in E1, E2. lia.
  - intros k s e [? _]%list_elem_of_filter. done.
Qed.

(** One mapping of the upper half and a free range, part of which the lower
    half has taken. *)
Definition sample_arena : arena (K := list (Z * Z * bool)) :=
  mk_arena [mk_block 0x10000 0x1000] [mk_block 0x20000 0x10000] 0x11000 0x20000 0 (Some true) None
    [(0x10000, 0x11000, true); (0x20000, 0x21000, true)].

Lemma sample_arena_ok : arena_ok (knows := true) sample_arena.
Proof.
  split; [| | |done].
  - split; [repeat constructor|]. by repeat constructor.
  - split; [repeat constructor|]. by repeat constructor.
  - intros x (b & Hb%list_elem_of_singleton & Hx) (c & Hc%list_elem_of_singleton & Hy). subst.
    unfold in_block, b_end in *. cbn in *. lia.
Qed.

(** An anonymous mapping of 0x1800 bytes: the first try meets the lower half's
    page, the second maps the two pages after it. *)
Lemma arena_maps_unmapped_ranges_witness :
  (∃ st', mmap_core 0 0x1800 3 0x22 (-1) 0 sample_arena = Ok (inl 0x21000) st' ∧
     free_blocks st' = [mk_block 0x23000 0xd000]) ∧
  match mmap_core 0 0x1800 3 0x22 (-1) 0 sample_arena with
  | Ok (inl r) st' => ∀ x, r ≤ x < r + 0x2000 → log_mapped (kern sample_arena) x ≠ true
  | _ => False
  end.
Proof.
  split; [eexists; split; vm_compute; reflexivity|].
  pose proof (arena_maps_unmapped_ranges (knows := true) 0 0x1800 3 0x22 (-1) 0 sample_arena
    sample_arena_ok ltac:(lia) ltac:(vm_compute; done) eq_refl) as H.
  cbv zeta in H. replace (ROUND_UP 0x1800 PAGE_SIZE) with 0x2000 in H by (vm_compute; reflexivity).
  destruct (mmap_core 0 0x1800 3 0x22 (-1) 0 sample_arena) as [[r|e] st'| |] eqn:E.
  - destruct H as [H _]. intros x Hx. by apply H.
  - vm_compute in E. discriminate E.
  - vm_compute in E. discriminate E.
  - done.
Defined.

Definition sample_calls : list arena_call :=
  [CMmap 0 0x1800 3 0x22 (-1) 0; CRestore 0x40000 0x1000 3 0x22 (-1) 0;
   CMremap 0x21000 0x2000 0x4000 1 0; CMunmap 0x10000 0x1000].

Lemma arena_calls_keep_invariant_witness :
  match for_each sample_calls (run_call 0) sample_arena with
  | Ok _ st' => allocated_blocks st' = [mk_block 0x21000 0x4000; mk_block 0x40000 0x1000] ∧
      blocks_ok (allocated_blocks st')
  | _ => False
  end.
Proof.
  pose proof (arena_calls_keep_invariant (knows := true) 0 sample_calls sample_arena sample_arena_ok
    ltac:(repeat constructor; vm_compute; done)) as H.
  destruct (for_each sample_calls (run_call 0) sample_arena) as [u st'| |] eqn:E.
  - split; [|apply H]. vm_compute in E. injection E as _ <-. reflexivity.
  - vm_compute in E. discriminate E.
  - done.
Defined.

Lemma mremap_updates_lists_witness :
  match mremap_wrapper 0x10000 0x1000 0x2000 1 0 sample_arena with
  | Ok (inl r) st' => r = 0x21000 ∧ ¬ covers (allocated_blocks st') 0x10000
  | _ => False
  end.
Proof.
  pose proof (mremap_updates_lists (knows := true) 0x10000 0x1000 0x2000 1 0 sample_arena) as H.
  cbv zeta in H. specialize (H sample_arena_ok ltac:(vm_compute; done) ltac:(vm_compute; done)).
  destruct (mremap_wrapper 0x10000 0x1000 0x2000 1 0 sample_arena) as [[r|e] st'| |] eqn:E;
    [|by vm_compute in E|by vm_compute in E|done].
  assert (r = 0x21000) as -> by (vm_compute in E; congruence).
  split; [done|]. destruct H as [H _]. rewrite (H 0x10000).
  replace (ROUND_UP 0x1000 PAGE_SIZE) with 0x1000 by (vm_compute; reflexivity).
  replace (ROUND_UP 0x2000 PAGE_SIZE) with 0x2000 by (vm_compute; reflexivity).
  intros [[_ Hc]|Hc]; [|lia]. apply (Hc eq_refl). lia.
Defined.

Definition sample_heap : UhBrk := mk_uhbrk 0x51800 0x51000 0x60000 0x1000 0x2000.

Lemma uhSbrk_moves_break_witness :
  match uhSbrk 0x1800 0 0x1000 sample_heap sample_arena with
  | Ok (ret, h') _ => heap_ok h' ∧ ret = 0x51800 ∧ uh_brk h' = 0x52800
  | _ => False
  end.
Proof.
  pose proof (uhSbrk_moves_break 0x1800 0 0x1000 sample_heap sample_arena
    ltac:(unfold heap_ok; vm_compute; done)) as H.
  destruct (uhSbrk 0x1800 0 0x1000 sample_heap sample_arena) as [[ret h'] st'| |] eqn:E; [|done|done].
  split; [apply H|]. vm_compute in E. injection E as <- <- _. split; reflexivity.
Defined.
