(* ===== verification/PendingLog.v ===== *)
(** * The log of pending requests ([src/src/p2p_drain.cpp])

    The pending MPI_Isend, MPI_Issend and MPI_Irecv calls are stored in the
    virtual-ID entries of their requests and linked, in posting order, by the
    entries' [pending_prev] and [pending_next].  This file models the
    operations on the list and proves that they implement the operations on
    a list of pairs of a request and its call: the drain and the replay at
    restart go through the requests in that order.

    Each function's part under [pendingLock] is one step of the model.  A loop
    over the list has the number of slots of the table as fuel and spins
    beyond it, as it would on a cyclic list. *)
From S2P Require Import Prelude Mpi Constants VirtualId VirtualIdInv.

(** ** Operations *)

Definition addPendingRequestToLog `{MpiLib} (req : mpi_req_t)
    (sbuf rbuf cnt type remote tag comm rq : Z) : prog vid_state unit :=
  slot ← get_virt_id_entry rq;
  modify (update_entry slot (λ e, e
    <| call ::= λ c, mk_call (call_type c) sbuf rbuf cnt type comm remote tag 0 |>)) ;;
  modify (update_entry slot (λ e, e <| call ::= λ c, c <| call_type := req |> |>)) ;;
  (if bool_decide (req = ISSEND_REQUEST)
   then modify (λ st, st <| pendingIssends ::= Z.succ |>) else mret ()) ;;
  st ← get_state;
  let tail := pendingTail st in
  modify (update_entry slot (λ e, e <| pending_prev := tail |> <| pending_next := None |>)) ;;
  match tail with
  | Some t => modify (update_entry t (λ e, e <| pending_next := Some slot |>))
  | None => modify (λ st, st <| pendingHead := Some slot |>)
  end ;;
  modify (λ st, st <| pendingTail := Some slot |>).

Definition clearPendingRequestFromLog `{MpiLib} (req : Z) : prog vid_state unit :=
  st ← get_state;
  match lookup_virt_id_entry st req with
  | None => mret ()
  | Some slot =>
      entry ← deref (slot_entry st slot);
      if bool_decide (call_type (call entry) = UNKNOW_REQUEST) then mret () else
      (if bool_decide (call_type (call entry) = ISSEND_REQUEST)
       then modify (λ st, st <| pendingIssends ::= Z.pred |>) else mret ()) ;;
      match pending_prev entry with
      | Some p => modify (update_entry p (λ e, e <| pending_next := pending_next entry |>))
      | None => modify (λ st, st <| pendingHead := pending_next entry |>)
      end ;;
      match pending_next entry with
      | Some n => modify (update_entry n (λ e, e <| pending_prev := pending_prev entry |>))
      | None => modify (λ st, st <| pendingTail := pending_prev entry |>)
      end ;;
      modify (update_entry slot (λ e, e <| pending_prev := None |> <| pending_next := None |>
        <| call ::= λ c, c <| call_type := UNKNOW_REQUEST |> |>))
  end.

Definition replacePendingCall `{MpiLib} (req : Z) (c : mpi_nonblocking_call_t) : prog vid_state unit :=
  st ← get_state;
  match lookup_virt_id_entry st req with
  | None => abort
  | Some slot =>
      entry ← deref (slot_entry st slot);
      assert_ (bool_decide (call_type (call entry) ≠ UNKNOW_REQUEST)) ;;
      (if bool_decide (call_type (call entry) = ISSEND_REQUEST ∧ call_type c ≠ ISSEND_REQUEST)
       then modify (λ st, st <| pendingIssends ::= Z.pred |>) else mret ()) ;;
      modify (update_entry slot (λ e, e <| call := c |>))
  end.

(** An MPI_Issend with this envelope. *)
Definition issend_to (comm dest tag : Z) (c : mpi_nonblocking_call_t) : bool :=
  bool_decide (call_type c = ISSEND_REQUEST) && (call_comm c =? comm) &&
  (remote_node c =? dest) && (call_tag c =? tag).

Definition count_later_send (comm dest tag : Z) (c : mpi_nonblocking_call_t) : mpi_nonblocking_call_t :=
  if issend_to comm dest tag c then c <| later_sends ::= λ n, s32 (n + 1) |> else c.

Fixpoint count_from (fuel : nat) (comm dest tag : Z) (entry : option Z) : prog vid_state unit :=
  match entry, fuel with
  | None, _ => mret ()
  | Some _, O => spin
  | Some slot, S fuel' =>
      modify (update_entry slot (λ e, e <| call ::= count_later_send comm dest tag |>)) ;;
      st ← get_state;
      e ← deref (slot_entry st slot);
      count_from fuel' comm dest tag (pending_next e)
  end.

Definition pending_fuel (st : vid_state) : nat := Z.to_nat (virt_id_high_water st).

Definition countSendAfterIssends (comm dest tag : Z) : prog vid_state unit :=
  st ← get_state;
  if pendingIssends st =? 0 then mret ()
  else count_from (pending_fuel st) comm dest tag (pendingHead st).

Fixpoint requests_from (fuel : nat) (entry : option Z) : prog vid_state (list Z) :=
  match entry, fuel with
  | None, _ => mret []
  | Some _, O => spin
  | Some slot, S fuel' =>
      st ← get_state;
      e ← deref (slot_entry st slot);
      requests ← requests_from fuel' (pending_next e);
      mret (virt e :: requests)
  end.

Definition pendingRequestsInPostingOrder : prog vid_state (list Z) :=
  st ← get_state; requests_from (pending_fuel st) (pendingHead st).

Definition pendingRequestType `{MpiLib} (req : Z) : prog vid_state mpi_req_t :=
  st ← get_state;
  match entry_of st req with
  | None => mret UNKNOW_REQUEST
  | Some entry => mret (call_type (call entry))
  end.

(** [None] if it returns false. *)
Definition getPendingCall `{MpiLib} (req : Z) : prog vid_state (option mpi_nonblocking_call_t) :=
  st ← get_state;
  match entry_of st req with
  | None => mret None
  | Some entry =>
      if bool_decide (call_type (call entry) = UNKNOW_REQUEST) then mret None
      else mret (Some (call entry))
  end.

Fixpoint uses_from (fuel : nat) (type : Z) (entry : option Z) : prog vid_state bool :=
  match entry, fuel with
  | None, _ => mret false
  | Some _, O => spin
  | Some slot, S fuel' =>
      st ← get_state;
      e ← deref (slot_entry st slot);
      if call_datatype (call e) =? type then mret true else uses_from fuel' type (pending_next e)
  end.

Definition pendingCallUsesDatatype (type : Z) : prog vid_state bool :=
  st ← get_state; uses_from (pending_fuel st) type (pendingHead st).

(** ** The list of a state *)

Definition call_of (st : vid_state) (slot : Z) : mpi_nonblocking_call_t :=
  default zero_call (call <$> slot_entry st slot).

(** The requests of the slots [l] with their calls. *)
Definition log_of (st : vid_state) (l : list Z) : list (Z * mpi_nonblocking_call_t) :=
  (λ s, (handle_of st s, call_of st s)) <$> l.

Definition is_issend (p : Z * mpi_nonblocking_call_t) : Prop := call_type p.2 = ISSEND_REQUEST.
#[export] Instance is_issend_dec p : Decision (is_issend p).
Proof. unfold is_issend. apply _. Defined.
Definition issends (log : list (Z * mpi_nonblocking_call_t)) : Z := Z.of_nat (length (filter is_issend log)).

(** The slots [l] are doubly linked in this order. *)
Definition linked (st : vid_state) (l : list Z) : Prop :=
  ∀ l1 s l2, l = l1 ++ s :: l2 →
    ∃ e, slot_entry st s = Some e ∧ pending_prev e = last l1 ∧ pending_next e = head l2.

Record pending_ok (st : vid_state) (live l : list Z) : Prop := {
  po_nodup : NoDup l;
  po_live : ∀ s, s ∈ l → s ∈ live;
  po_links : linked st l;
  po_head : pendingHead st = head l;
  po_tail : pendingTail st = last l;
  po_type : ∀ s, s ∈ live → call_type (call_of st s) ≠ UNKNOW_REQUEST ↔ s ∈ l;
  po_issends : pendingIssends st = issends (log_of st l)
}.

(** The log that a state stands for. *)
Definition log_repr (st : vid_state) (free live : list Z) (log : list (Z * mpi_nonblocking_call_t)) : Prop :=
  vid_ok st free live ∧ ∃ l, pending_ok st live l ∧ log = log_of st l.

Lemma log_repr_init : log_repr init_vid [] [] [].
Proof.
  split; [apply vid_init_ok|]. exists []. split; [|done]. split; try done.
  - constructor.
  - by intros [|??].
  - intros s Hs. by apply not_elem_of_nil in Hs.
Qed.

(** ** The table under the log's updates *)

(** The fields of the state that the log's operations do not change. *)
Definition table_fields (st : vid_state) :=
  (consts st, virt_id_free_head st, virt_id_high_water st, virt_id_next_seq st, virt_id_live st).

Lemma vid_inv_ext st st' free live taken :
  table_fields st' = table_fields st → virt_id_chunks st' = virt_id_chunks st →
  vid_inv st free live taken → vid_inv st' free live taken.
Proof.
  destruct st, st'. unfold table_fields. cbn. intros [= -> -> -> -> ->] ->.
  intros []. split; try assumption. by eapply free_chain_ext; [|eassumption].
Qed.

Lemma benign_call f : benign (λ e, e <| call ::= f |>).
Proof. intros e. do 4 (split; [done|]). done. Qed.
Lemma benign_links f g : benign (λ e, e <| pending_prev ::= f |> <| pending_next ::= g |>).
Proof. intros e. do 4 (split; [done|]). done. Qed.
Lemma benign_prev f : benign (λ e, e <| pending_prev ::= f |>).
Proof. intros e. do 4 (split; [done|]). done. Qed.
Lemma benign_next f : benign (λ e, e <| pending_next ::= f |>).
Proof. intros e. do 4 (split; [done|]). done. Qed.
Lemma benign_unlink f g h :
  benign (λ e, e <| pending_prev ::= f |> <| pending_next ::= g |> <| call ::= h |>).
Proof. intros e. do 4 (split; [done|]). done. Qed.
#[export] Hint Resolve update_live_ok benign_call benign_links benign_prev benign_next benign_unlink : mana.

Lemma handle_of_update s f st x :
  (∀ e, virt (f e) = virt e) → handle_of (update_entry s f st) x = handle_of st x.
Proof.
  intros Hf. unfold handle_of. rewrite slot_entry_update. case_decide; [|done]. subst.
  destruct (slot_entry st x); [|done]. simpl. apply Hf.
Qed.

Lemma call_of_update s f st x :
  call_of (update_entry s f st) x =
    if decide (s = x) then default zero_call ((λ e, call (f e)) <$> slot_entry st x) else call_of st x.
Proof.
  unfold call_of. rewrite slot_entry_update. case_decide; [|done]. subst.
  by destruct (slot_entry st x).
Qed.

Lemma log_of_ext st st' l :
  (∀ s, s ∈ l → handle_of st' s = handle_of st s ∧ call_of st' s = call_of st s) →
  log_of st' l = log_of st l.
Proof.
  intros Hl. apply list_fmap_ext. intros i s Hs%list_elem_of_lookup_2.
  by destruct (Hl s Hs) as [-> ->].
Qed.

Lemma log_of_lookup st free live l s :
  vid_ok st free live → (∀ x, x ∈ l → x ∈ live) → s ∈ live →
  list_find (λ p, p.1 = handle_of st s) (log_of st l) =
    (λ '(i, x), (i, (handle_of st x, call_of st x))) <$> list_find (.= s) l.
Proof.
  intros Hok Hl Hs. induction l as [|x l IH]; [done|].
  simpl. assert (x ∈ live) by (apply Hl; left).
  destruct (decide (x = s)) as [->|Hne]; [by rewrite !decide_True|].
  rewrite decide_False by (intros E; by apply Hne, (handle_of_inj st free live [])).
  rewrite IH by (intros; apply Hl; by right).
  by destruct (list_find (.= s) l) as [[]|].
Qed.

Lemma issends_app l k : issends (l ++ k) = issends l + issends k.
Proof. unfold issends. rewrite filter_app, length_app. lia. Qed.
Lemma issends_cons p l : issends (p :: l) = issends [p] + issends l.
Proof. apply (issends_app [p]). Qed.
Lemma issends_one h c : issends [(h, c)] = if decide (call_type c = ISSEND_REQUEST) then 1 else 0.
Proof.
  unfold issends. rewrite filter_cons, filter_nil.
  destruct (decide (is_issend (h, c))) as [Hi|Hi], (decide (call_type c = ISSEND_REQUEST)); done.
Qed.

(** ** Adding a request *)

Lemma linked_snoc st st' l s :
  NoDup l → s ∉ l →
  (∀ x, x ∈ l → last l ≠ Some x → slot_entry st' x = slot_entry st x) →
  (∀ x, last l = Some x → slot_entry st' x = (λ e, e <| pending_next := Some s |>) <$> slot_entry st x) →
  (∃ e, slot_entry st' s = Some e ∧ pending_prev e = last l ∧ pending_next e = None) →
  linked st l → linked st' (l ++ [s]).
Proof.
  intros Hnd Hs Hkeep Hlast Hnew Hl l1 x l2 E.
  destruct l2 as [|y l2 _] using rev_ind.
  { apply app_inj_tail in E as [-> ->]. done. }
  rewrite app_comm_cons, app_assoc in E. apply app_inj_tail in E as [-> ->].
  destruct (Hl l1 x l2 eq_refl) as (e & He & Hp & Hn).
  destruct l2 as [|z l2].
  - rewrite Hlast, He by (by rewrite last_snoc). eexists. split; [done|]. done.
  - exists e. rewrite Hkeep; [done|set_solver|].
    rewrite last_app_cons, last_cons_cons. intros E%last_Some_elem_of.
    apply NoDup_app in Hnd as (_ & _ & Hnd). apply NoDup_cons in Hnd as [Hnd _]. done.
Qed.

(** [vid_ok] of a state made by the log's updates of live entries. *)
Ltac table_ok :=
  lazymatch goal with
  | |- vid_ok (set_field _ _ ?X) _ _ =>
      apply (vid_inv_ext X); [reflexivity|reflexivity|]; table_ok
  | |- vid_inv (set_field _ _ ?X) _ _ _ =>
      apply (vid_inv_ext X); [reflexivity|reflexivity|]; table_ok
  | |- vid_ok (update_entry _ _ _) _ _ =>
      apply update_live_ok; [table_ok|eauto with mana|eauto with mana]
  | |- vid_inv (update_entry _ _ _) _ _ _ =>
      apply update_live_ok; [table_ok|eauto with mana|eauto with mana]
  | |- _ => assumption
  end.

(** The call that [addPendingRequestToLog()] stores. *)
Definition new_call (req : mpi_req_t) (sbuf rbuf cnt type remote tag comm : Z) : mpi_nonblocking_call_t :=
  mk_call req sbuf rbuf cnt type comm remote tag 0.

(** What is left to show for the state after a request was appended. *)
Lemma pending_snoc st st' free live l slot c :
  vid_ok st free live → vid_ok st' free live → pending_ok st live l →
  slot ∈ live → slot ∉ l → call_type c ≠ UNKNOW_REQUEST →
  (∀ x e, slot_entry st x = Some e → x ≠ slot → last l ≠ Some x → slot_entry st' x = Some e) →
  (∀ x, last l = Some x → slot_entry st' x = (λ e, e <| pending_next := Some slot |>) <$> slot_entry st x) →
  (∃ e0, slot_entry st slot = Some e0 ∧
     slot_entry st' slot = Some (e0 <| call := c |> <| pending_prev := last l |> <| pending_next := None |>)) →
  pendingHead st' = head (l ++ [slot]) → pendingTail st' = Some slot →
  pendingIssends st' = pendingIssends st + issends [(handle_of st slot, c)] →
  pending_ok st' live (l ++ [slot]) ∧
    log_of st' (l ++ [slot]) = log_of st l ++ [(handle_of st slot, c)].
Proof.
  intros Hok Hok' [Hnd Hlv Hln Hhd Htl Hty Hiss] Hin Hnin Hc Hkeep Hlast (e0 & He0 & Hnew) Hh Ht Hi.
  assert (∀ x, x ∈ live → x ≠ slot → handle_of st' x = handle_of st x ∧ call_of st' x = call_of st x) as Hsame.
  { intros x Hx Hne. destruct (inv_live_entry _ _ _ _ _ Hok Hx) as (e & ? & He & _).
    unfold handle_of, call_of. destruct (decide (last l = Some x)) as [E|E].
    - by rewrite (Hlast x E), He.
    - by rewrite (Hkeep x e He Hne E), He. }
  assert (log_of st' (l ++ [slot]) = log_of st l ++ [(handle_of st slot, c)]) as Hlog.
  { unfold log_of. rewrite fmap_app. f_equal.
    - apply log_of_ext. intros x Hx. apply Hsame; [auto|]. by intros ->.
    - simpl. unfold handle_of, call_of. by rewrite Hnew, He0. }
  split; [|done]. split.
  - apply NoDup_app. split; [done|]. split; [|apply NoDup_singleton]. set_solver.
  - intros x [Hx| ->]%elem_of_snoc; auto.
  - apply (linked_snoc st); [done|done| |done| |done].
    + intros x Hx Hnl. destruct (inv_live_entry _ _ _ _ _ Hok (Hlv x Hx)) as (e & ? & He & _).
      rewrite He. apply Hkeep; [done| |done]. by intros ->.
    + eexists. split; [exact Hnew|]. done.
  - done.
  - by rewrite last_snoc.
  - intros x Hx. rewrite elem_of_snoc. destruct (decide (x = slot)) as [->|Hne].
    + unfold call_of. rewrite Hnew. cbn. tauto.
    + destruct (Hsame x Hx Hne) as [_ ->]. rewrite Hty by done. tauto.
  - by rewrite Hlog, issends_app, Hi, Hiss.
Qed.

Lemma add_pending_run `{MpiLib} st free live l slot req sbuf rbuf cnt type remote tag comm :
  vid_ok st free live → pending_ok st live l → slot ∈ live → slot ∉ l → req ≠ UNKNOW_REQUEST →
  let c := new_call req sbuf rbuf cnt type remote tag comm in
  ∃ st', addPendingRequestToLog req sbuf rbuf cnt type remote tag comm (handle_of st slot) st = Ok () st' ∧
    vid_ok st' free live ∧ pending_ok st' live (l ++ [slot]) ∧
    log_of st' (l ++ [slot]) = log_of st l ++ [(handle_of st slot, c)].
Proof.
  intros Hok Hp Hin Hnin Hreq c.
  destruct (inv_live_entry _ _ _ _ _ Hok Hin) as (e & k & He & Hl).
  unfold addPendingRequestToLog, get_virt_id_entry. prog_red. rewrite (lookup_live _ _ _ _ _ Hok Hin).
  set (iss := if bool_decide (req = ISSEND_REQUEST) then _ else _).
  assert (∀ t, iss t = Ok () (t <| pendingIssends ::= Z.add (issends [(0, c)]) |>)) as Hiss.
  { intros t. unfold iss. rewrite issends_one. cbn. case_bool_decide; destruct (decide _); try done.
    - unfold set_field. by rewrite Z.add_1_l.
    - by destruct t. }
  rewrite Hiss. cbn [pendingTail set_field update_entry].
  pose proof Hp as [Hnd Hlv Hln Hhd Htl Hty Hi].
  rewrite Htl. destruct (last l) as [t|] eqn:Elast.
  - assert (t ∈ l) as Ht by by apply last_Some_elem_of.
    assert (slot ≠ t) by (by intros ->). assert (t ≠ slot) by done.
    eexists. split; [reflexivity|]. set (st' := _ <| pendingTail := _ |>).
    assert (vid_ok st' free live) as Hok' by (unfold st'; table_ok).
    split; [exact Hok'|].
    apply (pending_snoc st st' free live l slot c); rewrite ?Elast; try done.
    + intros x ex Hx Hne Hnl. assert (t ≠ x) by congruence.
      unfold st'. by autorewrite with entry.
    + intros x [= <-]. unfold st'. by autorewrite with entry.
    + exists e. split; [done|]. unfold st'. autorewrite with entry. by rewrite He.
    + unfold st'. cbn. rewrite Hhd. by destruct l.
    + unfold st'. cbn [pendingIssends set_field update_entry]. rewrite !issends_one. lia.
  - apply last_None in Elast as ->.
    eexists. split; [reflexivity|]. set (st' := _ <| pendingTail := _ |>).
    assert (vid_ok st' free live) as Hok' by (unfold st'; table_ok).
    split; [exact Hok'|].
    apply (pending_snoc st st' free live [] slot c); try done.
    + intros x ex Hx Hne Hnl. unfold st'. by autorewrite with entry.
    + exists e. split; [done|]. unfold st'. autorewrite with entry. by rewrite He.
    + unfold st'. cbn [pendingIssends set_field update_entry]. rewrite !issends_one. lia.
Qed.

(** ** Removing a request *)

(** The entry of slot [x] after the slot between [a] and [b] was unlinked. *)
Definition relink (a b : list Z) (x : Z) (e : virt_id_entry) : virt_id_entry :=
  e <| pending_prev ::= λ p, if decide (head b = Some x) then last a else p |>
    <| pending_next ::= λ n, if decide (last a = Some x) then head b else n |>.

Lemma NoDup_last_not a (x y : Z) b : NoDup (a ++ x :: b) → y ∈ b → last (a ++ [x]) ≠ Some y ∧ last a ≠ Some y.
Proof.
  intros (_ & H1 & [H2 _]%NoDup_cons)%NoDup_app Hy. rewrite last_snoc. split.
  - intros [= ->]. done.
  - intros Hl%last_Some_elem_of. apply (H1 y Hl). by right.
Qed.

Lemma linked_remove st st' a s b :
  NoDup (a ++ s :: b) → linked st (a ++ s :: b) →
  (∀ x, x ≠ s → slot_entry st' x = relink a b x <$> slot_entry st x) →
  linked st' (a ++ b).
Proof.
  intros Hnd Hl Hent l1 x l2 E.
  assert (x ≠ s) as Hne.
  { intros ->. apply NoDup_app in Hnd as (_ & H1 & [H2 _]%NoDup_cons).
    assert (s ∈ a ++ b) as [Hs|Hs]%elem_of_app by (rewrite E; set_solver); [|done].
    apply (H1 s Hs). left. }
  rewrite Hent by done.
  apply app_eq_inv in E as [(k & -> & E)|(k & -> & ->)].
  - destruct k as [|y k]; simplify_eq/=.
    + (* x is the first of b *)
      rewrite app_nil_r in *. destruct (Hl (l1 ++ [s]) x l2) as (e & He & Hp & Hn).
      { by rewrite <- app_assoc. }
      rewrite He. eexists. split; [done|]. unfold relink. cbn.
      rewrite decide_True by done. split; [done|].
      rewrite decide_False; [done|].
      apply (NoDup_last_not l1 s x (x :: l2)); [done|left].
    + destruct (Hl l1 y (k ++ s :: b)) as (e & He & Hp & Hn); [by rewrite <- app_assoc|].
      rewrite He. eexists. split; [done|]. unfold relink. cbn. rewrite Hp, Hn.
      rewrite <- app_assoc, <- app_comm_cons in Hnd. apply NoDup_app in Hnd as (_ & _ & Hnd).
      apply NoDup_cons in Hnd as [Hy Hnd]. split.
      * rewrite decide_False; [done|]. intros Hb. apply Hy, elem_of_app. right. right.
        destruct b; [done|]. simplify_eq/=. left.
      * destruct k as [|z k]; simpl.
        -- by rewrite decide_True by (by rewrite last_snoc).
        -- rewrite decide_False; [done|]. rewrite last_app_cons, last_cons_cons.
           intros Hb%last_Some_elem_of. apply Hy, elem_of_app. by left.
  - destruct (Hl (a ++ s :: k) x l2) as (e & He & Hp & Hn); [by rewrite <- app_assoc|].
    rewrite He. eexists. split; [done|]. unfold relink. cbn. rewrite Hp, Hn. split.
    + destruct k as [|z k]; simpl.
      * by rewrite decide_True, app_nil_r by done.
      * rewrite decide_False.
        -- by rewrite !last_app_cons, last_cons_cons.
        -- intros [= ->]. apply NoDup_app in Hnd as (_ & _ & [_ Hnd]%NoDup_cons).
           apply NoDup_cons in Hnd as [Hnd _]. apply Hnd. set_solver.
    + rewrite decide_False; [done|].
      apply (NoDup_last_not a s x (k ++ x :: l2)); [done|set_solver].
Qed.

Lemma filter_split (a b : list Z) s : NoDup (a ++ s :: b) → filter (.≠ s) (a ++ s :: b) = a ++ b.
Proof.
  intros (_ & H1 & [H2 _]%NoDup_cons)%NoDup_app. rewrite filter_app, filter_cons_False by tauto.
  rewrite !filter_id; [done| |].
  - by intros x Hx ->.
  - intros x Hx ->. apply (H1 s Hx). left.
Qed.

Lemma log_of_filter st free live l s :
  vid_ok st free live → (∀ x, x ∈ l → x ∈ live) → s ∈ live →
  log_of st (filter (.≠ s) l) = filter (λ p, p.1 ≠ handle_of st s) (log_of st l).
Proof.
  intros Hok Hl Hs. induction l as [|x l IH]; [done|]. unfold log_of in *. rewrite fmap_cons, !filter_cons.
  rewrite <- IH by (intros; apply Hl; by right). cbn.
  destruct (decide (x ≠ s)) as [Hne|Hne]; destruct (decide (handle_of st x ≠ _)) as [Hh|Hh]; try done.
  - destruct Hh. intros E. apply Hne. eapply handle_of_inj; [exact Hok| |done|done]. apply Hl. left.
  - destruct Hne. by intros ->.
Qed.

(** What is left to show for the state after a request was unlinked. *)
Lemma pending_remove st st' free live a slot b :
  vid_ok st free live → pending_ok st live (a ++ slot :: b) →
  (∀ x, x ≠ slot → slot_entry st' x = relink a b x <$> slot_entry st x) →
  slot_entry st' slot = (λ e, e <| pending_prev := None |> <| pending_next := None |>
      <| call ::= λ c, c <| call_type := UNKNOW_REQUEST |> |>) <$> slot_entry st slot →
  pendingHead st' = head (a ++ b) → pendingTail st' = last (a ++ b) →
  pendingIssends st' = pendingIssends st - issends [(0, call_of st slot)] →
  pending_ok st' live (a ++ b) ∧ log_of st' (a ++ b) = log_of st (a ++ b).
Proof.
  intros Hok [Hnd Hlv Hln Hhd Htl Hty Hiss] Hent Hslot Hh Ht Hi.
  assert (slot ∈ live) as Hin by (apply Hlv; set_solver).
  assert (∀ x, x ∈ a ++ b → x ≠ slot) as Hne.
  { intros x Hx ->. rewrite <- (filter_split a b slot Hnd) in Hx. apply list_elem_of_filter in Hx as [? _]. done. }
  assert (∀ x, x ≠ slot → handle_of st' x = handle_of st x ∧ call_of st' x = call_of st x) as Hsame.
  { intros x Hx. unfold handle_of, call_of. rewrite Hent by done. by destruct (slot_entry st x). }
  assert (log_of st' (a ++ b) = log_of st (a ++ b)) as Hlog by (apply log_of_ext; auto).
  split; [|done]. split; try done.
  - rewrite <- (filter_split a b slot Hnd). by apply NoDup_filter.
  - intros x Hx. apply Hlv. set_solver.
  - by apply (linked_remove st st' a slot b).
  - intros x Hx. destruct (decide (x = slot)) as [->|Hxs].
    + destruct (inv_live_entry _ _ _ _ _ Hok Hin) as (e & ? & He & _).
      unfold call_of. rewrite Hslot, He. cbn. split; [done|]. by intros []%Hne.
    + destruct (Hsame x Hxs) as [_ ->]. rewrite Hty by done. set_solver.
  - rewrite Hlog, Hi, Hiss. unfold log_of. rewrite !fmap_app, !fmap_cons, !issends_app.
    rewrite issends_cons, !issends_one. lia.
Qed.

Lemma head_mid (a b : list Z) s :
  head (a ++ b) = match last a with Some _ => head (a ++ s :: b) | None => head b end.
Proof. destruct a as [|x a]; [done|]. rewrite last_cons. by destruct (last a). Qed.
Lemma last_mid (a b : list Z) s :
  last (a ++ b) = match head b with Some _ => last (a ++ s :: b) | None => last a end.
Proof.
  destruct b as [|x b]; [by rewrite app_nil_r|]. simpl.
  by rewrite !last_app_cons, last_cons_cons.
Qed.

Lemma clear_pending_run `{MpiLib} st free live l slot :
  vid_ok st free live → pending_ok st live l → slot ∈ live →
  ∃ st', clearPendingRequestFromLog (handle_of st slot) st = Ok () st' ∧
    vid_ok st' free live ∧ pending_ok st' live (filter (.≠ slot) l) ∧
    log_of st' (filter (.≠ slot) l) = filter (λ p, p.1 ≠ handle_of st slot) (log_of st l).
Proof.
  intros Hok Hp Hin. rewrite <- (log_of_filter st free live l slot Hok (po_live _ _ _ Hp) Hin).
  destruct (inv_live_entry _ _ _ _ _ Hok Hin) as (e & k & He & _).
  unfold clearPendingRequestFromLog. prog_red. rewrite (lookup_live _ _ _ _ _ Hok Hin), He.
  assert (call_of st slot = call e) as Hcall by (unfold call_of; by rewrite He).
  pose proof (po_type _ _ _ Hp slot Hin) as Hty. rewrite Hcall in Hty.
  case_bool_decide as Hu.
  { exists st. rewrite filter_id; [done|]. intros x Hx ->. by apply Hty in Hx. }
  apply Hty in Hu as (a & b & ->)%list_elem_of_split.
  rewrite filter_split by apply Hp.
  destruct (po_links _ _ _ Hp a slot b eq_refl) as (e' & He' & Hprev & Hnext). simplify_eq.
  set (iss := if bool_decide (_ = ISSEND_REQUEST) then _ else _).
  assert (∀ t, iss t = Ok () (t <| pendingIssends ::= λ n, n - issends [(0, call e)] |>)) as Hiss.
  { intros t. unfold iss. rewrite issends_one. cbn. case_bool_decide; destruct (decide _); try done.
    unfold set_field. destruct t. cbn. by rewrite Z.sub_0_r. }
  rewrite Hiss. clear iss Hiss.
  assert (∀ x, last a = Some x ∨ head b = Some x → x ∈ live ∧ x ≠ slot) as Hnb.
  { pose proof (po_nodup _ _ _ Hp) as (_ & H1 & [H2 _]%NoDup_cons)%NoDup_app. intros x [Hx|Hx].
    - apply last_Some_elem_of in Hx. split; [apply (po_live _ _ _ Hp); set_solver|].
      intros ->. apply (H1 slot Hx). left.
    - destruct b; [done|]. simplify_eq/=. split; [apply (po_live _ _ _ Hp); set_solver|].
      intros ->. apply H2. left. }
  rewrite Hprev, Hnext. pose proof (head_mid a b slot) as Hmid. pose proof (last_mid a b slot) as Hmid'.
  pose proof (po_head _ _ _ Hp) as Hhd. pose proof (po_tail _ _ _ Hp) as Htl.
  destruct (last a) as [p|] eqn:Ea, (head b) as [n|] eqn:Eb; cbn [pendingHead pendingTail];
    (eexists; split; [reflexivity|]);
    (set (st' := update_entry slot _ _));
    (assert (vid_ok st' free live) as Hok' by (unfold st'; table_ok; apply Hnb; auto));
    (split; [exact Hok'|]);
    (apply (pending_remove st st' free live a slot b Hok Hp);
    [intros x Hx; unfold st', relink; rewrite ?Ea, ?Eb; repeat (autorewrite with entry;
       rewrite ?slot_entry_update); repeat case_decide; simplify_eq; by destruct (slot_entry st x) as [[]|]
    |unfold st'; rewrite slot_entry_update_eq; f_equal;
       repeat (autorewrite with entry; rewrite ?slot_entry_update); repeat case_decide; subst;
       solve [done|by destruct (Hnb slot) as [_ []]; auto]
    |cbn; by rewrite Hmid|cbn; by rewrite Hmid'|by rewrite Hcall]).
Qed.

(** ** Loops over the list *)

(** The slots from an entry on, linked by [pending_next]. *)
Fixpoint chain (st : vid_state) (l : list Z) : Prop :=
  match l with
  | [] => True
  | s :: l' => (∃ e, slot_entry st s = Some e ∧ pending_next e = head l') ∧ chain st l'
  end.

Lemma linked_chain st l : linked st l → chain st l.
Proof.
  intros Hl. assert (∀ l1 l2, l = l1 ++ l2 → chain st l2) as Hs; [|by apply (Hs [])].
  intros l1 l2. revert l1. induction l2 as [|s l2 IH]; intros l1 E; [done|]. split.
  - destruct (Hl l1 s l2 E) as (e & He & _ & Hn). by exists e.
  - apply (IH (l1 ++ [s])). by rewrite <- app_assoc.
Qed.

(** The list is no longer than the table. *)
Lemma pending_fuel_enough st free live l :
  vid_ok st free live → pending_ok st live l → (length l ≤ pending_fuel st)%nat.
Proof.
  intros Hok Hp. unfold pending_fuel.
  replace (Z.to_nat (virt_id_high_water st)) with (length (seqZ 0 (virt_id_high_water st)))
    by by rewrite length_seqZ.
  apply submseteq_length, NoDup_submseteq; [apply Hp|]. intros s Hs.
  apply elem_of_seqZ. destruct (inv_live _ _ _ _ Hok s (po_live _ _ _ Hp s Hs)) as (? & _). lia.
Qed.

Lemma requests_from_run fuel st l :
  chain st l → (length l ≤ fuel)%nat → requests_from fuel (head l) st = Ok (handle_of st <$> l) st.
Proof.
  revert l. induction fuel as [|fuel IH]; intros [|s l] Hc Hf; try done; cbn in Hf; [lia|].
  destruct Hc as [(e & He & Hn) Hc]. cbn [head requests_from]. prog_red. rewrite He, Hn.
  rewrite IH by (done || lia). cbn. unfold handle_of. by rewrite He.
Qed.

Lemma uses_from_run fuel type st l :
  chain st l → (length l ≤ fuel)%nat →
  uses_from fuel type (head l) st = Ok (existsb (λ p, call_datatype p.2 =? type) (log_of st l)) st.
Proof.
  revert l. induction fuel as [|fuel IH]; intros [|s l] Hc Hf; try done; cbn in Hf; [lia|].
  destruct Hc as [(e & He & Hn) Hc]. cbn [head uses_from]. prog_red. rewrite He, Hn.
  unfold log_of. rewrite fmap_cons. cbn [existsb fst snd].
  replace (call_of st s) with (call e) by (unfold call_of; by rewrite He).
  destruct (_ =? type); [done|]. apply IH; [done|lia].
Qed.

(** The state after [count_from] went through the slots [l]. *)
Definition counted (comm dest tag : Z) (l : list Z) (st : vid_state) : vid_state :=
  foldl (λ st s, update_entry s (λ e, e <| call ::= count_later_send comm dest tag |>) st) st l.

Lemma chain_update_call s f st l : chain st l → chain (update_entry s (λ e, e <| call ::= f |>) st) l.
Proof.
  induction l as [|x l IH]; [done|]. intros [(e & He & Hn) Hc]. split; [|by apply IH].
  rewrite slot_entry_update, He. case_decide; eexists; by split.
Qed.

Lemma count_from_run fuel comm dest tag st l :
  chain st l → (length l ≤ fuel)%nat →
  count_from fuel comm dest tag (head l) st = Ok () (counted comm dest tag l st).
Proof.
  revert st l. induction fuel as [|fuel IH]; intros st [|s l] Hc Hf; try done; cbn in Hf; [lia|].
  destruct Hc as [(e & He & Hn) Hc]. cbn [head count_from]. prog_red.
  autorewrite with entry. rewrite He. cbn [fmap option_fmap option_map pending_next set_field].
  rewrite Hn. rewrite IH; [done|by apply chain_update_call|lia].
Qed.

Lemma counted_spec comm dest tag l st free live :
  NoDup l → (∀ s, s ∈ l → s ∈ live) → vid_ok st free live →
  let st' := counted comm dest tag l st in
  vid_ok st' free live ∧ (pendingHead st' = pendingHead st ∧ pendingTail st' = pendingTail st ∧
    pendingIssends st' = pendingIssends st) ∧
  ∀ x, slot_entry st' x = (λ e, if decide (x ∈ l) then e <| call ::= count_later_send comm dest tag |>
                                else e) <$> slot_entry st x.
Proof.
  revert st. induction l as [|s l IH]; intros st Hnd Hl Hok.
  { split; [done|]. split; [done|]. intros x. change (counted comm dest tag [] st) with st.
    destruct (slot_entry st x); [|done]. cbn [fmap option_fmap option_map].
    by rewrite decide_False by apply not_elem_of_nil. }
  apply NoDup_cons in Hnd as [Hs Hnd]. cbn [counted foldl].
  destruct (IH (update_entry s (λ e, e <| call ::= count_later_send comm dest tag |>) st) Hnd)
    as (Hok' & Hf & Hent); [intros; apply Hl; by right| |].
  { apply update_live_ok; [done|apply Hl; left|apply benign_call]. }
  split; [exact Hok'|]. split; [exact Hf|]. intros x. fold (counted comm dest tag l).
  rewrite Hent, slot_entry_update. destruct (slot_entry st x) as [e|]; [|by destruct (decide (s = x))].
  destruct (decide (s = x)) as [->|Hne]; cbn.
  - rewrite decide_False by done. by rewrite decide_True by left.
  - destruct (decide (x ∈ l)); [by rewrite decide_True by (by right)|].
    rewrite decide_False; [done|]. by intros [->|?]%elem_of_cons.
Qed.

(** ** Changing calls in place *)

Lemma pending_map st st' free live l (g : Z → mpi_nonblocking_call_t → mpi_nonblocking_call_t) :
  vid_ok st free live → pending_ok st live l →
  (∀ x, slot_entry st' x = (λ e, if decide (x ∈ l) then e <| call ::= g x |> else e) <$> slot_entry st x) →
  pendingHead st' = pendingHead st → pendingTail st' = pendingTail st →
  (∀ x, x ∈ l → call_type (g x (call_of st x)) ≠ UNKNOW_REQUEST) →
  pendingIssends st' = issends ((λ s, (handle_of st s, g s (call_of st s))) <$> l) →
  pending_ok st' live l ∧ log_of st' l = (λ s, (handle_of st s, g s (call_of st s))) <$> l.
Proof.
  intros Hok [Hnd Hlv Hln Hhd Htl Hty Hiss] Hent Hh Ht Hg Hi.
  assert (log_of st' l = (λ s, (handle_of st s, g s (call_of st s))) <$> l) as Hlog.
  { apply list_fmap_ext. intros i x Hx%list_elem_of_lookup_2. unfold handle_of, call_of. rewrite Hent.
    destruct (inv_live_entry _ _ _ _ _ Hok (Hlv x Hx)) as (e & ? & -> & _). simpl.
    by rewrite decide_True by done. }
  split; [|done]. split; try congruence; try done.
  - intros l1 s l2 E. destruct (Hln l1 s l2 E) as (e & He & ? & ?). rewrite Hent, He.
    eexists. split; [done|]. by case_decide.
  - intros x Hx. destruct (inv_live_entry _ _ _ _ _ Hok Hx) as (e & ? & He & _).
    pose proof (Hty x Hx) as Hx'. pose proof (Hg x) as Hgx. unfold call_of in *. rewrite Hent, He in *. cbn in *.
    destruct (decide (x ∈ l)); cbn; [|done]. split; [done|]. intros _. by apply Hgx.
Qed.
