(* ===== verification/PendingLogSpec.v ===== *)
(** * The log of pending requests as a list

    The specification of the log is a list of pairs of a request and its call,
    in posting order.  The theorems show that the operations of [PendingLog]
    implement those of the list, that its readers return what the list holds,
    and that the operations of the virtual-ID table keep it. *)
From S2P Require Import Prelude Mpi Constants VirtualId VirtualIdInv PendingLog.

Inductive log_op :=
  | LAdd (req : mpi_req_t) (sbuf rbuf cnt type remote tag comm rq : Z)
  | LClear (rq : Z)
  | LReplace (rq : Z) (c : mpi_nonblocking_call_t)
  | LCount (comm dest tag : Z).

Definition run_log_op `{MpiLib} (op : log_op) : prog vid_state unit :=
  match op with
  | LAdd req sbuf rbuf cnt type remote tag comm rq =>
      addPendingRequestToLog req sbuf rbuf cnt type remote tag comm rq
  | LClear rq => clearPendingRequestFromLog rq
  | LReplace rq c => replacePendingCall rq c
  | LCount comm dest tag => countSendAfterIssends comm dest tag
  end.

(** The specification. *)
Definition spec_log_op (op : log_op) (log : list (Z * mpi_nonblocking_call_t))
  : list (Z * mpi_nonblocking_call_t) :=
  match op with
  | LAdd req sbuf rbuf cnt type remote tag comm rq =>
      log ++ [(rq, new_call req sbuf rbuf cnt type remote tag comm)]
  | LClear rq => filter (λ p, p.1 ≠ rq) log
  | LReplace rq c => (λ p, if decide (p.1 = rq) then (p.1, c) else p) <$> log
  | LCount comm dest tag => (λ p, (p.1, count_later_send comm dest tag p.2)) <$> log
  end.

(** A new request is live and not pending; a replaced one is pending, and only
    an MPI_Issend's call is replaced by an MPI_Issend's. *)
Definition log_op_valid `{MpiLib} (st : vid_state) (log : list (Z * mpi_nonblocking_call_t)) (op : log_op) : Prop :=
  match op with
  | LAdd req _ _ _ _ _ _ _ rq =>
      req ≠ UNKNOW_REQUEST ∧ _handle rq = rq ∧ is_Some (lookup_virt_id_entry st rq) ∧ rq ∉ log.*1
  | LClear rq => _handle rq = rq
  | LReplace rq c =>
      _handle rq = rq ∧ rq ∈ log.*1 ∧ call_type c ≠ UNKNOW_REQUEST ∧
      ∀ c0, (rq, c0) ∈ log → call_type c = ISSEND_REQUEST → call_type c0 = ISSEND_REQUEST
  | LCount _ _ _ => True
  end.

(** A handle that is found names a live slot. *)
Lemma lookup_handle `{MpiLib} st free live rq slot :
  vid_ok st free live → _handle rq = rq → lookup_virt_id_entry st rq = Some slot →
  slot ∈ live ∧ rq = handle_of st slot.
Proof. intros Hok Hh Hl. destruct (lookup_sound _ _ _ _ _ _ Hok Hl) as [? ->]. by rewrite Hh. Qed.

Lemma log_of_handles st l : (log_of st l).*1 = handle_of st <$> l.
Proof. unfold log_of. rewrite <- list_fmap_compose. by apply list_fmap_ext. Qed.

Lemma handle_in_log st free live l s :
  vid_ok st free live → (∀ x, x ∈ l → x ∈ live) → s ∈ live →
  handle_of st s ∈ (log_of st l).*1 ↔ s ∈ l.
Proof.
  intros Hok Hl Hs. rewrite log_of_handles, list_elem_of_fmap. split.
  - intros (x & E & Hx). by rewrite (handle_of_inj st free live [] s x) by auto.
  - intros. by exists s.
Qed.

(** A handle that is not found is not in the log. *)
Lemma log_not_found `{MpiLib} st free live l rq :
  vid_ok st free live → (∀ x, x ∈ l → x ∈ live) → lookup_virt_id_entry st rq = None →
  rq ∉ (log_of st l).*1.
Proof.
  intros Hok Hl Hn. rewrite log_of_handles, list_elem_of_fmap. intros (x & -> & Hx).
  by rewrite (lookup_live _ _ _ _ x Hok (Hl x Hx)) in Hn.
Qed.

Lemma clear_unknown `{MpiLib} st rq :
  lookup_virt_id_entry st rq = None → clearPendingRequestFromLog rq st = Ok () st.
Proof. intros Hn. unfold clearPendingRequestFromLog. prog_red. by rewrite Hn. Qed.

(** ** Replacing and counting *)

Lemma replace_pending_run `{MpiLib} st free live l slot c :
  vid_ok st free live → pending_ok st live l → slot ∈ l → call_type c ≠ UNKNOW_REQUEST →
  (call_type c = ISSEND_REQUEST → call_type (call_of st slot) = ISSEND_REQUEST) →
  ∃ st', replacePendingCall (handle_of st slot) c st = Ok () st' ∧
    vid_ok st' free live ∧ pending_ok st' live l ∧
    log_of st' l = (λ p, if decide (p.1 = handle_of st slot) then (p.1, c) else p) <$> log_of st l.
Proof.
  intros Hok Hp Hs Hc Hiss. pose proof (po_live _ _ _ Hp slot Hs) as Hin.
  destruct (inv_live_entry _ _ _ _ _ Hok Hin) as (e & k & He & _).
  assert (call_of st slot = call e) as Hcall by (unfold call_of; by rewrite He).
  unfold replacePendingCall. prog_red. rewrite (lookup_live _ _ _ _ _ Hok Hin), He.
  pose proof (proj2 (po_type _ _ _ Hp slot Hin) Hs) as Ht. rewrite Hcall in Ht, Hiss.
  rewrite bool_decide_eq_true_2 by done.
  set (g := λ (x : Z) c0, if decide (x = slot) then c else c0).
  set (dec := if bool_decide (_ ∧ _) then _ else _).
  assert (∀ t, dec t = Ok () (t <| pendingIssends ::= λ n, n - (issends [(0, call e)] - issends [(0, c)]) |>)) as Hdec.
  { intros t. unfold dec. rewrite !issends_one. unfold set_field. destruct t. cbn.
    case_bool_decide as Hb; repeat case_decide; cbn; try tauto; f_equal; f_equal; lia. }
  rewrite Hdec. clear dec Hdec. eexists. split; [reflexivity|]. set (st' := update_entry slot _ _).
  assert (vid_ok st' free live) as Hok'.
  { unfold st'. apply update_live_ok; [|done|apply benign_call]. by apply (vid_inv_ext st). }
  split; [exact Hok'|].
  assert (∀ l', (∀ x, x ∈ l' → x ∈ live) →
    (λ s, (handle_of st s, g s (call_of st s))) <$> l' =
      (λ p, if decide (p.1 = handle_of st slot) then (p.1, c) else p) <$> log_of st l') as Hmap.
  { intros l' Hl'. unfold log_of. rewrite <- list_fmap_compose. apply list_fmap_ext.
    intros i x Hx%list_elem_of_lookup_2. cbn. unfold g. destruct (decide (x = slot)) as [->|Hne].
    - by rewrite decide_True.
    - rewrite decide_False; [done|]. intros E. apply Hne. eapply handle_of_inj; [exact Hok|by apply Hl'|done|done]. }
  rewrite <- Hmap by apply Hp.
  apply (pending_map st st' free live l g Hok Hp); try done.
  - intros x. unfold st'. rewrite slot_entry_update. unfold g.
    change (slot_entry (set_field _ _ st) x) with (slot_entry st x).
    destruct (slot_entry st x) as [ex|] eqn:Ex; [|by case_decide]. destruct (decide (slot = x)) as [<-|Hne].
    + cbn. rewrite decide_True by done. f_equal. unfold set_field. by rewrite decide_True.
    + cbn. destruct (decide (x ∈ l)); [|done]. f_equal. unfold set_field. rewrite decide_False by done.
      by destruct ex.
  - intros x Hx. unfold g. case_decide; [done|]. apply (po_type _ _ _ Hp); [|done]. by apply Hp.
  - unfold st'. cbn [pendingIssends set_field update_entry]. rewrite (po_issends _ _ _ Hp).
    apply list_elem_of_split in Hs as (a & b & ->). pose proof (po_nodup _ _ _ Hp) as Hnd.
    assert (∀ l', slot ∉ l' → (λ s, (handle_of st s, g s (call_of st s))) <$> l' = log_of st l') as Hg.
    { intros l' Hl'. apply list_fmap_ext. intros i x Hx%list_elem_of_lookup_2. unfold g.
      rewrite decide_False; [done|]. by intros ->. }
    apply NoDup_app in Hnd as (_ & H1 & [H2 _]%NoDup_cons).
    rewrite !fmap_app, !fmap_cons, !Hg by (try done; intros Hx; apply (H1 slot Hx); left).
    unfold log_of. rewrite fmap_app, fmap_cons, !issends_app, !(issends_cons _ (_ <$> b)), !issends_one.
    unfold g. destruct (decide (slot = slot)); [|done]. rewrite Hcall. lia.
Qed.

Lemma issends_count comm dest tag log :
  issends ((λ p, (p.1, count_later_send comm dest tag p.2)) <$> log) = issends log.
Proof.
  induction log as [|[h c] log IH]; [done|]. rewrite fmap_cons, !(issends_cons _ (_ <$> log)), IH.
  rewrite (issends_cons _ log), !issends_one. cbn [fst snd].
  replace (call_type (count_later_send comm dest tag c)) with (call_type c); [done|].
  unfold count_later_send. by destruct (issend_to comm dest tag c).
Qed.

(** With no MPI_Issend pending there is nothing to count. *)
Lemma no_issends comm dest tag log :
  issends log = 0 → (λ p, (p.1, count_later_send comm dest tag p.2)) <$> log = log.
Proof.
  induction log as [|[h c] log IH]; [done|]. rewrite issends_cons, issends_one. intros Hz.
  assert (0 ≤ issends log) by (unfold issends; lia). destruct (decide _) as [|Hne] in Hz; [lia|].
  rewrite fmap_cons, IH by lia. unfold count_later_send, issend_to. cbn [fst snd].
  by rewrite bool_decide_eq_false_2.
Qed.

Lemma count_pending_run st free live l comm dest tag :
  vid_ok st free live → pending_ok st live l →
  ∃ st', countSendAfterIssends comm dest tag st = Ok () st' ∧ vid_ok st' free live ∧
    pending_ok st' live l ∧
    log_of st' l = (λ p, (p.1, count_later_send comm dest tag p.2)) <$> log_of st l.
Proof.
  intros Hok Hp. unfold countSendAfterIssends. prog_red.
  destruct (Z.eqb_spec (pendingIssends st) 0) as [Hz|Hz].
  { exists st. rewrite no_issends by (by rewrite <- (po_issends _ _ _ Hp)). done. }
  rewrite (po_head _ _ _ Hp), count_from_run; [|apply linked_chain, Hp|by eapply pending_fuel_enough].
  eexists. split; [reflexivity|].
  destruct (counted_spec comm dest tag l st free live (po_nodup _ _ _ Hp) (po_live _ _ _ Hp) Hok)
    as (Hok' & (Hh & Ht & Hi) & Hent).
  split; [exact Hok'|].
  assert ((λ p, (p.1, count_later_send comm dest tag p.2)) <$> log_of st l =
    (λ s, (handle_of st s, count_later_send comm dest tag (call_of st s))) <$> l) as Hmap.
  { unfold log_of. rewrite <- list_fmap_compose. by apply list_fmap_ext. }
  rewrite Hmap. apply (pending_map st _ free live l (λ _, count_later_send comm dest tag)); try done.
  - intros x Hx. assert (call_type (call_of st x) ≠ UNKNOW_REQUEST).
    { apply (po_type _ _ _ Hp); [|done]. by apply Hp. }
    unfold count_later_send. by destruct (issend_to _ _ _ _).
  - by rewrite <- Hmap, issends_count, Hi, (po_issends _ _ _ Hp).
Qed.

(** ** The theorems *)

Lemma log_op_run `{MpiLib} st free live log op :
  log_repr st free live log → log_op_valid st log op →
  ∃ st', run_log_op op st = Ok () st' ∧ log_repr st' free live (spec_log_op op log).
Proof.
  intros [Hok (l & Hp & ->)]. pose proof (po_live _ _ _ Hp) as Hlv.
  destruct op as [req sb rb cnt type remote tag comm rq|rq|rq c|comm dest tag]; cbn [log_op_valid run_log_op spec_log_op].
  - intros (Hreq & Hh & [slot Hs] & Hnew). destruct (lookup_handle _ _ _ _ _ Hok Hh Hs) as [Hin ->].
    rewrite (handle_in_log st free live l slot Hok Hlv Hin) in Hnew.
    destruct (add_pending_run st free live l slot req sb rb cnt type remote tag comm Hok Hp Hin Hnew Hreq)
      as (st' & Hrun & Hok' & Hp' & Hlog).
    exists st'. split; [done|]. split; [done|]. by exists (l ++ [slot]).
  - intros Hh. destruct (lookup_virt_id_entry st rq) as [slot|] eqn:Hs.
    + destruct (lookup_handle _ _ _ _ _ Hok Hh Hs) as [Hin ->].
      destruct (clear_pending_run st free live l slot Hok Hp Hin) as (st' & Hrun & Hok' & Hp' & Hlog).
      exists st'. split; [done|]. split; [done|]. by eexists.
    + exists st. rewrite clear_unknown by done. split; [done|]. split; [done|]. exists l. split; [done|].
      apply filter_id. intros p Hp1 E. apply (log_not_found st free live l rq Hok Hlv Hs).
      rewrite <- E. by apply list_elem_of_fmap_2.
  - intros (Hh & Hin & Hc & Hiss). rewrite log_of_handles in Hin.
    apply list_elem_of_fmap in Hin as (slot & -> & Hin).
    destruct (replace_pending_run st free live l slot c Hok Hp Hin Hc) as (st' & Hrun & Hok' & Hp' & Hlog).
    { apply Hiss. by apply (list_elem_of_fmap_2 (λ s, (handle_of st s, call_of st s))). }
    exists st'. split; [done|]. split; [done|]. by exists l.
  - intros _. destruct (count_pending_run st free live l comm dest tag Hok Hp) as (st' & Hrun & Hok' & Hp' & Hlog).
    exists st'. split; [done|]. split; [done|]. by exists l.
Qed.

(** C24. The log is a list in posting order.  Adding a pending request appends
    its call, clearing removes it wherever it stands (and does nothing for a
    request that the application has freed), replacing its call keeps its
    place, and counting a later send raises [later_sends] of every pending
    MPI_Issend with that envelope and of no other call. *)
Theorem log_ops_refine `{MpiLib} st free live log op :
  log_repr st free live log → log_op_valid st log op →
  ∃ st', run_log_op op st = Ok () st' ∧ log_repr st' free live (spec_log_op op log).
Proof. apply log_op_run. Qed.

(** The call of a request in a log. *)
Definition log_lookup (log : list (Z * mpi_nonblocking_call_t)) (rq : Z) : option mpi_nonblocking_call_t :=
  snd ∘ snd <$> list_find (λ p, p.1 = rq) log.

Lemma log_lookup_slot st free live l slot :
  vid_ok st free live → (∀ x, x ∈ l → x ∈ live) → slot ∈ live →
  log_lookup (log_of st l) (handle_of st slot) = if decide (slot ∈ l) then Some (call_of st slot) else None.
Proof.
  intros Hok Hl Hs. unfold log_lookup. rewrite (log_of_lookup st free live) by done.
  destruct (list_find (.= slot) l) as [[i x]|] eqn:E.
  - apply list_find_Some in E as (Hx & -> & _). apply list_elem_of_lookup_2 in Hx.
    by rewrite decide_True.
  - rewrite decide_False; [done|]. intros Hin. rewrite list_find_None, Forall_forall in E.
    by eapply E.
Qed.

Lemma log_reads_run `{MpiLib} st free live log :
  log_repr st free live log →
  pendingRequestsInPostingOrder st = Ok log.*1 st ∧
  (∀ rq, _handle rq = rq →
     getPendingCall rq st = Ok (log_lookup log rq) st ∧
     pendingRequestType rq st = Ok (default UNKNOW_REQUEST (call_type <$> log_lookup log rq)) st) ∧
  ∀ type, pendingCallUsesDatatype type st = Ok (existsb (λ p, call_datatype p.2 =? type) log) st.
Proof.
  intros [Hok (l & Hp & ->)]. pose proof (po_live _ _ _ Hp) as Hlv.
  assert (chain st l) as Hc by apply linked_chain, Hp.
  pose proof (pending_fuel_enough st free live l Hok Hp) as Hf. split; [|split].
  - unfold pendingRequestsInPostingOrder. prog_red. rewrite (po_head _ _ _ Hp), requests_from_run by done.
    by rewrite log_of_handles.
  - intros rq Hh. unfold getPendingCall, pendingRequestType, entry_of. prog_red.
    destruct (lookup_virt_id_entry st rq) as [slot|] eqn:Hs.
    + destruct (lookup_handle _ _ _ _ _ Hok Hh Hs) as [Hin ->].
      rewrite (log_lookup_slot st free live) by done.
      destruct (inv_live_entry _ _ _ _ _ Hok Hin) as (e & k & He & _).
      pose proof (po_type _ _ _ Hp slot Hin) as Ht. unfold call_of in *. rewrite He in *.
      cbn [mbind option_bind fmap option_fmap option_map default from_option id] in *.
      rewrite He. cbv beta iota.
      destruct (decide (slot ∈ l)) as [Hl|Hl].
      * rewrite bool_decide_eq_false_2 by tauto. done.
      * assert (call_type (call e) = UNKNOW_REQUEST) as Hu
          by (destruct (decide (call_type (call e) = UNKNOW_REQUEST)); tauto).
        rewrite bool_decide_eq_true_2 by done. by rewrite Hu.
    + cbn. assert (log_lookup (log_of st l) rq = None) as ->; [|done].
      unfold log_lookup. apply fmap_None, list_find_None, Forall_forall. intros p Hpl E.
      apply (log_not_found st free live l rq Hok Hlv Hs). rewrite <- E. by apply list_elem_of_fmap_2.
  - intros type. unfold pendingCallUsesDatatype. prog_red. by rewrite (po_head _ _ _ Hp), uses_from_run.
Qed.

(** The readers of the log return what it holds.
    [pendingRequestsInPostingOrder()] ends and returns the requests in posting
    order; a request that is not pending, or that was freed, has type
    [UNKNOW_REQUEST] and no call; [pendingCallUsesDatatype()] looks at every
    pending call. *)
Theorem log_reads `{MpiLib} st free live log :
  log_repr st free live log →
  pendingRequestsInPostingOrder st = Ok log.*1 st ∧
  (∀ rq, _handle rq = rq →
     getPendingCall rq st = Ok (log_lookup log rq) st ∧
     pendingRequestType rq st = Ok (default UNKNOW_REQUEST (call_type <$> log_lookup log rq)) st) ∧
  ∀ type, pendingCallUsesDatatype type st = Ok (existsb (λ p, call_datatype p.2 =? type) log) st.
Proof. apply log_reads_run. Qed.

(** ** The table's operations *)

Definition pending_fields (st : vid_state) := (pendingHead st, pendingTail st, pendingIssends st).

(** The parts of an entry that the log uses. *)
Definition log_part (e : virt_id_entry) := (virt e, call e, pending_prev e, pending_next e).

Lemma pending_ok_frame st st' live live' l :
  pending_ok st live l → pending_fields st' = pending_fields st →
  (∀ x, x ∈ l → log_part <$> slot_entry st' x = log_part <$> slot_entry st x) →
  (∀ x, x ∈ l → x ∈ live') →
  (∀ x, x ∈ live' → call_type (call_of st' x) ≠ UNKNOW_REQUEST ↔ x ∈ l) →
  pending_ok st' live' l ∧ log_of st' l = log_of st l.
Proof.
  intros [Hnd Hlv Hln Hhd Htl Hty Hi] [= Eh Et Ei] Hent Hl' Hty'.
  assert (log_of st' l = log_of st l) as Hlog.
  { apply log_of_ext. intros x Hx. specialize (Hent x Hx). unfold handle_of, call_of.
    destruct (slot_entry st' x), (slot_entry st x); simplify_eq/=; [|done].
    split; congruence. }
  split; [|done]. split; try congruence; try done.
  intros l1 s l2 E. destruct (Hln l1 s l2 E) as (e & He & Hpr & Hnx).
  assert (s ∈ l) as Hs by (rewrite E; set_solver). specialize (Hent s Hs). rewrite He in Hent.
  destruct (slot_entry st' s) as [e'|]; [|done]. exists e'. split; [done|].
  simplify_eq/=. split; congruence.
Qed.

Lemma alloc_chunks_fields from upto st st' :
  alloc_chunks from upto st = Ok () st' → pending_fields st' = pending_fields st.
Proof.
  unfold alloc_chunks. generalize (seqZ from (upto - from + 1)). intros l. revert st.
  induction l as [|c l IH]; intros st; cbn [for_each].
  - unfold mret, prog_ret. by intros [= ->].
  - prog_red. intros E. by rewrite (IH _ E).
Qed.

Lemma alloc_slot_fields st s st' : alloc_slot st = Ok s st' → pending_fields st' = pending_fields st.
Proof.
  unfold alloc_slot. prog_red. destruct (0 <=? _).
  - destruct (slot_entry st _); [|done]. by intros [= _ <-].
  - destruct (_ <? _); [done|]. destruct (alloc_chunks _ _ st) as [[] st1| |] eqn:E; [|done|done].
    intros [= _ <-]. by rewrite <- (alloc_chunks_fields _ _ _ _ E).
Qed.

Lemma add_virt_id_fields real d kind st h st' :
  add_virt_id real d kind st = Ok h st' → pending_fields st' = pending_fields st.
Proof.
  unfold add_virt_id. intros (s & st1 & E & H1)%prog_bind_inv.
  rewrite <- (alloc_slot_fields _ _ _ E). revert H1. prog_red.
  destruct (slot_entry st1 s); [|done]. by intros [= _ <-].
Qed.

Lemma add_keeps_log st free live l real d kind h st' :
  vid_ok st free live → pending_ok st live l →
  1 ≤ kind ≤ MANA_NUM_KINDS → desc_kind kind d → virt_id_next_seq st + 1 < 2 ^ 64 →
  add_virt_id real d kind st = Ok h st' →
  ∃ free' live', vid_ok st' free' live' ∧ pending_ok st' live' l ∧ log_of st' l = log_of st l ∧
    h ∉ (log_of st l).*1.
Proof.
  intros Hok Hp Hk Hd Hn Hrun. pose proof (add_virt_id_fields _ _ _ _ _ _ Hrun) as Hf.
  pose proof (add_virt_id_spec st free live real d kind Hok Hk Hd Hn) as Ha. cbv zeta in Ha.
  destruct (_ <? _); [by rewrite Ha in Hrun|].
  destruct Ha as (st2 & e & Hrun2 & Hok' & He & Hl & _ & _ & Hcall & _ & _ & Hfresh & _ & _ & _ & Hold & _).
  rewrite Hrun in Hrun2. injection Hrun2 as -> <-. set (s := next_slot st free) in *.
  assert (∀ x, x ∈ live → slot_entry st' x = slot_entry st x) as Hsame.
  { intros x Hx. apply Hold; [apply (inv_live _ _ _ _ Hok x Hx)|]. by intros ->. }
  assert (s ∉ l) as Hsl by (intros Hs; by apply Hfresh, Hp).
  destruct (pending_ok_frame st st' live (live ++ [s]) l Hp Hf) as [Hp' Hlog].
  { intros x Hx. by rewrite Hsame by (by apply Hp). }
  { intros x Hx. apply elem_of_snoc. left. by apply Hp. }
  { intros x [Hx| ->]%elem_of_snoc.
    - rewrite <- (po_type _ _ _ Hp x Hx). unfold call_of. by rewrite Hsame.
    - unfold call_of. rewrite He. cbn. rewrite Hcall. tauto. }
  exists (tail free), (live ++ [s]). do 3 (split; [done|]). rewrite <- Hlog.
  replace (virt e) with (handle_of st' s) by (unfold handle_of; by rewrite He).
  rewrite (handle_in_log st' (tail free) (live ++ [s]) l s Hok' (po_live _ _ _ Hp')); [done|].
  apply elem_of_snoc. by right.
Qed.

Lemma free_keeps_log `{MpiLib} st free live l slot :
  vid_ok st free live → pending_ok st live l → slot ∈ live →
  if decide (slot ∈ l) then free_virt_id (handle_of st slot) st = Abort
  else ∃ st', free_virt_id (handle_of st slot) st = Ok () st' ∧
    vid_ok st' (slot :: free) (filter (.≠ slot) live) ∧
    pending_ok st' (filter (.≠ slot) live) l ∧ log_of st' l = log_of st l.
Proof.
  intros Hok Hp Hin. destruct (inv_live_entry _ _ _ _ _ Hok Hin) as (e & k & He & _).
  pose proof (free_virt_id_run st free live slot e Hok Hin He) as Hr.
  pose proof (po_type _ _ _ Hp slot Hin) as Ht.
  replace (handle_of st slot) with (virt e) by (unfold handle_of; by rewrite He).
  unfold call_of in Ht. rewrite He in Ht. cbn in Ht.
  destruct (decide (slot ∈ l)) as [Hl|Hl].
  { rewrite decide_False in Hr by tauto. done. }
  assert (call_type (call e) = UNKNOW_REQUEST) as Hu
    by (destruct (decide (call_type (call e) = UNKNOW_REQUEST)); tauto).
  rewrite decide_True in Hr by done. destruct Hr as [pool Hr].
  eexists. split; [exact Hr|]. split; [by eapply freed_ok|].
  apply (pending_ok_frame st _ live); [done|done|..].
  - intros x Hx. by rewrite freed_entry_ne by (by intros ->).
  - intros x Hx. apply elem_of_remove. split; [by apply Hp|]. by intros ->.
  - intros x [Hx Hne]%elem_of_remove. unfold call_of. rewrite freed_entry_ne by done.
    apply (po_type _ _ _ Hp x Hx).
Qed.

(** An update of a live entry that keeps its handle, call and links. *)
Lemma update_keeps_log st free live l slot f :
  vid_ok st free live → pending_ok st live l → slot ∈ live → benign f →
  (∀ e, log_part (f e) = log_part e) →
  vid_ok (update_entry slot f st) free live ∧ pending_ok (update_entry slot f st) live l ∧
    log_of (update_entry slot f st) l = log_of st l.
Proof.
  intros Hok Hp Hin Hf Hlp. split; [by apply update_live_ok|].
  assert (∀ x, log_part <$> slot_entry (update_entry slot f st) x = log_part <$> slot_entry st x) as Hent.
  { intros x. rewrite slot_entry_update. case_decide; [|done]. destruct (slot_entry st x); [|done].
    cbn. by rewrite Hlp. }
  apply (pending_ok_frame st _ live); [done|done|auto|apply Hp|].
  intros x Hx. rewrite <- (po_type _ _ _ Hp x Hx). unfold call_of. specialize (Hent x).
  destruct (slot_entry (update_entry slot f st) x), (slot_entry st x); simplify_eq/=; [|done].
  split; congruence.
Qed.

(** The table and the log agree.  A new virtual ID is not in the log and
    leaves it unchanged, as does the update or completion of a request and the
    release of one that is not pending; [free_virt_id()] of a pending request
    fails its assertion. *)
Theorem table_ops_keep_log `{MpiLib} st free live log :
  log_repr st free live log →
  (∀ real d kind h st', 1 ≤ kind ≤ MANA_NUM_KINDS → desc_kind kind d → virt_id_next_seq st + 1 < 2 ^ 64 →
     add_virt_id real d kind st = Ok h st' →
     (h ∉ log.*1) ∧ ∃ free' live', log_repr st' free' live' log) ∧
  (∀ h st', _handle h = h → free_virt_id h st = Ok () st' → ∃ free' live', log_repr st' free' live' log) ∧
  (∀ h, h ∈ log.*1 → free_virt_id h st = Abort) ∧
  (∀ h real st', update_virt_id h real st = Ok () st' → log_repr st' free live log) ∧
  (∀ h null s st', complete_virt_request null h s st = Ok () st' → log_repr st' free live log).
Proof.
  intros [Hok (l & Hp & ->)]. pose proof (po_live _ _ _ Hp) as Hlv. split; [|split; [|split; [|split]]].
  - intros real d kind h st' Hk Hd Hn Hrun.
    destruct (add_keeps_log st free live l real d kind h st' Hok Hp Hk Hd Hn Hrun)
      as (free' & live' & Hok' & Hp' & Hlog & Hh).
    split; [done|]. exists free', live'. split; [done|]. by exists l.
  - intros h st' Hh Hrun. destruct (lookup_virt_id_entry st h) as [slot|] eqn:Hs.
    2:{ unfold free_virt_id in Hrun. prog_red in Hrun. by rewrite Hs in Hrun. }
    destruct (lookup_handle _ _ _ _ _ Hok Hh Hs) as [Hin ->].
    pose proof (free_keeps_log st free live l slot Hok Hp Hin) as Hf. rewrite Hrun in Hf.
    destruct (decide (slot ∈ l)); [done|]. destruct Hf as (st2 & [= <-] & Hok' & Hp' & Hlog).
    eexists _, _. split; [done|]. by exists l.
  - intros h Hh. rewrite log_of_handles in Hh. apply list_elem_of_fmap in Hh as (slot & -> & Hs).
    pose proof (free_keeps_log st free live l slot Hok Hp (Hlv slot Hs)) as Hf.
    by rewrite decide_True in Hf.
  - intros h real st'. unfold update_virt_id. prog_red.
    destruct (lookup_virt_id_entry st h) as [slot|] eqn:Hs; [|done]. intros [= <-].
    destruct (lookup_sound _ _ _ _ _ _ Hok Hs) as [Hin _].
    destruct (update_keeps_log st free live l slot (λ e, e <| real_id := real |>) Hok Hp Hin) as (Hok' & Hp' & Hlog).
    { intros e. by split_and!. } { done. }
    split; [done|]. by exists l.
  - intros h null s st'. unfold complete_virt_request, get_virt_id_entry. prog_red.
    destruct (lookup_virt_id_entry st h) as [slot|] eqn:Hs; [|done]. intros [= <-].
    destruct (lookup_sound _ _ _ _ _ _ Hok Hs) as [Hin _].
    destruct (update_keeps_log st free live l slot (λ e, e <| status := s |> <| completed := true |>
      <| real_id := null |>) Hok Hp Hin) as (Hok' & Hp' & Hlog).
    { intros e. by split_and!. } { done. }
    split; [done|]. by exists l.
Qed.

(** ** A log of two requests *)

Definition sample_log_run : prog vid_state (Z * Z) :=
  a ← add_virt_id 100 NoDesc MANA_REQUEST_KIND;
  b ← add_virt_id 101 NoDesc MANA_REQUEST_KIND;
  @addPendingRequestToLog sample_lib IRECV_REQUEST 0 0x1000 4 77 1 9 55 a ;;
  @addPendingRequestToLog sample_lib ISSEND_REQUEST 0x2000 0 4 77 1 9 55 b ;;
  mret (a, b).

Definition sample_log (a b : Z) : list (Z * mpi_nonblocking_call_t) :=
  [(a, new_call IRECV_REQUEST 0 0x1000 4 77 1 9 55); (b, new_call ISSEND_REQUEST 0x2000 0 4 77 1 9 55)].

Lemma sample_log_ok : ∃ a b st free live,
  sample_log_run init_vid = Ok (a, b) st ∧ log_repr st free live (sample_log a b) ∧ a ≠ b ∧
  _handle a = a ∧ _handle b = b.
Proof.
  destruct (add_virt_id 100 NoDesc MANA_REQUEST_KIND init_vid) as [a st1| |] eqn:E1;
    [|by vm_compute in E1|by vm_compute in E1].
  destruct log_repr_init as [Hok0 (l0 & Hp0 & Hl0)].
  destruct (add_keeps_log init_vid [] [] l0 100 NoDesc MANA_REQUEST_KIND a st1 Hok0 Hp0)
    as (free1 & live1 & Hok1 & Hp1 & Hl1 & _); [by vm_compute|by left|by vm_compute|done|].
  destruct (add_virt_id 101 NoDesc MANA_REQUEST_KIND st1) as [b st2| |] eqn:E2;
    [|by vm_compute in E1; injection E1 as <- <-; vm_compute in E2
     |by vm_compute in E1; injection E1 as <- <-; vm_compute in E2].
  destruct (add_keeps_log st1 free1 live1 l0 101 NoDesc MANA_REQUEST_KIND b st2 Hok1 Hp1)
    as (free2 & live2 & Hok2 & Hp2 & Hl2 & _);
    [by vm_compute|by left|vm_compute in E1; injection E1 as <- <-; by vm_compute|done|].
  assert (log_repr st2 free2 live2 []) as Hr2 by (split; [done|]; exists l0; split; [done|congruence]).
  assert (a = 0x50000000 ∧ b = 0x50000001) as [-> ->].
  { vm_compute in E1. injection E1 as <- <-. vm_compute in E2. by injection E2 as <- <-. }
  destruct (@log_op_run sample_lib st2 free2 live2 [] (LAdd IRECV_REQUEST 0 0x1000 4 77 1 9 55 0x50000000) Hr2)
    as (st3 & E3 & Hr3).
  { split; [done|]. split; [done|]. split; [|by intros []%not_elem_of_nil].
    vm_compute in E1. injection E1 as <-. vm_compute in E2. injection E2 as <-. by eexists. }
  destruct (@log_op_run sample_lib st3 free2 live2 _ (LAdd ISSEND_REQUEST 0x2000 0 4 77 1 9 55 0x50000001) Hr3)
    as (st4 & E4 & Hr4).
  { split; [done|]. split; [done|]. split; [|by vm_compute; intros [?|[]%not_elem_of_nil]%elem_of_cons].
    vm_compute in E1. injection E1 as <-. vm_compute in E2. injection E2 as <-. vm_compute in E3.
    injection E3 as <-. by eexists. }
  exists 0x50000000, 0x50000001, st4, free2, live2. split; [|done].
  unfold sample_log_run. rewrite (prog_bind_ok _ _ _ _ _ E1), (prog_bind_ok _ _ _ _ _ E2).
  cbn [run_log_op] in E3, E4. rewrite (prog_bind_ok _ _ _ _ _ E3). by rewrite (prog_bind_ok _ _ _ _ _ E4).
Qed.

Lemma log_ops_refine_witness : ∃ a b st st' free live,
  sample_log_run init_vid = Ok (a, b) st ∧ @clearPendingRequestFromLog sample_lib a st = Ok () st' ∧
  log_repr st' free live [(b, new_call ISSEND_REQUEST 0x2000 0 4 77 1 9 55)].
Proof.
  destruct sample_log_ok as (a & b & st & free & live & Hrun & Hr & Hne & Ha & _).
  destruct (@log_ops_refine sample_lib st free live (sample_log a b) (LClear a) Hr Ha) as (st' & Hc & Hr').
  exists a, b, st, st', free, live. split; [done|]. split; [done|].
  assert (spec_log_op (LClear a) (sample_log a b) = [(b, new_call ISSEND_REQUEST 0x2000 0 4 77 1 9 55)]) as E.
  { unfold spec_log_op, sample_log. rewrite filter_cons_False by (cbn; tauto).
    by rewrite filter_cons_True by done. }
  by rewrite E in Hr'.
Defined.

Lemma log_reads_witness : ∃ a b st,
  sample_log_run init_vid = Ok (a, b) st ∧ pendingRequestsInPostingOrder st = Ok [a; b] st ∧
  pendingCallUsesDatatype 77 st = Ok true st.
Proof.
  destruct sample_log_ok as (a & b & st & free & live & Hrun & Hr & _).
  destruct (@log_reads sample_lib st free live (sample_log a b) Hr) as (H1 & _ & H2).
  exists a, b, st. split; [done|]. split; [exact H1|apply H2].
Defined.

Lemma table_ops_keep_log_witness : ∃ a b st,
  sample_log_run init_vid = Ok (a, b) st ∧ @free_virt_id sample_lib a st = Abort.
Proof.
  destruct sample_log_ok as (a & b & st & free & live & Hrun & Hr & _).
  destruct (@table_ops_keep_log sample_lib st free live (sample_log a b) Hr) as (_ & _ & H & _).
  exists a, b, st. split; [done|]. apply H. left.
Defined.
