(* ===== verification/DatatypeRefs.v ===== *)
(** * Virtual datatypes and their references ([src/src/virtual_id.cpp])

    A derived datatype's entry holds a descriptor of the call that made it.
    Restart makes the datatype again from its descriptor, so a datatype stays
    in the table while the application holds it, a pending request uses it, or
    a live datatype was made from it; the descriptor counts these references.
    This file models the operations on the references and proves that the
    counts are exact. *)
From S2P Require Import Prelude Mpi Constants VirtualId VirtualIdInv VirtualIdSpec PendingLog PendingLogSpec.

(** ** Operations *)

(** The zeroed descriptor that the caller fills in; its memory comes from the
    free list if that is not empty. *)
Definition alloc_datatype_desc : prog vid_state mana_datatype_desc :=
  modify (λ st, st <| datatype_desc_pool ::= tail |>) ;; mret zero_datatype_desc.

(** The datatypes that [for_each_oldtype()] visits. *)
Definition oldtypes_of (d : mana_datatype_desc) : list Z :=
  if bool_decide (dt_constructor d = MANA_TYPE_STRUCT)
  then take (Z.to_nat (dt_count d)) (dt_oldtypes d) else [dt_oldtype d].

(** [datatype_desc()]: the slot and the descriptor, or [None] for NULL.  The
    entry's [desc] is cast without a check: that of another kind is an invalid
    access, and NULL stays NULL. *)
Definition datatype_desc `{MpiLib} (st : vid_state) (type : Z) : option (Z * mana_datatype_desc) :=
  slot ← lookup_virt_id_entry st type;
  entry ← slot_entry st slot;
  match desc entry with DatatypeDesc d => Some (slot, d) | _ => None end.

Definition set_refs (slot : Z) (f : Z → Z) : vid_state → vid_state :=
  update_entry slot (λ e, e <| desc ::= λ d,
    match d with DatatypeDesc t => DatatypeDesc (t <| dt_refs ::= f |>) | _ => d end |>).

Definition add_reference `{MpiLib} (oldtype : Z) : prog vid_state unit :=
  st ← get_state;
  match datatype_desc st oldtype with
  | Some (slot, _) => modify (set_refs slot Z.succ)
  | None => mret ()
  end.

Definition new_virt_datatype `{MpiLib} (real : Z) (d0 : mana_datatype_desc) : prog vid_state Z :=
  let d := d0 <| dt_refs := 1 |> in
  for_each (oldtypes_of d) add_reference ;;
  add_virt_id real (DatatypeDesc d) MANA_DATATYPE_KIND.

Definition commit_virt_datatype `{MpiLib} (type : Z) : prog vid_state unit :=
  st ← get_state;
  match datatype_desc st type with
  | Some (slot, _) => modify (update_entry slot (λ e, e <| desc ::= λ d,
      match d with DatatypeDesc t => DatatypeDesc (t <| dt_committed := true |>) | _ => d end |>))
  | None => mret ()
  end.

(** Each nested call follows the release of a table entry, so the number of
    live entries bounds the depth of the recursion. *)
Fixpoint release_datatype `{MpiLib} (fuel : nat) (type : Z) : prog vid_state unit :=
  match fuel with
  | O => spin
  | S fuel' =>
      st ← get_state;
      match datatype_desc st type with
      | None => mret ()
      | Some (slot, d) =>
          modify (set_refs slot Z.pred) ;;
          if 0 <? dt_refs d - 1 then mret () else
          let single := dt_oldtype d in
          let olds := if bool_decide (dt_constructor d = MANA_TYPE_STRUCT)
                      then take (Z.to_nat (dt_count d)) (dt_oldtypes d) else [] in
          free_virt_id type ;;
          (if decide (olds = []) then release_datatype fuel' single else mret ()) ;;
          for_each olds (release_datatype fuel')
      end
  end.

Definition release_fuel (st : vid_state) : nat := S (S (Z.to_nat (virt_id_live st))).

Definition release `{MpiLib} (type : Z) : prog vid_state unit :=
  st ← get_state; release_datatype (release_fuel st) type.

(** The loop of [release_freed_datatypes()] from index [i]: an iteration
    advances [i] or erases an element. *)
Fixpoint release_freed_from `{MpiLib} (fuel : nat) (i : nat) : prog vid_state unit :=
  st ← get_state;
  match datatypes_freed_while_pending st !! i with
  | None => mret ()
  | Some freed =>
      match fuel with
      | O => spin
      | S fuel' =>
          used ← pendingCallUsesDatatype freed;
          if (used : bool) then release_freed_from fuel' (S i)
          else
            modify (λ st, st <| datatypes_freed_while_pending ::= delete i |>) ;;
            release freed ;;
            release_freed_from fuel' i
      end
  end.

Definition release_freed_datatypes `{MpiLib} : prog vid_state unit :=
  st ← get_state;
  release_freed_from (length (datatypes_freed_while_pending st)) 0.

Definition free_virt_datatype `{MpiLib} (type : Z) : prog vid_state unit :=
  st ← get_state;
  match datatype_desc st type with
  | None => mret ()
  | Some _ =>
      release_freed_datatypes ;;
      used ← pendingCallUsesDatatype type;
      if (used : bool)
      then modify (λ st, st <| datatypes_freed_while_pending ::= λ l, l ++ [type] |>)
      else release type
  end.

(** ** The invariant *)

Definition dt_of (st : vid_state) (slot : Z) : option mana_datatype_desc :=
  e ← slot_entry st slot; match desc e with DatatypeDesc d => Some d | _ => None end.

(** The datatypes that a slot's datatype was made from. *)
Definition olds_at (st : vid_state) (slot : Z) : list Z := from_option oldtypes_of [] (dt_of st slot).

Definition occ (h : Z) (l : list Z) : Z := Z.of_nat (length (filter (.= h) l)).

(** The references from the datatypes of the slots [live]. *)
Definition refs_from (st : vid_state) (live : list Z) (h : Z) : Z := occ h (live ≫= olds_at st).

(** A value that the table never gives out, such as a constant of MPI. *)
Definition outside_table `{MpiLib} (cs : constants_state) (u : Z) : Prop :=
  ∀ st free live, consts st = cs → vid_ok st free live → lookup_virt_id_entry st u = None.

(** A predefined datatype, or one of the table. *)
Definition known_type `{MpiLib} (st : vid_state) (live : list Z) (h : Z) : Prop :=
  outside_table (consts st) h ∨ ∃ s, s ∈ live ∧ h = handle_of st s ∧ is_Some (dt_of st s).

(** [held] are the datatypes that the application has not freed and those that
    it freed while a pending call used them; [debt] the references that an
    operation is about to drop or has added in advance.  The counts are exact,
    and a datatype's old types are known and older. *)
Record dt_inv `{MpiLib} (st : vid_state) (free live held debt : list Z)
    (log : list (Z * mpi_nonblocking_call_t)) : Prop := {
  di_log : log_repr st free live log;
  di_refs : ∀ s d, s ∈ live → dt_of st s = Some d →
    dt_refs d = occ (handle_of st s) held + refs_from st live (handle_of st s) + occ (handle_of st s) debt;
  di_pos : ∀ s d, s ∈ live → dt_of st s = Some d → 0 < dt_refs d;
  di_known : ∀ h, h ∈ held ++ debt ++ (live ≫= olds_at st) → known_type st live h;
  di_older : ∀ s s', s ∈ live → s' ∈ live → handle_of st s' ∈ olds_at st s → seq_of st s' < seq_of st s;
  di_calls : ∀ s, s ∈ live → is_Some (dt_of st s) → handle_of st s ∉ log.*1;
  di_struct : ∀ s d, s ∈ live → dt_of st s = Some d → dt_constructor d = MANA_TYPE_STRUCT → dt_oldtype d = 0
}.

(** ** Counting *)

Lemma occ_app h l k : occ h (l ++ k) = occ h l + occ h k.
Proof. unfold occ. rewrite filter_app, length_app. lia. Qed.
Lemma occ_cons h x l : occ h (x :: l) = (if decide (x = h) then 1 else 0) + occ h l.
Proof. unfold occ. rewrite filter_cons. case_decide; cbn [length]; lia. Qed.
Lemma occ_nonneg h l : 0 ≤ occ h l.
Proof. unfold occ. lia. Qed.
Lemma occ_pos h l : h ∈ l ↔ 0 < occ h l.
Proof.
  unfold occ. split.
  - intros Hl. assert (h ∈ filter (.= h) l) as Hf by by apply list_elem_of_filter.
    destruct (filter (.= h) l); [by apply not_elem_of_nil in Hf|]. cbn [length]. lia.
  - destruct (filter (.= h) l) as [|x k] eqn:E; cbn [length]; [lia|]. intros _.
    assert (x ∈ filter (.= h) l) as [-> ?]%list_elem_of_filter by (rewrite E; left). done.
Qed.
#[export] Instance occ_proper h : Proper ((≡ₚ) ==> eq) (occ h).
Proof. intros l k E. unfold occ. by rewrite E. Qed.

Lemma live_remove (live : list Z) s : NoDup live → s ∈ live → live ≡ₚ s :: filter (.≠ s) live.
Proof.
  intros Hnd Hs. apply NoDup_Permutation; [done| |].
  - constructor; [|by apply NoDup_filter]. rewrite elem_of_remove. tauto.
  - intros x. rewrite elem_of_cons, elem_of_remove. split.
    + intros Hx. destruct (decide (x = s)); tauto.
    + intros [->|[? _]]; done.
Qed.

Lemma refs_from_remove st live s h :
  NoDup live → s ∈ live →
  refs_from st live h = occ h (olds_at st s) + refs_from st (filter (.≠ s) live) h.
Proof.
  intros Hnd Hs. unfold refs_from. rewrite (live_remove live s Hnd Hs) at 1. csimpl. apply occ_app.
Qed.

(** ** Updates of descriptors *)

Lemma dt_of_lookup `{MpiLib} st free live s :
  vid_ok st free live → s ∈ live → datatype_desc st (handle_of st s) = (s,.) <$> dt_of st s.
Proof.
  intros Hok Hs. unfold datatype_desc, dt_of. rewrite (lookup_live _ _ _ _ _ Hok Hs). cbn.
  destruct (slot_entry st s) as [e|]; [|done]. cbn. by destruct (desc e).
Qed.

Lemma desc_outside `{MpiLib} st free live h :
  vid_ok st free live → outside_table (consts st) h → datatype_desc st h = None.
Proof. intros Hok Ho. unfold datatype_desc. by rewrite (Ho st free live eq_refl Hok). Qed.

(** An update of a datatype's descriptor that keeps the fields of the call. *)
Definition keeps_olds (f : mana_datatype_desc → mana_datatype_desc) : Prop :=
  ∀ d, oldtypes_of (f d) = oldtypes_of d.

Definition update_dt (slot : Z) (f : mana_datatype_desc → mana_datatype_desc) : vid_state → vid_state :=
  update_entry slot (λ e, e <| desc ::= λ d,
    match d with DatatypeDesc t => DatatypeDesc (f t) | _ => d end |>).

Lemma benign_dt f : benign (λ e, e <| desc ::= λ d,
    match d with DatatypeDesc t => DatatypeDesc (f t) | _ => d end |>).
Proof. intros e. do 4 (split; [done|]). intros k. cbn. by destruct (desc e). Qed.

Section update_dt.
Context (slot : Z) (f : mana_datatype_desc → mana_datatype_desc) (st : vid_state).
Let st' := update_dt slot f st.

Lemma dt_of_update s : dt_of st' s = if decide (slot = s) then f <$> dt_of st s else dt_of st s.
Proof.
  unfold dt_of, st', update_dt. rewrite slot_entry_update. case_decide; [|done].
  destruct (slot_entry st s) as [e|]; [|done]. cbn. by destruct (desc e).
Qed.
Lemma olds_at_update s : keeps_olds f → olds_at st' s = olds_at st s.
Proof.
  intros Hf. unfold olds_at. rewrite dt_of_update. case_decide; [|done].
  destruct (dt_of st s); [|done]. cbn. apply Hf.
Qed.
Lemma handle_of_dt s : handle_of st' s = handle_of st s.
Proof. by apply handle_of_update. Qed.
Lemma seq_of_dt s : seq_of st' s = seq_of st s.
Proof.
  unfold seq_of, st', update_dt. rewrite slot_entry_update. case_decide; [|done].
  by destruct (slot_entry st s).
Qed.
Lemma log_repr_dt free live log :
  log_repr st free live log → slot ∈ live → log_repr st' free live log.
Proof.
  intros [Hok (l & Hp & ->)] Hs.
  destruct (update_keeps_log st free live l slot _ Hok Hp Hs (benign_dt f)) as (Hok' & Hp' & Hlog); [done|].
  split; [exact Hok'|]. exists l. split; [exact Hp'|]. by symmetry.
Qed.
End update_dt.

Lemma bind_ext_in {A B} (f g : A → list B) l : (∀ x, x ∈ l → f x = g x) → l ≫= f = l ≫= g.
Proof.
  induction l as [|x l IH]; [done|]. intros Hl. csimpl. rewrite Hl by left.
  f_equal. apply IH. intros. apply Hl. by right.
Qed.

(** The references of [slot] and the debt change together. *)
Lemma dt_inv_refs `{MpiLib} st free live held debt debt' log slot g :
  dt_inv st free live held debt log → slot ∈ live →
  (∀ s d, s ∈ live → dt_of st s = Some d →
     (if decide (slot = s) then g (dt_refs d) else dt_refs d) =
     occ (handle_of st s) held + refs_from st live (handle_of st s) + occ (handle_of st s) debt') →
  (∀ d, dt_of st slot = Some d → 0 < g (dt_refs d)) →
  (∀ h, h ∈ debt' → known_type st live h) →
  dt_inv (set_refs slot g st) free live held debt' log.
Proof.
  intros [Hlog Hr Hpos Hk Ho Hc Hst] Hs Hr' Hpos' Hk'.
  change (set_refs slot g st) with (update_dt slot (λ d, d <| dt_refs ::= g |>) st).
  set (f := λ d : mana_datatype_desc, d <| dt_refs ::= g |>).
  assert (keeps_olds f) as Hf by done.
  assert (live ≫= olds_at (update_dt slot f st) = live ≫= olds_at st) as Hb.
  { apply bind_ext_in. intros. by apply olds_at_update. }
  assert (∀ h, known_type st live h → known_type (update_dt slot f st) live h) as Hkn.
  { intros h [?|(s & Hin & -> & Hd)]; [by left|right]. exists s.
    rewrite handle_of_dt, dt_of_update. split; [done|]. split; [done|]. case_decide; [by apply fmap_is_Some|done]. }
  split.
  - by apply log_repr_dt.
  - intros s d Hin. rewrite dt_of_update, handle_of_dt. unfold refs_from. rewrite Hb. intros Hd.
    destruct (decide (slot = s)) as [->|Hne].
    + destruct (dt_of st s) as [d0|] eqn:E; [|done]. injection Hd as <-.
      specialize (Hr' s d0 Hin E). rewrite decide_True in Hr' by done. done.
    + specialize (Hr' s d Hin Hd). by rewrite decide_False in Hr'.
  - intros s d Hin. rewrite dt_of_update. case_decide; [|by apply Hpos]. subst.
    destruct (dt_of st s) as [d0|] eqn:E; [|done]. intros [= <-]. by apply Hpos'.
  - intros h. rewrite Hb, !elem_of_app. intros [?|[?|?]]; apply Hkn; [|by apply Hk'|];
      apply Hk; rewrite !elem_of_app; tauto.
  - intros s s' Hin Hin'. rewrite olds_at_update, handle_of_dt, !seq_of_dt by done. by apply Ho.
  - intros s Hin Hd. rewrite handle_of_dt. apply Hc; [done|]. revert Hd. rewrite dt_of_update.
    case_decide; [|done]. by rewrite fmap_is_Some.
  - intros s d Hin. rewrite dt_of_update. case_decide; [|by apply Hst].
    destruct (dt_of st s) as [d0|] eqn:E; [|done]. intros [= <-]. intros Hc2. exact (Hst s d0 Hin E Hc2).
Qed.

Lemma dt_inv_ok `{MpiLib} st free live held debt log :
  dt_inv st free live held debt log → vid_ok st free live.
Proof. by intros [[? _] _ _ _ _ _ _]. Qed.

(** Handles of live datatypes are equal only if the slots are. *)
Lemma known_slot `{MpiLib} st free live held debt log s h :
  dt_inv st free live held debt log → s ∈ live → h = handle_of st s → is_Some (dt_of st s) →
  ∀ x, x ∈ live → handle_of st x = h ↔ x = s.
Proof.
  intros Hi Hs -> _ x Hx. split; [|by intros ->].
  apply (handle_of_inj st free live []); [by eapply dt_inv_ok|done|done].
Qed.

(** A reference to a value outside the table counts for no datatype. *)
Lemma outside_occ `{MpiLib} st free live s h l :
  vid_ok st free live → s ∈ live → outside_table (consts st) h →
  occ (handle_of st s) (h :: l) = occ (handle_of st s) l.
Proof.
  intros Hok Hs Ho. rewrite occ_cons, decide_False; [lia|]. intros ->.
  pose proof (Ho st free live eq_refl Hok) as Hl. by rewrite (lookup_live _ _ _ _ _ Hok Hs) in Hl.
Qed.

Lemma dt_inv_debt_outside `{MpiLib} st free live held debt log h :
  outside_table (consts st) h →
  dt_inv st free live held (h :: debt) log ↔ dt_inv st free live held debt log.
Proof.
  intros Ho. split; intros Hi; pose proof (dt_inv_ok _ _ _ _ _ _ Hi) as Hok;
    destruct Hi as [Hlog Hr Hpos Hk Hol Hc Hst]; split; try done.
  - intros s d Hs Hd. rewrite (Hr s d Hs Hd). f_equal. eapply outside_occ; eauto.
  - intros x Hx. apply Hk. rewrite !elem_of_app in *. rewrite elem_of_cons. tauto.
  - intros s d Hs Hd. rewrite (Hr s d Hs Hd). f_equal. symmetry. eapply outside_occ; eauto.
  - intros x. rewrite !elem_of_app, elem_of_cons. intros [?|[[->|?]|?]]; [|by left| |];
      apply Hk; rewrite !elem_of_app; tauto.
Qed.

(** ** Adding references *)

Lemma add_reference_run `{MpiLib} st free live held debt log h :
  dt_inv st free live held debt log → known_type st live h →
  ∃ st', add_reference h st = Ok () st' ∧ dt_inv st' free live held (h :: debt) log ∧
    consts st' = consts st ∧ virt_id_next_seq st' = virt_id_next_seq st ∧ virt_id_live st' = virt_id_live st ∧
    (∀ x, known_type st live x → known_type st' live x) ∧
    (∀ x, handle_of st' x = handle_of st x).
Proof.
  intros Hi Hk. pose proof (dt_inv_ok _ _ _ _ _ _ Hi) as Hok. unfold add_reference. prog_red.
  destruct Hk as [Ho|(s & Hs & -> & [d Hd])].
  { exists st. rewrite (desc_outside st free live h Hok Ho). split; [done|].
    split; [by apply dt_inv_debt_outside|done]. }
  rewrite (dt_of_lookup st free live s Hok Hs), Hd. cbn [fmap option_fmap option_map].
  eexists. split; [reflexivity|]. split.
  - apply (dt_inv_refs st free live held debt); [done|done| | |].
    + intros x dx Hx Hdx. rewrite occ_cons. pose proof (di_refs _ _ _ _ _ _ Hi x dx Hx Hdx) as E.
      destruct (decide (s = x)) as [->|Hne]; [rewrite decide_True by done; lia|].
      rewrite decide_False; [lia|]. intros E2. apply Hne. by apply (handle_of_inj st free live []).
    + intros dx Hdx. pose proof (di_pos _ _ _ _ _ _ Hi s dx Hs Hdx). lia.
    + intros x [->|Hx]%elem_of_cons; [right; eauto|]. apply (di_known _ _ _ _ _ _ Hi).
      rewrite !elem_of_app. tauto.
  - do 3 (split; [done|]). split.
    + intros x [?|(y & Hy & -> & Hdy)]; [by left|right]. exists y. split; [done|].
      change (set_refs s Z.succ st) with (update_dt s (λ d, d <| dt_refs ::= Z.succ |>) st).
      rewrite handle_of_dt, dt_of_update. split; [done|]. case_decide; [by apply fmap_is_Some|done].
    + intros x. by apply (handle_of_dt s (λ d, d <| dt_refs ::= Z.succ |>)).
Qed.

Lemma add_references_run `{MpiLib} st free live held debt log l :
  dt_inv st free live held debt log → (∀ h, h ∈ l → known_type st live h) →
  ∃ st', for_each l add_reference st = Ok () st' ∧ dt_inv st' free live held (reverse l ++ debt) log ∧
    consts st' = consts st ∧ virt_id_next_seq st' = virt_id_next_seq st ∧ virt_id_live st' = virt_id_live st ∧
    (∀ x, known_type st live x → known_type st' live x) ∧
    (∀ x, handle_of st' x = handle_of st x).
Proof.
  revert st debt. induction l as [|h l IH]; intros st debt Hi Hl; cbn [for_each].
  { exists st. rewrite reverse_nil. done. }
  destruct (add_reference_run st free live held debt log h Hi) as (st1 & Hrun & Hi1 & E1 & E2 & E3 & Hk1 & Hh1);
    [apply Hl; left|].
  destruct (IH st1 (h :: debt) Hi1) as (st' & Hrun' & Hi' & E1' & E2' & E3' & Hk' & Hh').
  { intros x Hx. apply Hk1, Hl. by right. }
  exists st'. rewrite (prog_bind_ok _ _ _ _ _ Hrun). split; [done|].
  rewrite reverse_cons, <- app_assoc. split; [done|]. do 3 (split; [congruence|]).
  split; [auto|]. intros x. by rewrite Hh', Hh1.
Qed.

(** ** Releasing *)

(** Two states that differ at most in one slot's entry. *)
Section other_slots.
Context (st st1 : vid_state) (slot : Z) (Hne : ∀ x, x ≠ slot → slot_entry st1 x = slot_entry st x).
Lemma dt_of_other s : s ≠ slot → dt_of st1 s = dt_of st s.
Proof using Hne. intros. unfold dt_of. by rewrite Hne. Qed.
Lemma handle_of_other s : s ≠ slot → handle_of st1 s = handle_of st s.
Proof using Hne. intros. unfold handle_of. by rewrite Hne. Qed.
Lemma seq_of_other s : s ≠ slot → seq_of st1 s = seq_of st s.
Proof using Hne. intros. unfold seq_of. by rewrite Hne. Qed.
Lemma olds_at_other s : s ≠ slot → olds_at st1 s = olds_at st s.
Proof using Hne. intros. unfold olds_at. by rewrite dt_of_other. Qed.
End other_slots.

(** A datatype without references leaves the table, and its references to its
    old types become debt. *)
Lemma free_unreferenced `{MpiLib} st st1 free live held debt log slot d :
  dt_inv st free live held (handle_of st slot :: debt) log → slot ∈ live → dt_of st slot = Some d →
  occ (handle_of st slot) held = 0 → refs_from st live (handle_of st slot) = 0 →
  occ (handle_of st slot) debt = 0 →
  (∀ x, x ≠ slot → slot_entry st1 x = slot_entry st x) → consts st1 = consts st →
  log_repr st1 (slot :: free) (filter (.≠ slot) live) log →
  dt_inv st1 (slot :: free) (filter (.≠ slot) live) held (oldtypes_of d ++ debt) log.
Proof.
  intros Hi Hs Hd Hz1 Hz2 Hz3 Hne1 Hcs Hlog'. pose proof (dt_inv_ok _ _ _ _ _ _ Hi) as Hok.
  destruct Hi as [Hlog Hr Hpos Hk0 Ho Hc Hst]. pose proof (inv_live_nodup _ _ _ _ Hok) as Hnd.
  assert (∀ h, h ∈ held ++ debt ++ (live ≫= olds_at st) → known_type st live h) as Hk.
  { intros h Hh. apply Hk0. rewrite !elem_of_app, elem_of_cons in *. tauto. }
  assert (olds_at st slot = oldtypes_of d) as Hold by (unfold olds_at; by rewrite Hd).
  assert (filter (.≠ slot) live ≫= olds_at st1 = filter (.≠ slot) live ≫= olds_at st) as Hb.
  { apply bind_ext_in. intros x [_ Hne]%elem_of_remove. by apply (olds_at_other st st1 slot Hne1). }
  assert (∀ h, h ∈ held ++ debt ++ (live ≫= olds_at st) → h ≠ handle_of st slot) as Hnot.
  { intros h Hh ->. rewrite !elem_of_app in Hh. unfold refs_from in Hz2.
    destruct Hh as [Hh|[Hh|Hh]]; apply occ_pos in Hh; lia. }
  assert (∀ h, h ∈ held ++ debt ++ (live ≫= olds_at st) →
    known_type st1 (filter (.≠ slot) live) h) as Hkn.
  { intros h Hh. destruct (Hk h Hh) as [Hout|(s & Hin & E & Hds)]; [left; by rewrite Hcs|right]. exists s.
    assert (s ≠ slot) by (intros ->; by apply (Hnot h)).
    rewrite (handle_of_other st st1 slot Hne1), (dt_of_other st st1 slot Hne1) by done. split; [by apply elem_of_remove|done]. }
  split; [done|..].
  - intros s ds [Hin Hne]%elem_of_remove. rewrite (dt_of_other st st1 slot Hne1), (handle_of_other st st1 slot Hne1) by done. intros Hds.
    unfold refs_from. rewrite Hb. fold (refs_from st (filter (.≠ slot) live) (handle_of st s)).
    rewrite (Hr s ds Hin Hds), (refs_from_remove st live slot) by done. rewrite Hold, occ_cons, occ_app.
    rewrite decide_False; [lia|]. intros E. apply Hne. by apply (handle_of_inj st free live []).
  - intros s ds [Hin Hne]%elem_of_remove. rewrite (dt_of_other st st1 slot Hne1) by done. by apply Hpos.
  - intros h Hh. apply Hkn. rewrite Hb in Hh. rewrite !elem_of_app in *.
    destruct Hh as [?|[[Hh|?]|Hh]]; [by left| |by right; left|].
    + right; right. apply list_elem_of_bind. exists slot. by rewrite Hold.
    + right; right. apply list_elem_of_bind in Hh as (x & Hx & [? _]%elem_of_remove).
      apply list_elem_of_bind. by exists x.
  - intros s s' [Hin Hne]%elem_of_remove [Hin' Hne']%elem_of_remove.
    rewrite (olds_at_other st st1 slot Hne1), (handle_of_other st st1 slot Hne1), !(seq_of_other st st1 slot Hne1) by done. by apply Ho.
  - intros s [Hin Hne]%elem_of_remove. rewrite (dt_of_other st st1 slot Hne1), (handle_of_other st st1 slot Hne1) by done. by apply Hc.
  - intros s ds [Hin Hne]%elem_of_remove. rewrite (dt_of_other st st1 slot Hne1) by done. by apply Hst.
Qed.

(** What an application sees of an entry: all but the count. *)
Definition erase_refs (d : descriptor) : descriptor :=
  match d with DatatypeDesc t => DatatypeDesc (t <| dt_refs := 0 |>) | _ => d end.
Definition entry_view (e : virt_id_entry) :=
  (virt e, real_id e, erase_refs (desc e), entry_seq e, call e, completed e, status e).

(** From [st] to [st'] entries only leave the table. *)
Record shrinks (st : vid_state) (live : list Z) (st' : vid_state) (live' : list Z) : Prop := {
  sh_consts : consts st' = consts st;
  sh_freed : datatypes_freed_while_pending st' = datatypes_freed_while_pending st;
  sh_seq : virt_id_next_seq st' = virt_id_next_seq st;
  sh_live : ∀ x, x ∈ live' → x ∈ live;
  sh_length : (length live' ≤ length live)%nat;
  sh_world : (g_world_comm st', self_desc st') = (g_world_comm st, self_desc st);
  sh_kept : ∀ x, x ∈ live → dt_of st x = None → x ∈ live';
  sh_view : ∀ x, x ∈ live' → entry_view <$> slot_entry st' x = entry_view <$> slot_entry st x
}.
Lemma shrinks_refl st live : shrinks st live st live.
Proof. by split. Qed.
Lemma dt_of_view st st' x :
  entry_view <$> slot_entry st' x = entry_view <$> slot_entry st x → dt_of st x = None → dt_of st' x = None.
Proof.
  unfold dt_of. destruct (slot_entry st' x) as [e'|], (slot_entry st x) as [e|]; try done. unfold entry_view. cbn.
  intros [= _ _ Hd _ _ _ _]. by destruct (desc e), (desc e').
Qed.
Lemma shrinks_trans st1 l1 st2 l2 st3 l3 :
  shrinks st1 l1 st2 l2 → shrinks st2 l2 st3 l3 → shrinks st1 l1 st3 l3.
Proof.
  intros [C1 F1 S1 L1 N1 W1 K1 V1] [C2 F2 S2 L2 N2 W2 K2 V2]. split; try congruence; [auto|lia|..].
  - intros x Hx Hd. apply K2; [auto|]. by rewrite (dt_of_view st1) by auto.
  - intros x Hx. rewrite V2 by done. auto.
Qed.

Lemma set_refs_view slot g st x : entry_view <$> slot_entry (set_refs slot g st) x = entry_view <$> slot_entry st x.
Proof.
  unfold set_refs. rewrite slot_entry_update. case_decide; [|done].
  destruct (slot_entry st x) as [e|]; [|done]. unfold entry_view. cbn. by destruct (desc e).
Qed.

(** One reference fewer, with others left. *)
Lemma drop_reference `{MpiLib} st free live held debt log slot d :
  dt_inv st free live held (handle_of st slot :: debt) log → slot ∈ live → dt_of st slot = Some d →
  1 < dt_refs d → dt_inv (set_refs slot Z.pred st) free live held debt log.
Proof.
  intros Hi Hs Hd Hgt. pose proof (dt_inv_ok _ _ _ _ _ _ Hi) as Hok.
  apply (dt_inv_refs st free live held (handle_of st slot :: debt)); [done|done|..].
  - intros x dx Hx Hdx. pose proof (di_refs _ _ _ _ _ _ Hi x dx Hx Hdx) as E. rewrite occ_cons in E.
    destruct (decide (slot = x)) as [->|Hne]; [rewrite decide_True in E by done; lia|].
    rewrite decide_False in E; [lia|]. intros E2. apply Hne. by apply (handle_of_inj st free live []).
  - intros dx Hdx. simplify_eq. lia.
  - intros x Hx. apply (di_known _ _ _ _ _ _ Hi). rewrite !elem_of_app, elem_of_cons. tauto.
Qed.

(** The last reference: the entry is freed. *)
Lemma drop_last_reference `{MpiLib} st free live held debt log slot d :
  dt_inv st free live held (handle_of st slot :: debt) log → slot ∈ live → dt_of st slot = Some d →
  dt_refs d = 1 →
  ∃ st', free_virt_id (handle_of st slot) (set_refs slot Z.pred st) = Ok () st' ∧
    dt_inv st' (slot :: free) (filter (.≠ slot) live) held (oldtypes_of d ++ debt) log ∧
    shrinks st live st' (filter (.≠ slot) live).
Proof.
  intros Hi Hs Hd Hone. pose proof (dt_inv_ok _ _ _ _ _ _ Hi) as Hok.
  set (st1 := set_refs slot Z.pred st).
  assert (log_repr st1 free live log) as [Hok1 (l & Hp1 & Hlog)]
    by (apply log_repr_dt; [apply Hi|done]).
  assert (handle_of st1 slot = handle_of st slot) as Hh1
    by apply (handle_of_dt slot (λ d, d <| dt_refs ::= Z.pred |>)).
  destruct (inv_live_entry _ _ _ _ _ Hok1 Hs) as (e & k & He & Hl).
  assert (slot ∉ l) as Hnl.
  { pose proof (di_calls _ _ _ _ _ _ Hi slot Hs) as Hc. rewrite Hd, Hlog, <- Hh1 in Hc.
    intros Hl'. apply Hc; [by eexists|]. by apply (handle_in_log st1 free live l slot Hok1 (po_live _ _ _ Hp1) Hs). }
  assert (call_type (call e) = UNKNOW_REQUEST) as Hu.
  { pose proof (po_type _ _ _ Hp1 slot Hs) as Ht. unfold call_of in Ht. rewrite He in Ht. cbn in Ht.
    destruct (decide (call_type (call e) = UNKNOW_REQUEST)); tauto. }
  pose proof (free_virt_id_run st1 free live slot e Hok1 Hs He) as Hr.
  rewrite decide_True in Hr by done. destruct Hr as [pool Hr].
  assert (virt e = handle_of st slot) as Hv by (rewrite <- Hh1; unfold handle_of; by rewrite He).
  rewrite Hv in Hr. exists (freed st1 slot pool). split; [done|].
  pose proof (free_keeps_log st1 free live l slot Hok1 Hp1 Hs) as Hf. rewrite Hh1, Hr in Hf.
  destruct (decide (slot ∈ l)); [done|]. destruct Hf as (st2 & [= <-] & Hok2 & Hp2 & Hlog2).
  assert (∀ x, x ≠ slot → slot_entry (freed st1 slot pool) x = slot_entry st x) as Hne.
  { intros x Hx. rewrite freed_entry_ne by done. unfold st1, set_refs. by rewrite slot_entry_update_ne. }
  pose proof (di_refs _ _ _ _ _ _ Hi slot d Hs Hd) as E. rewrite Hone, occ_cons, decide_True in E by done.
  pose proof (occ_nonneg (handle_of st slot) held). pose proof (occ_nonneg (handle_of st slot) debt).
  pose proof (occ_nonneg (handle_of st slot) (live ≫= olds_at st)). unfold refs_from in E.
  split.
  - apply (free_unreferenced st _ free live held debt); try done; try (unfold refs_from; lia).
    split; [done|]. exists l. by rewrite Hlog2.
  - split; try done.
    + intros x [? _]%elem_of_remove. done.
    + apply length_filter.
    + intros x Hx Hdx. apply elem_of_remove. split; [done|]. intros ->. congruence.
    + intros x [_ Hx]%elem_of_remove. by rewrite Hne.
Qed.

Lemma for_each_release `{MpiLib} fuel held log olds :
  (∀ st free live debt h, dt_inv st free live held (h :: debt) log → (length live < fuel)%nat →
     ∃ st' free' live', release_datatype fuel h st = Ok () st' ∧ dt_inv st' free' live' held debt log ∧
       shrinks st live st' live') →
  ∀ st free live debt, dt_inv st free live held (olds ++ debt) log → (length live < fuel)%nat →
    ∃ st' free' live', for_each olds (release_datatype fuel) st = Ok () st' ∧
      dt_inv st' free' live' held debt log ∧ shrinks st live st' live'.
Proof.
  intros IH. induction olds as [|o olds IHo]; intros st free live debt Hi Hlen; cbn [for_each].
  { exists st, free, live. split; [done|]. split; [done|apply shrinks_refl]. }
  destruct (IH st free live (olds ++ debt) o Hi Hlen) as (st1 & free1 & live1 & Hrun & Hi1 & Hs1).
  destruct (IHo st1 free1 live1 debt Hi1) as (st' & free' & live' & Hrun' & Hi' & Hs').
  { pose proof (sh_length _ _ _ _ Hs1). lia. }
  exists st', free', live'. rewrite (prog_bind_ok _ _ _ _ _ Hrun). split; [done|]. split; [done|].
  by eapply shrinks_trans.
Qed.

(** The oldtype field of a struct is NULL, which is outside the table. *)
Lemma null_outside `{MpiLib} cs : outside_table cs 0.
Proof. intros st free live _ _. unfold lookup_virt_id_entry. by destruct handle64. Qed.

Lemma release_datatype_run `{MpiLib} fuel held log st free live debt h :
  dt_inv st free live held (h :: debt) log → (length live < fuel)%nat →
  ∃ st' free' live', release_datatype fuel h st = Ok () st' ∧ dt_inv st' free' live' held debt log ∧
    shrinks st live st' live'.
Proof.
  revert st free live debt h. induction fuel as [|fuel IH]; intros st free live debt h Hi Hlen; [lia|].
  pose proof (dt_inv_ok _ _ _ _ _ _ Hi) as Hok. cbn [release_datatype]. prog_red.
  destruct (di_known _ _ _ _ _ _ Hi h) as [Ho|(s & Hs & -> & [d Hd])];
    [rewrite !elem_of_app, elem_of_cons; tauto| |].
  { exists st, free, live. rewrite (desc_outside st free live h Hok Ho). split; [done|].
    split; [by apply dt_inv_debt_outside in Hi|apply shrinks_refl]. }
  rewrite (dt_of_lookup st free live s Hok Hs), Hd. cbn [fmap option_fmap option_map].
  pose proof (di_pos _ _ _ _ _ _ Hi s d Hs Hd) as Hpos.
  destruct (Z.ltb_spec 0 (dt_refs d - 1)) as [Hgt|Hle].
  { eexists _, free, live. split; [reflexivity|].
    split; [apply (drop_reference st free live held debt log s d); [done..|lia]|].
    split; try done. intros. apply set_refs_view. }
  destruct (drop_last_reference st free live held debt log s d Hi Hs Hd) as (st1 & Hf & Hi1 & Hs1); [lia|].
  rewrite Hf. clear Hf.
  assert (length (filter (.≠ s) live) < fuel)%nat as Hlen1.
  { rewrite (length_remove s live) in Hlen by (done || by eapply inv_live_nodup). lia. }
  set (olds := if bool_decide _ then _ else _).
  assert (dt_inv st1 (s :: free) (filter (.≠ s) live) held
    ((if decide (olds = []) then [dt_oldtype d] else []) ++ olds ++ debt) log) as Hi2.
  { revert Hi1. unfold oldtypes_of, olds. case_bool_decide as Hst; [|by rewrite decide_True].
    destruct (decide _) as [E|E]; [|done]. rewrite E, (di_struct _ _ _ _ _ _ Hi s d Hs Hd Hst).
    cbn [app]. apply dt_inv_debt_outside, null_outside. }
  assert (∃ st2 free2 live2,
    (if decide (olds = []) then release_datatype fuel (dt_oldtype d) else mret ()) st1 = Ok () st2 ∧
    dt_inv st2 free2 live2 held (olds ++ debt) log ∧ shrinks st1 (filter (.≠ s) live) st2 live2)
    as (st2 & free2 & live2 & Hr2 & Hi3 & Hs2).
  { destruct (decide (olds = [])); [by apply (IH st1 (s :: free))|].
    eexists _, _, _. split; [done|]. split; [exact Hi2|apply shrinks_refl]. }
  destruct (for_each_release fuel held log olds IH st2 free2 live2 debt Hi3) as (st' & free' & live' & Hr' & Hi' & Hs').
  { pose proof (sh_length _ _ _ _ Hs2). lia. }
  exists st', free', live'. split.
  - unfold mret, prog_ret in Hr2. rewrite Hr2. done.
  - split; [done|]. by eapply shrinks_trans, shrinks_trans.
Qed.
