(* ===== verification/DatatypeSpec.v ===== *)
(** * What the references of datatypes guarantee

    The operations on virtual datatypes, requests and the other handles of the
    table, in any order, keep the counts of references exact ([dt_inv]).  So a
    datatype that restart needs is never released, and one that nothing needs
    is. *)
From S2P Require Import Prelude Mpi Constants VirtualId VirtualIdInv VirtualIdSpec PendingLog PendingLogSpec DatatypeRefs.

(** [app] are the datatypes that the application has made and not freed. *)
Definition types_inv `{MpiLib} (st : vid_state) (free live app : list Z)
    (log : list (Z * mpi_nonblocking_call_t)) : Prop :=
  dt_inv st free live (app ++ datatypes_freed_while_pending st) [] log.

Definition type_used (log : list (Z * mpi_nonblocking_call_t)) (h : Z) : bool :=
  existsb (λ p, call_datatype p.2 =? h) log.

Lemma dt_inv_perm `{MpiLib} st free live held debt held' debt' log :
  held ++ debt ≡ₚ held' ++ debt' →
  dt_inv st free live held debt log → dt_inv st free live held' debt' log.
Proof.
  intros Hp [Hlog Hr Hpos Hk Ho Hc Hst]. split; try done.
  - intros s d Hs Hd. rewrite (Hr s d Hs Hd).
    assert (occ (handle_of st s) (held ++ debt) = occ (handle_of st s) (held' ++ debt')) as E by by rewrite Hp.
    rewrite !occ_app in E. lia.
  - intros h Hh. apply Hk. rewrite app_assoc in *. rewrite elem_of_app in *. by rewrite Hp.
Qed.

Lemma log_repr_freed st free live log f :
  log_repr st free live log → log_repr (st <| datatypes_freed_while_pending ::= f |>) free live log.
Proof.
  intros [Hok (l & Hp & Hlog)]. split; [by apply (vid_inv_ext st)|]. exists l. split; [|done].
  destruct Hp. by split.
Qed.

Lemma dt_inv_freed `{MpiLib} st free live held debt log f :
  dt_inv st free live held debt log →
  dt_inv (st <| datatypes_freed_while_pending ::= f |>) free live held debt log.
Proof. intros [Hlog Hr Hpos Hk Ho Hc Hst]. split; try done. by apply log_repr_freed. Qed.

Lemma uses_run `{MpiLib} st free live held debt log type :
  dt_inv st free live held debt log → pendingCallUsesDatatype type st = Ok (type_used log type) st.
Proof.
  intros [[Hok (l & Hp & ->)] _ _ _ _ _ _]. unfold pendingCallUsesDatatype. prog_red.
  rewrite (po_head _ _ _ Hp), uses_from_run; [done|apply linked_chain, Hp|by eapply pending_fuel_enough].
Qed.

Lemma release_run `{MpiLib} held log st free live debt h :
  dt_inv st free live held (h :: debt) log →
  ∃ st' free' live', release h st = Ok () st' ∧ dt_inv st' free' live' held debt log ∧
    shrinks st live st' live'.
Proof.
  intros Hi. unfold release. prog_red. apply (release_datatype_run _ _ _ _ free); [done|].
  unfold release_fuel. rewrite (inv_count _ _ _ _ (dt_inv_ok _ _ _ _ _ _ Hi)). lia.
Qed.

Lemma delete_perm {A} (l : list A) i x : l !! i = Some x → l ≡ₚ x :: delete i l.
Proof. apply delete_Permutation. Qed.

(** [release_freed_datatypes()] releases those that no pending call uses. *)
Lemma release_freed_from_run `{MpiLib} fuel i app log st free live :
  types_inv st free live app log →
  (length (datatypes_freed_while_pending st) ≤ i + fuel)%nat → 
  let F := datatypes_freed_while_pending st in
  ∃ st' free' live', release_freed_from fuel i st = Ok () st' ∧ types_inv st' free' live' app log ∧
    datatypes_freed_while_pending st' = take i F ++ filter (λ h, type_used log h = true) (drop i F) ∧
    shrinks st live (st' <| datatypes_freed_while_pending := F |>) live'.
Proof.
  revert i st free live. induction fuel as [|fuel IH]; intros i st free live Hi Hlen F.
  { exists st, free, live. cbn [release_freed_from]. prog_red. fold F in Hlen.
    rewrite lookup_ge_None_2 by (fold F; lia). split; [done|]. split; [done|].
    rewrite take_ge, drop_ge, filter_nil, app_nil_r by lia. split; [done|].
    replace (st <| datatypes_freed_while_pending := F |>) with st by (by destruct st). apply shrinks_refl. }
  cbn [release_freed_from]. prog_red. fold F.
  destruct (F !! i) as [x|] eqn:Ex.
  2:{ exists st, free, live. split; [done|]. split; [done|]. apply lookup_ge_None in Ex.
      rewrite take_ge, drop_ge, filter_nil, app_nil_r by lia. split; [done|].
      replace (st <| datatypes_freed_while_pending := F |>) with st by (by destruct st). apply shrinks_refl. }
  rewrite (uses_run st free live _ _ _ x Hi). rewrite (drop_S F x i Ex), filter_cons.
  destruct (type_used log x) eqn:Eu.
  - rewrite decide_True by done.
    destruct (IH (S i) st free live Hi) as (st' & free' & live' & Hrun & Hi' & HF & Hs); [cbn [Nat.add]; fold F in Hlen |- *; lia|].
    exists st', free', live'. split; [done|]. split; [done|]. split; [|done].
    rewrite HF. fold F. by rewrite (take_S_r F i x Ex), <- app_assoc.
  - rewrite decide_False by done.
    set (st1 := st <| datatypes_freed_while_pending ::= delete i |>).
    assert (dt_inv st1 free live (app ++ datatypes_freed_while_pending st1) [x] log) as Hi1.
    { apply dt_inv_freed. revert Hi. unfold types_inv. fold F. apply dt_inv_perm.
      rewrite app_nil_r, <- app_assoc. apply Permutation_app_head. cbn. fold F.
      rewrite (delete_perm F i x Ex) at 1. apply Permutation_cons_append. }
    destruct (release_run _ _ st1 free live [] x Hi1) as (st2 & free2 & live2 & Hrel & Hi2 & Hs2).
    rewrite Hrel. pose proof (sh_freed _ _ _ _ Hs2) as HF2.
    change (datatypes_freed_while_pending st1) with (delete i F) in *.
    rewrite <- HF2 in Hi2. pose proof (lookup_lt_Some _ _ _ Ex) as Hlt.
    destruct (IH i st2 free2 live2 Hi2) as (st' & free' & live' & Hrun & Hi' & HF & Hs).
    { rewrite HF2, length_delete by by eexists. fold F in Hlen. lia. }
    exists st', free', live'. split; [done|]. split; [done|]. split.
    + rewrite HF, HF2, delete_take_drop. assert (length (take i F) = i) as El by (rewrite length_take; lia).
      by rewrite take_app_length', drop_app_length'.
    + eapply (shrinks_trans st live (st2 <| datatypes_freed_while_pending := F |>) live2).
      * destruct Hs2. by split.
      * destruct Hs. by split.
Qed.

Lemma release_freed_run `{MpiLib} app log st free live :
  types_inv st free live app log →
  ∃ st' free' live', release_freed_datatypes st = Ok () st' ∧ types_inv st' free' live' app log ∧
    datatypes_freed_while_pending st' =
      filter (λ h, type_used log h = true) (datatypes_freed_while_pending st) ∧
    shrinks st live (st' <| datatypes_freed_while_pending := datatypes_freed_while_pending st |>) live'.
Proof.
  intros Hi. unfold release_freed_datatypes. prog_red.
  destruct (release_freed_from_run (length (datatypes_freed_while_pending st)) 0 app log st free live Hi)
    as (st' & free' & live' & Hrun & Hi' & HF & Hs); [done|].
  exists st', free', live'. by rewrite take_0, drop_0 in HF.
Qed.

(** ** Freeing *)

Lemma free_virt_datatype_run `{MpiLib} app app' log st free live h :
  types_inv st free live app log → app ≡ₚ h :: app' →
  ∃ st' free' live', free_virt_datatype h st = Ok () st' ∧
    types_inv st' free' live' app' log ∧ consts st' = consts st.
Proof.
  intros Hi Happ. pose proof (dt_inv_ok _ _ _ _ _ _ Hi) as Hok. unfold free_virt_datatype. prog_red.
  assert (known_type st live h) as [Ho|(s & Hs & Eh & [d Hd])].
  { apply (di_known _ _ _ _ _ _ Hi). rewrite !elem_of_app, Happ. left; left; left. }
  { exists st, free, live. rewrite (desc_outside st free live h Hok Ho). split; [done|]. split; [|done].
    apply (dt_inv_debt_outside _ _ _ _ _ _ h Ho). revert Hi. apply dt_inv_perm.
    rewrite Happ, app_nil_r. cbn. apply Permutation_cons_append. }
  rewrite Eh, (dt_of_lookup st free live s Hok Hs), Hd. cbn [fmap option_fmap option_map].
  destruct (release_freed_run app log st free live Hi) as (st1 & free1 & live1 & Hrun1 & Hi1 & HF1 & Hs1).
  rewrite Hrun1, <- Eh, (uses_run st1 free1 live1 _ _ _ h Hi1).
  destruct (type_used log h) eqn:Eu.
  - eexists _, free1, live1. split; [reflexivity|]. split; [|apply (sh_consts _ _ _ _ Hs1)].
    unfold types_inv in Hi1 |- *. eapply dt_inv_perm; [|apply dt_inv_freed, Hi1].
    rewrite !app_nil_r. cbn. rewrite Happ. cbn. by rewrite Permutation_cons_append, <- app_assoc.
  - destruct (release_run (app' ++ datatypes_freed_while_pending st1) log st1 free1 live1 [] h)
      as (st' & free' & live' & Hrun & Hi' & Hs').
    { revert Hi1. apply dt_inv_perm. rewrite Happ, app_nil_r. cbn. apply Permutation_cons_append. }
    exists st', free', live'. split; [done|]. split.
    + unfold types_inv. by rewrite (sh_freed _ _ _ _ Hs').
    + rewrite (sh_consts _ _ _ _ Hs'). apply (sh_consts _ _ _ _ Hs1).
Qed.

(** ** New entries *)

(** A value that the table never gives out is not the handle of a slot. *)
Lemma outside_not_live `{MpiLib} st free live s h :
  vid_ok st free live → s ∈ live → outside_table (consts st) h → h ≠ handle_of st s.
Proof.
  intros Hok Hs Ho ->. pose proof (Ho st free live eq_refl Hok) as Hl.
  by rewrite (lookup_live _ _ _ _ _ Hok Hs) in Hl.
Qed.

Lemma add_virt_id_freed_list real d kind st h st' :
  add_virt_id real d kind st = Ok h st' →
  datatypes_freed_while_pending st' = datatypes_freed_while_pending st.
Proof.
  unfold add_virt_id, alloc_slot. prog_red. destruct (0 <=? _).
  - destruct (slot_entry st _); [|done]. cbv beta iota.
    destruct (slot_entry _ (virt_id_free_head st)); [|done]. by intros [= _ <-].
  - destruct (_ <? _); [done|]. rewrite alloc_chunks_run.
    destruct (slot_entry _ _); [|done]. by intros [= _ <-].
Qed.

Section new_entry.
Context `{MpiLib} (st st' : vid_state) (free live : list Z) (held debt : list Z)
  (log : list (Z * mpi_nonblocking_call_t)) (s : Z) (e : virt_id_entry) (free' : list Z).
Context (Hi : dt_inv st free live held debt log)
  (Hok' : vid_ok st' free' (live ++ [s])) (He : slot_entry st' s = Some e) (Hfresh : s ∉ live)
  (Hc : consts st' = consts st)
  (Hold : ∀ x, x ∈ live → slot_entry st' x = slot_entry st x)
  (Hlog' : log_repr st' free' (live ++ [s]) log).

Lemma new_live_same x : x ∈ live →
  handle_of st' x = handle_of st x ∧ dt_of st' x = dt_of st x ∧ olds_at st' x = olds_at st x ∧
  seq_of st' x = seq_of st x.
Proof using Hold.
  intros Hx. unfold handle_of, olds_at, dt_of, seq_of. by rewrite Hold.
Qed.

Lemma new_known x : known_type st live x → known_type st' (live ++ [s]) x ∧ x ≠ virt e.
Proof using Hok' He Hfresh Hc Hold.
  assert (s ∈ live ++ [s]) as Hs by (apply elem_of_snoc; by right).
  assert (virt e = handle_of st' s) as Ev by (unfold handle_of; by rewrite He).
  intros [Ho|(y & Hy & -> & Hd)].
  - rewrite <- Hc in Ho. split; [by left|]. rewrite Ev. by eapply outside_not_live.
  - destruct (new_live_same y Hy) as (E1 & E2 & _). split.
    + right. exists y. rewrite E1, E2. split; [apply elem_of_snoc; by left|done].
    + rewrite Ev, <- E1. intros E. apply Hfresh.
      rewrite <- (handle_of_inj st' free' (live ++ [s]) [] y s Hok'); [done|apply elem_of_snoc; by left|done|done].
Qed.

Lemma new_bind : live ≫= olds_at st' = live ≫= olds_at st.
Proof using Hold. apply bind_ext_in. intros x Hx. by apply new_live_same. Qed.

Lemma new_refs h : refs_from st' (live ++ [s]) h = refs_from st live h + occ h (olds_at st' s).
Proof using Hold.
  unfold refs_from. rewrite bind_app, new_bind, occ_app. csimpl. by rewrite app_nil_r.
Qed.

Lemma new_seq x : x ∈ live → seq_of st' x < seq_of st' s.
Proof using Hok'.
  intros Hx. pose proof (inv_sorted _ _ _ _ Hok') as Hsort.
  apply StronglySorted_app in Hsort as (Hlt & _ & _). apply Hlt; [done|left].
Qed.

(** No known type is the new one. *)
Lemma new_unreferenced : occ (virt e) (held ++ debt ++ (live ≫= olds_at st)) = 0.
Proof using Hi Hok' He Hfresh Hc Hold.
  destruct (decide (virt e ∈ held ++ debt ++ (live ≫= olds_at st))) as [Hin|Hn].
  - pose proof (di_known _ _ _ _ _ _ Hi _ Hin) as Hk. by destruct (new_known _ Hk) as [_ []].
  - rewrite occ_pos in Hn. pose proof (occ_nonneg (virt e) (held ++ debt ++ (live ≫= olds_at st))). lia.
Qed.

(** The new entry is not a datatype. *)
Lemma new_entry_other : dt_of st' s = None → debt = [] → dt_inv st' free' (live ++ [s]) held [] log.
Proof using Hi Hok' He Hfresh Hc Hold Hlog'.
  intros Hd ->. assert (olds_at st' s = []) as Ho by (unfold olds_at; by rewrite Hd).
  assert (∀ x, x ∈ live ++ [s] → is_Some (dt_of st' x) → x ∈ live) as Hx.
  { intros x [?| ->]%elem_of_snoc; [done|]. rewrite Hd. by intros []. }
  assert (∀ x d, x ∈ live ++ [s] → dt_of st' x = Some d → x ∈ live ∧ dt_of st x = Some d) as Hxd.
  { intros x d Hin Hdx. assert (x ∈ live) as Hl by (apply Hx; [done|by eexists]). split; [done|].
    destruct (new_live_same x Hl) as (_ & <- & _). done. }
  split; [done|..].
  - intros x d Hin Hdx. destruct (Hxd x d Hin Hdx) as [Hl Hdx']. rewrite new_refs, Ho.
    destruct (new_live_same x Hl) as (-> & _). rewrite (di_refs _ _ _ _ _ _ Hi x d Hl Hdx').
    change (occ _ []) with 0. lia.
  - intros x d Hin Hdx. destruct (Hxd x d Hin Hdx) as [Hl Hdx']. by apply (di_pos _ _ _ _ _ _ Hi x).
  - intros h Hh. apply new_known, (di_known _ _ _ _ _ _ Hi). rewrite bind_app, new_bind in Hh.
    csimpl in Hh. by rewrite Ho, !app_nil_r in Hh.
  - intros x y Hx1 Hy1 Hin. assert (y ∈ live) as Hy.
    { apply elem_of_snoc in Hy1 as [?| ->]; [done|].
      assert (handle_of st' s ∈ live ≫= olds_at st) as Hb.
      { apply elem_of_snoc in Hx1 as [Hxl| ->]; [|by rewrite Ho in Hin; apply not_elem_of_nil in Hin].
        apply list_elem_of_bind. exists x. split; [|done]. destruct (new_live_same x Hxl) as (_ & _ & <- & _). done. }
      exfalso. destruct (new_known (handle_of st' s)) as [_ []]; [|unfold handle_of; by rewrite He].
      apply (di_known _ _ _ _ _ _ Hi). rewrite !elem_of_app. tauto. }
    apply elem_of_snoc in Hx1 as [Hxl| ->]; [|by apply new_seq].
    destruct (new_live_same x Hxl) as (_ & _ & E1 & ->), (new_live_same y Hy) as (E2 & _ & _ & ->).
    rewrite E1, E2 in Hin. by apply (di_older _ _ _ _ _ _ Hi).
  - intros x Hin Hdx. pose proof (Hx x Hin Hdx) as Hl. destruct (new_live_same x Hl) as (-> & E & _).
    rewrite E in Hdx. by apply (di_calls _ _ _ _ _ _ Hi).
  - intros x d Hin Hdx. destruct (Hxd x d Hin Hdx) as [Hl Hdx']. by apply (di_struct _ _ _ _ _ _ Hi x).
Qed.

(** The new entry is a datatype, whose references to its old types were added
    before. *)
Lemma new_entry_datatype d :
  dt_of st' s = Some d → dt_refs d = 1 → debt ≡ₚ oldtypes_of d → virt e ∉ log.*1 →
  (dt_constructor d = MANA_TYPE_STRUCT → dt_oldtype d = 0) →
  dt_inv st' free' (live ++ [s]) (held ++ [virt e]) [] log.
Proof using Hi Hok' He Hfresh Hc Hold Hlog'.
  intros Hd H1 Hdebt Hnlog Hst. assert (olds_at st' s = oldtypes_of d) as Ho by (unfold olds_at; by rewrite Hd).
  assert (handle_of st' s = virt e) as Ev by (unfold handle_of; by rewrite He).
  pose proof new_unreferenced as Hz. rewrite !occ_app in Hz.
  pose proof (occ_nonneg (virt e) held). pose proof (occ_nonneg (virt e) debt).
  pose proof (occ_nonneg (virt e) (live ≫= olds_at st)).
  assert (∀ h, occ h debt = occ h (oldtypes_of d)) as Hod by (intros h; by rewrite Hdebt).
  assert (∀ x, x ∈ live → handle_of st x ≠ virt e) as Hnv.
  { intros x Hx E. destruct (new_live_same x Hx) as (E1 & _). rewrite <- E1, <- Ev in E.
    apply Hfresh. rewrite <- (handle_of_inj st' free' (live ++ [s]) [] x s Hok'); [done| | |done];
      apply elem_of_snoc; auto. }
  split; [done|..].
  - intros x dx [Hx| ->]%elem_of_snoc Hdx; rewrite new_refs, Ho, occ_app, occ_cons; change (occ _ []) with 0.
    + destruct (new_live_same x Hx) as (-> & E & _). rewrite E in Hdx.
      rewrite (di_refs _ _ _ _ _ _ Hi x dx Hx Hdx), Hod.
      rewrite decide_False; [lia|]. intros E2. by apply (Hnv x Hx).
    + rewrite Hd in Hdx. injection Hdx as <-. rewrite Ev, decide_True by done. unfold refs_from. rewrite Hod in Hz.
      lia.
  - intros x dx [Hx| ->]%elem_of_snoc Hdx; [|rewrite Hd in Hdx; injection Hdx as <-; lia].
    destruct (new_live_same x Hx) as (_ & E & _). rewrite E in Hdx. by apply (di_pos _ _ _ _ _ _ Hi x).
  - intros h. rewrite bind_app, new_bind. csimpl. rewrite Ho, !elem_of_app.
    intros [[Hh|Hh]|[Hh|[Hh|Hh]]].
    + apply new_known, (di_known _ _ _ _ _ _ Hi). rewrite !elem_of_app. tauto.
    + apply list_elem_of_singleton in Hh as ->. right. exists s. rewrite Hd.
      split; [apply elem_of_snoc; by right|]. split; [done|by eexists].
    + apply new_known, (di_known _ _ _ _ _ _ Hi). rewrite !elem_of_app. tauto.
    + apply new_known, (di_known _ _ _ _ _ _ Hi). rewrite !elem_of_app, Hdebt. tauto.
    + by apply not_elem_of_nil in Hh.
  - intros x y Hx1 Hy1 Hin. assert (y ∈ live) as Hy.
    { apply elem_of_snoc in Hy1 as [?| ->]; [done|]. exfalso. rewrite Ev in Hin.
      destruct (new_known (virt e)) as [_ []]; [|done]. apply (di_known _ _ _ _ _ _ Hi).
      apply elem_of_snoc in Hx1 as [Hxl| ->].
      - rewrite !elem_of_app. right; right. apply list_elem_of_bind. exists x. split; [|done].
        destruct (new_live_same x Hxl) as (_ & _ & <- & _). done.
      - rewrite Ho in Hin. rewrite !elem_of_app, Hdebt. tauto. }
    apply elem_of_snoc in Hx1 as [Hxl| ->]; [|by apply new_seq].
    destruct (new_live_same x Hxl) as (_ & _ & E1 & ->), (new_live_same y Hy) as (E2 & _ & _ & ->).
    rewrite E1, E2 in Hin. by apply (di_older _ _ _ _ _ _ Hi).
  - intros x [Hx| ->]%elem_of_snoc Hdx; [|by rewrite Ev].
    destruct (new_live_same x Hx) as (-> & E & _). rewrite E in Hdx. by apply (di_calls _ _ _ _ _ _ Hi).
  - intros x dx [Hx| ->]%elem_of_snoc Hdx; [|rewrite Hd in Hdx; by injection Hdx as <-].
    destruct (new_live_same x Hx) as (_ & E & _). rewrite E in Hdx. by apply (di_struct _ _ _ _ _ _ Hi x).
Qed.
End new_entry.

(** [add_virt_id()], with what it leaves alone. *)
Lemma add_entry_run `{MpiLib} st free live held debt log real d kind h st' :
  dt_inv st free live held debt log → 1 ≤ kind ≤ MANA_NUM_KINDS → desc_kind kind d →
  virt_id_next_seq st + 1 < 2 ^ 64 → add_virt_id real d kind st = Ok h st' →
  ∃ free' s e, vid_ok st' free' (live ++ [s]) ∧ slot_entry st' s = Some e ∧ (s ∉ live) ∧
    consts st' = consts st ∧ (∀ x, x ∈ live → slot_entry st' x = slot_entry st x) ∧
    log_repr st' free' (live ++ [s]) log ∧ h = virt e ∧ desc e = d ∧ real_id e = real ∧ (h ∉ log.*1) ∧
    datatypes_freed_while_pending st' = datatypes_freed_while_pending st.
Proof.
  intros Hi Hk Hd Hn Hrun. pose proof (dt_inv_ok _ _ _ _ _ _ Hi) as Hok.
  pose proof (add_virt_id_freed_list _ _ _ _ _ _ Hrun) as HF.
  destruct (di_log _ _ _ _ _ _ Hi) as [_ (l & Hp & ->)].
  pose proof (add_virt_id_spec st free live real d kind Hok Hk Hd Hn) as Ha. cbv zeta in Ha.
  destruct (_ <? _); [by rewrite Ha in Hrun|].
  destruct Ha as (st2 & e & Hrun2 & Hok' & He & Hl & Hr & Hde & Hcall & _ & _ & Hfresh & Hc & _ & _ & Hold & _).
  pose proof Hrun as Hrun1. rewrite Hrun in Hrun2. injection Hrun2 as -> <-. set (s := next_slot st free) in *.
  assert (∀ x, x ∈ live → slot_entry st' x = slot_entry st x) as Hsame.
  { intros x Hx. apply Hold; [apply (inv_live _ _ _ _ Hok x Hx)|]. by intros ->. }
  destruct (add_keeps_log st free live l real d kind (virt e) st' Hok Hp Hk Hd Hn Hrun1) as (_ & _ & _ & _ & _ & Hnl).
  exists (tail free), s, e. do 5 (split; [done|]). split; [|done].
  destruct (pending_ok_frame st st' live (live ++ [s]) l Hp) as [Hp' Hlog'].
  { by eapply add_virt_id_fields. }
  { intros x Hx. by rewrite Hsame by (by apply Hp). }
  { intros x Hx. apply elem_of_snoc. left. by apply Hp. }
  { intros x [Hx| ->]%elem_of_snoc.
    - rewrite <- (po_type _ _ _ Hp x Hx). unfold call_of. by rewrite Hsame.
    - unfold call_of. rewrite He. cbn. rewrite Hcall. split; [done|]. intros Hs. exfalso. by apply Hfresh, Hp. }
  split; [done|]. exists l. by rewrite Hlog'.
Qed.

Lemma new_virt_datatype_run `{MpiLib} app log st free live real d :
  types_inv st free live app log → (∀ o, o ∈ oldtypes_of d → known_type st live o) →
  (dt_constructor d = MANA_TYPE_STRUCT → dt_oldtype d = 0) →
  virt_id_next_seq st + 1 < 2 ^ 64 →
  match new_virt_datatype real d st with
  | Ok h st' => ∃ free' live', types_inv st' free' live' (app ++ [h]) log ∧ consts st' = consts st ∧
      ∃ s e, s ∈ live' ∧ slot_entry st' s = Some e ∧ virt e = h ∧ real_id e = real ∧
        desc e = DatatypeDesc (d <| dt_refs := 1 |>)
  | Abort => True
  | Spin => False
  end.
Proof.
  intros Hi Ho Hst Hn. unfold new_virt_datatype. set (d1 := d <| dt_refs := 1 |>).
  destruct (add_references_run st free live _ [] log (oldtypes_of d1) Hi Ho)
    as (st1 & Hrun & Hi1 & E1 & E2 & E3 & Hk & Hh).
  assert (datatypes_freed_while_pending st1 = datatypes_freed_while_pending st) as HF1.
  { revert st Hi Ho Hn Hrun E1 E2 E3 Hk Hh Hi1. clear. intros st _ _ _ Hrun _ _ _ _ _ _.
    revert st Hrun. induction (oldtypes_of d1) as [|o l IH]; intros st; cbn [for_each].
    - unfold mret, prog_ret. by intros [= ->].
    - intros ([] & st2 & Ha & Hb)%prog_bind_inv. rewrite (IH st2 Hb). unfold add_reference in Ha.
      prog_red in Ha. destruct (datatype_desc st o) as [[]|]; by injection Ha as <-. }
  rewrite (prog_bind_ok _ _ _ _ _ Hrun). rewrite app_nil_r in Hi1.
  destruct (add_virt_id real (DatatypeDesc d1) MANA_DATATYPE_KIND st1) as [h st'| |] eqn:Ea; [|done|].
  - destruct (add_entry_run st1 free live _ _ log real (DatatypeDesc d1) MANA_DATATYPE_KIND h st' Hi1)
      as (free' & s & e & Hok' & He & Hf & Hc & Hold & Hlog & -> & Hde & Hre & Hnl & HF); [done|done|by rewrite E2|done|].
    exists free', (live ++ [s]). split; [|split; [congruence|exists s, e; split; [apply elem_of_snoc; by right|done]]].
    unfold types_inv. rewrite HF, HF1.
    eapply (dt_inv_perm _ _ _ ((app ++ datatypes_freed_while_pending st) ++ [virt e]) []).
    { by rewrite !app_nil_r, <- !app_assoc, (Permutation_app_comm _ [virt e]). }
    apply (new_entry_datatype st1 st' free live _ _ log s e free' Hi1 Hok' He Hf Hc Hold Hlog d1); try done.
    + unfold dt_of. rewrite He. cbn. by rewrite Hde.
    + by rewrite reverse_Permutation.
  - pose proof (add_virt_id_spec st1 free live real (DatatypeDesc d1) MANA_DATATYPE_KIND
      (dt_inv_ok _ _ _ _ _ _ Hi1)) as Ha.
    cbv zeta in Ha. destruct (_ <? _); [|].
    + rewrite Ea in Ha. by specialize (Ha ltac:(done) ltac:(done) ltac:(by rewrite E2)).
    + destruct Ha as (? & ? & Ha & _); [done|done|by rewrite E2|]. by rewrite Ea in Ha.
Qed.

(** ** Operations that keep the references *)

(** The parts of a descriptor that the invariant is about. *)
Definition desc_core (d : descriptor) : option (Z * type_constructor * Z * Z * list Z) :=
  match d with
  | DatatypeDesc t => Some (dt_refs t, dt_constructor t, dt_count t, dt_oldtype t, dt_oldtypes t)
  | _ => None
  end.
Definition core_view (e : virt_id_entry) := (virt e, desc_core (desc e), entry_seq e).

(** The fields of an entry that the log's operations do not change. *)
Definition request_view (e : virt_id_entry) := (virt e, real_id e, completed e, status e).

Record same_core (st st' : vid_state) : Prop := {
  sc_view : ∀ x, core_view <$> slot_entry st' x = core_view <$> slot_entry st x;
  sc_consts : consts st' = consts st;
  sc_freed : datatypes_freed_while_pending st' = datatypes_freed_while_pending st
}.

Lemma same_core_refl st : same_core st st.
Proof. by split. Qed.
Lemma same_core_trans st1 st2 st3 : same_core st1 st2 → same_core st2 st3 → same_core st1 st3.
Proof. intros [] []. split; [intros x|congruence|congruence]. by rewrite sc_view1, sc_view0. Qed.
Lemma same_core_update s f st :
  (∀ e, core_view (f e) = core_view e) → same_core st (update_entry s f st).
Proof.
  intros Hf. split; [|done|done]. intros x. rewrite slot_entry_update. case_decide; [|done].
  destruct (slot_entry st x); [|done]. cbn. by rewrite Hf.
Qed.
Lemma same_core_upd s f st st' :
  (∀ e, core_view (f e) = core_view e) → same_core st st' → same_core st (update_entry s f st').
Proof. intros Hf Hs. eapply same_core_trans; [exact Hs|by apply same_core_update]. Qed.
Lemma same_core_ext st st' st2 :
  virt_id_chunks st2 = virt_id_chunks st' → consts st2 = consts st' →
  datatypes_freed_while_pending st2 = datatypes_freed_while_pending st' →
  same_core st st' → same_core st st2.
Proof.
  intros E1 E2 E3 []. split; [|congruence|congruence]. intros x.
  by rewrite (slot_entry_ext st' st2 x E1).
Qed.

(** The states that the log's operations make. *)
Ltac core_tac :=
  lazymatch goal with
  | |- same_core _ (set_field _ _ ?X) =>
      apply (same_core_ext _ X); [reflexivity|reflexivity|reflexivity|core_tac]
  | |- same_core _ (update_entry _ _ _) => apply same_core_upd; [intros; reflexivity|core_tac]
  | |- same_core ?st ?st => apply same_core_refl
  end.

Lemma count_from_core fuel comm dest tag o st st' :
  count_from fuel comm dest tag o st = Ok () st' → same_core st st'.
Proof.
  revert o st. induction fuel as [|fuel IH]; intros [s|] st; cbn [count_from]; try done;
    try (unfold mret, prog_ret; intros [= ->]; apply same_core_refl).
  prog_red. destruct (slot_entry _ s); [|done]. intros Hc%IH.
  eapply same_core_trans; [|exact Hc]. core_tac.
Qed.

Lemma log_op_core `{MpiLib} op st st' : run_log_op op st = Ok () st' → same_core st st'.
Proof.
  destruct op; cbn [run_log_op]; unfold addPendingRequestToLog, clearPendingRequestFromLog,
    replacePendingCall, countSendAfterIssends, get_virt_id_entry; prog_red.
  - destruct (lookup_virt_id_entry st rq); [|done]. case_bool_decide; cbn [pendingTail];
      destruct (pendingTail _); intros [= <-]; core_tac.
  - destruct (lookup_virt_id_entry st rq); [|intros [= ->]; apply same_core_refl].
    destruct (slot_entry st z) as [e|]; [|done].
    case_bool_decide; [intros [= ->]; apply same_core_refl|].
    case_bool_decide; destruct (pending_prev e), (pending_next e); intros [= <-]; core_tac.
  - destruct (lookup_virt_id_entry st rq); [|done]. destruct (slot_entry st z) as [e|]; [|done].
    case_bool_decide; [|done]. case_bool_decide; intros [= <-]; core_tac.
  - destruct (_ =? 0); [intros [= ->]; apply same_core_refl|]. apply count_from_core.
Qed.

Lemma dt_of_core st st' x :
  core_view <$> slot_entry st' x = core_view <$> slot_entry st x →
  handle_of st' x = handle_of st x ∧ seq_of st' x = seq_of st x ∧ olds_at st' x = olds_at st x ∧
  ∀ d', dt_of st' x = Some d' → ∃ d, dt_of st x = Some d ∧ dt_refs d' = dt_refs d ∧
    dt_constructor d' = dt_constructor d ∧ dt_oldtype d' = dt_oldtype d.
Proof.
  unfold handle_of, seq_of, olds_at, dt_of. destruct (slot_entry st' x) as [e'|], (slot_entry st x) as [e|];
    try done. unfold core_view. cbn. intros [= -> Hd ->].
  destruct (desc e') as [| | | |t'], (desc e) as [| | | |t]; try done; cbn in *.
  injection Hd as H1 H2 H3 H4 H5. do 2 (split; [done|]). split.
  - unfold oldtypes_of. by rewrite H2, H3, H4, H5.
  - intros ? [= <-]. by exists t.
Qed.

Lemma core_is_some st st' x :
  core_view <$> slot_entry st' x = core_view <$> slot_entry st x →
  is_Some (dt_of st' x) ↔ is_Some (dt_of st x).
Proof.
  unfold dt_of. destruct (slot_entry st' x) as [e'|], (slot_entry st x) as [e|]; try done.
  unfold core_view. cbn. intros [= _ Hd _].
  destruct (desc e'), (desc e); try done; cbn; rewrite ?is_Some_alt; naive_solver.
Qed.

Lemma dt_inv_same_core `{MpiLib} st st' free live held debt log log' :
  dt_inv st free live held debt log → same_core st st' → log_repr st' free live log' →
  (∀ s, s ∈ live → is_Some (dt_of st s) → handle_of st s ∉ log'.*1) →
  dt_inv st' free live held debt log'.
Proof.
  intros [Hlog Hr Hpos Hk Ho Hc Hst] [Hv Hcs _] Hlog' Hnew.
  assert (live ≫= olds_at st' = live ≫= olds_at st) as Hb.
  { apply bind_ext_in. intros x _. by apply dt_of_core. }
  split; [done|..].
  - intros s d Hs Hd. destruct (dt_of_core st st' s (Hv s)) as (-> & _ & _ & Hdt).
    destruct (Hdt d Hd) as (d0 & Hd0 & -> & _). unfold refs_from. rewrite Hb. by apply Hr.
  - intros s d Hs Hd. destruct (dt_of_core st st' s (Hv s)) as (_ & _ & _ & Hdt).
    destruct (Hdt d Hd) as (d0 & Hd0 & -> & _). by apply (Hpos s).
  - intros h. rewrite Hb. intros [Hout|(s & Hs & -> & Hd)]%Hk; [left; by rewrite Hcs|right].
    exists s. destruct (dt_of_core st st' s (Hv s)) as (-> & _). split; [done|]. split; [done|].
    by apply (core_is_some st st' s).
  - intros s s' Hs Hs'. destruct (dt_of_core st st' s (Hv s)) as (_ & -> & -> & _).
    destruct (dt_of_core st st' s' (Hv s')) as (-> & -> & _). by apply Ho.
  - intros s Hs Hd. destruct (dt_of_core st st' s (Hv s)) as (-> & _). apply Hnew; [done|].
    by apply (core_is_some st st' s).
  - intros s d Hs Hd. destruct (dt_of_core st st' s (Hv s)) as (_ & _ & _ & Hdt).
    destruct (Hdt d Hd) as (d0 & Hd0 & _ & -> & ->). by apply (Hst s).
Qed.

Lemma datatype_kind st free live s :
  vid_ok st free live → s ∈ live → is_Some (dt_of st s) → kind_of (handle_of st s) = MANA_DATATYPE_KIND.
Proof.
  intros Hok Hs Hd. destruct (inv_live_entry _ _ _ _ _ Hok Hs) as (e & k & He & Hl).
  unfold handle_of, dt_of in *. rewrite He in *. cbn in *.
  rewrite (live_entry_kind_of s e k (inv_slot_range _ _ _ _ _ Hok Hs) Hl). destruct Hl as [_ _ Hdk].
  destruct (desc e); by destruct Hd.
Qed.

(** Freeing a handle of another kind. *)
Lemma free_other_kind `{MpiLib} st free live held debt log slot st' :
  dt_inv st free live held debt log → slot ∈ live → dt_of st slot = None →
  free_virt_id (handle_of st slot) st = Ok () st' →
  dt_inv st' (slot :: free) (filter (.≠ slot) live) held debt log ∧ consts st' = consts st ∧
    datatypes_freed_while_pending st' = datatypes_freed_while_pending st.
Proof.
  intros Hi Hs Hd Hrun. pose proof (dt_inv_ok _ _ _ _ _ _ Hi) as Hok.
  destruct Hi as [[_ (l & Hp & ->)] Hr Hpos Hk Ho Hc Hst]. pose proof (inv_live_nodup _ _ _ _ Hok) as Hnd.
  pose proof (free_keeps_log st free live l slot Hok Hp Hs) as Hf. rewrite Hrun in Hf.
  destruct (decide (slot ∈ l)); [done|]. destruct Hf as (st2 & [= <-] & Hok' & Hp' & Hlog).
  destruct (inv_live_entry _ _ _ _ _ Hok Hs) as (e & k & He & _).
  pose proof (free_virt_id_run st free live slot e Hok Hs He) as Hfr.
  replace (virt e) with (handle_of st slot) in Hfr by (unfold handle_of; by rewrite He).
  rewrite Hrun in Hfr. destruct (decide _); [|done]. destruct Hfr as [pool [= ->]].
  split; [|done]. set (st' := freed st slot pool) in *.
  assert (∀ x, x ≠ slot → slot_entry st' x = slot_entry st x) as Hne by apply freed_entry_ne.
  assert (filter (.≠ slot) live ≫= olds_at st' = filter (.≠ slot) live ≫= olds_at st) as Hb.
  { apply bind_ext_in. intros x [_ Hx]%elem_of_remove. by apply (olds_at_other st st' slot Hne). }
  assert (olds_at st slot = []) as Hold by (unfold olds_at; by rewrite Hd).
  split; [split; [done|]; exists l; by rewrite Hlog|..].
  - intros s ds [Hin Hx]%elem_of_remove. rewrite (dt_of_other st st' slot Hne), (handle_of_other st st' slot Hne) by done.
    intros Hds. rewrite (Hr s ds Hin Hds), (refs_from_remove st live slot), Hold by done.
    unfold refs_from at 2. rewrite Hb. done.
  - intros s ds [Hin Hx]%elem_of_remove. rewrite (dt_of_other st st' slot Hne) by done. by apply Hpos.
  - intros h Hh. destruct (Hk h) as [Hout|(s & Hin & -> & Hds)].
    + rewrite Hb in Hh. rewrite !elem_of_app in *. destruct Hh as [?|[?|Hh]]; [tauto|tauto|].
      right; right. apply list_elem_of_bind in Hh as (x & Hx & [? _]%elem_of_remove).
      apply list_elem_of_bind. by exists x.
    + by left.
    + right. exists s. assert (s ≠ slot) as Hx by (intros ->; rewrite Hd in Hds; by destruct Hds).
      rewrite (dt_of_other st st' slot Hne), (handle_of_other st st' slot Hne) by done.
      split; [by apply elem_of_remove|done].
  - intros s s' [Hin Hx]%elem_of_remove [Hin' Hx']%elem_of_remove.
    rewrite (olds_at_other st st' slot Hne), (handle_of_other st st' slot Hne), !(seq_of_other st st' slot Hne) by done.
    by apply Ho.
  - intros s [Hin Hx]%elem_of_remove. rewrite (dt_of_other st st' slot Hne), (handle_of_other st st' slot Hne) by done.
    by apply Hc.
  - intros s ds [Hin Hx]%elem_of_remove. rewrite (dt_of_other st st' slot Hne) by done. by apply Hst.
Qed.

(** ** Histories *)

Definition tstate : Type := vid_state * list Z * list (Z * mpi_nonblocking_call_t).

Definition adds_request (op : log_op) : Prop :=
  match op with LAdd _ _ _ _ _ _ _ _ rq => kind_of rq = MANA_REQUEST_KIND | _ => True end.

(** The operations of the table, the log and the datatypes. *)
Inductive types_step `{MpiLib} : tstate → tstate → Prop :=
  | ts_new st app log real d h st' :
      (∀ o, o ∈ oldtypes_of d → outside_table (consts st) o ∨ o ∈ app) →
      (dt_constructor d = MANA_TYPE_STRUCT → dt_oldtype d = 0) →
      virt_id_next_seq st + 1 < 2 ^ 64 → new_virt_datatype real d st = Ok h st' →
      types_step (st, app, log) (st', app ++ [h], log)
  | ts_commit st app log h st' :
      h ∈ app → commit_virt_datatype h st = Ok () st' → types_step (st, app, log) (st', app, log)
  | ts_free st app app' log h st' :
      app ≡ₚ h :: app' → free_virt_datatype h st = Ok () st' → types_step (st, app, log) (st', app', log)
  | ts_release st app log st' :
      release_freed_datatypes st = Ok () st' → types_step (st, app, log) (st', app, log)
  | ts_log st app log op st' :
      log_op_valid st log op → adds_request op → run_log_op op st = Ok () st' →
      types_step (st, app, log) (st', app, spec_log_op op log)
  | ts_add st app log real d kind h st' :
      1 ≤ kind ≤ MANA_NUM_KINDS → kind ≠ MANA_DATATYPE_KIND → desc_kind kind d →
      virt_id_next_seq st + 1 < 2 ^ 64 → add_virt_id real d kind st = Ok h st' →
      types_step (st, app, log) (st', app, log)
  | ts_free_other st app log h st' :
      _handle h = h → kind_of h ≠ MANA_DATATYPE_KIND → free_virt_id h st = Ok () st' →
      types_step (st, app, log) (st', app, log)
  | ts_update st app log h real st' :
      update_virt_id h real st = Ok () st' → types_step (st, app, log) (st', app, log).

Definition types_ok `{MpiLib} (s : tstate) : Prop :=
  ∃ free live, types_inv s.1.1 free live s.1.2 s.2.

(** A log operation's keys. *)
Lemma spec_log_keys op log h :
  h ∈ (spec_log_op op log).*1 → h ∈ log.*1 ∨ match op with LAdd _ _ _ _ _ _ _ _ rq => h = rq | _ => False end.
Proof.
  destruct op; cbn [spec_log_op].
  - rewrite fmap_app, elem_of_app. intros [?|Hh]; [by left|]. right. by apply list_elem_of_singleton in Hh.
  - intros (p & -> & [_ Hp]%list_elem_of_filter)%list_elem_of_fmap. left. by apply list_elem_of_fmap_2.
  - rewrite <- list_fmap_compose. intros (p & -> & Hp)%list_elem_of_fmap. left. cbn.
    assert (p.1 ∈ log.*1) by (by apply list_elem_of_fmap_2). by destruct (decide (p.1 = rq)).
  - rewrite <- list_fmap_compose. intros (p & -> & Hp)%list_elem_of_fmap. left. cbn. by apply list_elem_of_fmap_2.
Qed.

Lemma types_step_ok `{MpiLib} s s' : types_ok s → types_step s s' → types_ok s'.
Proof.
  intros (free & live & Hi) Hstep. destruct Hstep as
    [st app log real d h st' Ho Hst Hn Hrun|st app log h st' Hh Hrun|st app app' log h st' Hp Hrun
    |st app log st' Hrun|st app log op st' Hv Hr Hrun|st app log real d kind h st' Hk Hne Hd Hn Hrun
    |st app log h st' Hh Hne Hrun|st app log h real st' Hrun]; cbn [fst snd] in *;
    pose proof (dt_inv_ok _ _ _ _ _ _ Hi) as Hok.
  - pose proof (new_virt_datatype_run app log st free live real d Hi) as Hnew. rewrite Hrun in Hnew.
    destruct Hnew as (free' & live' & Hi' & _); [|done|done|by exists free', live'].
    intros o Hin. destruct (Ho o Hin) as [?|Happ]; [by left|].
    apply (di_known _ _ _ _ _ _ Hi). rewrite !elem_of_app. tauto.
  - exists free, live. unfold commit_virt_datatype in Hrun. prog_red in Hrun.
    destruct (datatype_desc st h) as [[slot d]|] eqn:Ed; [|by injection Hrun as <-].
    injection Hrun as <-.
    assert (slot ∈ live) as Hs.
    { unfold datatype_desc in Ed. destruct (lookup_virt_id_entry st h) as [x|] eqn:El; [|done]. cbn in Ed.
      destruct (lookup_sound _ _ _ _ _ _ Hok El) as [Hx _]. destruct (slot_entry st x) as [e|]; [|done].
      cbn in Ed. destruct (desc e); try done. by injection Ed as <- _. }
    set (f := λ d : mana_datatype_desc, d <| dt_committed := true |>).
    assert (same_core st (update_dt slot f st)) as Hsc.
    { apply same_core_update. intros e. unfold core_view. cbn. by destruct (desc e). }
    change (types_inv (update_dt slot f st) free live app log). unfold types_inv. rewrite (sc_freed _ _ Hsc).
    apply (dt_inv_same_core st _ free live _ _ log); [done|done|apply log_repr_dt; [apply Hi|done]|apply Hi].
  - destruct (free_virt_datatype_run app app' log st free live h Hi Hp) as (st2 & free' & live' & Hrun2 & Hi' & _).
    rewrite Hrun in Hrun2. injection Hrun2 as <-. by exists free', live'.
  - destruct (release_freed_run app log st free live Hi) as (st2 & free' & live' & Hrun2 & Hi' & _).
    rewrite Hrun in Hrun2. injection Hrun2 as <-. by exists free', live'.
  - pose proof (log_op_core op st st' Hrun) as Hsc. exists free, live. unfold types_inv. cbn [fst snd].
    rewrite (sc_freed _ _ Hsc).
    destruct (log_op_run st free live log op (di_log _ _ _ _ _ _ Hi) Hv) as (st2 & Hrun2 & Hlog').
    rewrite Hrun in Hrun2. injection Hrun2 as <-.
    apply (dt_inv_same_core st _ free live _ _ log); [done|done|done|].
    intros s Hs Hd Hin. apply spec_log_keys in Hin as [Hin|Hin].
    + by apply (di_calls _ _ _ _ _ _ Hi s).
    + destruct op; try done. subst rq. cbn in Hr. pose proof (datatype_kind st free live s Hok Hs Hd) as Hk.
      by rewrite Hr in Hk.
  - destruct (add_entry_run st free live _ _ log real d kind h st' Hi Hk Hd Hn Hrun)
      as (free' & s & e & Hok' & He & Hf & Hc & Hold & Hlog & -> & Hde & _ & Hnl & HF).
    exists free', (live ++ [s]). unfold types_inv. cbn [fst snd]. rewrite HF.
    apply (new_entry_other st st' free live _ [] log s e free'); try done.
    unfold dt_of. rewrite He. cbn. rewrite Hde. by destruct d.
  - destruct (lookup_virt_id_entry st h) as [slot|] eqn:Hs.
    2:{ unfold free_virt_id in Hrun. prog_red in Hrun. by rewrite Hs in Hrun. }
    destruct (lookup_handle _ _ _ _ _ Hok Hh Hs) as [Hin ->].
    assert (dt_of st slot = None) as Hd.
    { destruct (dt_of st slot) eqn:E; [|done]. destruct Hne. eapply datatype_kind; [done|done|by eexists]. }
    destruct (free_other_kind st free live _ _ log slot st' Hi Hin Hd Hrun) as (Hi' & _ & HF).
    eexists _, _. unfold types_inv. cbn [fst snd]. rewrite HF. exact Hi'.
  - exists free, live. unfold update_virt_id in Hrun. prog_red in Hrun.
    destruct (lookup_virt_id_entry st h) as [slot|] eqn:Hs; [|done]. injection Hrun as <-.
    destruct (lookup_sound _ _ _ _ _ _ Hok Hs) as [Hin _].
    set (f := λ e : virt_id_entry, e <| real_id := real |>).
    assert (same_core st (update_entry slot f st)) as Hsc by (by apply same_core_update).
    change (types_inv (update_entry slot f st) free live app log). unfold types_inv. rewrite (sc_freed _ _ Hsc).
    apply (dt_inv_same_core st _ free live _ _ log); [done|done| |apply Hi].
    destruct (di_log _ _ _ _ _ _ Hi) as [_ (l & Hp & ->)].
    destruct (update_keeps_log st free live l slot f Hok Hp Hin) as (Hok' & Hp' & Hlog).
    { intros e. by split_and!. } { done. }
    split; [done|]. by exists l.
Qed.

(** The table before the first handle was made. *)
Definition fresh_table (st : vid_state) : Prop :=
  datatypes_freed_while_pending st = [] ∧ ∃ free, log_repr st free [] [].

Lemma fresh_types_ok `{MpiLib} st : fresh_table st → types_ok (st, [], []).
Proof.
  intros [HF (free & Hlog)]. exists free, []. unfold types_inv. cbn [fst snd]. rewrite HF.
  split; [done|..]; try (intros s ? Hs; by apply not_elem_of_nil in Hs).
  - intros h Hh. cbn in Hh. by apply not_elem_of_nil in Hh.
  - intros s Hs. by apply not_elem_of_nil in Hs.
Qed.

Lemma types_history `{MpiLib} st0 s : fresh_table st0 → rtc types_step (st0, [], []) s → types_ok s.
Proof.
  intros Hf. apply rtc_ind_r; [by apply fresh_types_ok|]. intros s1 s2 _ Hstep Hok.
  by eapply types_step_ok.
Qed.

(** C25. References of datatypes are exact.  After any sequence of operations on
    the table, the log and the datatypes, the count of a live datatype is the
    number of times that the application holds it (or freed it while a pending
    call used it) plus the number of live datatypes made from it; and each old
    type of a live datatype is predefined or is itself live and older. *)
Theorem datatype_refs_exact `{MpiLib} st0 st app log :
  fresh_table st0 → rtc types_step (st0, [], []) (st, app, log) →
  ∃ free live, vid_ok st free live ∧
    ∀ s d, s ∈ live → dt_of st s = Some d →
      dt_refs d = occ (handle_of st s) (app ++ datatypes_freed_while_pending st) +
        refs_from st live (handle_of st s) ∧
      0 < dt_refs d ∧
      ∀ o, o ∈ oldtypes_of d → outside_table (consts st) o ∨
        ∃ s', s' ∈ live ∧ o = handle_of st s' ∧ is_Some (dt_of st s') ∧ seq_of st s' < seq_of st s.
Proof.
  intros Hf Hrtc. destruct (types_history _ _ Hf Hrtc) as (free & live & Hi). cbn [fst snd] in Hi.
  exists free, live. split; [by eapply dt_inv_ok|]. intros s d Hs Hd. split.
  { rewrite (di_refs _ _ _ _ _ _ Hi s d Hs Hd). change (occ _ []) with 0. lia. }
  split; [by apply (di_pos _ _ _ _ _ _ Hi s)|]. intros o Ho.
  assert (olds_at st s = oldtypes_of d) as Hold by (unfold olds_at; by rewrite Hd).
  destruct (di_known _ _ _ _ _ _ Hi o) as [?|(s' & Hs' & -> & Hd')].
  - rewrite !elem_of_app. right; right. apply list_elem_of_bind. exists s. by rewrite Hold.
  - by left.
  - right. exists s'. do 3 (split; [done|]). apply (di_older _ _ _ _ _ _ Hi); [done|done|]. by rewrite Hold.
Qed.

(** The datatypes that the application holds or a pending call uses, and the
    ones that these were made from. *)
Inductive needed (st : vid_state) (live held : list Z) : Z → Prop :=
  | needed_held s : handle_of st s ∈ held → needed st live held s
  | needed_old s x : x ∈ live → handle_of st s ∈ olds_at st x → needed st live held x → needed st live held s.

Lemma live_needed `{MpiLib} st free live held log s :
  dt_inv st free live held [] log → s ∈ live → is_Some (dt_of st s) → needed st live held s.
Proof.
  intros Hi. assert (∀ n s, s ∈ live → is_Some (dt_of st s) →
    (Z.to_nat (virt_id_next_seq st - seq_of st s) < n)%nat → needed st live held s) as Hn.
  { induction n as [|n IH]; intros x Hx [d Hd] Hlt; [lia|].
    pose proof (di_pos _ _ _ _ _ _ Hi x d Hx Hd) as Hpos. rewrite (di_refs _ _ _ _ _ _ Hi x d Hx Hd) in Hpos.
    change (occ _ []) with 0 in Hpos. pose proof (occ_nonneg (handle_of st x) held).
    destruct (decide (handle_of st x ∈ held)) as [Hh|Hh]; [by constructor|].
    rewrite occ_pos in Hh. assert (0 < refs_from st live (handle_of st x)) as Hr by lia.
    apply occ_pos, list_elem_of_bind in Hr as (y & Hy & Hyl). apply (needed_old _ _ _ x y Hyl Hy).
    apply IH; [done| |].
    - unfold olds_at in Hy. destruct (dt_of st y); [by eexists|]. by apply not_elem_of_nil in Hy.
    - pose proof (di_older _ _ _ _ _ _ Hi y x Hyl Hx Hy).
      pose proof (inv_seq _ _ _ _ (dt_inv_ok _ _ _ _ _ _ Hi) y Hyl). lia. }
  intros Hs Hd. apply (Hn (S (Z.to_nat (virt_id_next_seq st - seq_of st s)))); [done|done|lia].
Qed.

(** No datatype leaks.  A datatype is in the table only while it is needed:
    the application holds it, it was freed while a pending call used it, or a
    needed datatype was made from it. *)
Theorem datatypes_needed `{MpiLib} st0 st app log :
  fresh_table st0 → rtc types_step (st0, [], []) (st, app, log) →
  ∃ free live, vid_ok st free live ∧
    ∀ s, s ∈ live → is_Some (dt_of st s) → needed st live (app ++ datatypes_freed_while_pending st) s.
Proof.
  intros Hf Hrtc. destruct (types_history _ _ Hf Hrtc) as (free & live & Hi). cbn [fst snd] in Hi.
  exists free, live. split; [by eapply dt_inv_ok|]. intros s Hs Hd. by eapply live_needed.
Qed.

(** C31. [MPI_Type_free] of a datatype that the application holds always
    returns: the recursion of [release_datatype()] ends, no assertion fails
    and no entry is freed twice; the references stay exact without it. *)
Theorem free_virt_datatype_returns `{MpiLib} st0 st app app' log h :
  fresh_table st0 → rtc types_step (st0, [], []) (st, app, log) → app ≡ₚ h :: app' →
  ∃ st', free_virt_datatype h st = Ok () st' ∧ types_step (st, app, log) (st', app', log).
Proof.
  intros Hf Hrtc Hp. destruct (types_history _ _ Hf Hrtc) as (free & live & Hi). cbn [fst snd] in Hi.
  destruct (free_virt_datatype_run app app' log st free live h Hi Hp) as (st' & ? & ? & Hrun & _).
  exists st'. split; [done|]. by eapply ts_free.
Qed.

(** ** A history *)

Definition sample_desc (o : Z) : mana_datatype_desc :=
  zero_datatype_desc <| dt_constructor := MANA_TYPE_CONTIGUOUS |> <| dt_count := 3 |> <| dt_oldtype := o |>.

(** Handle 1 is invalid in every table, as a predefined datatype's is. *)
Lemma one_outside `{MpiLib} cs : outside_table cs 1.
Proof. intros st free live _ _. unfold lookup_virt_id_entry. by destruct handle64. Qed.

Lemma init_fresh : fresh_table init_vid.
Proof. split; [done|]. exists []. apply log_repr_init. Qed.

(** A datatype made from a predefined one, one made from that, and the first
    one freed. *)
Lemma sample_types : ∃ a b st1 st2,
  @new_virt_datatype sample_lib 900 (sample_desc 1) init_vid = Ok a st1 ∧
  @new_virt_datatype sample_lib 901 (sample_desc a) st1 = Ok b st2 ∧
  @rtc _ (@types_step sample_lib) (init_vid, [], []) (st2, [a; b], []).
Proof.
  destruct (@new_virt_datatype sample_lib 900 (sample_desc 1) init_vid) as [a st1| |] eqn:E1;
    [|by vm_compute in E1|by vm_compute in E1].
  destruct (@new_virt_datatype sample_lib 901 (sample_desc a) st1) as [b st2| |] eqn:E2;
    [|by vm_compute in E1; injection E1 as <- <-; vm_compute in E2
     |by vm_compute in E1; injection E1 as <- <-; vm_compute in E2].
  exists a, b, st1, st2. split; [done|]. split; [done|].
  eapply rtc_l; [|eapply rtc_l; [|apply rtc_refl]].
  - apply (@ts_new sample_lib init_vid [] [] 900 (sample_desc 1) a st1); [|done|by vm_compute|exact E1].
    intros o ->%list_elem_of_singleton. left. apply (@one_outside sample_lib).
  - apply (@ts_new sample_lib st1 [a] [] 901 (sample_desc a) b st2); [|done| |exact E2].
    + intros o ->%list_elem_of_singleton. right. left.
    + vm_compute in E1. injection E1 as _ <-. by vm_compute.
Qed.

Lemma datatype_refs_exact_witness : ∃ st app,
  @rtc _ (@types_step sample_lib) (init_vid, [], []) (st, app, []) ∧ length app = 2%nat ∧
  ∃ free live, vid_ok st free live.
Proof.
  destruct sample_types as (a & b & st1 & st2 & _ & _ & Hrtc).
  destruct (@datatype_refs_exact sample_lib init_vid st2 [a; b] [] init_fresh Hrtc) as (free & live & Hok & _).
  exists st2, [a; b]. split; [done|]. split; [done|]. by exists free, live.
Defined.

Lemma datatypes_needed_witness : ∃ st app,
  @rtc _ (@types_step sample_lib) (init_vid, [], []) (st, app, []) ∧ length app = 2%nat ∧
  ∃ live, ∀ s, s ∈ live → is_Some (dt_of st s) → needed st live (app ++ datatypes_freed_while_pending st) s.
Proof.
  destruct sample_types as (a & b & st1 & st2 & _ & _ & Hrtc).
  destruct (@datatypes_needed sample_lib init_vid st2 [a; b] [] init_fresh Hrtc) as (free & live & _ & Hn).
  exists st2, [a; b]. split; [done|]. split; [done|]. by exists live.
Defined.

Lemma free_virt_datatype_returns_witness : ∃ a st st',
  @free_virt_datatype sample_lib a st = Ok () st' ∧
  @lookup_virt_id_entry sample_lib st a = @lookup_virt_id_entry sample_lib st' a.
Proof.
  destruct sample_types as (a & b & st1 & st2 & E1 & E2 & Hrtc).
  destruct (@free_virt_datatype_returns sample_lib init_vid st2 [a; b] [b] [] a init_fresh Hrtc)
    as (st' & Hrun & _); [done|].
  exists a, st2, st'. split; [done|].
  vm_compute in E1. injection E1 as <- <-. vm_compute in E2. injection E2 as <- <-.
  vm_compute in Hrun. injection Hrun as <-. by vm_compute.
Defined.
