(* ===== verification/Restart.v ===== *)
(** * Making MPI objects, and making them again at restart
    ([src/src/mpi-wrappers/mpi_type_wrappers.cpp], [src/src/virtual_id.cpp])

    The wrappers of the datatype constructors call the lower half and record
    the call in the descriptor of a new virtual datatype.  At restart the lower
    half is new, and [reconstruct_descriptors()] makes the communicators,
    groups, operations and datatypes of the table again from their descriptors.

    The lower half is a parameter: the class [ObjectLib] gives the MPI calls,
    and [ObjectLaws] what the MPI standard says of them. *)
From S2P Require Import Prelude Mpi Constants VirtualId VirtualIdInv VirtualIdSpec PendingLog PendingLogSpec DatatypeRefs DatatypeSpec.

(** The constructor of a datatype and its arguments, without the old types. *)
Inductive type_shape :=
  | Type_contiguous (count : Z)
  | Type_vector (count blocklength stride : Z)
  | Type_create_hvector (count blocklength stride : Z)
  | Type_indexed (count : Z) (blocklengths displacements : list Z)
  | Type_create_hindexed (count : Z) (blocklengths displacements : list Z)
  | Type_create_struct (count : Z) (blocklengths displacements : list Z)
  | Type_dup
  | Type_create_resized (lb extent : Z).

(** The MPI calls.  A call that makes an object returns its return code and the
    handle. *)
Class ObjectLib (L : Type) := {
  lh_type_call : type_shape → list Z → L → (Z * Z) * L;
  lh_Type_commit : Z → L → Z * L;
  lh_Type_free : Z → L → Z * L;
  lh_Group_incl : list Z → L → Z * L;                (* of the world group; size and ranks *)
  lh_Group_free : Z → L → L;
  lh_Comm_create_group : Z → L → Z * L;              (* of MPI_COMM_WORLD, tag 0 *)
  lh_Cart_create : Z → Z → list Z → list Z → L → Z * L;   (* comm ndims dims periods, reorder 0 *)
  lh_Comm_free : Z → L → L;
  lh_Op_create : Z → Z → L → Z * L
}.

(** A process: the upper half's table and the lower half. *)
Record process (L : Type) := mk_process { vids : vid_state; lower : L }.
Arguments mk_process {L} vids lower.
Arguments vids {L} _.
Arguments lower {L} _.
#[export] Instance eta_process L : Eta (process L) := λ p, mk_process (vids p) (lower p).

Section objects.
Context `{MpiLib} `{ObjectLib L}.

Definition on_vids {A} (m : prog vid_state A) : prog (process L) A := λ p,
  match m (vids p) with
  | Ok a st => Ok a (p <| vids := st |>)
  | Abort => Abort
  | Spin => Spin
  end.

Definition on_lower {A} (f : L → A * L) : prog (process L) A := λ p,
  let '(a, l) := f (lower p) in Ok a (p <| lower := l |>).

Fixpoint get_real_ids (types : list Z) : prog vid_state (list Z) :=
  match types with
  | [] => mret []
  | t :: ts => r ← get_real_id t; rs ← get_real_ids ts; mret (r :: rs)
  end.

(** ** The wrappers of the constructors *)

(** The common part: the call in the lower half and, if it succeeds, a new
    virtual datatype with the descriptor that [fill] makes of a zeroed one. *)
Definition make_type (shape : type_shape) (oldtypes : list Z)
    (fill : mana_datatype_desc → mana_datatype_desc) : prog (process L) (Z * Z) :=
  reals ← on_vids (get_real_ids oldtypes);
  '(retval, newtype) ← on_lower (lh_type_call shape reals);
  if retval =? MPI_SUCCESS then
    desc ← on_vids alloc_datatype_desc;
    virt ← on_vids (new_virt_datatype newtype (fill desc));
    mret (retval, virt)
  else mret (retval, newtype).

Definition PMPI_Type_contiguous (count oldtype : Z) : prog (process L) (Z * Z) :=
  make_type (Type_contiguous count) [oldtype] (λ desc, desc
    <| dt_constructor := MANA_TYPE_CONTIGUOUS |> <| dt_count := count |> <| dt_oldtype := oldtype |>).

Definition PMPI_Type_create_hvector (count blocklength stride oldtype : Z) : prog (process L) (Z * Z) :=
  make_type (Type_create_hvector count blocklength stride) [oldtype] (λ desc, desc
    <| dt_constructor := MANA_TYPE_HVECTOR |> <| dt_count := count |> <| dt_blocklength := blocklength |>
    <| dt_hstride := stride |> <| dt_oldtype := oldtype |>).

Definition PMPI_Type_vector (count blocklength stride oldtype : Z) : prog (process L) (Z * Z) :=
  make_type (Type_vector count blocklength stride) [oldtype] (λ desc, desc
    <| dt_constructor := MANA_TYPE_VECTOR |> <| dt_count := count |> <| dt_blocklength := blocklength |>
    <| dt_stride := stride |> <| dt_oldtype := oldtype |>).

Definition PMPI_Type_create_struct (count : Z) (blocklengths displacements types : list Z)
  : prog (process L) (Z * Z) :=
  make_type (Type_create_struct count blocklengths displacements) types (λ desc, desc
    <| dt_constructor := MANA_TYPE_STRUCT |> <| dt_count := count |> <| dt_blocklengths := blocklengths |>
    <| dt_hdisplacements := displacements |> <| dt_oldtypes := types |>).

Definition PMPI_Type_create_hindexed (count : Z) (blocklengths displacements : list Z) (oldtype : Z)
  : prog (process L) (Z * Z) :=
  make_type (Type_create_hindexed count blocklengths displacements) [oldtype] (λ desc, desc
    <| dt_constructor := MANA_TYPE_HINDEXED |> <| dt_count := count |> <| dt_blocklengths := blocklengths |>
    <| dt_hdisplacements := displacements |> <| dt_oldtype := oldtype |>).

Definition PMPI_Type_create_hindexed_block (count blocklength : Z) (displacements : list Z) (oldtype : Z)
  : prog (process L) (Z * Z) :=
  PMPI_Type_create_hindexed count (replicate (Z.to_nat count) blocklength) displacements oldtype.

Definition PMPI_Type_indexed (count : Z) (blocklengths displacements : list Z) (oldtype : Z)
  : prog (process L) (Z * Z) :=
  make_type (Type_indexed count blocklengths displacements) [oldtype] (λ desc, desc
    <| dt_constructor := MANA_TYPE_INDEXED |> <| dt_count := count |> <| dt_blocklengths := blocklengths |>
    <| dt_displacements := displacements |> <| dt_oldtype := oldtype |>).

Definition PMPI_Type_dup (oldtype : Z) : prog (process L) (Z * Z) :=
  make_type Type_dup [oldtype] (λ desc, desc
    <| dt_constructor := MANA_TYPE_DUP |> <| dt_oldtype := oldtype |>).

Definition PMPI_Type_create_resized (oldtype lb extent : Z) : prog (process L) (Z * Z) :=
  make_type (Type_create_resized lb extent) [oldtype] (λ desc, desc
    <| dt_constructor := MANA_TYPE_RESIZED |> <| dt_lb := lb |> <| dt_extent := extent |>
    <| dt_oldtype := oldtype |>).

(** The return code and what [*type] is afterwards. *)
Definition PMPI_Type_free (type : Z) : prog (process L) (Z * Z) :=
  real ← on_vids (get_real_id type);
  retval ← on_lower (lh_Type_free real);
  if retval =? MPI_SUCCESS then
    on_vids (free_virt_datatype type) ;; mret (retval, MPI_DATATYPE_NULL)
  else mret (retval, type).

Definition PMPI_Type_commit (type : Z) : prog (process L) Z :=
  real ← on_vids (get_real_id type);
  retval ← on_lower (lh_Type_commit real);
  (if retval =? MPI_SUCCESS then on_vids (commit_virt_datatype type) else mret ()) ;;
  mret retval.

(** ** Making the objects again *)

(** [entry->real_id = real]. *)
Definition set_real_id (slot real : Z) : prog (process L) unit :=
  on_vids (modify (update_entry slot (λ e, e <| real_id := real |>))).

Definition reconstruct_comm_desc (slot : Z) (d : mana_comm_desc) : prog (process L) unit :=
  group ← on_lower (lh_Group_incl (take (Z.to_nat (comm_size d)) (comm_global_ranks d)));
  comm ← on_lower (lh_Comm_create_group group);
  on_lower (λ l, ((), lh_Group_free group l)) ;;
  comm ← (if 0 <=? cart_ndims d then
            c ← on_lower (lh_Cart_create comm (cart_ndims d) (cart_dims d) (cart_periods d));
            on_lower (λ l, ((), lh_Comm_free comm l)) ;;
            mret c
          else mret comm);
  set_real_id slot comm.

Definition reconstruct_group_desc (slot : Z) (d : mana_group_desc) : prog (process L) unit :=
  group ← on_lower (lh_Group_incl (take (Z.to_nat (grp_size d)) (grp_global_ranks d)));
  set_real_id slot group.

Definition reconstruct_op_desc (slot : Z) (d : mana_op_desc) : prog (process L) unit :=
  op ← on_lower (lh_Op_create (op_user_fn d) (op_commute d));
  set_real_id slot op.

(** The call of the [switch]; [None] for an unknown constructor, for which the
    return code stays MPI_ERR_TYPE. *)
Definition shape_of (d : mana_datatype_desc) : option type_shape :=
  match dt_constructor d with
  | MANA_TYPE_NONE => None
  | MANA_TYPE_CONTIGUOUS => Some (Type_contiguous (dt_count d))
  | MANA_TYPE_VECTOR => Some (Type_vector (dt_count d) (dt_blocklength d) (dt_stride d))
  | MANA_TYPE_HVECTOR => Some (Type_create_hvector (dt_count d) (dt_blocklength d) (dt_hstride d))
  | MANA_TYPE_INDEXED => Some (Type_indexed (dt_count d) (dt_blocklengths d) (dt_displacements d))
  | MANA_TYPE_HINDEXED => Some (Type_create_hindexed (dt_count d) (dt_blocklengths d) (dt_hdisplacements d))
  | MANA_TYPE_STRUCT => Some (Type_create_struct (dt_count d) (dt_blocklengths d) (dt_hdisplacements d))
  | MANA_TYPE_DUP => Some Type_dup
  | MANA_TYPE_RESIZED => Some (Type_create_resized (dt_lb d) (dt_extent d))
  end.

Definition reconstruct_datatype_desc (slot : Z) (d : mana_datatype_desc) : prog (process L) unit :=
  reals ← on_vids (get_real_ids (oldtypes_of d));
  match shape_of d with
  | None => abort
  | Some shape =>
      '(rc, type) ← on_lower (lh_type_call shape reals);
      rc ← (if (rc =? MPI_SUCCESS) && dt_committed d then on_lower (lh_Type_commit type) else mret rc);
      if rc =? MPI_SUCCESS then set_real_id slot type else abort
  end.

(** The order of [std::sort]: by kind, then by creation. *)
Definition entry_le (a b : virt_id_entry) : Prop :=
  kind_of (virt a) < kind_of (virt b) ∨
  (kind_of (virt a) = kind_of (virt b) ∧ entry_seq a ≤ entry_seq b).
#[global] Instance entry_le_dec : RelDecision entry_le.
Proof. intros a b. unfold entry_le. apply _. Defined.

(** An entry that the loop visits: its slot is the low part of its handle. *)
Definition reconstruct_entry (e : virt_id_entry) : prog (process L) unit :=
  let slot := Z.land (virt e) MANA_VIRT_ID_SLOT_MASK in
  let kind := kind_of (virt e) in
  if kind =? MANA_COMM_KIND then
    match desc e with CommDesc d => reconstruct_comm_desc slot d | _ => abort end
  else if kind =? MANA_GROUP_KIND then
    match desc e with GroupDesc d => reconstruct_group_desc slot d | _ => abort end
  else if kind =? MANA_OP_KIND then
    match desc e with OpDesc d => reconstruct_op_desc slot d | _ => abort end
  else if kind =? MANA_DATATYPE_KIND then
    match desc e with DatatypeDesc d => reconstruct_datatype_desc slot d | _ => abort end
  else if kind =? MANA_REQUEST_KIND then mret ()
  else if kind =? MANA_FILE_KIND then mret ()
  else abort.

Definition reconstruct_descriptors : prog (process L) unit :=
  entries ← on_vids (st ← get_state; deref (scan st));
  let entries := omap (λ e, if negb (virt e =? 0) then Some e else None) entries in
  for_each (merge_sort entry_le entries) reconstruct_entry.

End objects.
