(* ===== verification/RestartSpec.v ===== *)
(** * Restart makes every object again

    The objects that handles of the lower half stand for are given by
    [denote].  The theorems show that a descriptor records the call that made
    the datatype, and that after [reconstruct_descriptors()] the handle of
    every live communicator, group, operation and datatype stands for the
    object that its descriptor describes; a datatype stands for the same tree
    of constructors over predefined datatypes as before the checkpoint. *)
From S2P Require Import Prelude Mpi Constants VirtualId VirtualIdInv VirtualIdSpec PendingLog PendingLogSpec DatatypeRefs DatatypeSpec Restart.

(** A datatype, built by constructors from predefined ones. *)
Inductive dtype :=
  | Basic (u : Z)
  | Made (shape : type_shape) (olds : list dtype).

Inductive object :=
  | OComm (members : list Z) (cart : option (Z * list Z * list Z))
  | OGroup (members : list Z)
  | OOp (user_fn commute : Z)
  | OType (t : dtype).

(** A call made the object of a new handle and changed no other. *)
Definition makes {L} (denote : L → Z → Z → option object) (l l' : L) (kind r : Z) (o : object) : Prop :=
  denote l kind r = None ∧ denote l' kind r = Some o ∧
  ∀ kind' x, (kind', x) ≠ (kind, r) → denote l' kind' x = denote l kind' x.

(** The number of processes of a Cartesian grid. *)
Definition grid_size (dims : list Z) : Z := foldr Z.mul 1 dims.

Class ObjectLaws (L : Type) `{!MpiLib, !ObjectLib L} (denote : L → Z → Z → option object) : Prop := {
  law_type shape reals ts l r l' :
    lh_type_call shape reals l = ((MPI_SUCCESS, r), l') →
    Forall2 (λ x t, denote l MANA_DATATYPE_KIND x = Some (OType t)) reals ts →
    makes denote l l' MANA_DATATYPE_KIND r (OType (Made shape ts));
  law_commit r l rc l' : lh_Type_commit r l = (rc, l') → denote l' = denote l;
  law_group_incl ranks l g l' :
    ranks ≠ [] → lh_Group_incl ranks l = (g, l') → makes denote l l' MANA_GROUP_KIND g (OGroup ranks);
  law_group_incl_empty l g l' :           (* the handle may be MPI_GROUP_EMPTY *)
    lh_Group_incl [] l = (g, l') →
    denote l' MANA_GROUP_KIND g = Some (OGroup []) ∧ ∀ kind x o, denote l kind x = Some o → denote l' kind x = Some o;
  law_group_free g l kind x :
    (kind, x) ≠ (MANA_GROUP_KIND, g) → denote (lh_Group_free g l) kind x = denote l kind x;
  law_comm_create ranks g l c l' :
    lh_Comm_create_group g l = (c, l') → denote l MANA_GROUP_KIND g = Some (OGroup ranks) →
    makes denote l l' MANA_COMM_KIND c (OComm ranks None);
  law_cart_create ranks c ndims dims periods l c' l' :
    lh_Cart_create c ndims dims periods l = (c', l') →
    denote l MANA_COMM_KIND c = Some (OComm ranks None) → grid_size dims = Z.of_nat (length ranks) →
    makes denote l l' MANA_COMM_KIND c' (OComm ranks (Some (ndims, dims, periods)));
  law_comm_free c l kind x :
    (kind, x) ≠ (MANA_COMM_KIND, c) → denote (lh_Comm_free c l) kind x = denote l kind x;
  law_op_create fn commute l op l' :
    lh_Op_create fn commute l = (op, l') → makes denote l l' MANA_OP_KIND op (OOp fn commute)
}.

Section restart.
Context `{OL : ObjectLaws L denote}.

(** Whatever stood for an object still stands for it. *)
Definition keeps_objects (l l' : L) : Prop :=
  ∀ kind x o, denote l kind x = Some o → denote l' kind x = Some o.

Lemma keeps_objects_trans l1 l2 l3 : keeps_objects l1 l2 → keeps_objects l2 l3 → keeps_objects l1 l3.
Proof. unfold keeps_objects. auto. Qed.
Lemma makes_keeps l l' kind r o : makes denote l l' kind r o → keeps_objects l l'.
Proof.
  intros (Hn & _ & Hk) kind' x o' Hx. rewrite Hk; [done|]. intros [= -> ->]. congruence.
Qed.

(** ** What a descriptor describes *)

(** The tree of a datatype's handle. *)
Inductive has_tree (st : vid_state) : Z → dtype → Prop :=
  | tree_basic u : lookup_virt_id_entry st u = None → has_tree st u (Basic u)
  | tree_made h s d shape ts :
      lookup_virt_id_entry st h = Some s → dt_of st s = Some d → shape_of d = Some shape →
      Forall2 (has_tree st) (oldtypes_of d) ts → has_tree st h (Made shape ts).

Definition cart_of (d : mana_comm_desc) : option (Z * list Z * list Z) :=
  if 0 <=? cart_ndims d then Some (cart_ndims d, cart_dims d, cart_periods d) else None.

(** The handle [real] stands for what the entry [e] of the table [st] describes. *)
Definition remade (st : vid_state) (l : L) (e : virt_id_entry) (real : Z) : Prop :=
  match desc e with
  | NoDesc => True
  | CommDesc d => denote l MANA_COMM_KIND real =
      Some (OComm (take (Z.to_nat (comm_size d)) (comm_global_ranks d)) (cart_of d))
  | GroupDesc d => denote l MANA_GROUP_KIND real =
      Some (OGroup (take (Z.to_nat (grp_size d)) (grp_global_ranks d)))
  | OpDesc d => denote l MANA_OP_KIND real = Some (OOp (op_user_fn d) (op_commute d))
  | DatatypeDesc _ => ∃ t, has_tree st (virt e) t ∧ denote l MANA_DATATYPE_KIND real = Some (OType t)
  end.

Lemma remade_keeps st l l' e real : keeps_objects l l' → remade st l e real → remade st l' e real.
Proof.
  intros Hk. unfold remade. destruct (desc e); [done|apply Hk..|].
  intros (t & ? & ?). exists t. split; [done|]. by apply Hk.
Qed.

(** ** One descriptor *)

Lemma reconstruct_comm_run slot d (p : process L) :
  take (Z.to_nat (comm_size d)) (comm_global_ranks d) ≠ [] →
  (0 ≤ cart_ndims d → grid_size (cart_dims d) =
     Z.of_nat (length (take (Z.to_nat (comm_size d)) (comm_global_ranks d)))) →
  ∃ real l', reconstruct_comm_desc slot d p =
      Ok () (mk_process (update_entry slot (λ e, e <| real_id := real |>) (vids p)) l') ∧
    keeps_objects (lower p) l' ∧
    denote l' MANA_COMM_KIND real =
      Some (OComm (take (Z.to_nat (comm_size d)) (comm_global_ranks d)) (cart_of d)).
Proof.
  intros Hne0 Hgrid. unfold reconstruct_comm_desc, set_real_id, on_lower, on_vids. destruct p as [st l]. prog_red.
  cbn [lower vids set_field]. set (ranks := take _ _) in *.
  destruct (lh_Group_incl ranks l) as [g l1] eqn:E1. pose proof (law_group_incl _ _ _ _ Hne0 E1) as M1.
  cbn [lower vids set_field].
  destruct (lh_Comm_create_group g l1) as [c l2] eqn:E2.
  pose proof (law_comm_create ranks _ _ _ _ E2 (proj1 (proj2 M1))) as M2.
  cbn [lower vids set_field]. set (l3 := lh_Group_free g l2).
  assert (keeps_objects l l3) as K3.
  { intros kind x o Ho. unfold l3. rewrite law_group_free.
    - by apply (makes_keeps _ _ _ _ _ M2), (makes_keeps _ _ _ _ _ M1).
    - intros [= -> ->]. rewrite (proj1 M1) in Ho. done. }
  assert (denote l3 MANA_COMM_KIND c = Some (OComm ranks None)) as C3.
  { unfold l3. rewrite law_group_free by done. apply M2. }
  assert (denote l MANA_COMM_KIND c = None) as N3.
  { destruct (denote l MANA_COMM_KIND c) eqn:E; [|done].
    apply (makes_keeps _ _ _ _ _ M1) in E. by rewrite (proj1 M2) in E. }
  unfold cart_of. destruct (Z.leb_spec 0 (cart_ndims d)) as [Hc|Hc].
  - cbn [lower vids set_field]. fold l3.
    destruct (lh_Cart_create c (cart_ndims d) (cart_dims d) (cart_periods d) l3) as [c' l4] eqn:E4.
    cbn [lower vids set_field].
    pose proof (law_cart_create ranks _ _ _ _ _ _ _ E4 C3 (Hgrid Hc)) as M4.
    exists c', (lh_Comm_free c l4). split; [done|].
    assert (c' ≠ c) as Hne by (intros ->; rewrite (proj1 M4) in C3; done).
    split.
    + intros kind x o Ho. rewrite law_comm_free.
      * by apply (makes_keeps _ _ _ _ _ M4), K3.
      * intros [= -> ->]. by rewrite N3 in Ho.
    + rewrite law_comm_free by congruence. apply M4.
  - exists c, l3. done.
Qed.

Lemma reconstruct_group_run slot d (p : process L) :
  ∃ real l', reconstruct_group_desc slot d p =
      Ok () (mk_process (update_entry slot (λ e, e <| real_id := real |>) (vids p)) l') ∧
    keeps_objects (lower p) l' ∧
    denote l' MANA_GROUP_KIND real = Some (OGroup (take (Z.to_nat (grp_size d)) (grp_global_ranks d))).
Proof.
  unfold reconstruct_group_desc, set_real_id, on_lower, on_vids. destruct p as [st l]. prog_red.
  cbn [lower vids set_field]. destruct (lh_Group_incl _ l) as [g l1] eqn:E1. exists g, l1. split; [done|].
  set (ranks := take _ _) in *. destruct (decide (ranks = [])) as [E|E].
  - rewrite E in *. by destruct (law_group_incl_empty _ _ _ E1).
  - pose proof (law_group_incl _ _ _ _ E E1) as M1. split; [by eapply makes_keeps|apply M1].
Qed.

Lemma reconstruct_op_run slot d (p : process L) :
  ∃ real l', reconstruct_op_desc slot d p =
      Ok () (mk_process (update_entry slot (λ e, e <| real_id := real |>) (vids p)) l') ∧
    keeps_objects (lower p) l' ∧
    denote l' MANA_OP_KIND real = Some (OOp (op_user_fn d) (op_commute d)).
Proof.
  unfold reconstruct_op_desc, set_real_id, on_lower, on_vids. destruct p as [st l]. prog_red.
  cbn [lower vids set_field]. destruct (lh_Op_create _ _ l) as [op l1] eqn:E1.
  pose proof (law_op_create _ _ _ _ _ E1) as M1. exists op, l1. split; [done|].
  split; [by eapply makes_keeps|apply M1].
Qed.

Lemma get_real_ids_run st l reals :
  Forall2 (λ u r, get_real_id u st = Ok r st) l reals → get_real_ids l st = Ok reals st.
Proof.
  induction 1 as [|u r us rs Hu Hus IH]; [done|]. cbn [get_real_ids].
  rewrite (prog_bind_ok _ _ _ _ _ Hu). by rewrite (prog_bind_ok _ _ _ _ _ IH).
Qed.

(** The lower half refuses to make the datatype of the descriptor [d]: the call that
    the descriptor records, on handles that stand for the old types, or the commit
    of its result returns an error. *)
Definition refused (st : vid_state) (p : process L) (d : mana_datatype_desc) : Prop :=
  ∃ shape reals ts,
    shape_of d = Some shape ∧ get_real_ids (oldtypes_of d) (vids p) = Ok reals (vids p) ∧
    Forall2 (has_tree st) (oldtypes_of d) ts ∧
    Forall2 (λ x t, denote (lower p) MANA_DATATYPE_KIND x = Some (OType t)) reals ts ∧
    let '((rc, type), l1) := lh_type_call shape reals (lower p) in
    rc ≠ MPI_SUCCESS ∨ dt_committed d = true ∧ fst (lh_Type_commit type l1) ≠ MPI_SUCCESS.

Lemma reconstruct_datatype_run st slot d (p : process L) shape reals ts :
  shape_of d = Some shape →
  Forall2 (λ u r, get_real_id u (vids p) = Ok r (vids p)) (oldtypes_of d) reals →
  Forall2 (has_tree st) (oldtypes_of d) ts →
  Forall2 (λ x t, denote (lower p) MANA_DATATYPE_KIND x = Some (OType t)) reals ts →
  (reconstruct_datatype_desc slot d p = Abort ∧ refused st p d) ∨
  ∃ real l', reconstruct_datatype_desc slot d p =
      Ok () (mk_process (update_entry slot (λ e, e <| real_id := real |>) (vids p)) l') ∧
    keeps_objects (lower p) l' ∧
    denote l' MANA_DATATYPE_KIND real = Some (OType (Made shape ts)).
Proof.
  intros Hshape Hreals Htree Hts. unfold reconstruct_datatype_desc, set_real_id, on_lower, on_vids.
  pose proof (get_real_ids_run _ _ _ Hreals) as Hrun. unfold refused.
  destruct p as [st0 l]. cbn [vids lower] in *. prog_red. cbn [vids lower set_field].
  rewrite Hrun, Hshape. cbn [vids lower set_field].
  destruct (lh_type_call shape reals l) as [[rc r] l1] eqn:E1. destruct (Z.eqb_spec rc MPI_SUCCESS) as [->|Hrc].
  2: { left. cbn [andb]. rewrite (proj2 (Z.eqb_neq _ _) Hrc). split; [done|]. exists shape, reals, ts. rewrite E1. split_and!; try done. by left. }
  pose proof (law_type _ _ _ _ _ _ E1 Hts) as M1. cbn [andb]. destruct (dt_committed d) eqn:Ec.
  - cbn [vids lower set_field]. destruct (lh_Type_commit r l1) as [rc l2] eqn:E2. destruct (Z.eqb_spec rc MPI_SUCCESS) as [->|Hrc].
    2: { left. split; [done|]. exists shape, reals, ts. rewrite E1. split_and!; try done. right. by rewrite E2. }
    right. exists r, l2. split; [done|]. pose proof (law_commit _ _ _ _ E2) as Ed. split.
    + intros kind x o Ho. rewrite Ed. by apply (makes_keeps _ _ _ _ _ M1).
    + rewrite Ed. apply M1.
  - right. rewrite Z.eqb_refl. exists r, l1. split; [done|]. split; [by eapply makes_keeps|apply M1].
Qed.

(** ** The loop *)

(** An entry but for the handle of the lower half. *)
Definition no_real (e : virt_id_entry) : virt_id_entry := e <| real_id := 0 |>.

(** The loop has made the objects of the entries [done] of the table [st]. *)
Record rebuilt (st : vid_state) (l0 : L) (done : list virt_id_entry) (p : process L) : Prop := {
  rb_entries : ∀ x, no_real <$> slot_entry (vids p) x = no_real <$> slot_entry st x;
  rb_consts : consts (vids p) = consts st;
  rb_table : table_fields (vids p) = table_fields st;
  rb_keeps : keeps_objects l0 (lower p);
  rb_done : ∀ e s, e ∈ done → slot_entry st s = Some e → lookup_virt_id_entry st (virt e) = Some s →
    ∃ e', slot_entry (vids p) s = Some e' ∧ remade st (lower p) e (real_id e')
}.

Lemma lookup_no_real st st' h :
  (∀ x, no_real <$> slot_entry st' x = no_real <$> slot_entry st x) →
  lookup_virt_id_entry st' h = lookup_virt_id_entry st h.
Proof.
  intros Hx. unfold lookup_virt_id_entry. cbv zeta.
  set (slot := Z.land _ _). specialize (Hx slot). revert Hx.
  destruct (slot_entry st' slot) as [e'|], (slot_entry st slot) as [e|]; try done.
  intros E. apply (f_equal (from_option virt 0)) in E. cbn in E. by rewrite E.
Qed.

(** Updating the handle of one entry keeps the rest. *)
Lemma rebuilt_set st l0 done p e s real l' :
  rebuilt st l0 done p → slot_entry st s = Some e → keeps_objects (lower p) l' →
  lookup_virt_id_entry st (virt e) = Some s → remade st l' e real →
  rebuilt st l0 (done ++ [e]) (mk_process (update_entry s (λ e, e <| real_id := real |>) (vids p)) l').
Proof.
  intros [He Hc Ht Hk Hd] Hs Hkl Hl Hr. split; cbn [vids lower]; try done.
  - intros x. rewrite slot_entry_update. case_decide; [|done]. subst. rewrite <- He.
    by destruct (slot_entry (vids p) x).
  - by eapply keeps_objects_trans.
  - intros e0 s0 Hin Hs0 Hl0. rewrite slot_entry_update. specialize (He s0). rewrite Hs0 in He.
    destruct (slot_entry (vids p) s0) as [e1|] eqn:E1; [|done].
    destruct (decide (s = s0)) as [<-|Hne].
    + rewrite Hs in Hs0. injection Hs0 as <-. eexists. split; [done|]. done.
    + apply elem_of_snoc in Hin as [Hin| ->].
      * destruct (Hd e0 s0 Hin Hs0 Hl0) as (e2 & He2 & Hr2). rewrite E1 in He2. injection He2 as <-.
        exists e1. split; [done|]. by eapply remade_keeps.
      * congruence.
Qed.

Section loop.
Context (st : vid_state) (free live held : list Z) (log : list (Z * mpi_nonblocking_call_t)) (l0 : L).
Context (Hi : dt_inv st free live held [] log).

(** The predefined old types have their handles in the new lower half, the
    constructors are known, a communicator has members, and a Cartesian grid has
    the communicator's size. *)
Record restartable : Prop := {
  ra_basic : ∀ s u, s ∈ live → u ∈ olds_at st s → outside_table (consts st) u →
    ∃ c, find_constant (constant_key u) (consts st) = Some (Some c) ∧
      denote l0 MANA_DATATYPE_KIND (c_lower c) = Some (OType (Basic u));
  ra_shape : ∀ s d, s ∈ live → dt_of st s = Some d → is_Some (shape_of d);
  ra_members : ∀ s e d, s ∈ live → slot_entry st s = Some e → desc e = CommDesc d →
    take (Z.to_nat (comm_size d)) (comm_global_ranks d) ≠ [];
  ra_cart : ∀ s e d, s ∈ live → slot_entry st s = Some e → desc e = CommDesc d → 0 ≤ cart_ndims d →
    grid_size (cart_dims d) = Z.of_nat (length (take (Z.to_nat (comm_size d)) (comm_global_ranks d)))
}.
Context (Hra : restartable).

(** An old type's handle and tree, once the older datatypes are made. *)
Lemma old_type_real done p s u :
  rebuilt st l0 done p → s ∈ live → u ∈ olds_at st s →
  (∀ s' e', s' ∈ live → slot_entry st s' = Some e' → is_Some (dt_of st s') → seq_of st s' < seq_of st s → e' ∈ done) →
  ∃ r t, get_real_id u (vids p) = Ok r (vids p) ∧
    denote (lower p) MANA_DATATYPE_KIND r = Some (OType t) ∧ has_tree st u t.
Proof using Hi Hra.
  intros Hrb Hs Hu Hdone. pose proof (dt_inv_ok _ _ _ _ _ _ Hi) as Hok.
  pose proof (lookup_no_real st (vids p) u (rb_entries _ _ _ _ Hrb)) as Hlk.
  destruct (di_known _ _ _ _ _ _ Hi u) as [Ho|(s' & Hs' & -> & [d' Hd'])].
  { rewrite !elem_of_app. right; right. apply list_elem_of_bind. by exists s. }
  - pose proof (Ho st free live eq_refl Hok) as Hn. rewrite Hn in Hlk.
    destruct (ra_basic Hra s u Hs Hu Ho) as (c & Hc & Hd). exists (c_lower c), (Basic u). split.
    + unfold get_real_id, entry_of. rewrite Hlk. cbn. unfold get_real_id_slow.
      by rewrite (rb_consts _ _ _ _ Hrb), Hc.
    + split; [by apply (rb_keeps _ _ _ _ Hrb)|by constructor].
  - destruct (inv_live_entry _ _ _ _ _ Hok Hs') as (e' & k & He' & _).
    pose proof (di_older _ _ _ _ _ _ Hi s s' Hs Hs' Hu) as Hlt.
    assert (lookup_virt_id_entry st (virt e') = Some s') as Hl.
    { pose proof (lookup_live _ _ _ _ _ Hok Hs') as Hl. unfold handle_of in Hl. by rewrite He' in Hl. }
    assert (handle_of st s' = virt e') as Hh by (unfold handle_of; by rewrite He').
    destruct (rb_done _ _ _ _ Hrb e' s') as (e2 & He2 & Hr); [apply (Hdone s'); [done|done|by eexists|done]|done|done|].
    unfold remade in Hr. unfold dt_of in Hd'. rewrite He' in Hd'. cbn in Hd'.
    destruct (desc e') as [| | | |d2]; try done. destruct Hr as (t & Ht & Hden).
    rewrite Hh in *. exists (real_id e2), t. split; [|done].
    unfold get_real_id, entry_of. rewrite Hlk, Hl. cbn. by rewrite He2.
Qed.

Lemma old_types_real done p s l :
  rebuilt st l0 done p → s ∈ live → (∀ u, u ∈ l → u ∈ olds_at st s) →
  (∀ s' e', s' ∈ live → slot_entry st s' = Some e' → is_Some (dt_of st s') → seq_of st s' < seq_of st s → e' ∈ done) →
  ∃ reals ts, Forall2 (λ u r, get_real_id u (vids p) = Ok r (vids p)) l reals ∧
    Forall2 (λ x t, denote (lower p) MANA_DATATYPE_KIND x = Some (OType t)) reals ts ∧
    Forall2 (has_tree st) l ts.
Proof using Hi Hra.
  intros Hrb Hs Hl Hdone. induction l as [|u l IH]; [by exists [], []|].
  destruct IH as (reals & ts & H1 & H2 & H3); [intros; apply Hl; by right|].
  destruct (old_type_real done p s u Hrb Hs) as (r & t & ? & ? & ?); [apply Hl; left|done|].
  exists (r :: reals), (t :: ts). repeat constructor; done.
Qed.

Lemma reconstruct_entry_run done p s e :
  rebuilt st l0 done p → s ∈ live → slot_entry st s = Some e →
  (∀ s' e', s' ∈ live → slot_entry st s' = Some e' → is_Some (dt_of st s') →
     is_Some (dt_of st s) → seq_of st s' < seq_of st s → e' ∈ done) →
  (reconstruct_entry e p = Abort ∧ ∃ d, desc e = DatatypeDesc d ∧ refused st p d) ∨
  ∃ p', reconstruct_entry e p = Ok () p' ∧ rebuilt st l0 (done ++ [e]) p'.
Proof using OL Hi Hra.
  intros Hrb Hs He Hdone. pose proof (dt_inv_ok _ _ _ _ _ _ Hi) as Hok.
  pose proof (inv_slot_range _ _ _ _ _ Hok Hs) as Hrange.
  destruct (inv_live_entry _ _ _ _ _ Hok Hs) as (e1 & k & He1 & Hl).
  rewrite He in He1. injection He1 as <-.
  pose proof (live_entry_kind_of s e k Hrange Hl) as Hk.
  pose proof (lookup_live_entry st s e k Hrange He Hl) as Hlk. destruct Hl as [Hkr Hv Hd].
  assert (Z.land (virt e) MANA_VIRT_ID_SLOT_MASK = s) as Hslot by (rewrite Hv; by apply make_handle_slot).
  unfold reconstruct_entry. rewrite Hslot, Hk.
  destruct (desc e) as [|d|d|d|d] eqn:Ed; cbn [desc_kind] in Hd.
  - right. exists p. split; [destruct Hd as [->| ->]; done|]. destruct Hrb as [R1 R2 R3 R4 R5]. split; try done.
    intros e2 s2 [Hin| ->]%elem_of_snoc Hs2 Hl2; [by apply R5|].
    pose proof (R1 s2) as E. rewrite Hs2 in E. destruct (slot_entry (vids p) s2) as [e3|]; [|done].
    exists e3. split; [done|]. unfold remade. by rewrite Ed.
  - subst k. rewrite Z.eqb_refl. destruct (reconstruct_comm_run s d p) as (real & l' & -> & Hkeep & Hden).
    { by apply (ra_members Hra s e). } { by apply (ra_cart Hra s e). }
    right. eexists. split; [reflexivity|]. apply rebuilt_set; try done. unfold remade. by rewrite Ed.
  - subst k. destruct (reconstruct_group_run s d p) as (real & l' & Hrun & Hkeep & Hden).
    change (MANA_GROUP_KIND =? MANA_COMM_KIND) with false. cbv iota. rewrite Z.eqb_refl, Hrun.
    right. eexists. split; [reflexivity|]. apply rebuilt_set; try done. unfold remade. by rewrite Ed.
  - subst k. destruct (reconstruct_op_run s d p) as (real & l' & Hrun & Hkeep & Hden).
    change (MANA_OP_KIND =? MANA_COMM_KIND) with false. change (MANA_OP_KIND =? MANA_GROUP_KIND) with false.
    cbv iota. rewrite Z.eqb_refl, Hrun.
    right. eexists. split; [reflexivity|]. apply rebuilt_set; try done. unfold remade. by rewrite Ed.
  - subst k. assert (dt_of st s = Some d) as Hdt by (unfold dt_of; rewrite He; cbn; by rewrite Ed).
    assert (olds_at st s = oldtypes_of d) as Hold by (unfold olds_at; by rewrite Hdt).
    change (MANA_DATATYPE_KIND =? MANA_COMM_KIND) with false.
    change (MANA_DATATYPE_KIND =? MANA_GROUP_KIND) with false.
    change (MANA_DATATYPE_KIND =? MANA_OP_KIND) with false. cbv iota. rewrite Z.eqb_refl.
    destruct (ra_shape Hra s d Hs Hdt) as [shape Hshape].
    destruct (old_types_real done p s (oldtypes_of d) Hrb Hs) as (reals & ts & H1 & H2 & H3).
    { intros u. by rewrite Hold. }
    { intros s' e' ????. by eapply Hdone; eauto. }
    destruct (reconstruct_datatype_run st s d p shape reals ts Hshape H1 H3 H2) as [[Hrun Hrf]|(real & l' & Hrun & Hkeep & Hden)];
      [left; split; [exact Hrun|by exists d]|right].
    eexists. split; [exact Hrun|]. apply rebuilt_set; try done. unfold remade. rewrite Ed.
    exists (Made shape ts). split; [|done]. by eapply tree_made.
Qed.

(** The entries that the loop visits, in their order. *)
Definition live_entries : list virt_id_entry := (λ s, default zero_entry (slot_entry st s)) <$> live.

Lemma live_entries_elem e : e ∈ live_entries ↔ ∃ s, s ∈ live ∧ slot_entry st s = Some e.
Proof using Hi.
  pose proof (dt_inv_ok _ _ _ _ _ _ Hi) as Hok. unfold live_entries. rewrite list_elem_of_fmap. split.
  - intros (s & -> & Hs). exists s. split; [done|].
    destruct (inv_live_entry _ _ _ _ _ Hok Hs) as (e & ? & -> & _). done.
  - intros (s & Hs & He). exists s. by rewrite He.
Qed.

Lemma rebuild_loop todo done p :
  rebuilt st l0 done p → done ++ todo ≡ₚ live_entries → StronglySorted entry_le (done ++ todo) →
  (for_each todo reconstruct_entry p = Abort ∧ ∃ made e rest d p1, todo = made ++ e :: rest ∧
     for_each made reconstruct_entry p = Ok () p1 ∧ desc e = DatatypeDesc d ∧ refused st p1 d) ∨
  ∃ p', for_each todo reconstruct_entry p = Ok () p' ∧ rebuilt st l0 (done ++ todo) p'.
Proof using OL Hi Hra.
  revert done p. induction todo as [|e todo IH]; intros done p Hrb Hperm Hsort; cbn [for_each].
  { right. exists p. by rewrite app_nil_r. }
  assert (e ∈ live_entries) as He by (rewrite <- Hperm; set_solver).
  apply live_entries_elem in He as (s & Hs & He).
  destruct (reconstruct_entry_run done p s e Hrb Hs He) as [[Hrun (d & Hd & Hrf)]|(p1 & Hrun & Hrb1)].
  { intros s' e' Hs' He' Hd' Hd Hlt.
    assert (e' ∈ done ++ e :: todo) as Hin.
    { rewrite Hperm. apply live_entries_elem. eauto. }
    apply elem_of_app in Hin as [?|Hin]; [done|]. exfalso.
    unfold seq_of in Hlt. rewrite He, He' in Hlt. cbn in Hlt.
    apply elem_of_cons in Hin as [->|Hin]; [lia|].
    apply StronglySorted_app in Hsort as (_ & _ & Hsort). apply StronglySorted_inv in Hsort as [_ Hf].
    rewrite Forall_forall in Hf. specialize (Hf e' Hin). pose proof (dt_inv_ok _ _ _ _ _ _ Hi) as Hok.
    pose proof (datatype_kind st free live s Hok Hs Hd) as K1.
    pose proof (datatype_kind st free live s' Hok Hs' Hd') as K2. unfold handle_of in K1, K2.
    rewrite He in K1. rewrite He' in K2. cbn in K1, K2. unfold entry_le in Hf. lia. }
  { left. split; [|exists [], e, todo, d, p; by split_and!]. unfold mbind, prog_bind. by rewrite Hrun. }
  rewrite (prog_bind_ok _ _ _ _ _ Hrun).
  destruct (IH (done ++ [e]) p1 Hrb1) as [[Hrun' (made & e1 & rest & d & p2 & -> & Hm & Hd & Hrf)]|(p' & Hrun' & Hrb')].
  { by rewrite <- app_assoc. } { by rewrite <- app_assoc. }
  - left. split; [done|]. exists (e :: made), e1, rest, d, p2. split_and!; try done. cbn [for_each]. by rewrite (prog_bind_ok _ _ _ _ _ Hrun).
  - right. exists p'. rewrite <- app_assoc in Hrb'. done.
Qed.
End loop.

#[global] Instance entry_le_total : Total entry_le.
Proof. intros a b. unfold entry_le. lia. Qed.
#[global] Instance entry_le_trans : Transitive entry_le.
Proof. intros a b c. unfold entry_le. lia. Qed.

(** C5. Restart makes every MPI object again.  In a new lower half,
    [reconstruct_descriptors()] ends, and ends in an error only when the lower half
    refuses to make a datatype: at that point the constructor call that the
    descriptor records, on handles that stand for its old types, or the commit
    returns an error.  Otherwise every handle of the table keeps its descriptor and
    then stands for what the descriptor describes: a communicator with the same
    members and Cartesian topology, a group with the same members, an operation
    with the same function, and a datatype with the same tree of constructors (its
    old types, which were made earlier, are made again before it, whatever slots
    they use). *)
Theorem restart_remakes_objects (p : process L) app log :
  types_ok (vids p, app, log) →
  (∀ free live held, dt_inv (vids p) free live held [] log → restartable (vids p) live (lower p)) →
  match reconstruct_descriptors p with
  | Ok _ p' =>
      ∀ h s e, lookup_virt_id_entry (vids p) h = Some s → slot_entry (vids p) s = Some e →
        ∃ e', lookup_virt_id_entry (vids p') h = Some s ∧ slot_entry (vids p') s = Some e' ∧
          no_real e' = no_real e ∧ remade (vids p) (lower p') e (real_id e')
  | Abort =>
      ∃ made e rest d p1,
        reconstruct_descriptors p = for_each (made ++ e :: rest) reconstruct_entry p ∧
        for_each made reconstruct_entry p = Ok () p1 ∧ desc e = DatatypeDesc d ∧ refused (vids p) p1 d
  | Spin => False
  end.
Proof using OL.
  intros (free & live & Hi) Hra. cbn [fst snd] in Hi. unfold types_inv in Hi. specialize (Hra _ _ _ Hi).
  pose proof (dt_inv_ok _ _ _ _ _ _ Hi) as Hok. destruct p as [st l]. cbn [vids lower] in *.
  unfold reconstruct_descriptors, on_vids. prog_red. cbn [vids]. rewrite (scan_run st free live Hok).
  set (entries := omap _ _).
  assert (entries ≡ₚ live_entries st live) as Hperm.
  { unfold entries. rewrite (scan_live_perm st free live); [|done|].
    - unfold live_entries. pose proof (inv_live_entry st free live []) as Hle.
      pose proof (inv_slot_range st free live []) as Hr.
      assert (∀ s, s ∈ live → virt (default zero_entry (slot_entry st s)) ≠ 0) as Hv.
      { intros s Hs. destruct (Hle s Hok Hs) as (e & k & -> & Hl). cbn.
        pose proof (live_entry_virt_pos s e k (Hr s Hok Hs) Hl). lia. }
      clear - Hv. induction live as [|s l IH]; [done|]. csimpl.
      rewrite (proj2 (Z.eqb_neq _ _)) by (apply Hv; left). cbn [negb]. constructor. apply IH.
      intros. apply Hv. by right.
    - intros e ->. done. }
  destruct (rebuild_loop st free live _ log l Hi Hra (merge_sort entry_le entries) []
    (mk_process st l)) as [[Hrun (made & e & rest & d & p1 & E & Hm & Hd & Hrf)]|(p' & Hrun & Hrb)].
  { split; [done|done|done|by intros ???|]. intros e s Hin. by apply not_elem_of_nil in Hin. }
  { by rewrite app_nil_l, merge_sort_Permutation. }
  { apply StronglySorted_merge_sort; apply _. }
  { change ((mk_process st l) <| vids := st |>) with (mk_process st l). rewrite Hrun. exists made, e, rest, d, p1.
    split_and!; [by rewrite <- E|done..]. }
  change ((mk_process st l) <| vids := st |>) with (mk_process st l). rewrite Hrun. intros h s e Hl He.
  pose proof (lookup_sound _ _ _ _ _ _ Hok Hl) as [Hs Hh].
  pose proof (rb_entries _ _ _ _ Hrb s) as Es. rewrite He in Es.
  destruct (rb_done _ _ _ _ Hrb e s) as (e' & He' & Hr).
  { rewrite app_nil_l, merge_sort_Permutation, Hperm. apply (live_entries_elem st free live _ log Hi). eauto. }
  { done. }
  { pose proof (lookup_live st free live [] s Hok Hs) as Hl2. unfold handle_of in Hl2. by rewrite He in Hl2. }
  exists e'. split; [by rewrite (lookup_no_real st _ _ (rb_entries _ _ _ _ Hrb))|].
  split; [done|]. split; [|done]. rewrite He' in Es.
  change (Some (no_real e') = Some (no_real e)) in Es. congruence.
Qed.

(** ** The wrappers *)

(** A call of a datatype constructor by the application. *)
Inductive type_request :=
  | RContiguous (count oldtype : Z)
  | RVector (count blocklength stride oldtype : Z)
  | RHvector (count blocklength stride oldtype : Z)
  | RIndexed (count : Z) (blocklengths displacements : list Z) (oldtype : Z)
  | RHindexed (count : Z) (blocklengths displacements : list Z) (oldtype : Z)
  | RHindexed_block (count blocklength : Z) (displacements : list Z) (oldtype : Z)
  | RStruct (count : Z) (blocklengths displacements types : list Z)
  | RDup (oldtype : Z)
  | RResized (oldtype lb extent : Z).

Definition run_request (r : type_request) : prog (process L) (Z * Z) :=
  match r with
  | RContiguous count oldtype => PMPI_Type_contiguous count oldtype
  | RVector count blocklength stride oldtype => PMPI_Type_vector count blocklength stride oldtype
  | RHvector count blocklength stride oldtype => PMPI_Type_create_hvector count blocklength stride oldtype
  | RIndexed count bls displs oldtype => PMPI_Type_indexed count bls displs oldtype
  | RHindexed count bls displs oldtype => PMPI_Type_create_hindexed count bls displs oldtype
  | RHindexed_block count bl displs oldtype => PMPI_Type_create_hindexed_block count bl displs oldtype
  | RStruct count bls displs types => PMPI_Type_create_struct count bls displs types
  | RDup oldtype => PMPI_Type_dup oldtype
  | RResized oldtype lb extent => PMPI_Type_create_resized oldtype lb extent
  end.

(** The constructor that a call stands for, and its old types. *)
Definition request_shape (r : type_request) : type_shape :=
  match r with
  | RContiguous count _ => Type_contiguous count
  | RVector count blocklength stride _ => Type_vector count blocklength stride
  | RHvector count blocklength stride _ => Type_create_hvector count blocklength stride
  | RIndexed count bls displs _ => Type_indexed count bls displs
  | RHindexed count bls displs _ => Type_create_hindexed count bls displs
  | RHindexed_block count bl displs _ => Type_create_hindexed count (replicate (Z.to_nat count) bl) displs
  | RStruct count bls displs _ => Type_create_struct count bls displs
  | RDup _ => Type_dup
  | RResized _ lb extent => Type_create_resized lb extent
  end.
Definition request_olds (r : type_request) : list Z :=
  match r with
  | RContiguous _ oldtype | RVector _ _ _ oldtype | RHvector _ _ _ oldtype | RIndexed _ _ _ oldtype
  | RHindexed _ _ _ oldtype | RHindexed_block _ _ _ oldtype | RDup oldtype | RResized oldtype _ _ => [oldtype]
  | RStruct _ _ _ types => types
  end.

(** A struct has as many old types as its count says. *)
Definition request_valid (r : type_request) : Prop :=
  match r with RStruct count _ _ types => count = Z.of_nat (length types) | _ => True end.

Lemma log_repr_pool st free live log f :
  log_repr st free live log → log_repr (st <| datatype_desc_pool ::= f |>) free live log.
Proof.
  intros [Hok (l & Hp & Hlog)]. split; [by apply (vid_inv_ext st)|]. exists l. split; [|done].
  destruct Hp. by split.
Qed.
Lemma types_inv_pool st free live app log f :
  types_inv st free live app log → types_inv (st <| datatype_desc_pool ::= f |>) free live app log.
Proof. intros [Hlog Hr Hpos Hk Ho Hc Hst]. split; try done. by apply log_repr_pool. Qed.

(** Reading handles changes nothing. *)
Lemma get_real_id_same u st r st' : get_real_id u st = Ok r st' → st' = st.
Proof.
  unfold get_real_id, get_real_id_slow, get_virt_id_entry. destruct (entry_of st u); [by intros [= _ <-]|].
  destruct (find_constant _ _) as [[c|]|]; [by intros [= _ <-]| |done]. prog_red.
  destruct (lookup_virt_id_entry st u); [|done]. destruct (slot_entry st z); [|done]. by intros [= _ <-].
Qed.
Lemma get_real_ids_same l st rs st' : get_real_ids l st = Ok rs st' → st' = st.
Proof.
  revert st rs st'. induction l as [|u l IH]; intros st rs st'; cbn [get_real_ids].
  - unfold mret, prog_ret. by intros [= _ <-].
  - intros (r & st1 & H1 & H2)%prog_bind_inv. apply get_real_id_same in H1 as ->.
    apply prog_bind_inv in H2 as (rs' & st2 & H2 & H3). apply IH in H2 as ->. by injection H3.
Qed.

Lemma make_type_run shape olds fill (p : process L) app log h p' :
  types_ok (vids p, app, log) → (∀ o, o ∈ olds → outside_table (consts (vids p)) o ∨ o ∈ app) →
  virt_id_next_seq (vids p) + 1 < 2 ^ 64 →
  let d := fill zero_datatype_desc in
  oldtypes_of (d <| dt_refs := 1 |>) = olds → shape_of (d <| dt_refs := 1 |>) = Some shape →
  (dt_constructor d = MANA_TYPE_STRUCT → dt_oldtype d = 0) →
  make_type shape olds fill p = Ok (MPI_SUCCESS, h) p' →
  types_ok (vids p', app ++ [h], log) ∧
  ∃ s e, lookup_virt_id_entry (vids p') h = Some s ∧ slot_entry (vids p') s = Some e ∧
    desc e = DatatypeDesc (d <| dt_refs := 1 |>) ∧
    ∀ reals ts, get_real_ids olds (vids p) = Ok reals (vids p) →
      Forall2 (λ x t, denote (lower p) MANA_DATATYPE_KIND x = Some (OType t)) reals ts →
      denote (lower p') MANA_DATATYPE_KIND (real_id e) = Some (OType (Made shape ts)).
Proof using OL.
  intros (free & live & Hi) Ho Hn d Holds Hshape Hst. cbn [fst snd] in Hi. destruct p as [st l].
  cbn [vids lower] in *. unfold make_type, on_vids, on_lower, alloc_datatype_desc. prog_red. cbn [vids lower set_field].
  destruct (get_real_ids olds st) as [reals st1| |] eqn:Er; [|done|done].
  pose proof (get_real_ids_same _ _ _ _ Er) as ->. cbn [vids lower set_field].
  destruct (lh_type_call shape reals l) as [[rc t] l1] eqn:El. cbn [vids lower set_field].
  destruct (Z.eqb_spec rc MPI_SUCCESS) as [->|Hne]; [|by intros [= -> _ _]].
  cbn [vids lower set_field]. set (st1 := st <| datatype_desc_pool ::= tail |>).
  change (fill zero_datatype_desc) with d.
  pose proof (types_inv_pool st free live app log tail Hi) as Hi1. fold st1 in Hi1.
  pose proof (new_virt_datatype_run app log st1 free live t d Hi1) as Hnew.
  destruct (new_virt_datatype t d st1) as [h' st2| |]; cbv beta iota; [|intros [=]|intros [=]].
  intros [= <- <-]. cbn [vids lower].
  destruct Hnew as (free' & live' & Hi2 & _ & s & e & Hs & He & Hv & Hr & Hd); [|done|done|].
  { intros o Hin. change (oldtypes_of d) with (oldtypes_of (d <| dt_refs := 1 |>)) in Hin.
    rewrite Holds in Hin. destruct (Ho o Hin) as [?|Ha]; [by left|].
    apply (di_known _ _ _ _ _ _ Hi1). rewrite !elem_of_app. tauto. }
  split; [by exists free', live'|]. pose proof (dt_inv_ok _ _ _ _ _ _ Hi2) as Hok2.
  exists s, e. split.
  { pose proof (lookup_live _ _ _ _ _ Hok2 Hs) as Hl. unfold handle_of in Hl. rewrite He in Hl. cbn in Hl.
    by rewrite <- Hv. }
  split; [done|]. split; [done|]. intros reals' ts [= <-] Hts. rewrite Hr.
  apply (law_type _ _ _ _ _ _ El Hts).
Qed.

Lemma make_type_records r fill (p : process L) app log h p' :
  types_ok (vids p, app, log) → (∀ o, o ∈ request_olds r → outside_table (consts (vids p)) o ∨ o ∈ app) →
  virt_id_next_seq (vids p) + 1 < 2 ^ 64 →
  make_type (request_shape r) (request_olds r) fill p = Ok (MPI_SUCCESS, h) p' →
  let d0 := fill zero_datatype_desc in
  oldtypes_of (d0 <| dt_refs := 1 |>) = request_olds r →
  shape_of (d0 <| dt_refs := 1 |>) = Some (request_shape r) →
  (dt_constructor d0 = MANA_TYPE_STRUCT → dt_oldtype d0 = 0) →
  types_ok (vids p', app ++ [h], log) ∧
  ∃ s e d, lookup_virt_id_entry (vids p') h = Some s ∧ slot_entry (vids p') s = Some e ∧
    desc e = DatatypeDesc d ∧ shape_of d = Some (request_shape r) ∧ oldtypes_of d = request_olds r ∧
    ∀ reals ts, get_real_ids (request_olds r) (vids p) = Ok reals (vids p) →
      Forall2 (λ x t, denote (lower p) MANA_DATATYPE_KIND x = Some (OType t)) reals ts →
      denote (lower p') MANA_DATATYPE_KIND (real_id e) = Some (OType (Made (request_shape r) ts)).
Proof using OL.
  intros Hok Ho Hn Hm d0 H1 H2 H3.
  destruct (make_type_run _ _ fill p app log h p' Hok Ho Hn H1 H2 H3 Hm) as (Hok' & s & e & ? & ? & Hd & ?).
  split; [exact Hok'|]. exists s, e, (d0 <| dt_refs := 1 |>). done.
Qed.

(** Every constructor's wrapper makes a descriptor that yields its call. *)
Lemma run_request_make r : request_valid r → ∃ fill,
  run_request r = make_type (request_shape r) (request_olds r) fill ∧
  let d0 := fill zero_datatype_desc in
  oldtypes_of (d0 <| dt_refs := 1 |>) = request_olds r ∧
  shape_of (d0 <| dt_refs := 1 |>) = Some (request_shape r) ∧
  (dt_constructor d0 = MANA_TYPE_STRUCT → dt_oldtype d0 = 0).
Proof.
  intros Hv. destruct r; eexists; (split; [reflexivity|]); (split; [|done]); try done.
  unfold oldtypes_of. cbn in Hv |- *. subst count. by rewrite Nat2Z.id, firstn_all.
Qed.

Lemma run_request_types_ok r (p : process L) app log h p' :
  types_ok (vids p, app, log) → (∀ o, o ∈ request_olds r → outside_table (consts (vids p)) o ∨ o ∈ app) →
  request_valid r → virt_id_next_seq (vids p) + 1 < 2 ^ 64 →
  run_request r p = Ok (MPI_SUCCESS, h) p' → types_ok (vids p', app ++ [h], log).
Proof using OL.
  intros Hok Ho (fill & -> & H1 & H2 & H3)%run_request_make Hn Hrun.
  by destruct (make_type_records r fill p app log h p' Hok Ho Hn Hrun H1 H2 H3).
Qed.

(** The constructors' wrappers record the call.  A successful call makes a
    new datatype for the application, whose descriptor yields the same
    constructor, arguments and old types; and the new handle of the lower half
    stands for that constructor applied to the old types. *)
Theorem type_wrappers_record r (p : process L) app log h p' :
  types_ok (vids p, app, log) → (∀ o, o ∈ request_olds r → outside_table (consts (vids p)) o ∨ o ∈ app) →
  request_valid r → virt_id_next_seq (vids p) + 1 < 2 ^ 64 →
  run_request r p = Ok (MPI_SUCCESS, h) p' →
  types_ok (vids p', app ++ [h], log) ∧
  ∃ s e d, lookup_virt_id_entry (vids p') h = Some s ∧ slot_entry (vids p') s = Some e ∧
    desc e = DatatypeDesc d ∧ shape_of d = Some (request_shape r) ∧ oldtypes_of d = request_olds r ∧
    ∀ reals ts, get_real_ids (request_olds r) (vids p) = Ok reals (vids p) →
      Forall2 (λ x t, denote (lower p) MANA_DATATYPE_KIND x = Some (OType t)) reals ts →
      denote (lower p') MANA_DATATYPE_KIND (real_id e) = Some (OType (Made (request_shape r) ts)).
Proof using OL.
  intros Hok Ho (fill & -> & H1 & H2 & H3)%run_request_make Hn Hrun.
  exact (make_type_records r fill p app log h p' Hok Ho Hn Hrun H1 H2 H3).
Qed.
End restart.

(** ** A lower half that satisfies the laws

    Its state is the list of its objects; a new object gets a handle above all
    others. *)

Definition sim : Type := list (Z * Z * object).

Fixpoint sim_denote (l : sim) (kind x : Z) : option object :=
  match l with
  | [] => None
  | (k, y, o) :: l' => if decide ((k, y) = (kind, x)) then Some o else sim_denote l' kind x
  end.
Definition sim_fresh (l : sim) : Z := 1 + foldr (λ o m, Z.max o.1.2 m) 0 l.
Definition sim_make (kind : Z) (o : object) (l : sim) : Z * sim :=
  (sim_fresh l, (kind, sim_fresh l, o) :: l).
Definition sim_drop (kind x : Z) (l : sim) : sim := filter (λ o : Z * Z * object, o.1 ≠ (kind, x)) l.

Definition sim_type (l : sim) (x : Z) : option dtype :=
  match sim_denote l MANA_DATATYPE_KIND x with Some (OType t) => Some t | _ => None end.

#[local] Instance sim_lib : ObjectLib sim := {
  lh_type_call shape reals l :=
    let '(r, l') := sim_make MANA_DATATYPE_KIND (OType (Made shape (default [] (mapM (sim_type l) reals)))) l in
    ((@MPI_SUCCESS sample_lib, r), l');
  lh_Type_commit _ l := (@MPI_SUCCESS sample_lib, l);
  lh_Type_free x l := (@MPI_SUCCESS sample_lib, sim_drop MANA_DATATYPE_KIND x l);
  lh_Group_incl ranks := sim_make MANA_GROUP_KIND (OGroup ranks);
  lh_Group_free := sim_drop MANA_GROUP_KIND;
  lh_Comm_create_group g l :=
    sim_make MANA_COMM_KIND (OComm (match sim_denote l MANA_GROUP_KIND g with
                                    | Some (OGroup ranks) => ranks | _ => [] end) None) l;
  lh_Cart_create c ndims dims periods l :=
    sim_make MANA_COMM_KIND (OComm (match sim_denote l MANA_COMM_KIND c with
                                    | Some (OComm ranks _) => ranks | _ => [] end)
                               (Some (ndims, dims, periods))) l;
  lh_Comm_free := sim_drop MANA_COMM_KIND;
  lh_Op_create fn commute := sim_make MANA_OP_KIND (OOp fn commute)
}.

Lemma sim_fresh_above l kind x o : (kind, x, o) ∈ l → x < sim_fresh l.
Proof.
  unfold sim_fresh. induction l as [|p l IH]; [by intros []%not_elem_of_nil|].
  intros [<-|Hin]%elem_of_cons; cbn; [lia|]. specialize (IH Hin). lia.
Qed.

Lemma sim_denote_elem l kind x o : sim_denote l kind x = Some o → (kind, x, o) ∈ l.
Proof.
  induction l as [|[[k y] o'] l IH]; cbn; [done|]. case_decide as E; [|right; auto].
  injection E as -> ->. intros [= ->]. left.
Qed.

Lemma sim_makes kind o l r l' : sim_make kind o l = (r, l') → makes sim_denote l l' kind r o.
Proof.
  intros [= <- <-]. unfold makes. split; [|split].
  - destruct (sim_denote l kind (sim_fresh l)) eqn:E; [|done].
    apply sim_denote_elem, sim_fresh_above in E. lia.
  - cbn. by rewrite decide_True.
  - intros kind' x Hne. cbn. by rewrite decide_False by congruence.
Qed.

Lemma sim_dropped kind' x' l kind x :
  (kind, x) ≠ (kind', x') → sim_denote (sim_drop kind' x' l) kind x = sim_denote l kind x.
Proof.
  intros Hne. unfold sim_drop, sim in *. induction l as [|[[k y] o] l IH]; [done|].
  rewrite filter_cons. cbn [fst snd]. destruct (decide ((k, y) ≠ (kind', x'))) as [Hk|Hk]; cbn [sim_denote].
  - by rewrite IH.
  - rewrite IH, (decide_False (P := (k, y) = (kind, x))); [done|].
    intros E. apply Hk. congruence.
Qed.

#[local] Instance sim_laws : @ObjectLaws sim sample_lib sim_lib sim_denote.
Proof.
  split; cbn.
  - intros shape reals ts l r l' [= <- <-] Hts. apply sim_makes. unfold sim_make. do 3 f_equal.
    assert (mapM (sim_type l) reals = Some ts) as ->; [|done]. apply mapM_Some.
    eapply Forall2_impl; [exact Hts|]. intros x t Hx. unfold sim_type. by rewrite Hx.
  - by intros r l rc l' [= _ ->].
  - intros ranks l g l' _. apply sim_makes.
  - intros l g l' Hg%sim_makes. split; [apply Hg|]. intros kind x o Ho. destruct Hg as (Hn & _ & Hk). rewrite Hk; [done|]. intros [= -> ->]. congruence.
  - intros. by apply sim_dropped.
  - intros ranks g l c l' Hc Hg. rewrite Hg in Hc. by apply sim_makes.
  - intros ranks c ndims dims periods l c' l' Hc Hd _. rewrite Hd in Hc. by apply sim_makes.
  - intros. by apply sim_dropped.
  - intros fn commute l op l'. apply sim_makes.
Qed.

(** The predefined datatype 1, and two datatypes: three of it, and a vector of
    those. *)
Definition sample_consts : constants_state :=
  match @set_upper_to_lower sample_lib sample_c2f MANA_DATATYPE_KIND 1 0x54000001 init_constants with
  | Ok _ cs => cs
  | _ => init_constants
  end.
Definition sample_lower_half : sim := [(MANA_DATATYPE_KIND, 0x54000001, OType (Basic 1))].
Definition sample_process : process sim :=
  mk_process (init_vid <| consts := sample_consts |>) sample_lower_half.

Lemma sample_process_ok : types_ok (H := sample_lib) (vids sample_process, [], []).
Proof.
  apply (@fresh_types_ok sample_lib). split; [done|]. exists []. split.
  - pose proof vid_init_ok as []. split; try done.
  - exists []. split; [|done]. split; try done; [constructor|by intros [|??]|].
    intros s Hs. by apply not_elem_of_nil in Hs.
Qed.

(** The process after a call, and the call's handle. *)
Definition sample_call (r : type_request) (p : process sim) : process sim * Z :=
  match run_request (H := sample_lib) r p with Ok (_, h) p' => (p', h) | _ => (p, 0) end.
Definition sample_process1 : process sim * Z := Eval vm_compute in sample_call (RContiguous 3 1) sample_process.
Definition sample_process2 : process sim * Z :=
  Eval vm_compute in sample_call (RVector 2 1 4 (snd sample_process1)) (fst sample_process1).

Lemma sample_run1 :
  run_request (H := sample_lib) (RContiguous 3 1) sample_process =
    Ok (@MPI_SUCCESS sample_lib, snd sample_process1) (fst sample_process1).
Proof. by vm_compute. Qed.
Lemma sample_run2 :
  run_request (H := sample_lib) (RVector 2 1 4 (snd sample_process1)) (fst sample_process1) =
    Ok (@MPI_SUCCESS sample_lib, snd sample_process2) (fst sample_process2).
Proof. by vm_compute. Qed.

Lemma sample_process2_ok :
  types_ok (H := sample_lib) (vids (fst sample_process2), [snd sample_process1; snd sample_process2], []).
Proof.
  assert (types_ok (H := sample_lib) (vids (fst sample_process1), [snd sample_process1], [])) as Hok.
  { apply (run_request_types_ok (OL := sim_laws) (RContiguous 3 1) sample_process [] []);
      [exact sample_process_ok| |exact I|reflexivity|exact sample_run1].
    intros o ->%list_elem_of_singleton. left. apply (@one_outside sample_lib). }
  apply (run_request_types_ok (OL := sim_laws) (RVector 2 1 4 (snd sample_process1)) _ [_] _ _ _ Hok);
    [|exact I|reflexivity|exact sample_run2].
  intros o ->%list_elem_of_singleton. right. left.
Qed.

Lemma type_wrappers_record_witness : ∃ h p',
  run_request (H := sample_lib) (RContiguous 3 1) sample_process = Ok (0, h) p' ∧
  ∃ s e, @lookup_virt_id_entry sample_lib (vids p') h = Some s ∧ slot_entry (vids p') s = Some e ∧
    sim_denote (lower p') MANA_DATATYPE_KIND (real_id e) = Some (OType (Made (Type_contiguous 3) [Basic 1])).
Proof.
  exists (snd sample_process1), (fst sample_process1). split; [exact sample_run1|].
  destruct (type_wrappers_record (OL := sim_laws) (RContiguous 3 1) sample_process [] []
    (snd sample_process1) (fst sample_process1) sample_process_ok) as (_ & s & e & d & Hl & He & _ & _ & _ & Hden).
  - intros o ->%list_elem_of_singleton. left. apply (@one_outside sample_lib).
  - done.
  - done.
  - exact sample_run1.
  - exists s, e. split; [done|]. split; [done|].
    apply (Hden [0x54000001]); [by vm_compute|]. by repeat constructor.
Defined.

(** The table of the two datatypes beside a new lower half. *)
Definition sample_restart : process sim := mk_process (vids (fst sample_process2)) sample_lower_half.

Lemma sample_restartable free live held :
  @dt_inv sample_lib (vids sample_restart) free live held [] [] →
  restartable (H := sample_lib) (denote := sim_denote) (vids sample_restart) live (lower sample_restart).
Proof.
  intros Hi. pose proof (@dt_inv_ok sample_lib _ _ _ _ _ _ Hi) as Hok.
  assert (∀ s, s ∈ live → s = 0 ∨ s = 1) as Hs.
  { intros s Hs. destruct (inv_live _ _ _ _ Hok s Hs) as [Hr _].
    change (0 ≤ s < 2) in Hr. lia. }
  split.
  - intros s u Hin Hu Ho. assert (u = 1 ∨ u = snd sample_process1) as [->| ->].
    { destruct (Hs s Hin) as [->| ->].
      - left. change (u ∈ [1]) in Hu. by apply list_elem_of_singleton in Hu.
      - right. change (u ∈ [snd sample_process1]) in Hu. by apply list_elem_of_singleton in Hu. }
    + eexists. split; [by vm_compute|done].
    + specialize (Ho _ _ _ eq_refl Hok). by vm_compute in Ho.
  - intros s d Hin Hd. destruct (Hs s Hin) as [->| ->]; vm_compute in Hd; injection Hd as <-; by eexists.
  - intros s e d Hin He. destruct (Hs s Hin) as [->| ->]; vm_compute in He; injection He as <-; done.
  - intros s e d Hin He. destruct (Hs s Hin) as [->| ->]; vm_compute in He; injection He as <-; done.
Qed.

Lemma restart_remakes_objects_witness : ∃ p',
  reconstruct_descriptors (H := sample_lib) sample_restart = Ok () p' ∧
  ∃ s e, @lookup_virt_id_entry sample_lib (vids p') (snd sample_process2) = Some s ∧
    slot_entry (vids p') s = Some e ∧ is_Some (sim_denote (lower p') MANA_DATATYPE_KIND (real_id e)).
Proof.
  pose proof (restart_remakes_objects (OL := sim_laws) sample_restart _ _ sample_process2_ok sample_restartable) as Hall.
  destruct (reconstruct_descriptors sample_restart) as [[] p'| |] eqn:Hrun;
    [|exfalso; vm_compute in Hrun; discriminate..].
  exists p'. split; [done|].
  destruct (Hall (snd sample_process2) 1 (default zero_entry (slot_entry (vids sample_restart) 1))) as
    (e' & Hl & He & _ & Hr); [by vm_compute|by vm_compute|].
  exists 1, e'. split; [done|]. split; [done|]. unfold remade in Hr.
  destruct (desc _) as [| | | |d] eqn:Ed; [by vm_compute in Ed..|].
  destruct Hr as (t & _ & Hr). by exists (OType t).
Defined.
