(* ===== verification/LowerHalfGuard.v ===== *)
(** * Keeping checkpoints out of the lower half ([src/src/lower_half_ckpt.h], [.cpp])

    Application threads bracket their calls of the lower half with
    [LOWER_HALF_DISABLE_CKPT()] and [LOWER_HALF_ENABLE_CKPT()]; the checkpoint
    thread closes the lower half and waits until no thread is inside.  The
    entry of a thread is one store of its [depth] and one load of
    [lower_half_closed] without a memory barrier between them, so the model has
    the store buffers of x86-64: a thread's stores reach the memory later, in
    their order, and [membarrier(2)] empties all buffers.  The thread itself
    reads its latest store.

    The doubly linked list of the threads is kept under a mutex, whose holder's
    stores are visible at once.  [closing_thread] is written only by the
    checkpoint thread, and a thread only compares it with its own address. *)
From S2P Require Import Prelude.

Record LowerHalfThread := mk_lh_thread {
  depth : Z;
  in_blocking_call : bool;
  registered : bool;
  lh_prev : option nat;
  lh_next : option nat
}.
#[export] Instance eta_lh_thread : Eta LowerHalfThread := λ t,
  mk_lh_thread (depth t) (in_blocking_call t) (registered t) (lh_prev t) (lh_next t).

(** Where a thread is: in the upper half; after its store of [depth]; in
    [wait_until_lower_half_open()], before it looks at its depth, at the outer
    loop's condition, and in the inner loop; between the two brackets. *)
Inductive thread_pc := Outside | Entered | Slow | Waiting | Sleeping | Inside.
#[export] Instance thread_pc_eq_dec : EqDecision thread_pc.
Proof. solve_decision. Defined.

Inductive store := StoreDepth (d : Z) | StoreBlocking (b : bool).

(** A thread: its [lh_thread] in memory, its store buffer and its place. *)
Record thread := mk_thread { mem : LowerHalfThread; stores : list store; pc : thread_pc }.
#[export] Instance eta_thread : Eta thread := λ t, mk_thread (mem t) (stores t) (pc t).

Definition apply_store (m : LowerHalfThread) (s : store) : LowerHalfThread :=
  match s with
  | StoreDepth d => m <| depth := d |>
  | StoreBlocking b => m <| in_blocking_call := b |>
  end.
(** What the thread itself reads. *)
Definition own_view (th : thread) : LowerHalfThread := foldl apply_store (mem th) (stores th).
Definition own_depth (th : thread) : Z := depth (own_view th).

Definition put (s : store) (th : thread) : thread := th <| stores ::= λ l, l ++ [s] |>.
(** The oldest store reaches the memory. *)
Definition flush (th : thread) : thread :=
  match stores th with
  | [] => th
  | s :: l => th <| mem ::= λ m, apply_store m s |> <| stores := l |>
  end.
Definition flush_all (th : thread) : thread := mk_thread (own_view th) [] (pc th).

(** The checkpoint thread in [close_lower_half_and_wait(skip_blocked)]: after
    its stores; after [membarrier(2)]; at the thread [t] of the list, with the
    threads it did not wait for; after its return. *)
Inductive ckpt_pc :=
  | Open
  | Closing (skip_blocked : bool)
  | Fenced (skip_blocked : bool)
  | Scanning (skip_blocked : bool) (t : option nat) (skipped : list nat)
  | Closed (skip_blocked : bool) (skipped : list nat).

Record guard_state := mk_guard {
  lower_half_closed : bool;
  closed_stores : list bool;        (* the checkpoint thread's store buffer *)
  closing_thread : option nat;
  threads : option nat;             (* the head of the list *)
  thr : gmap nat thread;
  ckpt : ckpt_pc
}.
#[export] Instance eta_guard : Eta guard_state := λ s,
  mk_guard (lower_half_closed s) (closed_stores s) (closing_thread s) (threads s) (thr s) (ckpt s).

Definition set_thread (t : nat) (th : thread) (s : guard_state) : guard_state :=
  s <| thr ::= <[t := th]> |>.
Definition set_mem (t : nat) (f : LowerHalfThread → LowerHalfThread) (s : guard_state) : guard_state :=
  s <| thr ::= alter (λ th, th <| mem ::= f |>) t |>.

(** ** The list of threads *)

(** Both run while the checkpoint thread does not hold [threads_lock]. *)
Definition threads_lock_free (s : guard_state) : bool :=
  match ckpt s with Scanning _ _ _ => false | _ => true end.

Definition register_lower_half_thread (t : nat) (s : guard_state) : guard_state :=
  let head := threads s in
  let s := set_mem t (λ m, m <| lh_prev := None |> <| lh_next := head |>) s in
  let s := match head with Some h => set_mem h (λ m, m <| lh_prev := Some t |>) s | None => s end in
  set_mem t (λ m, m <| registered := true |>) (s <| threads := Some t |>).

Definition unregister_lower_half_thread (t : nat) (s : guard_state) : guard_state :=
  match mem <$> thr s !! t with
  | None => s
  | Some m =>
      if negb (registered m) then s else
      let s := match lh_prev m with
               | Some p => set_mem p (λ m', m' <| lh_next := lh_next m |>) s
               | None => s <| threads := lh_next m |>
               end in
      let s := match lh_next m with
               | Some n => set_mem n (λ m', m' <| lh_prev := lh_prev m |>) s
               | None => s
               end in
      set_mem t (λ m, m <| registered := false |>) s
  end.

(** ** The brackets *)

Section guard.
Context (ckpt_thread : nat).   (* the checkpoint thread, which also calls wrappers *)

(** A thread's load of [lower_half_closed]; the checkpoint thread sees its own
    stores. *)
Definition load_closed (t : nat) (s : guard_state) : bool :=
  if bool_decide (t = ckpt_thread) then default (lower_half_closed s) (last (closed_stores s))
  else lower_half_closed s.

(** [lower_half_disable_ckpt()]: the store, then the load. *)
Definition disable_store (th : thread) : thread :=
  put (StoreDepth (own_depth th + 1)) th <| pc := Entered |>.
Definition disable_load (closed : bool) (th : thread) : thread :=
  th <| pc := if closed then Slow else Inside |>.

Definition lower_half_enable_ckpt (th : thread) : thread :=
  let d := own_depth th - 1 in
  put (StoreDepth d) th <| pc := if d =? 0 then Outside else Inside |>.

Definition lower_half_blocking_call_begin (th : thread) : thread := put (StoreBlocking true) th.
Definition lower_half_blocking_call_end (th : thread) : thread := put (StoreBlocking false) th.

(** The steps of [wait_until_lower_half_open()]. *)
Definition wait_until_lower_half_open (t : nat) (closing : option nat) (closed : bool) (th : thread) : thread :=
  match pc th with
  | Slow =>
      if (1 <? own_depth th) || bool_decide (closing = Some t) then th <| pc := Inside |>
      else th <| pc := Waiting |>
  | Waiting => if closed then put (StoreDepth 0) th <| pc := Sleeping |> else th <| pc := Inside |>
  | Sleeping => if closed then th else put (StoreDepth 1) th <| pc := Waiting |>
  | _ => th
  end.

(** ** The checkpoint thread *)

Definition close_lower_half (skip_blocked : bool) (s : guard_state) : guard_state :=
  s <| closing_thread := Some ckpt_thread |> <| closed_stores ::= λ l, l ++ [true] |>
    <| ckpt := Closing skip_blocked |>.

Definition make_lower_half_entries_visible (skip_blocked : bool) (s : guard_state) : guard_state :=
  s <| lower_half_closed := default (lower_half_closed s) (last (closed_stores s)) |>
    <| closed_stores := [] |> <| thr ::= fmap flush_all |> <| ckpt := Fenced skip_blocked |>.

(** One evaluation of the inner loop's condition for the thread [t]: whether
    the checkpoint thread goes on waiting. *)
Definition must_wait_for (skip_blocked : bool) (m : LowerHalfThread) : bool :=
  (0 <? depth m) && negb (skip_blocked && in_blocking_call m).

Definition scan_thread (skip_blocked : bool) (t : nat) (skipped : list nat) (s : guard_state)
  : option guard_state :=
  match mem <$> thr s !! t with
  | None => None
  | Some m =>
      if bool_decide (t = ckpt_thread) then Some (s <| ckpt := Scanning skip_blocked (lh_next m) skipped |>)
      else if must_wait_for skip_blocked m then None
      else Some (s <| ckpt := Scanning skip_blocked (lh_next m)
                                (if 0 <? depth m then skipped ++ [t] else skipped) |>)
  end.

Definition allow_threads_to_enter_lower_half (s : guard_state) : guard_state :=
  s <| closing_thread := None |> <| closed_stores ::= λ l, l ++ [false] |> <| ckpt := Open |>.

(** ** Steps *)

(** The checkpoint thread calls wrappers only when it is not closing. *)
Definition may_run (t : nat) (s : guard_state) : bool :=
  negb (bool_decide (t = ckpt_thread)) ||
  match ckpt s with Open | Closed _ _ => true | _ => false end.

(** A step of the thread [t] on its own state. *)
Inductive thread_step (t : nat) (s : guard_state) : thread → thread → Prop :=
  | step_disable th :
      pc th = Outside ∨ pc th = Inside → registered (mem th) = true →
      thread_step t s th (disable_store th)
  | step_load th :
      pc th = Entered → thread_step t s th (disable_load (load_closed t s) th)
  | step_wait th :
      thread_step t s th (wait_until_lower_half_open t (closing_thread s) (load_closed t s) th)
  | step_enable th :
      pc th = Inside → thread_step t s th (lower_half_enable_ckpt th)
  | step_block_begin th :
      pc th = Inside → thread_step t s th (lower_half_blocking_call_begin th)
  | step_block_end th :
      pc th = Inside → thread_step t s th (lower_half_blocking_call_end th).

Inductive guard_step : guard_state → guard_state → Prop :=
  | gs_thread t th th' s :
      thr s !! t = Some th → may_run t s = true → thread_step t s th th' →
      guard_step s (set_thread t th' s)
  | gs_flush t th s :
      thr s !! t = Some th → guard_step s (set_thread t (flush th) s)
  | gs_register t th s :
      thr s !! t = Some th → pc th = Outside → registered (mem th) = false →
      threads_lock_free s = true → may_run t s = true →
      guard_step s (register_lower_half_thread t s)
  | gs_unregister t th s :
      thr s !! t = Some th → pc th = Outside → threads_lock_free s = true → may_run t s = true →
      guard_step s (unregister_lower_half_thread t s)
  | gs_close skip s :
      (match ckpt s with Open | Closed _ _ => True | _ => False end) →
      guard_step s (close_lower_half skip s)
  | gs_closed_visible b l s :
      closed_stores s = b :: l → guard_step s (s <| lower_half_closed := b |> <| closed_stores := l |>)
  | gs_membarrier skip s :
      ckpt s = Closing skip → guard_step s (make_lower_half_entries_visible skip s)
  | gs_lock skip s :
      ckpt s = Fenced skip → guard_step s (s <| ckpt := Scanning skip (threads s) [] |>)
  | gs_scan skip t skipped s s' :
      ckpt s = Scanning skip (Some t) skipped → scan_thread skip t skipped s = Some s' → guard_step s s'
  | gs_unlock skip skipped s :
      ckpt s = Scanning skip None skipped → guard_step s (s <| ckpt := Closed skip skipped |>)
  | gs_allow skip skipped s :
      ckpt s = Closed skip skipped → guard_step s (allow_threads_to_enter_lower_half s).

(** Before any call: no thread has entered, none is registered. *)
Definition guard_initial (s : guard_state) : Prop :=
  lower_half_closed s = false ∧ closed_stores s = [] ∧ closing_thread s = None ∧
  threads s = None ∧ ckpt s = Open ∧
  ∀ t th, thr s !! t = Some th → th = mk_thread (mk_lh_thread 0 false false None None) [] Outside.

End guard.
