(* ===== verification/LowerHalfGuardSpec.v ===== *)
(** * No thread is in the lower half at a checkpoint

    The invariant of [LowerHalfGuard.v] and its theorems: once
    [close_lower_half_and_wait()] returns, only threads it saw in a blocking
    call are between the brackets; the list that it walks holds exactly the
    registered threads; a nested entry never waits; and the walk ends when the
    other threads have left. *)
From S2P Require Import Prelude LowerHalfGuard.

(** A thread is between [LOWER_HALF_DISABLE_CKPT()], whose return it has
    reached, and [LOWER_HALF_ENABLE_CKPT()]; a nested entry is inside from its
    start. *)
Definition in_lower_half (th : thread) : bool :=
  match pc th with
  | Inside => true
  | Entered | Slow => 1 <? own_depth th
  | _ => false
  end.

Definition thread_ok (th : thread) : Prop :=
  match pc th with
  | Outside | Sleeping => own_depth th = 0
  | Waiting => own_depth th = 1
  | _ => 1 ≤ own_depth th
  end ∧ (pc th ≠ Outside → registered (mem th) = true).

(** Whatever the checkpoint thread reads of this thread, it reads a positive
    depth. *)
Definition store_pos (s : store) : Prop := match s with StoreDepth d => 0 < d | _ => True end.
Definition seen_inside (th : thread) : Prop := 0 < depth (mem th) ∧ Forall store_pos (stores th).

Definition mem_of (s : guard_state) (t : nat) : option LowerHalfThread := mem <$> thr s !! t.

(** The links of the list [l]. *)
Definition linked_threads (s : guard_state) (l : list nat) : Prop :=
  ∀ a t b, l = a ++ t :: b →
    ∃ m, mem_of s t = Some m ∧ lh_prev m = last a ∧ lh_next m = head b.

(** After [membarrier(2)]. *)
Definition sealed (s : guard_state) : Prop :=
  match ckpt s with Fenced _ | Scanning _ _ _ | Closed _ _ => True | _ => False end.

Section inv.
Context (ckpt_thread : nat).

(** Each other thread of [l] that is inside was skipped. *)
Definition only_skipped (s : guard_state) (l : list nat) (skip : bool) (skipped : list nat) : Prop :=
  ∀ t th, t ∈ l → t ≠ ckpt_thread → thr s !! t = Some th → in_lower_half th = true → skip = true ∧ t ∈ skipped.

Record guard_inv (s : guard_state) (l : list nat) : Prop := {
  gi_head : threads s = head l;
  gi_nodup : NoDup l;
  gi_linked : linked_threads s l;
  gi_registered : ∀ t, t ∈ l ↔ ∃ th, thr s !! t = Some th ∧ registered (mem th) = true;
  gi_ok : ∀ t th, thr s !! t = Some th → thread_ok th;
  gi_closing_thread : ∀ t, closing_thread s = Some t → t = ckpt_thread;
  gi_closing : ∀ skip, ckpt s = Closing skip → default (lower_half_closed s) (last (closed_stores s)) = true;
  gi_closed : sealed s → lower_half_closed s = true ∧ closed_stores s = [];
  gi_seen : ∀ t th, sealed s → t ≠ ckpt_thread → thr s !! t = Some th → in_lower_half th = true → seen_inside th;
  gi_scan : match ckpt s with
    | Scanning skip cur skipped => ∃ passed rest, l = passed ++ rest ∧ cur = head rest ∧
        only_skipped s passed skip skipped
    | Closed skip skipped => only_skipped s l skip skipped
    | _ => True
    end
}.

(** ** A thread's own steps *)

Lemma own_depth_store d th : own_depth (put (StoreDepth d) th) = d.
Proof. unfold own_depth, own_view, put. cbn. by rewrite foldl_app. Qed.
Lemma own_depth_blocking b th : own_depth (put (StoreBlocking b) th) = own_depth th.
Proof. unfold own_depth, own_view, put. cbn. by rewrite foldl_app. Qed.
Lemma own_depth_flush th : own_depth (flush th) = own_depth th.
Proof. unfold own_depth, own_view, flush. destruct (stores th) as [|s l] eqn:E; [by rewrite E|done]. Qed.
Lemma flush_pc th : pc (flush th) = pc th.
Proof. unfold flush. by destruct (stores th). Qed.
Lemma in_lower_flush th : in_lower_half (flush th) = in_lower_half th.
Proof. unfold in_lower_half. by rewrite flush_pc, own_depth_flush. Qed.

(** The fields that other threads change under the mutex. *)
Definition list_fields (m : LowerHalfThread) := (registered m, lh_prev m, lh_next m).
Lemma apply_store_fields m s : list_fields (apply_store m s) = list_fields m.
Proof. by destruct s. Qed.
Lemma own_view_fields th : list_fields (own_view th) = list_fields (mem th).
Proof.
  unfold own_view. generalize (mem th). induction (stores th) as [|s l IH]; intros m; [done|]. cbn.
  by rewrite IH, apply_store_fields.
Qed.
Lemma flush_fields th : list_fields (mem (flush th)) = list_fields (mem th).
Proof. unfold flush. destruct (stores th) as [|s l]; [done|]. apply apply_store_fields. Qed.
Lemma flush_seen th : seen_inside th → seen_inside (flush th).
Proof.
  unfold seen_inside, flush. destruct (stores th) as [|s l] eqn:E; [by rewrite E|]. cbn.
  intros [Hd [Hs Hl]%Forall_cons]. split; [|done]. by destruct s.
Qed.
Lemma put_seen s th : seen_inside th → store_pos s → seen_inside (put s th).
Proof. intros [Hd Hs] Hp. split; [done|]. cbn. apply Forall_app. by repeat constructor. Qed.
Lemma registered_fields m m' : list_fields m = list_fields m' → registered m = registered m'.
Proof. by intros [= -> _ _]. Qed.

Lemma mem_of_set_thread t th s x :
  mem_of (set_thread t th s) x = if decide (x = t) then Some (mem th) else mem_of s x.
Proof.
  unfold mem_of, set_thread. cbn. case_decide as E; [by rewrite E, lookup_insert_eq|by rewrite lookup_insert_ne].
Qed.

Lemma linked_fields s s' l :
  (∀ t, t ∈ l → list_fields <$> mem_of s' t = list_fields <$> mem_of s t) →
  linked_threads s l → linked_threads s' l.
Proof.
  intros Hf Hl a t b ->. destruct (Hl a t b eq_refl) as (m & Hm & Hp & Hn).
  specialize (Hf t ltac:(set_solver)). rewrite Hm in Hf.
  destruct (mem_of s' t) as [m'|]; [|done]. injection Hf as _ E1 E2. exists m'. by rewrite E1, E2.
Qed.

Lemma set_thread_inv s l t th th' :
  guard_inv s l → thr s !! t = Some th → list_fields (mem th') = list_fields (mem th) → thread_ok th' →
  (sealed s → t ≠ ckpt_thread → in_lower_half th' = true → in_lower_half th = true ∧ seen_inside th') →
  guard_inv (set_thread t th' s) l.
Proof.
  intros [H1 H2 H3 H4 H5 H6 H7 H8 H9 H10] Ht Hf Hok Hin.
  assert (∀ x thx, thr (set_thread t th' s) !! x = Some thx →
    (x = t ∧ thx = th') ∨ (x ≠ t ∧ thr s !! x = Some thx)) as Hx.
  { intros x thx Hx. cbn in Hx. destruct (decide (x = t)) as [->|].
    - rewrite lookup_insert_eq in Hx. injection Hx as <-. by left.
    - rewrite lookup_insert_ne in Hx by done. by right. }
  assert (∀ k skip sk, sealed s → only_skipped s k skip sk → only_skipped (set_thread t th' s) k skip sk) as Hsk.
  { intros k skip sk Hs Hsk x thx Hk Hne Hlk Hlow.
    destruct (Hx x thx Hlk) as [[-> ->]|[_ Hlk']]; [|by apply (Hsk x thx)].
    apply (Hsk t th); [done|done|done|]. by apply Hin. }
  split; try done.
  - eapply linked_fields; [|done]. intros x _. rewrite mem_of_set_thread. case_decide as E; [|done].
    subst x. unfold mem_of. rewrite Ht. cbn. by rewrite Hf.
  - intros x. rewrite H4. cbn. destruct (decide (x = t)) as [->|].
    + rewrite lookup_insert_eq. split; intros (y & Hy & Hr).
      * rewrite Ht in Hy. injection Hy as <-. exists th'. split; [done|]. by rewrite (registered_fields _ _ Hf).
      * injection Hy as <-. exists th. split; [done|]. by rewrite <- (registered_fields _ _ Hf).
    + by rewrite lookup_insert_ne.
  - intros x thx [[-> ->]|[_ ?]]%Hx; [done|by eapply H5].
  - intros x thx Hs Hne [[-> ->]|[_ ?]]%Hx Hlow; [by apply Hin|by eapply H9].
  - cbn. unfold sealed in Hsk. destruct (ckpt s); try done; [|by apply Hsk].
    destruct H10 as (a & b & -> & -> & H10). exists a, b. split; [done|]. split; [done|]. by apply Hsk.
Qed.

Lemma thread_step_fields t s th th' :
  thread_step ckpt_thread t s th th' → list_fields (mem th') = list_fields (mem th).
Proof.
  destruct 1 as [th Hpc Hreg|th Hpc|th|th Hpc|th Hpc|th Hpc]; try done.
  unfold wait_until_lower_half_open. destruct (pc th); try done.
  - by destruct ((1 <? own_depth th) || _).
  - by destruct (load_closed _ _ _).
  - by destruct (load_closed _ _ _).
Qed.

Lemma wait_ok t closing closed th : thread_ok th → thread_ok (wait_until_lower_half_open t closing closed th).
Proof.
  intros [Hd Hr]. unfold wait_until_lower_half_open. destruct (pc th) eqn:Hpc; try (by split; rewrite Hpc); unfold thread_ok.
  - destruct (Z.ltb_spec 1 (own_depth th)); cbn [orb]; [|case_bool_decide]; (split; [|auto]); cbn; try exact Hd.
    change (own_depth th = 1). lia.
  - destruct closed; (split; [|auto]); cbn.
    + change (own_depth (put (StoreDepth 0) th) = 0). by rewrite own_depth_store.
    + change (1 ≤ own_depth th). lia.
  - destruct closed; [by rewrite Hpc|]. split; [|auto].
    change (own_depth (put (StoreDepth 1) th) = 1). by rewrite own_depth_store.
Qed.

Lemma thread_step_ok t s th th' : thread_ok th → thread_step ckpt_thread t s th th' → thread_ok th'.
Proof.
  intros Hok Hstep. destruct Hstep as [th Hpc Hreg|th Hpc|th|th Hpc|th Hpc|th Hpc]; [..|by apply wait_ok| | |];
    destruct Hok as [Hd Hr]; unfold thread_ok.
  - split; [|done]. change (1 ≤ own_depth (put (StoreDepth (own_depth th + 1)) th)). rewrite own_depth_store.
    destruct Hpc as [E|E]; rewrite E in Hd; lia.
  - rewrite Hpc in *. unfold disable_load. cbn. destruct (load_closed _ _ _); (split; [exact Hd|auto]).
  - rewrite Hpc in *. unfold lower_half_enable_ckpt. cbn [pc set_field]. split; [|auto].
    destruct (Z.eqb_spec (own_depth th - 1) 0); cbn.
    + change (own_depth (put (StoreDepth (own_depth th - 1)) th) = 0). by rewrite own_depth_store.
    + change (1 ≤ own_depth (put (StoreDepth (own_depth th - 1)) th)). rewrite own_depth_store. lia.
  - change (pc (lower_half_blocking_call_begin th)) with (pc th). rewrite Hpc in *. split; [|auto].
    unfold lower_half_blocking_call_begin. by rewrite own_depth_blocking.
  - change (pc (lower_half_blocking_call_end th)) with (pc th). rewrite Hpc in *. split; [|auto].
    unfold lower_half_blocking_call_end. by rewrite own_depth_blocking.
Qed.

(** While the lower half is closed to it, a thread does not come in, and one
    that is inside keeps a positive depth. *)
Lemma thread_step_lower t s th th' :
  thread_ok th → load_closed ckpt_thread t s = true → closing_thread s ≠ Some t →
  (in_lower_half th = true → seen_inside th) →
  thread_step ckpt_thread t s th th' → in_lower_half th' = true → in_lower_half th = true ∧ seen_inside th'.
Proof.
  intros [Hd Hr] Hload Hcl Hseen Hstep. unfold in_lower_half in *.
  destruct Hstep as [th Hpc Hreg|th Hpc|th|th Hpc|th Hpc|th Hpc].
  - unfold disable_store. cbn [pc set_field].
    change (own_depth (put (StoreDepth (own_depth th + 1)) th <| pc := Entered |>))
      with (own_depth (put (StoreDepth (own_depth th + 1)) th)). rewrite own_depth_store.
    intros Hlt%Z.ltb_lt. destruct Hpc as [E|E]; rewrite E in *; [lia|]. split; [done|].
    apply put_seen; [by apply Hseen|cbn; lia].
  - rewrite Hload, Hpc in *. cbn [pc set_field disable_load]. intros Hlt. split; [exact Hlt|]. by apply Hseen.
  - rewrite Hload. unfold wait_until_lower_half_open. destruct (pc th) eqn:Hpc; [..|done| |].
    1,2,5: by rewrite Hpc; intros; split; [done|apply Hseen].
    + rewrite bool_decide_eq_false_2 by auto. rewrite orb_false_r.
      destruct (1 <? own_depth th) eqn:E; [|done]. intros _. split; [done|]. by apply Hseen.
    + by rewrite Hpc.
  - rewrite Hpc in *. unfold lower_half_enable_ckpt. cbn [pc set_field].
    destruct (Z.eqb_spec (own_depth th - 1) 0); [done|]. intros _. split; [done|].
    apply put_seen; [by apply Hseen|cbn; lia].
  - rewrite Hpc in *. intros _. split; [done|]. apply put_seen; [by apply Hseen|done].
  - rewrite Hpc in *. intros _. split; [done|]. apply put_seen; [by apply Hseen|done].
Qed.

Lemma thread_step_inv s l t th th' :
  guard_inv s l → thr s !! t = Some th → thread_step ckpt_thread t s th th' → guard_inv (set_thread t th' s) l.
Proof.
  intros Hi Ht Hstep. pose proof (gi_ok _ _ Hi t th Ht) as Hok. apply (set_thread_inv s l t th); try done.
  - by eapply thread_step_fields.
  - by eapply thread_step_ok.
  - intros Hs Hne. eapply (thread_step_lower t s); try done.
    + unfold load_closed. rewrite bool_decide_eq_false_2 by done. by apply (gi_closed _ _ Hi).
    + intros E. by apply (gi_closing_thread _ _ Hi) in E.
    + by apply (gi_seen _ _ Hi t th).
Qed.

(** ** The list *)

Lemma thr_set_mem t f s x :
  thr (set_mem t f s) !! x = if decide (x = t) then (λ th, th <| mem ::= f |>) <$> thr s !! x else thr s !! x.
Proof.
  unfold set_mem. cbn. case_decide as E; [subst; by rewrite lookup_alter_eq|by rewrite lookup_alter_ne].
Qed.
Lemma mem_of_set_mem t f s x :
  mem_of (set_mem t f s) x = if decide (x = t) then f <$> mem_of s x else mem_of s x.
Proof. unfold mem_of. rewrite thr_set_mem. case_decide; [|done]. by destruct (thr s !! x). Qed.

(** A change of the list's fields only. *)
Definition same_threads (s s' : guard_state) : Prop :=
  ∀ x, (λ th, (depth (mem th), in_blocking_call (mem th), stores th, pc th)) <$> thr s' !! x =
       (λ th, (depth (mem th), in_blocking_call (mem th), stores th, pc th)) <$> thr s !! x.

Lemma own_view_depth th th' :
  depth (mem th) = depth (mem th') → stores th = stores th' → own_depth th = own_depth th'.
Proof.
  unfold own_depth, own_view. intros Hd ->. revert Hd. generalize (mem th), (mem th').
  induction (stores th') as [|x k IH]; intros m m' Hd; [done|]. cbn. apply IH. by destruct x.
Qed.

Lemma relist_inv s s' l l' :
  guard_inv s l → same_threads s s' → threads_lock_free s = true →
  closing_thread s' = closing_thread s → closed_stores s' = closed_stores s →
  lower_half_closed s' = lower_half_closed s → ckpt s' = ckpt s →
  threads s' = head l' → NoDup l' → linked_threads s' l' →
  (∀ t, t ∈ l' ↔ ∃ th, thr s' !! t = Some th ∧ registered (mem th) = true) →
  (∀ t th, thr s' !! t = Some th → pc th ≠ Outside → registered (mem th) = true) →
  guard_inv s' l'.
Proof.
  intros [H1 H2 H3 H4 H5 H6 H7 H8 H9 H10] Hsame Hfree E1 E2 E3 E4 Hh Hnd Hl Hreg Hpc.
  assert (∀ t th', thr s' !! t = Some th' → ∃ th, thr s !! t = Some th ∧ pc th' = pc th ∧
    own_depth th' = own_depth th ∧ (seen_inside th → seen_inside th')) as Hback.
  { intros t th' Ht. specialize (Hsame t). rewrite Ht in Hsame. destruct (thr s !! t) as [th|]; [|done].
    exists th. injection Hsame as Ed Eb Es Ep. split; [done|]. split; [done|].
    split; [by apply own_view_depth|]. unfold seen_inside. by rewrite Ed, Es. }
  assert (∀ th th', pc th' = pc th → own_depth th' = own_depth th → in_lower_half th' = in_lower_half th) as Hlow.
  { unfold in_lower_half. by intros th th' -> ->. }
  unfold sealed in *. split; unfold sealed; rewrite ?E1, ?E2, ?E3, ?E4; try done.
  - intros t th' Ht. destruct (Hback t th' Ht) as (th & Hth & Ep & Ed & _).
    destruct (H5 t th Hth) as [Hd _]. split; [by rewrite Ep, Ed|by apply (Hpc t)].
  - intros t th' Hs Hne Ht. destruct (Hback t th' Ht) as (th & Hth & Ep & Ed & Hseen).
    rewrite (Hlow _ _ Ep Ed). intros Hin. apply Hseen. by eapply H9.
  - unfold threads_lock_free in Hfree. destruct (ckpt s); try done. intros t th' _ Hne Ht.
    destruct (Hback t th' Ht) as (th & Hth & Ep & Ed & _). rewrite (Hlow _ _ Ep Ed). intros Hin.
    apply (H10 t th); try done. apply H4. exists th. split; [done|]. apply (H5 t th Hth).
    intros Ho. unfold in_lower_half in Hin. by rewrite Ho in Hin.
Qed.

Lemma same_threads_set_mem s0 s t f :
  (∀ m, depth (f m) = depth m ∧ in_blocking_call (f m) = in_blocking_call m) →
  same_threads s0 s → same_threads s0 (set_mem t f s).
Proof.
  intros Hf Hs x. rewrite <- Hs, thr_set_mem. case_decide; [|done]. destruct (thr s !! x) as [th|]; [|done]. cbn.
  destruct (Hf (mem th)) as [-> ->]. done.
Qed.
Lemma same_threads_pc s s' t th' :
  same_threads s s' → thr s' !! t = Some th' → ∃ th, thr s !! t = Some th ∧ pc th = pc th'.
Proof.
  intros Hs Ht. specialize (Hs t). rewrite Ht in Hs. destruct (thr s !! t) as [th|]; [|done].
  exists th. split; [done|]. by injection Hs.
Qed.

(** [registered] in terms of the memory. *)
Lemma registered_mem s t :
  (∃ th, thr s !! t = Some th ∧ registered (mem th) = true) ↔ ∃ m, mem_of s t = Some m ∧ registered m = true.
Proof.
  unfold mem_of. split.
  - intros (th & -> & Hr). by exists (mem th).
  - intros (m & Hm & Hr). destruct (thr s !! t) as [th|]; [|done]. injection Hm as <-. by exists th.
Qed.

Lemma mem_of_register t s x :
  threads s ≠ Some t →
  mem_of (register_lower_half_thread t s) x =
  if decide (x = t) then (λ m, m <| lh_prev := None |> <| lh_next := threads s |> <| registered := true |>) <$> mem_of s x
  else if decide (threads s = Some x) then (λ m, m <| lh_prev := Some t |>) <$> mem_of s x
  else mem_of s x.
Proof.
  intros Hne. unfold register_lower_half_thread. rewrite mem_of_set_mem.
  assert (∀ s0 y, mem_of (s0 <| threads := Some t |>) y = mem_of s0 y) as E by done. rewrite E.
  destruct (threads s) as [h|] eqn:Eh; [|rewrite mem_of_set_mem]; rewrite ?mem_of_set_mem.
  - repeat case_decide; simplify_eq; try done; by destruct (mem_of s _).
  - repeat case_decide; simplify_eq; try done; by destruct (mem_of s _).
Qed.

Lemma register_linked s l t :
  linked_threads s l → NoDup l → threads s = head l → t ∉ l → is_Some (mem_of s t) →
  linked_threads (register_lower_half_thread t s) (t :: l).
Proof.
  intros Hl Hnd Hh Ht [mt Hmt] a x b E.
  assert (threads s ≠ Some t) as Hne.
  { rewrite Hh. destruct l as [|y l]; [done|]. intros [= ->]. apply Ht. left. }
  rewrite mem_of_register by done. destruct a as [|y a].
  - injection E as -> ->. rewrite decide_True, Hmt by done. eexists. split; [done|]. by rewrite <- Hh.
  - injection E as -> ->. destruct (Hl a x b eq_refl) as (m & Hm & Hp & Hn).
    rewrite decide_False by (intros ->; apply Ht; set_solver). rewrite Hm, Hh.
    destruct a as [|z a]; cbn.
    + rewrite decide_True by done. eexists. split; [done|]. done.
    + rewrite decide_False.
      * exists m. split; [done|]. split; [|done]. rewrite Hp. by destruct a.
      * intros [= ->]. cbn in Hnd. apply NoDup_cons in Hnd as [Hnd _]. apply Hnd. set_solver.
Qed.

Lemma register_inv s l t th :
  guard_inv s l → thr s !! t = Some th → pc th = Outside → registered (mem th) = false →
  threads_lock_free s = true → guard_inv (register_lower_half_thread t s) (t :: l).
Proof.
  intros Hi Ht Hpc Hr Hfree.
  assert (mem_of s t = Some (mem th)) as Hmt by (unfold mem_of; by rewrite Ht).
  assert (t ∉ l) as Hnl.
  { intros (th' & Hth' & E)%(gi_registered _ _ Hi). congruence. }
  assert (threads s ≠ Some t) as Hne.
  { rewrite (gi_head _ _ Hi). destruct l as [|y l]; [done|]. intros [= ->]. apply Hnl. left. }
  assert (same_threads s (register_lower_half_thread t s)) as Hsame.
  { unfold register_lower_half_thread. apply same_threads_set_mem; [done|].
    intros x. cbn. destruct (threads s) as [h|].
    - revert x. do 2 (apply same_threads_set_mem; [done|]). done.
    - revert x. apply same_threads_set_mem; [done|]. done. }
  assert (∀ x, (∃ m, mem_of (register_lower_half_thread t s) x = Some m ∧ registered m = true) ↔
    x = t ∨ ∃ m, mem_of s x = Some m ∧ registered m = true) as Hreg.
  { intros x. rewrite mem_of_register by done. destruct (decide (x = t)) as [->|Hx].
    - rewrite Hmt. split; [by left|]. intros _. eexists. split; [done|]. done.
    - case_decide; [|naive_solver]. destruct (mem_of s x) as [m|]; cbn; [|naive_solver].
      split; [intros (m' & [= <-] & ?); right; by exists m|].
      intros [?|(m' & [= <-] & ?)]; [done|]. eexists. split; [done|]. done. }
  apply (relist_inv s _ l); try done; try (by unfold register_lower_half_thread; destruct (threads s)).
  - constructor; [done|]. apply Hi.
  - apply register_linked; [apply Hi|apply Hi|apply Hi|done|by eexists].
  - intros x. rewrite registered_mem, Hreg, elem_of_cons, (gi_registered _ _ Hi), registered_mem. done.
  - intros x thx Hx Hout. destruct (same_threads_pc _ _ _ _ Hsame Hx) as (th0 & Hth0 & Ep).
    pose proof (proj2 (gi_ok _ _ Hi x th0 Hth0)) as Hr0. rewrite Ep in Hr0.
    assert (∃ m, mem_of (register_lower_half_thread t s) x = Some m ∧ registered m = true) as (m & Hm & Hmr).
    { apply Hreg. right. exists (mem th0). unfold mem_of. rewrite Hth0. auto. }
    unfold mem_of in Hm. rewrite Hx in Hm. by injection Hm as ->.
Qed.

Lemma mem_of_unregister t s m a b x :
  mem_of s t = Some m → registered m = true → lh_prev m = last a → lh_next m = head b → NoDup (a ++ t :: b) →
  mem_of (unregister_lower_half_thread t s) x =
  if decide (x = t) then Some (m <| registered := false |>)
  else if decide (last a = Some x) then (λ m, m <| lh_next := head b |>) <$> mem_of s x
  else if decide (head b = Some x) then (λ m, m <| lh_prev := last a |>) <$> mem_of s x
  else mem_of s x.
Proof.
  intros Hm Hr Hp Hn Hnd. unfold unregister_lower_half_thread. fold (mem_of s t). rewrite Hm, Hr. cbn [negb].
  rewrite Hp, Hn.
  assert (∀ y, last a = Some y → y ∈ a) as Hla by (intros y Hy; by apply last_Some_elem_of).
  assert (∀ y, head b = Some y → y ∈ b) as Hhb by (intros y Hy; destruct b; [done|]; injection Hy as ->; left).
  apply NoDup_app in Hnd as (_ & Hab & [Htb _]%NoDup_cons).
  rewrite mem_of_set_mem. assert (∀ h y, mem_of (s <| threads := h |>) y = mem_of s y) as E by done.
  destruct (last a) as [p|] eqn:Ea; destruct (head b) as [n|] eqn:Eb;
    rewrite ?mem_of_set_mem, ?E; repeat case_decide; simplify_eq; try done; try (by rewrite Hm);
    try (by exfalso; eapply Hab; [by apply Hla|]; set_solver);
    try (by exfalso; apply Htb, Hhb);
    try (by exfalso; eapply Hab; [by apply Hla|]; right; apply Hhb).
Qed.

Lemma last_app_cons {A} (a : list A) x b : last (a ++ x :: b) = last (x :: b).
Proof. induction a as [|y a IH]; [done|]. cbn. rewrite <- IH. destruct a; done. Qed.

Lemma unregister_linked s a t b m :
  linked_threads s (a ++ t :: b) → NoDup (a ++ t :: b) → mem_of s t = Some m → registered m = true →
  linked_threads (unregister_lower_half_thread t s) (a ++ b).
Proof.
  intros Hl Hnd Hm Hr. destruct (Hl a t b eq_refl) as (m' & Hm' & Hp & Hn). rewrite Hm in Hm'. injection Hm' as <-.
  intros a' x b' E. rewrite (mem_of_unregister t s m a b x) by done.
  assert (x ≠ t) as Hxt.
  { intros ->. apply NoDup_app in Hnd as (_ & Hab & [Htb _]%NoDup_cons).
    assert (t ∈ a ++ b) as [Ha|Hb]%elem_of_app by (rewrite E; set_solver); [|done]. eapply Hab; [done|left]. }
  rewrite decide_False by done.
  apply app_eq_inv in E as [(k & -> & E)|(k & -> & ->)]; [symmetry in E|]; swap 1 2.
  - (* x in b *)
    destruct (Hl ((a ++ t :: k)) x b') as (mx & Hmx & Hpx & Hnx); [by rewrite <- app_assoc|].
    assert (last a ≠ Some x) as Hne.
    { intros Hx%last_Some_elem_of. apply NoDup_app in Hnd as (_ & Hab & _). eapply Hab; [done|]. set_solver. }
    rewrite decide_False by done. rewrite last_app_cons in Hpx. destruct k as [|y k]; cbn.
    + rewrite decide_True, Hmx by done. rewrite app_nil_r. eexists. split; [done|]. done.
    + rewrite decide_False.
      * exists mx. rewrite last_app_cons. split; [done|]. done.
      * intros [= ->]. apply NoDup_app in Hnd as (_ & _ & [_ Hnd]%NoDup_cons).
        cbn in Hnd. apply NoDup_cons in Hnd as [Hnd _]. set_solver.
  - (* x in a, or b starts at x *)
    destruct k as [|y k].
    + rewrite app_nil_r in *. cbn in E. subst b.
      destruct (Hl (a' ++ [t]) x b') as (mx & Hmx & Hpx & Hnx); [by rewrite <- app_assoc|].
      assert (last a' ≠ Some x) as Hne.
      { intros Hx%last_Some_elem_of. apply NoDup_app in Hnd as (_ & Hab & _). eapply Hab; [done|]. set_solver. }
      rewrite decide_False by done. cbn. rewrite decide_True, Hmx by done. eexists. split; [done|]. done.
    + cbn in E. injection E as -> <-. rewrite <- app_assoc in Hl, Hnd. cbn in Hl, Hnd.
      destruct (Hl a' x (k ++ t :: b) eq_refl) as (mx & Hmx & Hpx & Hnx). rewrite last_app_cons.
      destruct (decide (k = [])) as [->|Hk].
      * cbn in *. rewrite decide_True, Hmx by done. eexists. split; [done|]. done.
      * assert (last (x :: k) ≠ Some x) as Hne.
        { intros Hx. destruct k as [|z k]; [done|]. change (last (z :: k) = Some x) in Hx.
          apply last_Some_elem_of in Hx. apply NoDup_app in Hnd as (_ & _ & [Hnd _]%NoDup_cons). set_solver. }
        rewrite decide_False by done. destruct k as [|z k]; [done|]. cbn in Hnx.
        rewrite decide_False.
        -- exists mx. split; [done|]. by rewrite Hnx.
        -- intros Hx. assert (x ∈ b) by (destruct b; [done|]; injection Hx as ->; left).
           apply NoDup_app in Hnd as (_ & _ & [Hnd _]%NoDup_cons). set_solver.
Qed.

Lemma unregister_inv s l t th :
  guard_inv s l → thr s !! t = Some th → pc th = Outside → threads_lock_free s = true →
  ∃ l', guard_inv (unregister_lower_half_thread t s) l'.
Proof.
  intros Hi Ht Hpc Hfree. assert (mem_of s t = Some (mem th)) as Hmt by (unfold mem_of; by rewrite Ht).
  destruct (registered (mem th)) eqn:Hr.
  2: { exists l. unfold unregister_lower_half_thread. fold (mem_of s t). by rewrite Hmt, Hr. }
  assert (t ∈ l) as (a & b & ->)%list_elem_of_split by (apply (gi_registered _ _ Hi); eauto).
  destruct (gi_linked _ _ Hi a t b eq_refl) as (m & Hm & Hp & Hn). rewrite Hmt in Hm. injection Hm as <-.
  pose proof (gi_nodup _ _ Hi) as Hnd.
  pose proof (λ x, mem_of_unregister t s _ a b x Hmt Hr Hp Hn Hnd) as Hmem.
  assert (same_threads s (unregister_lower_half_thread t s)) as Hsame.
  { unfold unregister_lower_half_thread. fold (mem_of s t). rewrite Hmt, Hr. cbn [negb].
    apply same_threads_set_mem; [done|].
    destruct (lh_prev (mem th)), (lh_next (mem th)); repeat (apply same_threads_set_mem; [done|]); done. }
  assert (∀ x, (∃ m, mem_of (unregister_lower_half_thread t s) x = Some m ∧ registered m = true) ↔
    x ≠ t ∧ ∃ m, mem_of s x = Some m ∧ registered m = true) as Hreg.
  { intros x. rewrite Hmem. destruct (decide (x = t)) as [->|Hx].
    - split; [by intros (? & [= <-] & ?)|naive_solver].
    - destruct (mem_of s x) as [mx|]; repeat case_decide; cbn; naive_solver. }
  exists (a ++ b). apply (relist_inv s _ (a ++ t :: b)); try done;
    try (by unfold unregister_lower_half_thread; fold (mem_of s t); rewrite Hmt, Hr; cbn [negb];
         destruct (lh_prev (mem th)), (lh_next (mem th))).
  - pose proof (gi_head _ _ Hi) as Hh. unfold unregister_lower_half_thread. fold (mem_of s t).
    rewrite Hmt, Hr. cbn [negb]. rewrite Hp, Hn. destruct a as [|y a]; [change ([] ++ b) with b; by destruct (head b)|].
    assert (is_Some (last (y :: a))) as [z ->] by (apply last_is_Some; discriminate). destruct (head b); done.
  - apply NoDup_app in Hnd as (Ha & Hab & [Htb Hb]%NoDup_cons). apply NoDup_app. split; [done|].
    split; [|done]. intros x Hx Hxb. eapply Hab; [done|by right].
  - by eapply unregister_linked; [apply Hi|done|done|done].
  - intros x. rewrite registered_mem, Hreg, <- registered_mem, <- (gi_registered _ _ Hi), !elem_of_app, elem_of_cons.
    apply NoDup_app in Hnd as (_ & Hab & [Htb _]%NoDup_cons).
    split; [|naive_solver]. intros [Hx|Hx]; (split; [|tauto]); intros ->; [|done]. eapply Hab; [done|left].
  - intros x thx Hx Hout. destruct (same_threads_pc _ _ _ _ Hsame Hx) as (th0 & Hth0 & Ep).
    pose proof (proj2 (gi_ok _ _ Hi x th0 Hth0)) as Hr0. rewrite Ep in Hr0.
    assert (∃ m, mem_of (unregister_lower_half_thread t s) x = Some m ∧ registered m = true) as (m & Hm & Hmr).
    { apply Hreg. split; [intros ->; congruence|]. exists (mem th0). unfold mem_of. rewrite Hth0. auto. }
    unfold mem_of in Hm. rewrite Hx in Hm. by injection Hm as ->.
Qed.

(** ** The checkpoint thread's steps *)

Lemma own_depth_flush_all th : own_depth (flush_all th) = own_depth th.
Proof. done. Qed.
Lemma in_lower_flush_all th : in_lower_half (flush_all th) = in_lower_half th.
Proof. done. Qed.

Lemma membarrier_inv s l skip :
  guard_inv s l → ckpt s = Closing skip → guard_inv (make_lower_half_entries_visible skip s) l.
Proof.
  intros Hi Hc.
  assert (∀ x, mem_of (make_lower_half_entries_visible skip s) x = own_view <$> thr s !! x) as Hmem.
  { intros x. unfold mem_of, make_lower_half_entries_visible. cbn. rewrite lookup_fmap. by destruct (thr s !! x). }
  assert (∀ x th', thr (make_lower_half_entries_visible skip s) !! x = Some th' →
    ∃ th, thr s !! x = Some th ∧ th' = flush_all th) as Hback.
  { intros x th'. cbn. rewrite lookup_fmap. destruct (thr s !! x) as [th|]; [|done]. intros [= <-]. eauto. }
  pose proof (gi_closing _ _ Hi skip Hc) as Hcl. destruct Hi as [H1 H2 H3 H4 H5 H6 H7 H8 H9 H10]. split; try done.
  - eapply linked_fields; [|done]. intros x _. rewrite Hmem. unfold mem_of. destruct (thr s !! x); [|done]. cbn.
    by rewrite own_view_fields.
  - intros x. rewrite registered_mem, Hmem, H4. split.
    + intros (th & -> & Hr). exists (own_view th). split; [done|].
      by rewrite (registered_fields _ _ (own_view_fields th)).
    + intros (m & Hm & Hr). destruct (thr s !! x) as [th|]; [|done]. exists th. split; [done|].
      injection Hm as <-. by rewrite <- (registered_fields _ _ (own_view_fields th)).
  - intros x th' (th & Hth & ->)%Hback. destruct (H5 x th Hth) as [Hd Hr]. split; [done|]. intros Ho.
    cbn [mem flush_all]. rewrite (registered_fields _ _ (own_view_fields th)). by apply Hr.
  - intros x th' _ Hne (th & Hth & ->)%Hback Hin. split; [|constructor]. change (0 < own_depth th).
    destruct (H5 x th Hth) as [Hd _]. rewrite in_lower_flush_all in Hin. unfold in_lower_half in Hin.
    destruct (pc th); try done; try lia.
Qed.

Lemma scan_inv s l skip t skipped s' :
  guard_inv s l → ckpt s = Scanning skip (Some t) skipped → scan_thread ckpt_thread skip t skipped s = Some s' →
  guard_inv s' l.
Proof.
  intros Hi Hc. unfold scan_thread. fold (mem_of s t).
  destruct Hi as [H1 H2 H3 H4 H5 H6 H7 H8 H9 H10]. rewrite Hc in H10.
  destruct H10 as (a & b & -> & Hb & Hsk). destruct b as [|x b]; [done|]. injection Hb as <-.
  destruct (H3 a t b eq_refl) as (m & Hm & Hp & Hn). rewrite Hm, Hn.
  assert (∀ sk, only_skipped s (a ++ [t]) skip sk → 
     guard_inv (s <| ckpt := Scanning skip (head b) sk |>) (a ++ t :: b)) as Hnext.
  { intros sk Hok. unfold sealed in *. rewrite Hc in *. split; try done.
    exists (a ++ [t]), b. by rewrite <- app_assoc. }
  case_bool_decide as Et.
  { intros [= <-]. apply Hnext. intros y th [Hy| ->]%elem_of_snoc Hne; [by apply Hsk|done]. }
  destruct (must_wait_for skip m) eqn:Ew; [done|]. intros [= <-]. apply Hnext.
  intros y th [Hy| ->]%elem_of_snoc Hne Hth Hlow.
  { destruct (Hsk y th Hy Hne Hth Hlow) as [? Hin]. split; [done|]. destruct (0 <? depth m); set_solver. }
  assert (seen_inside th) as [Hpos _] by (unfold sealed in H9; rewrite Hc in H9; by eapply H9).
  unfold mem_of in Hm. rewrite Hth in Hm. injection Hm as <-. unfold must_wait_for in Ew.
  rewrite (proj2 (Z.ltb_lt 0 (depth (mem th)))) in * by done. cbn in Ew. apply negb_false_iff, andb_true_iff in Ew as [-> _].
  split; [done|]. set_solver.
Qed.

Lemma guard_step_inv s s' l : guard_inv s l → guard_step ckpt_thread s s' → ∃ l', guard_inv s' l'.
Proof.
  intros Hi Hstep. destruct Hstep as [t th th' s Ht Hm Hstep|t th s Ht|t th s Ht Hpc Hr Hf Hm|t th s Ht Hpc Hf Hm
    |skip s Hc|b k s Hb|skip s Hc|skip s Hc|skip t sk s s' Hc Hs|skip sk s Hc|skip sk s Hc].
  - exists l. by eapply thread_step_inv.
  - exists l. apply (set_thread_inv s l t th); try done.
    + apply flush_fields.
    + destruct (gi_ok _ _ Hi t th Ht) as [Hd Hr]. unfold thread_ok.
      rewrite flush_pc, own_depth_flush, (registered_fields _ _ (flush_fields th)). done.
    + intros Hs Hne. rewrite in_lower_flush. intros Hl. split; [done|]. apply flush_seen. by eapply gi_seen.
  - exists (t :: l). by eapply register_inv.
  - by eapply unregister_inv.
  - exists l. destruct Hi as [H1 H2 H3 H4 H5 H6 H7 H8 H9 H10]. split; try done.
    + by intros t [= <-].
    + intros ? _. cbn. by rewrite last_snoc.
  - exists l. destruct Hi as [H1 H2 H3 H4 H5 H6 H7 H8 H9 H10]. split; try done.
    + intros sk Hc. specialize (H7 sk Hc). rewrite Hb in H7. destruct k as [|z k]; [done|].
      change (default b (last (z :: k)) = true). change (last (b :: z :: k)) with (last (z :: k)) in H7.
      assert (is_Some (last (z :: k))) as [y E] by (apply last_is_Some; discriminate). by rewrite E in *.
    + intros Hs. destruct (H8 Hs) as [_ E]. by rewrite Hb in E.
  - exists l. by apply membarrier_inv.
  - exists l. destruct Hi as [H1 H2 H3 H4 H5 H6 H7 H8 H9 H10]. unfold sealed in *. rewrite Hc in *. split; try done.
    exists [], l. split; [done|]. split; [done|]. intros t th Hin. by apply not_elem_of_nil in Hin.
  - exists l. by eapply scan_inv.
  - exists l. destruct Hi as [H1 H2 H3 H4 H5 H6 H7 H8 H9 H10]. unfold sealed in *. rewrite Hc in *. split; try done.
    destruct H10 as (a & [|x b] & -> & Hh & Hsk); [|done]. by rewrite app_nil_r.
  - exists l. destruct Hi as [H1 H2 H3 H4 H5 H6 H7 H8 H9 H10]. split; done.
Qed.

Lemma guard_reachable s0 s : guard_initial s0 → rtc (guard_step ckpt_thread) s0 s → ∃ l, guard_inv s l.
Proof.
  intros (Hcl & Hst & Hct & Hh & Hck & Hthr) Hrtc.
  assert (∃ l, guard_inv s0 l) as [l0 Hi].
  { exists []. split; rewrite ?Hcl, ?Hst, ?Hct, ?Hck; try done.
    - constructor.
    - by intros [|].
    - intros t. split; [by intros []%not_elem_of_nil|]. intros (th & Ht & Hr). by rewrite (Hthr t th Ht) in Hr.
    - intros t th Ht. by rewrite (Hthr t th Ht).
    - unfold sealed. by rewrite Hck.
    - intros t th. unfold sealed. by rewrite Hck. }
  clear Hcl Hst Hct Hh Hck Hthr. revert l0 Hi. induction Hrtc as [s|s s1 s2 Hstep _ IH]; intros l Hi; [eauto|].
  destruct (guard_step_inv _ _ _ Hi Hstep) as [l' Hi']. by eapply IH.
Qed.

(** ** Theorems *)

(** C4. No thread is in the lower half at a checkpoint.  When
    [wait_for_threads_to_leave_lower_half()] has returned, and until the lower
    half is opened again, no other thread is between its brackets; after
    [wait_for_unblocked_threads_to_leave_lower_half()], only threads that the
    checkpoint thread saw in a blocking call are.  This holds although an
    entering thread does not order its store of [depth] before its load of
    [lower_half_closed]. *)
Theorem closed_lower_half_empty s0 s skip skipped t th :
  guard_initial s0 → rtc (guard_step ckpt_thread) s0 s → ckpt s = Closed skip skipped →
  t ≠ ckpt_thread → thr s !! t = Some th → in_lower_half th = true → skip = true ∧ t ∈ skipped.
Proof.
  intros H0 Hrtc Hc Hne Ht Hin. destruct (guard_reachable _ _ H0 Hrtc) as [l Hi].
  pose proof (gi_scan _ _ Hi) as Hs. rewrite Hc in Hs. apply (Hs t th); try done.
  apply (gi_registered _ _ Hi). exists th. split; [done|]. apply (gi_ok _ _ Hi t th Ht).
  intros Ho. unfold in_lower_half in Hin. by rewrite Ho in Hin.
Qed.

(** The walk along [next], as [close_lower_half_and_wait()] does it. *)
Fixpoint walk (fuel : nat) (s : guard_state) (cur : option nat) : option (list nat) :=
  match cur, fuel with
  | None, _ => Some []
  | Some t, S n => m ← mem_of s t; l ← walk n s (lh_next m); Some (t :: l)
  | Some _, O => None
  end.

Lemma walk_linked s a b : linked_threads s (a ++ b) → walk (length b) s (head b) = Some b.
Proof.
  revert a. induction b as [|t b IH]; intros a Hl; [done|]. cbn.
  destruct (Hl a t b eq_refl) as (m & Hm & _ & Hn). rewrite Hm. cbn. rewrite Hn, (IH (a ++ [t])); [done|].
  by rewrite <- app_assoc.
Qed.

(** The list of threads is exact: in every history of entering, exiting and
    checkpointing threads, the walk from [threads] along [next] ends and meets
    every registered thread once and no other, so the checkpoint thread
    misses none. *)
Theorem thread_list_exact s0 s :
  guard_initial s0 → rtc (guard_step ckpt_thread) s0 s →
  ∃ l, walk (length l) s (threads s) = Some l ∧ NoDup l ∧
    ∀ t, t ∈ l ↔ ∃ th, thr s !! t = Some th ∧ registered (mem th) = true.
Proof.
  intros H0 Hrtc. destruct (guard_reachable _ _ H0 Hrtc) as [l Hi]. exists l.
  rewrite (gi_head _ _ Hi). split; [|split; [apply Hi|apply (gi_registered _ _ Hi)]].
  apply (walk_linked s []). apply (gi_linked _ _ Hi).
Qed.

(** All stores of a thread reach the memory. *)
Lemma flush_rtc s t th :
  thr s !! t = Some th → rtc (guard_step ckpt_thread) s (set_thread t (flush_all th) s).
Proof.
  remember (stores th) as k eqn:Ek. revert s th Ek. induction k as [|x k IH]; intros s th Ek Ht.
  - replace (set_thread t (flush_all th) s) with s; [constructor|].
    destruct s. unfold set_thread, set_field. cbn in *. f_equal. rewrite insert_id; [done|].
    rewrite Ht. destruct th. cbn in *. by subst.
  - eapply rtc_l; [by apply gs_flush|].
    replace (set_thread t (flush_all th) s) with (set_thread t (flush_all (flush th)) (set_thread t (flush th) s)).
    + apply IH; [unfold flush; by rewrite <- Ek|]. cbn. by rewrite lookup_insert_eq.
    + destruct s. unfold set_thread, set_field. cbn. rewrite insert_insert_eq. f_equal. f_equal.
      unfold flush_all, own_view, flush. by rewrite <- Ek.
Qed.

Lemma flush_all_inv s l t th :
  guard_inv s l → thr s !! t = Some th → guard_inv (set_thread t (flush_all th) s) l.
Proof.
  intros Hi Ht. apply (set_thread_inv s l t th); try done.
  - apply own_view_fields.
  - destruct (gi_ok _ _ Hi t th Ht) as [Hd Hr]. split; [done|].
    cbn. by rewrite (registered_fields _ _ (own_view_fields th)).
  - intros Hs Hne Hin. split; [done|]. split; [|constructor].
    destruct (gi_ok _ _ Hi t th Ht) as [Hd _]. rewrite in_lower_flush_all in Hin. unfold in_lower_half in Hin.
    change (0 < own_depth th). destruct (pc th); try done; lia.
Qed.

(** Every other thread of the list has left. *)
Definition all_left (s : guard_state) (l : list nat) : Prop :=
  ∀ t th, t ∈ l → t ≠ ckpt_thread → thr s !! t = Some th → own_depth th = 0.

Lemma scan_rtc s l passed rest skip skipped :
  guard_inv s l → ckpt s = Scanning skip (head rest) skipped → l = passed ++ rest → all_left s rest →
  ∃ s' sk, rtc (guard_step ckpt_thread) s s' ∧ ckpt s' = Closed skip sk.
Proof.
  revert s passed skipped. induction rest as [|t rest IH]; intros s passed skipped Hi Hc -> Hleft.
  { do 2 eexists. split; [|by instantiate (2 := s <| ckpt := Closed skip skipped |>)].
    eapply rtc_once. by apply gs_unlock. }
  destruct (gi_linked _ _ Hi passed t rest eq_refl) as (m & Hm & _ & Hn).
  unfold mem_of in Hm. destruct (thr s !! t) as [th|] eqn:Ht; [|done]. injection Hm as <-.
  pose proof (flush_all_inv s _ t th Hi Ht) as Hi1. set (s1 := set_thread t (flush_all th) s) in *.
  assert (thr s1 !! t = Some (flush_all th)) as Ht1 by (cbn; by rewrite lookup_insert_eq).
  set (s2 := s1 <| ckpt := Scanning skip (head rest) skipped |>).
  assert (lh_next (own_view th) = head rest) as Hn1.
  { pose proof (own_view_fields th) as [= _ _ ->]. done. }
  assert (scan_thread ckpt_thread skip t skipped s1 = Some s2) as Hscan.
  { unfold scan_thread. rewrite Ht1. cbn [fmap option_fmap option_map mem flush_all]. rewrite Hn1.
    case_bool_decide as E; [done|]. unfold must_wait_for.
    change (depth (own_view th)) with (own_depth th). rewrite (Hleft t th) by (done || left). done. }
  assert (guard_step ckpt_thread s1 s2) as Hstep by (eapply gs_scan; [exact Hc|exact Hscan]).
  destruct (IH s2 (passed ++ [t]) skipped) as (s' & sk & Hr & Hc').
  - by eapply scan_inv.
  - done.
  - by rewrite <- app_assoc.
  - intros x thx Hx Hne Hlk. cbn in Hlk. destruct (decide (x = t)) as [->|].
    + rewrite lookup_insert_eq in Hlk. injection Hlk as <-. rewrite own_depth_flush_all. by apply (Hleft t th); [left|..].
    + rewrite lookup_insert_ne in Hlk by done. apply (Hleft x thx); [by right|done|done].
  - exists s', sk. split; [|done]. etrans; [by apply flush_rtc|]. by eapply rtc_l.
Qed.

(** Closing the lower half ends: once the other threads have left (each has
    stored depth 0), their stores become visible and the walk of
    [close_lower_half_and_wait()] reaches its end; a thread that waits for the
    lower half to open does not keep it from ending. *)
Theorem close_returns s0 s skip cur skipped :
  guard_initial s0 → rtc (guard_step ckpt_thread) s0 s → ckpt s = Scanning skip cur skipped →
  (∀ t th, t ≠ ckpt_thread → thr s !! t = Some th → in_lower_half th = false ∧ pc th ≠ Entered ∧
     pc th ≠ Slow ∧ pc th ≠ Waiting) →
  ∃ s' sk, rtc (guard_step ckpt_thread) s s' ∧ ckpt s' = Closed skip sk.
Proof.
  intros H0 Hrtc Hc Hleft. destruct (guard_reachable _ _ H0 Hrtc) as [l Hi].
  pose proof (gi_scan _ _ Hi) as Hs. rewrite Hc in Hs. destruct Hs as (a & b & -> & -> & _).
  eapply scan_rtc; [exact Hi|exact Hc|done|]. intros t th _ Hne Ht.
  destruct (Hleft t th Hne Ht) as (Hin & H1 & H2 & H3). destruct (gi_ok _ _ Hi t th Ht) as [Hd _].
  unfold in_lower_half in Hin. by destruct (pc th).
Qed.

(** The whole of [LOWER_HALF_DISABLE_CKPT()], until it returns or sleeps. *)
Definition enter (t : nat) (s : guard_state) (th : thread) : thread :=
  let closed := load_closed ckpt_thread t s in
  let w := wait_until_lower_half_open t (closing_thread s) closed in
  w (w (disable_load closed (disable_store th))).

(** What [LOWER_HALF_DISABLE_CKPT()] does while the lower half is closed.
    A nested entry returns at once (the checkpoint thread is waiting for this
    thread to leave), as does one of the checkpoint thread; any other thread
    goes to sleep with depth 0. *)
Theorem entry_while_closed s0 s t th :
  guard_initial s0 → rtc (guard_step ckpt_thread) s0 s → thr s !! t = Some th →
  (pc th = Inside → pc (enter t s th) = Inside ∧ own_depth (enter t s th) = own_depth th + 1) ∧
  (pc th = Outside → load_closed ckpt_thread t s = true →
    if decide (closing_thread s = Some t) then pc (enter t s th) = Inside ∧ own_depth (enter t s th) = 1
    else pc (enter t s th) = Sleeping ∧ own_depth (enter t s th) = 0).
Proof.
  intros H0 Hrtc Ht. destruct (guard_reachable _ _ H0 Hrtc) as [l Hi].
  destruct (gi_ok _ _ Hi t th Ht) as [Hd _].
  assert (∀ q c, own_depth (disable_load c (disable_store th) <| pc := q |>) = own_depth th + 1) as Ho.
  { intros q c. apply own_depth_store. }
  unfold enter. split.
  - intros Hpc. rewrite Hpc in Hd. destruct (load_closed ckpt_thread t s).
    + set (th1 := disable_load true (disable_store th)).
      assert (wait_until_lower_half_open t (closing_thread s) true th1 = th1 <| pc := Inside |>) as ->.
      { unfold wait_until_lower_half_open. change (pc th1) with Slow. cbv iota.
        assert (own_depth th1 = own_depth th + 1) as -> by apply own_depth_store.
        by rewrite (proj2 (Z.ltb_lt _ _)) by lia. }
      split; [done|]. apply Ho.
    + split; [done|]. apply (Ho Inside false).
  - intros Hpc ->. rewrite Hpc in Hd. set (th1 := disable_load true (disable_store th)).
    assert (own_depth th1 = 1) as E1.
    { assert (own_depth th1 = own_depth th + 1) as -> by apply own_depth_store. lia. }
    
    assert (wait_until_lower_half_open t (closing_thread s) true th1 =
      if bool_decide (closing_thread s = Some t) then th1 <| pc := Inside |> else th1 <| pc := Waiting |>) as ->.
    { unfold wait_until_lower_half_open. change (pc th1) with Slow. cbv iota. by rewrite E1. }
    destruct (decide (closing_thread s = Some t)) as [E|E].
    + rewrite bool_decide_eq_true_2 by done. split; [done|]. exact E1.
    + rewrite bool_decide_eq_false_2 by done. split; [done|].
      apply (own_depth_store 0 (th1 <| pc := Waiting |>)).
Qed.

End inv.

(** ** A history

    Thread 1 registers, enters and calls [MPI_Recv]; the checkpoint thread,
    0, closes the lower half to all but blocked threads, and later waits for
    the thread to leave. *)

Definition one_thread (th : thread) (head : option nat) (closed : bool) (pending : list bool)
    (closing : option nat) (c : ckpt_pc) : guard_state :=
  mk_guard closed pending closing head {[1%nat := th]} c.
Definition thread_at (d : Z) (b : bool) (reg : bool) (l : list store) (p : thread_pc) : thread :=
  mk_thread (mk_lh_thread d b reg None None) l p.

Definition history_start : guard_state := one_thread (thread_at 0 false false [] Outside) None false [] None Open.
Definition history_inside (c : ckpt_pc) : guard_state :=
  one_thread (thread_at 1 true true [] Inside) (Some 1%nat) true [] (Some 0%nat) c.

Lemma one_thread_lookup th h c p cl k t th' : thr (one_thread th h c p cl k) !! t = Some th' → th' = th.
Proof. cbn. by intros [_ ->]%lookup_singleton_Some. Qed.

Lemma history_start_ok : guard_initial history_start.
Proof. repeat split. intros t th Ht. by apply one_thread_lookup in Ht. Qed.

(** A step to a state that is written out. *)
Lemma rtc_step_to s s1 s2 s3 :
  guard_step 0 s s1 → s1 = s2 → rtc (guard_step 0) s2 s3 → rtc (guard_step 0) s s3.
Proof. intros Hs -> Hr. by eapply rtc_l. Qed.

Lemma history_entered : rtc (guard_step 0) history_start
  (one_thread (thread_at 0 false true [StoreDepth 1; StoreBlocking true] Inside) (Some 1%nat) false [] None Open).
Proof.
  eapply (rtc_step_to _ _ (one_thread (thread_at 0 false true [] Outside) (Some 1%nat) false [] None Open));
    [by eapply (gs_register 0 1)|done|].
  eapply (rtc_step_to _ _ (one_thread (thread_at 0 false true [StoreDepth 1] Entered) (Some 1%nat) false [] None Open));
    [eapply (gs_thread 0 1); [done|done|by apply step_disable; [left|]]|done|].
  eapply (rtc_step_to _ _ (one_thread (thread_at 0 false true [StoreDepth 1] Inside) (Some 1%nat) false [] None Open));
    [eapply (gs_thread 0 1); [done|done|by apply step_load]|done|].
  eapply rtc_step_to; [eapply (gs_thread 0 1); [done|done|by apply step_block_begin]|done|constructor].
Qed.

Lemma history_skipped : rtc (guard_step 0) history_start (history_inside (Closed true [1%nat])).
Proof.
  etrans; [apply history_entered|].
  eapply (rtc_step_to _ _ (one_thread (thread_at 0 false true [StoreDepth 1; StoreBlocking true] Inside) (Some 1%nat) false [true] (Some 0%nat) (Closing true)));
    [by eapply (gs_close 0 true)|done|].
  eapply (rtc_step_to _ _ (history_inside (Fenced true)));
    [by eapply (gs_membarrier 0 true)|done|].
  eapply (rtc_step_to _ _ (history_inside (Scanning true (Some 1%nat) [])));
    [by eapply (gs_lock 0 true)|done|].
  eapply (rtc_step_to _ _ (history_inside (Scanning true None [1%nat])));
    [by eapply (gs_scan 0 true 1)|done|].
  eapply (rtc_step_to _ _ (history_inside (Closed true [1%nat])));
    [by eapply (gs_unlock 0 true [1%nat])|done|constructor].
Qed.

(** The call returns and the thread leaves; its stores are not visible yet
    when the checkpoint thread closes the lower half again, but they are after
    [membarrier(2)]. *)
Definition history_left (c : ckpt_pc) : guard_state :=
  one_thread (thread_at 0 false true [] Outside) (Some 1%nat) true [] (Some 0%nat) c.
Definition history_leaving (l : list store) (p : thread_pc) (pending : list bool) (c : ckpt_pc) : guard_state :=
  one_thread (thread_at 1 true true l p) (Some 1%nat) true pending (Some 0%nat) c.

Lemma history_scanning : rtc (guard_step 0) history_start (history_left (Scanning false (Some 1%nat) [])).
Proof.
  etrans; [apply history_skipped|].
  eapply (rtc_step_to _ _ (history_leaving [StoreBlocking false] Inside [] (Closed true [1%nat])));
    [eapply (gs_thread 0 1); [done|done|by apply step_block_end]|done|].
  eapply (rtc_step_to _ _ (history_leaving [StoreBlocking false; StoreDepth 0] Outside [] (Closed true [1%nat])));
    [eapply (gs_thread 0 1); [done|done|by apply step_enable]|done|].
  eapply (rtc_step_to _ _ (history_leaving [StoreBlocking false; StoreDepth 0] Outside [true] (Closing false)));
    [by eapply (gs_close 0 false)|done|].
  eapply (rtc_step_to _ _ (history_left (Fenced false)));
    [by eapply (gs_membarrier 0 false)|done|].
  eapply (rtc_step_to _ _ (history_left (Scanning false (Some 1%nat) [])));
    [by eapply (gs_lock 0 false)|done|constructor].
Qed.

Lemma closed_lower_half_empty_witness :
  rtc (guard_step 0) history_start (history_inside (Closed true [1%nat])) ∧ 1%nat ∈ [1%nat].
Proof.
  split; [exact history_skipped|].
  apply (closed_lower_half_empty 0 _ _ true _ 1 (thread_at 1 true true [] Inside) history_start_ok history_skipped);
    done.
Defined.

Lemma thread_list_exact_witness :
  ∃ l, walk (length l) (history_left (Scanning false (Some 1%nat) [])) (Some 1%nat) = Some l ∧ 1%nat ∈ l.
Proof.
  destruct (thread_list_exact 0 _ _ history_start_ok history_scanning) as (l & Hw & _ & Hl).
  exists l. split; [exact Hw|]. apply Hl. exists (thread_at 0 false true [] Outside). by split.
Defined.

Lemma close_returns_witness :
  ∃ s' sk, rtc (guard_step 0) (history_left (Scanning false (Some 1%nat) [])) s' ∧ ckpt s' = Closed false sk.
Proof.
  apply (close_returns 0 _ (history_left (Scanning false (Some 1%nat) [])) false (Some 1%nat) [] history_start_ok history_scanning); [done|].
  intros t th _ Ht. apply one_thread_lookup in Ht as ->. done.
Defined.

Lemma entry_while_closed_witness :
  pc (enter 0 1 (history_inside (Closed true [1%nat])) (thread_at 1 true true [] Inside)) = Inside ∧
  pc (enter 0 1 (history_left (Scanning false (Some 1%nat) [])) (thread_at 0 false true [] Outside)) = Sleeping.
Proof.
  split.
  - by apply (entry_while_closed 0 _ _ 1 _ history_start_ok history_skipped).
  - apply (entry_while_closed 0 _ (history_left (Scanning false (Some 1%nat) [])) 1 _ history_start_ok history_scanning); done.
Defined.
