(* ===== verification/RequestTable.v ===== *)
(** * The table as requests see it

    What the point-to-point wrappers and the drain rely on of the virtual-ID
    table, the log of pending calls and the datatypes: for each operation, what
    it does to the real handle, the completion and the status of every handle,
    and to the log.  The lemmas hide slots, links and reference counts from
    the proofs of [P2pInv.v] and its successors. *)
From S2P Require Import Prelude Mpi Constants VirtualId VirtualIdInv VirtualIdSpec PendingLog PendingLogSpec DatatypeRefs DatatypeSpec.

Section table.
Context `{MpiLib}.

(** The real handle, whether MANA completed the request, and its status. *)
Definition entry_info (e : virt_id_entry) : Z * bool * MPI_Status := (real_id e, completed e, status e).
Definition info (st : vid_state) (h : Z) : option (Z * bool * MPI_Status) := entry_info <$> entry_of st h.

(** The table, the log and the datatypes are consistent. *)
Definition tables (st : vid_state) (log : list (Z * mpi_nonblocking_call_t)) : Prop :=
  ∃ app, types_ok (st, app, log).

(** What never changes here. *)
Definition fixed_fields (st : vid_state) := (consts st, g_world_comm st, self_desc st).

(** Every handle but [h0] is as before. *)
Definition others (st st' : vid_state) (h0 : Z) : Prop :=
  fixed_fields st' = fixed_fields st ∧ ∀ h, _handle h ≠ h0 → info st' h = info st h.

Lemma tables_ok st log : tables st log → ∃ app free live, types_inv st free live app log ∧ vid_ok st free live.
Proof. intros (app & free & live & Hi). exists app, free, live. split; [done|]. by eapply dt_inv_ok. Qed.

Lemma info_ext st st' h :
  (∀ s, lookup_virt_id_entry st' h = Some s ∨ lookup_virt_id_entry st h = Some s →
     request_view <$> slot_entry st' s = request_view <$> slot_entry st s) →
  info st' h = info st h.
Proof.
  intros Hv. unfold info, entry_of.
  assert (lookup_virt_id_entry st' h = lookup_virt_id_entry st h) as E.
  { destruct (lookup_virt_id_entry st' h) as [s|] eqn:E1.
    - specialize (Hv s (or_introl eq_refl)). revert Hv E1. unfold lookup_virt_id_entry.
      destruct (handle64 && _); [done|]. destruct (_ <=? _); [done|]. set (x := Z.land _ _).
      destruct (slot_entry st' x) as [e'|] eqn:E'; [|done]. destruct (Z.eqb_spec (virt e') (_handle h)); [|done].
      intros Hv [= <-]. rewrite E' in Hv. destruct (slot_entry st x) as [e0|]; [|done].
      injection Hv as Ev _ _ _. rewrite <- Ev. by rewrite (proj2 (Z.eqb_eq _ _)).
    - destruct (lookup_virt_id_entry st h) as [s|] eqn:E2; [|done].
      specialize (Hv s (or_intror eq_refl)). revert Hv E1 E2. unfold lookup_virt_id_entry.
      destruct (handle64 && _); [done|]. destruct (_ <=? _); [done|]. set (x := Z.land _ _).
      destruct (slot_entry st x) as [e|] eqn:E'; [|done]. destruct (Z.eqb_spec (virt e) (_handle h)) as [Ee|]; [|done].
      intros Hv E1 [= <-]. rewrite E' in Hv. destruct (slot_entry st' x) as [e0|]; [|done].
      injection Hv as Ev _ _ _. rewrite Ev, Ee, Z.eqb_refl in E1. done. }
  rewrite E. destruct (lookup_virt_id_entry st h) as [s|] eqn:Es; [|done]. cbn.
  specialize (Hv s (or_introl E)). destruct (slot_entry st' s), (slot_entry st s); try done.
  unfold entry_info. cbn. by injection Hv as _ -> -> ->.
Qed.

Lemma lookup_any st free live h slot :
  vid_ok st free live → lookup_virt_id_entry st h = Some slot → slot ∈ live ∧ _handle h = handle_of st slot.
Proof. intros Hok Hl. by destruct (lookup_sound _ _ _ _ _ _ Hok Hl). Qed.

Lemma info_live st free live s :
  vid_ok st free live → s ∈ live → info st (handle_of st s) = entry_info <$> slot_entry st s.
Proof. intros Hok Hs. unfold info, entry_of. by rewrite (lookup_live _ _ _ _ _ Hok Hs). Qed.

Lemma info_slot st free live h x :
  vid_ok st free live → _handle h = h → info st h = Some x →
  ∃ s e, s ∈ live ∧ h = handle_of st s ∧ lookup_virt_id_entry st h = Some s ∧ slot_entry st s = Some e ∧ entry_info e = x.
Proof.
  intros Hok Hh. unfold info, entry_of. destruct (lookup_virt_id_entry st h) as [s|] eqn:Hl; [|done]. cbn.
  destruct (lookup_handle _ _ _ _ _ Hok Hh Hl) as [Hs ->].
  destruct (slot_entry st s) as [e|] eqn:He; [|done]. intros [= <-]. by exists s, e.
Qed.

(** ** Reads *)

Lemma tables_reads st log :
  tables st log →
  pendingRequestsInPostingOrder st = Ok log.*1 st ∧
  ∀ rq, _handle rq = rq → getPendingCall rq st = Ok (log_lookup log rq) st ∧
    pendingRequestType rq st = Ok (default UNKNOW_REQUEST (call_type <$> log_lookup log rq)) st.
Proof.
  intros (app & free & live & Hi). cbn [fst snd] in Hi. destruct (log_reads_run st free live log (di_log _ _ _ _ _ _ Hi)) as (? & ? & _).
  done.
Qed.

Lemma log_lookup_elem log rq c : NoDup log.*1 → log_lookup log rq = Some c ↔ (rq, c) ∈ log.
Proof.
  intros Hnd. unfold log_lookup. split.
  - destruct (list_find _ log) as [[i [r c']]|] eqn:E; [|done]. cbn. intros [= <-].
    apply list_find_Some in E as (Hi & E & _). cbn in E. subst. by eapply list_elem_of_lookup_2.
  - intros Hin. destruct (list_find (λ p : Z * mpi_nonblocking_call_t, p.1 = rq) log) as [[i [r c']]|] eqn:E.
    + apply list_find_Some in E as (Hi & E & _). cbn in E. subst. cbn. f_equal.
      apply list_elem_of_lookup_2 in Hi. clear -Hnd Hi Hin. induction log as [|[r0 c0] log IH]; [by apply not_elem_of_nil in Hin|].
      cbn in Hnd. apply NoDup_cons in Hnd as [Hr Hnd].
      apply elem_of_cons in Hin as [Hin|Hin], Hi as [Hi|Hi]; try congruence; [..|by apply IH].
      * injection Hin as <- <-. destruct Hr. by apply (list_elem_of_fmap_2 fst) in Hi.
      * injection Hi as <- <-. destruct Hr. by apply (list_elem_of_fmap_2 fst) in Hin.
    + apply list_find_None in E. rewrite Forall_forall in E. by destruct (E _ Hin).
Qed.

Lemma tables_nodup st log : tables st log → NoDup log.*1 ∧ ∀ rq, rq ∈ log.*1 → _handle rq = rq ∧ is_Some (info st rq).
Proof.
  intros (app & free & live & Hi)%tables_ok. cbn [fst snd] in Hi. destruct Hi as [Hi Hok].
  destruct (di_log _ _ _ _ _ _ Hi) as [_ (l & Hp & ->)]. rewrite log_of_handles. split.
  - apply NoDup_fmap_2_strong; [|apply Hp]. intros a b Ha Hb. apply (handle_of_inj st free live [] a b Hok); by apply Hp.
  - intros rq (s & -> & Hs)%list_elem_of_fmap. apply (po_live _ _ _ Hp) in Hs.
    destruct (inv_live_entry _ _ _ _ _ Hok Hs) as (e & k & He & Hl). split.
    + pose proof (lookup_live _ _ _ _ _ Hok Hs) as Hlk. by apply (lookup_sound _ _ _ _ _ _ Hok) in Hlk as [_ <-].
    + rewrite (info_live st free live s Hok Hs), He. by eexists.
Qed.

(** ** The log's operations *)

Record same_requests (st st' : vid_state) : Prop := {
  sr_view : ∀ x, request_view <$> slot_entry st' x = request_view <$> slot_entry st x;
  sr_fixed : fixed_fields st' = fixed_fields st;
  sr_seq : virt_id_next_seq st' = virt_id_next_seq st
}.
Lemma same_requests_refl st : same_requests st st.
Proof. by split. Qed.
Lemma same_requests_trans st1 st2 st3 : same_requests st1 st2 → same_requests st2 st3 → same_requests st1 st3.
Proof. intros [V1 F1 S1] [V2 F2 S2]. split; [|congruence|congruence]. intros x. by rewrite V2, V1. Qed.
Lemma same_requests_upd s f st st' :
  (∀ e, request_view (f e) = request_view e) → same_requests st st' → same_requests st (update_entry s f st').
Proof.
  intros Hf [V F S]. split; [|done|done]. intros x. rewrite slot_entry_update, <- V. case_decide; [|done].
  destruct (slot_entry st' x); [|done]. cbn. by rewrite Hf.
Qed.
Lemma same_requests_ext st st' st2 :
  virt_id_chunks st2 = virt_id_chunks st' → fixed_fields st2 = fixed_fields st' →
  virt_id_next_seq st2 = virt_id_next_seq st' → same_requests st st' → same_requests st st2.
Proof.
  intros E1 E2 E3 [V F S]. split; [|congruence|congruence]. intros x. by rewrite (slot_entry_ext st' st2 x E1).
Qed.
Lemma same_requests_info st st' h : same_requests st st' → info st' h = info st h.
Proof. intros [V _ _]. by apply info_ext. Qed.

Ltac requests_tac :=
  lazymatch goal with
  | |- same_requests _ (set_field _ _ ?X) =>
      apply (same_requests_ext _ X); [reflexivity|reflexivity|reflexivity|requests_tac]
  | |- same_requests _ (update_entry _ _ _) => apply same_requests_upd; [intros; reflexivity|requests_tac]
  | |- same_requests ?st ?st => apply same_requests_refl
  end.

Lemma count_from_requests fuel comm dest tag o st st' :
  count_from fuel comm dest tag o st = Ok () st' → same_requests st st'.
Proof.
  revert o st. induction fuel as [|fuel IH]; intros [s|] st; cbn [count_from]; try done;
    try (unfold mret, prog_ret; intros [= ->]; apply same_requests_refl).
  prog_red. destruct (slot_entry _ s); [|done]. intros Hc%IH.
  eapply same_requests_trans; [|exact Hc]. requests_tac.
Qed.

Lemma log_op_requests op st st' : run_log_op op st = Ok () st' → same_requests st st'.
Proof.
  destruct op; cbn [run_log_op]; unfold addPendingRequestToLog, clearPendingRequestFromLog,
    replacePendingCall, countSendAfterIssends, get_virt_id_entry; prog_red.
  - destruct (lookup_virt_id_entry st rq); [|done]. case_bool_decide; cbn [pendingTail];
      destruct (pendingTail _); intros [= <-]; requests_tac.
  - destruct (lookup_virt_id_entry st rq); [|intros [= ->]; apply same_requests_refl].
    destruct (slot_entry st z) as [e|]; [|done].
    case_bool_decide; [intros [= ->]; apply same_requests_refl|].
    case_bool_decide; destruct (pending_prev e), (pending_next e); intros [= <-]; requests_tac.
  - destruct (lookup_virt_id_entry st rq); [|done]. destruct (slot_entry st z) as [e|]; [|done].
    case_bool_decide; [|done]. case_bool_decide; intros [= <-]; requests_tac.
  - destruct (_ =? 0); [intros [= ->]; apply same_requests_refl|]. apply count_from_requests.
Qed.

Lemma tables_log_op st log op :
  tables st log → log_op_valid st log op → adds_request op →
  ∃ st', run_log_op op st = Ok () st' ∧ tables st' (spec_log_op op log) ∧ same_requests st st'.
Proof.
  intros (app & free & live & Hi) Hv Ha.
  destruct (log_op_run st free live log op (di_log _ _ _ _ _ _ Hi) Hv) as (st' & Hrun & _).
  exists st'. split; [done|]. split; [|by eapply log_op_requests]. exists app.
  apply (types_step_ok (st, app, log)); [by exists free, live|]. by constructor.
Qed.

(** ** The table's operations *)

Lemma kind_not_datatype st free live s h :
  vid_ok st free live → s ∈ live → h = handle_of st s → kind_of h ≠ MANA_DATATYPE_KIND → dt_of st s = None.
Proof.
  intros Hok Hs -> Hk. destruct (dt_of st s) eqn:E; [|done]. destruct Hk.
  by eapply datatype_kind; [done|done|eexists].
Qed.

(** A new request: its handle is new, it is not pending and nothing else
    changes. *)
Lemma tables_new st log real h st' :
  tables st log → virt_id_next_seq st + 1 < 2 ^ 64 → add_virt_id real NoDesc MANA_REQUEST_KIND st = Ok h st' →
  tables st' log ∧ _handle h = h ∧ kind_of h = MANA_REQUEST_KIND ∧ (h ∉ log.*1) ∧ info st h = None ∧
  (∃ s, info st' h = Some (real, false, s)) ∧ others st st' h ∧ virt_id_next_seq st' = virt_id_next_seq st + 1.
Proof.
  intros (app & free & live & Hi) Hn Hrun. cbn [fst snd] in Hi. pose proof (dt_inv_ok _ _ _ _ _ _ Hi) as Hok.
  pose proof (add_virt_id_spec st free live real NoDesc MANA_REQUEST_KIND Hok) as Ha.
  cbv zeta in Ha. set (s := next_slot st free) in *.
  assert (tables st' log) as Ht.
  { exists app. apply (types_step_ok (st, app, log)); [by exists free, live|].
    apply (ts_add st app log real NoDesc MANA_REQUEST_KIND h st'); [by vm_compute|by vm_compute|by left|done|exact Hrun]. }
  assert ((h ∉ log.*1) ∧ fixed_fields st' = fixed_fields st) as [Hnl Hff].
  { destruct (di_log _ _ _ _ _ _ Hi) as [_ (l & Hp & ->)].
    destruct (add_keeps_log st free live l real NoDesc MANA_REQUEST_KIND h st' Hok Hp) as (? & ? & _ & _ & _ & Hnl);
      [by vm_compute|by left|done|done|]. split; [done|].
    revert Hrun. clear. unfold add_virt_id. intros (x & st1 & E & H1)%prog_bind_inv.
    assert (fixed_fields st1 = fixed_fields st) as <-.
    { revert E. unfold alloc_slot. prog_red. destruct (0 <=? _).
      - destruct (slot_entry st _); [|done]. by intros [= _ <-].
      - destruct (_ <? _); [done|]. destruct (alloc_chunks _ _ st) as [[] st2| |] eqn:E; [|done|done].
        intros [= _ <-]. rewrite alloc_chunks_run in E. by injection E as <-. }
    revert H1. prog_red. destruct (slot_entry st1 x); [|done]. by intros [= _ <-]. }
  destruct (MANA_VIRT_ID_SLOT_MASK <? s); [rewrite Ha in Hrun; [done|by vm_compute|by left|done]|].
  destruct Ha as (st2 & e & Hrun2 & Hok' & He & Hl & Hr & _ & _ & _ & Hcp & Hfr & _ & Hseq & Hhw & Hold & _);
    [by vm_compute|by left|done|]. rewrite Hrun in Hrun2. injection Hrun2 as -> <-.
  assert (s ∈ live ++ [s]) as Hs by (apply elem_of_snoc; by right).
  assert (virt e = handle_of st' s) as Hv by (unfold handle_of; by rewrite He).
  pose proof (lookup_live _ _ _ _ _ Hok' Hs) as Hlk. rewrite <- Hv in Hlk.
  pose proof (lookup_sound _ _ _ _ _ _ Hok' Hlk) as [_ Hh]. rewrite <- Hv in Hh.
  assert (∀ x, x ∈ live → slot_entry st' x = slot_entry st x) as Hsame.
  { intros x Hx. apply Hold; [apply (inv_live _ _ _ _ Hok x Hx)|]. by intros ->. }
  split; [done|]. split; [done|]. split; [by eapply live_entry_kind_of; [eapply inv_slot_range|]|].
  split; [done|]. split; [|split; [|split; [split; [done|]|done]]].
  - destruct (info st (virt e)) as [x|] eqn:E; [|done].
    destruct (info_slot st free live _ _ Hok (eq_sym Hh) E) as (s2 & e2 & Hs2 & E2 & _).
    assert (handle_of st' s2 = handle_of st s2) as E3 by (unfold handle_of; by rewrite Hsame).
    rewrite <- E3, Hv in E2. apply (handle_of_inj _ _ _ _ _ _ Hok' Hs) in E2; [|apply elem_of_snoc; by left].
    by subst.
  - exists (status e). rewrite Hv, (info_live st' _ _ s Hok' Hs), He. unfold entry_info. cbn. by rewrite Hr, Hcp.
  - intros x Hne. apply info_ext. intros s2 [Hl2|Hl2].
    + destruct (lookup_any _ _ _ _ _ Hok' Hl2) as [[Hs2| ->]%elem_of_snoc Ex]; [by rewrite Hsame|].
      by rewrite Ex, <- Hv in Hne.
    + destruct (lookup_any _ _ _ _ _ Hok Hl2) as [Hs2 _]. by rewrite Hsame.
Qed.

(** [release_freed_datatypes()] changes datatypes only. *)
Lemma tables_release st log :
  tables st log →
  ∃ st', release_freed_datatypes st = Ok () st' ∧ tables st' log ∧ fixed_fields st' = fixed_fields st ∧
    virt_id_next_seq st' = virt_id_next_seq st ∧
    ∀ h, kind_of (_handle h) ≠ MANA_DATATYPE_KIND → info st' h = info st h.
Proof.
  intros (app & free & live & Hi). cbn [fst snd] in Hi. pose proof (dt_inv_ok _ _ _ _ _ _ Hi) as Hok.
  destruct (release_freed_run app log st free live Hi) as (st' & free' & live' & Hrun & Hi' & _ & Hsh).
  pose proof (dt_inv_ok _ _ _ _ _ _ Hi') as Hok'.
  exists st'. split; [done|]. split; [by exists app, free', live'|]. destruct Hsh as [Hc _ Hsq Hl _ Hw Hk Hv].
  split; [|split; [done|]].
  { unfold fixed_fields. cbn in Hc, Hw. injection Hw as Hw1 Hw2. by rewrite Hc, Hw1, Hw2. }
  intros h Hkind. apply info_ext. intros s Hlk.
  assert (s ∈ live') as Hs.
  { destruct Hlk as [Hlk|Hlk]; [by apply (lookup_any _ _ _ _ _ Hok' Hlk)|].
    destruct (lookup_any _ _ _ _ _ Hok Hlk) as [Hs Eh]. apply Hk; [done|]. by eapply kind_not_datatype. }
  specialize (Hv s Hs). change (slot_entry (st' <| datatypes_freed_while_pending := _ |>) s) with (slot_entry st' s) in Hv.
  destruct (slot_entry st' s), (slot_entry st s); try done. cbn.
  unfold entry_view in Hv. unfold request_view. by injection Hv as -> -> _ _ _ -> ->.
Qed.

Lemma tables_free st log h x :
  tables st log → _handle h = h → kind_of h ≠ MANA_DATATYPE_KIND → info st h = Some x → h ∉ log.*1 →
  ∃ st', free_virt_id h st = Ok () st' ∧ tables st' log ∧ info st' h = None ∧ others st st' h ∧
    virt_id_next_seq st' = virt_id_next_seq st.
Proof.
  intros (app & free & live & Hi) Hh Hk Hinfo Hnl. cbn [fst snd] in Hi. pose proof (dt_inv_ok _ _ _ _ _ _ Hi) as Hok.
  destruct (info_slot st free live h x Hok Hh Hinfo) as (s & e & Hs & -> & Hlk & He & _).
  destruct (di_log _ _ _ _ _ _ Hi) as [_ (l & Hp & Elog)]. pose proof (free_keeps_log st free live l s Hok Hp Hs) as Hf.
  rewrite Elog in Hnl. rewrite (handle_in_log st free live l s Hok (po_live _ _ _ Hp) Hs) in Hnl.
  rewrite decide_False in Hf by done. destruct Hf as (st' & Hrun & Hok' & _ & _). exists st'. split; [done|].
  pose proof (free_virt_id_run st free live s e Hok Hs He) as Hfr.
  replace (virt e) with (handle_of st s) in Hfr by (unfold handle_of; by rewrite He). rewrite Hrun in Hfr.
  destruct (decide _); [|done]. destruct Hfr as [pool [= ->]].
  assert (∀ y, y ≠ s → slot_entry (freed st s pool) y = slot_entry st y) as Hne by apply freed_entry_ne.
  split; [|split; [|split; [split; [done|]|done]]].
  - exists app. apply (types_step_ok (st, app, log)); [by exists free, live|].
    by apply (ts_free_other _ _ _ (handle_of st s)).
  - destruct (info (freed st s pool) (handle_of st s)) as [y|] eqn:E; [|done].
    destruct (info_slot _ _ _ _ _ Hok' Hh E) as (s2 & e2 & [Hs2 Hne2]%elem_of_remove & E2 & _).
    assert (handle_of (freed st s pool) s2 = handle_of st s2) as E3 by (unfold handle_of; by rewrite Hne).
    rewrite E3 in E2. by apply (handle_of_inj _ _ _ _ _ _ Hok Hs Hs2) in E2.
  - intros h' Hne'. apply info_ext. intros s2 [Hl2|Hl2].
    + destruct (lookup_any _ _ _ _ _ Hok' Hl2) as [[_ Hs2]%elem_of_remove _]. by rewrite Hne.
    + destruct (lookup_any _ _ _ _ _ Hok Hl2) as [_ Eh]. rewrite Hne; [done|]. by intros ->.
Qed.

(** An update of an entry's real handle, completion and status. *)
Lemma tables_update st log h x f :
  tables st log → _handle h = h → info st h = Some x →
  (∀ e, virt (f e) = virt e ∧ gen (f e) = gen e ∧ entry_seq (f e) = entry_seq e ∧ next_free (f e) = next_free e ∧
     desc (f e) = desc e ∧ log_part (f e) = log_part e) →
  ∃ s e, lookup_virt_id_entry st h = Some s ∧ slot_entry st s = Some e ∧ entry_info e = x ∧
    let st' := update_entry s f st in
    tables st' log ∧ info st' h = Some (entry_info (f e)) ∧ others st st' h ∧
    virt_id_next_seq st' = virt_id_next_seq st.
Proof.
  intros (app & free & live & Hi) Hh Hinfo Hf. cbn [fst snd] in Hi. pose proof (dt_inv_ok _ _ _ _ _ _ Hi) as Hok.
  destruct (info_slot st free live h x Hok Hh Hinfo) as (s & e & Hs & Eh & Hlk & He & Hx). exists s, e.
  split; [done|]. split; [done|]. split; [done|]. intros st'.
  assert (benign f) as Hb.
  { intros e0. destruct (Hf e0) as (-> & -> & -> & -> & -> & _). done. }
  assert (same_core st st') as Hsc.
  { apply same_core_update. intros e0. unfold core_view. by destruct (Hf e0) as (-> & _ & -> & _ & -> & _). }
  destruct (di_log _ _ _ _ _ _ Hi) as [_ (l & Hp & ->)].
  destruct (update_keeps_log st free live l s f Hok Hp Hs Hb) as (Hok' & Hp' & Hlog); [intros e0; apply (Hf e0)|].
  assert (∀ y, handle_of st' y = handle_of st y) as Hho.
  { intros y. apply handle_of_update. intros e0. apply (Hf e0). }
  split; [|split; [|split; [split; [done|]|done]]].
  - exists app, free, live. cbn [fst snd]. unfold types_inv. rewrite (sc_freed _ _ Hsc).
    apply (dt_inv_same_core st _ free live _ _ (log_of st l)); [exact Hi|exact Hsc| |apply Hi].
    split; [done|]. exists l. split; [done|]. symmetry. exact Hlog.
  - rewrite Eh, <- Hho, (info_live st' free live s Hok' Hs). unfold st'. by rewrite slot_entry_update_eq, He.
  - intros h' Hne. apply info_ext. intros s2 Hl2. assert (s2 ≠ s) as Hns.
    { intros ->. apply Hne. rewrite Eh. destruct Hl2 as [Hl2|Hl2].
      - rewrite <- Hho. by apply (lookup_any st' free live).
      - by apply (lookup_any st free live). }
    unfold st'. by rewrite slot_entry_update_ne.
Qed.

Lemma tables_update_virt_id st log h x real :
  tables st log → _handle h = h → info st h = Some x →
  ∃ st', update_virt_id h real st = Ok () st' ∧ tables st' log ∧
    info st' h = Some (real, x.1.2, x.2) ∧ others st st' h ∧ virt_id_next_seq st' = virt_id_next_seq st.
Proof.
  intros Ht Hh Hx. destruct (tables_update st log h x (λ e, e <| real_id := real |>) Ht Hh Hx)
    as (s & e & Hl & He & <- & ?); [intros e0; by split_and!|].
  eexists. split; [|done]. unfold update_virt_id. prog_red. by rewrite Hl.
Qed.

Lemma tables_complete st log h x null st0 :
  tables st log → _handle h = h → info st h = Some x →
  ∃ st', complete_virt_request null h st0 st = Ok () st' ∧ tables st' log ∧
    info st' h = Some (null, true, st0) ∧ others st st' h ∧ virt_id_next_seq st' = virt_id_next_seq st.
Proof.
  intros Ht Hh Hx. destruct (tables_update st log h x (λ e, e <| status := st0 |> <| completed := true |>
    <| real_id := null |>) Ht Hh Hx) as (s & e & Hl & He & <- & ?); [intros e0; by split_and!|].
  eexists. split; [|done]. unfold complete_virt_request, get_virt_id_entry. prog_red. by rewrite Hl.
Qed.

(** ** Real handles *)

Definition real_of (st : vid_state) (h : Z) : option Z :=
  match get_real_id h st with Ok r _ => Some r | _ => None end.

Lemma real_of_run st h r : real_of st h = Some r → get_real_id h st = Ok r st.
Proof.
  unfold real_of. destruct (get_real_id h st) as [r' st'| |] eqn:E; try done. intros [= ->].
  revert E. unfold get_real_id, get_real_id_slow, get_virt_id_entry. destruct (entry_of st h); [by intros [= _ <-]|].
  destruct (find_constant _ _) as [[c|]|]; [by intros [= _ <-]| |done]. prog_red.
  destruct (lookup_virt_id_entry st h); [|done]. destruct (slot_entry st z); [|done]. by intros [= _ <-].
Qed.

Lemma real_of_info st h x : info st h = Some x → real_of st h = Some x.1.1.
Proof. unfold info, real_of, get_real_id. destruct (entry_of st h); [|done]. by intros [= <-]. Qed.

Lemma real_of_same st st' h : fixed_fields st' = fixed_fields st → info st' h = info st h → real_of st' h = real_of st h.
Proof.
  intros [= Ec _ _]. unfold info, real_of, get_real_id, get_real_id_slow, get_virt_id_entry, entry_of.
  destruct (lookup_virt_id_entry st' h) as [s'|] eqn:E1, (lookup_virt_id_entry st h) as [s|] eqn:E2; cbn.
  - destruct (slot_entry st' s') as [e'|] eqn:E3, (slot_entry st s) as [e|] eqn:E4; try done.
    + intros [= Er _ _]. by rewrite Er.
    + intros _. rewrite Ec. destruct (find_constant _ _) as [[c|]|]; try done. prog_red. by rewrite E1, E2, E3, E4.
  - destruct (slot_entry st' s') eqn:E3; [done|]. intros _. rewrite Ec.
    destruct (find_constant _ _) as [[c|]|]; try done. prog_red. by rewrite E1, E2, E3.
  - destruct (slot_entry st s) eqn:E4; [done|]. intros _. rewrite Ec.
    destruct (find_constant _ _) as [[c|]|]; try done. prog_red. by rewrite E1, E2, E4.
  - intros _. rewrite Ec. destruct (find_constant _ _) as [[c|]|]; try done. prog_red. by rewrite E1, E2.
Qed.

End table.
