(* ===== verification/P2p.v ===== *)
(** * Point-to-point messages: MANA's buffer, requests, sends and receives
    ([src/src/p2p_drain.cpp], [src/src/mpi-wrappers/mpi_p2p_wrappers.cpp],
    [src/src/mpi-wrappers/mpi_request_wrappers.cpp])

    One process: its virtual-ID table, its lower half, the counters of sent and
    received messages, and the buffer of messages that a checkpoint's drain
    received.  The lower half is a parameter: [P2pLib] has the calls that the
    code makes, on a state [L] that stands for the MPI library and the memory
    that its calls read and write.  Pointers to application memory are
    addresses; a message in MANA's own buffer is a list of bytes.

    An output that a wrapper writes through a pointer is a result; a status that
    it may leave unwritten is an option.  [polls] bounds the loops that poll the
    lower half: a loop that polls more often is taken to be endless ([Spin]).
    The waits for the end of a drain and the brackets
    [LOWER_HALF_DISABLE_CKPT()]/[..._ENABLE_CKPT()] decide when a wrapper may
    run, and are not part of these functions (see [LowerHalfGuard] and
    [P2pJob]). *)
From S2P Require Import Prelude Mpi Constants VirtualId PendingLog DatatypeRefs.

(** ** State *)

(** A message of MANA's buffer; [ack_to] is -1 if no ack is owed. *)
Record mpi_message_t := mk_message {
  msg_buf : list Z;
  msg_count : Z;
  msg_datatype : Z;
  msg_size : Z;
  msg_comm : Z;
  msg_status : MPI_Status;
  ack_to : Z;
  ack_tag : Z
}.
#[export] Instance eta_message : Eta mpi_message_t := λ m,
  mk_message (msg_buf m) (msg_count m) (msg_datatype m) (msg_size m) (msg_comm m) (msg_status m)
    (ack_to m) (ack_tag m).

Inductive pending_recv_state := PENDING_RECV_IDLE | PENDING_RECV_ACTIVE | PENDING_RECV_CLOSED.
#[export] Instance pending_recv_state_eq_dec : EqDecision pending_recv_state.
Proof. solve_decision. Defined.

Record pending_recv_t := mk_pending_recv {
  pr_state : pending_recv_state;
  pr_source : Z;
  pr_tag : Z;
  pr_comm : Z;
  pr_count : Z;
  pr_datatype : Z
}.
#[export] Instance eta_pending_recv : Eta pending_recv_t := λ r,
  mk_pending_recv (pr_state r) (pr_source r) (pr_tag r) (pr_comm r) (pr_count r) (pr_datatype r).

Inductive p2p_wait_t := P2P_WAIT_BLOCKING | P2P_WAIT_POLLING.
#[export] Instance p2p_wait_t_eq_dec : EqDecision p2p_wait_t.
Proof. solve_decision. Defined.

Record SsendNotice := mk_notice { sn_request : Z; sn_receiver : Z; sn_ack_tag : Z }.
Record SsendAck := mk_ack { sa_rank : Z; sa_tag : Z }.

Record p2p (L : Type) := mk_p2p {
  table : vid_state;
  lib : L;
  local_sent_messages : Z;
  local_recv_messages : Z;
  g_message_queue : list mpi_message_t;
  g_queued_messages : Z;
  g_pending_recv : pending_recv_t;
  p2p_dummy_phase : bool;
  g_p2p_wait : p2p_wait_t;
  g_ssend_notices : list SsendNotice;
  g_owed_acks : list SsendAck;
  g_dummy_sends : list Z;        (* real requests; their buffers are not modelled *)
  next_ack_tag : Z;
  g_ssend_ack_comm : Z;
  active_comms : list Z;         (* an unordered set, in the order it is walked *)
  g_world_rank : Z
}.
Arguments mk_p2p {L}. Arguments table {L}. Arguments lib {L}.
Arguments local_sent_messages {L}. Arguments local_recv_messages {L}.
Arguments g_message_queue {L}. Arguments g_queued_messages {L}. Arguments g_pending_recv {L}.
Arguments p2p_dummy_phase {L}. Arguments g_p2p_wait {L}. Arguments g_ssend_notices {L}.
Arguments g_owed_acks {L}. Arguments g_dummy_sends {L}. Arguments next_ack_tag {L}. Arguments g_ssend_ack_comm {L}.
Arguments active_comms {L}. Arguments g_world_rank {L}.
#[export] Instance eta_p2p L : Eta (p2p L) := λ p,
  mk_p2p (table p) (lib p) (local_sent_messages p) (local_recv_messages p) (g_message_queue p)
    (g_queued_messages p) (g_pending_recv p) (p2p_dummy_phase p) (g_p2p_wait p) (g_ssend_notices p)
    (g_owed_acks p) (g_dummy_sends p) (next_ack_tag p) (g_ssend_ack_comm p) (active_comms p) (g_world_rank p).

(** The lower half's calls.  A call returns its return code and what it writes
    to its output arguments. *)
Class P2pLib (L : Type) := {
  MANA_REQUEST_NULL : Z;
  MANA_BYTE : Z;
  lh_Type_size : Z → L → (Z * Z) * L;                                  (* code, size *)
  lh_Iprobe : Z → Z → Z → L → (Z * bool * MPI_Status) * L;             (* source tag comm *)
  lh_Recv_bytes : Z → Z → Z → Z → L → (Z * list Z) * L;                (* count source tag comm *)
  lh_Recv : Z → Z → Z → Z → Z → Z → L → (Z * MPI_Status) * L;          (* buf count type source tag comm *)
  lh_Irecv : Z → Z → Z → Z → Z → Z → L → (Z * Z) * L;
  lh_Isend : bool → Z → Z → Z → Z → Z → Z → L → (Z * Z) * L;           (* Issend if true; buf .. dest tag comm *)
  lh_Send : bool → Z → Z → Z → Z → Z → Z → L → Z * L;                  (* Rsend if true *)
  lh_Test : Z → L → (Z * bool * MPI_Status) * L;
  lh_Request_get_status : Z → L → (Z * bool * MPI_Status) * L;
  lh_Unpack : list Z → Z → Z → Z → Z → Z → L → Z * L                   (* inbuf size outbuf count type comm *)
}.

Section p2p.
Context `{MpiLib} `{P2pLib L}.
Context (polls : nat).

Definition on_table {A} (m : prog vid_state A) : prog (p2p L) A := λ p,
  match m (table p) with
  | Ok a st => Ok a (p <| table := st |>)
  | Abort => Abort
  | Spin => Spin
  end.
Definition call_lib {A} (f : L → A * L) : prog (p2p L) A := λ p,
  let '(a, l) := f (lib p) in Ok a (p <| lib := l |>).

Definition count_received_message : prog (p2p L) unit := modify (λ p, p <| local_recv_messages ::= Z.succ |>).

(** [unlockMessageQueue()]. *)
Definition unlockMessageQueue : prog (p2p L) unit :=
  modify (λ p, p <| g_queued_messages := Z.of_nat (length (g_message_queue p)) |>).

(** ** Completing requests *)

(** The status is what is written if the caller passed one. *)
Definition MPI_Test_internal (request : Z) (isRealRequest : bool) : prog (p2p L) (Z * bool * MPI_Status) :=
  real_request ← (if isRealRequest then mret request else on_table (get_real_id request));
  st ← gets table;
  match (if negb isRealRequest && (real_request =? MANA_REQUEST_NULL)
         then completed_request_status request st else None) with
  | Some s => mret (MPI_SUCCESS, true, s)
  | None => call_lib (lh_Test real_request)
  end.

Definition is_counted_irecv (request : Z) : prog (p2p L) bool :=
  o ← on_table (getPendingCall request);
  mret (match o with
        | Some call => bool_decide (call_type call = IRECV_REQUEST) && negb (remote_node call =? MPI_PROC_NULL)
        | None => false
        end).

(** The end of a request: out of the log, and its virtual ID is freed. *)
Definition finish_request (request : Z) : prog (p2p L) unit :=
  on_table (clearPendingRequestFromLog request ;; release_freed_datatypes ;; free_virt_id request).

Definition count_if_irecv (request : Z) : prog (p2p L) unit :=
  counted ← is_counted_irecv request;
  if (counted : bool) then count_received_message else mret ().

(** Results: the return code, the flag, [*request] and the status. *)
Definition PMPI_Test (request : Z) : prog (p2p L) (Z * bool * Z * option MPI_Status) :=
  if request =? MPI_REQUEST_NULL then mret (MPI_SUCCESS, true, request, None) else
  real_request ← on_table (get_real_id request);
  if real_request =? MANA_REQUEST_NULL then
    st ← gets table;
    let s := completed_request_status request st in
    finish_request request ;;
    mret (MPI_SUCCESS, true, MPI_REQUEST_NULL, s)
  else
    '(retval, flag, s) ← MPI_Test_internal real_request true;
    (if (flag : bool) then count_if_irecv request else mret ()) ;;
    if (retval =? MPI_SUCCESS) && flag then
      finish_request request ;; mret (retval, flag, MPI_REQUEST_NULL, Some s)
    else mret (retval, flag, request, Some s).

(** [PMPI_Testall]: the flag is left unwritten ([None]) if there is no request. *)
Fixpoint testall_loop (requests : list Z) (flag : option bool) (incomplete : bool)
  : prog (p2p L) (Z * option bool * bool * list Z * list (option MPI_Status)) :=
  match requests with
  | [] => mret (MPI_SUCCESS, flag, incomplete, [], [])
  | r :: rs =>
      '(retval, f, r', s) ← PMPI_Test r;
      if negb (retval =? MPI_SUCCESS) then mret (retval, Some false, incomplete, r' :: rs, [s])
      else
        '(retval', flag', incomplete', rs', ss) ← testall_loop rs (Some f) (incomplete || negb f);
        mret (retval', flag', incomplete', r' :: rs', s :: ss)
  end.
Definition PMPI_Testall (requests : list Z) : prog (p2p L) (Z * option bool * list Z * list (option MPI_Status)) :=
  '(retval, flag, incomplete, rs, ss) ← testall_loop requests None false;
  mret (retval, if (incomplete : bool) then Some false else flag, rs, ss).

(** [PMPI_Testany] from index [i], with the flag and the status so far. *)
Fixpoint testany_loop (requests : list Z) (i : Z) (flag : bool) (s0 : option MPI_Status)
  : prog (p2p L) (Z * Z * bool * list Z * option MPI_Status) :=
  match requests with
  | [] => mret (MPI_SUCCESS, MPI_UNDEFINED, flag, [], s0)
  | r :: rs =>
      if r =? MPI_REQUEST_NULL then
        '(retval, index, f, rs', s) ← testany_loop rs (i + 1) flag s0;
        mret (retval, index, f, r :: rs', s)
      else
        '(retval, f, r', s) ← PMPI_Test r;
        if negb (retval =? MPI_SUCCESS) then mret (retval, MPI_UNDEFINED, f, r' :: rs, s)
        else if (f : bool) then mret (retval, i, f, r' :: rs, s)
        else
          '(retval', index, f', rs', s') ← testany_loop rs (i + 1) f s;
          mret (retval', index, f', r' :: rs', s')
  end.
Definition PMPI_Testany (requests : list Z) : prog (p2p L) (Z * Z * bool * list Z * option MPI_Status) :=
  testany_loop requests 0 true None.

Fixpoint wait_loop (fuel : nat) (request : Z) : prog (p2p L) (Z * MPI_Status) :=
  match fuel with
  | O => spin
  | S fuel' =>
      '(retval, flag, s) ← MPI_Test_internal request false;
      (if flag && negb (request =? MPI_REQUEST_NULL) then count_if_irecv request else mret ()) ;;
      if (flag : bool) then finish_request request ;; mret (retval, s)
      else wait_loop fuel' request
  end.
Definition PMPI_Wait (request : Z) : prog (p2p L) (Z * Z * option MPI_Status) :=
  if request =? MPI_REQUEST_NULL then mret (MPI_SUCCESS, request, None) else
  '(retval, s) ← wait_loop polls request;
  mret (retval, MPI_REQUEST_NULL, Some s).

Fixpoint PMPI_Waitall (requests : list Z) : prog (p2p L) (Z * list Z * list (option MPI_Status)) :=
  match requests with
  | [] => mret (MPI_SUCCESS, [], [])
  | r :: rs =>
      '(retval, r', s) ← PMPI_Wait r;
      if negb (retval =? MPI_SUCCESS) then mret (retval, r' :: rs, [s]) else
      '(retval', rs', ss) ← PMPI_Waitall rs;
      mret (retval', r' :: rs', s :: ss)
  end.

(** One pass of [PMPI_Waitany] over the requests from index [i]: [inl] is the
    wrapper's return, [inr] whether all requests seen were null.  No request
    becomes null while the wrapper runs, so a null one was null at the start. *)
Fixpoint waitany_pass (requests : list Z) (i : Z) (all_null : bool)
  : prog (p2p L) ((Z * Z * list Z * MPI_Status) + bool) :=
  match requests with
  | [] => mret (inr all_null)
  | r :: rs =>
      if r =? MPI_REQUEST_NULL then
        x ← waitany_pass rs (i + 1) all_null;
        mret (match x with inl (retval, index, rs', s) => inl (retval, index, r :: rs', s) | inr b => inr b end)
      else
        '(retval, flag, s) ← MPI_Test_internal r false;
        if negb (retval =? MPI_SUCCESS) then mret (inl (retval, MPI_UNDEFINED, r :: rs, s))
        else if (flag : bool) then
          count_if_irecv r ;;
          finish_request r ;;
          mret (inl (retval, i, MPI_REQUEST_NULL :: rs, s))
        else
          x ← waitany_pass rs (i + 1) false;
          mret (match x with inl (retval, index, rs', s) => inl (retval, index, r :: rs', s) | inr b => inr b end)
  end.
Fixpoint waitany_loop (fuel : nat) (requests : list Z) (all_null : bool)
  : prog (p2p L) (Z * Z * list Z * option MPI_Status) :=
  match fuel with
  | O => spin
  | S fuel' =>
      x ← waitany_pass requests 0 all_null;
      match x with
      | inl (retval, index, rs, s) => mret (retval, index, rs, Some s)
      | inr true => mret (MPI_SUCCESS, MPI_UNDEFINED, requests, None)
      | inr false => waitany_loop fuel' requests false
      end
  end.
Definition PMPI_Waitany (requests : list Z) : prog (p2p L) (Z * Z * list Z * option MPI_Status) :=
  waitany_loop polls requests true.

Definition PMPI_Request_get_status (request : Z) : prog (p2p L) (Z * bool * MPI_Status) :=
  real_request ← on_table (get_real_id request);
  st ← gets table;
  match (if real_request =? MANA_REQUEST_NULL then completed_request_status request st else None) with
  | Some s => mret (MPI_SUCCESS, true, s)
  | None => call_lib (lh_Request_get_status real_request)
  end.

(** ** Sends *)

Definition new_virt_request (real : Z) : prog vid_state Z := add_virt_id real NoDesc MANA_REQUEST_KIND.

(** The counting that precedes every send. *)
Definition count_send (dest tag comm : Z) : prog (p2p L) unit :=
  if dest =? MPI_PROC_NULL then mret () else
  modify (λ p, p <| local_sent_messages ::= Z.succ |>) ;;
  on_table (countSendAfterIssends comm dest tag).

Definition MPI_Isend_internal (buf count datatype dest tag comm : Z) (synchronous : bool)
  : prog (p2p L) (Z * Z) :=
  count_send dest tag comm ;;
  realComm ← on_table (get_real_id comm);
  realType ← on_table (get_real_id datatype);
  '(retval, request) ← call_lib (lh_Isend synchronous buf count realType dest tag realComm);
  if retval =? MPI_SUCCESS then
    virt ← on_table (new_virt_request request);
    let type := if synchronous && negb (dest =? MPI_PROC_NULL) then ISSEND_REQUEST else ISEND_REQUEST in
    on_table (addPendingRequestToLog type buf 0 count datatype dest tag comm virt) ;;
    mret (retval, virt)
  else mret (retval, request).

Definition PMPI_Isend (buf count datatype dest tag comm : Z) : prog (p2p L) (Z * Z) :=
  MPI_Isend_internal buf count datatype dest tag comm false.
Definition PMPI_Issend (buf count datatype dest tag comm : Z) : prog (p2p L) (Z * Z) :=
  MPI_Isend_internal buf count datatype dest tag comm true.

Definition PMPI_Ssend (buf count datatype dest tag comm : Z) : prog (p2p L) Z :=
  '(retval, request) ← PMPI_Issend buf count datatype dest tag comm;
  if negb (retval =? MPI_SUCCESS) then mret retval else
  '(retval, _, _) ← PMPI_Wait request;
  mret retval.

Definition send_by_polling (buf count datatype dest tag comm : Z) : prog (p2p L) Z :=
  '(retval, request) ← PMPI_Isend buf count datatype dest tag comm;
  if negb (retval =? MPI_SUCCESS) then mret retval else
  '(retval, _, _) ← PMPI_Wait request;
  mret retval.

(** The blocking part of [PMPI_Send] and [PMPI_Rsend] ([ready]). *)
Definition send_blocking (ready : bool) (buf count datatype dest tag comm : Z) : prog (p2p L) Z :=
  count_send dest tag comm ;;
  realComm ← on_table (get_real_id comm);
  realType ← on_table (get_real_id datatype);
  call_lib (lh_Send ready buf count realType dest tag realComm).
Definition PMPI_Send (buf count datatype dest tag comm : Z) : prog (p2p L) Z :=
  wait ← gets g_p2p_wait;
  if bool_decide (wait = P2P_WAIT_POLLING) then send_by_polling buf count datatype dest tag comm
  else send_blocking false buf count datatype dest tag comm.
Definition PMPI_Rsend (buf count datatype dest tag comm : Z) : prog (p2p L) Z :=
  wait ← gets g_p2p_wait;
  if bool_decide (wait = P2P_WAIT_POLLING) then send_by_polling buf count datatype dest tag comm
  else send_blocking true buf count datatype dest tag comm.

Definition sendSsendAck (rank tag : Z) : prog (p2p L) unit :=
  comm ← gets g_ssend_ack_comm;
  '(retval, request) ← MPI_Isend_internal 0 0 MPI_BYTE rank tag comm false;
  assert_ (retval =? MPI_SUCCESS) ;;
  '(retval, _, _) ← PMPI_Wait request;
  assert_ (retval =? MPI_SUCCESS).

(** ** MANA's buffer *)

(** The condition of both searches. *)
Definition msg_matches (source tag comm : Z) (m : mpi_message_t) : bool :=
  ((MPI_SOURCE (msg_status m) =? source) || (source =? MPI_ANY_SOURCE)) &&
  ((MPI_TAG (msg_status m) =? tag) || (tag =? MPI_ANY_TAG)) &&
  (msg_comm m =? comm).

Definition find_msg (source tag comm : Z) (q : list mpi_message_t) : option (nat * mpi_message_t) :=
  list_find (λ m, msg_matches source tag comm m = true) q.

(** The status of the first matching message, or [None] if it returns false. *)
Definition existsMatchingMsgBuffer (source tag comm : Z) : prog (p2p L) (option MPI_Status) :=
  n ← gets g_queued_messages;
  if n =? 0 then mret None else
  q ← gets g_message_queue;
  unlockMessageQueue ;;
  mret ((λ x, msg_status x.2) <$> find_msg source tag comm q).

(** How many elements of the datatype are unpacked from a message of
    [msg_bytes] bytes into a receive of [count] elements and [size] bytes. *)
Definition unpacked_elements (count size msg_bytes : Z) : Z :=
  let type_size := if 0 <? count then Z.quot size count else 0 in
  let elements := if 0 <? type_size then Z.quot msg_bytes type_size else 0 in
  if count <? elements then count else elements.

Definition consumeMatchingMsgBuffer (buf count datatype source tag comm size : Z) : prog (p2p L) MPI_Status :=
  q ← gets g_message_queue;
  '(i, foundMsg) ← deref (find_msg source tag comm q);
  let elements := unpacked_elements count size (msg_size foundMsg) in
  (if 0 <? elements then
     realType ← on_table (get_real_id datatype);
     realComm ← on_table (get_real_id MPI_COMM_SELF);
     retval ← call_lib (lh_Unpack (msg_buf foundMsg) (msg_size foundMsg) buf elements realType realComm);
     assert_ (retval =? MPI_SUCCESS)
   else mret ()) ;;
  modify (λ p, p <| g_message_queue := delete i q |>) ;;
  unlockMessageQueue ;;
  (if 0 <=? ack_to foundMsg then sendSsendAck (ack_to foundMsg) (ack_tag foundMsg) else mret ()) ;;
  mret (msg_status foundMsg).

(** The size that the wrappers pass: [type_size * count] as an [int]. *)
Definition recv_size (datatype count : Z) : prog (p2p L) Z :=
  realType ← on_table (get_real_id datatype);
  '(_, type_size) ← call_lib (lh_Type_size realType);
  mret (s32 (type_size * count)).

(** ** Receives and probes *)

Definition MPI_Irecv_internal (buf count datatype source tag comm : Z) : prog (p2p L) (Z * Z) :=
  found ← existsMatchingMsgBuffer source tag comm;
  match found with
  | Some _ =>
      msg_size ← recv_size datatype count;
      s ← consumeMatchingMsgBuffer buf count datatype source tag comm msg_size;
      virtRequest ← on_table (new_virt_request (MPI_REQUEST_NULL + 1));
      on_table (complete_virt_request MANA_REQUEST_NULL virtRequest s) ;;
      mret (MPI_SUCCESS, virtRequest)
  | None =>
      realComm ← on_table (get_real_id comm);
      realType ← on_table (get_real_id datatype);
      '(retval, request) ← call_lib (lh_Irecv buf count realType source tag realComm);
      if retval =? MPI_SUCCESS then
        virt ← on_table (new_virt_request request);
        on_table (addPendingRequestToLog IRECV_REQUEST 0 buf count datatype source tag comm virt) ;;
        mret (retval, virt)
      else mret (retval, request)
  end.
Definition PMPI_Irecv (buf count datatype source tag comm : Z) : prog (p2p L) (Z * Z) :=
  MPI_Irecv_internal buf count datatype source tag comm.

Definition recv_by_polling (buf count datatype source tag comm : Z) : prog (p2p L) (Z * option MPI_Status) :=
  '(retval, request) ← MPI_Irecv_internal buf count datatype source tag comm;
  if negb (retval =? MPI_SUCCESS) then mret (retval, None) else
  '(retval, _, s) ← PMPI_Wait request;
  mret (retval, s).

(** [PMPI_Recv] in blocking mode, before the lower half's [MPI_Recv]: the
    message was in the buffer, the slot is closed (the wrapper waits for the end
    of the checkpoint and tries again), or the call is made. *)
Inductive recv_start := Served (s : MPI_Status) | SlotClosed | EnterRecv (realType realComm : Z).

Definition recv_begin (buf count datatype source tag comm : Z) : prog (p2p L) recv_start :=
  found ← existsMatchingMsgBuffer source tag comm;
  match found with
  | Some _ =>
      msg_size ← recv_size datatype count;
      s ← consumeMatchingMsgBuffer buf count datatype source tag comm msg_size;
      mret (Served s)
  | None =>
      modify (λ p, p <| g_pending_recv ::= λ r, mk_pending_recv (pr_state r) source tag comm count datatype |>) ;;
      r ← gets g_pending_recv;
      if bool_decide (pr_state r = PENDING_RECV_IDLE) then
        modify (λ p, p <| g_pending_recv ::= λ r, r <| pr_state := PENDING_RECV_ACTIVE |> |>) ;;
        realComm ← on_table (get_real_id comm);
        realType ← on_table (get_real_id datatype);
        mret (EnterRecv realType realComm)
      else mret SlotClosed
  end.

(** After the lower half's [MPI_Recv]: whether the message was a dummy, so that
    the wrapper discards it and tries again. *)
Definition recv_end (source : Z) : prog (p2p L) bool :=
  dummy ← gets p2p_dummy_phase;
  if (dummy : bool) then
    modify (λ p, p <| g_pending_recv ::= λ r, r <| pr_state := PENDING_RECV_CLOSED |> |>) ;; mret true
  else
    modify (λ p, p <| g_pending_recv ::= λ r, r <| pr_state := PENDING_RECV_IDLE |> |>) ;;
    (if source =? MPI_PROC_NULL then mret () else count_received_message) ;;
    mret false.

(** [PMPI_Recv] while no other thread changes the slot; each [goto retry] is a
    turn of the loop. *)
Fixpoint recv_loop (fuel : nat) (buf count datatype source tag comm : Z) : prog (p2p L) (Z * option MPI_Status) :=
  match fuel with
  | O => spin
  | S fuel' =>
      x ← recv_begin buf count datatype source tag comm;
      match x with
      | Served s => mret (MPI_SUCCESS, Some s)
      | SlotClosed => recv_loop fuel' buf count datatype source tag comm
      | EnterRecv realType realComm =>
          '(retval, s) ← call_lib (lh_Recv buf count realType source tag realComm);
          dummy ← recv_end source;
          if (dummy : bool) then recv_loop fuel' buf count datatype source tag comm
          else mret (retval, Some s)
      end
  end.
Definition PMPI_Recv (buf count datatype source tag comm : Z) : prog (p2p L) (Z * option MPI_Status) :=
  wait ← gets g_p2p_wait;
  if bool_decide (wait = P2P_WAIT_POLLING) then recv_by_polling buf count datatype source tag comm
  else if source =? MPI_PROC_NULL then
    realComm ← on_table (get_real_id comm);
    realType ← on_table (get_real_id datatype);
    '(retval, s) ← call_lib (lh_Recv buf count realType source tag realComm);
    mret (retval, Some s)
  else recv_loop polls buf count datatype source tag comm.

Definition MPI_Iprobe_internal (source tag comm : Z) : prog (p2p L) (Z * bool * MPI_Status) :=
  realComm ← on_table (get_real_id comm);
  call_lib (lh_Iprobe source tag realComm).

Definition PMPI_Iprobe (source tag comm : Z) : prog (p2p L) (Z * bool * MPI_Status) :=
  found ← existsMatchingMsgBuffer source tag comm;
  match found with
  | Some s => mret (MPI_SUCCESS, true, s)
  | None => MPI_Iprobe_internal source tag comm
  end.

Fixpoint probe_loop (fuel : nat) (source tag comm : Z) : prog (p2p L) (Z * MPI_Status) :=
  match fuel with
  | O => spin
  | S fuel' =>
      '(retval, flag, s) ← PMPI_Iprobe source tag comm;
      if (flag : bool) then mret (retval, s) else probe_loop fuel' source tag comm
  end.
Definition PMPI_Probe (source tag comm : Z) : prog (p2p L) (Z * MPI_Status) := probe_loop polls source tag comm.

(** Results: the return code and the receive's status. *)
Definition PMPI_Sendrecv (sendbuf sendcount sendtype dest sendtag recvbuf recvcount recvtype source recvtag comm : Z)
  : prog (p2p L) (Z * option MPI_Status) :=
  '(retval, r0) ← MPI_Isend_internal sendbuf sendcount sendtype dest sendtag comm false;
  if negb (retval =? MPI_SUCCESS) then mret (retval, None) else
  '(retval, r1) ← MPI_Irecv_internal recvbuf recvcount recvtype source recvtag comm;
  if negb (retval =? MPI_SUCCESS) then mret (retval, None) else
  '(retval, _, ss) ← PMPI_Waitall [r0; r1];
  mret (retval, default None (ss !! 1%nat)).

(** [tmpbuf] is the new buffer.  Results: the return code, the receive's status, and
    the number of bytes that are copied from [tmpbuf] to [buf]. *)
Definition PMPI_Sendrecv_replace (tmpbuf buf count datatype dest sendtag source recvtag comm : Z)
  : prog (p2p L) (Z * option MPI_Status * option Z) :=
  size ← recv_size datatype count;
  '(retval, r0) ← MPI_Irecv_internal tmpbuf count datatype source recvtag comm;
  if negb (retval =? MPI_SUCCESS) then mret (retval, None, None) else
  '(retval, r1) ← MPI_Isend_internal buf count datatype dest sendtag comm false;
  if negb (retval =? MPI_SUCCESS) then mret (retval, None, None) else
  '(retval, _, ss) ← PMPI_Waitall [r0; r1];
  mret (retval, default None (ss !! 0%nat), Some (u64 size)).

End p2p.
