(* ===== verification/P2pDrain.v ===== *)
(** * The drain of point-to-point messages on one process
    ([src/src/p2p_drain.cpp])

    The operations of the checkpoint thread on its own process: completing
    pending requests, receiving messages into MANA's buffer, the acks of
    [MPI_Issend]s, the dummies for blocked [MPI_Recv]s and the replay at
    restart.  Operations that use the coordinator's store run on the pair of
    the process and the store.  Counters of [g_drain_stats] are not
    modelled. *)
From S2P Require Import Prelude Mpi Constants VirtualId PendingLog DatatypeRefs Kvdb P2p.

Section drain.
Context `{MpiLib} `{P2pLib L}.
Context (polls : nat).

(** Both calls test a request until it completes. *)
Fixpoint test_until_done (fuel : nat) (request : Z) : prog (p2p L) MPI_Status :=
  match fuel with
  | O => spin
  | S fuel' =>
      '(_, done, s) ← MPI_Test_internal request false;
      if (done : bool) then mret s else test_until_done fuel' request
  end.

(** [status] is what [MPI_Iprobe] returned. *)
Definition recvMsgIntoInternalBuffer (status : MPI_Status) (comm : Z) : prog (p2p L) Z :=
  let count := status_bytes status in
  realComm ← on_table (get_real_id comm);
  '(retval, buf) ← call_lib (lh_Recv_bytes count (MPI_SOURCE status) (MPI_TAG status) realComm);
  assert_ (retval =? MPI_SUCCESS) ;;
  count_received_message ;;
  modify (λ p, p <| g_message_queue ::= λ q,
    q ++ [mk_message buf count MPI_BYTE count comm status (-1) 0] |>) ;;
  unlockMessageQueue ;;
  mret count.

(** ** Acks of MPI_Issends *)

(** The request of a completed [MPI_Issend] becomes the receive of its ack. *)
Definition awaitSsendAck (request : Z) : prog (p2p L) unit :=
  notices ← gets g_ssend_notices;
  '(_, notice) ← deref (list_find (λ n, sn_request n = request) notices);
  comm ← gets g_ssend_ack_comm;
  realComm ← on_table (get_real_id comm);
  '(retval, realRequest) ← call_lib (lh_Irecv 0 0 MANA_BYTE (sn_receiver notice) (sn_ack_tag notice) realComm);
  assert_ (retval =? MPI_SUCCESS) ;;
  on_table (update_virt_id request realRequest) ;;
  on_table (replacePendingCall request
    (mk_call IRECV_REQUEST 0 0 0 MPI_BYTE comm (sn_receiver notice) (sn_ack_tag notice) 0)).

(** The buffered message with this envelope that [later_sends] messages with
    the same envelope follow: [g_message_queue] is searched from its end. *)
Definition same_envelope (comm source tag : Z) (m : mpi_message_t) : bool :=
  (msg_comm m =? comm) && (MPI_SOURCE (msg_status m) =? source) && (MPI_TAG (msg_status m) =? tag).

Fixpoint find_from_end (comm source tag : Z) (n later_sends : Z) (rq : list mpi_message_t) : option nat :=
  match rq with
  | [] => None
  | m :: rq' =>
      if same_envelope comm source tag m then
        if n =? later_sends then Some O else S <$> find_from_end comm source tag (n + 1) later_sends rq'
      else S <$> find_from_end comm source tag n later_sends rq'
  end.

Definition markSsendAck (comm source tag later_sends sender acktag : Z) : prog (p2p L) bool :=
  q ← gets g_message_queue;
  match find_from_end comm source tag 0 later_sends (reverse q) with
  | None => unlockMessageQueue ;; mret false
  | Some k =>
      let i := (length q - 1 - k)%nat in
      found ← deref (q !! i);
      assert_ (ack_to found =? -1) ;;
      modify (λ p, p <| g_message_queue := <[i := found <| ack_to := sender |> <| ack_tag := acktag |>]> q |>) ;;
      unlockMessageQueue ;;
      mret true
  end.

Definition sendOwedSsendAcks : prog (p2p L) unit :=
  acks ← gets g_owed_acks;
  for_each acks (λ a, sendSsendAck polls (sa_rank a) (sa_tag a)) ;;
  modify (λ p, p <| g_owed_acks := [] |>).

(** ** Pending requests and messages in flight *)

Definition complete_pending (request : Z) : prog (p2p L) unit :=
  o ← on_table (getPendingCall request);
  match o with
  | None => mret ()                (* the application completed it meanwhile *)
  | Some call =>
      '(_, flag, s) ← MPI_Test_internal request false;
      if negb flag then mret () else
      if bool_decide (call_type call = IRECV_REQUEST) then
        (if remote_node call =? MPI_PROC_NULL then mret () else count_received_message) ;;
        on_table (complete_virt_request MANA_REQUEST_NULL request s) ;;
        on_table (clearPendingRequestFromLog request)
      else if bool_decide (call_type call = ISSEND_REQUEST) then awaitSsendAck request
      else
        on_table (update_virt_id request MANA_REQUEST_NULL) ;;
        on_table (clearPendingRequestFromLog request)
  end.
Definition completePendingP2pRequests : prog (p2p L) unit :=
  requests ← on_table pendingRequestsInPostingOrder;
  for_each requests complete_pending.

Definition pendingRecvMatches (comm : Z) (status : MPI_Status) : prog (p2p L) bool :=
  r ← gets g_pending_recv;
  mret (bool_decide (pr_state r = PENDING_RECV_ACTIVE) &&
        (pr_comm r =? comm) &&
        ((pr_source r =? MPI_SOURCE status) || (pr_source r =? MPI_ANY_SOURCE)) &&
        ((pr_tag r =? MPI_TAG status) || (pr_tag r =? MPI_ANY_TAG))).

(** The earliest pending MPI_Irecv that matches the probed message. *)
Definition call_matches (comm : Z) (status : MPI_Status) (call : mpi_nonblocking_call_t) : bool :=
  bool_decide (call_type call = IRECV_REQUEST) && (call_comm call =? comm) &&
  ((call_tag call =? MPI_TAG status) || (call_tag call =? MPI_ANY_TAG)) &&
  ((remote_node call =? MPI_SOURCE status) || (remote_node call =? MPI_ANY_SOURCE)).

Fixpoint first_matching (comm : Z) (status : MPI_Status) (requests : list Z) : prog (p2p L) (option Z) :=
  match requests with
  | [] => mret None
  | req :: rs =>
      o ← on_table (getPendingCall req);
      if (match o with Some call => call_matches comm status call | None => false end)
      then mret (Some req) else first_matching comm status rs
  end.

(** The loop over the messages of one communicator. *)
Fixpoint drain_comm (fuel : nat) (comm : Z) : prog (p2p L) Z :=
  match fuel with
  | O => spin
  | S fuel' =>
      '(retval, flag, status) ← MPI_Iprobe_internal MPI_ANY_SOURCE MPI_ANY_TAG comm;
      assert_ (retval =? MPI_SUCCESS) ;;
      if negb flag then mret 0 else
      requests ← on_table pendingRequestsInPostingOrder;
      matched ← first_matching comm status requests;
      match matched with
      | Some request =>
          s ← test_until_done polls request;
          count_received_message ;;
          on_table (complete_virt_request MANA_REQUEST_NULL request s) ;;
          on_table (clearPendingRequestFromLog request) ;;
          drain_comm fuel' comm
      | None =>
          waiting ← pendingRecvMatches comm status;
          if (waiting : bool) then mret 0 else
          bytes ← recvMsgIntoInternalBuffer status comm;
          rest ← drain_comm fuel' comm;
          mret (bytes + rest)
      end
  end.

(** [is_predefined_id()] and [lookup_virt_id_entry()]. *)
Definition may_probe (comm : Z) : prog (p2p L) bool :=
  if comm =? MPI_COMM_NULL then mret false else
  st ← gets table;
  match is_predefined_id comm (consts st) with
  | Ok predefined _ => mret (predefined || bool_decide (is_Some (lookup_virt_id_entry st comm)))
  | Abort => abort
  | Spin => spin
  end.

Fixpoint drain_comms (comms : list Z) : prog (p2p L) Z :=
  match comms with
  | [] => mret 0
  | comm :: rest =>
      probe ← may_probe comm;
      n ← (if (probe : bool) then drain_comm polls comm else mret 0);
      m ← drain_comms rest;
      mret (n + m)
  end.
Definition drainRemainingP2pMsgs : prog (p2p L) Z :=
  active ← gets active_comms;
  live ← on_table live_virt_comms;
  st ← gets table;
  drain_comms (active ++ filter (.≠ g_world_comm st) live).

Definition completePendingIsends : prog (p2p L) unit :=
  requests ← on_table pendingRequestsInPostingOrder;
  for_each requests (λ request,
    type ← on_table (pendingRequestType request);
    if bool_decide (type ≠ ISEND_REQUEST ∧ type ≠ ISSEND_REQUEST) then mret () else
    test_until_done polls request ;;
    if bool_decide (type = ISSEND_REQUEST) then awaitSsendAck request else
    on_table (update_virt_id request MANA_REQUEST_NULL) ;;
    on_table (clearPendingRequestFromLog request)).

Fixpoint count_isends (requests : list Z) : prog (p2p L) Z :=
  match requests with
  | [] => mret 0
  | request :: rs =>
      type ← on_table (pendingRequestType request);
      n ← count_isends rs;
      mret (if bool_decide (type = ISEND_REQUEST ∨ type = ISSEND_REQUEST) then n + 1 else n)
  end.
Definition countPendingIsends : prog (p2p L) Z :=
  requests ← on_table pendingRequestsInPostingOrder;
  count_isends requests.

(** The dummies whose [MPI_Isend] is not complete: the others are dropped. *)
Fixpoint test_dummies (requests : list Z) : prog (p2p L) (list Z) :=
  match requests with
  | [] => mret []
  | request :: rs =>
      '(retval, flag, _) ← call_lib (lh_Test request);
      assert_ (retval =? MPI_SUCCESS) ;;
      rest ← test_dummies rs;
      mret (if (flag : bool) then rest else request :: rest)
  end.
Definition testDummySends : prog (p2p L) Z :=
  sends ← gets g_dummy_sends;
  rest ← test_dummies sends;
  modify (λ p, p <| g_dummy_sends := rest |>) ;;
  mret (Z.of_nat (length rest)).

(** ** The end of a checkpoint *)

Definition resetDrainCounters : prog (p2p L) unit :=
  modify (λ p, p <| p2p_dummy_phase := false |>
    <| g_pending_recv ::= λ r, r <| pr_state := PENDING_RECV_IDLE |> |>).

(** The drain's first step: an IDLE slot is closed. *)
Definition close_recv_slot : prog (p2p L) unit :=
  modify (λ p, p <| g_pending_recv ::= λ r,
    if bool_decide (pr_state r = PENDING_RECV_IDLE) then r <| pr_state := PENDING_RECV_CLOSED |> else r |>).

Definition replay_call (request : Z) : prog (p2p L) unit :=
  o ← on_table (getPendingCall request);
  match o with
  | None => mret ()
  | Some call =>
      realComm ← on_table (get_real_id (call_comm call));
      realType ← on_table (get_real_id (call_datatype call));
      match call_type call with
      | IRECV_REQUEST =>
          '(_, realRequest) ← call_lib (lh_Irecv (recvbuf call) (call_count call) realType (remote_node call)
                                         (call_tag call) realComm);
          on_table (update_virt_id request realRequest)
      | ISEND_REQUEST | ISSEND_REQUEST => abort
      | UNKNOW_REQUEST => mret ()
      end
  end.
Definition replayMpiP2pOnRestart : prog (p2p L) unit :=
  requests ← on_table pendingRequestsInPostingOrder;
  for_each requests replay_call.

(** ** Notices and dummies in the coordinator's store *)

Section kv.
Context `{Kvdb K} `{!KvdbText K}.

Definition on_p2p {A} (m : prog (p2p L) A) : prog (p2p L * K) A := λ '(p, kv),
  match m p with
  | Ok a p' => Ok a (p', kv)
  | Abort => Abort
  | Spin => Spin
  end.
Definition on_kv {A} (f : K → A * K) : prog (p2p L * K) A := λ '(p, kv),
  let '(a, kv') := f kv in Ok a (p, kv').
Definition kvGet (key : kvdb_key) : prog (p2p L * K) Z := on_kv (λ kv, (default 0 (get64 P2P key kv), kv)).
Definition kvFetchAdd (key : kvdb_key) (v : Z) : prog (p2p L * K) Z := on_kv (request_INCRBY P2P key v).
Definition kvSetString (key : kvdb_key) (v : list Z) : prog (p2p L * K) unit :=
  on_kv (λ kv, ((), set_text P2P key v kv)).
Definition kvGetString (key : kvdb_key) : prog (p2p L * K) (option (list Z)) :=
  on_kv (λ kv, (get_text P2P key kv, kv)).

Definition publish_notice (request : Z) : prog (p2p L * K) unit :=
  o ← on_p2p (on_table (getPendingCall request));
  match o with
  | None => mret ()
  | Some call =>
      if negb (bool_decide (call_type call = ISSEND_REQUEST)) then mret () else
      st ← on_p2p (gets table);
      match get_comm_desc st (call_comm call) with
      | None => on_p2p (on_table (replacePendingCall request (call <| call_type := ISEND_REQUEST |>)))
      | Some desc =>
          dest ← deref (comm_global_ranks desc !! Z.to_nat (remote_node call));
          acktag ← on_p2p (gets next_ack_tag);
          on_p2p (modify (λ p, p <| next_ack_tag := Z.rem (acktag + 1) 32768 |>)) ;;
          slot ← kvFetchAdd (nssends_key dest) 1;
          rank ← on_p2p (gets g_world_rank);
          kvSetString (ssend_key dest slot)
            [comm_gid desc; comm_rank desc; call_tag call; later_sends call; rank; acktag] ;;
          on_p2p (modify (λ p, p <| g_ssend_notices ::= λ l, l ++ [mk_notice request dest acktag] |>))
      end
  end.
Definition publishSsendNotices : prog (p2p L * K) unit :=
  on_p2p (modify (λ p, p <| g_ssend_notices := [] |>)) ;;
  requests ← on_p2p (on_table pendingRequestsInPostingOrder);
  for_each requests publish_notice.

Definition mark_notice (k : Z) : prog (p2p L * K) unit :=
  rank ← on_p2p (gets g_world_rank);
  notice ← kvGetString (ssend_key rank k);
  match notice with
  | Some [comm_gid; source; tag; later_sends; sender; acktag] =>
      comm ← on_p2p (on_table (find_virt_comm comm_gid));
      assert_ (negb (comm =? MPI_COMM_NULL)) ;;
      marked ← on_p2p (markSsendAck comm source tag later_sends sender acktag);
      if (marked : bool) then mret () else
      on_p2p (modify (λ p, p <| g_owed_acks ::= λ l, l ++ [mk_ack sender acktag] |>))
  | _ => abort
  end.
Definition markSsendAcks : prog (p2p L * K) unit :=
  rank ← on_p2p (gets g_world_rank);
  count ← kvGet (nssends_key rank);
  for_each (seqZ 0 count) mark_notice.

(** The sender of the dummy for an [MPI_Recv] from any source: the first
    member whose bit is not set in the bitmap of blocked processes. *)
Fixpoint first_unblocked (kv : K) (members : list Z) (i : Z) : option Z :=
  match members with
  | [] => None
  | rank :: rest =>
      let word := default 0 (get64 P2P (blocked_key (Z.quot rank 64)) kv) in
      if negb (Z.testbit word (Z.rem rank 64)) then Some i else first_unblocked kv rest (i + 1)
  end.

Definition postDummy : prog (p2p L * K) unit :=
  '(p, kv) ← get_state;
  let r := g_pending_recv p in
  desc ← deref (get_comm_desc (table p) (pr_comm r));
  let members := take (Z.to_nat (comm_size desc)) (comm_global_ranks desc) in
  sender ← (if negb (pr_source r =? MPI_ANY_SOURCE) then
              assert_ ((0 <=? pr_source r) && (pr_source r <? comm_size desc)) ;; mret (pr_source r)
            else deref (first_unblocked kv members 0));
  sender_world_rank ← deref (comm_global_ranks desc !! Z.to_nat sender);
  realType ← on_p2p (on_table (get_real_id (pr_datatype r)));
  '(_, type_size) ← on_p2p (call_lib (lh_Type_size realType));
  let bytes := type_size * pr_count r in
  let tag := if pr_tag r =? MPI_ANY_TAG then 0 else pr_tag r in
  slot ← kvFetchAdd (ndummies_key sender_world_rank) 1;
  kvSetString (dummy_key sender_world_rank slot) [comm_gid desc; comm_rank desc; tag; bytes].

(** A dummy: the code sends [bytes] zero bytes from a new buffer, at address 0
    here. *)
Definition send_dummy (nonblocking : bool) (k : Z) : prog (p2p L * K) unit :=
  rank ← on_p2p (gets g_world_rank);
  dummy ← kvGetString (dummy_key rank k);
  match dummy with
  | Some [comm_gid; dest; tag; bytes] =>
      virtComm ← on_p2p (on_table (find_virt_comm comm_gid));
      assert_ (negb (virtComm =? MPI_COMM_NULL)) ;;
      realComm ← on_p2p (on_table (get_real_id virtComm));
      if nonblocking then
        '(ret, request) ← on_p2p (call_lib (lh_Isend false 0 (s32 bytes) MANA_BYTE dest tag realComm));
        assert_ (ret =? MPI_SUCCESS) ;;
        on_p2p (modify (λ p, p <| g_dummy_sends ::= λ l, l ++ [request] |>))
      else
        ret ← on_p2p (call_lib (lh_Send false 0 (s32 bytes) MANA_BYTE dest tag realComm));
        assert_ (ret =? MPI_SUCCESS)
  | _ => abort
  end.
Definition sendPostedDummies (nonblocking : bool) : prog (p2p L * K) unit :=
  rank ← on_p2p (gets g_world_rank);
  count ← kvGet (ndummies_key rank);
  for_each (seqZ 0 count) (send_dummy nonblocking).
End kv.
End drain.
