(* ===== verification/P2pLaws.v ===== *)
(** * What the lower half promises for point-to-point messages

    The state of the lower half is seen as the messages that have arrived and
    that no receive has taken ([mail]), the active requests ([reqs]) and the
    numbers of messages sent and received so far.  The class [P2pLaws] states
    the rules of the MPI standard that the code relies on: messages of one
    sender on one communicator are matched in the order in which they were
    sent, an arriving message goes to a posted receive that matches it, a
    request that is complete is freed by the test that reports it. *)
From S2P Require Import Prelude Mpi P2p.

(** A message in the lower half; [nm_comm] is the lower half's communicator. *)
Record net_msg := mk_net { nm_source : Z; nm_tag : Z; nm_comm : Z; nm_data : list Z }.

(** An active request: a receive that waits for a message or has one, a receive
    from MPI_PROC_NULL, a send, or a request that is not point-to-point. *)
Inductive req_state :=
  | RPosted (source tag comm : Z)
  | RMatched
  | RNull
  | RSend
  | ROther.

Record netview := mk_netview {
  mail : list net_msg;
  reqs : gmap Z req_state;
  net_taken : Z;       (* messages that completed receives delivered *)
  net_sent : Z         (* messages sent *)
}.
#[export] Instance eta_netview : Eta netview := λ v, mk_netview (mail v) (reqs v) (net_taken v) (net_sent v).

Definition env_matches `{MpiLib} (source tag comm : Z) (m : net_msg) : bool :=
  ((nm_source m =? source) || (source =? MPI_ANY_SOURCE)) &&
  ((nm_tag m =? tag) || (tag =? MPI_ANY_TAG)) && (nm_comm m =? comm).

(** [m] is the message of [l] that a receive of this envelope may get: no
    earlier message of the same sender matches. *)
Definition takes `{MpiLib} (source tag comm : Z) (l : list net_msg) (m : net_msg) (l' : list net_msg) : Prop :=
  ∃ a b, l = a ++ m :: b ∧ l' = a ++ b ∧ env_matches source tag comm m = true ∧
    ∀ x, x ∈ a → env_matches source tag comm x = true → nm_source x ≠ nm_source m.

(** While other processes and the network go on: messages arrive, and posted
    receives get them. *)
Definition req_evolves (o o' : option req_state) : Prop :=
  match o with
  | Some (RPosted s t c) => o' = Some (RPosted s t c) ∨ o' = Some RMatched
  | _ => o' = o
  end.
Record evolves (v v' : netview) : Prop := {
  ev_mail : ∃ new, mail v' = mail v ++ new;
  ev_reqs : ∀ r, req_evolves (reqs v !! r) (reqs v' !! r);
  ev_taken : net_taken v' = net_taken v;
  ev_sent : net_sent v' = net_sent v
}.

Definition counts (o : option req_state) : Z :=
  match o with Some (RPosted _ _ _) | Some RMatched => 1 | _ => 0 end.

Definition status_of (m : net_msg) (s : MPI_Status) : Prop :=
  MPI_SOURCE s = nm_source m ∧ MPI_TAG s = nm_tag m ∧ status_bytes s = Z.of_nat (length (nm_data m)).

Class P2pLaws (L : Type) `{!MpiLib, !P2pLib L} (view : L → netview) : Prop := {
  law_any : MPI_ANY_SOURCE ≠ MPI_PROC_NULL;
  law_null l : reqs (view l) !! MANA_REQUEST_NULL = None;
  law_real l m : m ∈ mail (view l) → nm_source m ≠ MPI_ANY_SOURCE ∧ nm_source m ≠ MPI_PROC_NULL ∧ nm_tag m ≠ MPI_ANY_TAG;
  law_unexpected l m r s t c :
    m ∈ mail (view l) → reqs (view l) !! r = Some (RPosted s t c) → env_matches s t c m = false;
  law_iprobe s t c l rc flag st l' :
    lh_Iprobe s t c l = ((rc, flag, st), l') → rc = MPI_SUCCESS ∧ evolves (view l) (view l') ∧
    (flag = true → ∃ m rest, takes s t c (mail (view l')) m rest ∧ status_of m st) ∧
    (flag = false → ∀ m, m ∈ mail (view l) → env_matches s t c m = false);
  law_recv_bytes count s t c l rc data l' :
    lh_Recv_bytes count s t c l = ((rc, data), l') → s ≠ MPI_ANY_SOURCE → t ≠ MPI_ANY_TAG →
    (∃ m, m ∈ mail (view l) ∧ env_matches s t c m = true) →
    rc = MPI_SUCCESS ∧ ∃ v m rest, evolves (view l) v ∧ takes s t c (mail v) m rest ∧
      view l' = v <| mail := rest |> <| net_taken ::= Z.succ |> ∧
      (count = Z.of_nat (length (nm_data m)) → data = nm_data m);
  law_irecv buf count type s t c l rc r l' :
    lh_Irecv buf count type s t c l = ((rc, r), l') →
    if decide (rc = MPI_SUCCESS) then
      ∃ v, evolves (view l) v ∧ reqs v !! r = None ∧ r ≠ MANA_REQUEST_NULL ∧
        if decide (s = MPI_PROC_NULL) then view l' = v <| reqs ::= <[r := RNull]> |>
        else view l' = v <| reqs ::= <[r := RPosted s t c]> |> ∨
          ∃ m rest, takes s t c (mail v) m rest ∧ view l' = v <| mail := rest |> <| reqs ::= <[r := RMatched]> |>
    else evolves (view l) (view l');
  law_isend sync buf count type dest t c l rc r l' :
    lh_Isend sync buf count type dest t c l = ((rc, r), l') →
    if decide (rc = MPI_SUCCESS) then
      ∃ v, evolves (view l) v ∧ reqs v !! r = None ∧ r ≠ MANA_REQUEST_NULL ∧
        view l' = v <| reqs ::= <[r := RSend]> |>
                    <| net_sent ::= λ n, if decide (dest = MPI_PROC_NULL) then n else n + 1 |>
    else evolves (view l) (view l');
  law_test r l rc flag st l' :
    lh_Test r l = ((rc, flag, st), l') → rc = MPI_SUCCESS ∧ ∃ v, evolves (view l) v ∧
      if flag : bool then view l' = v <| reqs ::= delete r |> <| net_taken ::= λ n, n + counts (reqs v !! r) |>
      else view l' = v ∧ is_Some (reqs v !! r) ∧ reqs v !! r ≠ Some RMatched;
  law_send ready buf count type dest t c l rc l' :
    lh_Send ready buf count type dest t c l = (rc, l') →
    if decide (rc = MPI_SUCCESS) then
      ∃ v, evolves (view l) v ∧
        view l' = v <| net_sent ::= λ n, if decide (dest = MPI_PROC_NULL) then n else n + 1 |>
    else evolves (view l) (view l');
  law_recv buf count type s t c l rc st l' :
    lh_Recv buf count type s t c l = ((rc, st), l') →
    if decide (rc = MPI_SUCCESS ∧ s ≠ MPI_PROC_NULL) then
      ∃ v m rest, evolves (view l) v ∧ takes s t c (mail v) m rest ∧ status_of m st ∧
        view l' = v <| mail := rest |> <| net_taken ::= Z.succ |>
    else evolves (view l) (view l');
  law_get_status r l x l' : lh_Request_get_status r l = (x, l') → evolves (view l) (view l');
  law_type_size type l x l' : lh_Type_size type l = (x, l') → evolves (view l) (view l');
  law_unpack inbuf size buf count type c l rc l' :
    lh_Unpack inbuf size buf count type c l = (rc, l') → rc = MPI_SUCCESS ∧ evolves (view l) (view l')
}.

Lemma req_evolves_refl o : req_evolves o o.
Proof. destruct o as [[]|]; cbn; auto. Qed.
Lemma req_evolves_trans o1 o2 o3 : req_evolves o1 o2 → req_evolves o2 o3 → req_evolves o1 o3.
Proof. destruct o1 as [[]|]; cbn; intros E; [destruct E as [->| ->]|subst..]; cbn; try tauto; intros ->; auto. Qed.
Lemma evolves_refl v : evolves v v.
Proof. split; try done; [exists []; by rewrite app_nil_r|]. intros. apply req_evolves_refl. Qed.
Lemma evolves_trans v1 v2 v3 : evolves v1 v2 → evolves v2 v3 → evolves v1 v3.
Proof.
  intros [[n1 M1] R1 T1 S1] [[n2 M2] R2 T2 S2]. split; [|intros r|congruence|congruence].
  - exists (n1 ++ n2). by rewrite M2, M1, app_assoc.
  - by eapply req_evolves_trans.
Qed.
Lemma req_evolves_counts o o' : req_evolves o o' → counts o' = counts o ∧ (is_Some o' ↔ is_Some o).
Proof. destruct o as [[]|]; cbn; intros E; [destruct E as [->| ->]|subst..]; rewrite ?is_Some_alt; naive_solver. Qed.
