(* ===== verification/P2pInv.v ===== *)
(** * The invariant of one process's requests and messages

    [requests_ok hole st v log]: the log holds the pending calls of the table
    [st]; each of them is an active request of the lower half (seen as [v]) with
    the call's envelope; the other live requests of the table deliver no
    message.  It is exempted for the request [hole], whose completion the lower
    half has reported and which the wrapper has not yet retired. *)
From S2P Require Import Prelude Mpi Constants VirtualId PendingLog PendingLogSpec DatatypeRefs DatatypeSpec RequestTable P2p P2pDrain P2pLaws.

Abbreviation call_log := (list (Z * mpi_nonblocking_call_t)).

Section inv.
Context `{MpiLib} `{P2pLib L}.
Implicit Types (log : call_log) (hole : option Z) (st : vid_state) (v : netview).

Definition counted (c : mpi_nonblocking_call_t) : bool :=
  bool_decide (call_type c = IRECV_REQUEST) && negb (remote_node c =? MPI_PROC_NULL).

(** What the lower half holds for a pending call. *)
Definition tracks st (o : option req_state) (c : mpi_nonblocking_call_t) : Prop :=
  match o with
  | Some (RPosted s t rc) => counted c = true ∧ s = remote_node c ∧ t = call_tag c ∧ real_of st (call_comm c) = Some rc
  | Some RMatched => counted c = true
  | Some RNull | Some RSend | Some ROther => counted c = false
  | None => False
  end.

Definition is_request (h : Z) : Prop := _handle h = h ∧ kind_of h = MANA_REQUEST_KIND.
Definition live_request st (h : Z) : Prop := is_request h ∧ is_Some (info st h).
(** A handle whose real handle no request changes. *)
Definition apart (h : Z) : Prop :=
  kind_of (_handle h) ≠ MANA_REQUEST_KIND ∧ kind_of (_handle h) ≠ MANA_DATATYPE_KIND.

Record requests_ok hole st v log : Prop := {
  ro_tables : tables st log;
  ro_null : reqs v !! MANA_REQUEST_NULL = None;
  ro_kind rq : rq ∈ log.*1 → is_request rq;
  ro_comm rq c : (rq, c) ∈ log → apart (call_comm c);
  ro_log rq c : (rq, c) ∈ log → hole ≠ Some rq →
    ∃ r s, info st rq = Some (r, false, s) ∧ tracks st (reqs v !! r) c;
  ro_out h r b s : is_request h → info st h = Some (r, b, s) → h ∉ log.*1 → hole ≠ Some h →
    counts (reqs v !! r) = 0;
  ro_real h r b s : is_request h → info st h = Some (r, b, s) → hole ≠ Some h →
    r = MANA_REQUEST_NULL ∨ is_Some (reqs v !! r);
  ro_inj h1 h2 r b1 s1 b2 s2 : is_request h1 → is_request h2 →
    info st h1 = Some (r, b1, s1) → info st h2 = Some (r, b2, s2) →
    hole ≠ Some h1 → hole ≠ Some h2 → is_Some (reqs v !! r) → h1 = h2
}.

Lemma tracks_counts st o c : tracks st o c → counts o = (if counted c then 1 else 0) ∧ is_Some o.
Proof. destruct o as [[]|]; cbn; try done; [intros (-> & _)|intros ->..]; done. Qed.

Lemma tracks_evolves st o o' c : req_evolves o o' → tracks st o c → tracks st o' c.
Proof. destruct o as [[]|]; cbn; try (by intros ->). intros [->| ->]; [done|]. by intros (? & _). Qed.

Lemma tracks_same st st' o c :
  real_of st' (call_comm c) = real_of st (call_comm c) → tracks st o c → tracks st' o c.
Proof. intros E. destruct o as [[]|]; cbn; [|done..]. by rewrite E. Qed.

(** The real handle of a communicator does not depend on the requests. *)
Lemma others_real st st' h0 h :
  others st st' h0 → is_request h0 → apart h → real_of st' h = real_of st h.
Proof. intros [Hf Ho] [_ Hk] [Ha _]. apply real_of_same, Ho; [done|]. congruence. Qed.

(** The lower half goes on by itself. *)
Lemma ok_evolves hole st v v' log :
  requests_ok hole st v log → evolves v v' → requests_ok hole st v' log.
Proof.
  intros Hi Hev.
  assert (∀ r, counts (reqs v' !! r) = counts (reqs v !! r) ∧
    (is_Some (reqs v' !! r) ↔ is_Some (reqs v !! r))) as Hr.
  { intros r. apply req_evolves_counts, Hev. }
  split; try apply Hi.
  - pose proof (ro_null _ _ _ _ Hi) as Hn. apply eq_None_not_Some. intros Hs%Hr. rewrite Hn in Hs. by destruct Hs.
  - intros rq c Hin Hh. destruct (ro_log _ _ _ _ Hi rq c Hin Hh) as (r & s & Hn & Ht). exists r, s. split; [done|].
    eapply tracks_evolves, Ht. apply Hev.
  - intros h r b s Hq Hn Hl Hh. destruct (Hr r) as [-> _]. by eapply (ro_out _ _ _ _ Hi).
  - intros h r b s Hq Hn Hh. destruct (Hr r) as [_ ->]. by eapply (ro_real _ _ _ _ Hi).
  - intros h1 h2 r b1 s1 b2 s2 Q1 Q2 N1 N2 O1 O2 Ha. apply Hr in Ha. by eapply (ro_inj _ _ _ _ Hi).
Qed.


Lemma ok_weaken hole st v log : requests_ok None st v log → requests_ok hole st v log.
Proof. intros []. split; intros; eauto. Qed.

Lemma ok_reqs hole st v v' log : reqs v' = reqs v → requests_ok hole st v log → requests_ok hole st v' log.
Proof. intros E []. split; rewrite ?E; auto. Qed.

Lemma ok_log_request hole st v log rq c :
  requests_ok hole st v log → (rq, c) ∈ log → live_request st rq.
Proof.
  intros Hi Hin. assert (rq ∈ log.*1) as Hr by (apply list_elem_of_fmap; by exists (rq, c)).
  split; [by eapply ro_kind|]. by apply (tables_nodup _ _ (ro_tables _ _ _ _ Hi)).
Qed.

Lemma ok_lookup hole st v log rq c : requests_ok hole st v log → log_lookup log rq = Some c ↔ (rq, c) ∈ log.
Proof. intros Hi. apply log_lookup_elem. by apply (tables_nodup _ _ (ro_tables _ _ _ _ Hi)). Qed.

Lemma ok_lookup_none hole st v log rq : requests_ok hole st v log → log_lookup log rq = None → rq ∉ log.*1.
Proof.
  intros Hi Hn ((rq' & c) & -> & Hin)%list_elem_of_fmap. apply (ok_lookup _ _ _ _ _ _ Hi) in Hin. cbn in Hn. congruence.
Qed.

Definition delivered log (rq : Z) : Z := if default false (counted <$> log_lookup log rq) then 1 else 0.

(** How many messages the completion of a request delivers. *)
Lemma ok_counts st v log rq r b s :
  requests_ok None st v log → is_request rq → info st rq = Some (r, b, s) →
  counts (reqs v !! r) = delivered log rq.
Proof.
  intros Hi Hq Hn. unfold delivered. destruct (log_lookup log rq) as [c|] eqn:El; cbn.
  - apply (ok_lookup _ _ _ _ _ _ Hi) in El. destruct (ro_log _ _ _ _ Hi rq c El) as (r' & s' & E & Ht); [done|].
    rewrite Hn in E. injection E as -> -> ->. by apply tracks_counts in Ht as [-> _].
  - by eapply (ro_out _ _ _ _ Hi); [..|eapply ok_lookup_none|].
Qed.

(** A request that the lower half completes becomes the hole. *)
Lemma ok_complete st v log rq r b s :
  requests_ok None st v log → is_request rq → info st rq = Some (r, b, s) →
  requests_ok (Some rq) st (v <| reqs ::= delete r |>) log.
Proof.
  intros Hi Hq Hn.
  assert (∀ h r' b' s', is_request h → info st h = Some (r', b', s') → Some rq ≠ Some h → is_Some (reqs v !! r') →
    delete r (reqs v) !! r' = reqs v !! r') as Hsame.
  { intros h r' b' s' Q N O A. apply lookup_delete_ne. intros <-. apply O. f_equal. by eapply (ro_inj _ _ _ _ Hi). }
  split; cbn; try apply Hi.
  - apply lookup_delete_None. right. apply Hi.
  - intros rq' c Hin O. destruct (ro_log _ _ _ _ Hi rq' c Hin) as (r' & s' & N & T); [done|]. exists r', s'.
    split; [done|]. rewrite (Hsame _ _ _ _ (proj1 (ok_log_request _ _ _ _ _ _ Hi Hin)) N O); [done|].
    by apply tracks_counts in T as [_ ?].
  - intros h r' b' s' Q N Hl O. destruct (decide (r' = r)) as [->|Hne]; [by rewrite lookup_delete_eq|].
    rewrite lookup_delete_ne by done. by eapply (ro_out _ _ _ _ Hi).
  - intros h r' b' s' Q N O. destruct (ro_real _ _ _ _ Hi _ _ _ _ Q N) as [->|A]; [done|by left|].
    right. by rewrite (Hsame _ _ _ _ Q N O A).
  - intros h1 h2 r' b1 s1 b2 s2 Q1 Q2 N1 N2 O1 O2 A. apply lookup_delete_is_Some in A as [_ A].
    by eapply (ro_inj _ _ _ _ Hi).
Qed.

(** Changes of the log that keep the calls' envelopes. *)
Lemma ok_same_requests hole st st' v log log' :
  requests_ok hole st v log → tables st' log' → same_requests st st' → log'.*1 = log.*1 →
  (∀ rq c', (rq, c') ∈ log' → ∃ c, (rq, c) ∈ log ∧ call_comm c' = call_comm c ∧
    (∀ o, tracks st o c → tracks st o c')) →
  requests_ok hole st' v log'.
Proof.
  intros Hi Ht Hs E1 Hc. assert (∀ h, info st' h = info st h) as Hn by (intros; by apply same_requests_info).
  assert (∀ h, real_of st' h = real_of st h) as Hr by (intros; by apply real_of_same; [apply Hs|]).
  split; [done|apply Hi|rewrite E1; apply Hi| | |rewrite E1| |].
  - intros rq c' Hin. destruct (Hc _ _ Hin) as (c & Hin0 & -> & _). by eapply ro_comm.
  - intros rq c' Hin O. destruct (Hc _ _ Hin) as (c & Hin0 & Ec & Htr).
    destruct (ro_log _ _ _ _ Hi rq c Hin0 O) as (r & s & N & T). exists r, s. rewrite Hn. split; [done|].
    by eapply tracks_same, Htr.
  - intros h r b s. rewrite Hn. apply Hi.
  - intros h r b s. rewrite Hn. apply Hi.
  - intros h1 h2 r b1 s1 b2 s2. rewrite !Hn. apply Hi.
Qed.

(** The entry of the hole alone changes, and the log loses it: it is free, or
    it names no active request. *)
Lemma ok_close st st' v log rq :
  requests_ok (Some rq) st v log → is_request rq → tables st' (filter (λ x, x.1 ≠ rq) log) →
  fixed_fields st' = fixed_fields st →
  (∀ h, _handle h ≠ rq → kind_of (_handle h) ≠ MANA_DATATYPE_KIND → info st' h = info st h) →
  (∀ r b s, info st' rq = Some (r, b, s) → r = MANA_REQUEST_NULL) →
  requests_ok None st' v (filter (λ x, x.1 ≠ rq) log).
Proof.
  intros Hi Hq Ht Hf Ho Hnull. pose proof (ro_null _ _ _ _ Hi) as Hn0.
  assert (∀ h, is_request h → h ≠ rq → info st' h = info st h) as Hoth.
  { intros h [Hh Hk] Hne. apply Ho; rewrite Hh; [done|]. by rewrite Hk. }
  assert (∀ h, apart h → real_of st' h = real_of st h) as Hreal.
  { intros h [Ha1 Ha2]. apply real_of_same, Ho; [done| |done]. intros E. apply Ha1. rewrite E. apply Hq. }
  assert (∀ rq' c, (rq', c) ∈ filter (λ x : Z * _, x.1 ≠ rq) log → rq' ≠ rq ∧ (rq', c) ∈ log) as Hin.
  { intros rq' c [? ?]%list_elem_of_filter. done. }
  split; [done|done| | | | | |].
  - intros rq' ((r0 & c) & -> & [_ Hl]%Hin)%list_elem_of_fmap. by apply (ok_log_request _ _ _ _ _ _ Hi Hl).
  - intros rq' c [_ Hl]%Hin. by eapply ro_comm.
  - intros rq' c [Hne Hl]%Hin _. destruct (ro_log _ _ _ _ Hi rq' c Hl) as (r & s & N & T); [by intros [= ->]|].
    exists r, s. rewrite Hoth; [|by apply (ok_log_request _ _ _ _ _ _ Hi Hl)|done]. split; [done|].
    eapply tracks_same, T. by eapply Hreal, ro_comm.
  - intros h r b s Q N Hl _. destruct (decide (h = rq)) as [->|Hne].
    { apply Hnull in N as ->. by rewrite Hn0. }
    rewrite Hoth in N by done. eapply (ro_out _ _ _ _ Hi); [done|done| |by intros [= ->]].
    intros ((r0 & c) & -> & Hl')%list_elem_of_fmap. apply Hl, list_elem_of_fmap. exists (r0, c). split; [done|].
    by apply list_elem_of_filter.
  - intros h r b s Q N _. destruct (decide (h = rq)) as [->|Hne]; [left; by eapply Hnull|].
    rewrite Hoth in N by done. eapply (ro_real _ _ _ _ Hi); [done|done|by intros [= ->]].
  - intros h1 h2 r b1 s1 b2 s2 Q1 Q2 N1 N2 _ _ A.
    destruct (decide (h1 = rq)) as [->|H1]; [apply Hnull in N1 as ->; rewrite Hn0 in A; by destruct A|].
    destruct (decide (h2 = rq)) as [->|H2]; [apply Hnull in N2 as ->; rewrite Hn0 in A; by destruct A|].
    rewrite !Hoth in * by done. eapply (ro_inj _ _ _ _ Hi); try done; by intros [= ->].
Qed.

(** A new handle is a hole until it names a request. *)
Lemma ok_new st st' v log h real :
  requests_ok None st v log → virt_id_next_seq st + 1 < 2 ^ 64 → new_virt_request real st = Ok h st' →
  requests_ok (Some h) st' v log ∧ live_request st' h ∧ (h ∉ log.*1) ∧ info st h = None ∧ others st st' h ∧
  (∃ s, info st' h = Some (real, false, s)) ∧ virt_id_next_seq st' = virt_id_next_seq st + 1.
Proof.
  intros Hi Hb Hrun. destruct (tables_new st log real h st' (ro_tables _ _ _ _ Hi) Hb Hrun)
    as (Ht & Hh & Hk & Hnl & Hnone & Hinfo & Ho & Hseq).
  assert (is_request h) as Hq by done.
  split; [|destruct Hinfo as [s0 E]; split; [split; [done|by eexists]|split; [done|split; [done|split; [done|split; [by exists s0|done]]]]]].
  assert (∀ x, is_request x → x ≠ h → info st' x = info st x) as Hoth.
  { intros x [Hx _] Hne. apply Ho. by rewrite Hx. }
  split; [done|apply Hi|apply Hi|apply Hi| | | |].
  - intros rq c Hin _. assert (rq ≠ h) as Hne by (intros ->; apply Hnl, list_elem_of_fmap; by exists (h, c)).
    destruct (ro_log _ _ _ _ Hi rq c Hin) as (r & s & N & T); [done|]. exists r, s.
    rewrite Hoth by (done || by apply (ok_log_request _ _ _ _ _ _ Hi Hin)). split; [done|].
    eapply tracks_same, T. eapply others_real; [done|done|]. by eapply ro_comm.
  - intros x r b s Q N Hl O. rewrite Hoth in N by (done || by intros ->). by eapply (ro_out _ _ _ _ Hi).
  - intros x r b s Q N O. rewrite Hoth in N by (done || by intros ->). by eapply (ro_real _ _ _ _ Hi).
  - intros h1 h2 r b1 s1 b2 s2 Q1 Q2 N1 N2 O1 O2 A. rewrite Hoth in N1, N2 by (done || by intros ->).
    by eapply (ro_inj _ _ _ _ Hi).
Qed.

(** The hole gets a new active request of the lower half and a pending call. *)
Lemma ok_fill st st' v log log' rq r q s c :
  requests_ok (Some rq) st v log → is_request rq → tables st' log' → others st st' rq →
  info st' rq = Some (r, false, s) → reqs v !! r = None → r ≠ MANA_REQUEST_NULL →
  (∀ x, x ∈ log' ↔ (x ∈ log ∧ x.1 ≠ rq) ∨ x = (rq, c)) → apart (call_comm c) → tracks st' (Some q) c →
  requests_ok None st' (v <| reqs ::= <[r := q]> |>) log'.
Proof.
  intros Hi Hq Ht Ho Hn Hfresh Hnn Hlog Hap Htr.
  assert (∀ x, is_request x → x ≠ rq → info st' x = info st x) as Hoth.
  { intros x [Hx _] Hne. apply Ho. by rewrite Hx. }
  assert (∀ x r' b' s', is_request x → x ≠ rq → info st' x = Some (r', b', s') → r' ≠ r) as Hr.
  { intros x r' b' s' Q Hne N ->. rewrite Hoth in N by done.
    destruct (ro_real _ _ _ _ Hi _ _ _ _ Q N) as [->|A]; [by intros [= ->]|done|]. rewrite Hfresh in A. by destruct A. }
  split; cbn; [done| | | | | | |].
  - rewrite lookup_insert_ne by done. apply Hi.
  - intros x ((y & c') & -> & [[Hin _]| [= -> ->]]%Hlog)%list_elem_of_fmap; [|done].
    by apply (ok_log_request _ _ _ _ _ _ Hi Hin).
  - intros x c' [[Hin _]| [= -> ->]]%Hlog; [by eapply ro_comm|done].
  - intros x c' [[Hin Hne]| [= -> ->]]%Hlog _.
    + cbn in Hne. pose proof (proj1 (ok_log_request _ _ _ _ _ _ Hi Hin)) as Q.
      destruct (ro_log _ _ _ _ Hi x c' Hin) as (r' & s' & N & T); [by intros [= ->]|].
      exists r', s'. rewrite <- Hoth in N by done. split; [done|]. rewrite lookup_insert_ne by (symmetry; by eapply Hr).
      eapply tracks_same, T. eapply others_real; [done|done|]. by eapply ro_comm.
    + exists r, s. by rewrite lookup_insert_eq.
  - intros x r' b' s' Q N Hl _. assert (x ≠ rq) as Hne.
    { intros ->. apply Hl, list_elem_of_fmap. exists (rq, c). split; [done|]. apply Hlog. by right. }
    rewrite lookup_insert_ne by (symmetry; by eapply Hr). rewrite Hoth in N by done.
    eapply (ro_out _ _ _ _ Hi); [done|done| |by intros [= ->]].
    intros ((y & c') & -> & Hin)%list_elem_of_fmap. apply Hl, list_elem_of_fmap. exists (y, c'). split; [done|].
    apply Hlog. by left.
  - intros x r' b' s' Q N _. destruct (decide (x = rq)) as [->|Hne].
    { rewrite Hn in N. injection N as <- _ _. right. by rewrite lookup_insert_eq. }
    rewrite lookup_insert_ne by (symmetry; by eapply Hr). rewrite Hoth in N by done.
    eapply (ro_real _ _ _ _ Hi); [done|done|by intros [= ->]].
  - intros h1 h2 r' b1 s1 b2 s2 Q1 Q2 N1 N2 _ _ A.
    destruct (decide (h1 = rq)) as [->|H1], (decide (h2 = rq)) as [->|H2]; [done| | |].
    + rewrite Hn in N1. injection N1 as <- _ _. by apply Hr in N2.
    + rewrite Hn in N2. injection N2 as <- _ _. by apply Hr in N1.
    + rewrite lookup_insert_ne in A by (symmetry; by eapply Hr). rewrite Hoth in N1, N2 by done.
      eapply (ro_inj _ _ _ _ Hi); try done; by intros [= ->].
Qed.
End inv.
