(* ===== verification/P2pSteps.v ===== *)
(** * The steps of the request wrappers and of the drain keep the invariant

    What each function does to the requests, the pending calls and the lower
    half, for the theorems on the counters and on the order of messages. *)
From S2P Require Import Prelude Mpi Constants VirtualId PendingLog PendingLogSpec DatatypeRefs DatatypeSpec RequestTable P2p P2pDrain P2pLaws P2pInv.

Section steps.
Context `{MpiLib} `{P2pLib L} (view : L → netview) `{!P2pLaws L view} (polls : nat).
Implicit Types (p : p2p L) (log : call_log) (st : vid_state) (v : netview) (l : L).

Lemma on_table_run {A} (m : prog vid_state A) p a st' :
  m (table p) = Ok a st' → on_table m p = Ok a (p <| table := st' |>).
Proof. intros E. unfold on_table. by rewrite E. Qed.
Lemma on_table_read {A} (m : prog vid_state A) p a :
  m (table p) = Ok a (table p) → on_table m p = Ok a p.
Proof. intros E. unfold on_table. rewrite E. by destruct p. Qed.
Lemma call_lib_run {A} (f : L → A * L) p a l' : f (lib p) = (a, l') → call_lib f p = Ok a (p <| lib := l' |>).
Proof. intros E. unfold call_lib. by rewrite E. Qed.
Lemma set_lib_id p : p <| lib := lib p |> = p.
Proof. by destruct p. Qed.
Lemma set_table_id p : p <| table := table p |> = p.
Proof. by destruct p. Qed.

(** The messages of [log] that a request delivers, after a test of it. *)
Record tested (st : vid_state) log (rq : Z) (l l' : L) (flag : bool) : Prop := {
  te_view : ∃ v r b s, info st rq = Some (r, b, s) ∧ evolves (view l) v ∧ mail (view l') = mail v ∧
    (flag = true → reqs (view l') = delete r (reqs v)) ∧ (reqs v !! r = Some RMatched → flag = true);
  te_ok : requests_ok (if flag then Some rq else None) st (view l') log;
  te_taken : net_taken (view l') = net_taken (view l) + (if flag then delivered log rq else 0);
  te_sent : net_sent (view l') = net_sent (view l)
}.

Lemma lh_test_run st log l rq r b s rc flag s' l' :
  requests_ok None st (view l) log → is_request rq → info st rq = Some (r, b, s) →
  lh_Test r l = ((rc, flag, s'), l') → rc = MPI_SUCCESS ∧ tested st log rq l l' flag.
Proof.
  intros Hi Hq Hn Ht. apply law_test in Ht as [-> (v & Hev & Hv)]. split; [done|].
  pose proof (ok_evolves _ _ _ _ _ Hi Hev) as Hi'. pose proof (ok_counts _ _ _ _ _ _ _ Hi' Hq Hn) as Hc.
  destruct flag.
  - split.
    + exists v, r, b, s. rewrite Hv. done.
    + rewrite Hv. eapply ok_reqs; [|by eapply ok_complete]. done.
    + rewrite Hv. cbn. rewrite Hc. f_equal. apply Hev.
    + rewrite Hv. cbn. apply Hev.
  - destruct Hv as (Hv & A & Hnm). subst v. split; [|done|rewrite Z.add_0_r; apply Hev|apply Hev].
    exists (view l'), r, b, s. split_and!; try done.
Qed.

(** [MPI_Test_internal] of a live virtual request returns. *)
Lemma test_run p log rq :
  requests_ok None (table p) (view (lib p)) log → live_request (table p) rq →
  ∃ flag s l', MPI_Test_internal rq false p = Ok (MPI_SUCCESS, flag, s) (p <| lib := l' |>) ∧
    tested (table p) log rq (lib p) l' flag.
Proof.
  intros Hi [Hq [[[r b] s0] Hn]]. unfold MPI_Test_internal.
  rewrite (prog_bind_ok _ _ _ r p) by (apply on_table_read, real_of_run, (real_of_info _ _ _ Hn)).
  unfold gets at 1. prog_red. cbn [negb andb].
  destruct (decide (r = MANA_REQUEST_NULL)) as [->|Hne].
  - rewrite Z.eqb_refl. destruct (completed_request_status rq (table p)) as [s|] eqn:Es.
    + exists true, s, (lib p). rewrite set_lib_id. split; [done|].
      pose proof (ok_counts _ _ _ _ _ _ _ Hi Hq Hn) as Hc. rewrite (ro_null _ _ _ _ Hi) in Hc.
      split; [|by apply ok_weaken|cbn in Hc; rewrite <- Hc; lia|done].
      exists (view (lib p)), MANA_REQUEST_NULL, b, s0. split_and!; try done; [apply evolves_refl|].
      intros _. symmetry. apply delete_id, Hi.
    + unfold call_lib. destruct (lh_Test MANA_REQUEST_NULL (lib p)) as [[[rc flag] s] l'] eqn:El.
      destruct (lh_test_run _ _ _ _ _ _ _ _ _ _ _ Hi Hq Hn El) as [-> Ht]. by exists flag, s, l'.
  - rewrite (proj2 (Z.eqb_neq _ _) Hne). unfold call_lib.
    destruct (lh_Test r (lib p)) as [[[rc flag] s] l'] eqn:El.
    destruct (lh_test_run _ _ _ _ _ _ _ _ _ _ _ Hi Hq Hn El) as [-> Ht]. by exists flag, s, l'.
Qed.

(** ** Retiring a request *)

Record retired (rq : Z) log v st st' : Prop := {
  rt_ok : requests_ok None st' v (filter (λ x, x.1 ≠ rq) log);
  rt_fixed : fixed_fields st' = fixed_fields st;
  rt_seq : virt_id_next_seq st' = virt_id_next_seq st;
  rt_info h : _handle h ≠ rq → kind_of (_handle h) ≠ MANA_DATATYPE_KIND → info st' h = info st h
}.

Lemma retired_live rq log v st st' h : retired rq log v st st' → h ≠ rq → live_request st h → live_request st' h.
Proof.
  intros Hr Hne [[Hh Hk] Hs]. split; [done|]. rewrite (rt_info _ _ _ _ _ Hr); rewrite ?Hh; [done|done|]. by rewrite Hk.
Qed.

Lemma retired_real rq log v st st' h :
  retired rq log v st st' → is_request rq → apart h → real_of st' h = real_of st h.
Proof.
  intros Hr [_ Hk] [A1 A2]. apply real_of_same; [apply Hr|]. eapply rt_info; [done| |done]. intros E. by rewrite E in A1.
Qed.

(** The pending call is cleared. *)
Lemma clear_run st log rq :
  tables st log → _handle rq = rq →
  ∃ st', clearPendingRequestFromLog rq st = Ok () st' ∧ tables st' (filter (λ x, x.1 ≠ rq) log) ∧ same_requests st st'.
Proof. intros Ht Hh. by apply (tables_log_op st log (LClear rq) Ht). Qed.

Lemma filter_not_pending log rq : rq ∉ (filter (λ x : Z * mpi_nonblocking_call_t, x.1 ≠ rq) log).*1.
Proof. intros ((r & c) & -> & [Hne _]%list_elem_of_filter)%list_elem_of_fmap. done. Qed.

Lemma finish_request_run p log rq v :
  requests_ok (Some rq) (table p) v log → live_request (table p) rq →
  ∃ st', finish_request rq p = Ok () (p <| table := st' |>) ∧ retired rq log v (table p) st'.
Proof.
  intros Hi [Hq [x Hx]]. set (log' := filter (λ x : Z * mpi_nonblocking_call_t, x.1 ≠ rq) log).
  destruct (clear_run (table p) log rq (ro_tables _ _ _ _ Hi) (proj1 Hq)) as (st1 & E1 & T1 & S1).
  destruct (tables_release st1 log' T1) as (st2 & E2 & T2 & F2 & Q2 & I2).
  assert (kind_of rq ≠ MANA_DATATYPE_KIND) as Hk by (destruct Hq as [_ ->]; done).
  assert (info st2 rq = Some x) as Hx2.
  { rewrite I2 by (destruct Hq as [-> _]; done). by rewrite (same_requests_info _ _ _ S1). }
  destruct (tables_free st2 log' rq x T2 (proj1 Hq) Hk Hx2 (filter_not_pending log rq)) as (st3 & E3 & T3 & N3 & O3 & Q3).
  exists st3. split.
  { unfold finish_request. apply on_table_run. rewrite (prog_bind_ok _ _ _ _ _ E1), (prog_bind_ok _ _ _ _ _ E2). done. }
  assert (fixed_fields st3 = fixed_fields (table p)) as Hf.
  { destruct O3 as [-> _]. rewrite F2. apply S1. }
  assert (∀ h, _handle h ≠ rq → kind_of (_handle h) ≠ MANA_DATATYPE_KIND → info st3 h = info (table p) h) as Ho.
  { intros h H1 H2. destruct O3 as [_ ->]; [|done]. rewrite I2 by done. by apply same_requests_info. }
  split; [|done|rewrite Q3, Q2; apply S1|done].
  eapply ok_close; try done. intros r b s. by rewrite N3.
Qed.

(** Both ways in which the drain retires a request: its entry names the null
    request, and the call is cleared. *)
Lemma null_run p log rq v st1 b s :
  requests_ok (Some rq) (table p) v log → is_request rq →
  tables st1 log → info st1 rq = Some (MANA_REQUEST_NULL, b, s) → others (table p) st1 rq →
  virt_id_next_seq st1 = virt_id_next_seq (table p) →
  ∃ st', clearPendingRequestFromLog rq st1 = Ok () st' ∧ retired rq log v (table p) st' ∧
    info st' rq = Some (MANA_REQUEST_NULL, b, s).
Proof.
  intros Hi Hq T1 N1 [F1 O1] Q1.
  destruct (clear_run st1 log rq T1 (proj1 Hq)) as (st2 & E2 & T2 & S2). exists st2.
  assert (∀ h, info st2 h = info st1 h) as Hn by (intros; by apply same_requests_info).
  split; [done|]. split; [|by rewrite Hn].
  assert (fixed_fields st2 = fixed_fields (table p)) as Hf by (rewrite (sr_fixed _ _ S2); done).
  assert (∀ h, _handle h ≠ rq → kind_of (_handle h) ≠ MANA_DATATYPE_KIND → info st2 h = info (table p) h) as Ho.
  { intros h H1 _. rewrite Hn. by apply O1. }
  split; [|done|rewrite (sr_seq _ _ S2); done|done].
  eapply ok_close; try done. intros r b' s'. rewrite Hn, N1. by intros [= <- _ _].
Qed.

Lemma complete_clear_run p log rq v s :
  requests_ok (Some rq) (table p) v log → live_request (table p) rq →
  ∃ st', (on_table (complete_virt_request MANA_REQUEST_NULL rq s) ;; on_table (clearPendingRequestFromLog rq)) p
      = Ok () (p <| table := st' |>) ∧ retired rq log v (table p) st' ∧
    info st' rq = Some (MANA_REQUEST_NULL, true, s).
Proof.
  intros Hi [Hq [x Hx]].
  destruct (tables_complete (table p) log rq x MANA_REQUEST_NULL s (ro_tables _ _ _ _ Hi) (proj1 Hq) Hx)
    as (st1 & E1 & T1 & N1 & O1 & Q1).
  destruct (null_run p log rq v st1 true s Hi Hq T1 N1 O1 Q1) as (st2 & E2 & R & N2). exists st2. split; [|done].
  rewrite (prog_bind_ok _ _ _ _ _ (on_table_run _ _ _ _ E1)). unfold on_table. cbn. by rewrite E2.
Qed.

Lemma update_clear_run p log rq v :
  requests_ok (Some rq) (table p) v log → live_request (table p) rq →
  ∃ st', (on_table (update_virt_id rq MANA_REQUEST_NULL) ;; on_table (clearPendingRequestFromLog rq)) p
      = Ok () (p <| table := st' |>) ∧ retired rq log v (table p) st' ∧ is_Some (info st' rq).
Proof.
  intros Hi [Hq [x Hx]].
  destruct (tables_update_virt_id (table p) log rq x MANA_REQUEST_NULL (ro_tables _ _ _ _ Hi) (proj1 Hq) Hx)
    as (st1 & E1 & T1 & N1 & O1 & Q1).
  destruct (null_run p log rq v st1 x.1.2 x.2 Hi Hq T1 N1 O1 Q1) as (st2 & E2 & R & N2). exists st2.
  split; [|split; [done|by rewrite N2]].
  rewrite (prog_bind_ok _ _ _ _ _ (on_table_run _ _ _ _ E1)). unfold on_table. cbn. by rewrite E2.
Qed.

(** [count_if_irecv]: the message that the request delivered is counted. *)
Lemma count_if_run hole p log rq :
  requests_ok hole (table p) (view (lib p)) log → is_request rq →
  count_if_irecv rq p = Ok () (p <| local_recv_messages ::= λ n, n + delivered log rq |>).
Proof.
  intros Hi [Hh _]. unfold count_if_irecv, is_counted_irecv.
  destruct (tables_reads _ _ (ro_tables _ _ _ _ Hi)) as [_ Hg]. destruct (Hg rq Hh) as [Hg1 _].
  rewrite prog_bind_assoc, (prog_bind_ok _ _ _ _ _ (on_table_read _ _ _ Hg1)).
  unfold delivered. destruct (log_lookup log rq) as [c|]; cbn [default fmap option_fmap option_map mbind].
  - change (bool_decide _ && _) with (counted c). destruct (counted c); [done|].
    prog_red. f_equal. destruct p. cbn. unfold set_field. cbn. f_equal. lia.
  - prog_red. f_equal. destruct p. unfold set_field. cbn. f_equal. lia.
Qed.

(** ** Starting a request *)

Lemma count_send_run hole p log v dest tag comm :
  requests_ok hole (table p) v log →
  ∃ st' log', count_send dest tag comm p
      = Ok () (p <| local_sent_messages ::= λ n, if decide (dest = MPI_PROC_NULL) then n else n + 1 |> <| table := st' |>) ∧
    requests_ok hole st' v log' ∧ same_requests (table p) st'.
Proof.
  intros Hi. unfold count_send. destruct (decide (dest = MPI_PROC_NULL)) as [->|Hne].
  { rewrite Z.eqb_refl. exists (table p), log. split; [|split; [done|apply same_requests_refl]]. by destruct p. }
  rewrite (proj2 (Z.eqb_neq _ _) Hne).
  destruct (tables_log_op (table p) log (LCount comm dest tag) (ro_tables _ _ _ _ Hi) I I) as (st' & E & T & S).
  exists st', (spec_log_op (LCount comm dest tag) log). split; [|split; [|done]].
  - prog_red. unfold on_table. cbn [table set_field]. change (countSendAfterIssends comm dest tag (table p) = Ok () st') in E.
    unfold set_field. cbn. by rewrite E.
  - eapply (ok_same_requests hole (table p) st' v log); [done|exact T|done| |].
    + cbn. rewrite <- list_fmap_compose. by apply list_fmap_ext.
    + cbn. intros rq c' ((rq0 & c) & [= -> ->] & Hin)%list_elem_of_fmap. exists c. split; [done|].
      unfold count_later_send. case_match; [|done]. by split.
Qed.

(** The new virtual request of an active request, with its pending call. *)
Lemma start_pending_run st log v r q req sbuf rbuf cnt type remote tag comm rq st1 :
  requests_ok None st v log → virt_id_next_seq st + 1 < 2 ^ 64 → new_virt_request r st = Ok rq st1 →
  reqs v !! r = None → r ≠ MANA_REQUEST_NULL → req ≠ UNKNOW_REQUEST → apart comm →
  (let c := new_call req sbuf rbuf cnt type remote tag comm in tracks st (Some q) c) →
  ∃ st' log', addPendingRequestToLog req sbuf rbuf cnt type remote tag comm rq st1 = Ok () st' ∧
    requests_ok None st' (v <| reqs ::= <[r := q]> |>) log' ∧ others st st' rq ∧ live_request st' rq ∧ info st rq = None ∧
    virt_id_next_seq st' = virt_id_next_seq st + 1.
Proof.
  intros Hi Hb Hnew Hf Hnn Hreq Hap Htr.
  destruct (ok_new st st1 v log rq r Hi Hb Hnew) as (Hi1 & [Hq Hs] & Hnl & Hnone & [F1 O1] & [s Hn] & Hseq).
  destruct (tables_log_op st1 log (LAdd req sbuf rbuf cnt type remote tag comm rq) (ro_tables _ _ _ _ Hi1))
    as (st2 & E & T & S); [|by apply Hq|].
  { split_and!; [done|apply Hq| |done]. unfold info, entry_of in Hs. destruct (lookup_virt_id_entry st1 rq); [by eexists|].
    cbn in Hs. by apply is_Some_None in Hs. }
  assert (∀ h, info st2 h = info st1 h) as Hsame by (intros; by apply same_requests_info).
  assert (others st st2 rq) as O2.
  { split; [by rewrite (sr_fixed _ _ S)|]. intros h Hh. rewrite Hsame. by apply O1. }
  exists st2, (log ++ [(rq, new_call req sbuf rbuf cnt type remote tag comm)]). split; [done|]. split.
  - eapply (ok_fill st1 st2 v log _ rq r q s (new_call req sbuf rbuf cnt type remote tag comm)); [done|done|done| |by rewrite Hsame|done|done| |exact Hap|].
    + split; [apply S|]. intros; apply Hsame.
    + intros [h c]. rewrite elem_of_snoc. split; [|tauto]. intros [Hin|]; [|by right]. left. split; [done|].
      cbn. intros ->. apply Hnl, list_elem_of_fmap. by exists (rq, c).
    + eapply tracks_same, Htr. eapply others_real; [exact O2|done|exact Hap].
  - split; [done|]. split; [split; [done|by rewrite Hsame, Hn]|]. split; [done|]. rewrite (sr_seq _ _ S). done.
Qed.
(** ** Reads of the log *)

Lemma ok_order hole p v log :
  requests_ok hole (table p) v log → on_table pendingRequestsInPostingOrder p = Ok log.*1 p.
Proof. intros Hi. apply on_table_read. by apply (tables_reads _ _ (ro_tables _ _ _ _ Hi)). Qed.

Lemma ok_call hole p v log rq :
  requests_ok hole (table p) v log → _handle rq = rq → on_table (getPendingCall rq) p = Ok (log_lookup log rq) p.
Proof. intros Hi Hh. apply on_table_read. by apply (tables_reads _ _ (ro_tables _ _ _ _ Hi)). Qed.

Lemma ok_type hole p v log rq :
  requests_ok hole (table p) v log → _handle rq = rq →
  on_table (pendingRequestType rq) p = Ok (default UNKNOW_REQUEST (call_type <$> log_lookup log rq)) p.
Proof. intros Hi Hh. apply on_table_read. by apply (tables_reads _ _ (ro_tables _ _ _ _ Hi)). Qed.

(** The search for the earliest pending receive that matches. *)
Lemma first_matching_run p v log comm status rs :
  requests_ok None (table p) v log → (∀ rq, rq ∈ rs → rq ∈ log.*1) →
  ∃ o, first_matching comm status rs p = Ok o p ∧
    match o with
    | Some rq => ∃ c, (rq, c) ∈ log ∧ call_matches comm status c = true
    | None => ∀ rq c, rq ∈ rs → (rq, c) ∈ log → call_matches comm status c = false
    end.
Proof.
  intros Hi. induction rs as [|rq rs IH]; intros Hin; cbn [first_matching].
  { exists None. split; [done|]. by intros ? ? []%not_elem_of_nil. }
  assert (rq ∈ log.*1) as Hrq by (apply Hin; by left). pose proof (ro_kind _ _ _ _ Hi rq Hrq) as [Hh _].
  rewrite (prog_bind_ok _ _ _ _ _ (ok_call _ _ _ _ _ Hi Hh)).
  apply list_elem_of_fmap in Hrq as ((rq' & c) & E & Hc). cbn in E. subst rq'.
  rewrite (proj2 (ok_lookup _ _ _ _ _ _ Hi) Hc). destruct (call_matches comm status c) eqn:Em.
  { exists (Some rq). split; [done|]. by exists c. }
  destruct IH as (o & E & Ho); [intros; apply Hin; by right|]. exists o. split; [done|].
  destruct o as [rq'|]; [done|]. intros rq' c' [->|Hr]%elem_of_cons Hc'; [|by eapply Ho].
  apply (ok_lookup _ _ _ _ _ _ Hi) in Hc, Hc'. congruence.
Qed.

(** Until it returns, the test of a request only lets the lower half go on. *)
Lemma test_until_done_wlp fuel p log rq :
  requests_ok None (table p) (view (lib p)) log → live_request (table p) rq →
  wlp (test_until_done fuel rq) (λ _ p', ∃ l', p' = p <| lib := l' |> ∧
    requests_ok (Some rq) (table p) (view l') log ∧
    net_taken (view l') = net_taken (view (lib p)) + delivered log rq ∧ net_sent (view l') = net_sent (view (lib p))) p.
Proof.
  revert p. induction fuel as [|fuel IH]; intros p Hi Hl; [done|]. cbn [test_until_done]. apply wlp_bind.
  destruct (test_run p log rq Hi Hl) as (flag & s & l' & E & Ht). unfold wlp at 1. rewrite E. destruct flag.
  - apply wlp_ret. exists l'. split; [done|]. split; [apply (te_ok _ _ _ _ _ _ Ht)|]. split; apply Ht.
  - eapply wlp_mono; [apply IH; [apply (te_ok _ _ _ _ _ _ Ht)|done]|]. cbn.
    intros s2 p2 (l2 & -> & Hi2 & T2 & S2). exists l2. split; [done|]. split; [done|].
    rewrite T2, S2, (te_taken _ _ _ _ _ _ Ht), (te_sent _ _ _ _ _ _ Ht). split; [lia|done].
Qed.

(** The lower half's receive for the hole, whose pending call it becomes. *)
Lemma refill_run st log v r q rq c r0 s0 :
  requests_ok (Some rq) st v log → rq ∈ log.*1 → info st rq = Some (r0, false, s0) →
  reqs v !! r = None → r ≠ MANA_REQUEST_NULL →
  call_type c = IRECV_REQUEST → apart (call_comm c) → tracks st (Some q) c →
  ∃ st1 st2 log', update_virt_id rq r st = Ok () st1 ∧ replacePendingCall rq c st1 = Ok () st2 ∧
    requests_ok None st2 (v <| reqs ::= <[r := q]> |>) log' ∧ others st st2 rq ∧ live_request st2 rq ∧
    virt_id_next_seq st2 = virt_id_next_seq st.
Proof.
  intros Hi Hrq Hx Hf Hnn Hty Hap Htr. pose proof (ro_kind _ _ _ _ Hi rq Hrq) as Hq.
  destruct (tables_update_virt_id st log rq _ r (ro_tables _ _ _ _ Hi) (proj1 Hq) Hx) as (st1 & E1 & T1 & N1 & [F1 O1] & Q1).
  destruct (tables_log_op st1 log (LReplace rq c) T1) as (st2 & E2 & T2 & S2); [|done|].
  { split_and!; try done; [apply Hq|..]; rewrite Hty; done. }
  assert (∀ h, info st2 h = info st1 h) as Hsame by (intros; by apply same_requests_info).
  assert (others st st2 rq) as O2.
  { split; [by rewrite (sr_fixed _ _ S2)|]. intros h Hh. rewrite Hsame. by apply O1. }
  exists st1, st2, (spec_log_op (LReplace rq c) log). split; [done|]. split; [done|].
  assert (info st2 rq = Some (r, false, s0)) as N2 by (by rewrite Hsame).
  split; [|split; [done|split; [split; [done|by rewrite N2]|rewrite (sr_seq _ _ S2); done]]].
  eapply (ok_fill st st2 v log _ rq r q s0 c); try done.
  - cbn. intros [h c']. rewrite list_elem_of_fmap. split.
    + intros ([h' c0] & E & Hin). cbn in E. destruct (decide (h' = rq)) as [->|Hne]; injection E as -> ->; [by right|].
      left. by split.
    + intros [[Hin Hne]|[= -> ->]].
      * exists (h, c'). split; [|done]. cbn in *. by rewrite decide_False.
      * apply list_elem_of_fmap in Hrq as ((h' & c0) & E & Hin). cbn in E. subst h'. exists (rq, c0). split; [|done].
        cbn. by rewrite decide_True.
  - eapply tracks_same, Htr. eapply others_real; [exact O2|done|done].
Qed.
End steps.
