(* ===== verification/P2pCount.v ===== *)
(** * MANA's counters of point-to-point messages are exact

    Every wrapper and every step of the drain keeps the differences between
    MANA's counters and the numbers of messages that the lower half sent and
    delivered. *)
From S2P Require Import Prelude Mpi Constants VirtualId PendingLog PendingLogSpec DatatypeRefs DatatypeSpec RequestTable P2p P2pDrain P2pLaws P2pInv P2pSteps.

Section count.
Context `{MpiLib} `{P2pLib L} (view : L → netview) `{!P2pLaws L view} (polls : nat).
Implicit Types (p : p2p L) (log : call_log) (st : vid_state) (v : netview) (l : L).

Definition inv p : Prop := ∃ log, requests_ok None (table p) (view (lib p)) log.
Definition recv_lead p : Z := local_recv_messages p - net_taken (view (lib p)).
Definition sent_lead p : Z := local_sent_messages p - net_sent (view (lib p)).

(** A step: the invariant is kept, the counters stay exact if [ok], at most [n]
    virtual IDs are new, and the live requests but [dead] stay live. *)
Record good (ok : Prop) (n : Z) (dead : Z → Prop) p p' : Prop := {
  g_inv : inv p';
  g_recv : ok → recv_lead p' = recv_lead p;
  g_sent : ok → sent_lead p' = sent_lead p;
  g_seq : virt_id_next_seq (table p) ≤ virt_id_next_seq (table p') ≤ virt_id_next_seq (table p) + n;
  g_live h : live_request (table p) h → ¬ dead h → live_request (table p') h;
  g_frame : (p2p_dummy_phase p', g_ssend_ack_comm p', g_p2p_wait p', g_owed_acks p') =
            (p2p_dummy_phase p, g_ssend_ack_comm p, g_p2p_wait p, g_owed_acks p)
}.
Definition none (h : Z) : Prop := False.

Lemma good_refl p : inv p → good True 0 none p p.
Proof. intros Hi. split; try done. lia. Qed.

Lemma good_trans ok1 ok2 n1 n2 dead1 dead2 p p1 p2 :
  good ok1 n1 dead1 p p1 → good ok2 n2 dead2 p1 p2 →
  good (ok1 ∧ ok2) (n1 + n2) (λ h, dead1 h ∨ dead2 h) p p2.
Proof.
  intros [I1 R1 S1 Q1 L1 F1] [I2 R2 S2 Q2 L2 F2]. split; [done|..].
  - intros [O1 O2]. by rewrite R2, R1.
  - intros [O1 O2]. by rewrite S2, S1.
  - lia.
  - intros h Hl Hd. apply L2; [apply L1; [done|]|]; tauto.
  - congruence.
Qed.

Lemma good_weaken (ok ok' : Prop) n n' (dead dead' : Z → Prop) p p' :
  good ok n dead p p' → (ok' → ok) → n ≤ n' → (∀ h, dead h → dead' h) → good ok' n' dead' p p'.
Proof. intros [I R S Q L' F] Ho Hn Hd. split; auto; try lia. Qed.

Lemma good_ack_comm ok n dead p p' : good ok n dead p p' → g_ssend_ack_comm p' = g_ssend_ack_comm p.
Proof. intros G. by injection (g_frame _ _ _ _ _ G). Qed.

(** Rules for the calls. *)
Lemma wlp_run {A} (m : prog (p2p L) A) Q p a p' : m p = Ok a p' → Q a p' → wlp m Q p.
Proof. intros E HQ. unfold wlp. by rewrite E. Qed.
Lemma wlp_then {A B} (m : prog (p2p L) A) (f : A → prog (p2p L) B) Q p a p' :
  m p = Ok a p' → wlp (f a) Q p' → wlp (m ≫= f) Q p.
Proof. intros E HQ. apply wlp_bind. by eapply wlp_run. Qed.
Lemma wlp_real h Q p : (∀ r, real_of (table p) h = Some r → Q r p) → wlp (on_table (get_real_id h)) Q p.
Proof.
  intros HQ. unfold wlp, on_table. destruct (get_real_id h (table p)) as [r st'| |] eqn:E; [|done|done].
  assert (real_of (table p) h = Some r) as Hr by (unfold real_of; by rewrite E).
  apply real_of_run in Hr as E2. rewrite E in E2. injection E2 as ->. rewrite set_table_id. auto.
Qed.
Lemma wlp_call {A} (f : L → A * L) Q p :
  (∀ a l', f (lib p) = (a, l') → Q a (p <| lib := l' |>)) → wlp (call_lib f) Q p.
Proof. intros HQ. unfold wlp, call_lib. destruct (f (lib p)) as [a l'] eqn:E. auto. Qed.
Lemma wlp_table {A} (m : prog vid_state A) Q p :
  (∀ a st', m (table p) = Ok a st' → Q a (p <| table := st' |>)) → wlp (on_table m) Q p.
Proof. intros HQ. unfold wlp, on_table. destruct (m (table p)) as [a st'| |] eqn:E; auto. Qed.

(** The lower half goes on, and MANA's counters do not change. *)
Lemma good_evolves p l : inv p → evolves (view (lib p)) (view l) → good True 0 none p (p <| lib := l |>).
Proof.
  intros [log Hi] Hev. split; cbn; try done; [|intros _..|lia].
  - exists log. by eapply ok_evolves.
  - unfold recv_lead. cbn. by rewrite (ev_taken _ _ Hev).
  - unfold sent_lead. cbn. by rewrite (ev_sent _ _ Hev).
Qed.

(** ** Sends *)

Lemma isend_good p buf count type dest tag comm sync :
  inv p → apart comm → virt_id_next_seq (table p) + 1 < 2 ^ 64 →
  wlp (MPI_Isend_internal buf count type dest tag comm sync)
    (λ '(rc, rq) p', good (rc = MPI_SUCCESS) 1 none p p' ∧ (rc = MPI_SUCCESS → live_request (table p') rq ∧ info (table p) rq = None)) p.
Proof.
  intros [log Hi] Hap Hb. unfold MPI_Isend_internal.
  destruct (count_send_run None p log _ dest tag comm Hi) as (st1 & log1 & E1 & Hi1 & S1).
  eapply wlp_then; [exact E1|]. apply wlp_bind, wlp_real. intros rcomm Hrc. apply wlp_bind, wlp_real. intros rtype Hrt.
  apply wlp_bind, wlp_call. intros [rc r] l' Hs. apply law_isend in Hs. cbn [lib set_field] in Hs.
  change (lib _) with (lib p) in Hs.
  assert (∀ h, info st1 h = info (table p) h) as Hn1 by (intros; by apply same_requests_info).
  destruct (decide (rc = MPI_SUCCESS)) as [->|Hne].
  - destruct Hs as (v & Hev & Hf & Hnn & Hv). rewrite Z.eqb_refl.
    apply wlp_bind, wlp_table. intros rq st2 Hnew. cbn [table set_field] in Hnew.
    set (c := new_call (if sync && negb (dest =? MPI_PROC_NULL) then ISSEND_REQUEST else ISEND_REQUEST)
      buf 0 count type dest tag comm).
    destruct (start_pending_run st1 log1 v r RSend (if sync && negb (dest =? MPI_PROC_NULL) then ISSEND_REQUEST else ISEND_REQUEST)
      buf 0 count type dest tag comm rq st2) as (st3 & log3 & E3 & Hi3 & [F3 O3] & Hlive & Hnone & Q3); try done.
    { by eapply ok_evolves. }
    { rewrite (sr_seq _ _ S1). done. }
    { by destruct (sync && _). }
    { cbn. unfold counted. cbn. by destruct (sync && _). }
    eapply wlp_then; [apply on_table_run; exact E3|]. apply wlp_ret. split; [|split; [done|by rewrite <- Hn1]].
    split; cbn.
    + exists log3. cbn. rewrite Hv. eapply ok_reqs, Hi3. done.
    + intros _. unfold recv_lead. cbn. rewrite Hv. cbn. rewrite (ev_taken _ _ Hev). done.
    + intros _. unfold sent_lead. cbn. rewrite Hv. cbn. rewrite (ev_sent _ _ Hev). case_decide; lia.
    + rewrite Q3, (sr_seq _ _ S1). lia.
    + intros h [Hq Hx] _. split; [done|]. destruct (decide (h = rq)) as [->|Hne]; [by apply Hlive|].
      rewrite O3, Hn1; [done|]. destruct Hq as [-> _]. done.
    + done.
  - rewrite (proj2 (Z.eqb_neq _ _) Hne). apply wlp_ret. split; [|done]. split; cbn; try done.
    + exists log1. cbn. by eapply ok_evolves.
    + rewrite (sr_seq _ _ S1). lia.
    + intros h [Hq Hx] _. split; [done|]. by rewrite Hn1.
Qed.

(** ** Completions *)

(** The lower half has reported the completion of [rq]: the wrapper counts its
    message and frees the request. *)
Lemma retire_good p log rq l' :
  live_request (table p) rq → tested view (table p) log rq (lib p) l' true →
  ∃ p', (count_if_irecv rq ;; finish_request rq) (p <| lib := l' |>) = Ok () p' ∧ good True 0 (.= rq) p p'.
Proof.
  intros Hl Ht. pose proof (te_ok _ _ _ _ _ _ _ Ht) as Hi. cbn [te_ok] in Hi.
  set (p1 := p <| lib := l' |>). pose proof (count_if_run view (Some rq) p1 log rq Hi (proj1 Hl)) as E1.
  set (p2 := p1 <| local_recv_messages ::= λ n, n + delivered log rq |>) in E1.
  destruct (finish_request_run p2 log rq (view l') Hi Hl) as (st' & E2 & R).
  exists (p2 <| table := st' |>). split; [by rewrite (prog_bind_ok _ _ _ _ _ E1)|].
  split; cbn; try done.
  - eexists. apply R.
  - intros _. unfold recv_lead. cbn. rewrite (te_taken _ _ _ _ _ _ _ Ht). lia.
  - intros _. unfold sent_lead. cbn. by rewrite (te_sent _ _ _ _ _ _ _ Ht).
  - rewrite (rt_seq _ _ _ _ _ R). cbn. lia.
  - intros h Hh Hne. by eapply retired_live.
Qed.

(** A test that reports that the request is not complete. *)
Lemma untested_good p log rq l' :
  tested view (table p) log rq (lib p) l' false → good True 0 none p (p <| lib := l' |>).
Proof.
  intros Ht. split; cbn; try done; [|intros _..|lia].
  - exists log. apply (te_ok _ _ _ _ _ _ _ Ht).
  - unfold recv_lead. cbn. rewrite (te_taken _ _ _ _ _ _ _ Ht). lia.
  - unfold sent_lead. cbn. by rewrite (te_sent _ _ _ _ _ _ _ Ht).
Qed.

Definition request_arg p (rq : Z) : Prop := rq = MPI_REQUEST_NULL ∨ live_request (table p) rq.

Lemma wait_loop_good fuel rq p :
  inv p → live_request (table p) rq → rq ≠ MPI_REQUEST_NULL →
  wlp (wait_loop fuel rq) (λ '(rc, _) p', rc = MPI_SUCCESS ∧ good True 0 (.= rq) p p') p.
Proof.
  revert p. induction fuel as [|fuel IH]; intros p [log Hi] Hl Hnn; [done|]. cbn [wait_loop].
  destruct (test_run view p log rq Hi Hl) as (flag & s & l' & E & Ht). eapply wlp_then; [exact E|]. cbn beta iota.
  rewrite (proj2 (Z.eqb_neq _ _) Hnn). cbn [negb]. rewrite andb_true_r. destruct flag.
  - destruct (retire_good p log rq l' Hl Ht) as (p' & E2 & G). apply prog_bind_inv in E2 as ([] & p1 & E2 & E3).
    eapply wlp_then; [exact E2|]. eapply wlp_then; [exact E3|]. by apply wlp_ret.
  - pose proof (untested_good p log rq l' Ht) as G. apply wlp_bind, wlp_ret.
    eapply wlp_mono; [apply IH; [apply G|by apply Hl|done]|]. intros [rc s2] p' [-> G2]. split; [done|].
    eapply good_weaken; [eapply good_trans; [exact G|exact G2]|done|lia|]. by intros h [[]|].
Qed.

Lemma wait_good rq p :
  inv p → request_arg p rq →
  wlp (PMPI_Wait polls rq) (λ '(rc, rq', _) p', rc = MPI_SUCCESS ∧ good True 0 (.= rq) p p') p.
Proof.
  intros Hi Ha. unfold PMPI_Wait. destruct (decide (rq = MPI_REQUEST_NULL)) as [->|Hne].
  { rewrite Z.eqb_refl. apply wlp_ret. split; [done|]. eapply good_weaken; [by apply good_refl|done|lia|done]. }
  rewrite (proj2 (Z.eqb_neq _ _) Hne). destruct Ha as [->|Hl]; [done|]. apply wlp_bind.
  eapply wlp_mono; [by apply wait_loop_good|]. intros [rc s] p' G. by apply wlp_ret.
Qed.

Lemma test_good rq p :
  inv p → request_arg p rq →
  wlp (PMPI_Test rq) (λ '(rc, flag, rq', _) p', rc = MPI_SUCCESS ∧ good True 0 (.= rq) p p' ∧
    (rq' = rq ∨ rq' = MPI_REQUEST_NULL)) p.
Proof.
  intros [log Hi] Ha. unfold PMPI_Test. destruct (decide (rq = MPI_REQUEST_NULL)) as [->|Hne].
  { rewrite Z.eqb_refl. apply wlp_ret. split; [done|]. split; [|by left].
    eapply good_weaken; [apply good_refl; by eexists|done|lia|done]. }
  rewrite (proj2 (Z.eqb_neq _ _) Hne). destruct Ha as [->|Hl]; [done|].
  destruct Hl as [Hq [[[r b] s0] Hn]]. assert (live_request (table p) rq) as Hl by (split; [done|by rewrite Hn]).
  eapply wlp_then; [apply on_table_read, real_of_run, (real_of_info _ _ _ Hn)|]. cbn [fst].
  destruct (decide (r = MANA_REQUEST_NULL)) as [->|Hr].
  - rewrite Z.eqb_refl. eapply wlp_then; [done|].
    destruct (finish_request_run p log rq (view (lib p))) as (st' & E & R); [by apply ok_weaken|done|].
    eapply wlp_then; [exact E|]. apply wlp_ret. split; [done|]. split; [|by right].
    split; cbn; try done; [eexists; apply R|rewrite (rt_seq _ _ _ _ _ R); lia|].
    intros h Hh Hnh. by eapply retired_live.
  - rewrite (proj2 (Z.eqb_neq _ _) Hr). apply wlp_bind. unfold MPI_Test_internal. eapply wlp_then; [done|].
    eapply wlp_then; [done|]. cbn [negb andb]. apply wlp_call. intros [[rc flag] s] l' Ht.
    destruct (lh_test_run view _ _ _ _ _ _ _ _ _ _ _ Hi Hq Hn Ht) as [-> Hte]. rewrite Z.eqb_refl. cbn [andb].
    destruct flag.
    + destruct (retire_good p log rq l' Hl Hte) as (p' & E2 & G). apply prog_bind_inv in E2 as ([] & p1 & E2 & E3).
      eapply wlp_then; [exact E2|]. eapply wlp_then; [exact E3|]. apply wlp_ret. split; [done|]. split; [done|by right].
    + apply wlp_bind, wlp_ret, wlp_ret. split; [done|]. split; [|by left].
      eapply good_weaken; [by eapply untested_good|done|lia|done].
Qed.

(** ** Arrays of requests *)

(** Null or live requests, each live one once. *)
Definition request_args p (rs : list Z) : Prop :=
  NoDup (filter (.≠ MPI_REQUEST_NULL) rs) ∧ ∀ rq, rq ∈ rs → request_arg p rq.

Lemma request_args_tail p p1 ok n r rs :
  request_args p (r :: rs) → good ok n (.= r) p p1 → request_args p1 rs.
Proof.
  intros [Hnd Ha] G. assert (NoDup (filter (.≠ MPI_REQUEST_NULL) rs)) as Hnd'.
  { rewrite filter_cons in Hnd. case_decide; [by apply NoDup_cons in Hnd as [_ ?]|done]. }
  split; [done|]. intros rq Hin. destruct (decide (rq = MPI_REQUEST_NULL)) as [->|Hne]; [by left|].
  destruct (Ha rq) as [->|Hl]; [by right|done|]. right. apply (g_live _ _ _ _ _ G); [done|]. intros ->.
  rewrite filter_cons_True in Hnd by done. apply NoDup_cons in Hnd as [Hn _]. apply Hn, list_elem_of_filter. done.
Qed.

Lemma request_args_head p r rs : request_args p (r :: rs) → request_arg p r.
Proof. intros [_ Ha]. apply Ha. by left. Qed.

Lemma good_cons p p1 p2 r rs :
  good True 0 (.= r) p p1 → good True 0 (.∈ rs) p1 p2 → good True 0 (.∈ r :: rs) p p2.
Proof.
  intros G1 G2. eapply good_weaken; [eapply good_trans; [exact G1|exact G2]|done|lia|].
  intros h [->|Hh]; [by left|by right].
Qed.
Lemma good_head p p1 r rs : good True 0 (.= r) p p1 → good True 0 (.∈ r :: rs) p p1.
Proof. intros G. eapply good_weaken; [exact G|done|lia|]. intros h ->. by left. Qed.

Lemma waitall_good rs p :
  inv p → request_args p rs →
  wlp (PMPI_Waitall polls rs) (λ '(rc, _, _) p', rc = MPI_SUCCESS ∧ good True 0 (.∈ rs) p p') p.
Proof.
  revert p. induction rs as [|r rs IH]; intros p Hi Ha; cbn [PMPI_Waitall].
  { apply wlp_ret. split; [done|]. eapply good_weaken; [by apply good_refl|done|lia|done]. }
  apply wlp_bind. eapply wlp_mono; [apply wait_good; [done|by eapply request_args_head]|].
  intros [[rc r'] s] p1 [-> G]. rewrite Z.eqb_refl. cbn [negb]. apply wlp_bind.
  eapply wlp_mono; [apply IH; [apply G|by eapply request_args_tail]|].
  intros [[rc rs'] ss] p2 [-> G2]. apply wlp_ret. split; [done|]. by eapply good_cons.
Qed.

Lemma testall_loop_good rs flag inc p :
  inv p → request_args p rs →
  wlp (testall_loop rs flag inc) (λ '(rc, _, _, _, _) p', rc = MPI_SUCCESS ∧ good True 0 (.∈ rs) p p') p.
Proof.
  revert p flag inc. induction rs as [|r rs IH]; intros p flag inc Hi Ha; cbn [testall_loop].
  { apply wlp_ret. split; [done|]. eapply good_weaken; [by apply good_refl|done|lia|done]. }
  apply wlp_bind. eapply wlp_mono; [apply test_good; [done|by eapply request_args_head]|].
  intros [[[rc f] r'] s] p1 (-> & G & _). rewrite Z.eqb_refl. cbn [negb]. apply wlp_bind.
  eapply wlp_mono; [apply IH; [apply G|by eapply request_args_tail]|].
  intros [[[[rc f'] i'] rs'] ss] p2 [-> G2]. apply wlp_ret. split; [done|]. by eapply good_cons.
Qed.

Lemma testany_loop_good rs i flag s0 p :
  inv p → request_args p rs →
  wlp (testany_loop rs i flag s0) (λ '(rc, _, _, _, _) p', rc = MPI_SUCCESS ∧ good True 0 (.∈ rs) p p') p.
Proof.
  revert p i flag s0. induction rs as [|r rs IH]; intros p i flag s0 Hi Ha; cbn [testany_loop].
  { apply wlp_ret. split; [done|]. eapply good_weaken; [by apply good_refl|done|lia|done]. }
  assert (good True 0 (.= r) p p) as G0 by (eapply good_weaken; [by apply good_refl|done|lia|done]).
  destruct (Z.eqb_spec r MPI_REQUEST_NULL) as [->|Hne].
  - apply wlp_bind. eapply wlp_mono; [apply IH; [done|by eapply request_args_tail]|].
    intros [[[[rc x] f'] rs'] ss] p2 [-> G2]. apply wlp_ret. split; [done|]. by eapply good_cons.
  - apply wlp_bind. eapply wlp_mono; [apply test_good; [done|by eapply request_args_head]|].
    intros [[[rc f] r'] s] p1 (-> & G & _). rewrite Z.eqb_refl. cbn [negb].
    destruct f; [apply wlp_ret; split; [done|]; by apply good_head|].
    apply wlp_bind. eapply wlp_mono; [apply IH; [apply G|by eapply request_args_tail]|].
    intros [[[[rc x] f'] rs'] ss] p2 [-> G2]. apply wlp_ret. split; [done|]. by eapply good_cons.
Qed.

(** One pass of [PMPI_Waitany]: if nothing completed, every request is as
    before. *)
Lemma waitany_pass_good rs i an p :
  inv p → request_args p rs →
  wlp (waitany_pass rs i an) (λ x p', match x with
    | inl (rc, _, _, _) => rc = MPI_SUCCESS ∧ good True 0 (.∈ rs) p p'
    | inr _ => good True 0 none p p' end) p.
Proof.
  revert p i an. induction rs as [|r rs IH]; intros p i an Hi Ha; cbn [waitany_pass].
  { apply wlp_ret. by apply good_refl. }
  destruct (Z.eqb_spec r MPI_REQUEST_NULL) as [->|Hne].
  - assert (good True 0 (.= MPI_REQUEST_NULL) p p) as G0 by (eapply good_weaken; [by apply good_refl|done|lia|done]).
    apply wlp_bind. eapply wlp_mono; [apply IH; [done|by eapply request_args_tail]|].
    intros [[[[rc x] rs'] s]|b] p2 G2; apply wlp_ret; [|done]. destruct G2 as [-> G2]. split; [done|].
    by eapply good_cons.
  - destruct (request_args_head _ _ _ Ha) as [->|Hl]; [done|]. destruct Hi as [log Hi].
    destruct (test_run view p log r Hi Hl) as (flag & s & l' & E & Ht). eapply wlp_then; [exact E|]. cbn beta iota.
    rewrite Z.eqb_refl. cbn [negb]. destruct flag.
    + destruct (retire_good p log r l' Hl Ht) as (p' & E2 & G). apply prog_bind_inv in E2 as ([] & p1 & E2 & E3).
      eapply wlp_then; [exact E2|]. eapply wlp_then; [exact E3|]. apply wlp_ret. split; [done|]. by apply good_head.
    + pose proof (untested_good p log r l' Ht) as G.
      assert (good True 0 (.= r) p (p <| lib := l' |>)) as G1 by (eapply good_weaken; [exact G|done|lia|done]).
      apply wlp_bind. eapply wlp_mono; [apply IH; [apply G|by eapply request_args_tail]|].
      intros [[[[rc x] rs'] s']|b] p2 G2; apply wlp_ret.
      * destruct G2 as [-> G2]. split; [done|]. by eapply good_cons.
      * eapply good_weaken; [eapply good_trans; [exact G|exact G2]|done|lia|]. by intros h [].
Qed.

Lemma waitany_loop_good fuel rs an p :
  inv p → request_args p rs →
  wlp (waitany_loop fuel rs an) (λ '(rc, _, _, _) p', rc = MPI_SUCCESS ∧ good True 0 (.∈ rs) p p') p.
Proof.
  revert p an. induction fuel as [|fuel IH]; intros p an Hi Ha; [done|]. cbn [waitany_loop]. apply wlp_bind.
  eapply wlp_mono; [by apply waitany_pass_good|]. intros [[[[rc x] rs'] s]|b] p1 G.
  - apply wlp_ret. done.
  - destruct b; [apply wlp_ret; split; [done|]; eapply good_weaken; [exact G|done|lia|done]|].
    eapply wlp_mono; [apply IH; [apply G|]|].
    + destruct Ha as [Hnd Ha]. split; [done|]. intros rq Hin. destruct (Ha rq Hin) as [->|Hl]; [by left|].
      right. apply (g_live _ _ _ _ _ G); [done|]. by intros [].
    + intros [[[rc x] rs'] s] p2 [-> G2]. split; [done|].
      eapply good_weaken; [eapply good_trans; [exact G|exact G2]|done|lia|]. by intros h [[]|].
Qed.

(** ** Receives *)

(** Fields that the invariant and the counters do not mention. *)
Lemma good_fields p p' :
  inv p → table p' = table p → lib p' = lib p → local_recv_messages p' = local_recv_messages p →
  local_sent_messages p' = local_sent_messages p →
  (p2p_dummy_phase p', g_ssend_ack_comm p', g_p2p_wait p', g_owed_acks p') =
    (p2p_dummy_phase p, g_ssend_ack_comm p, g_p2p_wait p, g_owed_acks p) → good True 0 none p p'.
Proof.
  intros [log Hi] E1 E2 E3 E4 E5. unfold recv_lead, sent_lead.
  split; unfold recv_lead, sent_lead; rewrite ?E1, ?E2, ?E3, ?E4; try done; [|lia].
  exists log. by rewrite E1, E2.
Qed.

Lemma good_then ok1 ok2 n1 n2 p p1 p2 :
  good ok1 n1 none p p1 → good ok2 n2 none p1 p2 → good (ok1 ∧ ok2) (n1 + n2) none p p2.
Proof. intros G1 G2. eapply good_weaken; [by eapply good_trans|done|lia|]. by intros h [[]|[]]. Qed.

Lemma ssend_ack_good rank tag p :
  inv p → apart (g_ssend_ack_comm p) → virt_id_next_seq (table p) + 1 < 2 ^ 64 →
  wlp (sendSsendAck polls rank tag) (λ _ p', good True 1 none p p') p.
Proof.
  intros Hi Hap Hb. unfold sendSsendAck. eapply wlp_then; [done|]. apply wlp_bind.
  eapply wlp_mono; [by apply isend_good|]. intros [rc rq] p1 [G1 L1]. apply wlp_bind. unfold assert_.
  destruct (Z.eqb_spec rc MPI_SUCCESS) as [->|]; [|done]. apply wlp_ret. destruct (L1 eq_refl) as [Hl1 Hnone].
  apply wlp_bind. eapply wlp_mono; [apply wait_good; [apply G1|by right]|]. intros [[rc rq'] s] p2 [-> G2].
  rewrite Z.eqb_refl. apply wlp_ret. destruct G1 as [I1 R1 S1 Q1 L1' F1], G2 as [I2 R2 S2 Q2 L2 F2].
  split; [done|intros _; by rewrite R2, R1|intros _; by rewrite S2, S1|lia| |congruence].
  intros h Hh _. apply L2; [apply L1'; [done|by intros []]|]. intros ->. destruct Hh as [_ Hs].
  rewrite Hnone in Hs. by apply is_Some_None in Hs.
Qed.

Lemma recv_size_good type count p :
  inv p → wlp (recv_size type count) (λ _ p', good True 0 none p p') p.
Proof.
  intros Hi. unfold recv_size. apply wlp_bind, wlp_real. intros r _. apply wlp_bind, wlp_call.
  intros [rc sz] l' E. apply wlp_ret. apply good_evolves; [done|]. by eapply law_type_size.
Qed.

Lemma exists_good source tag comm p :
  inv p → wlp (existsMatchingMsgBuffer source tag comm) (λ _ p', good True 0 none p p') p.
Proof.
  intros Hi. unfold existsMatchingMsgBuffer. eapply wlp_then; [done|]. case_match; [apply wlp_ret; by apply good_refl|].
  eapply wlp_then; [done|]. eapply wlp_then; [done|]. apply wlp_ret. by apply good_fields.
Qed.

Lemma consume_good buf count type source tag comm size p :
  inv p → apart (g_ssend_ack_comm p) → virt_id_next_seq (table p) + 1 < 2 ^ 64 →
  wlp (consumeMatchingMsgBuffer polls buf count type source tag comm size) (λ _ p', good True 1 none p p') p.
Proof.
  intros Hi Hap Hb. unfold consumeMatchingMsgBuffer. eapply wlp_then; [done|]. apply wlp_bind.
  destruct (find_msg source tag comm (g_message_queue p)) as [[i m]|]; [|exact I]. apply wlp_ret. cbn zeta.
  set (q := g_message_queue p).
  assert (∀ p1, good True 0 none p p1 →
    wlp (modify (λ p, p <| g_message_queue := delete i q |>) ;; unlockMessageQueue ;;
         (if 0 <=? ack_to m then sendSsendAck polls (ack_to m) (ack_tag m) else mret ()) ;; mret (msg_status m))
      (λ _ p', good True 1 none p p') p1) as Hrest.
  { intros p1 G1. eapply wlp_then; [done|]. eapply wlp_then; [done|]. apply wlp_bind.
    match goal with |- wlp _ _ ?x => assert (good True 0 none p1 x) as G2 by (apply good_fields; try done; apply G1) end.
    pose proof (good_then _ _ _ _ _ _ _ G1 G2) as G. clear G1 G2. destruct (0 <=? ack_to m).
    - eapply wlp_mono; [apply ssend_ack_good; [apply G|by rewrite (good_ack_comm _ _ _ _ _ G)|]|].
      + pose proof (g_seq _ _ _ _ _ G). lia.
      + intros [] p3 G3. apply wlp_ret. eapply good_weaken; [by eapply good_then|tauto|lia|done].
    - apply wlp_ret, wlp_ret. eapply good_weaken; [exact G|tauto|lia|done]. }
  apply wlp_bind. destruct (0 <? _).
  - apply wlp_bind, wlp_real. intros rt _. apply wlp_bind, wlp_real. intros rc _. apply wlp_bind, wlp_call.
    intros rcu l' E. apply law_unpack in E as [-> Hev]. unfold assert_. rewrite Z.eqb_refl. apply wlp_ret.
    apply Hrest. by apply good_evolves.
  - apply wlp_ret, Hrest. by apply good_refl.
Qed.

(** The request of a receive that MANA's buffer served. *)
Lemma served_request_good real s p :
  inv p → virt_id_next_seq (table p) + 1 < 2 ^ 64 →
  wlp (virtRequest ← on_table (new_virt_request real);
       on_table (complete_virt_request MANA_REQUEST_NULL virtRequest s) ;; mret (MPI_SUCCESS, virtRequest))
    (λ '(rc, rq) p', good True 1 none p p' ∧ live_request (table p') rq ∧ info (table p) rq = None) p.
Proof.
  intros [log Hi] Hb. apply wlp_bind, wlp_table. intros rq st1 Hnew.
  destruct (ok_new (table p) st1 (view (lib p)) log rq _ Hi Hb Hnew)
    as (Hi1 & [Hq [x Hx]] & Hnl & Hnone & [F1 O1] & _ & Q1).
  destruct (tables_complete st1 log rq x MANA_REQUEST_NULL s (ro_tables _ _ _ _ Hi1) (proj1 Hq) Hx)
    as (st2 & E2 & T2 & N2 & [F2 O2] & Q2).
  assert (filter (λ x : Z * mpi_nonblocking_call_t, x.1 ≠ rq) log = log) as Ef.
  { apply filter_id. intros y Hy E. apply Hnl, list_elem_of_fmap. by exists y. }
  eapply wlp_then; [apply on_table_run; exact E2|]. apply wlp_ret. split; [|split; [split; [done|by cbn; rewrite N2]|done]].
  split; cbn; try done; [|lia|].
  - exists log. cbn. rewrite <- Ef. eapply (ok_close st1 st2); [done|done|by rewrite Ef|done|intros h H1 _; by apply O2|].
    intros r b s0. rewrite N2. by intros [= <- _ _].
  - intros h [[Hh Hk] Hs] _. split; [done|]. destruct (decide (h = rq)) as [->|Hne]; [by rewrite N2|].
    rewrite O2, O1; rewrite ?Hh; done.
Qed.

(** A receive that the lower half accepted is what its pending call says. *)
Lemma irecv_tracks st v v' r c rcomm :
  call_type c = IRECV_REQUEST → real_of st (call_comm c) = Some rcomm →
  (if decide (remote_node c = MPI_PROC_NULL) then v' = v <| reqs ::= <[r := RNull]> |>
   else v' = v <| reqs ::= <[r := RPosted (remote_node c) (call_tag c) rcomm]> |> ∨
     ∃ m rest, takes (remote_node c) (call_tag c) rcomm (mail v) m rest ∧
       v' = v <| mail := rest |> <| reqs ::= <[r := RMatched]> |>) →
  ∃ q, reqs v' = <[r := q]> (reqs v) ∧ net_taken v' = net_taken v ∧ net_sent v' = net_sent v ∧ tracks st (Some q) c.
Proof.
  intros Hty Hrc Hv. assert (counted c = negb (remote_node c =? MPI_PROC_NULL)) as Hcnt.
  { unfold counted. by rewrite Hty. }
  revert Hv. case_decide as Hp; [intros ->|intros [->|(m & rest & _ & ->)]]; eexists; split_and!; try done; cbn;
    rewrite Hcnt; [by rewrite Hp, Z.eqb_refl| |]; by rewrite (proj2 (Z.eqb_neq _ _) Hp).
Qed.

(** The lower half's receive, with its virtual request and pending call. *)
Lemma posted_request_good buf count type rtype source tag comm rcomm p :
  inv p → apart comm → real_of (table p) comm = Some rcomm → virt_id_next_seq (table p) + 1 < 2 ^ 64 →
  wlp ('(retval, request) ← call_lib (lh_Irecv buf count rtype source tag rcomm);
       if retval =? MPI_SUCCESS then
         virt ← on_table (new_virt_request request);
         on_table (addPendingRequestToLog IRECV_REQUEST 0 buf count type source tag comm virt) ;; mret (retval, virt)
       else mret (retval, request))
    (λ '(rc, rq) p', good True 1 none p p' ∧
       (rc = MPI_SUCCESS → live_request (table p') rq ∧ info (table p) rq = None)) p.
Proof.
  intros Hi Hap Hrc Hb. apply wlp_bind, wlp_call.
  intros [rc r] l' E. apply law_irecv in E. destruct (decide (rc = MPI_SUCCESS)) as [->|Hne].
  2:{ rewrite (proj2 (Z.eqb_neq _ _) Hne). apply wlp_ret. split; [|done].
      eapply good_weaken; [apply good_evolves; [done|exact E]|done|lia|done]. }
  rewrite Z.eqb_refl. destruct E as (v & Hev & Hf & Hnn & Hv). destruct Hi as [log Hi].
  apply wlp_bind, wlp_table. intros rq st2 Hnew. cbn [table set_field] in Hnew.
  set (c := new_call IRECV_REQUEST 0 buf count type source tag comm).
  destruct (irecv_tracks (table p) v (view l') r c rcomm eq_refl Hrc Hv) as (q & Hreqs & Ht & Hs & Htr).
  destruct (start_pending_run (table p) log v r q IRECV_REQUEST 0 buf count type source tag comm rq st2)
    as (st3 & log3 & E3 & Hi3 & [F3 O3] & Hlive & Hnone & Q3); try done; [by eapply ok_evolves|].
  eapply wlp_then; [apply on_table_run; exact E3|]. apply wlp_ret. split; [|done].
  split; cbn; try done; [|intros _..|lia|].
  - exists log3. cbn. eapply ok_reqs, Hi3. by rewrite Hreqs.
  - unfold recv_lead. cbn. by rewrite Ht, (ev_taken _ _ Hev).
  - unfold sent_lead. cbn. by rewrite Hs, (ev_sent _ _ Hev).
  - intros h [Hq Hx] _. split; [done|]. destruct (decide (h = rq)) as [->|Hne]; [by apply Hlive|].
    rewrite O3; [done|]. by destruct Hq as [-> _].
Qed.

(** A receive has at most 2 new virtual IDs: its request and an ack's. *)
Lemma irecv_good buf count type source tag comm p :
  inv p → apart comm → apart (g_ssend_ack_comm p) → virt_id_next_seq (table p) + 2 < 2 ^ 64 →
  wlp (MPI_Irecv_internal polls buf count type source tag comm)
    (λ '(rc, rq) p', good True 2 none p p' ∧
       (rc = MPI_SUCCESS → live_request (table p') rq ∧ ∀ h, live_request (table p) h → h ≠ rq)) p.
Proof.
  intros Hi Hap Hack Hb.
  assert (∀ ok n p1 rq, good ok n none p p1 → info (table p1) rq = None → ∀ h, live_request (table p) h → h ≠ rq) as Hnew.
  { intros ok n p1 rq G Hn h Hh ->. destruct (g_live _ _ _ _ _ G rq Hh) as [_ Hs]; [by intros []|].
    rewrite Hn in Hs. by apply is_Some_None in Hs. }
  unfold MPI_Irecv_internal. apply wlp_bind. eapply wlp_mono; [by apply exists_good|].
  intros found p1 G1. pose proof (g_seq _ _ _ _ _ G1) as Q1. destruct found as [s|].
  - apply wlp_bind. eapply wlp_mono; [apply recv_size_good, G1|]. intros size p2 G2.
    pose proof (good_then _ _ _ _ _ _ _ G1 G2) as G. clear G1 G2 Q1. pose proof (g_seq _ _ _ _ _ G) as Q.
    apply wlp_bind. eapply wlp_mono; [apply consume_good; [apply G|by rewrite (good_ack_comm _ _ _ _ _ G)|lia]|].
    intros s' p3 G3. pose proof (good_then _ _ _ _ _ _ _ G G3) as G'. clear G G3 Q.
    pose proof (g_seq _ _ _ _ _ G') as Q.
    eapply wlp_mono; [apply served_request_good; [apply G'|lia]|]. intros [rc rq] p4 (G4 & Hl & Hn).
    split; [eapply good_weaken; [by eapply good_then|tauto|lia|done]|]. intros _. split; [done|]. by eapply Hnew.
  - apply wlp_bind, wlp_real. intros rcomm Hrc. apply wlp_bind, wlp_real. intros rtype _.
    eapply wlp_mono; [apply posted_request_good; [apply G1|done|done|lia]|]. intros [rc rq] p2 [G2 Hl].
    split; [eapply good_weaken; [by eapply good_then|tauto|lia|done]|]. intros [? ?]%Hl. split; [done|]. by eapply Hnew.
Qed.

(** ** The blocking calls *)

(** A request that is waited for right after it was started; [k] is what the
    wrapper returns. *)
Lemma start_wait_good {A} (k : Z → option MPI_Status → A) (m : prog (p2p L) (Z * Z)) (ok : Z → Prop) n p :
  wlp m (λ '(rc, rq) p', good (ok rc) n none p p' ∧
    (rc = MPI_SUCCESS → live_request (table p') rq ∧ ∀ h, live_request (table p) h → h ≠ rq)) p →
  ok MPI_SUCCESS → 0 ≤ n →
  wlp ('(retval, request) ← m;
       if negb (retval =? MPI_SUCCESS) then mret (k retval None) else
       '(retval, _, s) ← PMPI_Wait polls request; mret (k retval s))
    (λ x p', ∃ rc s, x = k rc s ∧ good (ok rc) n none p p') p.
Proof.
  intros Hm Hok Hn. apply wlp_bind. eapply wlp_mono; [exact Hm|]. intros [rc rq] p1 [G1 L1].
  destruct (Z.eqb_spec rc MPI_SUCCESS) as [->|]; cbn [negb]; [|apply wlp_ret; eauto].
  destruct (L1 eq_refl) as [Hl Hne]. apply wlp_bind.
  eapply wlp_mono; [apply wait_good; [apply G1|by right]|]. intros [[rc rq'] s] p2 [-> G2]. apply wlp_ret.
  exists MPI_SUCCESS, s. split; [done|]. destruct G1 as [I1 R1 S1 Q1 L1' F1], G2 as [I2 R2 S2 Q2 L2 F2].
  split; [done|intros; by rewrite R2, R1|intros; by rewrite S2, S1|lia| |congruence].
  intros h Hh _. apply L2; [apply L1'; [done|by intros []]|]. by apply Hne.
Qed.

Lemma isend_good_new p buf count type dest tag comm sync :
  inv p → apart comm → virt_id_next_seq (table p) + 1 < 2 ^ 64 →
  wlp (MPI_Isend_internal buf count type dest tag comm sync)
    (λ '(rc, rq) p', good (rc = MPI_SUCCESS) 1 none p p' ∧
       (rc = MPI_SUCCESS → live_request (table p') rq ∧ ∀ h, live_request (table p) h → h ≠ rq)) p.
Proof.
  intros Hi Ha Hb. eapply wlp_mono; [by apply isend_good|]. intros [rc rq] p' [G Hl]. split; [done|].
  intros [Hx Hn]%Hl. split; [done|]. intros h [_ Hs] ->. rewrite Hn in Hs. by apply is_Some_None in Hs.
Qed.

Lemma start_send_good (sync : bool) buf count type dest tag comm p :
  inv p → apart comm → virt_id_next_seq (table p) + 1 < 2 ^ 64 →
  wlp ('(retval, request) ← MPI_Isend_internal buf count type dest tag comm sync;
       if negb (retval =? MPI_SUCCESS) then mret retval else
       '(retval, _, _) ← PMPI_Wait polls request; mret retval)
    (λ rc p', good (rc = MPI_SUCCESS) 1 none p p') p.
Proof.
  intros Hi Ha Hb. eapply wlp_mono; [eapply (start_wait_good (λ rc _, rc)); [by apply isend_good_new|done|lia]|].
  intros rc p' (rc' & s & -> & G). exact G.
Qed.

Lemma send_blocking_good ready buf count type dest tag comm p :
  inv p → wlp (send_blocking ready buf count type dest tag comm) (λ rc p', good (rc = MPI_SUCCESS) 0 none p p') p.
Proof.
  intros [log Hi]. unfold send_blocking.
  destruct (count_send_run None p log _ dest tag comm Hi) as (st1 & log1 & E1 & Hi1 & S1).
  eapply wlp_then; [exact E1|]. apply wlp_bind, wlp_real. intros rcomm _. apply wlp_bind, wlp_real. intros rtype _.
  apply wlp_call. intros rc l' Hs. apply law_send in Hs. change (lib _) with (lib p) in Hs.
  assert (∀ h, live_request (table p) h → live_request st1 h) as Hlive.
  { intros h [Hq Hx]. split; [done|]. by rewrite (same_requests_info _ _ _ S1). }
  destruct (decide (rc = MPI_SUCCESS)) as [->|Hne].
  - destruct Hs as (v & Hev & Hv). split; cbn; try done; [|intros _..|rewrite (sr_seq _ _ S1); lia|auto].
    + exists log1. cbn. rewrite Hv. apply (ok_reqs _ _ v); [done|]. by eapply ok_evolves.
    + unfold recv_lead. cbn. rewrite Hv. cbn. by rewrite (ev_taken _ _ Hev).
    + unfold sent_lead. cbn. rewrite Hv. cbn. rewrite (ev_sent _ _ Hev). case_decide; lia.
  - split; cbn; try done; [|rewrite (sr_seq _ _ S1); lia|auto]. exists log1. cbn. by eapply ok_evolves.
Qed.

(** [PMPI_Recv]: outside of a checkpoint's dummy phase. *)
Lemma recv_loop_good fuel buf count type source tag comm p :
  inv p → apart (g_ssend_ack_comm p) → p2p_dummy_phase p = false → source ≠ MPI_PROC_NULL →
  virt_id_next_seq (table p) + 1 < 2 ^ 64 →
  wlp (recv_loop polls fuel buf count type source tag comm) (λ '(rc, _) p', good (rc = MPI_SUCCESS) 1 none p p') p.
Proof.
  revert p. induction fuel as [|fuel IH]; intros p Hi Hack Hd Hs Hb; [done|]. cbn [recv_loop]. apply wlp_bind.
  unfold recv_begin. apply wlp_bind. eapply wlp_mono; [by apply exists_good|]. intros found p1 G1.
  pose proof (g_seq _ _ _ _ _ G1) as Q1. pose proof (g_frame _ _ _ _ _ G1) as F1. injection F1 as D1 A1 _ _.
  destruct found as [s|].
  { apply wlp_bind. eapply wlp_mono; [apply recv_size_good, G1|]. intros size p2 G2.
    pose proof (good_then _ _ _ _ _ _ _ G1 G2) as G. pose proof (g_seq _ _ _ _ _ G) as Q.
    apply wlp_bind. eapply wlp_mono; [apply consume_good; [apply G|by rewrite (good_ack_comm _ _ _ _ _ G)|lia]|].
    intros s' p3 G3. apply wlp_ret, wlp_ret. eapply good_weaken; [eapply good_then; [exact G|exact G3]|tauto|lia|done]. }
  eapply wlp_then; [done|]. eapply wlp_then; [done|]. cbn beta.
  set (pp := p1 <| g_pending_recv ::= _ |>). assert (good True 0 none p1 pp) as Gp by (apply good_fields; try done; apply G1).
  case_bool_decide.
  - eapply wlp_then; [done|]. set (pa := pp <| g_pending_recv ::= _ |>).
    assert (good True 0 none p pa) as G.
    { assert (good True 0 none pp pa) as Ga by (apply good_fields; try done; apply Gp).
      eapply good_weaken; [eapply good_then; [exact G1|eapply good_then; [exact Gp|exact Ga]]|tauto|lia|done]. }
    assert (p2p_dummy_phase pa = false) as Da by (unfold pa, pp; cbn; congruence). clearbody pa. clear Gp G1 Q1 D1 A1.
    apply wlp_bind, wlp_real. intros rcomm _. apply wlp_bind, wlp_real. intros rtype _. apply wlp_ret.
    apply wlp_bind, wlp_call. intros [rc s] l' E. apply law_recv in E. unfold recv_end. apply wlp_bind.
    eapply wlp_then; [done|]. change (p2p_dummy_phase (pa <| lib := l' |>)) with (p2p_dummy_phase pa). rewrite Da.
    eapply wlp_then; [done|]. rewrite (proj2 (Z.eqb_neq _ _) Hs). eapply wlp_then; [done|]. apply wlp_ret, wlp_ret.
    match goal with |- good _ _ _ _ ?x => assert (good (rc = MPI_SUCCESS) 0 none pa x) as Gr end; cycle 1.
    { eapply good_weaken; [eapply good_then; [exact G|exact Gr]|tauto|lia|done]. }
    destruct (decide (rc = MPI_SUCCESS)) as [->|Hne].
    + rewrite decide_True in E by done. destruct E as (v & m & rest & Hev & _ & _ & Hv).
      destruct (g_inv _ _ _ _ _ G) as [log Hia].
      split; cbn; try done; [|intros _..|lia].
      * exists log. cbn. rewrite Hv. apply (ok_reqs _ _ v); [done|]. by eapply ok_evolves.
      * unfold recv_lead. cbn. rewrite Hv. cbn. rewrite (ev_taken _ _ Hev). lia.
      * unfold sent_lead. cbn. rewrite Hv. cbn. by rewrite (ev_sent _ _ Hev).
    + rewrite decide_False in E by tauto. destruct (g_inv _ _ _ _ _ G) as [log Hia].
      split; cbn; try done; [|lia]. exists log. cbn. by eapply ok_evolves.
  - apply wlp_ret. pose proof (good_then _ _ _ _ _ _ _ G1 Gp) as G.
    eapply wlp_mono; [apply IH; [apply G|by rewrite (good_ack_comm _ _ _ _ _ G)|unfold pp; cbn; congruence|done|]|].
    { pose proof (g_seq _ _ _ _ _ G). lia. }
    intros [rc s] p2 G2. eapply good_weaken; [eapply good_then; [exact G|exact G2]|tauto|lia|done].
Qed.

(** ** The drain *)

Lemma wlp_assert (b : bool) Q p : (b = true → Q () p) → wlp (assert_ b) Q p.
Proof. intros HQ. destruct b; [by apply HQ|done]. Qed.

Lemma await_ack_good p log rq r0 s0 :
  requests_ok (Some rq) (table p) (view (lib p)) log → rq ∈ log.*1 → info (table p) rq = Some (r0, false, s0) →
  apart (g_ssend_ack_comm p) → wlp (awaitSsendAck rq) (λ _ p', good True 0 none p p') p.
Proof.
  intros Hi Hrq Hx Hap. unfold awaitSsendAck. eapply wlp_then; [done|]. apply wlp_bind.
  destruct (list_find _ _) as [[i nt]|]; [|exact I]. apply wlp_ret. eapply wlp_then; [done|].
  apply wlp_bind, wlp_real. intros rcomm Hrc. apply wlp_bind, wlp_call. intros [rc r] l' E. apply wlp_bind, wlp_assert.
  intros ->%Z.eqb_eq. apply law_irecv in E. rewrite decide_True in E by done. destruct E as (v & Hev & Hf & Hnn & Hv).
  set (c := mk_call IRECV_REQUEST 0 0 0 MPI_BYTE (g_ssend_ack_comm p) (sn_receiver nt) (sn_ack_tag nt) 0).
  destruct (irecv_tracks (table p) v (view l') r c rcomm eq_refl Hrc Hv) as (q & Hreqs & Ht & Hs & Htr).
  destruct (refill_run (table p) log v r q rq c r0 s0) as (st1 & st2 & log2 & E1 & E2 & Hi2 & [F2 O2] & Hl2 & Q2); try done.
  { by eapply ok_evolves. }
  eapply wlp_then; [apply on_table_run; exact E1|]. eapply wlp_run; [apply on_table_run; exact E2|].
  split; cbn; try done; [|intros _..|lia|].
  - exists log2. cbn. eapply ok_reqs, Hi2. by rewrite Hreqs.
  - unfold recv_lead. cbn. by rewrite Ht, (ev_taken _ _ Hev).
  - unfold sent_lead. cbn. by rewrite Hs, (ev_sent _ _ Hev).
  - intros h [Hq Hh] _. split; [done|]. destruct (decide (h = rq)) as [->|Hne]; [by apply Hl2|].
    rewrite O2; [done|]. by destruct Hq as [-> _].
Qed.

(** A request that the drain completes stays live, for the application. *)
Lemma settle_good p l' log rq st' :
  requests_ok (Some rq) (table p) (view l') log →
  net_taken (view l') = net_taken (view (lib p)) + delivered log rq → net_sent (view l') = net_sent (view (lib p)) →
  retired rq log (view l') (table p) st' → is_request rq → is_Some (info st' rq) →
  good True 0 none p (p <| lib := l' |> <| local_recv_messages ::= λ n, n + delivered log rq |> <| table := st' |>).
Proof.
  intros Hi Ht Hs R Hq Hx. split; cbn; try done; [|intros _..|rewrite (rt_seq _ _ _ _ _ R); lia|].
  - eexists. apply R.
  - unfold recv_lead. cbn. lia.
  - unfold sent_lead. cbn. lia.
  - intros h Hh _. destruct (decide (h = rq)) as [->|Hne]; [by split|]. by eapply retired_live.
Qed.

Lemma set_recv_id p n : n = 0 → p <| local_recv_messages ::= λ k, k + n |> = p.
Proof. intros ->. destruct p. unfold set_field. cbn. f_equal. lia. Qed.

Lemma delivered_call hole st v log rq c :
  requests_ok hole st v log → (rq, c) ∈ log → delivered log rq = if counted c then 1 else 0.
Proof. intros Hi Hc. unfold delivered. by rewrite (proj2 (ok_lookup _ _ _ _ _ _ Hi) Hc). Qed.

(** [rq] is complete, and its pending call is [c]. *)
Lemma settle_call_good p l' log rq c s :
  requests_ok (Some rq) (table p) (view l') log → (rq, c) ∈ log → live_request (table p) rq →
  net_taken (view l') = net_taken (view (lib p)) + delivered log rq → net_sent (view l') = net_sent (view (lib p)) →
  (call_type c = IRECV_REQUEST → ∃ p',
    ((if remote_node c =? MPI_PROC_NULL then mret () else count_received_message) ;;
     on_table (complete_virt_request MANA_REQUEST_NULL rq s) ;; on_table (clearPendingRequestFromLog rq))
      (p <| lib := l' |>) = Ok () p' ∧ good True 0 none p p') ∧
  (call_type c ≠ IRECV_REQUEST → ∃ p',
    (on_table (update_virt_id rq MANA_REQUEST_NULL) ;; on_table (clearPendingRequestFromLog rq))
      (p <| lib := l' |>) = Ok () p' ∧ good True 0 none p p').
Proof.
  intros Hi Hc Hl Ht Hs. pose proof (delivered_call _ _ _ _ _ _ Hi Hc) as Hd.
  set (p1 := p <| lib := l' |> <| local_recv_messages ::= λ n, n + delivered log rq |>).
  split; intros Hty.
  - assert ((if remote_node c =? MPI_PROC_NULL then mret () else count_received_message) (p <| lib := l' |>) = Ok () p1) as E1.
    { unfold p1. rewrite Hd. unfold counted. rewrite Hty. cbn [bool_decide decide decide_rel]. rewrite bool_decide_true by done.
      cbn [andb]. destruct (remote_node c =? MPI_PROC_NULL); cbn [negb]; [by rewrite set_recv_id|done]. }
    destruct (complete_clear_run p1 log rq (view l') s Hi Hl) as (st' & E2 & R & N).
    eexists. split; [rewrite (prog_bind_ok _ _ _ _ _ E1); exact E2|]. apply settle_good; [done|done|done|done|apply Hl|by rewrite N].
  - assert (p <| lib := l' |> = p1) as -> by (unfold p1; rewrite set_recv_id; [done|]; rewrite Hd; unfold counted;
      rewrite bool_decide_false by done; done).
    destruct (update_clear_run p1 log rq (view l') Hi Hl) as (st' & E2 & R & N).
    eexists. split; [exact E2|]. apply settle_good; [done|done|done|done|apply Hl|done].
Qed.

Lemma complete_pending_good rq p :
  inv p → apart (g_ssend_ack_comm p) → is_request rq → wlp (complete_pending rq) (λ _ p', good True 0 none p p') p.
Proof.
  intros [log Hi] Hap Hq. unfold complete_pending. eapply wlp_then; [by eapply ok_call; [exact Hi|apply Hq]|].
  destruct (log_lookup log rq) as [c|] eqn:Ec; [|apply wlp_ret, good_refl; by eexists].
  apply (ok_lookup _ _ _ _ _ _ Hi) in Ec. pose proof (ok_log_request _ _ _ _ _ _ Hi Ec) as Hl.
  destruct (ro_log _ _ _ _ Hi rq c Ec) as (r & s0 & Hn & _); [done|].
  destruct (test_run view p log rq Hi Hl) as (flag & s & l' & E & Ht). eapply wlp_then; [exact E|]. cbn beta iota.
  destruct flag; cbn [negb]; [|apply wlp_ret; by eapply untested_good].
  destruct (settle_call_good p l' log rq c s (te_ok _ _ _ _ _ _ _ Ht) Ec Hl (te_taken _ _ _ _ _ _ _ Ht) (te_sent _ _ _ _ _ _ _ Ht))
    as [Hr Hs]. case_bool_decide as H1; [destruct (Hr H1) as (p' & E' & G); by eapply wlp_run|].
  case_bool_decide as H2; [|destruct (Hs H1) as (p' & E' & G); by eapply wlp_run].
  eapply wlp_mono; [eapply await_ack_good; [apply (te_ok _ _ _ _ _ _ _ Ht)| |exact Hn|done]|].
  { apply list_elem_of_fmap. by exists (rq, c). }
  intros [] p' [I R S Q Lv F]. split; try done.
  - intros _. rewrite R by done. unfold recv_lead. cbn. rewrite (te_taken _ _ _ _ _ _ _ Ht), (delivered_call _ _ _ _ _ _ Hi Ec).
    unfold counted. rewrite bool_decide_false by done. cbn. lia.
  - intros _. rewrite S by done. unfold sent_lead. cbn. by rewrite (te_sent _ _ _ _ _ _ _ Ht).
Qed.

(** A loop whose turns are good steps. *)
Lemma for_each_good {A} (l : list A) (f : A → prog (p2p L) unit) p :
  (∀ x p0, x ∈ l → good True 0 none p p0 → wlp (f x) (λ _ p', good True 0 none p0 p') p0) →
  inv p → wlp (for_each l f) (λ _ p', good True 0 none p p') p.
Proof.
  intros Hf Hi. apply wlp_for_each; [by apply good_refl|]. intros x p0 Hx G.
  eapply wlp_mono; [by apply Hf|]. intros [] p' G'. eapply good_weaken; [eapply good_then; [exact G|exact G']|tauto|lia|done].
Qed.

Lemma complete_all_good p :
  inv p → apart (g_ssend_ack_comm p) → wlp completePendingP2pRequests (λ _ p', good True 0 none p p') p.
Proof.
  intros [log Hi] Hap. unfold completePendingP2pRequests. eapply wlp_then; [by eapply ok_order|].
  apply for_each_good; [|by eexists]. intros rq p0 Hrq G. apply complete_pending_good; [apply G| |by eapply ro_kind].
  by rewrite (good_ack_comm _ _ _ _ _ G).
Qed.

(** The message that the probe found is received into the buffer. *)
Lemma buffer_good p m rest comm rcomm status :
  inv p → real_of (table p) comm = Some rcomm → takes MPI_ANY_SOURCE MPI_ANY_TAG rcomm (mail (view (lib p))) m rest →
  status_of m status → wlp (recvMsgIntoInternalBuffer status comm) (λ _ p', good True 0 none p p') p.
Proof.
  intros [log Hi] Hrc (a & b & Em & _ & Hm & _) (Es & Et & _). unfold recvMsgIntoInternalBuffer.
  eapply wlp_then; [by apply on_table_read, real_of_run|]. apply wlp_bind, wlp_call. intros [rc data] l' E.
  assert (m ∈ mail (view (lib p))) as Hin by (rewrite Em; set_solver).
  destruct (law_real _ _ Hin) as (H1 & H2 & H3).
  apply law_recv_bytes in E; [|by rewrite Es|by rewrite Et|].
  2:{ exists m. split; [done|]. unfold env_matches in *. rewrite Es, Et, !Z.eqb_refl. cbn.
      by apply andb_prop in Hm as [_ ->]. }
  destruct E as [-> (v & m' & rest' & Hev & _ & Hv & _)]. apply wlp_bind, wlp_assert. intros _.
  do 3 (eapply wlp_then; [done|]). apply wlp_ret. split; cbn; try done; [|intros _..|lia].
  - exists log. cbn. rewrite Hv. apply (ok_reqs _ _ v); [done|]. by eapply ok_evolves.
  - unfold recv_lead. cbn. rewrite Hv. cbn. rewrite (ev_taken _ _ Hev). lia.
  - unfold sent_lead. cbn. rewrite Hv. cbn. by rewrite (ev_sent _ _ Hev).
Qed.

Lemma call_matches_counted comm status c m l :
  m ∈ mail (view l) → status_of m status → call_matches comm status c = true →
  call_type c = IRECV_REQUEST ∧ counted c = true.
Proof.
  intros Hm (Es & _) Hc. destruct (law_real _ _ Hm) as (_ & Hs & _). unfold call_matches in Hc.
  rewrite !andb_true_iff, bool_decide_eq_true in Hc. destruct Hc as [[[Hty _] _] Hr]. split; [done|].
  unfold counted. rewrite bool_decide_true by done. cbn. apply negb_true_iff, Z.eqb_neq.
  pose proof law_any as Ha. apply orb_true_iff in Hr as [->%Z.eqb_eq| ->%Z.eqb_eq]; [by rewrite Es|done].
Qed.

Lemma drain_comm_good fuel comm p :
  inv p → wlp (drain_comm polls fuel comm) (λ _ p', good True 0 none p p') p.
Proof.
  revert p. induction fuel as [|fuel IH]; intros p Hi; [done|]. cbn [drain_comm]. apply wlp_bind.
  unfold MPI_Iprobe_internal. apply wlp_bind, wlp_real. intros rcomm Hrc. apply wlp_call.
  intros [[rc flag] status] l1 E. apply law_iprobe in E as (-> & Hev & Hf & _). apply wlp_bind, wlp_assert. intros _.
  pose proof (good_evolves p l1 Hi Hev) as G1. set (p1 := p <| lib := l1 |>) in *.
  assert (∀ p2, good True 0 none p1 p2 → good True 0 none p p2) as Hthen.
  { intros p2 G2. eapply good_weaken; [eapply good_then; [exact G1|exact G2]|tauto|lia|done]. }
  destruct flag; cbn [negb]; [|by apply wlp_ret]. destruct (Hf eq_refl) as (m & rest & Htk & Hst).
  destruct (g_inv _ _ _ _ _ G1) as [log Hi1]. eapply wlp_then; [by eapply ok_order|].
  destruct (first_matching_run p1 _ log comm status log.*1 Hi1) as (o & Eo & Ho); [done|].
  eapply wlp_then; [exact Eo|]. destruct o as [rq|].
  - destruct Ho as (c & Hc & Hm). assert (m ∈ mail (view l1)) as Hin.
    { destruct Htk as (a & b & -> & _). set_solver. }
    destruct (call_matches_counted _ _ _ _ _ Hin Hst Hm) as [Hty Hcnt].
    pose proof (ok_log_request _ _ _ _ _ _ Hi1 Hc) as Hl. apply wlp_bind.
    eapply wlp_mono; [by eapply test_until_done_wlp|]. intros s p' (l' & -> & Hi' & Ht & Hs).
    destruct (settle_call_good p1 l' log rq c s Hi' Hc Hl Ht Hs) as [Hr _]. destruct (Hr Hty) as (p2 & E2 & G2).
    assert ((remote_node c =? MPI_PROC_NULL) = false) as Hnp.
    { unfold counted in Hcnt. apply andb_prop in Hcnt as [_ ?]. by apply negb_true_iff. }
    rewrite Hnp in E2. apply prog_bind_inv in E2 as ([] & q1 & E2 & E3). apply prog_bind_inv in E3 as ([] & q2 & E3 & E4).
    eapply wlp_then; [exact E2|]. eapply wlp_then; [exact E3|]. eapply wlp_then; [exact E4|].
    eapply wlp_mono; [apply IH, G2|]. intros n p3 G3. apply Hthen.
    eapply good_weaken; [eapply good_then; [exact G2|exact G3]|tauto|lia|done].
  - eapply wlp_then; [done|]. cbn beta. case_match; [apply wlp_ret; apply Hthen, good_refl; by eexists|].
    apply wlp_bind. eapply wlp_mono; [eapply (buffer_good p1 m rest comm rcomm status); [by eexists|done|done|done]|].
    intros n p2 G2. apply wlp_bind. eapply wlp_mono; [apply IH, G2|]. intros n' p3 G3. apply wlp_ret, Hthen.
    eapply good_weaken; [eapply good_then; [exact G2|exact G3]|tauto|lia|done].
Qed.

Lemma drain_comms_good comms p : inv p → wlp (drain_comms polls comms) (λ _ p', good True 0 none p p') p.
Proof.
  revert p. induction comms as [|comm rest IH]; intros p Hi; cbn [drain_comms]; [apply wlp_ret; by apply good_refl|].
  apply wlp_bind. apply (wlp_mono _ (λ _ p', p' = p)).
  { unfold may_probe. destruct (_ =? _); [by apply wlp_ret|]. eapply wlp_then; [done|].
    destruct (is_predefined_id _ _); [by apply wlp_ret|exact I|exact I]. }
  intros probe p' ->. apply wlp_bind.
  apply (wlp_mono _ (λ _ p', good True 0 none p p')).
  { destruct probe; [by apply drain_comm_good|apply wlp_ret; by apply good_refl]. }
  intros n p1 G1. apply wlp_bind. eapply wlp_mono; [apply IH, G1|]. intros n' p2 G2. apply wlp_ret.
  eapply good_weaken; [eapply good_then; [exact G1|exact G2]|tauto|lia|done].
Qed.

Lemma drain_remaining_good p : inv p → wlp (drainRemainingP2pMsgs polls) (λ _ p', good True 0 none p p') p.
Proof.
  intros Hi. unfold drainRemainingP2pMsgs. eapply wlp_then; [done|]. apply wlp_bind, wlp_table. intros live st' E.
  assert (st' = table p) as ->.
  { revert E. unfold live_virt_comms. prog_red. destruct (scan _); [|done]. by intros [= _ ->]. }
  rewrite set_table_id. eapply wlp_then; [done|]. by apply drain_comms_good.
Qed.

Lemma complete_isends_good p :
  inv p → apart (g_ssend_ack_comm p) → wlp (completePendingIsends polls) (λ _ p', good True 0 none p p') p.
Proof.
  intros [log Hi] Hap. unfold completePendingIsends. eapply wlp_then; [by eapply ok_order|].
  apply for_each_good; [|by eexists]. intros rq p0 Hrq G. pose proof (ro_kind _ _ _ _ Hi rq Hrq) as Hq.
  destruct (g_inv _ _ _ _ _ G) as [log0 Hi0]. eapply wlp_then; [by eapply ok_type; [exact Hi0|apply Hq]|].
  case_bool_decide as Hty; [apply wlp_ret, good_refl, G|].
  destruct (log_lookup log0 rq) as [c|] eqn:Ec; cbn in Hty |- *; [|destruct Hty; done].
  apply (ok_lookup _ _ _ _ _ _ Hi0) in Ec. pose proof (ok_log_request _ _ _ _ _ _ Hi0 Ec) as Hl.
  destruct (ro_log _ _ _ _ Hi0 rq c Ec) as (r & s0 & Hn & _); [done|]. apply wlp_bind.
  eapply wlp_mono; [by eapply test_until_done_wlp|]. intros s p' (l' & -> & Hi' & Ht & Hs).
  assert (call_type c ≠ IRECV_REQUEST) as Hni by (intros E; apply Hty; rewrite E; done).
  case_bool_decide as Hss.
  - eapply wlp_mono; [eapply await_ack_good; [exact Hi'| |exact Hn|by cbn; rewrite (good_ack_comm _ _ _ _ _ G)]|].
    { apply list_elem_of_fmap. by exists (rq, c). }
    intros [] p' [I R S Q Lv F]. split; try done; intros _; [rewrite R by done|rewrite S by done].
    + unfold recv_lead. cbn. rewrite Ht, (delivered_call _ _ _ _ _ _ Hi0 Ec). unfold counted.
      rewrite bool_decide_false by done. cbn. lia.
    + unfold sent_lead. cbn. by rewrite Hs.
  - destruct (settle_call_good p0 l' log0 rq c s Hi' Ec Hl Ht Hs) as [_ Hr]. destruct (Hr Hni) as (p2 & E2 & G2).
    by eapply wlp_run.
Qed.

Lemma owed_acks_good acks p :
  inv p → apart (g_ssend_ack_comm p) → virt_id_next_seq (table p) + Z.of_nat (length acks) < 2 ^ 64 →
  wlp (for_each acks (λ a, sendSsendAck polls (sa_rank a) (sa_tag a)))
    (λ _ p', good True (Z.of_nat (length acks)) none p p') p.
Proof.
  revert p. induction acks as [|a acks IH]; intros p Hi Hap Hb; cbn [for_each]; [apply wlp_ret; by apply good_refl|].
  cbn [length] in Hb. apply wlp_bind. eapply wlp_mono; [apply ssend_ack_good; [done|done|lia]|]. intros [] p1 G1.
  pose proof (g_seq _ _ _ _ _ G1). eapply wlp_mono; [apply IH; [apply G1|by rewrite (good_ack_comm _ _ _ _ _ G1)|lia]|].
  intros [] p2 G2. eapply good_weaken; [eapply good_then; [exact G1|exact G2]|tauto|cbn [length]; lia|done].
Qed.
End count.
