(* ===== verification/P2pSim.v ===== *)
(** * A lower half that satisfies the laws

    One process whose messages come back to it: a send delivers its message at
    once, to a posted receive that matches it or to the mail.  It shows that the
    class [P2pLaws] can be satisfied, and runs the examples. *)
From S2P Require Import Prelude Mpi Constants VirtualId P2p P2pLaws.

#[local] Existing Instance sample_lib.

Definition real_msg (m : net_msg) : bool :=
  negb (nm_source m =? MPI_ANY_SOURCE) && negb (nm_source m =? MPI_PROC_NULL) && negb (nm_tag m =? MPI_ANY_TAG).
Definition posted_for (m : net_msg) (x : Z * req_state) : Prop :=
  match x.2 with RPosted s t c => env_matches s t c m = true | _ => False end.
#[local] Instance posted_for_dec m x : Decision (posted_for m x).
Proof. unfold posted_for. destruct (x.2); apply _. Defined.

Definition unmatched (v : netview) (m : net_msg) : Prop := Forall (λ x, ¬ posted_for m x) (map_to_list (reqs v)).
Definition keep_msg (v : netview) (m : net_msg) : Prop := real_msg m = true ∧ unmatched v m.
#[local] Instance keep_msg_dec v m : Decision (keep_msg v m).
Proof. unfold keep_msg, unmatched. apply _. Defined.

(** Every view of the lower half is normal. *)
Record normal (v : netview) : Prop := {
  nv_null : reqs v !! 0 = None;
  nv_mail m : m ∈ mail v → keep_msg v m
}.
Definition drop_null (v : netview) : netview := v <| reqs ::= delete 0 |>.
Definition norm (v : netview) : netview :=
  (drop_null v) <| mail := filter (keep_msg (drop_null v)) (mail v) |>.

Definition first_of (s t c : Z) (l : list net_msg) : option (net_msg * list net_msg) :=
  match list_find (λ m, env_matches s t c m = true) l with
  | Some (i, m) => Some (m, delete i l)
  | None => None
  end.
Definition fresh_req (v : netview) : Z := fresh ({[0]} ∪ dom (reqs v)).
Definition deliver (m : net_msg) (v : netview) : netview :=
  if negb (real_msg m) then v else
  match list_find (posted_for m) (map_to_list (reqs v)) with
  | Some (_, (r, _)) => v <| reqs ::= <[r := RMatched]> |>
  | None => v <| mail ::= λ l, l ++ [m] |>
  end.
Definition msg_of (buf count tag c : Z) : net_msg := mk_net 0 tag c (replicate (Z.to_nat count) buf).
Definition status_for (m : net_msg) : MPI_Status := mk_status (nm_source m) (nm_tag m) 0 (Z.of_nat (length (nm_data m))).
Definition sends (buf count dest tag c : Z) (v : netview) : netview :=
  if decide (dest = MPI_PROC_NULL) then v else (deliver (msg_of buf count tag c) v) <| net_sent ::= λ n, n + 1 |>.

#[export] Instance sim_lib : P2pLib netview := {|
  MANA_REQUEST_NULL := 0;
  MANA_BYTE := 1;
  lh_Type_size _ l := ((0, 1), norm l);
  lh_Iprobe s t c l := let v := norm l in
    match first_of s t c (mail v) with
    | Some (m, _) => ((0, true, status_for m), v)
    | None => ((0, false, empty_status), v)
    end;
  lh_Recv_bytes count s t c l := let v := norm l in
    match first_of s t c (mail v) with
    | Some (m, rest) => ((0, nm_data m), v <| mail := rest |> <| net_taken ::= Z.succ |>)
    | None => ((1, []), v)
    end;
  lh_Recv buf count type s t c l := let v := norm l in
    if decide (s = MPI_PROC_NULL) then ((0, empty_status), v) else
    match first_of s t c (mail v) with
    | Some (m, rest) => ((0, status_for m), v <| mail := rest |> <| net_taken ::= Z.succ |>)
    | None => ((1, empty_status), v)
    end;
  lh_Irecv buf count type s t c l := let v := norm l in let r := fresh_req v in
    if decide (s = MPI_PROC_NULL) then ((0, r), v <| reqs ::= <[r := RNull]> |>) else
    match first_of s t c (mail v) with
    | Some (m, rest) => ((0, r), v <| mail := rest |> <| reqs ::= <[r := RMatched]> |>)
    | None => ((0, r), v <| reqs ::= <[r := RPosted s t c]> |>)
    end;
  lh_Isend sync buf count type dest t c l :=
    let v := sends buf count dest t c (norm l) in let r := fresh_req v in
    ((0, r), v <| reqs ::= <[r := RSend]> |>);
  lh_Send ready buf count type dest t c l := (0, sends buf count dest t c (norm l));
  lh_Test r l := let v := norm l in
    match reqs v !! r with
    | Some (RPosted _ _ _) => ((0, false, empty_status), v)
    | o => ((0, true, empty_status), v <| reqs ::= delete r |> <| net_taken ::= λ n, n + counts o |>)
    end;
  lh_Request_get_status r l := let v := norm l in ((0, true, empty_status), v);
  lh_Unpack _ _ _ _ _ _ l := (0, norm l)
|}.

(** ** Normal views *)

Lemma drop_null_unmatched v m r s t c :
  unmatched v m → reqs v !! r = Some (RPosted s t c) → env_matches s t c m = false.
Proof.
  unfold unmatched. rewrite Forall_forall. intros Hu Hr. destruct (env_matches s t c m) eqn:E; [|done].
  exfalso. apply (Hu (r, RPosted s t c)); [by apply elem_of_map_to_list|done].
Qed.

Lemma unmatched_intro v m :
  (∀ r s t c, reqs v !! r = Some (RPosted s t c) → env_matches s t c m = false) → unmatched v m.
Proof.
  intros Hr. apply Forall_forall. intros [r q] Hin%elem_of_map_to_list Hp. unfold posted_for in Hp. cbn in Hp.
  destruct q; try done. rewrite (Hr _ _ _ _ Hin) in Hp. done.
Qed.

Lemma norm_normal v : normal (norm v).
Proof.
  split; [apply lookup_delete_eq|]. intros m [Hk _]%list_elem_of_filter. exact Hk.
Qed.
Lemma norm_id v : normal v → norm v = v.
Proof.
  intros [Hn Hm]. assert (drop_null v = v) as E.
  { destruct v as [ml rq tk sn]. unfold drop_null, set_field. cbn in *. f_equal. by apply delete_id. }
  unfold norm. rewrite E, filter_id by done. by destruct v.
Qed.

(** Removing requests and messages, and adding a receive that no message of the
    mail matches, keep it normal. *)
Lemma normal_sub v v' :
  normal v → (∀ m, m ∈ mail v' → m ∈ mail v) → reqs v' !! 0 = None →
  (∀ r s t c, reqs v' !! r = Some (RPosted s t c) →
    reqs v !! r = Some (RPosted s t c) ∨ ∀ m, m ∈ mail v' → env_matches s t c m = false) →
  normal v'.
Proof.
  intros [Hn Hm] Hsub H0 Hr. split; [done|]. intros m Hin. destruct (Hm m (Hsub m Hin)) as [Hreal Hu]. split; [done|].
  apply unmatched_intro. intros r s t c Hp. destruct (Hr r s t c Hp) as [Hp'|Hn']; [by eapply drop_null_unmatched|auto].
Qed.

Lemma first_of_some s t c l m rest :
  first_of s t c l = Some (m, rest) → takes s t c l m rest ∧ ∀ x, x ∈ rest → x ∈ l.
Proof.
  unfold first_of. destruct (list_find _ l) as [[i m']|] eqn:E; [|done]. intros [= -> <-].
  apply list_find_Some in E as (Hi & Hm & Hb). pose proof (lookup_lt_Some _ _ _ Hi) as Hlt. split.
  - exists (take i l), (drop (S i) l). split_and!; [by rewrite take_drop_middle|by rewrite delete_take_drop|done|].
    intros x (j & Hj)%list_elem_of_lookup Hx. apply lookup_take_Some in Hj as [Hj Hji]. by apply Hb in Hj.
  - intros x Hx. rewrite delete_take_drop in Hx. apply elem_of_app in Hx as [Hx|Hx].
    + by eapply subseteq_take.
    + by eapply subseteq_drop.
Qed.
Lemma first_of_none s t c l : first_of s t c l = None → ∀ m, m ∈ l → env_matches s t c m = false.
Proof.
  unfold first_of. destruct (list_find _ l) as [[i m']|] eqn:E; [done|]. intros _ m Hm.
  rewrite list_find_None, Forall_forall in E. specialize (E m Hm). by destruct (env_matches s t c m).
Qed.

Lemma fresh_req_spec v : reqs v !! fresh_req v = None ∧ fresh_req v ≠ 0.
Proof.
  unfold fresh_req. pose proof (is_fresh ({[0]} ∪ dom (reqs v))) as Hf. rewrite not_elem_of_union, not_elem_of_dom in Hf.
  destruct Hf as [H0 Hd]. split; [done|]. intros E. apply H0. by apply elem_of_singleton.
Qed.

Lemma deliver_spec m v : normal v → normal (deliver m v) ∧ evolves v (deliver m v).
Proof.
  intros Hn. unfold deliver. destruct (real_msg m) eqn:Er; cbn [negb]; [|split; [done|apply evolves_refl]].
  destruct (list_find _ _) as [[i [r q]]|] eqn:E.
  - apply list_find_Some in E as (Hi & Hp & _). apply list_elem_of_lookup_2, elem_of_map_to_list in Hi.
    unfold posted_for in Hp. cbn in Hp. destruct q as [s t c| | | |]; try done.
    assert (r ≠ 0) as Hr by (intros ->; rewrite (nv_null _ Hn) in Hi; done). split.
    + apply (normal_sub v); [done|done| |].
      * cbn. rewrite lookup_insert_ne by done. apply Hn.
      * cbn. intros r' s' t' c' H'. left. destruct (decide (r' = r)) as [->|Hne]; [by rewrite lookup_insert_eq in H'|].
        by rewrite lookup_insert_ne in H'.
    + split; [by exists []; rewrite app_nil_r| |done|done]. intros r'. cbn.
      destruct (decide (r' = r)) as [->|Hne]; [rewrite lookup_insert_eq, Hi; by right|].
      rewrite lookup_insert_ne by done. apply req_evolves_refl.
  - rewrite list_find_None in E. split.
    + split; [apply Hn|]. cbn. intros m' [Hm| ->]%elem_of_snoc; [by apply (nv_mail _ Hn)|]. done.
    + split; [by eexists|intros; apply req_evolves_refl|done|done].
Qed.

Lemma sends_spec buf count dest t c v :
  normal v → normal (sends buf count dest t c v) ∧
  ∃ v1, evolves v v1 ∧ reqs (sends buf count dest t c v) = reqs v1 ∧
    sends buf count dest t c v = v1 <| net_sent ::= λ n, if decide (dest = MPI_PROC_NULL) then n else n + 1 |>.
Proof.
  intros Hn. unfold sends. destruct (decide (dest = MPI_PROC_NULL)).
  - split; [done|]. exists v. split; [apply evolves_refl|]. split; [done|]. by destruct v.
  - destruct (deliver_spec (msg_of buf count t c) v Hn) as [H1 H2]. split; [|by exists (deliver (msg_of buf count t c) v)].
    by apply (normal_sub (deliver (msg_of buf count t c) v)); try done; [apply H1|auto].
Qed.

Lemma take_normal v s t c m rest :
  normal v → takes s t c (mail v) m rest → normal (v <| mail := rest |>).
Proof.
  intros Hn (a & b & Em & -> & _). apply (normal_sub v); [done| |apply Hn|auto].
  cbn. intros x. rewrite Em, !elem_of_app, elem_of_cons. tauto.
Qed.

Lemma insert_normal v r q :
  normal v → r ≠ 0 → (∀ s t c, q = RPosted s t c → ∀ m, m ∈ mail v → env_matches s t c m = false) →
  normal (v <| reqs ::= <[r := q]> |>).
Proof.
  intros Hn Hr Hq. apply (normal_sub v); [done|done| |].
  - cbn. rewrite lookup_insert_ne by done. apply Hn.
  - cbn. intros r' s t c H'. destruct (decide (r' = r)) as [->|Hne].
    + rewrite lookup_insert_eq in H'. injection H' as ->. right. by apply Hq.
    + rewrite lookup_insert_ne in H' by done. by left.
Qed.

(** Counters are not part of what is normal. *)
Lemma normal_counts v f g : normal v → normal (v <| net_taken ::= f |>) ∧ normal (v <| net_sent ::= g |>).
Proof. intros [Hn Hm]. split; split; done. Qed.

Lemma test_normal v r f : normal v → normal (v <| reqs ::= delete r |> <| net_taken ::= f |>).
Proof.
  intros Hn. apply (normal_counts _ f id), (normal_sub v); [done|done| |]; cbn.
  - apply lookup_delete_None. right. apply Hn.
  - intros r' s t c [_ H']%lookup_delete_Some. by left.
Qed.

Ltac sim_red :=
  cbn [lh_Iprobe lh_Recv_bytes lh_Irecv lh_Isend lh_Send lh_Recv lh_Test lh_Type_size lh_Request_get_status lh_Unpack
       sim_lib MPI_PROC_NULL MPI_SUCCESS sample_lib MANA_REQUEST_NULL]; cbv zeta.

Lemma ok_refl (P Q : Prop) : (if decide (0 = 0) then P else Q) = P.
Proof. by case_decide. Qed.

#[export] Instance sim_laws : P2pLaws netview norm.
Proof.
  split.
  - done.
  - intros l. apply norm_normal.
  - intros l m Hm. destruct (nv_mail _ (norm_normal l) m Hm) as [Hr _]. unfold real_msg in Hr.
    rewrite !andb_true_iff, !negb_true_iff, !Z.eqb_neq in Hr. tauto.
  - intros l m r s t c Hm Hp. eapply drop_null_unmatched; [|exact Hp]. by apply (nv_mail _ (norm_normal l)).
  - intros s t c l rc flag st l'. sim_red. pose proof (norm_normal l) as Hn.
    destruct (first_of s t c (mail (norm l))) as [[m rest]|] eqn:E; intros [= <- <- <- <-]; rewrite (norm_id (norm l)) by done;
      (split; [done|split; [apply evolves_refl|]]); (split; [|done || by intros _; apply first_of_none]); [|done].
    intros _. exists m, rest. split; [by apply first_of_some|done].
  - intros count s t c l rc data l'. sim_red. pose proof (norm_normal l) as Hn.
    destruct (first_of s t c (mail (norm l))) as [[m rest]|] eqn:E; intros [= <- <- <-] _ _ Hex.
    + apply first_of_some in E as [Htk _]. split; [done|]. exists (norm l), m, rest. split; [apply evolves_refl|].
      split; [done|]. split; [|done]. apply norm_id. apply (normal_counts _ Z.succ id). by eapply take_normal.
    + destruct Hex as (m & Hm & He). by rewrite (first_of_none _ _ _ _ E m Hm) in He.
  - intros buf count type s t c l rc r l'. sim_red. pose proof (norm_normal l) as Hn.
    destruct (fresh_req_spec (norm l)) as [Hf H0]. destruct (decide (s = -1)) as [->|Hs].
    + intros [= <- <- <-]. rewrite ok_refl. exists (norm l). split; [apply evolves_refl|]. split; [done|].
      split; [done|]. apply norm_id, insert_normal; done.
    + destruct (first_of s t c (mail (norm l))) as [[m rest]|] eqn:E; intros [= <- <- <-]; rewrite ok_refl;
        exists (norm l); (split; [apply evolves_refl|]); (split; [done|]); (split; [done|]).
      * apply first_of_some in E as [Htk _]. right. exists m, rest. split; [done|]. apply norm_id, insert_normal; [|done|done].
        by eapply take_normal.
      * left. apply norm_id, insert_normal; [done|done|]. intros ? ? ? [= <- <- <-]. by eapply first_of_none.
  - intros sync buf count type dest t c l rc r l'. sim_red. intros [= <- <- <-]. rewrite ok_refl.
    destruct (sends_spec buf count dest t c (norm l) (norm_normal l)) as (Hn & v1 & Hev & Hrq & Hv).
    destruct (fresh_req_spec (sends buf count dest t c (norm l))) as [Hf H0]. exists v1.
    split; [done|]. split; [by rewrite <- Hrq|]. split; [done|]. rewrite (norm_id (set_field _ _ _)) by (apply insert_normal; done).
    by rewrite Hv.
  - intros r l rc flag st l'. sim_red. pose proof (norm_normal l) as Hn.
    destruct (reqs (norm l) !! r) as [[s t c| | | |]|] eqn:E; intros [= <- <- <- <-]; (split; [done|]);
      exists (norm l); (split; [apply evolves_refl|]); rewrite ?E; cbn [counts]; try by apply norm_id, test_normal.
    rewrite (norm_id (norm l)) by done. done.
  - intros ready buf count type dest t c l rc l'. sim_red. intros [= <- <-]. rewrite ok_refl.
    destruct (sends_spec buf count dest t c (norm l) (norm_normal l)) as (Hn & v1 & Hev & Hrq & Hv).
    exists v1. split; [done|]. by rewrite norm_id, Hv.
  - intros buf count type s t c l rc st l'. sim_red. pose proof (norm_normal l) as Hn. destruct (decide (s = -1)) as [->|Hs].
    + intros [= <- <- <-]. rewrite decide_False by (intros [_ ?]; done). rewrite (norm_id (norm l)) by done. apply evolves_refl.
    + destruct (first_of s t c (mail (norm l))) as [[m rest]|] eqn:E; intros [= <- <- <-].
      * case_decide as Hd; [|by destruct Hd]. apply first_of_some in E as [Htk _]. exists (norm l), m, rest.
        split; [apply evolves_refl|]. split; [done|]. split; [done|]. apply norm_id. apply (normal_counts _ Z.succ id). by eapply take_normal.
      * rewrite decide_False by (intros [? _]; done). rewrite (norm_id (norm l)) by done. apply evolves_refl.
  - intros r l x l'. sim_red. intros [= <- <-]. rewrite (norm_id (norm l)) by apply norm_normal. apply evolves_refl.
  - intros type l x l'. sim_red. intros [= <- <-]. rewrite (norm_id (norm l)) by apply norm_normal. apply evolves_refl.
  - intros inbuf size buf count type c l rc l'. sim_red. intros [= <- <-]. rewrite (norm_id (norm l)) by apply norm_normal.
    split; [done|apply evolves_refl].
Qed.
