(* ===== verification/P2pSample.v ===== *)
(** * A process on the simulated lower half, for the examples *)
From S2P Require Import Prelude Mpi Constants VirtualId PendingLog PendingLogSpec DatatypeRefs DatatypeSpec RequestTable P2p P2pLaws P2pInv P2pCount P2pSim.

#[local] Existing Instance sample_lib.

Definition sample_consts : constants_state :=
  match init_predefined_constants sample_c2f sample_lower init_constants with
  | Ok _ cs => cs
  | _ => init_constants
  end.
Definition sample_table : vid_state := init_vid <| consts := sample_consts |>.
(** The process in blocking or polling mode, with some messages in the mail. *)
Definition sample_p2p (wait : p2p_wait_t) (m : list net_msg) : p2p netview :=
  mk_p2p sample_table (mk_netview m ∅ 0 0) 0 0 [] 0 (mk_pending_recv PENDING_RECV_IDLE 0 0 0 0 0) false wait
    [] [] [] 0 MPI_COMM_WORLD [MPI_COMM_WORLD; MPI_COMM_SELF] 0.

Lemma consts_log_repr cs :
  Z.of_nat (length (reserved_slots cs)) ≤ 2 ^ 24 → log_repr (init_vid <| consts := cs |>) [] [] [].
Proof.
  intros Hcs. split.
  - split; cbn; try (by intros ? []%not_elem_of_nil); try lia; try constructor; try done; try lia.
    all: intros; try (by unfold slot_entry in *; cbn in *; rewrite lookup_empty in *).
  - exists []. split; [|done]. split; try done; [constructor|by intros [|??]|].
    intros s Hs. by apply not_elem_of_nil in Hs.
Qed.
Lemma sample_log_repr : log_repr sample_table [] [] [].
Proof. apply consts_log_repr. by vm_compute. Qed.

Lemma sample_requests_ok wait m :
  requests_ok None (table (sample_p2p wait m)) (norm (lib (sample_p2p wait m))) [].
Proof.
  assert (∀ h, info sample_table h = None) as Hn.
  { intros h. unfold info, entry_of, lookup_virt_id_entry. case_match; [done|]. by case_match. }
  split; cbn [table sample_p2p].
  - exists []. apply fresh_types_ok. split; [done|]. exists []. apply sample_log_repr.
  - apply norm_normal.
  - intros rq Hrq. by apply not_elem_of_nil in Hrq.
  - intros rq c Hrq. by apply not_elem_of_nil in Hrq.
  - intros rq c Hrq. by apply not_elem_of_nil in Hrq.
  - intros h r b s _. by rewrite Hn.
  - intros h r b s _. by rewrite Hn.
  - intros h1 h2 r b1 s1 b2 s2 _ _. by rewrite Hn.
Qed.
Lemma sample_inv wait m : inv norm (sample_p2p wait m).
Proof. exists []. apply sample_requests_ok. Qed.

(** Decisions are computed, not the states that they are about. *)
#[export] Instance apart_dec h : Decision (apart h).
Proof. unfold apart. apply _. Defined.
#[export] Instance is_request_dec h : Decision (is_request h).
Proof. unfold is_request. apply _. Defined.
#[export] Instance live_request_dec st h : Decision (live_request st h).
Proof. unfold live_request. apply _. Defined.
Ltac by_decide := apply (bool_decide_unpack _); vm_compute; exact Logic.I.
