(* ===== verification/P2pCountSpec.v ===== *)
(** * Theorem: MANA's message counters agree with the lower half *)
From S2P Require Import Prelude Mpi Constants VirtualId PendingLog PendingLogSpec DatatypeRefs DatatypeSpec RequestTable P2p P2pDrain P2pLaws P2pInv P2pSteps P2pCount P2pSim P2pSample.

(** The application's calls and the drain's steps on one process. *)
Inductive p2p_op :=
  | OSend (buf count type dest tag comm : Z)
  | ORsend (buf count type dest tag comm : Z)
  | OSsend (buf count type dest tag comm : Z)
  | OIsend (buf count type dest tag comm : Z)
  | OIssend (buf count type dest tag comm : Z)
  | ORecv (buf count type source tag comm : Z)
  | OIrecv (buf count type source tag comm : Z)
  | OSendrecv (sendbuf sendcount sendtype dest sendtag recvbuf recvcount recvtype source recvtag comm : Z)
  | OSendrecv_replace (tmpbuf buf count type dest sendtag source recvtag comm : Z)
  | OIprobe (source tag comm : Z)
  | OProbe (source tag comm : Z)
  | OTest (rq : Z)
  | OTestall (rs : list Z)
  | OTestany (rs : list Z)
  | OWait (rq : Z)
  | OWaitall (rs : list Z)
  | OWaitany (rs : list Z)
  | ORequest_get_status (rq : Z)
  | OCompletePending
  | ODrainRemaining
  | OCompleteIsends
  | OSendOwedAcks.

Section spec.
Context `{MpiLib} `{P2pLib L} (view : L → netview) (polls : nat).
Implicit Types (p : p2p L).

Definition code {A} (f : A → Z) (m : prog (p2p L) A) : prog (p2p L) Z := x ← m; mret (f x).

(** The operation, with its return code. *)
Definition run_op (op : p2p_op) : prog (p2p L) Z :=
  match op with
  | OSend buf count type dest tag comm => PMPI_Send polls buf count type dest tag comm
  | ORsend buf count type dest tag comm => PMPI_Rsend polls buf count type dest tag comm
  | OSsend buf count type dest tag comm => PMPI_Ssend polls buf count type dest tag comm
  | OIsend buf count type dest tag comm => code fst (PMPI_Isend buf count type dest tag comm)
  | OIssend buf count type dest tag comm => code fst (PMPI_Issend buf count type dest tag comm)
  | ORecv buf count type source tag comm => code fst (PMPI_Recv polls buf count type source tag comm)
  | OIrecv buf count type source tag comm => code fst (PMPI_Irecv polls buf count type source tag comm)
  | OSendrecv sb sc sty dest st rb rcn rty source rt comm =>
      code fst (PMPI_Sendrecv polls sb sc sty dest st rb rcn rty source rt comm)
  | OSendrecv_replace tmpbuf buf count type dest st source rt comm =>
      code (λ x, x.1.1) (PMPI_Sendrecv_replace polls tmpbuf buf count type dest st source rt comm)
  | OIprobe source tag comm => code (λ x, x.1.1) (PMPI_Iprobe source tag comm)
  | OProbe source tag comm => code fst (PMPI_Probe polls source tag comm)
  | OTest rq => code (λ x, x.1.1.1) (PMPI_Test rq)
  | OTestall rs => code (λ x, x.1.1.1) (PMPI_Testall rs)
  | OTestany rs => code (λ x, x.1.1.1.1) (PMPI_Testany rs)
  | OWait rq => code (λ x, x.1.1) (PMPI_Wait polls rq)
  | OWaitall rs => code (λ x, x.1.1) (PMPI_Waitall polls rs)
  | OWaitany rs => code (λ x, x.1.1.1) (PMPI_Waitany polls rs)
  | ORequest_get_status rq => code (λ x, x.1.1) (PMPI_Request_get_status rq)
  | OCompletePending => completePendingP2pRequests ;; mret MPI_SUCCESS
  | ODrainRemaining => drainRemainingP2pMsgs polls ;; mret MPI_SUCCESS
  | OCompleteIsends => completePendingIsends polls ;; mret MPI_SUCCESS
  | OSendOwedAcks => sendOwedSsendAcks polls ;; mret MPI_SUCCESS
  end.

(** The new virtual IDs that the operation may make. *)
Definition op_ids p (op : p2p_op) : Z :=
  match op with OSendOwedAcks => Z.of_nat (length (g_owed_acks p)) | _ => 3 end.

(** The arguments are valid: a communicator, null or live requests, each live
    one once.  A blocking [MPI_Recv] is not in a checkpoint's dummy phase. *)
Definition op_ok p (op : p2p_op) : Prop :=
  apart (g_ssend_ack_comm p) ∧ virt_id_next_seq (table p) + op_ids p op < 2 ^ 64 ∧
  match op with
  | OSend _ _ _ _ _ comm | ORsend _ _ _ _ _ comm | OSsend _ _ _ _ _ comm
  | OIsend _ _ _ _ _ comm | OIssend _ _ _ _ _ comm | OIrecv _ _ _ _ _ comm
  | OSendrecv _ _ _ _ _ _ _ _ _ _ comm | OSendrecv_replace _ _ _ _ _ _ _ _ comm => apart comm
  | ORecv _ _ _ _ _ comm => apart comm ∧ p2p_dummy_phase p = false
  | OTest rq | OWait rq => request_arg p rq
  | OTestall rs | OTestany rs | OWaitall rs | OWaitany rs => request_args p rs
  | _ => True
  end.

(** An operation that succeeds. *)
Definition p2p_step p p' : Prop := ∃ op, op_ok p op ∧ run_op op p = Ok MPI_SUCCESS p'.

Context `{!P2pLaws L view}.

Lemma wlp_code {A} (f : A → Z) (m : prog (p2p L) A) Q p : wlp m (λ a, Q (f a)) p → wlp (code f m) Q p.
Proof. intros Hm. apply wlp_bind. eapply wlp_mono; [exact Hm|]. intros. by apply wlp_ret. Qed.

Lemma good_ok ok n dead p p' : ok → good view ok n dead p p' → inv view p' ∧ recv_lead view p' = recv_lead view p ∧ sent_lead view p' = sent_lead view p.
Proof. intros Ho G. split; [apply G|]. split; by apply G. Qed.

Lemma send_op_good (ready : bool) buf count type dest tag comm p :
  inv view p → apart comm → virt_id_next_seq (table p) + 3 < 2 ^ 64 →
  wlp (wait ← gets g_p2p_wait;
       if bool_decide (wait = P2P_WAIT_POLLING) then send_by_polling polls buf count type dest tag comm
       else send_blocking ready buf count type dest tag comm)
    (λ rc p', good view (rc = MPI_SUCCESS) 1 none p p') p.
Proof.
  intros Hi Ha Hb. eapply wlp_then; [done|]. case_bool_decide.
  - apply (start_send_good view polls false); [done|done|lia].
  - eapply wlp_mono; [by apply (send_blocking_good view)|]. intros rc p' G. eapply good_weaken; [exact G|done|lia|done].
Qed.

Lemma recv_op_good buf count type source tag comm p :
  inv view p → apart comm → apart (g_ssend_ack_comm p) → p2p_dummy_phase p = false →
  virt_id_next_seq (table p) + 3 < 2 ^ 64 →
  wlp (PMPI_Recv polls buf count type source tag comm) (λ '(rc, _) p', good view (rc = MPI_SUCCESS) 2 none p p') p.
Proof.
  intros Hi Ha Hk Hd Hb. unfold PMPI_Recv. eapply wlp_then; [done|]. case_bool_decide.
  - eapply wlp_mono; [eapply (start_wait_good view polls pair _ (λ _, True)); [apply (irecv_good view); try done; lia|done|lia]|].
    intros x p' (rc & s & -> & G). eapply good_weaken; [exact G|done|lia|done].
  - destruct (Z.eqb_spec source MPI_PROC_NULL) as [->|Hs].
    + apply wlp_bind, wlp_real. intros rc _. apply wlp_bind, wlp_real. intros rt _. apply wlp_bind, wlp_call.
      intros [rv s] l' E. apply law_recv in E. rewrite decide_False in E by tauto. apply wlp_ret.
      eapply good_weaken; [apply good_evolves; [done|exact E]|done|lia|done].
    + eapply wlp_mono; [apply (recv_loop_good view); try done; lia|]. intros [rc s] p' G. eapply good_weaken; [exact G|done|lia|done].
Qed.

(** Waiting for two requests that a call has just made. *)
Lemma wait_new_pair p p2 r0 r1 (ok : Prop) n :
  good view ok n none p p2 → live_request (table p2) r0 → live_request (table p2) r1 → r0 ≠ r1 →
  ¬ live_request (table p) r0 → ¬ live_request (table p) r1 →
  wlp (PMPI_Waitall polls [r0; r1]) (λ '(rc, _, _) p3, rc = MPI_SUCCESS ∧ good view ok n (λ h, ¬ live_request (table p) h) p p3) p2.
Proof.
  intros G Hl0 Hl1 Hne Hd0 Hd1. eapply wlp_mono; [apply (waitall_good view); [apply G|]|].
  { split; [|intros rq [->| ->%list_elem_of_singleton]%elem_of_cons; by right].
    apply NoDup_filter, NoDup_cons. split; [by intros ->%list_elem_of_singleton|apply NoDup_singleton]. }
  intros [[rc rs] ss] p3 [-> G3]. split; [done|]. eapply good_weaken; [eapply good_trans; [exact G|exact G3]|tauto|lia|].
  by intros h [[]|[->| ->%list_elem_of_singleton]%elem_of_cons].
Qed.

Lemma sendrecv_good sb sc sty dest st rb rcn rty source rt comm p :
  inv view p → apart comm → apart (g_ssend_ack_comm p) → virt_id_next_seq (table p) + 3 < 2 ^ 64 →
  wlp (PMPI_Sendrecv polls sb sc sty dest st rb rcn rty source rt comm)
    (λ '(rc, _) p', good view (rc = MPI_SUCCESS) 3 (λ h, ¬ live_request (table p) h) p p') p.
Proof.
  intros Hi Ha Hk Hb. unfold PMPI_Sendrecv. apply wlp_bind.
  eapply wlp_mono; [apply (isend_good_new view); [done|done|lia]|]. intros [rc r0] p1 [G1 L1].
  destruct (Z.eqb_spec rc MPI_SUCCESS) as [->|]; cbn [negb].
  2:{ apply wlp_ret. eapply good_weaken; [exact G1|done|lia|done]. }
  destruct (L1 eq_refl) as [Hl1 Hn1]. pose proof (g_seq _ _ _ _ _ _ G1). apply wlp_bind.
  eapply wlp_mono; [apply (irecv_good view); [apply G1|done|by rewrite (good_ack_comm _ _ _ _ _ _ G1)|lia]|].
  intros [rc r1] p2 [G2 L2]. pose proof (good_then _ _ _ _ _ _ _ _ G1 G2) as G.
  destruct (Z.eqb_spec rc MPI_SUCCESS) as [->|]; cbn [negb].
  2:{ apply wlp_ret. eapply good_weaken; [exact G|done|lia|done]. }
  destruct (L2 eq_refl) as [Hl2 Hn2]. apply wlp_bind.
  eapply wlp_mono; [eapply wait_new_pair; [exact G| |done|by apply Hn2| |]|].
  - apply (g_live _ _ _ _ _ _ G2); [done|by intros []].
  - intros Hh. by apply (Hn1 r0).
  - intros Hh. apply (Hn2 r1); [|done]. apply (g_live _ _ _ _ _ _ G1); [done|by intros []].
  - intros [[rc rs] ss] p3 [-> G3]. apply wlp_ret. eapply good_weaken; [exact G3|done|lia|done].
Qed.

Lemma sendrecv_replace_good tmpbuf buf count type dest st source rt comm p :
  inv view p → apart comm → apart (g_ssend_ack_comm p) → virt_id_next_seq (table p) + 3 < 2 ^ 64 →
  wlp (PMPI_Sendrecv_replace polls tmpbuf buf count type dest st source rt comm)
    (λ '(rc, _, _) p', good view (rc = MPI_SUCCESS) 3 (λ h, ¬ live_request (table p) h) p p') p.
Proof.
  intros Hi Ha Hk Hb. unfold PMPI_Sendrecv_replace. apply wlp_bind.
  eapply wlp_mono; [by apply (recv_size_good view)|]. intros size p0 G0. pose proof (g_seq _ _ _ _ _ _ G0). apply wlp_bind.
  eapply wlp_mono; [apply (irecv_good view); [apply G0|done|by rewrite (good_ack_comm _ _ _ _ _ _ G0)|lia]|].
  intros [rc r0] p1 [G1 L1]. pose proof (good_then _ _ _ _ _ _ _ _ G0 G1) as G01.
  destruct (Z.eqb_spec rc MPI_SUCCESS) as [->|]; cbn [negb].
  2:{ apply wlp_ret. eapply good_weaken; [exact G01|done|lia|done]. }
  destruct (L1 eq_refl) as [Hl1 Hn1]. pose proof (g_seq _ _ _ _ _ _ G1). apply wlp_bind.
  eapply wlp_mono; [apply (isend_good_new view); [apply G1|done|lia]|].
  intros [rc r1] p2 [G2 L2]. pose proof (good_then _ _ _ _ _ _ _ _ G01 G2) as G.
  destruct (Z.eqb_spec rc MPI_SUCCESS) as [->|]; cbn [negb].
  2:{ apply wlp_ret. eapply good_weaken; [exact G|tauto|lia|done]. }
  destruct (L2 eq_refl) as [Hl2 Hn2]. apply wlp_bind.
  eapply wlp_mono; [eapply wait_new_pair; [exact G| |done|by apply Hn2| |]|].
  - apply (g_live _ _ _ _ _ _ G2); [done|by intros []].
  - intros Hh. apply (Hn1 r0); [|done]. apply (g_live _ _ _ _ _ _ G0); [done|by intros []].
  - intros Hh. apply (Hn2 r1); [|done]. apply (g_live _ _ _ _ _ _ G01); [done|by intros []].
  - intros [[rc rs] ss] p3 [-> G3]. apply wlp_ret. eapply good_weaken; [exact G3|tauto|lia|done].
Qed.

Lemma iprobe_good source tag comm p :
  inv view p → wlp (PMPI_Iprobe source tag comm) (λ _ p', good view True 0 none p p') p.
Proof.
  intros Hi. unfold PMPI_Iprobe. apply wlp_bind. eapply wlp_mono; [by apply (exists_good view)|].
  intros found p1 G1. destruct found; [by apply wlp_ret|]. unfold MPI_Iprobe_internal. apply wlp_bind, wlp_real.
  intros rc _. apply wlp_call. intros [[rv flag] s] l' E. apply law_iprobe in E as (_ & Hev & _).
  eapply good_weaken; [eapply good_then; [exact G1|apply good_evolves; [apply G1|exact Hev]]|tauto|lia|done].
Qed.

Lemma probe_good fuel source tag comm p :
  inv view p → wlp (probe_loop fuel source tag comm) (λ _ p', good view True 0 none p p') p.
Proof.
  revert p. induction fuel as [|fuel IH]; intros p Hi; [done|]. cbn [probe_loop]. apply wlp_bind.
  eapply wlp_mono; [by apply iprobe_good|]. intros [[rv flag] s] p1 G1. destruct flag; [by apply wlp_ret|].
  eapply wlp_mono; [apply IH, G1|]. intros x p2 G2.
  eapply good_weaken; [eapply good_then; [exact G1|exact G2]|tauto|lia|done].
Qed.

Lemma get_status_good rq p : inv view p → wlp (PMPI_Request_get_status rq) (λ _ p', good view True 0 none p p') p.
Proof.
  intros Hi. unfold PMPI_Request_get_status. apply wlp_bind, wlp_real. intros r _. eapply wlp_then; [done|].
  assert (wlp (call_lib (lh_Request_get_status r)) (λ _ p', good view True 0 none p p') p) as Hc.
  { apply wlp_call. intros x l' E. apply good_evolves; [done|]. by eapply law_get_status. }
  destruct (_ =? _); [|exact Hc]. destruct (completed_request_status _ _); [|exact Hc].
  apply wlp_ret. by apply good_refl.
Qed.

Lemma owed_good p :
  inv view p → apart (g_ssend_ack_comm p) → virt_id_next_seq (table p) + Z.of_nat (length (g_owed_acks p)) < 2 ^ 64 →
  wlp (sendOwedSsendAcks polls) (λ _ p', inv view p' ∧ recv_lead view p' = recv_lead view p ∧ sent_lead view p' = sent_lead view p) p.
Proof.
  intros Hi Hk Hb. unfold sendOwedSsendAcks. eapply wlp_then; [done|]. apply wlp_bind.
  eapply wlp_mono; [by apply (owed_acks_good view)|]. intros [] p1 G. eapply wlp_run; [done|].
  exact (good_ok _ _ _ _ _ Logic.I G).
Qed.

(** One operation. *)
Lemma op_exact op p :
  inv view p → op_ok p op →
  wlp (run_op op) (λ rc p', rc = MPI_SUCCESS →
    inv view p' ∧ recv_lead view p' = recv_lead view p ∧ sent_lead view p' = sent_lead view p) p.
Proof.
  intros Hi (Hk & Hb & Ha). cbn [op_ids] in Hb.
  assert (∀ A (f : A → Z) (m : prog (p2p L) A) (ok : A → Prop) n dead,
    wlp m (λ a p', good view (ok a) n dead p p') p → (∀ a, f a = MPI_SUCCESS → ok a) →
    wlp (code f m) (λ rc p', rc = MPI_SUCCESS →
      inv view p' ∧ recv_lead view p' = recv_lead view p ∧ sent_lead view p' = sent_lead view p) p) as Hcode.
  { intros A f m ok n dead Hm Hok. apply wlp_code. eapply wlp_mono; [exact Hm|].
    intros a p' G E. exact (good_ok _ _ _ _ _ (Hok a E) G). }
  assert (∀ A (m : prog (p2p L) A), wlp m (λ _ p', good view True 0 none p p') p →
    wlp (m ;; mret MPI_SUCCESS) (λ rc p', rc = MPI_SUCCESS →
      inv view p' ∧ recv_lead view p' = recv_lead view p ∧ sent_lead view p' = sent_lead view p) p) as Hdrain.
  { intros A m Hm. apply wlp_bind. eapply wlp_mono; [exact Hm|]. intros a p' G. apply wlp_ret. intros _.
    exact (good_ok _ _ _ _ _ Logic.I G). }
  destruct op; cbn [run_op] in *; cbn [op_ids] in Hb.
  - eapply wlp_mono; [by apply (send_op_good false)|]. intros rc p' G E. exact (good_ok _ _ _ _ _ E G).
  - eapply wlp_mono; [by apply (send_op_good true)|]. intros rc p' G E. exact (good_ok _ _ _ _ _ E G).
  - eapply wlp_mono; [apply (start_send_good view polls true); [done|done|lia]|]. intros rc p' G E. exact (good_ok _ _ _ _ _ E G).
  - eapply Hcode; [eapply wlp_mono; [apply (isend_good view); [done|done|lia]|]|exact (λ a E, E)].
    intros [rc rq] p' [G _]. exact G.
  - eapply Hcode; [eapply wlp_mono; [apply (isend_good view); [done|done|lia]|]|exact (λ a E, E)].
    intros [rc rq] p' [G _]. exact G.
  - destruct Ha as [Ha Hd]. eapply Hcode; [eapply wlp_mono; [by apply recv_op_good|]|exact (λ a E, E)].
    intros [rc s] p' G. exact G.
  - eapply Hcode; [eapply wlp_mono; [apply (irecv_good view); [done|done|done|lia]|]|exact (λ a E, Logic.I)].
    intros [rc rq] p' [G _]. exact G.
  - eapply Hcode; [eapply wlp_mono; [by apply sendrecv_good|]|exact (λ a E, E)]. intros [rc s] p' G. exact G.
  - eapply Hcode; [eapply wlp_mono; [by apply sendrecv_replace_good|]|exact (λ a E, E)]. intros [[rc s] copied] p' G. exact G.
  - eapply Hcode; [by apply iprobe_good|done].
  - eapply Hcode; [by apply probe_good|done].
  - eapply Hcode; [eapply wlp_mono; [by apply (test_good view)|]|exact (λ a E, Logic.I)].
    intros [[[rc f] rq'] s] p' (_ & G & _). exact G.
  - eapply Hcode; [unfold PMPI_Testall; apply wlp_bind; eapply wlp_mono; [by apply (testall_loop_good view)|]|exact (λ a E, Logic.I)].
    intros [[[[rc f] i] rs'] ss] p' [_ G]. apply wlp_ret. exact G.
  - eapply Hcode; [eapply wlp_mono; [by apply (testany_loop_good view)|]|exact (λ a E, Logic.I)].
    intros [[[[rc f] i] rs'] ss] p' [_ G]. exact G.
  - eapply Hcode; [eapply wlp_mono; [by apply (wait_good view)|]|exact (λ a E, Logic.I)].
    intros [[rc rq'] s] p' [_ G]. exact G.
  - eapply Hcode; [eapply wlp_mono; [by apply (waitall_good view)|]|exact (λ a E, Logic.I)].
    intros [[rc rq'] s] p' [_ G]. exact G.
  - eapply Hcode; [eapply wlp_mono; [by apply (waitany_loop_good view)|]|exact (λ a E, Logic.I)].
    intros [[[rc i] rq'] s] p' [_ G]. exact G.
  - eapply Hcode; [by apply get_status_good|done].
  - apply Hdrain. by apply complete_all_good.
  - apply Hdrain. by apply drain_remaining_good.
  - apply Hdrain. by apply complete_isends_good.
  - apply wlp_bind. eapply wlp_mono; [by apply owed_good|]. intros [] p' Hp. by apply wlp_ret.
Qed.

(** C9. MANA's counters are exact.  Any sequence of successful point-to-point
    calls of the application and of steps of the drain keeps the difference
    between [local_recv_messages] and the number of messages that the lower half
    delivered, and between [local_sent_messages] and the number it sent: each
    message is counted once, by whichever of [MPI_Wait], [MPI_Test], [MPI_Recv]
    and the drain completes it, and no completion counts a message that there
    was not.  Every pending call stays an active request of the lower half with
    the call's envelope. *)
Theorem p2p_counters_exact p p' :
  inv view p → rtc p2p_step p p' →
  inv view p' ∧ recv_lead view p' = recv_lead view p ∧ sent_lead view p' = sent_lead view p.
Proof.
  intros Hi Hr. induction Hr as [p|p p1 p2 (op & Hok & Hrun) _ IH]; [done|].
  destruct (wlp_ok _ _ _ _ _ (op_exact op p Hi Hok) Hrun) as (Hi1 & R1 & S1); [done|].
  destruct (IH Hi1) as (Hi2 & R2 & S2). split; [done|]. split; congruence.
Qed.
End spec.

#[local] Existing Instance sample_lib.

Definition after (op : p2p_op) (p : p2p netview) : p2p netview :=
  match run_op 10 op p with Ok _ p' => p' | _ => p end.
Definition succeeds (op : p2p_op) (p : p2p netview) : bool :=
  match run_op 10 op p with Ok rc _ => rc =? MPI_SUCCESS | _ => false end.

Lemma after_step op p : op_ok p op → succeeds op p = true → p2p_step 10 p (after op p).
Proof.
  intros Ho Hs. exists op. split; [done|]. unfold succeeds, after in *. destruct (run_op 10 op p) as [rc p'| |]; try done.
  by apply Z.eqb_eq in Hs as ->.
Qed.

Definition sample_irecv : p2p_op := OIrecv 0x100 4 MPI_BYTE 0 7 MPI_COMM_WORLD.
Definition sample_isend : p2p_op := OIsend 0x200 4 MPI_BYTE 0 7 MPI_COMM_WORLD.
Definition sample_wait : p2p_op := OWait 0x5000005F.
Definition sample_p0 : p2p netview := sample_p2p P2P_WAIT_POLLING [].
Definition sample_p1 : p2p netview := after sample_irecv sample_p0.
Definition sample_p2 : p2p netview := after sample_isend sample_p1.
Definition sample_p3 : p2p netview := after sample_wait sample_p2.

Lemma sample_steps : rtc (p2p_step 10) sample_p0 sample_p3.
Proof.
  apply (rtc_l _ _ sample_p1), (rtc_l _ _ sample_p2), rtc_once; apply after_step; try (vm_compute; reflexivity);
    (split; [by_decide|split; [by_decide|]]); [by_decide|by_decide|right; by_decide].
Qed.

(** A receive is posted, the process sends a message to itself, and waits for
    the receive: one message is counted on either side. *)
Lemma p2p_counters_exact_witness :
  ∃ p', rtc (p2p_step 10) sample_p0 p' ∧ local_recv_messages p' = 1 ∧ net_taken (norm (lib p')) = 1 ∧
    local_sent_messages p' = 1 ∧ net_sent (norm (lib p')) = 1.
Proof.
  exists sample_p3. split; [exact sample_steps|].
  destruct (p2p_counters_exact norm 10 sample_p0 sample_p3 (sample_inv _ _) sample_steps) as (_ & R & S).
  unfold recv_lead in R. unfold sent_lead in S.
  assert (local_recv_messages sample_p3 = 1) as E1 by (vm_compute; reflexivity).
  assert (local_sent_messages sample_p3 = 1) as E2 by (vm_compute; reflexivity).
  assert (recv_lead norm sample_p0 = 0 ∧ sent_lead norm sample_p0 = 0) as [E3 E4] by (split; vm_compute; reflexivity).
  unfold recv_lead in E3. unfold sent_lead in E4. split_and!; lia.
Defined.
