(* ===== verification/P2pOrder.v ===== *)
(** * The drain keeps the order of messages and ends

    [inbox p c s] is what the application has yet to receive from sender [s] on
    communicator [c]: the messages of MANA's buffer, then those of the lower
    half, in order.  The class [P2pQuiet] says that no process starts a send
    while the drain runs (the wrappers wait while [mana_state] is [CKPT_P2P]),
    so the messages that can still arrive are bounded. *)
From S2P Require Import Prelude Mpi Constants VirtualId PendingLog PendingLogSpec DatatypeRefs DatatypeSpec RequestTable P2p P2pDrain P2pLaws P2pInv P2pSteps P2pCount.

(** [backlog l]: messages in the mail or in flight to this process. *)
Class P2pQuiet (L : Type) `{!P2pLib L} (view : L → netview) (backlog : L → nat) : Prop := {
  quiet_mail l : (length (mail (view l)) ≤ backlog l)%nat;
  quiet_iprobe s t c l x l' : lh_Iprobe s t c l = (x, l') → (backlog l' ≤ backlog l)%nat;
  quiet_test r l x l' : lh_Test r l = (x, l') → (backlog l' ≤ backlog l)%nat;
  quiet_recv_bytes count s t c l x l' :
    lh_Recv_bytes count s t c l = (x, l') → net_taken (view l') = Z.succ (net_taken (view l)) →
    (backlog l' < backlog l)%nat
}.

Section order.
Context `{MpiLib} `{P2pLib L} (view : L → netview) `{!P2pLaws L view}.
Implicit Types (p : p2p L) (log : call_log).

Definition queue_of (c s : Z) (q : list mpi_message_t) : list (Z * list Z) :=
  (λ m, (MPI_TAG (msg_status m), msg_buf m)) <$> filter (λ m, msg_comm m = c ∧ MPI_SOURCE (msg_status m) = s) q.
Definition mail_of (rc s : Z) (ml : list net_msg) : list (Z * list Z) :=
  (λ m, (nm_tag m, nm_data m)) <$> filter (λ m, nm_comm m = rc ∧ nm_source m = s) ml.
#[local] Arguments queue_of : simpl never.
#[local] Arguments mail_of : simpl never.
Definition inbox p (c s : Z) : list (Z * list Z) :=
  queue_of c s (g_message_queue p) ++
  match real_of (table p) c with Some rc => mail_of rc s (mail (view (lib p))) | None => [] end.

Lemma queue_of_app c s q q' : queue_of c s (q ++ q') = queue_of c s q ++ queue_of c s q'.
Proof. unfold queue_of. by rewrite filter_app, fmap_app. Qed.
Lemma mail_of_app c s q q' : mail_of c s (q ++ q') = mail_of c s q ++ mail_of c s q'.
Proof. unfold mail_of. by rewrite filter_app, fmap_app. Qed.
Lemma mail_of_none c s q : (∀ m, m ∈ q → nm_comm m = c → nm_source m ≠ s) → mail_of c s q = [].
Proof.
  intros Hq. unfold mail_of. induction q as [|m q IH]; [done|]. rewrite filter_cons_False.
  - apply IH. intros. apply Hq; [by right|done].
  - intros [E1 E2]. by apply (Hq m); [left| |].
Qed.

(** The first message of its sender, wherever it was taken from. *)
Lemma takes_any_first rc l m rest :
  takes MPI_ANY_SOURCE MPI_ANY_TAG rc l m rest →
  ∃ a b, l = a ++ m :: b ∧ rest = a ++ b ∧ nm_comm m = rc ∧ mail_of rc (nm_source m) a = [].
Proof.
  intros (a & b & -> & -> & Hm & Ha). exists a, b. unfold env_matches in Hm. rewrite !Z.eqb_refl, !orb_true_r in Hm.
  cbn in Hm. apply Z.eqb_eq in Hm. split_and!; [done|done|done|]. apply mail_of_none. intros x Hx Hc E.
  apply (Ha x Hx); [|done]. unfold env_matches. by rewrite !Z.eqb_refl, !orb_true_r, Hc, Z.eqb_refl.
Qed.

(** A receive with that message's envelope takes the same message. *)
Lemma takes_same rc a m b m' rest :
  nm_comm m = rc → mail_of rc (nm_source m) a = [] → nm_source m ≠ MPI_ANY_SOURCE → nm_tag m ≠ MPI_ANY_TAG →
  takes (nm_source m) (nm_tag m) rc (a ++ m :: b) m' rest → m' = m ∧ rest = a ++ b.
Proof.
  intros Hc Ha Hs Ht (a' & b' & El & -> & Hm' & Ha').
  assert (env_matches (nm_source m) (nm_tag m) rc m = true) as Hm.
  { unfold env_matches. by rewrite !Z.eqb_refl, Hc, Z.eqb_refl. }
  assert (nm_source m' = nm_source m ∧ nm_comm m' = rc) as [Es' Ec'].
  { unfold env_matches in Hm'. rewrite !andb_true_iff, !orb_true_iff, !Z.eqb_eq in Hm'. tauto. }
  assert (∀ x, x ∈ a → nm_comm x = rc → nm_source x ≠ nm_source m) as Hna.
  { intros x Hx Hxc E. assert ((nm_tag x, nm_data x) ∈ mail_of rc (nm_source m) a) as Hin.
    { unfold mail_of. apply list_elem_of_fmap. exists x. split; [done|]. by apply list_elem_of_filter. }
    rewrite Ha in Hin. by apply not_elem_of_nil in Hin. }
  destruct (app_eq_inv _ _ _ _ El) as [(k & -> & E)|(k & -> & E)].
  - destruct k as [|y k]; cbn in E; injection E as -> E; [subst; by rewrite app_nil_r|].
    exfalso. apply (Hna y); [set_solver|done|done].
  - destruct k as [|y k]; cbn in E; injection E as <- E; [subst; by rewrite app_nil_r|].
    exfalso. apply (Ha' m); [set_solver|done|done].
Qed.

(** ** What a step of the drain keeps *)

(** [comms] are communicators with distinct real handles. *)
Definition comms_ok p (comms : list Z) : Prop :=
  (∀ c, c ∈ comms → apart c) ∧
  ∀ c c' r, c ∈ comms → c' ∈ comms → real_of (table p) c = Some r → real_of (table p) c' = Some r → c = c'.

(** Messages only arrive: each inbox keeps what it has, in order, and so does
    each part of MANA's buffer. *)
Record in_order (comms : list Z) p p' : Prop := {
  io_inbox c s : c ∈ comms → ∃ new, inbox p' c s = inbox p c s ++ new;
  io_queue c s : ∃ more, queue_of c s (g_message_queue p') = queue_of c s (g_message_queue p) ++ more;
  io_recv : g_pending_recv p' = g_pending_recv p;
  io_real c : apart c → real_of (table p') c = real_of (table p) c;
  io_fixed : fixed_fields (table p') = fixed_fields (table p)
}.

Lemma in_order_refl comms p : in_order comms p p.
Proof. split; [| |done..]; intros; exists []; by rewrite app_nil_r. Qed.
Lemma in_order_trans comms p p1 p2 : in_order comms p p1 → in_order comms p1 p2 → in_order comms p p2.
Proof.
  intros [I1 Q1 P1 R1 F1] [I2 Q2 P2 R2 F2]. split; [| |congruence|intros c Hc; by rewrite R2, R1|congruence].
  - intros c s Hc. destruct (I1 c s Hc) as [n1 E1], (I2 c s Hc) as [n2 E2]. exists (n1 ++ n2). by rewrite E2, E1, app_assoc.
  - intros c s. destruct (Q1 c s) as [n1 E1], (Q2 c s) as [n2 E2]. exists (n1 ++ n2). by rewrite E2, E1, app_assoc.
Qed.
Lemma comms_ok_step comms p p' : comms_ok p comms → in_order comms p p' → comms_ok p' comms.
Proof.
  intros [Ha Hd] [_ _ _ R _]. split; [done|]. intros c c' r Hc Hc'. rewrite (R c), (R c') by (by apply Ha). apply (Hd c c' r Hc Hc').
Qed.

(** The messages of other communicators stay in the lower half. *)
Definition others_stay (rcomm : Z) p p' : Prop :=
  ∀ m, m ∈ mail (view (lib p)) → nm_comm m ≠ rcomm → m ∈ mail (view (lib p')).
Lemma others_stay_mail rcomm p p' : (∃ new, mail (view (lib p')) = mail (view (lib p)) ++ new) → others_stay rcomm p p'.
Proof. intros [new E] m Hm _. rewrite E. apply elem_of_app. by left. Qed.
Lemma others_stay_trans rcomm p p1 p2 : others_stay rcomm p p1 → others_stay rcomm p1 p2 → others_stay rcomm p p2.
Proof. intros H1 H2 m Hm Hc. by apply H2; [apply H1|]. Qed.

(** All that the application had yet to receive on [comm] is in MANA's buffer. *)
Definition emptied (comm : Z) p p' : Prop :=
  ∀ s, ∃ more, queue_of comm s (g_message_queue p') = inbox p comm s ++ more.
(** A blocked [MPI_Recv] waits for a message of the lower half. *)
Definition recv_waits (comm : Z) p : Prop :=
  ∃ m status, m ∈ mail (view (lib p)) ∧ real_of (table p) comm = Some (nm_comm m) ∧ status_of m status ∧
    pendingRecvMatches comm status p = Ok true p.

Lemma emptied_after comms comm p p1 p2 : comm ∈ comms → in_order comms p p1 → emptied comm p1 p2 → emptied comm p p2.
Proof.
  intros Hc O He s. destruct (He s) as [more E], (io_inbox _ _ _ O comm s Hc) as [new En].
  exists (new ++ more). by rewrite E, En, app_assoc.
Qed.
Lemma emptied_then comms comm p p1 p2 : emptied comm p p1 → in_order comms p1 p2 → emptied comm p p2.
Proof.
  intros He O s. destruct (He s) as [more E], (io_queue _ _ _ O comm s) as [n En]. exists (more ++ n). by rewrite En, E, app_assoc.
Qed.
Lemma recv_waits_then comms comm rcomm p p' :
  apart comm → in_order comms p p' → others_stay rcomm p p' → real_of (table p) comm ≠ Some rcomm →
  recv_waits comm p → recv_waits comm p'.
Proof.
  intros Ha O Ho Hne (m & status & Hm & Hr & Hst & Hw). exists m, status. split_and!; [|by rewrite (io_real _ _ _ O)|done|].
  - apply Ho; [done|]. congruence.
  - revert Hw. unfold pendingRecvMatches. prog_red. rewrite (io_recv _ _ _ O). by intros [= ->].
Qed.

(** The lower half goes on, and the table changes for requests only. *)
Lemma in_order_evolves comms p l' st' n :
  comms_ok p comms → (∃ new, mail (view l') = mail (view (lib p)) ++ new) →
  (∀ c, apart c → real_of st' c = real_of (table p) c) → fixed_fields st' = fixed_fields (table p) →
  in_order comms p (p <| lib := l' |> <| local_recv_messages ::= n |> <| table := st' |>).
Proof.
  intros [Ha _] [new Em] Hr Hf. split; [|intros; exists []; by rewrite app_nil_r|done|exact Hr|exact Hf]. intros c s Hc. unfold inbox. cbn. rewrite Hr by auto.
  destruct (real_of (table p) c) as [rc|]; [|exists []; by rewrite !app_nil_r].
  exists (mail_of rc s new). by rewrite Em, mail_of_app, app_assoc.
Qed.

(** ** Receiving a message into the buffer *)

Lemma buffer_run p log m rest comm rcomm status comms :
  requests_ok None (table p) (view (lib p)) log → comm ∈ comms → comms_ok p comms →
  real_of (table p) comm = Some rcomm → takes MPI_ANY_SOURCE MPI_ANY_TAG rcomm (mail (view (lib p))) m rest →
  status_of m status →
  ∃ p' x, recvMsgIntoInternalBuffer status comm p = Ok (status_bytes status) p' ∧ in_order comms p p' ∧
    table p' = table p ∧ requests_ok None (table p') (view (lib p')) log ∧
    lh_Recv_bytes (status_bytes status) (MPI_SOURCE status) (MPI_TAG status) rcomm (lib p) = (x, lib p') ∧
    net_taken (view (lib p')) = Z.succ (net_taken (view (lib p))) ∧ others_stay rcomm p p'.
Proof.
  intros Hi Hc Hok Hrc Htk (Es & Et & Eb). destruct (takes_any_first _ _ _ _ Htk) as (a & b & Em & _ & Ecm & Ha).
  assert (m ∈ mail (view (lib p))) as Hin by (rewrite Em; set_solver). destruct (law_real _ _ Hin) as (H1 & H2 & H3).
  unfold recvMsgIntoInternalBuffer. rewrite (prog_bind_ok _ _ _ _ _ (on_table_read _ _ _ (real_of_run _ _ _ Hrc))).
  destruct (lh_Recv_bytes (status_bytes status) (MPI_SOURCE status) (MPI_TAG status) rcomm (lib p)) as [[rc data] l'] eqn:E.
  destruct (law_recv_bytes _ _ _ _ _ _ _ _ E) as [-> (v & m' & rest' & Hev & Htk' & Hv & Hd)].
  { by rewrite Es. } { by rewrite Et. }
  { exists m. split; [done|]. unfold env_matches. by rewrite Es, Et, Ecm, !Z.eqb_refl. }
  destruct (ev_mail _ _ Hev) as [new En]. rewrite Em, <- app_assoc in En. cbn in En. rewrite En, Es, Et in Htk'.
  destruct (takes_same _ _ _ _ _ _ Ecm Ha H1 H3 Htk') as [-> ->]. rewrite Hd in * by done.
  set (msg := mk_message (nm_data m) (status_bytes status) MPI_BYTE (status_bytes status) comm status (-1) 0).
  exists (p <| lib := l' |> <| local_recv_messages ::= Z.succ |> <| g_message_queue ::= λ q, q ++ [msg] |>
    <| g_queued_messages := Z.of_nat (length (g_message_queue p ++ [msg])) |>), (MPI_SUCCESS, nm_data m).
  split.
  { rewrite (prog_bind_ok _ _ _ _ _ (call_lib_run _ _ _ _ E)). prog_red. rewrite Z.eqb_refl. reflexivity. }
  split; [|split; [done|split; [|split; [done|split]]]].
  - split; [|intros c s; eexists; cbn; apply queue_of_app|done..]. intros c s Hc'. unfold inbox. cbn. rewrite queue_of_app.
    destruct (real_of (table p) c) as [rc|] eqn:Er.
    2:{ exists []. rewrite !app_nil_r. unfold queue_of at 2. rewrite filter_cons_False; [by rewrite app_nil_r|].
        cbn. intros [<- _]. congruence. }
    exists (mail_of rc s new). rewrite Hv, Em. cbn. rewrite !mail_of_app, <- !app_assoc. f_equal.
    assert (rc = rcomm ↔ comm = c) as Hiff.
    { split; [intros ->; by apply (proj2 Hok comm c rcomm)|intros <-; congruence]. }
    destruct (decide (comm = c ∧ nm_source m = s)) as [[<- <-]|Hne].
    + assert (rc = rcomm) as -> by tauto. rewrite Ha. unfold queue_of, mail_of.
      rewrite filter_cons_True by (cbn; by rewrite Es). rewrite filter_cons_True by done. cbn. by rewrite Et.
    + unfold queue_of. rewrite filter_cons_False by (cbn; rewrite Es; done). cbn.
      assert (mail_of rc s (m :: b) = mail_of rc s b) as ->; [|done]. unfold mail_of.
      rewrite filter_cons_False; [done|]. intros [E1 E2]. apply Hne. split; [|done]. apply Hiff. congruence.
  - cbn. rewrite Hv. apply (ok_reqs _ _ v); [done|]. by eapply ok_evolves.
  - cbn. rewrite Hv. cbn. f_equal. apply Hev.
  - intros x. cbn. rewrite Hv, Em. cbn. rewrite !elem_of_app, !elem_of_cons. intros [Hx|[->|Hx]] Hne; [by left|done|].
    right. by left.
Qed.

(** ** Completing the pending receive that a message was matched with *)

(** A message in the mail matches no posted receive, so the pending one that has
    its envelope was matched with an earlier message. *)
Lemma pending_matched p log rq c m comm status :
  requests_ok None (table p) (view (lib p)) log → (rq, c) ∈ log → call_matches comm status c = true →
  m ∈ mail (view (lib p)) → real_of (table p) comm = Some (nm_comm m) → status_of m status →
  ∃ r s, info (table p) rq = Some (r, false, s) ∧ reqs (view (lib p)) !! r = Some RMatched.
Proof.
  intros Hi Hc Hm Hin Hrc Hst. destruct (call_matches_counted view _ _ _ _ _ Hin Hst Hm) as [_ Hcnt].
  destruct (ro_log _ _ _ _ Hi rq c Hc) as (r & s & Hn & Ht); [done|]. exists r, s. split; [done|].
  destruct (reqs (view (lib p)) !! r) as [[s' t' c'| | | |]|] eqn:E; cbn in Ht; try done; try congruence.
  exfalso. destruct Ht as (_ & -> & -> & Hrc'). pose proof (law_unexpected _ _ _ _ _ _ Hin E) as Hf.
  unfold call_matches in Hm. rewrite !andb_true_iff, !orb_true_iff, !Z.eqb_eq in Hm.
  destruct Hm as [[[_ <-] Htag] Hsrc]. destruct Hst as (Es & Et & _). rewrite Hrc in Hrc'. injection Hrc' as <-.
  unfold env_matches in Hf. rewrite Es in Hsrc. rewrite Et in Htag. rewrite Z.eqb_refl, andb_true_r in Hf.
  destruct Hsrc as [E1|E1], Htag as [E2|E2]; rewrite E1, E2, ?Z.eqb_refl, ?orb_true_r in Hf; done.
Qed.

Lemma matched_run p log rq c m comm status comms fuel :
  requests_ok None (table p) (view (lib p)) log → (rq, c) ∈ log → call_matches comm status c = true →
  m ∈ mail (view (lib p)) → real_of (table p) comm = Some (nm_comm m) → status_of m status → comms_ok p comms →
  ∃ s x l' p', test_until_done (S fuel) rq p = Ok s (p <| lib := l' |>) ∧
    MPI_Test_internal rq false p = Ok x (p <| lib := l' |>) ∧
    (count_received_message ;; on_table (complete_virt_request MANA_REQUEST_NULL rq s) ;;
     on_table (clearPendingRequestFromLog rq)) (p <| lib := l' |>) = Ok () p' ∧
    lib p' = l' ∧ in_order comms p p' ∧ requests_ok None (table p') (view (lib p')) (filter (λ x, x.1 ≠ rq) log) ∧
    ∃ new, mail (view l') = mail (view (lib p)) ++ new.
Proof.
  intros Hi Hc Hm Hin Hrc Hst Hok. pose proof (ok_log_request _ _ _ _ _ _ Hi Hc) as Hl.
  destruct (pending_matched p log rq c m comm status Hi Hc Hm Hin Hrc Hst) as (r & s0 & Hn & Hr).
  destruct (test_run view p log rq Hi Hl) as (flag & s & l' & E & Ht).
  destruct (te_view _ _ _ _ _ _ _ Ht) as (v & r' & b & s' & Hn' & Hev & Email & _ & Hflag).
  rewrite Hn in Hn'. injection Hn' as <- <- <-.
  assert (flag = true) as ->.
  { apply Hflag. pose proof (ev_reqs _ _ Hev r) as Hre. rewrite Hr in Hre. exact Hre. }
  set (p1 := p <| lib := l' |> <| local_recv_messages ::= Z.succ |>).
  destruct (complete_clear_run p1 log rq (view l') s (te_ok _ _ _ _ _ _ _ Ht) Hl) as (st' & E2 & R & _).
  exists s, (MPI_SUCCESS, true, s), l', (p1 <| table := st' |>). split_and!; [|done| |done| | |].
  - cbn [test_until_done]. by rewrite (prog_bind_ok _ _ _ _ _ E).
  - rewrite (prog_bind_ok _ _ _ () p1) by done. exact E2.
  - apply in_order_evolves; [done| |intros c' Hc'; by eapply retired_real; [exact R|apply Hl|]|apply R].
    rewrite Email. apply Hev.
  - apply R.
  - rewrite Email. apply Hev.
Qed.

Context (backlog : L → nat) `{!P2pQuiet L view backlog} (polls : nat).

Lemma test_backlog rq p x p' : MPI_Test_internal rq false p = Ok x p' → (backlog (lib p') ≤ backlog (lib p))%nat.
Proof.
  unfold MPI_Test_internal. intros (r & p1 & E1 & E)%prog_bind_inv. unfold on_table in E1.
  destruct (get_real_id rq (table p)); [|done|done]. injection E1 as _ <-. apply prog_bind_inv in E as (st & p2 & E2 & E).
  injection E2 as _ <-.
  assert (∀ q, call_lib (lh_Test r) q = Ok x p' → (backlog (lib p') ≤ backlog (lib q))%nat) as Hc.
  { intros q. unfold call_lib. destruct (lh_Test r (lib q)) as [y l'] eqn:Ey. intros [= _ <-]. cbn. by eapply quiet_test. }
  destruct (negb false && _); [|by apply Hc in E]. destruct (completed_request_status rq st); [|by apply Hc in E].
  injection E as _ <-. done.
Qed.

(** ** The loops *)

Definition work p log : nat := (backlog (lib p) + length log)%nat.

Lemma filter_log_shorter log rq (c : mpi_nonblocking_call_t) :
  (rq, c) ∈ log → (length (filter (λ x : Z * mpi_nonblocking_call_t, x.1 ≠ rq) log) < length log)%nat.
Proof.
  induction log as [|x log IH]; [by intros []%not_elem_of_nil|]. intros [<-|Hin]%elem_of_cons; rewrite filter_cons.
  - rewrite decide_False by tauto. cbn. pose proof (length_filter (λ x : Z * mpi_nonblocking_call_t, x.1 ≠ rq) log). lia.
  - specialize (IH Hin). case_decide; cbn; lia.
Qed.

Lemma iprobe_any_run p log comm rcomm comms :
  requests_ok None (table p) (view (lib p)) log → comms_ok p comms → real_of (table p) comm = Some rcomm →
  ∃ flag status l1, MPI_Iprobe_internal MPI_ANY_SOURCE MPI_ANY_TAG comm p = Ok (MPI_SUCCESS, flag, status) (p <| lib := l1 |>) ∧
    requests_ok None (table p) (view l1) log ∧ in_order comms p (p <| lib := l1 |>) ∧ (backlog l1 ≤ backlog (lib p))%nat ∧
    (flag = true → ∃ m rest, takes MPI_ANY_SOURCE MPI_ANY_TAG rcomm (mail (view l1)) m rest ∧ status_of m status) ∧
    (flag = false → emptied comm p (p <| lib := l1 |>)) ∧ ∃ new, mail (view l1) = mail (view (lib p)) ++ new.
Proof.
  intros Hi Hok Hrc. unfold MPI_Iprobe_internal.
  rewrite (prog_bind_ok _ _ _ _ _ (on_table_read _ _ _ (real_of_run _ _ _ Hrc))).
  destruct (lh_Iprobe MPI_ANY_SOURCE MPI_ANY_TAG rcomm (lib p)) as [[[rc flag] status] l1] eqn:E.
  rewrite (call_lib_run _ _ _ _ E). pose proof (quiet_iprobe _ _ _ _ _ _ E) as Hb1.
  apply law_iprobe in E as (-> & Hev & Hf & Hno). exists flag, status, l1. split; [done|]. split; [by eapply ok_evolves|].
  split; [|split; [done|split; [done|split; [|apply Hev]]]].
  - pose proof (in_order_evolves comms p l1 (table p) id Hok (ev_mail _ _ Hev) (λ _ _, eq_refl) eq_refl) as O.
    destruct p. exact O.
  - intros Hfl s. exists []. unfold inbox. cbn. rewrite Hrc, mail_of_none, !app_nil_r; [done|]. intros m Hm Hc _.
    specialize (Hno Hfl m Hm). unfold env_matches in Hno. by rewrite !Z.eqb_refl, !orb_true_r, Hc, Z.eqb_refl in Hno.
Qed.

Lemma drain_comm_run fuel comm p log comms rcomm :
  requests_ok None (table p) (view (lib p)) log → comm ∈ comms → comms_ok p comms →
  real_of (table p) comm = Some rcomm → (0 < polls)%nat → (work p log < fuel)%nat →
  ∃ n p' log', drain_comm polls fuel comm p = Ok n p' ∧ in_order comms p p' ∧
    requests_ok None (table p') (view (lib p')) log' ∧ (work p' log' ≤ work p log)%nat ∧
    others_stay rcomm p p' ∧ (emptied comm p p' ∨ recv_waits comm p').
Proof.
  revert p log. induction fuel as [|fuel IH]; intros p log Hi Hc Hok Hrc Hpolls Hfuel; [lia|]. cbn [drain_comm].
  destruct (iprobe_any_run p log comm rcomm comms Hi Hok Hrc) as (flag & status & l1 & E & Hi1 & O1 & Hb1 & Hf & He & Hm1).
  rewrite (prog_bind_ok _ _ _ _ _ E), Z.eqb_refl. clear E. set (p1 := p <| lib := l1 |>) in *.
  assert (others_stay rcomm p p1) as S1 by (by apply others_stay_mail).
  rewrite (prog_bind_ok _ _ _ () p1) by done.
  destruct flag; cbn [negb].
  2:{ exists 0, p1, log. split_and!; [done|done|done|unfold work; cbn; lia|done|auto]. }
  destruct (Hf eq_refl) as (m & rest & Htk & Hst).
  rewrite (prog_bind_ok _ _ _ _ _ (ok_order _ p1 _ _ Hi1)).
  destruct (first_matching_run p1 _ log comm status log.*1 Hi1) as (o & Eo & Ho); [done|].
  rewrite (prog_bind_ok _ _ _ _ _ Eo). pose proof (comms_ok_step _ _ _ Hok O1) as Hok1. destruct o as [rq|].
  - destruct Ho as (c & Hcl & Hm). destruct (takes_any_first _ _ _ _ Htk) as (a & b & Em & _ & Ecm & _).
    assert (m ∈ mail (view l1)) as Hin by (rewrite Em; set_solver). destruct polls as [|k] eqn:Ek; [lia|].
    destruct (matched_run p1 log rq c m comm status comms k Hi1 Hcl Hm Hin ltac:(cbn; by rewrite Ecm) Hst Hok1)
      as (s & x & l2 & p2 & E1 & Ex & E2 & <- & O2 & Hi2 & Hm2).
    apply test_backlog in Ex. cbn in Ex. apply prog_bind_inv in E2 as ([] & q1 & E2 & E3).
    apply prog_bind_inv in E3 as ([] & q2 & E3 & E4). pose proof (filter_log_shorter _ _ _ Hcl) as Hlen.
    destruct (IH p2 (filter (λ x, x.1 ≠ rq) log)) as (n & p3 & log3 & Er & O3 & Hi3 & Hw3 & S3 & D3); try done.
    { by eapply comms_ok_step. } { rewrite (io_real _ _ _ O2) by (by apply Hok). done. }
    { unfold work in *. cbn in *. lia. }
    exists n, p3, log3. split_and!; [| |done| | |].
    + rewrite (prog_bind_ok _ _ _ _ _ E1), (prog_bind_ok _ _ _ _ _ E2), (prog_bind_ok _ _ _ _ _ E3),
        (prog_bind_ok _ _ _ _ _ E4). done.
    + eapply in_order_trans; [exact O1|]. by eapply in_order_trans.
    + unfold work in *. cbn in *. lia.
    + eapply others_stay_trans; [exact S1|]. eapply others_stay_trans; [|exact S3]. by apply others_stay_mail.
    + destruct D3 as [D3|D3]; [left|by right]. eapply emptied_after; [done|exact O1|]. by eapply emptied_after.
  - rewrite (prog_bind_ok _ _ _ _ p1) by done. case_match.
    { destruct (takes_any_first _ _ _ _ Htk) as (a & b & Em & _ & Ecm & _).
      exists 0, p1, log. split_and!; [done|done|done|unfold work; cbn; lia|done|]. right. exists m, status. split_and!; [|by rewrite Ecm|done|].
      - cbn. rewrite Em. set_solver.
      - unfold pendingRecvMatches. prog_red. by f_equal. }
    destruct (buffer_run p1 log m rest comm rcomm status comms Hi1 Hc Hok1 Hrc Htk Hst)
      as (p2 & x & E2 & O2 & Et2 & Hi2 & El2 & Htk2 & S2).
    pose proof (quiet_recv_bytes _ _ _ _ _ _ _ El2 Htk2) as Hb2. cbn in Hb2.
    destruct (IH p2 log Hi2 Hc) as (n & p3 & log3 & Er & O3 & Hi3 & Hw3 & S3 & D3); try done.
    { by eapply comms_ok_step. } { by rewrite Et2. } { unfold work in *. cbn in *. lia. }
    exists (status_bytes status + n), p3, log3. split_and!; [| |done| | |].
    + rewrite (prog_bind_ok _ _ _ _ _ E2), (prog_bind_ok _ _ _ _ _ Er). done.
    + eapply in_order_trans; [exact O1|]. by eapply in_order_trans.
    + unfold work in *. cbn in *. lia.
    + eapply others_stay_trans; [exact S1|]. by eapply others_stay_trans.
    + destruct D3 as [D3|D3]; [left|by right]. eapply emptied_after; [done|exact O1|]. by eapply emptied_after.
Qed.
End order.
#[global] Arguments queue_of : simpl never.
#[global] Arguments mail_of : simpl never.
