(* ===== verification/P2pReceive.v ===== *)
(** * Receives and probes take the earliest matching message of their sender *)
From S2P Require Import Prelude Mpi Constants VirtualId VirtualIdInv VirtualIdSpec PendingLog PendingLogSpec DatatypeRefs DatatypeSpec RequestTable P2p P2pDrain P2pLaws P2pInv P2pSteps P2pCount P2pOrder.

Section receive.
Context `{MpiLib} `{P2pLib L} (view : L → netview) `{!P2pLaws L view} (polls : nat).
Implicit Types (p : p2p L) (log : call_log).

(** ** Steps that take no message *)

Record untouched p p' : Prop := {
  un_queue : g_message_queue p' = g_message_queue p;
  un_mail : ∃ new, mail (view (lib p')) = mail (view (lib p)) ++ new;
  un_real c : apart c → real_of (table p') c = real_of (table p) c
}.
Lemma untouched_refl p : untouched p p.
Proof. split; try done. exists []. by rewrite app_nil_r. Qed.
Lemma untouched_trans p p1 p2 : untouched p p1 → untouched p1 p2 → untouched p p2.
Proof.
  intros [Q1 [n1 M1] R1] [Q2 [n2 M2] R2]. split; [congruence| |intros c Hc; by rewrite R2, R1].
  exists (n1 ++ n2). by rewrite M2, M1, app_assoc.
Qed.
Lemma untouched_inbox p p' c s : untouched p p' → apart c → ∃ new, inbox view p' c s = inbox view p c s ++ new.
Proof.
  intros [Q [n M] R] Hc. unfold inbox. rewrite Q, R by done. destruct (real_of (table p) c) as [rc|].
  - exists (mail_of rc s n). by rewrite M, mail_of_app, app_assoc.
  - exists []. by rewrite !app_nil_r.
Qed.

Lemma wait_untouched fuel rq p :
  inv view p → live_request (table p) rq → rq ≠ MPI_REQUEST_NULL → wlp (wait_loop fuel rq) (λ _ p', untouched p p') p.
Proof.
  revert p. induction fuel as [|fuel IH]; intros p [log Hi] Hl Hnn; [done|]. cbn [wait_loop].
  destruct (test_run view p log rq Hi Hl) as (flag & s & l' & E & Ht). eapply wlp_then; [exact E|]. cbn beta iota.
  destruct (te_view _ _ _ _ _ _ _ Ht) as (v & r & b & s' & _ & Hev & Em & _).
  assert (untouched p (p <| lib := l' |>)) as U1 by (split; [done|cbn; rewrite Em; apply Hev|done]).
  rewrite (proj2 (Z.eqb_neq _ _) Hnn). cbn [negb]. rewrite andb_true_r. destruct flag.
  - pose proof (te_ok _ _ _ _ _ _ _ Ht) as Hi1. cbn iota in Hi1. set (p1 := p <| lib := l' |>) in *.
    pose proof (count_if_run view (Some rq) p1 log rq Hi1 (proj1 Hl)) as E1. eapply wlp_then; [exact E1|].
    set (p2 := p1 <| local_recv_messages ::= _ |>) in *.
    destruct (finish_request_run p2 log rq (view l') Hi1 Hl) as (st' & E2 & R). eapply wlp_then; [exact E2|]. apply wlp_ret.
    split; [done|apply (un_mail _ _ U1)|]. cbn. intros c Hc. eapply retired_real; [exact R|apply Hl|done].
  - apply wlp_bind, wlp_ret. eapply wlp_mono; [apply IH; [by exists log; apply (te_ok _ _ _ _ _ _ _ Ht)|done|done]|].
    intros x p' U2. by eapply untouched_trans.
Qed.

Lemma isend_untouched p buf count type dest tag comm sync :
  inv view p → apart comm → virt_id_next_seq (table p) + 1 < 2 ^ 64 →
  wlp (MPI_Isend_internal buf count type dest tag comm sync) (λ _ p', untouched p p') p.
Proof.
  intros [log Hi] Hap Hb. unfold MPI_Isend_internal.
  destruct (count_send_run None p log _ dest tag comm Hi) as (st1 & log1 & E1 & Hi1 & S1).
  eapply wlp_then; [exact E1|]. apply wlp_bind, wlp_real. intros rcomm _. apply wlp_bind, wlp_real. intros rtype _.
  apply wlp_bind, wlp_call. intros [rc r] l' Hs. apply law_isend in Hs. change (lib _) with (lib p) in Hs.
  assert (∀ c, real_of st1 c = real_of (table p) c) as Hr1.
  { intros c. apply real_of_same; [apply S1|by apply same_requests_info]. }
  destruct (decide (rc = MPI_SUCCESS)) as [->|Hne].
  2:{ rewrite (proj2 (Z.eqb_neq _ _) Hne). apply wlp_ret. split; [done|apply Hs|done]. }
  destruct Hs as (v & Hev & Hf & Hnn & Hv). rewrite Z.eqb_refl.
  apply wlp_bind, wlp_table. intros rq st2 Hnew. cbn [table set_field] in Hnew.
  destruct (start_pending_run st1 log1 v r RSend (if sync && negb (dest =? MPI_PROC_NULL) then ISSEND_REQUEST else ISEND_REQUEST)
    buf 0 count type dest tag comm rq st2) as (st3 & log3 & E3 & Hi3 & O3 & Hlive & _); try done.
  { by eapply ok_evolves. } { by rewrite (sr_seq _ _ S1). } { by destruct (sync && _). }
  { cbn. unfold counted. cbn. by destruct (sync && _). }
  eapply wlp_then; [apply on_table_run; exact E3|]. apply wlp_ret. split; [done| |].
  - cbn. rewrite Hv. cbn. apply Hev.
  - cbn. intros c Hc. rewrite <- Hr1. eapply others_real; [exact O3|apply Hlive|done].
Qed.

Lemma ssend_ack_untouched rank tag p :
  inv view p → apart (g_ssend_ack_comm p) → virt_id_next_seq (table p) + 1 < 2 ^ 64 →
  wlp (sendSsendAck polls rank tag) (λ _ p', untouched p p') p.
Proof.
  intros Hi Hap Hb. unfold sendSsendAck. eapply wlp_then; [done|]. apply wlp_bind.
  eapply wlp_mono; [apply wlp_and; [by apply (isend_good view)|by apply isend_untouched]|].
  intros [rc rq] p1 [[G1 L1] U1]. apply wlp_bind, wlp_assert. intros ->%Z.eqb_eq. destruct (L1 eq_refl) as [Hl _].
  apply wlp_bind. unfold PMPI_Wait. destruct (Z.eqb_spec rq MPI_REQUEST_NULL) as [->|Hne].
  { apply wlp_ret, wlp_assert. done. }
  apply wlp_bind. eapply wlp_mono; [apply wait_untouched; [apply G1|done|done]|]. intros [rc s] p2 U2.
  apply wlp_ret, wlp_assert. intros _. by eapply untouched_trans.
Qed.

(** ** The earliest matching message *)

Definition tag_ok (tag t : Z) : Prop := t = tag ∨ tag = MPI_ANY_TAG.
Definition source_ok (source s : Z) : Prop := s = source ∨ source = MPI_ANY_SOURCE.

(** [x] is the first message with this tag in the inbox of [s], messages that
    arrive meanwhile included; afterwards it is gone and the others are left. *)
Definition takes_first p p' (comm s tag : Z) (x : Z * list Z) : Prop :=
  ∃ a b new new', inbox view p comm s ++ new = a ++ x :: b ∧ tag_ok tag x.1 ∧
    (∀ y, y ∈ a → ¬ tag_ok tag y.1) ∧ inbox view p' comm s = a ++ b ++ new'.
(** No message matches, and none is taken. *)
Definition none_matches p p' (comm source tag : Z) : Prop :=
  ∀ s, source_ok source s → (∃ new, inbox view p' comm s = inbox view p comm s ++ new) ∧
    ∀ y, y ∈ inbox view p' comm s → ¬ tag_ok tag y.1.

Lemma msg_matches_iff source tag comm m :
  msg_matches source tag comm m = true ↔
  source_ok source (MPI_SOURCE (msg_status m)) ∧ tag_ok tag (MPI_TAG (msg_status m)) ∧ msg_comm m = comm.
Proof. unfold msg_matches, source_ok, tag_ok. rewrite !andb_true_iff, !orb_true_iff, !Z.eqb_eq. tauto. Qed.
Lemma env_matches_iff source tag comm m :
  env_matches source tag comm m = true ↔ source_ok source (nm_source m) ∧ tag_ok tag (nm_tag m) ∧ nm_comm m = comm.
Proof. unfold env_matches, source_ok, tag_ok. rewrite !andb_true_iff, !orb_true_iff, !Z.eqb_eq. tauto. Qed.

Lemma elem_of_queue_of c s q y :
  y ∈ queue_of c s q ↔ ∃ m, y = (MPI_TAG (msg_status m), msg_buf m) ∧ (msg_comm m = c ∧ MPI_SOURCE (msg_status m) = s) ∧ m ∈ q.
Proof. unfold queue_of. rewrite list_elem_of_fmap. setoid_rewrite list_elem_of_filter. done. Qed.
Lemma elem_of_mail_of c s q y :
  y ∈ mail_of c s q ↔ ∃ m, y = (nm_tag m, nm_data m) ∧ (nm_comm m = c ∧ nm_source m = s) ∧ m ∈ q.
Proof. unfold mail_of. rewrite list_elem_of_fmap. setoid_rewrite list_elem_of_filter. done. Qed.

Lemma find_msg_some source tag comm q i m :
  find_msg source tag comm q = Some (i, m) →
  ∃ a b, q = a ++ m :: b ∧ delete i q = a ++ b ∧ msg_matches source tag comm m = true ∧
    ∀ y, y ∈ queue_of comm (MPI_SOURCE (msg_status m)) a → ¬ tag_ok tag y.1.
Proof.
  unfold find_msg. intros (Hi & Hm & Hb)%list_find_Some. pose proof (lookup_lt_Some _ _ _ Hi) as Hlt.
  exists (take i q), (drop (S i) q). split_and!; [by rewrite take_drop_middle|by rewrite delete_take_drop|done|].
  intros y (m' & -> & [Hc Hs] & Hin)%elem_of_queue_of Ht. cbn in Ht.
  apply list_elem_of_lookup in Hin as [j Hj]. apply lookup_take_Some in Hj as [Hj Hji].
  apply (Hb j m' Hj Hji), msg_matches_iff. rewrite Hs. apply msg_matches_iff in Hm as (? & _ & _). done.
Qed.

Lemma find_msg_none source tag comm q :
  find_msg source tag comm q = None → ∀ s y, source_ok source s → y ∈ queue_of comm s q → ¬ tag_ok tag y.1.
Proof.
  unfold find_msg. rewrite list_find_None, Forall_forall. intros Hn s y Hs (m & -> & [Hc <-] & Hin)%elem_of_queue_of Ht.
  apply (Hn m Hin), msg_matches_iff. done.
Qed.

(** The buffer serves the receive. *)
Lemma buffer_takes_first p p' source tag comm i m :
  apart comm → find_msg source tag comm (g_message_queue p) = Some (i, m) →
  untouched (p <| g_message_queue := delete i (g_message_queue p) |>) p' →
  source_ok source (MPI_SOURCE (msg_status m)) ∧
  takes_first p p' comm (MPI_SOURCE (msg_status m)) tag (MPI_TAG (msg_status m), msg_buf m).
Proof.
  intros Hap Hf U. destruct (find_msg_some _ _ _ _ _ _ Hf) as (a & b & Eq & Ed & Hm & Ha).
  apply msg_matches_iff in Hm as (Hs & Ht & Hc). split; [done|].
  destruct (untouched_inbox _ _ comm (MPI_SOURCE (msg_status m)) U Hap) as [new' Hn].
  set (s := MPI_SOURCE (msg_status m)) in *.
  set (rest := match real_of (table p) comm with Some rc => mail_of rc s (mail (view (lib p))) | None => [] end).
  exists (queue_of comm s a), (queue_of comm s b ++ rest), [], new'. split_and!; [|done|done|].
  - unfold inbox. fold rest. rewrite app_nil_r, Eq, queue_of_app, <- app_assoc. f_equal.
    unfold queue_of at 1. rewrite filter_cons_True by done. done.
  - rewrite Hn. unfold inbox. cbn. fold rest. by rewrite Ed, queue_of_app, <- !app_assoc.
Qed.

(** The number of buffered messages that [existsMatchingMsgBuffer()] reads. *)
Definition queue_counted p : Prop := g_queued_messages p = Z.of_nat (length (g_message_queue p)).

Lemma exists_run source tag comm p :
  queue_counted p →
  existsMatchingMsgBuffer source tag comm p
    = Ok ((λ x, msg_status x.2) <$> find_msg source tag comm (g_message_queue p)) p.
Proof.
  intros Hq. assert (p <| g_queued_messages := Z.of_nat (length (g_message_queue p)) |> = p) as Hid.
  { destruct p. unfold queue_counted in Hq. cbn in Hq. subst. done. }
  unfold existsMatchingMsgBuffer. rewrite (prog_bind_ok _ _ _ (g_queued_messages p) p) by done. rewrite Hq.
  destruct (Z.eqb_spec (Z.of_nat (length (g_message_queue p))) 0) as [E|E].
  - destruct (g_message_queue p) as [|x q]; [done|cbn in E; lia].
  - rewrite (prog_bind_ok _ _ _ (g_message_queue p) p) by done.
    rewrite (prog_bind_ok _ _ _ () p); [done|]. unfold unlockMessageQueue, modify. by rewrite Hid.
Qed.

Lemma consume_takes buf count type source tag comm size p i m :
  inv view p → apart (g_ssend_ack_comm p) → virt_id_next_seq (table p) + 1 < 2 ^ 64 →
  find_msg source tag comm (g_message_queue p) = Some (i, m) →
  wlp (consumeMatchingMsgBuffer polls buf count type source tag comm size)
    (λ s p', s = msg_status m ∧ untouched (p <| g_message_queue := delete i (g_message_queue p) |>) p') p.
Proof.
  intros Hi Hap Hb Hf. unfold consumeMatchingMsgBuffer. eapply wlp_then; [done|]. rewrite Hf. apply wlp_bind, wlp_ret.
  cbn zeta. set (q := g_message_queue p).
  assert (∀ p1, good view True 0 none p p1 → untouched p p1 →
    wlp (modify (λ p, p <| g_message_queue := delete i q |>) ;; unlockMessageQueue ;;
         (if 0 <=? ack_to m then sendSsendAck polls (ack_to m) (ack_tag m) else mret ()) ;; mret (msg_status m))
      (λ s p', s = msg_status m ∧ untouched (p <| g_message_queue := delete i q |>) p') p1) as Hrest.
  { intros p1 G1 U1. eapply wlp_then; [done|]. eapply wlp_then; [done|]. apply wlp_bind.
    match goal with |- wlp _ _ ?x => set (p2 := x) end.
    assert (good view True 0 none p1 p2) as G2 by (apply good_fields; try done; apply G1).
    assert (untouched (p <| g_message_queue := delete i q |>) p2) as U2.
    { split; [done|apply U1|apply U1]. }
    destruct (0 <=? ack_to m); [|by apply wlp_ret, wlp_ret].
    eapply wlp_mono; [apply ssend_ack_untouched; [apply G2| |]|].
    - rewrite (good_ack_comm _ _ _ _ _ _ G2), (good_ack_comm _ _ _ _ _ _ G1). done.
    - pose proof (g_seq _ _ _ _ _ _ G1). pose proof (g_seq _ _ _ _ _ _ G2). lia.
    - intros [] p3 U3. apply wlp_ret. split; [done|]. by eapply untouched_trans. }
  apply wlp_bind. destruct (0 <? _).
  - apply wlp_bind, wlp_real. intros rt _. apply wlp_bind, wlp_real. intros rc _. apply wlp_bind, wlp_call.
    intros rcu l' E. apply law_unpack in E as [-> Hev]. apply wlp_assert. intros _.
    apply Hrest; [by apply good_evolves|]. split; [done|apply Hev|done].
  - apply wlp_ret, Hrest; [by apply good_refl|apply untouched_refl].
Qed.

(** The lower half takes the message, or posts the receive. *)
Lemma irecv_lower_half p p' source tag comm rcomm r l v :
  apart comm → source ≠ MPI_PROC_NULL → find_msg source tag comm (g_message_queue p) = None →
  real_of (table p) comm = Some rcomm → evolves (view (lib p)) v →
  (view l = v <| reqs ::= <[r := RPosted source tag rcomm]> |> ∨
   ∃ m rest, takes source tag rcomm (mail v) m rest ∧ view l = v <| mail := rest |> <| reqs ::= <[r := RMatched]> |>) →
  g_message_queue p' = g_message_queue p → lib p' = l → real_of (table p') comm = real_of (table p) comm →
  (∃ s x, source_ok source s ∧ takes_first p p' comm s tag x) ∨ none_matches p p' comm source tag.
Proof.
  intros Hap Hnp Hf Hrc Hev Hv Eq El Er. destruct (ev_mail _ _ Hev) as [new En].
  assert (∀ s, inbox view p' comm s = queue_of comm s (g_message_queue p) ++ mail_of rcomm s (mail (view l))) as Hin'.
  { intros s. unfold inbox. by rewrite Eq, El, Er, Hrc. }
  destruct Hv as [Hv|(m & rest & (a & b & Em & -> & Hm & Ha) & Hv)].
  - right. intros s Hs. rewrite Hin', Hv. cbn. split.
    + exists (mail_of rcomm s new). unfold inbox. by rewrite Hrc, En, mail_of_app, app_assoc.
    + intros y [Hy|Hy]%elem_of_app; [by eapply find_msg_none|].
      apply elem_of_mail_of in Hy as (m & -> & [Hc <-] & Hm). cbn. intros Ht.
      assert (env_matches source tag rcomm m = false) as Hu.
      { apply (law_unexpected l m r); rewrite Hv; cbn; [done|by rewrite lookup_insert_eq]. }
      assert (env_matches source tag rcomm m = true) by (apply env_matches_iff; done). congruence.
  - left. apply env_matches_iff in Hm as (Hs & Ht & Hc). exists (nm_source m), (nm_tag m, nm_data m). split; [done|].
    set (s := nm_source m) in *. exists (queue_of comm s (g_message_queue p) ++ mail_of rcomm s a), (mail_of rcomm s b), (mail_of rcomm s new), [].
    split_and!; [|done| |].
    + unfold inbox. rewrite Hrc, <- !app_assoc. f_equal. rewrite <- mail_of_app, <- En, Em, mail_of_app. f_equal.
      unfold mail_of. by rewrite filter_cons_True.
    + intros y [Hy|Hy]%elem_of_app; [by eapply find_msg_none|].
      apply elem_of_mail_of in Hy as (m' & -> & [Hc' Hs'] & Hm'). cbn. intros Ht'.
      apply (Ha m' Hm'); [|done]. apply env_matches_iff. by rewrite Hs'.
    + rewrite Hin', Hv. cbn. by rewrite mail_of_app, app_nil_r, app_assoc.
Qed.

Lemma served_untouched real st0 p :
  inv view p → virt_id_next_seq (table p) + 1 < 2 ^ 64 →
  wlp (virtRequest ← on_table (new_virt_request real);
       on_table (complete_virt_request MANA_REQUEST_NULL virtRequest st0) ;; mret (MPI_SUCCESS, virtRequest))
    (λ '(_, rq) p', untouched p p' ∧ info (table p') rq = Some (MANA_REQUEST_NULL, true, st0)) p.
Proof.
  intros [log Hi] Hb. apply wlp_bind, wlp_table. intros rq st1 Hnew.
  destruct (ok_new (table p) st1 (view (lib p)) log rq _ Hi Hb Hnew) as (Hi1 & [Hq [x Hx]] & _ & _ & O1 & _).
  destruct (tables_complete st1 log rq x MANA_REQUEST_NULL st0 (ro_tables _ _ _ _ Hi1) (proj1 Hq) Hx)
    as (st2 & E2 & _ & N2 & O2 & _).
  eapply wlp_then; [apply on_table_run; exact E2|]. apply wlp_ret. split; [|done].
  split; [done|exists []; by rewrite app_nil_r|]. cbn. intros c Hc.
  rewrite (others_real _ _ _ _ O2 Hq Hc). by apply (others_real _ _ _ _ O1 Hq).
Qed.

Lemma posted_takes buf count type rtype source tag comm rcomm p :
  inv view p → apart comm → real_of (table p) comm = Some rcomm → virt_id_next_seq (table p) + 1 < 2 ^ 64 →
  source ≠ MPI_PROC_NULL → find_msg source tag comm (g_message_queue p) = None →
  wlp ('(retval, request) ← call_lib (lh_Irecv buf count rtype source tag rcomm);
       if retval =? MPI_SUCCESS then
         virt ← on_table (new_virt_request request);
         on_table (addPendingRequestToLog IRECV_REQUEST 0 buf count type source tag comm virt) ;; mret (retval, virt)
       else mret (retval, request))
    (λ '(rc, rq) p', rc = MPI_SUCCESS →
       (∃ s x, source_ok source s ∧ takes_first p p' comm s tag x) ∨ none_matches p p' comm source tag) p.
Proof.
  intros [log Hi] Hap Hrc Hb Hnp Hf. apply wlp_bind, wlp_call. intros [rc r] l' E. apply law_irecv in E.
  destruct (decide (rc = MPI_SUCCESS)) as [->|Hne].
  2:{ rewrite (proj2 (Z.eqb_neq _ _) Hne). by apply wlp_ret. }
  rewrite Z.eqb_refl. destruct E as (v & Hev & Hfr & Hnn & Hv).
  set (c := new_call IRECV_REQUEST 0 buf count type source tag comm).
  destruct (irecv_tracks (table p) v (view l') r c rcomm eq_refl Hrc Hv) as (q & _ & _ & _ & Htr).
  apply wlp_bind, wlp_table. intros rq st2 Hnew. cbn [table set_field] in Hnew.
  destruct (start_pending_run (table p) log v r q IRECV_REQUEST 0 buf count type source tag comm rq st2)
    as (st3 & log3 & E3 & Hi3 & O3 & Hlive & _); try done; [by eapply ok_evolves|].
  eapply wlp_then; [apply on_table_run; exact E3|]. apply wlp_ret. intros _. rewrite decide_False in Hv by done.
  eapply (irecv_lower_half p _ source tag comm rcomm r l' v); try done.
  eapply others_real; [exact O3|apply Hlive|done].
Qed.
End receive.
