(* ===== verification/P2pOrderSpec.v ===== *)
(** * Theorems: the drain ends and keeps the order of messages; receives take
    them in that order *)
From S2P Require Import Prelude Mpi Constants VirtualId VirtualIdInv VirtualIdSpec PendingLog PendingLogSpec DatatypeRefs DatatypeSpec RequestTable P2p P2pDrain P2pLaws P2pInv P2pSteps P2pCount P2pOrder P2pReceive P2pSim P2pSample.

Section spec.
Context `{MpiLib} `{P2pLib L} (view : L → netview) `{!P2pLaws L view}.
Context (backlog : L → nat) `{!P2pQuiet L view backlog} (polls : nat).
Implicit Types (p : p2p L) (log : call_log).

(** [may_probe] lets through exactly the communicators that have a real handle. *)
Lemma may_probe_run comm p :
  table_ok (consts (table p)) →
  ∃ b, may_probe comm p = Ok b p ∧ (b = true ↔ comm ≠ MPI_COMM_NULL ∧ is_Some (real_of (table p) comm)).
Proof.
  intros Hok. unfold may_probe. destruct (Z.eqb_spec comm MPI_COMM_NULL) as [E0|E0]; [exists false; naive_solver|]. rewrite (prog_bind_ok _ _ _ _ p) by done.
  unfold is_predefined_id. destruct (find_constant_spec (consts (table p)) (constant_key comm) Hok) as (r & Er & _).
  rewrite Er. eexists. split; [done|]. unfold real_of, get_real_id, get_real_id_slow. rewrite Er. unfold entry_of.
  destruct (lookup_virt_id_entry (table p) comm) as [s|] eqn:Hs.
  - destruct (lookup_slot_entry _ _ _ Hs) as (e & He & _). cbn [mbind option_bind]. rewrite He, (bool_decide_true (is_Some (Some s))) by done.
    rewrite orb_true_r. naive_solver.
  - cbn [mbind option_bind]. rewrite (bool_decide_false (is_Some None)), orb_false_r by (by intros []). destruct r as [c|].
    + rewrite bool_decide_true by done. naive_solver.
    + rewrite bool_decide_false by (by intros []). unfold get_virt_id_entry. prog_red. rewrite Hs. split; [done|]. by intros [_ []].
Qed.

(** What the drain leaves on a communicator. *)
Definition probed (comm : Z) p : Prop := comm ≠ MPI_COMM_NULL ∧ is_Some (real_of (table p) comm).
Definition drained (comm : Z) p p' : Prop := emptied view comm p p' ∨ recv_waits view comm p'.

(** One communicator of the list. *)
Lemma drain_one_run comms comm p log :
  requests_ok None (table p) (view (lib p)) log → comm ∈ comms → comms_ok p comms →
  table_ok (consts (table p)) → (0 < polls)%nat → (work backlog p log < polls)%nat →
  ∃ n p1 log1, (probe ← may_probe comm; if (probe : bool) then drain_comm polls polls comm else mret 0) p = Ok n p1 ∧
    in_order view comms p p1 ∧ requests_ok None (table p1) (view (lib p1)) log1 ∧ (work backlog p1 log1 ≤ work backlog p log)%nat ∧
    (probed comm p → drained comm p p1) ∧
    ∀ c, c ∈ comms → c ≠ comm → recv_waits view c p → recv_waits view c p1.
Proof.
  intros Hi Hin Hok Ht Hp Hw. destruct (may_probe_run comm p Ht) as (b & E & Hb). rewrite (prog_bind_ok _ _ _ _ _ E).
  destruct b.
  2:{ exists 0, p, log. split_and!; [done|apply in_order_refl|done|done| |done]. intros Hpr. apply Hb in Hpr. done. }
  destruct (proj1 Hb eq_refl) as [_ [rcomm Hrc]].
  destruct (drain_comm_run view backlog polls polls comm p log comms rcomm) as (n & p1 & log1 & E1 & O1 & Hi1 & Hw1 & S1 & D1); try done.
  exists n, p1, log1. split_and!; try done. intros c Hc Hne. apply (recv_waits_then view comms c rcomm); [by apply Hok|done|done|].
  intros Hr. apply Hne. by apply (proj2 Hok c comm rcomm).
Qed.

Lemma drain_comms_run comms todo p log :
  requests_ok None (table p) (view (lib p)) log → (∀ c, c ∈ todo → c ∈ comms) → comms_ok p comms →
  table_ok (consts (table p)) → (0 < polls)%nat → (work backlog p log < polls)%nat →
  ∃ n p' log', drain_comms polls todo p = Ok n p' ∧ in_order view comms p p' ∧
    requests_ok None (table p') (view (lib p')) log' ∧
    (∀ c, c ∈ todo → probed c p → drained c p p') ∧
    ∀ c, c ∈ comms → c ∉ todo → recv_waits view c p → recv_waits view c p'.
Proof.
  revert p log. induction todo as [|comm todo IH]; intros p log Hi Hin Hok Ht Hp Hw; cbn [drain_comms].
  { exists 0, p, log. split_and!; [done|apply in_order_refl|done|by intros c ?%not_elem_of_nil|done]. }
  destruct (drain_one_run comms comm p log Hi (Hin comm (list_elem_of_here _ _)) Hok Ht Hp Hw) as (n & p1 & log1 & E1 & O1 & Hi1 & Hw1 & D1 & W1).
  apply prog_bind_inv in E1 as (b & q & E0 & E1). rewrite (prog_bind_ok _ _ _ _ _ E0), (prog_bind_ok _ _ _ _ _ E1).
  destruct (IH p1 log1) as (n2 & p2 & log2 & E2 & O2 & Hi2 & D2 & W2); [done| | | |done|lia|].
  - intros c Hc. apply Hin. by right.
  - by eapply comms_ok_step.
  - pose proof (io_fixed _ _ _ _ O1) as Hf. injection Hf as Hc _ _. by rewrite Hc.
  - exists (n + n2), p2, log2. split_and!; [|by eapply in_order_trans|done| |].
    + by rewrite (prog_bind_ok _ _ _ _ _ E2).
    + intros c Hc Hpr. destruct (decide (c ∈ todo)) as [Hc'|Hc'].
      * destruct (D2 c Hc') as [D|D]; [|left; eapply emptied_after; [apply Hin; exact Hc|done|done]|by right].
        destruct Hpr as [Hn Hr]. split; [done|]. rewrite (io_real _ _ _ _ O1); [done|]. by apply Hok, Hin.
      * apply elem_of_cons in Hc as [->|Hc]; [|done]. destruct (D1 Hpr) as [D|D]; [left; by eapply emptied_then|right].
        apply W2; [apply Hin; by left|done|done].
    + intros c Hc Hnt Hwt. apply not_elem_of_cons in Hnt as [H1 H2]. apply W2; [done|done|]. by apply W1.
Qed.

(** The communicators that the drain probes. *)
Definition drained_comms p : list Z :=
  match live_virt_comms (table p) with
  | Ok live _ => active_comms p ++ filter (.≠ g_world_comm (table p)) live
  | _ => []
  end.

(** C18. The drain ends, empties the network and keeps the order of messages.
    While no process starts a send, [drainRemainingP2pMsgs()] returns.  For every
    communicator that it probes and every sender, the messages that the
    application has yet to receive (those of MANA's buffer, then those of the
    lower half) are the same as before, in the same order, followed by the
    messages that arrived meanwhile.  And for every such communicator with a real
    handle, all messages that were in the lower half before are now in MANA's buffer, in that order,
    unless the process's blocked [MPI_Recv] waits for a message of the
    communicator that is in the lower half: the drain leaves that one, and those
    behind it, to the receive.  A
    message whose pending [MPI_Irecv] was already matched is left to that receive. *)
Theorem drain_keeps_order p log :
  requests_ok None (table p) (view (lib p)) log → table_ok (consts (table p)) →
  comms_ok p (drained_comms p) → (backlog (lib p) + length log < polls)%nat →
  ∃ n p', drainRemainingP2pMsgs polls p = Ok n p' ∧ inv view p' ∧
    (∀ c s, c ∈ drained_comms p → ∃ new, inbox view p' c s = inbox view p c s ++ new) ∧
    ∀ c, c ∈ drained_comms p → c ≠ MPI_COMM_NULL → is_Some (real_of (table p) c) →
      emptied view c p p' ∨ recv_waits view c p'.
Proof.
  intros Hi Ht Hok Hw. unfold drainRemainingP2pMsgs.
  destruct (tables_ok _ _ (ro_tables _ _ _ _ Hi)) as (app & free & live & _ & Hvid).
  assert (∃ l, live_virt_comms (table p) = Ok l (table p)) as [l El].
  { unfold live_virt_comms. prog_red. rewrite (scan_run _ _ _ Hvid). by eexists. }
  rewrite (prog_bind_ok _ _ _ (active_comms p) p) by done.
  rewrite (prog_bind_ok _ _ _ l p) by (by apply on_table_read). rewrite (prog_bind_ok _ _ _ (table p) p) by done.
  assert (drained_comms p = active_comms p ++ filter (.≠ g_world_comm (table p)) l) as <- by (unfold drained_comms; by rewrite El).
  destruct (drain_comms_run (drained_comms p) (drained_comms p) p log Hi) as (n & p' & log' & E & O & Hi' & D & _); try done; [lia|].
  exists n, p'. split; [done|]. split; [by exists log'|]. split; [intros c s Hc; by apply (io_inbox _ _ _ _ O)|].
  intros c Hc Hn Hr. apply D; [done|by split].
Qed.

(** A receive takes the earliest matching message.  [MPI_Irecv] takes, from
    some sender that it accepts, the first message with its tag among those that
    the application has yet to receive from that sender (MANA's buffer first,
    then the lower half); the rest of that sender's messages is kept in order.
    If it takes none, then none matches, and nothing is lost. *)
Theorem irecv_takes_first p buf count type source tag comm :
  inv view p → queue_counted p → apart comm → apart (g_ssend_ack_comm p) → source ≠ MPI_PROC_NULL →
  virt_id_next_seq (table p) + 2 < 2 ^ 64 →
  wlp (PMPI_Irecv polls buf count type source tag comm) (λ '(rc, rq) p', rc = MPI_SUCCESS →
    (∃ s x, source_ok source s ∧ takes_first view p p' comm s tag x) ∨ none_matches view p p' comm source tag) p.
Proof.
  intros Hi Hq Hap Hack Hnp Hb. unfold PMPI_Irecv, MPI_Irecv_internal.
  eapply wlp_then; [by apply exists_run|]. destruct (find_msg source tag comm (g_message_queue p)) as [[i m]|] eqn:Hf; cbn.
  - apply wlp_bind. unfold recv_size. apply wlp_bind, wlp_real. intros rt _. apply wlp_bind, wlp_call. intros [rc0 sz] l1 E.
    apply law_type_size in E. apply wlp_ret. pose proof (good_evolves view p l1 Hi E) as G1.
    apply wlp_bind. eapply wlp_mono; [apply wlp_and; [apply (consume_good view); [apply G1|done|cbn; lia]|
      apply (consume_takes view polls _ _ _ _ _ _ _ (p <| lib := l1 |>) i m); [apply G1|done|cbn; lia|done]]|].
    intros s p2 [G2 [-> U2]]. pose proof (g_seq _ _ _ _ _ _ G2) as Q2. cbn in Q2.
    eapply wlp_mono; [apply served_untouched; [apply G2|lia]|]. intros [rc rq] p3 [U3 _] _. left.
    destruct (buffer_takes_first view p p3 source tag comm i m Hap Hf) as [Hs Htk]; [|by eauto].
    eapply untouched_trans; [|exact U3]. eapply untouched_trans; [|exact U2]. split; [done|apply E|done].
  - apply wlp_bind, wlp_real. intros rcomm Hrc. apply wlp_bind, wlp_real. intros rt _.
    apply (posted_takes view); try done. lia.
Qed.

(** A probe reports the earliest matching message.  [MPI_Iprobe] returns;
    if it reports a message, its status has the sender and the tag of the first message with
    the probe's tag among those that the application has yet to receive from
    that sender, and the message stays there. *)
Theorem iprobe_reports_first p source tag comm :
  queue_counted p → apart comm → is_Some (real_of (table p) comm) →
  wp (PMPI_Iprobe source tag comm) (λ '(rc, flag, s) p', rc = MPI_SUCCESS ∧ untouched view p p' ∧
    (flag = true → source_ok source (MPI_SOURCE s) ∧
       ∃ a x b, inbox view p' comm (MPI_SOURCE s) = a ++ x :: b ∧ x.1 = MPI_TAG s ∧ tag_ok tag x.1 ∧
         ∀ y, y ∈ a → ¬ tag_ok tag y.1)) p.
Proof.
  intros Hq Hap [rcomm Hrc]. unfold PMPI_Iprobe. apply wp_bind. unfold wp at 1. rewrite exists_run by done.
  destruct (find_msg source tag comm (g_message_queue p)) as [[i m]|] eqn:Hf; cbn.
  - apply wp_ret. split; [done|]. split; [apply untouched_refl|]. intros _.
    destruct (find_msg_some _ _ _ _ _ _ Hf) as (a & b & Eq & _ & (Hs & Ht & Hc)%msg_matches_iff & Ha). split; [done|].
    eexists (queue_of comm _ a), (MPI_TAG (msg_status m), msg_buf m), _. split; [|by split].
    unfold inbox. rewrite Eq, queue_of_app. unfold queue_of at 2. rewrite filter_cons_True by done. cbn.
    by rewrite <- app_assoc.
  - unfold MPI_Iprobe_internal. apply wp_bind. unfold wp at 1. rewrite (on_table_read _ _ _ (real_of_run _ _ _ Hrc)).
    unfold wp, call_lib. destruct (lh_Iprobe source tag rcomm (lib p)) as [[[rc flag] s] l'] eqn:E. apply law_iprobe in E as (-> & Hev & Hfl & _). split; [done|].
    split; [split; [done|apply Hev|done]|]. intros ->. destruct (Hfl eq_refl) as (m & rest & Htk & Hst).
    destruct Htk as (a & b & Em & _ & (Hs & Ht & Hc)%env_matches_iff & Ha), Hst as (-> & -> & _). split; [done|].
    exists (queue_of comm (nm_source m) (g_message_queue p) ++ mail_of rcomm (nm_source m) a), (nm_tag m, nm_data m),
      (mail_of rcomm (nm_source m) b). split_and!; [|done|done|].
    + unfold inbox. cbn. rewrite Hrc, Em, mail_of_app, <- app_assoc. unfold mail_of at 2. by rewrite filter_cons_True.
    + intros y [Hy|Hy]%elem_of_app; [by eapply find_msg_none|].
      apply elem_of_mail_of in Hy as (m' & -> & [Hc' Hs'] & Hm'). cbn. intros Ht'.
      apply (Ha m' Hm'); [|done]. apply env_matches_iff. by rewrite Hs'.
Qed.
End spec.

#[local] Existing Instance sample_lib.

(** Nothing is in flight in the simulation: the backlog is the mail. *)
Definition sim_backlog (l : netview) : nat := length (mail (norm l)).
#[export] Instance sim_quiet : P2pQuiet netview norm sim_backlog.
Proof.
  unfold sim_backlog. split; [done|..].
  - intros s t c l x l'. sim_red. destruct (first_of _ _ _ _) as [[m rest]|]; intros [= _ <-];
      by rewrite (norm_id (norm l)) by apply norm_normal.
  - intros r l x l'. sim_red. pose proof (norm_normal l) as Hn.
    destruct (reqs (norm l) !! r) as [[]|]; intros [= _ <-];
      first [by rewrite (norm_id (norm l)) by done|by rewrite (norm_id (set_field _ _ _)) by (by apply test_normal)].
  - intros count s t c l x l'. sim_red. pose proof (norm_normal l) as Hn.
    destruct (first_of s t c (mail (norm l))) as [[m rest]|] eqn:E; intros [= _ <-].
    + apply first_of_some in E as [Htk _]. intros _. rewrite (norm_id (set_field _ _ _)).
      * destruct Htk as (a & b & -> & -> & _). cbn. rewrite !length_app. cbn. lia.
      * apply (normal_counts _ Z.succ id). by eapply take_normal.
    + rewrite (norm_id (norm l)) by done. lia.
Qed.

Definition sample_world : Z := sample_lower "COMM_WORLD".
Definition sample_mail : list net_msg :=
  [mk_net 3 7 sample_world [1; 2]; mk_net 4 7 sample_world [9]; mk_net 3 8 sample_world [5]].
Definition sample_full : p2p netview := sample_p2p P2P_WAIT_POLLING sample_mail.

Lemma sample_drained : drained_comms sample_full = [MPI_COMM_WORLD; MPI_COMM_SELF].
Proof. vm_compute. reflexivity. Qed.
Lemma sample_queue_counted : queue_counted sample_full.
Proof. reflexivity. Qed.
Lemma sample_table_ok : table_ok sample_consts.
Proof.
  destruct (init_predefined_entered sample_c2f sample_lower init_constants ∅ repr_empty) as (cs & m & E & He);
    [set_solver|apply sample_coherent|].
  assert (sample_consts = cs) as -> by (unfold sample_consts; by rewrite E). apply (entered_repr _ _ _ _ _ _ He).
Qed.

Lemma sample_comms_ok : comms_ok sample_full (drained_comms sample_full).
Proof.
  rewrite sample_drained. split.
  - intros c [->| ->%list_elem_of_singleton]%elem_of_cons; by_decide.
  - assert (real_of (table sample_full) MPI_COMM_WORLD = Some sample_world ∧
      real_of (table sample_full) MPI_COMM_SELF = Some (sample_lower "COMM_SELF")) as [E1 E2]
      by (split; vm_compute; reflexivity).
    intros c c' r [->| ->%list_elem_of_singleton]%elem_of_cons [->| ->%list_elem_of_singleton]%elem_of_cons;
      rewrite ?E1, ?E2; intros [= <-] [=]; done.
Qed.

(** Three messages of two senders are drained into MANA's buffer. *)
Lemma drain_keeps_order_witness : ∃ n p',
  drainRemainingP2pMsgs 10 sample_full = Ok n p' ∧
  ∃ more, queue_of MPI_COMM_WORLD 3 (g_message_queue p') = [(7, [1; 2]); (8, [5])] ++ more.
Proof.
  destruct (drain_keeps_order norm sim_backlog 10 sample_full [] (sample_requests_ok _ _) sample_table_ok sample_comms_ok)
    as (n & p' & E & _ & _ & Hd); [apply Nat.ltb_lt; vm_compute; reflexivity|].
  exists n, p'. split; [exact E|]. destruct (Hd MPI_COMM_WORLD) as [He|(m & st & _ & _ & _ & Hw)].
  - rewrite sample_drained. by left.
  - vm_compute. discriminate.
  - exists sample_world. vm_compute. reflexivity.
  - destruct (He 3) as [more Hm]. exists more. rewrite Hm.
    by assert (inbox norm sample_full MPI_COMM_WORLD 3 = [(7, [1; 2]); (8, [5])]) as -> by (vm_compute; reflexivity).
  - exfalso. assert (match drainRemainingP2pMsgs 10 sample_full with Ok _ q => pr_state (g_pending_recv q) | _ => PENDING_RECV_ACTIVE end ≠ PENDING_RECV_ACTIVE) as Hs
      by (vm_compute; discriminate). rewrite E in Hs. revert Hw. unfold pendingRecvMatches. prog_red. by rewrite (bool_decide_false _ Hs).
Defined.

(** The receive of tag 8 from sender 3 passes the message of tag 7. *)
Lemma irecv_takes_first_witness : ∃ rq p',
  PMPI_Irecv 10 0x100 1 MPI_BYTE 3 8 MPI_COMM_WORLD sample_full = Ok (MPI_SUCCESS, rq) p' ∧
  ((∃ s x, source_ok 3 s ∧ takes_first norm sample_full p' MPI_COMM_WORLD s 8 x) ∨
   none_matches norm sample_full p' MPI_COMM_WORLD 3 8) ∧
  inbox norm p' MPI_COMM_WORLD 3 = [(7, [1; 2])].
Proof.
  pose proof (irecv_takes_first norm 10 sample_full 0x100 1 MPI_BYTE 3 8 MPI_COMM_WORLD (sample_inv _ _)) as Ht.
  destruct (PMPI_Irecv 10 0x100 1 MPI_BYTE 3 8 MPI_COMM_WORLD sample_full) as [[rc rq] p'| |] eqn:E.
  - assert (match PMPI_Irecv 10 0x100 1 MPI_BYTE 3 8 MPI_COMM_WORLD sample_full with
      | Ok (rc, _) q => bool_decide (rc = MPI_SUCCESS ∧ inbox norm q MPI_COMM_WORLD 3 = [(7, [1; 2])]) | _ => false end = true) as Hc
      by (vm_compute; reflexivity).
    rewrite E in Hc. apply bool_decide_eq_true in Hc as [-> Hbox]. exists rq, p'. split; [done|]. split; [|done].
    assert (MPI_SUCCESS = MPI_SUCCESS → (∃ s x, source_ok 3 s ∧ takes_first norm sample_full p' MPI_COMM_WORLD s 8 x) ∨
      none_matches norm sample_full p' MPI_COMM_WORLD 3 8) as Hr; [|by apply Hr].
    apply (wlp_ok _ _ _ _ _ (Ht sample_queue_counted ltac:(by_decide) ltac:(by_decide) ltac:(done) ltac:(by_decide)) E).
  - assert (match PMPI_Irecv 10 0x100 1 MPI_BYTE 3 8 MPI_COMM_WORLD sample_full with Abort => false | _ => true end = true) as Hc
      by (vm_compute; reflexivity). by rewrite E in Hc.
  - assert (match PMPI_Irecv 10 0x100 1 MPI_BYTE 3 8 MPI_COMM_WORLD sample_full with Spin => false | _ => true end = true) as Hc
      by (vm_compute; reflexivity). by rewrite E in Hc.
Defined.

Lemma iprobe_reports_first_witness : ∃ s p',
  PMPI_Iprobe 3 MPI_ANY_TAG MPI_COMM_WORLD sample_full = Ok (MPI_SUCCESS, true, s) p' ∧ MPI_TAG s = 7 ∧
  untouched norm sample_full p'.
Proof.
  assert (match PMPI_Iprobe 3 MPI_ANY_TAG MPI_COMM_WORLD sample_full with
      | Ok (rc, flag, s) _ => bool_decide (flag = true ∧ MPI_TAG s = 7) | _ => false end = true) as Hc
      by (vm_compute; reflexivity).
  assert (is_Some (real_of (table sample_full) MPI_COMM_WORLD)) as Hr by (exists sample_world; vm_compute; reflexivity).
  assert (apart MPI_COMM_WORLD) as Ha by by_decide.
  destruct (wp_ok _ _ _ (iprobe_reports_first norm sample_full 3 MPI_ANY_TAG MPI_COMM_WORLD sample_queue_counted Ha Hr))
    as ([[rc flag] s] & p' & E & Hrc & U & _).
  rewrite E in Hc. apply bool_decide_eq_true in Hc as [-> Ht]. rewrite Hrc in E. exists s, p'. split; [exact E|].
  split; [exact Ht|exact U].
Defined.
