(* ===== verification/P2pBufferSpec.v ===== *)
(** * Theorems: the acks of MPI_Issends and the unpacking of buffered messages *)
From S2P Require Import Prelude Mpi Constants VirtualId P2p P2pDrain P2pLaws P2pSim P2pSample.

Section spec.
Context `{MpiLib} `{P2pLib L}.
Implicit Types (p : p2p L) (q : list mpi_message_t).

(** The messages with one envelope. *)
Definition enveloped (comm source tag : Z) (q : list mpi_message_t) : list mpi_message_t :=
  filter (λ m, same_envelope comm source tag m = true) q.

(** The search from the end, in a reversed queue. *)
Lemma find_from_end_spec comm source tag n k rq :
  n ≤ k →
  match find_from_end comm source tag n k rq with
  | Some i => ∃ a m b, rq = a ++ m :: b ∧ length a = i ∧ same_envelope comm source tag m = true ∧
      n + Z.of_nat (length (enveloped comm source tag a)) = k
  | None => n + Z.of_nat (length (enveloped comm source tag rq)) ≤ k
  end.
Proof.
  revert n. induction rq as [|m rq IH]; intros n Hn; cbn [find_from_end]; [cbn; lia|].
  destruct (same_envelope comm source tag m) eqn:Em.
  - destruct (Z.eqb_spec n k) as [->|Hne]; [exists [], m, rq; split_and!; try done; cbn; lia|].
    specialize (IH (n + 1) ltac:(lia)). destruct (find_from_end comm source tag (n + 1) k rq) as [i|]; cbn [fmap option_fmap option_map].
    + destruct IH as (a & m' & b & -> & <- & Hm & Hk). exists (m :: a), m', b. split_and!; try done.
      unfold enveloped in *. rewrite filter_cons_True by done. cbn [length]. lia.
    + unfold enveloped in *. rewrite filter_cons_True by done. cbn [length]. lia.
  - specialize (IH n Hn). destruct (find_from_end comm source tag n k rq) as [i|]; cbn [fmap option_fmap option_map].
    + destruct IH as (a & m' & b & -> & <- & Hm & Hk). exists (m :: a), m', b. split_and!; try done.
      unfold enveloped in *. rewrite filter_cons_False by congruence. done.
    + unfold enveloped in *. rewrite filter_cons_False by congruence. done.
Qed.

Lemma enveloped_reverse comm source tag q :
  length (enveloped comm source tag (reverse q)) = length (enveloped comm source tag q).
Proof. unfold enveloped. apply Permutation_length. by rewrite reverse_Permutation. Qed.

(** An ack is owed for the right message.  [markSsendAck()] marks the
    buffered message that exactly [later_sends] buffered messages with the same
    envelope follow, and nothing else; it returns false, and changes nothing, if
    the buffer holds at most [later_sends] such messages (the application has
    received the [MPI_Issend]'s); and it stops the process if that message is
    marked already. *)
Theorem ack_marks_message p comm source tag later sender acktag :
  0 ≤ later →
  (∃ a m b, g_message_queue p = a ++ m :: b ∧ same_envelope comm source tag m = true ∧
     Z.of_nat (length (enveloped comm source tag b)) = later ∧
     markSsendAck comm source tag later sender acktag p =
       if ack_to m =? -1 then
         Ok true (p <| g_message_queue := a ++ m <| ack_to := sender |> <| ack_tag := acktag |> :: b |>
                    <| g_queued_messages := Z.of_nat (length (g_message_queue p)) |>)
       else Abort) ∨
  (Z.of_nat (length (enveloped comm source tag (g_message_queue p))) ≤ later ∧
   markSsendAck comm source tag later sender acktag p =
     Ok false (p <| g_queued_messages := Z.of_nat (length (g_message_queue p)) |>)).
Proof.
  intros Hl. unfold markSsendAck. rewrite (prog_bind_ok _ _ _ (g_message_queue p) p) by done.
  set (q := g_message_queue p).
  pose proof (find_from_end_spec comm source tag 0 later (reverse q) Hl) as Hf.
  destruct (find_from_end comm source tag 0 later (reverse q)) as [k|] eqn:Ek.
  - left. destruct Hf as (a & m & b & Er & <- & Hm & Hk).
    assert (q = reverse b ++ m :: reverse a) as Eq.
    { rewrite <- (reverse_involutive q), Er, reverse_app, reverse_cons, <- app_assoc. done. }
    exists (reverse b), m, (reverse a). split; [done|]. split; [done|]. split; [rewrite enveloped_reverse; lia|].
    assert (length q - 1 - length a = length (reverse b))%nat as ->.
    { rewrite Eq, length_app. cbn. rewrite !length_reverse. lia. }
    assert (q !! length (reverse b) = Some m) as Hlk by (rewrite Eq, lookup_app_r, Nat.sub_diag by lia; done).
    rewrite Hlk. prog_red. destruct (ack_to m =? -1); [|done]. unfold unlockMessageQueue, modify.
    assert (<[length (reverse b) := m <| ack_to := sender |> <| ack_tag := acktag |>]> q =
      reverse b ++ m <| ack_to := sender |> <| ack_tag := acktag |> :: reverse a) as ->.
    { rewrite Eq, insert_app_r_alt, Nat.sub_diag by lia. done. }
    unfold set_field. cbn. rewrite Eq, !length_app. done.
  - right. rewrite enveloped_reverse in Hf. split; [lia|]. done.
Qed.
End spec.

(** Unpacking stays within the message and the receive buffer.  If the size
    of the receive ([type_size * count]) fits an [int], the elements unpacked
    from a buffered message are as many whole elements as the message holds, and
    at most [count]. *)
Theorem unpack_whole_elements type_size count msg_bytes :
  0 < type_size → 0 ≤ count → type_size * count < 2 ^ 31 → 0 ≤ msg_bytes →
  let elements := unpacked_elements count (s32 (type_size * count)) msg_bytes in
  0 ≤ elements ≤ count ∧ elements * type_size ≤ msg_bytes ∧
  (elements = count ∨ msg_bytes < (elements + 1) * type_size).
Proof.
  intros Ht Hc Hs Hm. cbv zeta. unfold unpacked_elements. rewrite s32_small by nia.
  destruct (Z.ltb_spec 0 count) as [H0|H0].
  - rewrite Z.quot_mul by lia. rewrite (proj2 (Z.ltb_lt _ _) Ht). rewrite Z.quot_div_nonneg by lia.
    pose proof (Z.div_mod msg_bytes type_size ltac:(lia)) as Hd. pose proof (Z.mod_pos_bound msg_bytes type_size Ht).
    pose proof (Z.div_pos msg_bytes type_size Hm Ht).
    destruct (Z.ltb_spec count (msg_bytes / type_size)); nia.
  - cbn. replace count with 0 by lia. cbn. lia.
Qed.

(** The multiplication is an [int]'s: a receive of 2^29 + 1 elements of 8 bytes
    has size 8, so that an 800-byte message is dropped without a byte
    unpacked. *)
Lemma unpack_overflow_drops :
  unpacked_elements (2 ^ 29 + 1) (s32 (8 * (2 ^ 29 + 1))) 800 = 0.
Proof. vm_compute. reflexivity. Qed.

#[local] Existing Instance sample_lib.

Definition sample_buffered (tag : Z) : mpi_message_t :=
  mk_message [1] 1 MPI_BYTE 1 MPI_COMM_WORLD (mk_status 3 tag 0 1) (-1) 0.

Definition sample_queue : p2p netview :=
  (sample_p2p P2P_WAIT_POLLING []) <| g_message_queue :=
    [sample_buffered 7; sample_buffered 7; sample_buffered 8; sample_buffered 7] |>.

(** Of three messages with tag 7, one later send: the second is marked. *)
Lemma ack_marks_message_witness : ∃ a m b,
  g_message_queue sample_queue = a ++ m :: b ∧ length (enveloped MPI_COMM_WORLD 3 7 b) = 1%nat ∧
  ∃ p', markSsendAck MPI_COMM_WORLD 3 7 1 5 9 sample_queue = Ok true p' ∧ ack_to <$> g_message_queue p' = [-1; 5; -1; -1].
Proof.
  assert (match markSsendAck MPI_COMM_WORLD 3 7 1 5 9 sample_queue with
    | Ok true p' => bool_decide (ack_to <$> g_message_queue p' = [-1; 5; -1; -1]) | _ => false end = true) as Hc
    by (vm_compute; reflexivity).
  destruct (ack_marks_message sample_queue MPI_COMM_WORLD 3 7 1 5 9) as [(a & m & b & Eq & Hm & Hb & E)|[_ E]];
    [lia| |rewrite E in Hc; discriminate Hc].
  exists a, m, b. split; [exact Eq|]. split; [lia|]. rewrite E in Hc |- *. destruct (ack_to m =? -1); [|discriminate Hc].
  eexists. split; [reflexivity|]. by apply bool_decide_eq_true in Hc.
Defined.

Lemma unpack_whole_elements_witness :
  unpacked_elements 10 (s32 (8 * 10)) 30 = 3 ∧ 3 * 8 ≤ 30.
Proof.
  destruct (unpack_whole_elements 8 10 30) as (_ & H1 & _); [lia|lia|lia|lia|].
  split; [vm_compute; reflexivity|]. vm_compute in H1. vm_compute. exact H1.
Defined.
