(* ===== verification/P2pJob.v ===== *)
(** * The drain of point-to-point messages across all processes
    ([drainWithoutBarriers()] of [src/src/p2p_drain.cpp], with the blocking part
    of [PMPI_Recv] of [src/src/mpi-wrappers/mpi_p2p_wrappers.cpp])

    A step relation on the list of processes.  Each process has its checkpoint
    thread, which runs the drain, and an application thread, which may be in a
    blocking [MPI_Recv]; the two share the received counter, the slot of the
    pending receive and [p2p_dummy_phase], and every access to them is a step of
    its own.  [close_lower_half_except_blocked()] and a closed slot keep
    every other call out while the drain runs, so no send and no new receive
    starts: the messages that were sent to a process are a number,
    [real_to].  What a process contributes to the reduction of a round is the
    last element of its [hist]; a process gets the sums of a round once all
    processes have contributed.

    MPI matches a message with the receive that was posted first.  [irecvs] is the
    number of pending [MPI_Irecv]s, posted before the blocked [MPI_Recv], that its
    dummy would match: such an [MPI_Irecv] takes the dummy, and the drain counts
    it as a message ([js_irecv_dummy]).  [PMPI_Isend]s, collectives and dummies
    that are not complete only keep the drain going; a process contributes any
    Boolean for them.  A process whose assertion fails ([postDummy()] finds no
    sender) takes no further step. *)
From S2P Require Import Prelude P2p.

Inductive msg_kind := Real | Dummy.

(** Where the application thread is in [PMPI_Recv]: not in it (or waiting in the
    upper half), in the lower half, back with a message, past the read of
    [p2p_dummy_phase], past the store of the slot. *)
Inductive app_pc :=
  | Out
  | InRecv
  | Got (k : msg_kind)
  | Read (k : msg_kind) (dummy : bool)
  | Stored (k : msg_kind).

(** A process's contribution to a round: [recv], [in_recv], whether its
    [MPI_Isend]s and collectives are complete, whether its dummies are. *)
Record sample := mk_sample { s_recv : nat; s_in_recv : bool; s_done : bool; s_dummies_done : bool }.

(** Where the checkpoint thread is: at the top of the loop, in pass 1 between the
    compare-and-swap of the slot and the store of [p2p_dummy_phase], completing and
    receiving messages, past the read of the received counter, in the reduction,
    out of the loop. *)
Inductive drain_pc := Top | Closing | Work | Sampled (recv : nat) | Reduce | Exited.

(** The pending receive's source: a process, or [MPI_ANY_SOURCE] with the members
    of the communicator, in the order of their ranks in it. *)
Inductive recv_source := From (sender : nat) | Any (members : list nat).

Record rank := mk_rank {
  sent : nat;                  (* local_sent_messages *)
  recv : nat;                  (* local_recv_messages *)
  slot : pending_recv_state;
  dummy_phase : bool;
  app : app_pc;
  real_to : nat;               (* messages to this process that nobody has taken *)
  dummy_to : nat;              (* dummies to this process that nobody has taken *)
  dpc : drain_pc;
  dummy_pass : nat;
  blocked : bool;
  post : option nat;           (* the process that this one asked for a dummy *)
  hist : list sample;
  source : recv_source;
  irecvs : nat;                (* pending MPI_Irecvs that the dummy would match first *)
  irecv_dummies : nat          (* dummies that such an MPI_Irecv took *)
}.
#[export] Instance eta_rank : Eta rank := λ r,
  mk_rank (sent r) (recv r) (slot r) (dummy_phase r) (app r) (real_to r) (dummy_to r) (dpc r) (dummy_pass r)
    (blocked r) (post r) (hist r) (source r) (irecvs r) (irecv_dummies r).

(** ** The loop of the checkpoint thread *)

(** The part of the round before the messages: pass 1 closes an idle slot and
    publishes that the process is blocked (the flag is set in the next step), pass
    2 posts the dummy's request to [sender], pass 3 is in [send_dummies]. *)
Definition pass_action (sender : nat) (r : rank) : rank :=
  let r1 :=
    match dummy_pass r with
    | 1%nat => r <| slot := if bool_decide (slot r = PENDING_RECV_IDLE) then PENDING_RECV_CLOSED else slot r |>
                 <| blocked := bool_decide (slot r = PENDING_RECV_ACTIVE) |>
    | 2%nat => if blocked r then r <| post := Some sender |> else r
    | _ => r
    end in
  r1 <| dummy_pass := if decide (dummy_pass r = O) then O else S (dummy_pass r) |>
     <| dpc := if decide (dummy_pass r = 1%nat) then Closing else Work |>.

(** The sender that [postDummy()] chooses: the source, or the first member whose bit
    in the bitmap is not set.  [None]: the assertion fails. *)
Definition blocked_bit (l : list rank) (j : nat) : bool := default false (blocked <$> l !! j).
Fixpoint first_not_blocked (l : list rank) (members : list nat) : option nat :=
  match members with
  | [] => None
  | j :: members => if blocked_bit l j then first_not_blocked l members else Some j
  end.
Definition dummy_sender (l : list rank) (s : recv_source) : option nat :=
  match s with From j => Some j | Any members => first_not_blocked l members end.
(** [sendPostedDummies()] of process [i], in pass 3. *)
Definition send_dummies (i : nat) (l : list rank) : list rank :=
  (λ r, if decide (post r = Some i) then r <| dummy_to ::= S |> else r) <$> l.

Definition take_sample (recv0 : nat) (sends_done dummies_done : bool) (r : rank) : rank :=
  r <| hist ::= λ h, h ++ [mk_sample recv0 (bool_decide (slot r = PENDING_RECV_ACTIVE)) sends_done dummies_done] |>
    <| dpc := Reduce |>.

(** ** The sums of a round *)

Definition round_samples (k : nat) (l : list rank) : list sample := omap (λ r, hist r !! k) l.
Definition received (k : nat) (l : list rank) : bool :=
  (sum_list_with sent l <=? sum_list_with s_recv (round_samples k l))%nat && forallb s_done (round_samples k l).
Definition some_in_recv (k : nat) (l : list rank) : bool := existsb s_in_recv (round_samples k l).
Definition dummies_done (k : nat) (l : list rank) : bool := forallb s_dummies_done (round_samples k l).
Definition leaves (k : nat) (l : list rank) : bool :=
  received k l && negb (some_in_recv k l) && dummies_done k l.
Definition starts_dummies (k : nat) (l : list rank) : bool := received k l && some_in_recv k l.

(** After the reduction of round [k]. *)
Definition end_round (k : nat) (l : list rank) (r : rank) : rank :=
  if leaves k l then r <| dpc := Exited |>
  else (if starts_dummies k l && bool_decide (dummy_pass r = O) then r <| dummy_pass := 1%nat |> else r) <| dpc := Top |>.

(** ** Steps *)

Inductive job_step (l : list rank) : list rank → Prop :=
  (* the checkpoint thread *)
  | js_top i r sender :
      l !! i = Some r → dpc r = Top →
      (dummy_pass r = 2%nat → blocked r = true → dummy_sender l (source r) = Some sender) →
      job_step l (let l' := if decide (dummy_pass r = 3%nat) then send_dummies i l else l in
                  alter (pass_action sender) i l')
  | js_phase i r :                        (* p2p_dummy_phase = true *)
      l !! i = Some r → dpc r = Closing →
      job_step l (<[i := r <| dummy_phase := true |> <| dpc := Work |>]> l)
  | js_drain i r :                        (* a message is completed or buffered, and counted *)
      l !! i = Some r → dpc r ≠ Exited → (0 < real_to r)%nat →
      job_step l (<[i := r <| real_to ::= pred |> <| recv ::= S |>]> l)
  | js_drain_dummy i r :                  (* a dummy that no pending MPI_Recv matches would be drained *)
      l !! i = Some r → dpc r ≠ Exited → (0 < dummy_to r)%nat → slot r ≠ PENDING_RECV_ACTIVE →
      job_step l (<[i := r <| dummy_to ::= pred |> <| recv ::= S |>]> l)
  | js_irecv_real i r :                   (* a message completes one of the MPI_Irecvs *)
      l !! i = Some r → dpc r ≠ Exited → (0 < real_to r)%nat → (0 < irecvs r)%nat →
      job_step l (<[i := r <| real_to ::= pred |> <| irecvs ::= pred |> <| recv ::= S |>]> l)
  | js_irecv_dummy i r :                  (* a dummy does *)
      l !! i = Some r → dpc r ≠ Exited → (0 < dummy_to r)%nat → (0 < irecvs r)%nat →
      job_step l (<[i := r <| dummy_to ::= pred |> <| irecvs ::= pred |> <| irecv_dummies ::= S |> <| recv ::= S |>]> l)
  | js_sample_recv i r :
      l !! i = Some r → dpc r = Work → job_step l (<[i := r <| dpc := Sampled (recv r) |>]> l)
  | js_sample_slot i r n b1 b2 :
      l !! i = Some r → dpc r = Sampled n → job_step l (<[i := take_sample n b1 b2 r]> l)
  | js_result i r k :
      l !! i = Some r → dpc r = Reduce → length (hist r) = S k → (∀ r', r' ∈ l → (k < length (hist r'))%nat) →
      job_step l (<[i := end_round k l r]> l)
  (* the application thread *)
  | js_recv_real i r :
      l !! i = Some r → app r = InRecv → (0 < real_to r)%nat →
      job_step l (<[i := r <| real_to ::= pred |> <| app := Got Real |>]> l)
  | js_recv_dummy i r :
      l !! i = Some r → app r = InRecv → (0 < dummy_to r)%nat → irecvs r = O →
      job_step l (<[i := r <| dummy_to ::= pred |> <| app := Got Dummy |>]> l)
  | js_read i r k :
      l !! i = Some r → app r = Got k → job_step l (<[i := r <| app := Read k (dummy_phase r) |>]> l)
  | js_discard i r k :
      l !! i = Some r → app r = Read k true →
      job_step l (<[i := r <| slot := PENDING_RECV_CLOSED |> <| app := Out |>]> l)
  | js_store i r k :
      l !! i = Some r → app r = Read k false →
      job_step l (<[i := r <| slot := PENDING_RECV_IDLE |> <| app := Stored k |>]> l)
  | js_count i r k :
      l !! i = Some r → app r = Stored k →
      job_step l (<[i := r <| recv ::= S |> <| app := Out |>]> l).

(** When the drain begins: the slot is ACTIVE while the application thread is in
    the receive, every message that was sent is counted, held by the application
    thread, or not yet taken; no dummy exists.  The sources are processes of the
    job (the field plays no part while a process is in no receive). *)
Definition source_ok (n : nat) (s : recv_source) : Prop :=
  match s with From j => (j < n)%nat | Any members => Forall (λ j, j < n)%nat members end.
Definition holds_real (r : rank) : nat :=
  match app r with Got Real | Read Real _ | Stored Real => 1 | _ => 0 end.
Definition in_lower_half (r : rank) : bool := match app r with InRecv | Got _ | Read _ _ => true | _ => false end.

Definition job_start (l : list rank) : Prop :=
  (∀ r, r ∈ l → dpc r = Top ∧ dummy_pass r = O ∧ hist r = [] ∧ dummy_phase r = false ∧ blocked r = false ∧
    post r = None ∧ dummy_to r = O ∧ irecv_dummies r = O ∧ source_ok (length l) (source r) ∧
    (slot r = PENDING_RECV_ACTIVE ↔ in_lower_half r = true) ∧
    match app r with Got Dummy | Read Dummy _ | Stored Dummy | Read Real true => False | _ => True end) ∧
  sum_list_with sent l = (sum_list_with recv l + sum_list_with real_to l + sum_list_with holds_real l)%nat.
