(* ===== verification/P2pJobInv.v ===== *)
(** * The invariant of the drain across processes *)
From S2P Require Import Prelude P2p P2pJob.
#[local] Open Scope nat_scope.

(** The round a process is in, and its [dummy_pass] at the top of that round. *)
Definition round (r : rank) : nat :=
  match dpc r with Reduce | Exited => pred (length (hist r)) | _ => length (hist r) end.
Definition top_pass (r : rank) : nat :=
  match dpc r with Top => dummy_pass r | _ => pred (dummy_pass r) end.
(** [dummy_pass] at the top of round [k], from the sums of the earlier rounds. *)
Fixpoint pass_at (k : nat) (l : list rank) : nat :=
  match k with
  | O => O
  | S k' => if decide (pass_at k' l = O) then (if starts_dummies k' l then 1 else 0) else S (pass_at k' l)
  end.
(** Whether the process has had its dummy. *)
Definition consumed (r : rank) : nat :=
  match app r with Got Dummy | Read Dummy _ => 1 | Out => if blocked r then 1 else 0 | _ => 0 end.

Definition app_ok (r : rank) : Prop :=
  match app r with
  | InRecv => 2 ≤ dummy_pass r → blocked r = true
  | Got Dummy => blocked r = true
  | Read Real b => b = false
  | Read Dummy b => b = true ∧ blocked r = true
  | Stored Dummy => False
  | _ => True
  end.

Definition dummy_ok (l : list rank) (r : rank) : Prop :=
  match post r with
  | None => dummy_to r = 0 ∧ consumed r = 0 ∧ irecv_dummies r = 0
  | Some j => ∃ rj, l !! j = Some rj ∧ dummy_to r + consumed r + irecv_dummies r = if decide (4 ≤ dummy_pass rj) then 1 else 0
  end.

(** What the invariant says of one process. *)
Record rank_ok (r : rank) : Prop := {
  ro_slot : slot r = PENDING_RECV_ACTIVE ↔ in_lower_half r = true;
  ro_hist k s : hist r !! k = Some s → s_recv s ≤ recv r ∧ (s_in_recv s = false → slot r ≠ PENDING_RECV_ACTIVE);
  ro_sampled n : dpc r = Sampled n → n ≤ recv r;
  ro_reduce : dpc r = Reduce ∨ dpc r = Exited → hist r ≠ [];
  ro_one : dummy_pass r = 1 → dpc r = Top;
  ro_closing : dpc r = Closing → dummy_pass r = 2;
  ro_phase : dummy_phase r = true ↔ 2 ≤ dummy_pass r ∧ dpc r ≠ Closing;
  ro_blocked : blocked r = true → 2 ≤ dummy_pass r;
  ro_post j : post r = Some j → 3 ≤ dummy_pass r ∧ blocked r = true;
  ro_posted : blocked r = true → 3 ≤ dummy_pass r → is_Some (post r);
  ro_app : app_ok r
}.

Record job_inv (l : list rank) : Prop := {
  ji_balance : sum_list_with sent l + sum_list_with irecv_dummies l =
    sum_list_with recv l + sum_list_with real_to l + sum_list_with holds_real l;
  ji_taken r r' : r ∈ l → r' ∈ l → 0 < irecv_dummies r → real_to r' = 0 ∧ holds_real r' = 0;
  ji_source r : r ∈ l → source_ok (length l) (source r);
  ji_rank r : r ∈ l → rank_ok r;
  ji_contrib r r' : r ∈ l → r' ∈ l → round r ≤ length (hist r');
  ji_pass r : r ∈ l → top_pass r = pass_at (round r) l;
  ji_past r k : r ∈ l → k < round r → leaves k l = false;
  ji_exit r : r ∈ l → dpc r = Exited → leaves (round r) l = true ∧ ∀ r', r' ∈ l → round r < length (hist r');
  ji_dummy r : r ∈ l → dummy_ok l r
}.

(** ** Sums *)

Lemma sum_cons {A} (f : A → nat) x l : sum_list_with f (x :: l) = f x + sum_list_with f l.
Proof. done. Qed.
Lemma sum_insert {A} (f : A → nat) l i x y :
  l !! i = Some x → sum_list_with f (<[i := y]> l) + f x = sum_list_with f l + f y.
Proof.
  revert i. induction l as [|z l IH]; intros [|i] Hi; try done; cbn in Hi.
  - injection Hi as ->. change (<[0 := y]> (x :: l)) with (y :: l). rewrite !sum_cons. lia.
  - change (<[S i := y]> (z :: l)) with (z :: <[i := y]> l). rewrite !sum_cons. specialize (IH i Hi). lia.
Qed.
Lemma sum_le {A} (f g : A → nat) l : (∀ x, x ∈ l → f x ≤ g x) → sum_list_with f l ≤ sum_list_with g l.
Proof.
  induction l as [|x l IH]; intros Hl; [done|]. rewrite !sum_cons. pose proof (Hl x ltac:(by left)).
  assert (sum_list_with f l ≤ sum_list_with g l) by (apply IH; intros; apply Hl; by right). lia.
Qed.
Lemma sum_zero {A} (f : A → nat) l x : sum_list_with f l = 0 → x ∈ l → f x = 0.
Proof. induction l as [|y l IH]; [by intros _ []%not_elem_of_nil|]. rewrite sum_cons. intros E [->|Hx]%elem_of_cons; [lia|]. apply IH; [lia|done]. Qed.
Lemma sum_all_zero {A} (f : A → nat) l : (∀ x, x ∈ l → f x = 0) → sum_list_with f l = 0.
Proof. induction l as [|x l IH]; intros Hl; [done|]. rewrite sum_cons, (Hl x) by (by left). apply IH. intros y Hy. apply Hl. by right. Qed.

Lemma samples_cons k r l :
  round_samples k (r :: l) = match hist r !! k with Some s => s :: round_samples k l | None => round_samples k l end.
Proof. done. Qed.
Lemma sum_samples k l : (∀ r s, r ∈ l → hist r !! k = Some s → s_recv s ≤ recv r) →
  sum_list_with s_recv (round_samples k l) ≤ sum_list_with recv l.
Proof.
  induction l as [|r l IH]; intros Hl; [done|]. rewrite sum_cons, samples_cons.
  assert (sum_list_with s_recv (round_samples k l) ≤ sum_list_with recv l) as Hle.
  { apply IH. intros r' s Hr'. apply Hl. by right. }
  destruct (hist r !! k) as [s|] eqn:E; [|lia]. rewrite sum_cons. pose proof (Hl r s ltac:(by left) E). lia.
Qed.

(** ** What the passes depend on *)

Lemma decisions_ext k l l' :
  round_samples k l' = round_samples k l → sent <$> l' = sent <$> l →
  received k l' = received k l ∧ some_in_recv k l' = some_in_recv k l ∧ dummies_done k l' = dummies_done k l ∧
  leaves k l' = leaves k l ∧ starts_dummies k l' = starts_dummies k l.
Proof.
  intros E Es. assert (sum_list_with sent l' = sum_list_with sent l) as Hs.
  { revert Es. clear. revert l. induction l' as [|x l' IH]; intros [|y l]; try done. intros [= E1 E2]. rewrite !sum_cons, E1. f_equal. by apply IH. }
  unfold leaves, starts_dummies, received, some_in_recv, dummies_done. by rewrite E, Hs.
Qed.

Lemma pass_at_ext K l l' :
  (∀ k, k < K → round_samples k l' = round_samples k l) → sent <$> l' = sent <$> l → pass_at K l' = pass_at K l.
Proof.
  induction K as [|K IH]; intros Hk Hs; [done|]. cbn [pass_at]. rewrite IH by auto.
  destruct (decisions_ext K l l') as (_ & _ & _ & _ & ->); auto.
Qed.

Lemma samples_insert k l i r r' :
  l !! i = Some r → hist r' !! k = hist r !! k → round_samples k (<[i := r']> l) = round_samples k l.
Proof.
  revert i. induction l as [|x l IH]; intros [|i] Hi E; try done; cbn in Hi.
  - injection Hi as ->. change (<[0 := r']> (r :: l)) with (r' :: l). by rewrite !samples_cons, E.
  - change (<[S i := r']> (x :: l)) with (x :: <[i := r']> l). by rewrite !samples_cons, (IH i Hi E).
Qed.

Lemma sent_insert (l : list rank) i r r' : l !! i = Some r → sent r' = sent r → sent <$> <[i := r']> l = sent <$> l.
Proof. intros Hi E. rewrite list_fmap_insert, E. apply list_insert_id. by rewrite list_lookup_fmap, Hi. Qed.

Lemma pass_at_mono k k' l : k ≤ k' → 0 < pass_at k l → pass_at k l + (k' - k) = pass_at k' l.
Proof.
  induction 1 as [|k' Hle IH]; intros Hp; [lia|]. specialize (IH Hp). cbn [pass_at]. rewrite decide_False by lia. lia.
Qed.

Lemma elem_of_insert (l : list rank) i x y : x ∈ <[i := y]> l → x = y ∨ x ∈ l.
Proof.
  intros (j & Hj)%list_elem_of_lookup. destruct (decide (i = j)) as [->|Hne].
  - destruct (decide (j < length l)) as [Hlt|Hge].
    + rewrite list_lookup_insert_eq in Hj by done. left. congruence.
    + rewrite list_insert_ge in Hj by lia. right. by eapply list_elem_of_lookup_2.
  - rewrite list_lookup_insert_ne in Hj by done. right. by eapply list_elem_of_lookup_2.
Qed.

(** ** Once a pass has begun, every message is counted *)

Lemma pass_received k l :
  (∀ r s k, r ∈ l → hist r !! k = Some s → s_recv s ≤ recv r) → 0 < pass_at k l →
  sum_list_with sent l ≤ sum_list_with recv l.
Proof.
  intros Hs. induction k as [|k IH]; cbn [pass_at]; [lia|]. case_decide as Hd; [|intros _; apply IH; lia].
  unfold starts_dummies, received. destruct (_ <=? _) eqn:E; [|cbn; lia]. intros _. apply Nat.leb_le in E.
  pose proof (sum_samples k l (λ r s Hr, Hs r s k Hr)). lia.
Qed.

Lemma leaves_received k l :
  (∀ r s k, r ∈ l → hist r !! k = Some s → s_recv s ≤ recv r) → leaves k l = true →
  sum_list_with sent l ≤ sum_list_with recv l.
Proof.
  intros Hs. unfold leaves, received. rewrite !andb_true_iff, Nat.leb_le. intros [[[Hle _] _] _].
  pose proof (sum_samples k l (λ r s Hr, Hs r s k Hr)). lia.
Qed.

Lemma inv_samples l : job_inv l → ∀ r s k, r ∈ l → hist r !! k = Some s → s_recv s ≤ recv r.
Proof. intros Hi r s k Hr Hk. by eapply ro_hist; [eapply ji_rank|]. Qed.

Lemma all_counted l :
  job_inv l → sum_list_with sent l ≤ sum_list_with recv l → ∀ r, r ∈ l → real_to r = 0 ∧ holds_real r = 0.
Proof.
  intros Hi Hle r Hr. pose proof (ji_balance _ Hi) as Hb. destruct (decide (Exists (λ r, 0 < irecv_dummies r) l)) as [Hex|Hno].
  - apply Exists_exists in Hex as (r' & Hr' & Ht). by apply (ji_taken _ Hi r').
  - assert (sum_list_with irecv_dummies l = 0) as Hz.
    { apply sum_all_zero. intros y Hy. apply Nat.le_0_r, Nat.le_ngt. intros H0. apply Hno, Exists_exists. by exists y. }
    split; eapply sum_zero; try done; lia.
Qed.

Lemma pass_counted l r :
  job_inv l → r ∈ l → dummy_pass r ≠ 0 → ∀ r', r' ∈ l → real_to r' = 0 ∧ holds_real r' = 0.
Proof.
  intros Hi Hr Hp. apply all_counted; [done|]. apply (pass_received (round r)); [by apply inv_samples|].
  rewrite <- (ji_pass _ Hi r Hr). unfold top_pass. pose proof (ro_one _ (ji_rank _ Hi r Hr)) as H1.
  destruct (dpc r); try lia; destruct (decide (dummy_pass r = 1)) as [E|]; try lia; by apply H1 in E.
Qed.

(** If one process is past pass 3, then all are past pass 2. *)
Lemma pass_close l r r' :
  job_inv l → r ∈ l → r' ∈ l → 3 ≤ top_pass r → 3 ≤ dummy_pass r'.
Proof.
  intros Hi Hr Hr' Hp. rewrite (ji_pass _ Hi r Hr) in Hp. pose proof (ji_contrib _ Hi r r' Hr Hr') as Hc.
  pose proof (ji_pass _ Hi r' Hr') as Hp'. unfold top_pass in Hp'.
  destruct (decide (round r ≤ round r')) as [Hle|Hgt].
  - pose proof (pass_at_mono _ _ l Hle ltac:(lia)) as Hm. destruct (dpc r'); lia.
  - assert (round r = S (round r') ∧ dpc r' ≠ Top) as [E Hd].
    { assert (dpc r' = Top → length (hist r') = round r') as H1 by (intros E; unfold round; by rewrite E).
      assert (length (hist r') ≤ S (round r')) as H2 by (unfold round; destruct (dpc r'); lia).
      split; [lia|]. intros E. apply H1 in E. lia. }
    rewrite E in Hp. cbn [pass_at] in Hp. case_decide; [destruct (starts_dummies _ _); lia|]. destruct (dpc r'); try done; lia.
Qed.

(** ** Steps of one process within a round *)

Record local_step (r r' : rank) : Prop := {
  lo_sent : sent r' = sent r;
  lo_hist : hist r' = hist r;
  lo_pass : dummy_pass r' = dummy_pass r;
  lo_post : post r' = post r;
  lo_dpc : dpc r' = dpc r ∨ dpc r = Work ∧ (∃ n, dpc r' = Sampled n) ∨ dpc r = Closing ∧ dpc r' = Work;
  lo_source : source r' = source r;
  lo_balance : recv r' + real_to r' + holds_real r' + irecv_dummies r = recv r + real_to r + holds_real r + irecv_dummies r';
  lo_less : real_to r' ≤ real_to r ∧ real_to r' + holds_real r' ≤ real_to r + holds_real r;
  lo_dummy : dummy_to r' + consumed r' + irecv_dummies r' = dummy_to r + consumed r + irecv_dummies r
}.

Lemma local_round r r' : local_step r r' → round r' = round r ∧ top_pass r' = top_pass r.
Proof.
  intros []. unfold round, top_pass. rewrite lo_hist0, lo_pass0. destruct lo_dpc0 as [->|[[-> [n ->]]|[-> ->]]]; done.
Qed.

(** The contributions stay, so what the processes know of the sums stays. *)
Lemma samples_fmap k l : round_samples k l = omap (λ h, h !! k) (hist <$> l).
Proof. induction l as [|r l IH]; [done|]. rewrite samples_cons, IH. done. Qed.

Lemma inv_frame l l' :
  job_inv l → hist <$> l' = hist <$> l → sent <$> l' = sent <$> l → source <$> l' = source <$> l →
  (∀ x, x ∈ l' → ∃ y, y ∈ l ∧ round x = round y ∧ top_pass x = top_pass y ∧ (dpc x = Exited → dpc y = Exited)) →
  sum_list_with sent l' + sum_list_with irecv_dummies l' =
    sum_list_with recv l' + sum_list_with real_to l' + sum_list_with holds_real l' →
  (∀ x x', x ∈ l' → x' ∈ l' → 0 < irecv_dummies x → real_to x' = 0 ∧ holds_real x' = 0) →
  (∀ x, x ∈ l' → rank_ok x) → (∀ x, x ∈ l' → dummy_ok l' x) → job_inv l'.
Proof.
  intros Hi Hh Hs Hsrc Hel Hb Htk Hok Hd.
  assert (∀ k, round_samples k l' = round_samples k l) as Hsam by (intros k; by rewrite !samples_fmap, Hh).
  assert (∀ x, x ∈ l' → ∃ y, y ∈ l ∧ length (hist x) = length (hist y)) as Hlen.
  { intros x Hx. apply (list_elem_of_fmap_2 hist) in Hx. rewrite Hh in Hx. apply list_elem_of_fmap in Hx as (y & -> & Hy).
    by exists y. }
  split; try done.
  - intros x Hx. assert (length l' = length l) as -> by (rewrite <- (length_fmap hist l'), Hh; by apply length_fmap).
    apply (list_elem_of_fmap_2 source) in Hx. rewrite Hsrc in Hx. apply list_elem_of_fmap in Hx as (y & -> & Hy). by apply (ji_source _ Hi).
  - intros x x' (y & Hy & -> & _)%Hel (y' & Hy' & ->)%Hlen. by apply (ji_contrib _ Hi).
  - intros x (y & Hy & -> & -> & _)%Hel. rewrite (pass_at_ext _ l) by done. by apply (ji_pass _ Hi).
  - intros x k (y & Hy & -> & _)%Hel Hk. destruct (decisions_ext k l l') as (_ & _ & _ & -> & _); [done|done|].
    by apply (ji_past _ Hi y).
  - intros x (y & Hy & -> & _ & He)%Hel Hex. destruct (decisions_ext (round y) l l') as (_ & _ & _ & -> & _); [done|done|].
    destruct (ji_exit _ Hi y Hy (He Hex)) as [H1 H2]. split; [done|]. intros x' (y' & Hy' & ->)%Hlen. by apply H2.
Qed.

(** A process is replaced by one with the same contributions. *)
Lemma inv_replace l i r r' :
  job_inv l → l !! i = Some r → local_step r r' →
  irecv_dummies r' ≤ irecv_dummies r ∨ (∀ x, x ∈ l → real_to x = 0 ∧ holds_real x = 0) → rank_ok r' → job_inv (<[i := r']> l).
Proof.
  intros Hi Hl Hs Htk Hok. destruct (local_round _ _ Hs) as [Er Ep]. pose proof (list_elem_of_lookup_2 _ _ _ Hl) as Hr.
  apply (inv_frame l); [done| |apply (sent_insert _ _ r); [done|apply Hs]| | | | | |].
  - rewrite list_fmap_insert, (lo_hist _ _ Hs). apply list_insert_id. by rewrite list_lookup_fmap, Hl.
  - rewrite list_fmap_insert, (lo_source _ _ Hs). apply list_insert_id. by rewrite list_lookup_fmap, Hl.
  - intros x [->|Hx]%elem_of_insert; [exists r|by exists x]. split_and!; [done|done|done|].
    destruct (lo_dpc _ _ Hs) as [->|[[_ [n ->]]|[_ ->]]]; done.
  - pose proof (ji_balance _ Hi) as Hb. pose proof (sum_insert sent l i r r' Hl). pose proof (sum_insert recv l i r r' Hl).
    pose proof (sum_insert real_to l i r r' Hl). pose proof (sum_insert holds_real l i r r' Hl). pose proof (sum_insert irecv_dummies l i r r' Hl).
    pose proof (lo_balance _ _ Hs). rewrite (lo_sent _ _ Hs) in *. lia.
  - assert (∀ x, x ∈ <[i := r']> l → 0 < irecv_dummies x → ∀ y, y ∈ l → real_to y = 0 ∧ holds_real y = 0) as Hall.
    { intros x [->|Hx]%elem_of_insert H0 y Hy; [|by apply (ji_taken _ Hi x)]. destruct Htk as [Hle|Hc]; [|auto]. apply (ji_taken _ Hi r); done || lia. }
    intros x x' Hx Hx' H0. pose proof (Hall x Hx H0) as Hc. apply elem_of_insert in Hx' as [->|Hx']; [|auto].
    destruct (Hc r Hr). pose proof (lo_less _ _ Hs). lia.
  - intros x [->|Hx]%elem_of_insert; [done|by apply (ji_rank _ Hi)].
  - assert (∀ y, dummy_ok l y → dummy_ok (<[i := r']> l) y) as Hd.
    { intros y. unfold dummy_ok. destruct (post y) as [j|]; [|done]. intros (rj & Hj & E).
      destruct (decide (i = j)) as [->|Hne].
      - assert (rj = r) as -> by congruence. exists r'. split; [apply list_lookup_insert_eq; by eapply lookup_lt_Some|].
        by rewrite (lo_pass _ _ Hs).
      - exists rj. by rewrite list_lookup_insert_ne. }
    intros x [->|Hx]%elem_of_insert; [|by apply Hd, (ji_dummy _ Hi)]. apply Hd.
    pose proof (ji_dummy _ Hi r Hr) as Hdr. pose proof (lo_dummy _ _ Hs) as Hld. unfold dummy_ok in *.
    rewrite (lo_post _ _ Hs). destruct (post r) as [j|]; [|lia]. destruct Hdr as (rj & Hj & E). exists rj. split; [done|]. lia.
Qed.

(** The parts of [rank_ok] that a step of the application thread or a drained
    message does not touch. *)
Lemma rank_ok_local r r' :
  rank_ok r → local_step r r' → blocked r' = blocked r → dummy_phase r' = dummy_phase r → recv r ≤ recv r' →
  (dpc r = Closing → dpc r' = Closing) → (∀ n, dpc r' = Sampled n → n ≤ recv r') →
  (slot r' = PENDING_RECV_ACTIVE ↔ in_lower_half r' = true) →
  (slot r' = PENDING_RECV_ACTIVE → slot r = PENDING_RECV_ACTIVE) → app_ok r' → rank_ok r'.
Proof.
  intros [] [] Hb Hp Hrv Hcl Hsm Hsl Hact Ha.
  assert (dpc r' = dpc r ∨ dpc r = Work ∧ ∃ n, dpc r' = Sampled n) as Hd.
  { destruct lo_dpc0 as [|[|[E E']]]; [by left|by right|]. rewrite (Hcl E) in E'. done. }
  split; rewrite ?Hb, ?Hp, ?lo_hist0, ?lo_pass0, ?lo_post0; try done.
  - intros k s Hk. destruct (ro_hist0 k s Hk) as [H1 H2]. split; [lia|]. intros Hf Hs. by apply H2, Hact.
  - destruct Hd as [->|[_ [n ->]]]; [done|]. by intros [|].
  - intros H1. apply ro_one0 in H1. destruct Hd as [->|[E _]]; congruence.
  - destruct Hd as [->|[_ [n ->]]]; done.
  - rewrite ro_phase0. destruct Hd as [->|[-> [n ->]]]; naive_solver.
Qed.

(** A message in the application thread's hands is not counted, so no pass has
    begun. *)
Lemma holder_no_pass l r : job_inv l → r ∈ l → holds_real r = 1 → dummy_pass r = 0 ∧ dummy_phase r = false ∧ blocked r = false.
Proof.
  intros Hi Hr Hh. assert (dummy_pass r = 0) as E.
  { destruct (decide (dummy_pass r = 0)) as [|Hp]; [done|]. destruct (pass_counted _ _ Hi Hr Hp r Hr). lia. }
  pose proof (ji_rank _ Hi r Hr) as Hok. split; [done|]. split.
  - apply not_true_iff_false. intros Hp%(ro_phase _ Hok). lia.
  - apply not_true_iff_false. intros Hp%(ro_blocked _ Hok). lia.
Qed.

(** A dummy that nobody has taken, or that an [MPI_Irecv] took, has its receiver in
    [MPI_Recv]. *)
Lemma dummy_waited l r :
  job_inv l → r ∈ l → 0 < dummy_to r + irecv_dummies r → blocked r = true ∧ app r = InRecv.
Proof.
  intros Hi Hr Hd. pose proof (ji_dummy _ Hi r Hr) as Hdo. pose proof (ji_rank _ Hi r Hr) as Hok. unfold dummy_ok in Hdo.
  destruct (post r) as [j|] eqn:Ej; [|lia]. destruct Hdo as (rj & _ & E). destruct (ro_post _ Hok j Ej) as [Hp Hb].
  split; [done|]. assert (consumed r = 0) as Hc by (case_decide; lia). unfold consumed in Hc.
  pose proof (ro_app _ Hok) as Ha. unfold app_ok in Ha.
  destruct (app r) as [| |[]|[] b|[]] eqn:Ea; try done; try (by rewrite Hb in Hc);
    (assert (holds_real r = 1) as Hh by (unfold holds_real; by rewrite Ea));
    destruct (holder_no_pass _ _ Hi Hr Hh); lia.
Qed.
