(* ===== verification/P2pJobSteps.v ===== *)
(** * Every step of the drain across processes keeps its invariant *)
From S2P Require Import Prelude P2p P2pJob P2pJobInv.
#[local] Open Scope nat_scope.

(** ** The application thread, and messages that the drain takes *)

Lemma keep_drain l i r :
  job_inv l → l !! i = Some r → 0 < real_to r → job_inv (<[i := r <| real_to ::= pred |> <| recv ::= S |>]> l).
Proof.
  intros Hi Hl Hr. pose proof (list_elem_of_lookup_2 _ _ _ Hl) as Hel. pose proof (ji_rank _ Hi r Hel) as Hok.
  assert (local_step r (r <| real_to ::= pred |> <| recv ::= S |>)) as Hs.
  { destruct r; split; cbn in *; try done; [by left|unfold holds_real; cbn; lia..]. }
  apply (inv_replace _ _ r); [done..|by left|]. apply (rank_ok_local r); try done; try apply Hok.
  - cbn. lia.
  - cbn. intros n Hn%(ro_sampled _ Hok). lia.
Qed.

(** A message completes an [MPI_Irecv] of the application: one fewer is pending. *)
Lemma keep_irecv_real l i r :
  job_inv l → l !! i = Some r → 0 < real_to r →
  job_inv (<[i := r <| real_to ::= pred |> <| irecvs ::= pred |> <| recv ::= S |>]> l).
Proof.
  intros Hi Hl Hr. pose proof (list_elem_of_lookup_2 _ _ _ Hl) as Hel. pose proof (ji_rank _ Hi r Hel) as Hok.
  assert (local_step r (r <| real_to ::= pred |> <| irecvs ::= pred |> <| recv ::= S |>)) as Hs.
  { destruct r; split; cbn in *; try done; [by left|unfold holds_real; cbn; lia..]. }
  apply (inv_replace _ _ r); [done..|by left|]. apply (rank_ok_local r); try done; try apply Hok.
  - cbn. lia.
  - cbn. intros n Hn%(ro_sampled _ Hok). lia.
Qed.

(** A dummy does: no message is left to take, and the receive stays blocked. *)
Lemma keep_irecv_dummy l i r :
  job_inv l → l !! i = Some r → 0 < dummy_to r →
  job_inv (<[i := r <| dummy_to ::= pred |> <| irecvs ::= pred |> <| irecv_dummies ::= S |> <| recv ::= S |>]> l).
Proof.
  intros Hi Hl Hr. pose proof (list_elem_of_lookup_2 _ _ _ Hl) as Hel. pose proof (ji_rank _ Hi r Hel) as Hok.
  set (r' := r <| dummy_to ::= pred |> <| irecvs ::= pred |> <| irecv_dummies ::= S |> <| recv ::= S |>).
  assert (local_step r r') as Hs.
  { subst r'. destruct r; split; cbn in *; try done; [by left|unfold holds_real; cbn; lia..|unfold consumed; cbn; lia]. }
  apply (inv_replace _ _ r); [done..| |].
  - right. apply (pass_counted l r); [done..|]. destruct (dummy_waited l r Hi Hel ltac:(lia)) as [Hb _].
    apply (ro_blocked _ Hok) in Hb. lia.
  - apply (rank_ok_local r); try done; try apply Hok.
    + cbn. lia.
    + cbn. intros n Hn%(ro_sampled _ Hok). lia.
Qed.

(** A step of the application thread leaves the checkpoint thread's part. *)
Lemma keep_app l i r r' :
  job_inv l → l !! i = Some r → local_step r r' → dpc r' = dpc r → irecv_dummies r' = irecv_dummies r →
  blocked r' = blocked r → dummy_phase r' = dummy_phase r → recv r ≤ recv r' →
  (slot r' = PENDING_RECV_ACTIVE ↔ in_lower_half r' = true) →
  (slot r' = PENDING_RECV_ACTIVE → slot r = PENDING_RECV_ACTIVE) → app_ok r' → job_inv (<[i := r']> l).
Proof.
  intros Hi Hl Hs Hd Ht Hb Hp Hrv Hsl Ha Hao. pose proof (list_elem_of_lookup_2 _ _ _ Hl) as Hel.
  pose proof (ji_rank _ Hi r Hel) as Hok. apply (inv_replace _ _ r); [done..|left; lia|]. apply (rank_ok_local r); try done; [by rewrite Hd|].
  rewrite Hd. intros n Hn%(ro_sampled _ Hok). lia.
Qed.

(** The facts about a process that the steps of its application thread use. *)
Ltac app_start Hi Hl Hr Hok :=
  match type of Hl with ?l !! ?i = Some ?r =>
    pose proof (list_elem_of_lookup_2 _ _ _ Hl) as Hr; pose proof (ji_rank _ Hi r Hr) as Hok;
    apply (keep_app l i r)
  end.
(** [local_step] of an update: every field by computation, given [app r]. *)
Ltac local_by Ha :=
  split; try done; try (by left);
  [unfold holds_real|unfold holds_real|unfold consumed]; cbn; rewrite ?Ha; cbn; try lia.

Lemma keep_recv_real l i r :
  job_inv l → l !! i = Some r → app r = InRecv → 0 < real_to r →
  job_inv (<[i := r <| real_to ::= pred |> <| app := Got Real |>]> l).
Proof.
  intros Hi Hl Ha Hr. app_start Hi Hl Hel Hok; try done.
  - local_by Ha.
  - pose proof (ro_slot _ Hok) as Hs. unfold in_lower_half in *. rewrite Ha in Hs. exact Hs.
Qed.

Lemma keep_recv_dummy l i r :
  job_inv l → l !! i = Some r → app r = InRecv → 0 < dummy_to r →
  job_inv (<[i := r <| dummy_to ::= pred |> <| app := Got Dummy |>]> l).
Proof.
  intros Hi Hl Ha Hd. app_start Hi Hl Hel Hok; try done.
  - local_by Ha.
  - pose proof (ro_slot _ Hok) as Hs. unfold in_lower_half in *. rewrite Ha in Hs. exact Hs.
  - exact (proj1 (dummy_waited _ _ Hi Hel ltac:(lia))).
Qed.

(** What the application thread has read: the flag tells the two kinds of
    messages apart. *)
Lemma read_right l r k : job_inv l → r ∈ l → app r = Got k → dummy_phase r = match k with Real => false | Dummy => true end.
Proof.
  intros Hi Hr Ha. destruct k.
  - apply (holder_no_pass l); [done..|]. unfold holds_real. by rewrite Ha.
  - pose proof (ji_rank _ Hi r Hr) as Hok. pose proof (ji_dummy _ Hi r Hr) as Hd. unfold dummy_ok, consumed in Hd. rewrite Ha in Hd.
    destruct (post r) as [j|] eqn:Ej; [|lia]. destruct (ro_post _ Hok j Ej) as [H3 _]. apply (ro_phase _ Hok).
    split; [lia|]. intros Hc%(ro_closing _ Hok). lia.
Qed.

Lemma keep_read l i r k :
  job_inv l → l !! i = Some r → app r = Got k → job_inv (<[i := r <| app := Read k (dummy_phase r) |>]> l).
Proof.
  intros Hi Hl Ha. app_start Hi Hl Hel Hok; try done.
  - local_by Ha. all: by destruct k.
  - pose proof (ro_slot _ Hok) as Hs. unfold in_lower_half in *. rewrite Ha in Hs. exact Hs.
  - pose proof (read_right _ _ _ Hi Hel Ha) as Hp. pose proof (ro_app _ Hok) as H. unfold app_ok in *. rewrite Ha in H. cbn. by destruct k.
Qed.

Lemma keep_discard l i r k :
  job_inv l → l !! i = Some r → app r = Read k true → job_inv (<[i := r <| slot := PENDING_RECV_CLOSED |> <| app := Out |>]> l).
Proof.
  intros Hi Hl Ha. app_start Hi Hl Hel Hok; try done.
  pose proof (ro_app _ Hok) as H. unfold app_ok in H. rewrite Ha in H. destruct k; [done|]. destruct H as [_ Hb].
  local_by Ha. by rewrite Hb.
Qed.

Lemma keep_store l i r k :
  job_inv l → l !! i = Some r → app r = Read k false → job_inv (<[i := r <| slot := PENDING_RECV_IDLE |> <| app := Stored k |>]> l).
Proof.
  intros Hi Hl Ha. app_start Hi Hl Hel Hok; try done.
  all: pose proof (ro_app _ Hok) as H; unfold app_ok in H; rewrite Ha in H; destruct k; [|by destruct H]; try done.
  local_by Ha.
Qed.

Lemma keep_count l i r k :
  job_inv l → l !! i = Some r → app r = Stored k → job_inv (<[i := r <| recv ::= S |> <| app := Out |>]> l).
Proof.
  intros Hi Hl Ha. app_start Hi Hl Hel Hok; try done.
  - pose proof (ro_app _ Hok) as H. unfold app_ok in H. rewrite Ha in H. destruct k; [|done].
    destruct (holder_no_pass l r) as (_ & _ & Hb); [done..|unfold holds_real; by rewrite Ha|].
    local_by Ha. by rewrite Hb.
  - cbn. lia.
  - pose proof (ro_slot _ Hok) as Hs. unfold in_lower_half in *. rewrite Ha in Hs. exact Hs.
Qed.

(** A dummy is never drained as a message. *)
Lemma no_dummy_drained l r : job_inv l → r ∈ l → 0 < dummy_to r → slot r = PENDING_RECV_ACTIVE.
Proof.
  intros Hi Hr Hd. apply (ro_slot _ (ji_rank _ Hi r Hr)). destruct (dummy_waited _ _ Hi Hr ltac:(lia)) as [_ Ha].
  unfold in_lower_half. by rewrite Ha.
Qed.

(** ** The reduction *)

Lemma keep_sample_recv l i r :
  job_inv l → l !! i = Some r → dpc r = Work → job_inv (<[i := r <| dpc := Sampled (recv r) |>]> l).
Proof.
  intros Hi Hl Hd. pose proof (list_elem_of_lookup_2 _ _ _ Hl) as Hel. pose proof (ji_rank _ Hi r Hel) as Hok.
  assert (local_step r (r <| dpc := Sampled (recv r) |>)) as Hs.
  { split; try done. right. left. eauto. }
  apply (inv_replace _ _ r); [done..|by left|]. apply (rank_ok_local r); try done; try apply Hok; [congruence|]. cbn. intros n [= <-]. done.
Qed.

(** The store of [p2p_dummy_phase]. *)
Lemma keep_phase l i r :
  job_inv l → l !! i = Some r → dpc r = Closing → job_inv (<[i := r <| dummy_phase := true |> <| dpc := Work |>]> l).
Proof.
  intros Hi Hl Hd. pose proof (list_elem_of_lookup_2 _ _ _ Hl) as Hel. pose proof (ji_rank _ Hi r Hel) as Hok.
  assert (local_step r (r <| dummy_phase := true |> <| dpc := Work |>)) as Hs.
  { split; try done. by right; right. }
  apply (inv_replace _ _ r); [done..|by left|]. pose proof (ro_closing _ Hok Hd) as H2. destruct Hok. split; cbn; try done.
  - by intros [|].
  - lia.
  - split; [|done]. intros _. split; [lia|done].
Qed.

Lemma dummy_frame l l' y :
  (∀ j rj, l !! j = Some rj → ∃ rj', l' !! j = Some rj' ∧ (4 ≤ dummy_pass rj' ↔ 4 ≤ dummy_pass rj)) →
  dummy_ok l y → dummy_ok l' y.
Proof.
  intros Hf. unfold dummy_ok. destruct (post y) as [j|]; [|done]. intros (rj & Hj & E).
  destruct (Hf j rj Hj) as (rj' & Hj' & Hp). exists rj'. split; [done|]. rewrite E. by apply decide_ext.
Qed.
Lemma insert_frame (l : list rank) i r r' :
  l !! i = Some r → (4 ≤ dummy_pass r' ↔ 4 ≤ dummy_pass r) →
  ∀ j rj, l !! j = Some rj → ∃ rj', <[i := r']> l !! j = Some rj' ∧ (4 ≤ dummy_pass rj' ↔ 4 ≤ dummy_pass rj).
Proof.
  intros Hl Hp j rj Hj. destruct (decide (i = j)) as [->|Hne].
  - assert (rj = r) as -> by congruence. exists r'. split; [|done]. apply list_lookup_insert_eq. by eapply lookup_lt_Some.
  - exists rj. by rewrite list_lookup_insert_ne.
Qed.
(** The counters that the balance adds do not change. *)
Lemma insert_balance l i r r' :
  job_inv l → l !! i = Some r → sent r' = sent r → recv r' = recv r → real_to r' = real_to r → app r' = app r →
  irecv_dummies r' = irecv_dummies r →
  sum_list_with sent (<[i := r']> l) + sum_list_with irecv_dummies (<[i := r']> l) =
  sum_list_with recv (<[i := r']> l) + sum_list_with real_to (<[i := r']> l) + sum_list_with holds_real (<[i := r']> l).
Proof.
  intros Hi Hl E1 E2 E3 E4 E6. assert (holds_real r' = holds_real r) as E5 by (unfold holds_real; by rewrite E4).
  pose proof (ji_balance _ Hi). pose proof (sum_insert sent l i r r' Hl). pose proof (sum_insert recv l i r r' Hl).
  pose proof (sum_insert real_to l i r r' Hl). pose proof (sum_insert holds_real l i r r' Hl). pose proof (sum_insert irecv_dummies l i r r' Hl). lia.
Qed.
Lemma insert_taken l i r r' :
  job_inv l → l !! i = Some r → real_to r' = real_to r → app r' = app r → irecv_dummies r' = irecv_dummies r →
  ∀ x x', x ∈ <[i := r']> l → x' ∈ <[i := r']> l → 0 < irecv_dummies x → real_to x' = 0 ∧ holds_real x' = 0.
Proof.
  intros Hi Hl E1 E2 E3. pose proof (list_elem_of_lookup_2 _ _ _ Hl) as Hel.
  assert (∀ x, x ∈ <[i := r']> l → ∃ y, y ∈ l ∧ irecv_dummies x = irecv_dummies y ∧ real_to x = real_to y ∧ holds_real x = holds_real y) as Hold.
  { intros x [->|Hx]%elem_of_insert; [|by exists x]. exists r. unfold holds_real. by rewrite E2. }
  intros x x' (y & Hy & -> & _)%Hold (y' & Hy' & _ & -> & ->)%Hold. by apply (ji_taken _ Hi).
Qed.
Lemma insert_source l i r r' :
  job_inv l → l !! i = Some r → source r' = source r → ∀ x, x ∈ <[i := r']> l → source_ok (length (<[i := r']> l)) (source x).
Proof.
  intros Hi Hl E x. rewrite length_insert. pose proof (list_elem_of_lookup_2 _ _ _ Hl) as Hel.
  intros [->|Hx]%elem_of_insert; [rewrite E|]; by apply (ji_source _ Hi).
Qed.

(** One process contributes to its round: the earlier rounds are as before. *)
Lemma keep_sample_slot l i r n b1 b2 :
  job_inv l → l !! i = Some r → dpc r = Sampled n → job_inv (<[i := take_sample n b1 b2 r]> l).
Proof.
  intros Hi Hl Hd. pose proof (list_elem_of_lookup_2 _ _ _ Hl) as Hel. pose proof (ji_rank _ Hi r Hel) as Hok.
  set (r' := take_sample n b1 b2 r). set (l' := <[i := r']> l).
  assert (round r = length (hist r)) as Hr by (unfold round; by rewrite Hd).
  assert (length (hist r') = S (length (hist r))) as Hlen by (cbn; rewrite length_app; cbn; lia).
  assert (round r' = round r) as Hr' by (unfold round; rewrite Hlen, Hd; done).
  assert (top_pass r' = top_pass r) as Ht by (unfold top_pass; by rewrite Hd).
  assert (sent <$> l' = sent <$> l) as Hsent by (by apply (sent_insert _ _ r)).
  assert (∀ k, k < length (hist r) → round_samples k l' = round_samples k l) as Hsam.
  { intros k Hk. apply (samples_insert _ _ _ r); [done|]. cbn. by rewrite lookup_app_l. }
  assert (∀ x, x ∈ l' → ∃ y, y ∈ l ∧ round x = round y ∧ top_pass x = top_pass y ∧
    length (hist y) ≤ length (hist x) ∧ (dpc x = Exited → x = y)) as Hold.
  { intros x [->|Hx]%elem_of_insert; [|by exists x]. exists r. split_and!; [done..|lia|done]. }
  split; [by apply (insert_balance _ _ r)|by apply (insert_taken _ _ r)|by apply (insert_source _ _ r)|..].
  - intros x [->|Hx]%elem_of_insert; [|by apply (ji_rank _ Hi)]. destruct Hok. split; cbn; try done.
    + intros k s [Hk|[_ Hk]]%lookup_app_Some; [eauto|]. apply list_lookup_singleton_Some in Hk as [_ <-]. cbn.
      split; [by apply ro_sampled|]. by intros H%bool_decide_eq_false.
    + intros _ [_ Hnil]%app_eq_nil. done.
    + intros H1. apply ro_one in H1. congruence.
    + rewrite ro_phase, Hd. by split; intros [? _].
  - intros x x' (y & Hy & -> & _)%Hold (y' & Hy' & _ & _ & Hle & _)%Hold. pose proof (ji_contrib _ Hi y y' Hy Hy'). lia.
  - intros x (y & Hy & -> & -> & _)%Hold. rewrite (pass_at_ext _ l); [by apply (ji_pass _ Hi)| |done].
    intros k Hk. apply Hsam. pose proof (ji_contrib _ Hi y r Hy Hel). lia.
  - intros x k (y & Hy & -> & _)%Hold Hk. pose proof (ji_contrib _ Hi y r Hy Hel).
    destruct (decisions_ext k l l') as (_ & _ & _ & -> & _); [apply Hsam; lia|done|]. by apply (ji_past _ Hi y).
  - intros x Hx Hex. destruct (Hold x Hx) as (y & Hy & _ & _ & _ & Heq). assert (x = y) as -> by auto.
    destruct (ji_exit _ Hi y Hy Hex) as [H1 H2]. split.
    + destruct (decisions_ext (round y) l l') as (_ & _ & _ & -> & _); [|done|done]. apply Hsam. by apply H2.
    + intros x' (y' & Hy' & _ & _ & Hle & _)%Hold. pose proof (H2 _ Hy'). lia.
  - assert (∀ y, dummy_ok l y → dummy_ok l' y) as Hdf.
    { intros y. apply dummy_frame. by apply (insert_frame _ _ r). }
    intros x [->|Hx]%elem_of_insert; [|by apply Hdf, (ji_dummy _ Hi)]. apply Hdf, (ji_dummy _ Hi _ Hel).
Qed.

(** The pass that a process is in after the reduction is the one that the sums
    say. *)
Lemma end_round_pass k l r :
  rank_ok r → dpc r = Reduce → top_pass r = pass_at k l → leaves k l = false →
  dummy_pass (end_round k l r) = pass_at (S k) l.
Proof.
  intros Hok Hd. unfold top_pass. rewrite Hd. intros Hp Hlv. unfold end_round. rewrite Hlv. cbn [pass_at].
  pose proof (ro_one _ Hok) as H1. rewrite Hd in H1. rewrite <- Hp.
  assert (dummy_pass r ≠ 1) as Hn1 by (intros E; by apply H1 in E).
  destruct (decide (dummy_pass r = 0)) as [E|E].
  - rewrite decide_True by lia. rewrite bool_decide_eq_true_2 by done. rewrite andb_true_r.
    destruct (starts_dummies k l); cbn; lia.
  - rewrite decide_False by lia. rewrite bool_decide_eq_false_2 by done. rewrite andb_false_r. cbn. lia.
Qed.

Lemma end_round_frame k l r :
  sent (end_round k l r) = sent r ∧ recv (end_round k l r) = recv r ∧ real_to (end_round k l r) = real_to r ∧
  app (end_round k l r) = app r ∧ hist (end_round k l r) = hist r ∧ slot (end_round k l r) = slot r ∧
  dummy_phase (end_round k l r) = dummy_phase r ∧ blocked (end_round k l r) = blocked r ∧
  post (end_round k l r) = post r ∧ source (end_round k l r) = source r ∧
  irecv_dummies (end_round k l r) = irecv_dummies r ∧ dummy_to (end_round k l r) = dummy_to r ∧
  (dummy_pass (end_round k l r) = dummy_pass r ∨ dummy_pass r = 0 ∧ dummy_pass (end_round k l r) = 1) ∧
  dpc (end_round k l r) = (if leaves k l then Exited else Top) ∧
  (leaves k l = true → dummy_pass (end_round k l r) = dummy_pass r).
Proof.
  unfold end_round. destruct (leaves k l); [cbn; naive_solver|]. destruct (starts_dummies k l && _) eqn:E; [|cbn; naive_solver].
  apply andb_true_iff in E as [_ E%bool_decide_eq_true]. cbn. naive_solver.
Qed.

Lemma rank_ok_result r r' :
  rank_ok r → app r' = app r → recv r' = recv r → hist r' = hist r → slot r' = slot r → dummy_phase r' = dummy_phase r →
  blocked r' = blocked r → post r' = post r → (dummy_pass r' = dummy_pass r ∨ dummy_pass r = 0 ∧ dummy_pass r' = 1) →
  dpc r = Reduce → dpc r' = Exited ∧ dummy_pass r' ≠ 1 ∨ dpc r' = Top → rank_ok r'.
Proof.
  intros [] Ea Er Eh Es Ep Eb Eo Edp Hd Hd'. assert (2 ≤ dummy_pass r' ↔ 2 ≤ dummy_pass r) as H2 by lia.
  split; rewrite ?Er, ?Eh, ?Es, ?Ep, ?Eb, ?Eo, ?H2; try done.
  - unfold in_lower_half in *. by rewrite Ea.
  - intros n Hn. destruct Hd' as [[]|]; congruence.
  - intros _. apply ro_reduce. by left.
  - intros H1. by destruct Hd' as [[]|].
  - destruct Hd' as [[]|]; congruence.
  - rewrite ro_phase, Hd. destruct Hd' as [[-> _]| ->]; by split; intros [? _].
  - intros j Hj. destruct (ro_post j Hj). split; [lia|done].
  - intros Hb H3. apply ro_posted; [done|lia].
  - unfold app_ok in *. rewrite Ea, Eb. destruct (app r) as [| |[]|[]|[]]; try done. intros H3. apply ro_app. lia.
Qed.

Lemma keep_result l i r k :
  job_inv l → l !! i = Some r → dpc r = Reduce → length (hist r) = S k → (∀ r', r' ∈ l → k < length (hist r')) →
  job_inv (<[i := end_round k l r]> l).
Proof.
  intros Hi Hl Hd Hk Hall. pose proof (list_elem_of_lookup_2 _ _ _ Hl) as Hel. pose proof (ji_rank _ Hi r Hel) as Hok.
  assert (round r = k) as Hr by (unfold round; rewrite Hd, Hk; done).
  pose proof (ji_pass _ Hi r Hel) as Hp. rewrite Hr in Hp.
  destruct (end_round_frame k l r) as (E1 & E2 & E3 & E4 & E5 & E6 & E7 & E8 & E9 & Esrc & Etk & E10 & E11 & E12 & E13).
  pose proof (end_round_pass k l r Hok Hd Hp) as Hpass. set (r' := end_round k l r) in *. set (l' := <[i := r']> l).
  assert (sent <$> l' = sent <$> l) as Hsent by (by apply (sent_insert _ _ r)).
  assert (∀ k, round_samples k l' = round_samples k l) as Hsam.
  { intros j. apply (samples_insert _ _ _ r); [done|]. by rewrite E5. }
  assert (∀ x, x ∈ l' → ∃ y, y ∈ l ∧ hist x = hist y) as Hold.
  { intros x [->|Hx]%elem_of_insert; [|by exists x]. by exists r. }
  assert (∀ K, pass_at K l' = pass_at K l) as Hpe by (intros K; by apply pass_at_ext).
  assert (∀ K, leaves K l' = leaves K l) as Hle by (intros K; by apply (decisions_ext K l l')).
  assert (round r' = if leaves k l then k else S k) as Hround by (unfold round; rewrite E12, E5, Hk; by destruct (leaves k l)).
  split; [by apply (insert_balance _ _ r)|by apply (insert_taken _ _ r)|by apply (insert_source _ _ r)|..].
  - intros x [->|Hx]%elem_of_insert; [|by apply (ji_rank _ Hi)]. apply (rank_ok_result r); try done.
    rewrite E12. destruct (leaves k l); [left|by right]. split; [done|]. rewrite E13 by done. intros H1%(ro_one _ Hok). congruence.
  - intros x x' Hx (y' & Hy' & ->)%Hold. apply elem_of_insert in Hx as [->|Hx]; [|by apply (ji_contrib _ Hi)].
    rewrite Hround. pose proof (Hall _ Hy'). destruct (leaves k l); lia.
  - intros x Hx. rewrite Hpe. apply elem_of_insert in Hx as [->|Hx]; [|by apply (ji_pass _ Hi)].
    rewrite Hround. unfold top_pass. rewrite E12. destruct (leaves k l) eqn:Elv; [|by apply Hpass].
    rewrite <- Hp. unfold top_pass. rewrite Hd. destruct E11 as [->|[-> ->]]; done.
  - intros x j Hx Hj. rewrite Hle. apply elem_of_insert in Hx as [->|Hx]; [|by apply (ji_past _ Hi x)].
    destruct (decide (j = k)) as [->|]; [|apply (ji_past _ Hi r); [done|]]; destruct (leaves k l) eqn:Elv; try done; lia.
  - intros x Hx Hex. rewrite Hle. apply elem_of_insert in Hx as [->|Hx].
    + rewrite E12 in Hex. rewrite Hround. destruct (leaves k l) eqn:Elv; [|done]. split; [done|].
      intros x' (y' & Hy' & ->)%Hold. by apply Hall.
    + destruct (ji_exit _ Hi x Hx Hex) as [H1 H2]. split; [done|]. intros x' (y' & Hy' & ->)%Hold. by apply H2.
  - assert (∀ y, dummy_ok l y → dummy_ok l' y) as Hdf.
    { intros y. apply dummy_frame. apply (insert_frame _ _ r); [done|]. destruct E11 as [->|[-> ->]]; [done|lia]. }
    intros x [->|Hx]%elem_of_insert; [|by apply Hdf, (ji_dummy _ Hi)]. apply Hdf. pose proof (ji_dummy _ Hi _ Hel) as H.
    unfold dummy_ok, consumed in *. by rewrite E9, E10, E4, E8, Etk.
Qed.

(** ** The top of a round *)

Lemma sum_fmap {A} (f : A → nat) (l l' : list A) : f <$> l' = f <$> l → sum_list_with f l' = sum_list_with f l.
Proof. revert l. induction l' as [|x l' IH]; intros [|y l]; try done. intros [= E1 E2]. rewrite !sum_cons, E1. f_equal. by apply IH. Qed.

(** The processes after the top of process [i]'s round, whose pass is [p]. *)
Definition top_state (i sender p : nat) (l : list rank) : list rank :=
  alter (pass_action sender) i (if decide (p = 3) then send_dummies i l else l).
Definition give (i p : nat) (r : rank) : rank :=
  if decide (p = 3 ∧ post r = Some i) then r <| dummy_to ::= S |> else r.

Lemma top_lookup i sender p l j :
  top_state i sender p l !! j = (λ y, if decide (i = j) then pass_action sender (give i p y) else give i p y) <$> l !! j.
Proof.
  assert ((if decide (p = 3) then send_dummies i l else l) !! j = give i p <$> l !! j) as E.
  { unfold give. case_decide as Hp.
    - unfold send_dummies. rewrite list_lookup_fmap. destruct (l !! j) as [y|]; [|done]. cbn. f_equal.
      destruct (decide (post y = Some i)); [by rewrite decide_True|]. by rewrite decide_False by naive_solver.
    - destruct (l !! j) as [y|]; [|done]. cbn. by rewrite decide_False by naive_solver. }
  unfold top_state. destruct (decide (i = j)) as [->|Hij].
  - rewrite list_lookup_alter_eq, E. by destruct (l !! j).
  - rewrite list_lookup_alter_ne, E by done. by destruct (l !! j).
Qed.

Lemma top_fmap {B} (f : rank → B) i sender p l :
  (∀ x, f (pass_action sender x) = f x) → (∀ x, f (x <| dummy_to ::= S |>) = f x) → f <$> top_state i sender p l = f <$> l.
Proof.
  intros H1 H2. apply list_eq. intros j. rewrite !list_lookup_fmap, top_lookup. destruct (l !! j) as [y|]; [|done]. cbn.
  f_equal. destruct (decide (i = j)); rewrite ?H1; unfold give; case_decide; by rewrite ?H2.
Qed.

(** The parts of a process that the top of a round leaves. *)
Lemma pass_action_frame s r :
  sent (pass_action s r) = sent r ∧ recv (pass_action s r) = recv r ∧ real_to (pass_action s r) = real_to r ∧
  app (pass_action s r) = app r ∧ hist (pass_action s r) = hist r ∧ dummy_to (pass_action s r) = dummy_to r ∧
  dpc (pass_action s r) = (if decide (dummy_pass r = 1) then Closing else Work) ∧
  source (pass_action s r) = source r ∧ irecv_dummies (pass_action s r) = irecv_dummies r ∧ (slot (pass_action s r) = PENDING_RECV_ACTIVE ↔ slot r = PENDING_RECV_ACTIVE) ∧
  dummy_pass (pass_action s r) = if decide (dummy_pass r = O) then O else S (dummy_pass r).
Proof.
  unfold pass_action. destruct (dummy_pass r) as [|[|[|p]]] eqn:Ep; [cbn..|]; rewrite ?Ep; try (by split_and!).
  - split_and!; try done. case_bool_decide as E; [rewrite E|]; done.
  - destruct (blocked r); cbn; rewrite ?Ep; by split_and!.
Qed.

(** The passes, on the part of a process that they change. *)
Lemma pass_action_cases s r :
  (dummy_pass r ≠ 1 ∧ dummy_phase (pass_action s r) = dummy_phase r ∧ blocked (pass_action s r) = blocked r ∧
   post (pass_action s r) = (if decide (dummy_pass r = 2 ∧ blocked r = true) then Some s else post r)) ∨
  (dummy_pass r = 1 ∧ dummy_phase (pass_action s r) = dummy_phase r ∧
   blocked (pass_action s r) = bool_decide (slot r = PENDING_RECV_ACTIVE) ∧ post (pass_action s r) = post r).
Proof.
  unfold pass_action. destruct (dummy_pass r) as [|[|[|p]]] eqn:Ep; [left|right|left|left]; cbn.
  - by split_and!.
  - by split_and!.
  - destruct (blocked r) eqn:Eb; cbn.
    + by rewrite Eb.
    + by rewrite Eb.
  - by split_and!.
Qed.

Lemma rank_ok_top s r : rank_ok r → dpc r = Top → rank_ok (pass_action s r).
Proof.
  intros Hok Hd. destruct (pass_action_frame s r) as (_ & E2 & _ & E4 & E5 & _ & E7 & _ & _ & E8 & E9). destruct Hok.
  assert (∀ n, 2 ≤ n → (n ≤ dummy_pass (pass_action s r) ↔ n ≤ S (dummy_pass r) ∧ dummy_pass r ≠ 0)) as Hn.
  { intros n Hn. rewrite E9. case_decide; lia. }
  assert (dummy_pass r = 1 → blocked r = false ∧ post r = None) as H1.
  { intros H1. split; [apply not_true_iff_false; intros H%ro_blocked; lia|].
    destruct (post r) as [j|] eqn:Ej; [|done]. destruct (ro_post j eq_refl). lia. }
  split; rewrite ?E2, ?E5, ?E7, ?E8, ?Hn by lia; try done.
  - unfold in_lower_half in *. by rewrite E4.
  - intros k t Hk. split; [by apply (ro_hist k)|]. rewrite E8. by apply (ro_hist k).
  - intros n. destruct (decide _); intros ?; done.
  - destruct (decide _); by intros [|].
  - rewrite E9. case_decide; lia.
  - rewrite E9. repeat case_decide; intros ?; lia || done.
  - assert (dummy_phase (pass_action s r) = dummy_phase r) as -> by (by destruct (pass_action_cases s r) as [(_ & -> & _)|(_ & -> & _)]).
    rewrite ro_phase, Hd. destruct (decide _) as [E1|E1]; [split; [lia|by intros [_ []]]|]. split; intros [? _]; (split; [lia|done]).
  - destruct (pass_action_cases s r) as [(Hne & _ & -> & _)|(-> & _)]; [intros H%ro_blocked|]; lia.
  - intros j. rewrite Hn by lia. destruct (pass_action_cases s r) as [(Hne & _ & -> & ->)|(Hp & _ & _ & ->)].
    + destruct (decide (dummy_pass r = 2 ∧ blocked r = true)) as [Hc|Hc]; [destruct Hc; intros _; split; [lia|done]|]. intros [? ?]%ro_post. split; [lia|done].
    + destruct (H1 Hp) as [_ ->]. done.
  - destruct (pass_action_cases s r) as [(Hne & _ & -> & ->)|(-> & _)]; [|lia].
    intros Hb Hp. destruct (decide (dummy_pass r = 2 ∧ blocked r = true)) as [Hc|Hc]; [done|]. apply ro_posted; [done|]. destruct (decide (dummy_pass r = 2)); [|lia]. naive_solver.
  - unfold app_ok in *. rewrite E4. destruct (pass_action_cases s r) as [(Hne & _ & -> & _)|(Hp & _ & -> & _)].
    + destruct (app r) as [| |[]|[]|[]]; try done. rewrite Hn by lia. intros H2. apply ro_app. lia.
    + destruct (H1 Hp) as [Hb _]. rewrite Hb in ro_app. destruct (app r) as [| |[]|[]|[]] eqn:Ea; try done.
      * intros _. apply bool_decide_eq_true, ro_slot. unfold in_lower_half. by rewrite Ea.
      * by destruct ro_app.
Qed.

Lemma consumed_top s r : rank_ok r → consumed (pass_action s r) = consumed r.
Proof.
  intros Hok. destruct (pass_action_frame s r) as (_ & _ & _ & E4 & _). unfold consumed. rewrite E4.
  destruct (app r) as [| |[]|[]|[]] eqn:Ea; try done.
  destruct (pass_action_cases s r) as [(_ & _ & -> & _)|(Hp & _ & -> & _)]; [done|].
  destruct (blocked r) eqn:Eb; [apply (ro_blocked _ Hok) in Eb; lia|]. rewrite bool_decide_eq_false_2; [done|].
  intros Hs%(ro_slot _ Hok). unfold in_lower_half in Hs. by rewrite Ea in Hs.
Qed.

Lemma give_frame i p r :
  sent (give i p r) = sent r ∧ recv (give i p r) = recv r ∧ real_to (give i p r) = real_to r ∧ app (give i p r) = app r ∧
  hist (give i p r) = hist r ∧ slot (give i p r) = slot r ∧ dummy_phase (give i p r) = dummy_phase r ∧
  blocked (give i p r) = blocked r ∧ post (give i p r) = post r ∧ dummy_pass (give i p r) = dummy_pass r ∧
  dpc (give i p r) = dpc r ∧ irecv_dummies (give i p r) = irecv_dummies r ∧
  dummy_to (give i p r) = dummy_to r + (if decide (p = 3 ∧ post r = Some i) then 1 else 0).
Proof. unfold give. case_decide; cbn; split_and!; try done; lia. Qed.
Lemma rank_ok_give i p r : rank_ok r → rank_ok (give i p r).
Proof. unfold give. case_decide; [|done]. intros []. by split. Qed.
Lemma consumed_give i p r : consumed (give i p r) = consumed r.
Proof. unfold give. by case_decide. Qed.

(** A process after the top of process [i]'s round: its pass, its dummies, what
    it asked for. *)
Definition after_top (i s p : nat) (k : nat) (r : rank) : rank :=
  if decide (i = k) then pass_action s (give i p r) else give i p r.

Lemma after_top_pass i s k r :
  dummy_pass (after_top i s (dummy_pass r) k r) =
  if decide (i = k ∧ dummy_pass r ≠ 0) then S (dummy_pass r) else dummy_pass r.
Proof.
  unfold after_top. destruct (give_frame i (dummy_pass r) r) as (_ & _ & _ & _ & _ & _ & _ & _ & _ & Gp & _).
  destruct (decide (i = k)) as [<-|Hne]; [|rewrite Gp, decide_False by naive_solver; done].
  destruct (pass_action_frame s (give i (dummy_pass r) r)) as (_ & _ & _ & _ & _ & _ & _ & _ & _ & _ & ->). rewrite Gp.
  destruct (decide (dummy_pass r = 0)) as [E|E]; [by rewrite decide_False by naive_solver|by rewrite decide_True].
Qed.
Lemma after_top_other i s p k r : i ≠ k → dummy_pass (after_top i s p k r) = dummy_pass r.
Proof. intros Hne. unfold after_top. rewrite decide_False by done. by destruct (give_frame i p r) as (_ & _ & _ & _ & _ & _ & _ & _ & _ & -> & _). Qed.

Lemma after_top_dummy i s p k r :
  rank_ok r →
  dummy_to (after_top i s p k r) = dummy_to r + (if decide (p = 3 ∧ post r = Some i) then 1 else 0) ∧
  consumed (after_top i s p k r) = consumed r ∧ irecv_dummies (after_top i s p k r) = irecv_dummies r.
Proof.
  intros Hok. destruct (give_frame i p r) as (_ & _ & _ & _ & _ & _ & _ & _ & _ & _ & _ & G13 & G12). unfold after_top.
  destruct (decide (i = k)); [|by rewrite consumed_give].
  destruct (pass_action_frame s (give i p r)) as (_ & _ & _ & _ & _ & -> & _ & _ & -> & _). split; [done|].
  rewrite consumed_top, consumed_give; [done|by apply rank_ok_give].
Qed.
Lemma after_top_post i s p k r :
  post (after_top i s p k r) = post r ∨
  i = k ∧ dummy_pass r = 2 ∧ blocked r = true ∧ post (after_top i s p k r) = Some s.
Proof.
  destruct (give_frame i p r) as (_ & _ & _ & _ & _ & _ & _ & G8 & G9 & G10 & _). unfold after_top.
  destruct (decide (i = k)); [|by left].
  destruct (pass_action_cases s (give i p r)) as [(_ & _ & _ & ->)|(_ & _ & _ & ->)]; rewrite ?G8, ?G9, ?G10; [|by left].
  destruct (decide _) as [[]|]; [by right|by left].
Qed.

(** The dummies after the top of a round: pass 2 asks a process that has not
    sent its dummies yet, pass 3 sends one to each process that asked. *)
Lemma top_dummy l i r s :
  job_inv l → l !! i = Some r → dpc r = Top → (dummy_pass r = 2 → blocked r = true → s < length l) →
  ∀ x, x ∈ top_state i s (dummy_pass r) l → dummy_ok (top_state i s (dummy_pass r) l) x.
Proof.
  intros Hi Hl Hd Hs x (j & Hj)%list_elem_of_lookup. set (l' := top_state _ _ _ l) in *.
  assert (∀ k, l' !! k = after_top i s (dummy_pass r) k <$> l !! k) as Hk by apply top_lookup.
  rewrite Hk in Hj. destruct (l !! j) as [y|] eqn:Hy; [|done]. injection Hj as <-.
  pose proof (list_elem_of_lookup_2 _ _ _ Hl) as Hel. pose proof (list_elem_of_lookup_2 _ _ _ Hy) as Hely.
  destruct (after_top_dummy i s (dummy_pass r) j y (ji_rank _ Hi y Hely)) as (E1 & E2 & E3).
  pose proof (ji_dummy _ Hi y Hely) as Hdy. unfold dummy_ok in *. rewrite E1, E2, E3. clear E1 E2 E3.
  destruct (after_top_post i s (dummy_pass r) j y) as [->|(<- & Hp & Hb & ->)].
  - destruct (post y) as [j'|]; [|rewrite decide_False by naive_solver; lia]. destruct Hdy as (rj & Hrj & E).
    eexists. split; [by rewrite Hk, Hrj|]. destruct (decide (i = j')) as [<-|Hne].
    + assert (rj = r) as -> by congruence. rewrite after_top_pass. repeat case_decide; try lia; naive_solver lia.
    + rewrite after_top_other, decide_False by naive_solver. lia.
  - assert (y = r) as -> by congruence. specialize (Hs Hp Hb). assert (post r = None) as Ho.
    { destruct (post r) as [k|] eqn:Ek; [|done]. destruct (ro_post _ (ji_rank _ Hi r Hel) k Ek). lia. }
    rewrite Ho in *. destruct (lookup_lt_is_Some_2 _ _ Hs) as [rs Hrs]. eexists. split; [by rewrite Hk, Hrs|].
    rewrite decide_False by naive_solver. destruct (decide (i = s)) as [<-|Hne].
    + assert (rs = r) as -> by congruence. rewrite after_top_pass. repeat case_decide; lia.
    + rewrite after_top_other, decide_False; [lia| |done]. intros H4. assert (3 ≤ dummy_pass r); [|lia].
      apply (pass_close l rs); [done|by eapply list_elem_of_lookup_2|done|]. unfold top_pass. destruct (dpc rs); lia.
Qed.

Lemma after_top_round i s p k r :
  (i = k → dpc r = Top) →
  round (after_top i s p k r) = round r ∧ top_pass (after_top i s p k r) = top_pass r ∧
  (dpc (after_top i s p k r) = Exited → dpc r = Exited).
Proof.
  intros Ht. destruct (give_frame i p r) as (_ & _ & _ & _ & G5 & _ & _ & _ & _ & G10 & G11 & _). unfold after_top, round, top_pass.
  destruct (decide (i = k)) as [E|Hne]; [|by rewrite G5, G10, G11].
  destruct (pass_action_frame s (give i p r)) as (_ & _ & _ & _ & E5 & _ & E7 & _ & _ & _ & E9).
  rewrite E5, E7, E9, G5, G10, (Ht E). split_and!; repeat case_decide; try done; lia.
Qed.

Lemma after_top_frame i s p k r :
  real_to (after_top i s p k r) = real_to r ∧ app (after_top i s p k r) = app r ∧
  irecv_dummies (after_top i s p k r) = irecv_dummies r.
Proof.
  destruct (give_frame i p r) as (_ & _ & G3 & G4 & _ & _ & _ & _ & _ & _ & _ & G12 & _). unfold after_top.
  destruct (decide (i = k)); [|done]. destruct (pass_action_frame s (give i p r)) as (_ & _ & -> & -> & _ & _ & _ & _ & -> & _). done.
Qed.

(** The sender that [postDummy()] chooses is a process of the job. *)
Lemma first_not_blocked_elem l ms j : first_not_blocked l ms = Some j → j ∈ ms ∧ blocked_bit l j = false.
Proof.
  induction ms as [|k ms IH]; [done|]. cbn. destruct (blocked_bit l k) eqn:E.
  - intros [? ?]%IH. split; [by right|done].
  - intros [= ->]. split; [by left|done].
Qed.
Lemma dummy_sender_ok l s j : source_ok (length l) s → dummy_sender l s = Some j → j < length l.
Proof.
  destruct s as [k|ms]; cbn; [by intros ? [= ->]|]. rewrite Forall_forall. intros Hall [Hj _]%first_not_blocked_elem. by apply Hall.
Qed.

Lemma keep_top l i r s :
  job_inv l → l !! i = Some r → dpc r = Top → (dummy_pass r = 2 → blocked r = true → dummy_sender l (source r) = Some s) →
  job_inv (top_state i s (dummy_pass r) l).
Proof.
  intros Hi Hl Hd Hs. pose proof (list_elem_of_lookup_2 _ _ _ Hl) as Hel.
  assert (dummy_pass r = 2 → blocked r = true → s < length l) as Hlt.
  { intros H2 Hb. by apply (dummy_sender_ok l (source r)); [apply (ji_source _ Hi)|apply Hs]. }
  assert (∀ x, x ∈ top_state i s (dummy_pass r) l →
    ∃ k y, y ∈ l ∧ (i = k → y = r) ∧ x = after_top i s (dummy_pass r) k y) as Hx.
  { intros x (k & Hk)%list_elem_of_lookup. rewrite top_lookup in Hk. destruct (l !! k) as [y|] eqn:Ey; [|done].
    injection Hk as <-. exists k, y. split_and!; [by eapply list_elem_of_lookup_2|naive_solver|done]. }
  assert (∀ f : rank → nat, (∀ x, f (pass_action s x) = f x) → (∀ x, f (x <| dummy_to ::= S |>) = f x) →
    sum_list_with f (top_state i s (dummy_pass r) l) = sum_list_with f l) as Hsum.
  { intros f H1 H2. by apply sum_fmap, top_fmap. }
  apply (inv_frame l); [done|apply top_fmap; [apply pass_action_frame|done]..| | | | |by apply top_dummy].
  - intros x (k & y & Hy & Hk & ->)%Hx. exists y. split; [done|]. apply after_top_round. intros E. by rewrite (Hk E).
  - rewrite !Hsum; try done; try (intros x; apply (pass_action_frame s x)); [apply (ji_balance _ Hi)|].
    intros x. unfold holds_real. destruct (pass_action_frame s x) as (_ & _ & _ & -> & _). done.
  - assert (∀ k y, real_to (after_top i s (dummy_pass r) k y) = real_to y ∧ app (after_top i s (dummy_pass r) k y) = app y ∧
      irecv_dummies (after_top i s (dummy_pass r) k y) = irecv_dummies y) as Hf by (intros; apply after_top_frame).
    intros x x' (k & y & Hy & _ & ->)%Hx (k' & y' & Hy' & _ & ->)%Hx. unfold holds_real.
    destruct (Hf k y) as (_ & _ & ->), (Hf k' y') as (-> & -> & _). by apply (ji_taken _ Hi).
  - intros x (k & y & Hy & Hk & ->)%Hx. unfold after_top. pose proof (ji_rank _ Hi y Hy) as Hok.
    destruct (decide (i = k)) as [E|]; [|by apply rank_ok_give]. apply rank_ok_top; [by apply rank_ok_give|].
    destruct (give_frame i (dummy_pass r) y) as (_ & _ & _ & _ & _ & _ & _ & _ & _ & _ & -> & _). by rewrite (Hk E).
Qed.

(** ** Every step, every run *)

Lemma step_keeps l l' : job_inv l → job_step l l' → job_inv l'.
Proof.
  intros Hi Hs. destruct Hs.
  - by apply (keep_top l i r).
  - by apply keep_phase.
  - by apply keep_drain.
  - exfalso. assert (slot r = PENDING_RECV_ACTIVE); [|done]. apply (no_dummy_drained l); [done|by eapply list_elem_of_lookup_2|done].
  - by apply keep_irecv_real.
  - by apply keep_irecv_dummy.
  - by apply keep_sample_recv.
  - by apply keep_sample_slot.
  - by apply keep_result.
  - by apply keep_recv_real.
  - by apply keep_recv_dummy.
  - by apply keep_read.
  - by apply (keep_discard _ _ _ k).
  - by apply (keep_store _ _ _ k).
  - by apply (keep_count _ _ _ k).
Qed.

Lemma start_inv l : job_start l → job_inv l.
Proof.
  intros [Hall Hb].
  assert (∀ r, r ∈ l → round r = 0) as Hr by (intros r (E & _ & Eh & _)%Hall; unfold round; by rewrite E, Eh).
  split.
  - rewrite Hb, (sum_all_zero irecv_dummies); [lia|]. by intros r (_ & _ & _ & _ & _ & _ & _ & E & _)%Hall.
  - intros r r' (_ & _ & _ & _ & _ & _ & _ & E & _)%Hall. lia.
  - by intros r (_ & _ & _ & _ & _ & _ & _ & _ & E & _)%Hall.
  - intros r (E1 & E2 & E3 & E4 & E5 & E6 & E7 & _ & _ & E8 & E9)%Hall. split; rewrite ?E1, ?E2, ?E3, ?E4, ?E5, ?E6; try done; try lia.
    + by intros [|].
    + unfold app_ok. rewrite E2. destruct (app r) as [| |[]|[] []|[]]; try done; lia.
  - intros r r' ->%Hr Hr'. lia.
  - intros r Hel. rewrite (Hr r Hel). apply Hall in Hel as (E1 & E2 & _). unfold top_pass. by rewrite E1.
  - intros r k ->%Hr Hk. lia.
  - intros r (E1 & _)%Hall. congruence.
  - intros r (E1 & E2 & E3 & E4 & E5 & E6 & E7 & Et & _ & E8 & E9)%Hall. unfold dummy_ok, consumed. rewrite E6, E7, E5, Et.
    destruct (app r) as [| |[]|[]|[]]; done.
Qed.

Lemma runs_inv l0 l : job_start l0 → rtc job_step l0 l → job_inv l.
Proof. intros Hs Hr. apply start_inv in Hs. induction Hr; [done|]. by eauto using step_keeps. Qed.
