(* ===== verification/P2pJobLive.v ===== *)
(** * The drain across processes can always finish

    From every state that keeps the invariant, the steps that are left to take
    lead to a state in which every process is out of the loop, if nothing is in the way
    of a dummy ([unobstructed]).  The schedule:
    the application threads finish what they can; then the process that is
    furthest behind takes its next step, up to a round in which no message is
    uncounted and no receive is blocked. *)
From S2P Require Import Prelude P2p P2pJob P2pJobInv P2pJobSteps.
#[local] Open Scope nat_scope.

(** ** A measure argument *)

Lemma reach (I G : list rank → Prop) (m : list rank → nat) :
  (∀ l, I l → G l ∨ ∃ l', job_step l l' ∧ I l' ∧ m l' < m l) → ∀ l, I l → ∃ l', rtc job_step l l' ∧ I l' ∧ G l'.
Proof.
  intros Hp l. induction l as [l IH] using (induction_ltof1 _ m). intros Hi.
  destruct (Hp l Hi) as [Hg|(l1 & Hs & Hi1 & Hm)]; [exists l; split_and!; [apply rtc_refl|done|done]|].
  destruct (IH l1 Hm Hi1) as (l2 & Hr & H2). exists l2. split; [by eapply rtc_l|done].
Qed.

Lemma sum_pointwise (w : rank → nat) l l' :
  length l' = length l → (∀ j x y, l !! j = Some x → l' !! j = Some y → w y ≤ w x) →
  sum_list_with w l' ≤ sum_list_with w l.
Proof.
  revert l'. induction l as [|x l IH]; intros [|y l'] Hlen Hw; try done. rewrite !sum_cons.
  pose proof (Hw 0 x y eq_refl eq_refl). assert (sum_list_with w l' ≤ sum_list_with w l); [|lia].
  apply IH; [by injection Hlen|]. intros j. apply (Hw (S j)).
Qed.
Lemma sum_pointwise_lt (w : rank → nat) l l' i x y :
  length l' = length l → (∀ j x y, l !! j = Some x → l' !! j = Some y → w y ≤ w x) →
  l !! i = Some x → l' !! i = Some y → w y < w x → sum_list_with w l' < sum_list_with w l.
Proof.
  revert l l'. induction i as [|i IH]; intros [|x' l] [|y' l'] Hlen Hw Hx Hy Hlt; try done; rewrite !sum_cons;
    cbn in Hx, Hy; injection Hlen as Hlen.
  - injection Hx as ->. injection Hy as ->. pose proof (sum_pointwise w l l' Hlen (λ j, Hw (S j))). lia.
  - pose proof (Hw 0 x' y' eq_refl eq_refl). pose proof (IH l l' Hlen (λ j, Hw (S j)) Hx Hy Hlt). lia.
Qed.
Lemma sum_insert_lt (w : rank → nat) l i x y :
  l !! i = Some x → w y < w x → sum_list_with w (<[i := y]> l) < sum_list_with w l.
Proof. intros Hx Hlt. pose proof (sum_insert w l i x y Hx). lia. Qed.

(** ** When nothing is in the way of a dummy *)

(** In a receive, or found blocked in it in pass 1. *)
Definition stuck (r : rank) : bool := in_lower_half r || blocked r.
(** No pending [MPI_Irecv] matches the dummy of a receive, and a receive from
    [MPI_ANY_SOURCE] has a member of its communicator that is not in a receive. *)
Definition unobstructed (l : list rank) : Prop :=
  ∀ r, r ∈ l → irecv_dummies r = 0 ∧ (stuck r = true →
    irecvs r = 0 ∧ match source r with From _ => True | Any members => ∃ j q, j ∈ members ∧ l !! j = Some q ∧ stuck q = false end).

(** Steps start no receive and post no [MPI_Irecv]. *)
Record calmer (r r' : rank) : Prop := {
  ca_source : source r' = source r;
  ca_irecvs : irecvs r' ≤ irecvs r;
  ca_stuck : stuck r' = true → stuck r = true;
  ca_taken : irecv_dummies r' = irecv_dummies r ∨ irecv_dummies r' = S (irecv_dummies r) ∧ 0 < irecvs r ∧ stuck r = true
}.
#[export] Instance calmer_refl : Reflexive calmer.
Proof. intros r. split; try done. by left. Qed.
Lemma unobstructed_calmer l l' : unobstructed l → Forall2 calmer l l' → unobstructed l'.
Proof.
  intros Hu Hc x (j & Hj)%list_elem_of_lookup. destruct (Forall2_lookup_r _ _ _ _ _ Hc Hj) as (y & Hy & [E1 E2 E3 E4]).
  destruct (Hu y (list_elem_of_lookup_2 _ _ _ Hy)) as [H1 H2]. split; [destruct E4 as [->|(_ & H0 & Hs)]; [done|destruct (H2 Hs); lia]|].
  intros Hs%E3. destruct (H2 Hs) as [H3 H4]. split; [lia|]. rewrite E1. destruct (source y) as [|ms]; [done|].
  destruct H4 as (k & q & Hk & Hq & Hn). destruct (Forall2_lookup_l _ _ _ _ _ Hc Hq) as (q' & Hq' & [_ _ H _]). exists k, q'.
  split; [done|]. split; [done|]. apply not_true_iff_false. intros Ht%H. congruence.
Qed.
Lemma calmer_insert (l : list rank) i r r' : l !! i = Some r → calmer r r' → Forall2 calmer l (<[i := r']> l).
Proof. intros Hl Hc. rewrite <- (list_insert_id l i r Hl) at 1. by apply Forall2_insert. Qed.

Lemma end_round_calmer k l r : calmer r (end_round k l r).
Proof. unfold end_round. destruct (leaves k l); [|destruct (_ && _)]; split; try done; by left. Qed.
Lemma pass_action_calmer s r : rank_ok r → calmer r (pass_action s r).
Proof.
  intros Hok. destruct (pass_action_frame s r) as (_ & _ & _ & E4 & _ & _ & _ & E8 & E9 & _). split; [done| | |by left].
  - unfold pass_action. destruct (dummy_pass r) as [|[|[|p]]]; cbn; try done. by destruct (blocked r).
  - unfold stuck, in_lower_half. rewrite E4. destruct (pass_action_cases s r) as [(_ & _ & -> & _)|(_ & _ & -> & _)]; [done|].
    intros [->|Hb%bool_decide_eq_true]%orb_true_iff; [done|]. apply (ro_slot _ Hok) in Hb. unfold in_lower_half in Hb. by rewrite Hb.
Qed.
Lemma give_calmer i p r : calmer r (give i p r).
Proof. unfold give. case_decide; split; try done; by left. Qed.

Ltac app_calmer :=
  split; try done; try (by left); cbn; unfold stuck, in_lower_half; cbn;
    match goal with H : app _ = _ |- _ => rewrite ?H; cbn; rewrite ?orb_true_r; done end.
Lemma step_calmer l l' : job_inv l → job_step l l' → Forall2 calmer l l'.
Proof.
  intros Hi Hs. destruct Hs as [i r s Hl Hd _| | | | | | | |i r k Hl| | | | | |]; try (eapply calmer_insert; [eassumption|]).
  - apply Forall2_same_length_lookup. change (length l = length (top_state i s (dummy_pass r) l) ∧
      ∀ j y x, l !! j = Some y → top_state i s (dummy_pass r) l !! j = Some x → calmer y x). split.
    + unfold top_state. rewrite length_alter. destruct (decide (dummy_pass r = 3)); [|done]. unfold send_dummies. by rewrite length_fmap.
    + intros j y x Ey. rewrite top_lookup, Ey. intros [= <-].
      pose proof (give_calmer i (dummy_pass r) y) as [G1 G2 G3 G4]. destruct (decide (i = j)); [|done].
      destruct (pass_action_calmer s (give i (dummy_pass r) y)) as [P1 P2 P3 P4].
      { apply rank_ok_give, (ji_rank _ Hi). by eapply list_elem_of_lookup_2. }
      destruct (pass_action_frame s (give i (dummy_pass r) y)) as (_ & _ & _ & _ & _ & _ & _ & _ & P5 & _).
      unfold give in *. case_decide; split; try (by left); cbn in *; try lia; try auto; congruence.
  - split; try done. by left.
  - split; try done. by left.
  - split; try done. by left.
  - split; cbn; try done; [lia|by left].
  - split; cbn; try done; [lia|]. right. split; [done|]. split; [done|]. unfold stuck.
    match goal with H : l !! _ = Some ?r |- _ => apply list_elem_of_lookup_2 in H as Hel; destruct (dummy_waited l r Hi Hel ltac:(lia)) as [-> _] end.
    apply orb_true_r.
  - split; try done. by left.
  - split; try done. by left.
  - apply end_round_calmer.
  - app_calmer.
  - app_calmer.
  - app_calmer.
  - app_calmer.
  - app_calmer.
  - app_calmer.
Qed.

Lemma step_unobstructed l l' : job_inv l → unobstructed l → job_step l l' → unobstructed l'.
Proof. intros Hi Hu Hs. apply (unobstructed_calmer l); [done|by apply step_calmer]. Qed.
(** A dummy that an [MPI_Irecv] took stays there. *)
Lemma step_taken l l' : job_inv l → job_step l l' → (∃ r, r ∈ l ∧ 0 < irecv_dummies r) → ∃ r, r ∈ l' ∧ 0 < irecv_dummies r.
Proof.
  intros Hi Hs (r & (j & Hj)%list_elem_of_lookup & H0). destruct (Forall2_lookup_l _ _ _ _ _ (step_calmer _ _ Hi Hs) Hj) as (r' & Hj' & Hc).
  exists r'. split; [by eapply list_elem_of_lookup_2|]. destruct (ca_taken _ _ Hc) as [->|[-> _]]; lia.
Qed.

(** ** The application threads *)

(** Nothing to do for the application thread or to drain. *)
Definition quiet (r : rank) : bool :=
  bool_decide (real_to r = 0) && match app r with Out => true | InRecv => bool_decide (dummy_to r = 0) | _ => false end.
Definition app_work (r : rank) : nat :=
  real_to r + match app r with InRecv => 4 | Got _ => 3 | Read _ _ => 2 | Stored _ => 1 | Out => 0 end.

Definition same_drain (r r' : rank) : Prop :=
  dpc r' = dpc r ∧ hist r' = hist r ∧ dummy_pass r' = dummy_pass r ∧ blocked r' = blocked r.

Lemma exited_counted l r : job_inv l → r ∈ l → dpc r = Exited → ∀ r', r' ∈ l → real_to r' = 0 ∧ holds_real r' = 0.
Proof.
  intros Hi Hr He. destruct (ji_exit _ Hi r Hr He) as [Hlv _]. apply all_counted; [done|].
  by apply (leaves_received (round r)); [apply inv_samples|].
Qed.

(** The next step of the application thread, or the drain of a message. *)
Lemma app_progress l i r :
  job_inv l → unobstructed l → l !! i = Some r → quiet r = false →
  ∃ r', job_step l (<[i := r']> l) ∧ same_drain r r' ∧ app_work r' < app_work r ∧
    (real_to r = 0 → holds_real r = 0 → recv r' = recv r ∧ real_to r' = 0 ∧ holds_real r' = 0).
Proof.
  intros Hi Hu Hl Hq. pose proof (list_elem_of_lookup_2 _ _ _ Hl) as Hr. unfold quiet in Hq.
  destruct (decide (real_to r = 0)) as [E0|E0].
  - rewrite bool_decide_eq_true_2 in Hq by done. destruct (app r) as [| |k|k b|k] eqn:Ea; [done| | | |].
    + apply bool_decide_eq_false in Hq. eexists. split; [apply js_recv_dummy; [done|done|lia|]|].
      { apply (Hu r Hr). unfold stuck, in_lower_half. by rewrite Ea. }
      split; [done|]. unfold app_work, holds_real. rewrite Ea. cbn. split; [lia|done].
    + eexists. split; [by apply js_read|]. split; [done|]. unfold app_work, holds_real. rewrite Ea. cbn. split; [lia|]. by destruct k.
    + destruct b; eexists; (split; [first [by eapply js_discard|by eapply js_store]|]); (split; [done|]);
        unfold app_work, holds_real; rewrite Ea; cbn; (split; [lia|by destruct k]).
    + eexists. split; [by eapply js_count|]. split; [done|]. unfold app_work, holds_real. rewrite Ea. cbn. split; [lia|].
      pose proof (ro_app _ (ji_rank _ Hi r Hr)) as H. unfold app_ok in H. rewrite Ea in H. by destruct k.
  - eexists. split; [apply js_drain; [done| |lia]|].
    + intros He. destruct (exited_counted _ _ Hi Hr He r Hr). lia.
    + split; [done|]. unfold app_work. cbn. split; [lia|done].
Qed.

(** Every message can be counted. *)
Definition counted (l : list rank) : Prop := ∀ r, r ∈ l → real_to r = 0 ∧ holds_real r = 0.
Lemma quiet_counted r : quiet r = true → real_to r = 0 ∧ holds_real r = 0.
Proof.
  unfold quiet, holds_real. intros [H1%bool_decide_eq_true H2]%andb_true_iff. split; [done|]. by destruct (app r).
Qed.
Lemma find_rank (P : rank → bool) (l : list rank) : (∀ r, r ∈ l → P r = true) ∨ ∃ i r, l !! i = Some r ∧ P r = false.
Proof.
  induction l as [|x l [IH|(i & r & Hi & Hr)]]; [left; by intros r []%not_elem_of_nil| |right; by exists (S i), r].
  destruct (P x) eqn:Ex; [|right; by exists 0, x]. left. by intros r [->|Hr]%elem_of_cons; [|apply IH].
Qed.
Lemma reach_counted l : job_inv l → unobstructed l → ∃ l', rtc job_step l l' ∧ job_inv l' ∧ unobstructed l' ∧ counted l'.
Proof.
  intros Hi Hu. edestruct (reach (λ l, job_inv l ∧ unobstructed l) (λ l, ∀ r, r ∈ l → quiet r = true) (sum_list_with app_work))
    as (l' & Hr & [Hi' Hu'] & Hq); [|exact (conj Hi Hu)|].
  - intros l1 [Hi1 Hu1]. destruct (find_rank quiet l1) as [Hq|(i & r & Hl & Hq)]; [by left|right].
    destruct (app_progress _ _ _ Hi1 Hu1 Hl Hq) as (r' & Hs & _ & Hw & _). eexists. split; [exact Hs|].
    split; [split; [by eapply step_keeps|by eapply step_unobstructed]|by apply (sum_insert_lt _ _ _ r)].
  - exists l'. split_and!; [done..|]. intros r H%Hq. by apply quiet_counted.
Qed.

(** ** The rounds after every message is counted *)

(** Contributions from round [k0] on are exact; from round [k0 + 4] on they say
    that no receive is blocked. *)
Record settled_rank (k0 : nat) (r : rank) : Prop := {
  se_counted : real_to r = 0 ∧ holds_real r = 0;
  se_sampled n : dpc r = Sampled n → k0 ≤ length (hist r) → n = recv r;
  se_hist k s : hist r !! k = Some s → k0 ≤ k →
    s_recv s = recv r ∧ s_done s = true ∧ s_dummies_done s = true ∧ (k0 + 4 ≤ k → s_in_recv s = false)
}.
Definition settled (k0 : nat) (l : list rank) : Prop := job_inv l ∧ ∀ r, r ∈ l → settled_rank k0 r.

Lemma elem_of_samples k l s : s ∈ round_samples k l → ∃ r, r ∈ l ∧ hist r !! k = Some s.
Proof. unfold round_samples. rewrite list_elem_of_omap. naive_solver. Qed.
Lemma sum_samples_exact k l :
  (∀ r, r ∈ l → ∃ s, hist r !! k = Some s ∧ s_recv s = recv r) → sum_list_with s_recv (round_samples k l) = sum_list_with recv l.
Proof.
  induction l as [|r l IH]; intros Hl; [done|]. rewrite samples_cons, sum_cons. destruct (Hl r ltac:(by left)) as (s & -> & E).
  rewrite sum_cons, E, IH; [done|]. intros r' Hr'. apply Hl. by right.
Qed.
Lemma settled_sums k0 k l :
  settled k0 l → k0 ≤ k → (∀ r, r ∈ l → k < length (hist r)) → received k l = true ∧ dummies_done k l = true.
Proof.
  intros [Hi Hse] Hk Hall.
  assert (∀ r, r ∈ l → ∃ s, hist r !! k = Some s ∧ s_recv s = recv r) as Hex.
  { intros r Hr. destruct (lookup_lt_is_Some_2 _ _ (Hall r Hr)) as [s Hs]. exists s. split; [done|]. by apply (se_hist _ _ (Hse r Hr) k). }
  unfold received, dummies_done. rewrite sum_samples_exact by done. pose proof (ji_balance _ Hi) as Hb.
  rewrite (sum_all_zero real_to), (sum_all_zero holds_real), !Nat.add_0_r in Hb by (intros r Hr; apply (se_counted _ _ (Hse r Hr))).
  assert ((sum_list_with sent l <=? sum_list_with recv l) = true) as -> by (apply Nat.leb_le; lia). split; apply forallb_forall; intros s (r & Hr & Hs)%list_elem_of_In%elem_of_samples;
    by apply (se_hist _ _ (Hse r Hr) k).
Qed.

(** A process past round [k0] has begun its passes. *)
Lemma passes_begun k0 l r : settled k0 l → r ∈ l → k0 < round r → 1 ≤ pass_at (S k0) l.
Proof.
  intros Hs Hr Hk. pose proof Hs as [Hi _]. destruct (settled_sums k0 k0 l Hs) as [H1 H2]; [lia| |].
  { intros r' Hr'. pose proof (ji_contrib _ Hi r r' Hr Hr'). lia. }
  pose proof (ji_past _ Hi r k0 Hr Hk) as Hl. unfold leaves in Hl. rewrite H1, H2, andb_true_r in Hl. cbn in Hl.
  apply negb_false_iff in Hl. cbn [pass_at]. unfold starts_dummies. rewrite H1, Hl. cbn. case_decide; lia.
Qed.
(** In round [k0 + 4] every process has sent its dummies. *)
Lemma passes_done k0 l r r' : settled k0 l → r ∈ l → k0 + 4 ≤ round r → r' ∈ l → 4 ≤ dummy_pass r'.
Proof.
  intros Hs Hr Hk Hr'. pose proof Hs as [Hi _]. pose proof (passes_begun k0 l r Hs Hr ltac:(lia)) as H1.
  pose proof (pass_at_mono (S k0) (k0 + 3) l ltac:(lia) ltac:(lia)) as H3.
  pose proof (ji_contrib _ Hi r r' Hr Hr') as Hc. pose proof (ji_pass _ Hi r' Hr') as Hp. unfold top_pass, round in Hp.
  destruct (decide (k0 + 4 ≤ round r')) as [H4|H4].
  - pose proof (pass_at_mono (S k0) (round r') l ltac:(lia) ltac:(lia)) as H5. unfold round in *. destruct (dpc r'); lia.
  - assert (round r' = k0 + 3 ∧ dpc r' ≠ Top) as [E Hd] by (unfold round in *; destruct (dpc r'); split; try done; lia).
    unfold round in E. destruct (dpc r'); try done; rewrite E in Hp; lia.
Qed.

Lemma dummies_arrived l r :
  job_inv l → unobstructed l → (∀ r', r' ∈ l → 4 ≤ dummy_pass r') → r ∈ l → quiet r = true → slot r ≠ PENDING_RECV_ACTIVE.
Proof.
  intros Hi Hu H4 Hr Hq Hs. destruct (Hu r Hr) as [Ht _]. pose proof (ji_rank _ Hi r Hr) as Hok. apply (ro_slot _ Hok) in Hs. unfold in_lower_half in Hs.
  unfold quiet in Hq. apply andb_true_iff in Hq as [_ Hq]. pose proof (H4 r Hr) as Hp.
  destruct (app r) as [| |k|k b|k] eqn:Ea; try done. apply bool_decide_eq_true in Hq.
  assert (blocked r = true) as Hb by (pose proof (ro_app _ Hok) as H; unfold app_ok in H; rewrite Ea in H; apply H; lia).
  destruct (ro_posted _ Hok Hb ltac:(lia)) as [j Hj]. pose proof (ji_dummy _ Hi r Hr) as Hd. unfold dummy_ok in Hd.
  rewrite Hj in Hd. destruct Hd as (rj & Hrj & E). rewrite decide_True in E by (apply H4; by eapply list_elem_of_lookup_2).
  unfold consumed in E. rewrite Ea in E. lia.
Qed.

Definition drain_work (p : drain_pc) : nat := match p with Top => 5 | Closing => 4 | Work => 3 | Sampled _ => 2 | Reduce => 1 | Exited => 0 end.
Definition round_work (K : nat) (r : rank) : nat := app_work r + 6 * (K - round r) + drain_work (dpc r).

(** The states of the schedule, up to round [k0 + 4]. *)
Definition running (k0 : nat) (l : list rank) : Prop := settled k0 l ∧ (∀ r, r ∈ l → round r ≤ k0 + 4) ∧ l ≠ [] ∧ unobstructed l.
Definition over (k0 : nat) (l : list rank) : Prop :=
  (∃ r, r ∈ l ∧ dpc r = Exited) ∨ ∀ r, r ∈ l → dpc r = Reduce ∧ round r = k0 + 4.

Lemma running_insert k0 l i r r' :
  running k0 l → l !! i = Some r → job_step l (<[i := r']> l) → settled_rank k0 r' → round r' ≤ k0 + 4 →
  round_work (k0 + 4) r' < round_work (k0 + 4) r →
  ∃ l', job_step l l' ∧ running k0 l' ∧ sum_list_with (round_work (k0 + 4)) l' < sum_list_with (round_work (k0 + 4)) l.
Proof.
  intros ([Hi Hse] & Hr & Hne & Hu) Hl Hs Hse' Hr' Hw. exists (<[i := r']> l). split; [done|]. split; [|by apply (sum_insert_lt _ _ _ r)].
  split; [|split_and!].
  - split; [by eapply step_keeps|]. by intros x [->|Hx]%elem_of_insert; [|apply Hse].
  - by intros x [->|Hx]%elem_of_insert; [|apply Hr].
  - intros E%(f_equal length). rewrite length_insert in E. by destruct l.
  - by eapply step_unobstructed.
Qed.

Lemma running_app k0 l i r :
  running k0 l → l !! i = Some r → quiet r = false →
  ∃ l', job_step l l' ∧ running k0 l' ∧ sum_list_with (round_work (k0 + 4)) l' < sum_list_with (round_work (k0 + 4)) l.
Proof.
  intros Hrun Hl Hq. pose proof Hrun as ([Hi Hse] & Hr & _ & Hu). pose proof (list_elem_of_lookup_2 _ _ _ Hl) as Hel.
  destruct (app_progress _ _ _ Hi Hu Hl Hq) as (r' & Hs & (E1 & E2 & E3 & E4) & Hw & Hc). destruct (Hse r Hel) as [[C1 C2] C3 C4].
  destruct (Hc C1 C2) as (Er & C1' & C2'). assert (round r' = round r) as Hro by (unfold round; by rewrite E1, E2).
  eapply running_insert; [done|done|exact Hs| | |].
  - split; rewrite ?E1, ?E2, ?Er; done.
  - rewrite Hro. by apply Hr.
  - unfold round_work. rewrite Hro, E1. lia.
Qed.

(** [postDummy()] finds a sender. *)
Lemma sender_found l r :
  unobstructed l → r ∈ l → ∃ s, blocked r = true → dummy_sender l (source r) = Some s.
Proof.
  intros Hu Hr. destruct (blocked r) eqn:Eb; [|by exists 0]. destruct (Hu r Hr) as [_ Hs].
  destruct Hs as [_ Hs]; [unfold stuck; by rewrite Eb, orb_true_r|]. destruct (source r) as [j|ms]; [by exists j|].
  destruct Hs as (j & q & Hj & Hq & Hn). cbn. assert (blocked_bit l j = false) as Hb.
  { unfold blocked_bit. rewrite Hq. cbn. unfold stuck in Hn. by apply orb_false_iff in Hn as [_ ->]. }
  clear Hr. induction ms as [|k ms IH]; [by apply elem_of_nil in Hj|]. cbn. destruct (blocked_bit l k) eqn:Ek; [|by exists k].
  apply IH. apply elem_of_cons in Hj as [->|]; [congruence|done].
Qed.

(** A step of a process within its round, when the application threads have
    nothing to do. *)
Lemma running_top k0 l i r :
  running k0 l → l !! i = Some r → dpc r = Top →
  ∃ l', job_step l l' ∧ running k0 l' ∧ sum_list_with (round_work (k0 + 4)) l' < sum_list_with (round_work (k0 + 4)) l.
Proof.
  intros ([Hi Hse] & Hr & Hne & Hu) Hl Hd. destruct (sender_found l r Hu (list_elem_of_lookup_2 _ _ _ Hl)) as [s Hsd].
  assert (job_step l (top_state i s (dummy_pass r) l)) as Hs by (apply js_top; [done|done|intros _; apply Hsd]).
  exists (top_state i s (dummy_pass r) l).
  assert (∀ j x, top_state i s (dummy_pass r) l !! j = Some x → ∃ y, l !! j = Some y ∧ round x = round y ∧ hist x = hist y ∧
    recv x = recv y ∧ real_to x = real_to y ∧ app x = app y ∧ dpc x = if decide (i = j) then (if decide (dummy_pass r = 1) then Closing else Work) else dpc y) as Hx.
  { intros j x Hj. rewrite top_lookup in Hj. destruct (l !! j) as [y|] eqn:Ey; [|done]. injection Hj as <-. exists y.
    destruct (after_top_round i s (dummy_pass r) j y) as (Hro & _); [intros ->; congruence|]. unfold after_top in Hro. rewrite Hro.
    destruct (give_frame i (dummy_pass r) y) as (_ & G2 & G3 & G4 & G5 & _ & _ & _ & _ & G10 & G11 & _).
    destruct (pass_action_frame s (give i (dummy_pass r) y)) as (_ & P2 & P3 & P4 & P5 & _ & P7 & _).
    destruct (decide (i = j)) as [<-|]; [assert (y = r) as -> by congruence|]; rewrite ?P2, ?P3, ?P4, ?P5, ?P7, ?G10; by split_and!. }
  split; [done|]. split; [split; [|split_and!]|].
  - split; [by eapply step_keeps|]. intros x (j & (y & Hy & _ & E2 & E3 & E4 & E5 & E6)%Hx)%list_elem_of_lookup.
    destruct (Hse y) as [[C1 C2] C3 C4]; [by eapply list_elem_of_lookup_2|]. split; rewrite ?E2, ?E3, ?E4; [|..|done].
    + unfold holds_real in *. by rewrite E5.
    + rewrite E6. intros n. destruct (decide (i = j)); [destruct (decide _); done|apply C3].
  - intros x (j & (y & Hy & -> & _)%Hx)%list_elem_of_lookup. apply Hr. by eapply list_elem_of_lookup_2.
  - intros E%(f_equal (lookup i)). rewrite top_lookup, Hl in E. done.
  - by eapply step_unobstructed.
  - destruct (top_state i s (dummy_pass r) l !! i) as [x|] eqn:Ex; [|rewrite top_lookup, Hl in Ex; done].
    eapply (sum_pointwise_lt _ _ _ i r x); [| |done|done|].
    + unfold top_state. rewrite length_alter. destruct (decide (dummy_pass r = 3)); [|done]. unfold send_dummies. by rewrite length_fmap.
    + intros j y z Hy (y' & Hy' & E1 & _ & _ & E4 & E5 & E6)%Hx. assert (y' = y) as -> by congruence.
      unfold round_work, app_work. rewrite E1, E4, E5, E6. destruct (decide (i = j)) as [<-|]; [|lia].
      assert (y = r) as -> by congruence. rewrite Hd. destruct (decide _); cbn; lia.
    + destruct (Hx _ _ Ex) as (y & Hy & E1 & _ & _ & E4 & E5 & E6). assert (y = r) as -> by congruence.
      unfold round_work, app_work. rewrite E1, E4, E5, E6, decide_True, Hd by done. destruct (decide _); cbn; lia.
Qed.

Lemma running_phase k0 l i r :
  running k0 l → l !! i = Some r → dpc r = Closing →
  ∃ l', job_step l l' ∧ running k0 l' ∧ sum_list_with (round_work (k0 + 4)) l' < sum_list_with (round_work (k0 + 4)) l.
Proof.
  intros Hrun Hl Hd. pose proof Hrun as ([Hi Hse] & Hr & _). pose proof (list_elem_of_lookup_2 _ _ _ Hl) as Hel.
  assert (round (r <| dummy_phase := true |> <| dpc := Work |>) = round r) as Hro by (unfold round; by rewrite Hd).
  eapply running_insert; [done|done|by apply js_phase| | |].
  - destruct (Hse r Hel) as [C1 C3 C4]. split; cbn; [done|done|]. apply C4.
  - rewrite Hro. by apply Hr.
  - unfold round_work. rewrite Hro, Hd. unfold app_work. cbn. lia.
Qed.

Lemma running_sample_recv k0 l i r :
  running k0 l → l !! i = Some r → dpc r = Work →
  ∃ l', job_step l l' ∧ running k0 l' ∧ sum_list_with (round_work (k0 + 4)) l' < sum_list_with (round_work (k0 + 4)) l.
Proof.
  intros Hrun Hl Hd. pose proof Hrun as ([Hi Hse] & Hr & _). pose proof (list_elem_of_lookup_2 _ _ _ Hl) as Hel.
  assert (round (r <| dpc := Sampled (recv r) |>) = round r) as Hro by (unfold round; by rewrite Hd).
  eapply running_insert; [done|done|by apply js_sample_recv| | |].
  - destruct (Hse r Hel) as [C1 C3 C4]. split; cbn; [done|by intros n [= <-]|done].
  - rewrite Hro. by apply Hr.
  - unfold round_work. rewrite Hro, Hd. unfold app_work. cbn. lia.
Qed.

Lemma running_sample_slot k0 l i r n :
  running k0 l → l !! i = Some r → quiet r = true → dpc r = Sampled n →
  ∃ l', job_step l l' ∧ running k0 l' ∧ sum_list_with (round_work (k0 + 4)) l' < sum_list_with (round_work (k0 + 4)) l.
Proof.
  intros Hrun Hl Hq Hd. pose proof Hrun as ([Hi Hse] & Hr & _ & Hu). pose proof (list_elem_of_lookup_2 _ _ _ Hl) as Hel.
  assert (round r = length (hist r)) as Hro by (unfold round; by rewrite Hd).
  assert (round (take_sample n true true r) = round r) as Hro' by (rewrite Hro; unfold round; cbn; rewrite length_app; cbn; lia).
  eapply running_insert; [done|done|by apply (js_sample_slot _ _ r n true true)| | |].
  - destruct (Hse r Hel) as [C1 C3 C4]. split; cbn; [done|done|]. intros k s [Hs|[Hk Hs]]%lookup_app_Some; [by apply C4|].
    apply list_lookup_singleton_Some in Hs as [E <-]. intros Hk0. cbn. split_and!; [apply C3; [done|lia]|done|done|].
    intros H4. apply bool_decide_eq_false. apply (dummies_arrived l); [done|done| |done|done].
    intros r' Hr'. apply (passes_done k0 l r); [done|done|lia|done].
  - rewrite Hro'. by apply Hr.
  - unfold round_work. rewrite Hro', Hd. unfold app_work. cbn. lia.
Qed.

(** All processes have contributed to their rounds: the one that is furthest
    behind gets its sums. *)
Lemma min_round l : l ≠ [] → ∃ i r, l !! i = Some r ∧ ∀ r', r' ∈ l → round r ≤ round r'.
Proof.
  induction l as [|x l IH]; [done|]. intros _. destruct l as [|y l].
  - exists 0, x. split; [done|]. by intros r' ->%list_elem_of_singleton.
  - destruct IH as (i & r & Hi & Hr); [done|]. destruct (decide (round x ≤ round r)).
    + exists 0, x. split; [done|]. intros r' [->|H%Hr]%elem_of_cons; lia.
    + exists (S i), r. split; [done|]. intros r' [->|H%Hr]%elem_of_cons; lia.
Qed.
Lemma reduce_length r : rank_ok r → dpc r = Reduce → length (hist r) = S (round r).
Proof.
  intros Hok Hd. pose proof (ro_reduce _ Hok (or_introl Hd)) as Hne. unfold round. rewrite Hd.
  destruct (hist r); [done|cbn; lia].
Qed.

Lemma running_result k0 l :
  running k0 l → (∀ r, r ∈ l → dpc r = Reduce) →
  over k0 l ∨ ∃ l', job_step l l' ∧ running k0 l' ∧ sum_list_with (round_work (k0 + 4)) l' < sum_list_with (round_work (k0 + 4)) l.
Proof.
  intros Hrun Hred. pose proof Hrun as ([Hi Hse] & Hr & Hne & _). destruct (min_round l Hne) as (i & r & Hl & Hmin).
  pose proof (list_elem_of_lookup_2 _ _ _ Hl) as Hel. destruct (decide (round r = k0 + 4)) as [E|E].
  { left. right. intros r' Hr'. split; [by apply Hred|]. pose proof (Hmin r' Hr'). pose proof (Hr r' Hr'). lia. }
  right. pose proof (Hr r Hel) as Hle. pose proof (reduce_length r (ji_rank _ Hi r Hel) (Hred r Hel)) as Hlen.
  destruct (end_round_frame (round r) l r) as (E1 & E2 & E3 & E4 & E5 & E6 & E7 & E8 & E9 & _ & _ & E10 & E11 & E12 & _).
  assert (round (end_round (round r) l r) = if leaves (round r) l then round r else S (round r)) as Hro.
  { unfold round at 1. rewrite E12, E5, Hlen. by destruct (leaves _ _). }
  eapply running_insert; [done|done|apply js_result; [done|by apply Hred|done|]| | |].
  - intros r' Hr'. rewrite (reduce_length r' (ji_rank _ Hi r' Hr') (Hred r' Hr')). pose proof (Hmin r' Hr'). lia.
  - destruct (Hse r Hel) as [C1 C3 C4]. split; rewrite ?E2, ?E3, ?E5; [|..|done].
    + unfold holds_real in *. by rewrite E4.
    + rewrite E12. by destruct (leaves _ _).
  - rewrite Hro. destruct (leaves _ _); lia.
  - unfold round_work, app_work. rewrite Hro, E3, E4, E12, (Hred r Hel). destruct (leaves _ _); cbn [drain_work]; lia.
Qed.

Definition in_round (r : rank) : bool := match dpc r with Top | Closing | Work | Sampled _ => false | _ => true end.
Definition not_exited (r : rank) : bool := match dpc r with Exited => false | _ => true end.

Lemma running_progress k0 l :
  running k0 l →
  over k0 l ∨ ∃ l', job_step l l' ∧ running k0 l' ∧ sum_list_with (round_work (k0 + 4)) l' < sum_list_with (round_work (k0 + 4)) l.
Proof.
  intros Hrun. destruct (find_rank not_exited l) as [Hne|(i & r & Hl & Hx)].
  2: { left. left. exists r. split; [by eapply list_elem_of_lookup_2|]. unfold not_exited in Hx. by destruct (dpc r). }
  destruct (find_rank quiet l) as [Hq|(i & r & Hl & Hq)]; [|right; by eapply running_app].
  destruct (find_rank in_round l) as [Hin|(i & r & Hl & Hin)].
  - apply running_result; [done|]. intros r Hr. specialize (Hin r Hr). specialize (Hne r Hr). unfold in_round, not_exited in *.
    by destruct (dpc r).
  - right. unfold in_round in Hin. destruct (dpc r) eqn:Ed; try done.
    + by eapply running_top.
    + by eapply running_phase.
    + by eapply running_sample_recv.
    + eapply running_sample_slot; [done|done| |done]. apply Hq. by eapply list_elem_of_lookup_2.
Qed.

(** ** The end *)

(** Every process has the sums that let it leave. *)
Definition leaving (l : list rank) : Prop :=
  job_inv l ∧ ∃ k, leaves k l = true ∧ ∀ r, r ∈ l → length (hist r) = S k ∧ (dpc r = Reduce ∨ dpc r = Exited).

(** When one process has left, the others have contributed to the same round
    and have not gone past it. *)
Lemma exit_agrees l r r' :
  job_inv l → r ∈ l → dpc r = Exited → r' ∈ l → round r' = round r ∧ (dpc r' = Reduce ∨ dpc r' = Exited).
Proof.
  intros Hi Hr Hd Hr'. destruct (ji_exit _ Hi r Hr Hd) as [Hl Hlen]. specialize (Hlen r' Hr').
  assert (¬ round r < round r') as Hnot by (intros H; by rewrite (ji_past _ Hi r' (round r) Hr' H) in Hl).
  unfold round in *. rewrite Hd in *. destruct (dpc r'); try (split; [lia|auto]); lia.
Qed.
Lemma left_length r : rank_ok r → dpc r = Reduce ∨ dpc r = Exited → length (hist r) = S (round r).
Proof.
  intros Hok Hd. pose proof (ro_reduce _ Hok Hd) as Hne. unfold round. destruct Hd as [-> | ->]; destruct (hist r); try done; cbn; lia.
Qed.

Lemma over_leaving k0 l : running k0 l → over k0 l → leaving l.
Proof.
  intros Hrun Hov. pose proof Hrun as ([Hi Hse] & _). split; [done|]. destruct Hov as [(r & Hr & Hd)|Hall].
  - exists (round r). split; [by apply (ji_exit _ Hi)|]. intros r' Hr'. destruct (exit_agrees _ _ _ Hi Hr Hd Hr') as [E Hd'].
    split; [|done]. rewrite <- E. apply left_length; [by apply (ji_rank _ Hi)|done].
  - assert (∀ r, r ∈ l → length (hist r) = S (k0 + 4)) as Hlen.
    { intros r Hr. destruct (Hall r Hr) as [Hd <-]. apply left_length; [by apply (ji_rank _ Hi)|by left]. }
    exists (k0 + 4). split; [|intros r Hr; split; [by apply Hlen|left; by apply Hall]].
    destruct (settled_sums k0 (k0 + 4) l) as [H1 H2]; [apply Hrun|lia|intros r Hr; rewrite Hlen by done; lia|].
    unfold leaves. rewrite H1, H2, andb_true_r. cbn. apply negb_true_iff. unfold some_in_recv.
    destruct (existsb s_in_recv _) eqn:E; [|done]. apply existsb_exists in E as (s & (r & Hr & Hs)%list_elem_of_In%elem_of_samples & Es).
    destruct (se_hist _ _ (Hse r Hr) _ _ Hs) as (_ & _ & _ & Hf); [lia|]. rewrite Hf in Es; [done|lia].
Qed.

Definition has_exited (r : rank) : bool := match dpc r with Exited => true | _ => false end.
Lemma leaving_progress l :
  leaving l → (∀ r, r ∈ l → has_exited r = true) ∨
  ∃ l', job_step l l' ∧ leaving l' ∧ sum_list_with (λ r, drain_work (dpc r)) l' < sum_list_with (λ r, drain_work (dpc r)) l.
Proof.
  intros (Hi & k & Hlv & Hall). destruct (find_rank has_exited l) as [|(i & r & Hl & Hx)]; [by left|right].
  pose proof (list_elem_of_lookup_2 _ _ _ Hl) as Hel. destruct (Hall r Hel) as [Hlen Hd].
  assert (dpc r = Reduce) as Hd' by (unfold has_exited in Hx; destruct Hd as [|E]; [done|by rewrite E in Hx]).
  assert (job_step l (<[i := end_round k l r]> l)) as Hs.
  { apply js_result; [done..|]. intros r' Hr'. destruct (Hall r' Hr'). lia. }
  assert (end_round k l r = r <| dpc := Exited |>) as Er by (unfold end_round; by rewrite Hlv).
  exists (<[i := end_round k l r]> l). split; [done|]. split.
  - split; [by eapply step_keeps|]. exists k. rewrite Er. split.
    + destruct (decisions_ext k l (<[i := r <| dpc := Exited |>]> l)) as (_ & _ & _ & -> & _); [|by apply (sent_insert _ _ r)|done].
      by apply (samples_insert _ _ _ r).
    + intros x [->|Hxl]%elem_of_insert; [|by apply Hall]. split; [done|by right].
  - apply (sum_insert_lt _ _ _ r); [done|]. rewrite Er, Hd'. cbn. lia.
Qed.

Lemma can_finish l : job_inv l → unobstructed l → ∃ l', rtc job_step l l' ∧ ∀ r, r ∈ l' → dpc r = Exited.
Proof.
  intros Hi Hu. destruct (reach_counted l Hi Hu) as (l1 & Hr1 & Hi1 & Hu1 & Hc). destruct (decide (l1 = [])) as [->|Hne].
  { exists []. split; [done|]. by intros r []%not_elem_of_nil. }
  set (k0 := S (sum_list_with (λ r, length (hist r)) l1)).
  assert (∀ r, r ∈ l1 → length (hist r) < k0) as Hk0.
  { intros r Hr. pose proof (sum_list_with_in r (λ r, length (hist r)) l1 Hr) as H. cbn in H. unfold k0. lia. }
  assert (running k0 l1) as Hrun.
  { split; [split; [done|]|split; [|by split]].
    - intros r Hr. pose proof (Hk0 r Hr). split; [by apply Hc|lia|]. intros k s Hk%lookup_lt_Some. lia.
    - intros r Hr. pose proof (Hk0 r Hr). unfold round. destruct (dpc r); lia. }
  destruct (reach _ _ _ (running_progress k0) l1 Hrun) as (l2 & Hr2 & Hrun2 & Hov).
  destruct (reach _ _ _ leaving_progress l2 (over_leaving _ _ Hrun2 Hov)) as (l3 & Hr3 & _ & Hx).
  exists l3. split; [by etrans; [|etrans]|]. intros r H%Hx. unfold has_exited in H. by destruct (dpc r).
Qed.
