(* ===== verification/P2pJobRun.v ===== *)
(** * The drain across processes, as a function of a schedule

    [do_action] executes one step of [job_step] when its guard holds; a schedule
    is a list of actions.  The theorems of [P2pJobSpec] are about [job_step]; the
    function runs concrete jobs. *)
From S2P Require Import Prelude P2p P2pJob.
#[local] Open Scope nat_scope.

Inductive job_action :=
  | Do_top (i : nat)
  | Do_phase (i : nat)
  | Do_drain (i : nat)
  | Do_drain_dummy (i : nat)
  | Do_irecv_real (i : nat)
  | Do_irecv_dummy (i : nat)
  | Do_sample_recv (i : nat)
  | Do_sample_slot (i : nat) (sends_done dummies_done : bool)
  | Do_result (i : nat)
  | Do_recv_real (i : nat)
  | Do_recv_dummy (i : nat)
  | Do_app (i : nat).              (* the next step of the application thread past the receive *)

Definition guarded (b : bool) (l : list rank) : option (list rank) := if b then Some l else None.
Definition is_pc (p q : drain_pc) : bool :=
  match p, q with Top, Top | Closing, Closing | Work, Work | Reduce, Reduce | Exited, Exited => true | _, _ => false end.
Definition is_in_recv (a : app_pc) : bool := match a with InRecv => true | _ => false end.

Definition do_action (l : list rank) (a : job_action) : option (list rank) :=
  match a with
  | Do_top i => r ← l !! i;
      sender ← if bool_decide (dummy_pass r = 2) && blocked r then dummy_sender l (source r) else Some 0;
      guarded (is_pc (dpc r) Top)
        (alter (pass_action sender) i (if decide (dummy_pass r = 3) then send_dummies i l else l))
  | Do_phase i => r ← l !! i; guarded (is_pc (dpc r) Closing) (<[i := r <| dummy_phase := true |> <| dpc := Work |>]> l)
  | Do_drain i => r ← l !! i;
      guarded (negb (is_pc (dpc r) Exited) && (0 <? real_to r)) (<[i := r <| real_to ::= pred |> <| recv ::= S |>]> l)
  | Do_drain_dummy i => r ← l !! i;
      guarded (negb (is_pc (dpc r) Exited) && (0 <? dummy_to r) && bool_decide (slot r ≠ PENDING_RECV_ACTIVE))
        (<[i := r <| dummy_to ::= pred |> <| recv ::= S |>]> l)
  | Do_irecv_real i => r ← l !! i;
      guarded (negb (is_pc (dpc r) Exited) && (0 <? real_to r) && (0 <? irecvs r))
        (<[i := r <| real_to ::= pred |> <| irecvs ::= pred |> <| recv ::= S |>]> l)
  | Do_irecv_dummy i => r ← l !! i;
      guarded (negb (is_pc (dpc r) Exited) && (0 <? dummy_to r) && (0 <? irecvs r))
        (<[i := r <| dummy_to ::= pred |> <| irecvs ::= pred |> <| irecv_dummies ::= S |> <| recv ::= S |>]> l)
  | Do_sample_recv i => r ← l !! i; guarded (is_pc (dpc r) Work) (<[i := r <| dpc := Sampled (recv r) |>]> l)
  | Do_sample_slot i b1 b2 => r ← l !! i;
      match dpc r with Sampled n => Some (<[i := take_sample n b1 b2 r]> l) | _ => None end
  | Do_result i => r ← l !! i;
      match length (hist r) with
      | S k => guarded (is_pc (dpc r) Reduce && forallb (λ r', k <? length (hist r')) l) (<[i := end_round k l r]> l)
      | O => None
      end
  | Do_recv_real i => r ← l !! i;
      guarded (is_in_recv (app r) && (0 <? real_to r)) (<[i := r <| real_to ::= pred |> <| app := Got Real |>]> l)
  | Do_recv_dummy i => r ← l !! i;
      guarded (is_in_recv (app r) && (0 <? dummy_to r) && (irecvs r =? 0)) (<[i := r <| dummy_to ::= pred |> <| app := Got Dummy |>]> l)
  | Do_app i => r ← l !! i;
      match app r with
      | Got k => Some (<[i := r <| app := Read k (dummy_phase r) |>]> l)
      | Read k true => Some (<[i := r <| slot := PENDING_RECV_CLOSED |> <| app := Out |>]> l)
      | Read k false => Some (<[i := r <| slot := PENDING_RECV_IDLE |> <| app := Stored k |>]> l)
      | Stored k => Some (<[i := r <| recv ::= S |> <| app := Out |>]> l)
      | _ => None
      end
  end.

Fixpoint run_schedule (l : list rank) (s : list job_action) : option (list rank) :=
  match s with [] => Some l | a :: s => l' ← do_action l a; run_schedule l' s end.

Lemma guarded_some b l l' : guarded b l = Some l' → b = true ∧ l' = l.
Proof. by destruct b; intros [= <-]. Qed.
Lemma is_pc_eq p q : is_pc p q = true → p = q.
Proof. by destruct p, q. Qed.
Lemma is_in_recv_eq a : is_in_recv a = true → a = InRecv.
Proof. by destruct a. Qed.

Lemma do_action_step l a l' : do_action l a = Some l' → job_step l l'.
Proof.
  destruct a as [i|i|i|i|i|i|i|i b1 b2|i|i|i|i]; cbn [do_action]; intros (r & Hr & H)%bind_Some.
  - apply bind_Some in H as (s & Hs & [H1%is_pc_eq ->]%guarded_some). apply (js_top l i r s Hr H1).
    intros H2 Hb. by rewrite bool_decide_eq_true_2, Hb in Hs.
  - apply guarded_some in H as [H1%is_pc_eq ->]. by apply js_phase.
  - apply guarded_some in H as [(H1 & H2%Nat.ltb_lt)%andb_true_iff ->]. apply js_drain; [done| |done].
    intros E. by rewrite E in H1.
  - apply guarded_some in H as [((H1 & H2%Nat.ltb_lt)%andb_true_iff & H3%bool_decide_eq_true)%andb_true_iff ->].
    apply js_drain_dummy; [done| |done|done]. intros E. by rewrite E in H1.
  - apply guarded_some in H as [((H1 & H2%Nat.ltb_lt)%andb_true_iff & H3%Nat.ltb_lt)%andb_true_iff ->].
    apply js_irecv_real; [done| |done|done]. intros E. by rewrite E in H1.
  - apply guarded_some in H as [((H1 & H2%Nat.ltb_lt)%andb_true_iff & H3%Nat.ltb_lt)%andb_true_iff ->].
    apply js_irecv_dummy; [done| |done|done]. intros E. by rewrite E in H1.
  - apply guarded_some in H as [H1%is_pc_eq ->]. by apply js_sample_recv.
  - destruct (dpc r) as [| | |n| |] eqn:E; try done. injection H as <-. by apply js_sample_slot.
  - destruct (length (hist r)) as [|k] eqn:E; [done|]. apply guarded_some in H as [(H1%is_pc_eq & H2)%andb_true_iff ->].
    apply js_result; [done..|]. intros r' Hr'. rewrite forallb_forall in H2. apply Nat.ltb_lt, H2.
    by apply list_elem_of_In.
  - apply guarded_some in H as [(H1%is_in_recv_eq & H2%Nat.ltb_lt)%andb_true_iff ->]. by apply js_recv_real.
  - apply guarded_some in H as [((H1%is_in_recv_eq & H2%Nat.ltb_lt)%andb_true_iff & H3%Nat.eqb_eq)%andb_true_iff ->]. by apply js_recv_dummy.
  - destruct (app r) as [| |k|k []|k] eqn:E; try done; injection H as <-.
    + by apply js_read.
    + by apply (js_discard _ _ _ k).
    + by apply (js_store _ _ _ k).
    + by apply (js_count _ _ _ k).
Qed.

Lemma run_schedule_steps s l l' : run_schedule l s = Some l' → rtc job_step l l'.
Proof.
  revert l. induction s as [|a s IH]; intros l; cbn [run_schedule]; [by intros [= ->]|].
  intros (l1 & H1%do_action_step & H2)%bind_Some. eapply rtc_l; [done|]. by apply IH.
Qed.
