(* ===== verification/P2pJobSpec.v ===== *)
(** * What the drain across processes guarantees *)
From S2P Require Import Prelude P2p P2pJob P2pJobInv P2pJobSteps P2pJobLive P2pJobRun.
#[local] Open Scope nat_scope.

(** The value of [p2p_dummy_phase] that the application thread should read. *)
Definition is_dummy (k : msg_kind) : bool := match k with Real => false | Dummy => true end.

(** The part that the application thread still holds: a message that it got and
    has not counted, or a receive that it is in. *)
Definition at_rest (r : rank) : Prop :=
  real_to r = 0 ∧ dummy_to r = 0 ∧ holds_real r = 0 ∧ in_lower_half r = false ∧ slot r ≠ PENDING_RECV_ACTIVE.

Lemma exit_no_recv l r r' : job_inv l → r ∈ l → dpc r = Exited → r' ∈ l → slot r' ≠ PENDING_RECV_ACTIVE.
Proof.
  intros Hi Hr Hd Hr'. destruct (ji_exit _ Hi r Hr Hd) as [Hl Hlen]. destruct (lookup_lt_is_Some_2 _ _ (Hlen r' Hr')) as [s Hs].
  apply (ro_hist _ (ji_rank _ Hi r' Hr') _ _ Hs). unfold leaves in Hl. rewrite !andb_true_iff, negb_true_iff in Hl.
  destruct Hl as [[_ Hn] _]. apply not_true_iff_false. intros Es. apply not_true_iff_false in Hn. apply Hn.
  apply existsb_exists. exists s. split; [|done]. apply list_elem_of_In. unfold round_samples. rewrite list_elem_of_omap. by exists r'.
Qed.
Lemma exit_no_dummy l r r' : job_inv l → r ∈ l → dpc r = Exited → r' ∈ l → dummy_to r' = 0 ∧ irecv_dummies r' = 0.
Proof.
  intros Hi Hr Hd Hr'. pose proof (exit_no_recv _ _ _ Hi Hr Hd Hr') as Hsl. destruct (decide (dummy_to r' + irecv_dummies r' = 0)); [lia|].
  destruct Hsl. apply (ro_slot _ (ji_rank _ Hi r' Hr')). unfold in_lower_half. destruct (dummy_waited l r' Hi Hr' ltac:(lia)) as [_ ->]. done.
Qed.
Lemma exit_at_rest l r r' : job_inv l → r ∈ l → dpc r = Exited → r' ∈ l → at_rest r'.
Proof.
  intros Hi Hr Hd Hr'. pose proof (exit_no_recv _ _ _ Hi Hr Hd Hr') as Hsl. destruct (exited_counted _ _ Hi Hr Hd r' Hr').
  split_and!; try done.
  - by apply (exit_no_dummy l r r').
  - apply not_true_iff_false. intros H'. by apply Hsl, (ro_slot _ (ji_rank _ Hi r' Hr')).
Qed.

Lemma one_dummy l r :
  job_inv l → (∀ r', r' ∈ l → 4 ≤ dummy_pass r') → r ∈ l →
  if blocked r then dummy_to r + consumed r + irecv_dummies r = 1 else dummy_to r = 0 ∧ in_lower_half r = false.
Proof.
  intros Hi Hall Hr. pose proof (ji_rank _ Hi r Hr) as Hok. pose proof (Hall r Hr) as H4.
  pose proof (ji_dummy _ Hi r Hr) as Hd. unfold dummy_ok in Hd. destruct (blocked r) eqn:Eb.
  - destruct (ro_posted _ Hok Eb ltac:(lia)) as [j Hj]. rewrite Hj in Hd. destruct Hd as (rj & Hrj & ->).
    rewrite decide_True; [done|]. apply Hall. by eapply list_elem_of_lookup_2.
  - destruct (post r) as [j|] eqn:Ej; [destruct (ro_post _ Hok j Ej); congruence|]. split; [lia|].
    destruct (pass_counted l r Hi Hr ltac:(lia) r Hr) as [_ Hh]. pose proof (ro_app _ Hok) as Ha. unfold app_ok, holds_real, in_lower_half in *.
    rewrite Eb in Ha. destruct (app r) as [| |[]|[]|[]]; try done; [|by destruct Ha]. by specialize (Ha ltac:(lia)).
Qed.

(** ** A concrete job *)

(** Process 0 waits in [MPI_Recv] from [MPI_ANY_SOURCE] for a message that nobody has
    sent, with [irecvs] pending [MPI_Irecv]s in front of it; it has sent one message
    to process 1, which has not received it. *)
Definition job2_with (irecvs : nat) : list rank :=
  [mk_rank 1 0 PENDING_RECV_ACTIVE false InRecv 0 0 Top 0 false None [] (Any [0; 1]) irecvs 0;
   mk_rank 0 0 PENDING_RECV_IDLE false Out 1 0 Top 0 false None [] (From 0) 0 0].
Definition job2 : list rank := job2_with 0.
(** One round of both processes. *)
Definition round2 (mid : list job_action) : list job_action :=
  [Do_top 0; Do_top 1] ++ mid ++
  [Do_sample_recv 0; Do_sample_recv 1; Do_sample_slot 1 true true; Do_sample_slot 0 true true; Do_result 0; Do_result 1].
Definition passes : list job_action :=
  round2 [] ++ round2 [Do_drain 1] ++ round2 [Do_phase 1; Do_phase 0] ++ round2 [].
Definition before_dummy : list job_action :=
  passes ++ [Do_top 0; Do_top 1; Do_recv_dummy 0].
Definition whole_drain : list job_action :=
  passes ++ round2 [Do_recv_dummy 0; Do_app 0; Do_app 0].
Definition job2_after (s : list job_action) : list rank := default [] (run_schedule job2 s).

Lemma job2_with_start n : job_start (job2_with n).
Proof.
  split; [|done]. intros r Hr. unfold job2_with in Hr. rewrite !elem_of_cons in Hr.
  destruct Hr as [-> |[-> |[]%not_elem_of_nil]]; cbn; split_and!; try done; [repeat constructor|lia].
Qed.
Lemma job2_start : job_start job2.
Proof. apply job2_with_start. Qed.
Lemma job2_before : rtc job_step job2 (job2_after before_dummy).
Proof. apply (run_schedule_steps before_dummy). vm_compute. reflexivity. Qed.
Lemma job2_whole : rtc job_step job2 (job2_after whole_drain).
Proof. apply (run_schedule_steps whole_drain). vm_compute. reflexivity. Qed.

(** ** The flag tells a dummy from a message *)

(** C19. One read of [p2p_dummy_phase] after the blocking receive of [PMPI_Recv]
    tells a dummy from a message of the application: in every interleaving of
    the processes' drains and application threads, the flag of a process whose
    receive has returned and has not read it is false if it got a message of
    the application and true if it got a dummy, what the process read is the
    same, and a dummy is never stored or counted as a message. *)
Theorem dummy_flag_exact l0 l r :
  job_start l0 → rtc job_step l0 l → r ∈ l →
  match app r with
  | Got k => dummy_phase r = is_dummy k
  | Read k b => b = is_dummy k
  | Stored k => k = Real
  | _ => True
  end.
Proof.
  intros Hs Hr Hel. pose proof (runs_inv _ _ Hs Hr) as Hi. pose proof (ro_app _ (ji_rank _ Hi r Hel)) as Ha. unfold app_ok in Ha.
  destruct (app r) as [| |k|[]|[]] eqn:Ea; try done; [|by destruct Ha]. rewrite (read_right _ _ _ Hi Hel Ea). by destruct k.
Qed.

Lemma dummy_flag_exact_witness :
  ∃ r, job2_after before_dummy !! 0 = Some r ∧ app r = Got Dummy ∧ dummy_phase r = true.
Proof.
  destruct (job2_after before_dummy !! 0) as [r|] eqn:E; [|exfalso; vm_compute in E; discriminate].
  exists r. assert (app r = Got Dummy) as Ha.
  { assert (Some (app r) = Some (Got Dummy)) as H; [|by injection H].
    change (app <$> Some r = Some (Got Dummy)). rewrite <- E. vm_compute. reflexivity. }
  split; [done|]. split; [done|].
  pose proof (dummy_flag_exact job2 _ r job2_start job2_before (list_elem_of_lookup_2 _ _ _ E)) as H. rewrite Ha in H. exact H.
Defined.

(** ** The drain ends when nothing is left *)

(** C1. When one process has left the loop of [drainWithoutBarriers()], then in
    every process no message and no dummy waits to be received, the application
    thread holds none and is not in a receive, the sent and received counters of
    all processes are equal in sum, and every other process has the sums of the
    same round (so it leaves too). *)
Theorem drain_exit_safe l0 l r :
  job_start l0 → rtc job_step l0 l → r ∈ l → dpc r = Exited →
  (∀ r', r' ∈ l → at_rest r' ∧ length (hist r') = length (hist r) ∧ (dpc r' = Reduce ∨ dpc r' = Exited)) ∧
  sum_list_with recv l = sum_list_with sent l.
Proof.
  intros Hs Hr Hel Hd. pose proof (runs_inv _ _ Hs Hr) as Hi. pose proof (exited_counted _ _ Hi Hel Hd) as Hc. split.
  - intros r' Hr'. destruct (exit_agrees _ _ _ Hi Hel Hd Hr') as [Ero Hd']. split; [by apply (exit_at_rest l r)|]. split; [|done].
    rewrite (left_length r'), (left_length r), Ero by (done || by apply (ji_rank _ Hi) || by right). done.
  - pose proof (ji_balance _ Hi) as Hb. rewrite (sum_all_zero real_to), (sum_all_zero holds_real) in Hb by (intros x Hx; by apply Hc).
    rewrite (sum_all_zero irecv_dummies) in Hb by (intros x Hx; by apply (exit_no_dummy l r)). lia.
Qed.

Lemma drain_exit_safe_witness :
  let l := job2_after whole_drain in
  ∃ r, l !! 0 = Some r ∧ dpc r = Exited ∧ at_rest r ∧ sum_list_with recv l = sum_list_with sent l.
Proof.
  cbv zeta. destruct (job2_after whole_drain !! 0) as [r|] eqn:E; [|exfalso; vm_compute in E; discriminate].
  exists r. assert (dpc r = Exited) as Ha.
  { assert (Some (dpc r) = Some Exited) as H; [|by injection H]. change (dpc <$> Some r = Some Exited). rewrite <- E. vm_compute. reflexivity. }
  destruct (drain_exit_safe job2 _ r job2_start job2_whole (list_elem_of_lookup_2 _ _ _ E) Ha) as [H1 H2].
  split; [done|]. split; [done|]. split; [|exact H2]. exact (proj1 (H1 r (list_elem_of_lookup_2 _ _ _ E))).
Defined.

(** ** Every blocked receive gets its dummy *)

(** Once every process is past pass 3 of the dummy step, each process whose
    receive was blocked in pass 1 has exactly one dummy, on its way or already
    taken by that receive, and no other process has one or is in a receive. *)
Theorem one_dummy_each l0 l r :
  job_start l0 → rtc job_step l0 l → (∀ r', r' ∈ l → 4 ≤ dummy_pass r') → r ∈ l →
  if blocked r then dummy_to r + consumed r + irecv_dummies r = 1 else dummy_to r = 0 ∧ in_lower_half r = false.
Proof.
  intros Hs Hr Hall Hel. pose proof (runs_inv _ _ Hs Hr) as Hi. by apply (one_dummy l).
Qed.

Lemma one_dummy_each_witness :
  ∃ r, job2_after before_dummy !! 0 = Some r ∧ blocked r = true ∧ dummy_to r + consumed r + irecv_dummies r = 1.
Proof.
  destruct (job2_after before_dummy !! 0) as [r|] eqn:E; [|exfalso; vm_compute in E; discriminate].
  exists r. assert (blocked r = true) as Ha.
  { assert (Some (blocked r) = Some true) as H; [|by injection H]. change (blocked <$> Some r = Some true). rewrite <- E. vm_compute. reflexivity. }
  split; [done|]. split; [done|].
  pose proof (one_dummy_each job2 _ r job2_start job2_before) as H. rewrite Ha in H. apply H; [|by eapply list_elem_of_lookup_2].
  apply Forall_forall. apply (bool_decide_unpack _). vm_compute. exact Logic.I.
Defined.

(** ** The drain can always finish *)

(** What the drain relies on: a blocked receive has no pending [MPI_Irecv] in front
    of it that its dummy matches, and if it is from [MPI_ANY_SOURCE] then some
    member of its communicator is not in a receive. *)
Definition no_obstacle (l : list rank) : Prop :=
  ∀ r, r ∈ l → in_lower_half r = true →
    irecvs r = 0 ∧
    match source r with From _ => True | Any members => ∃ j q, j ∈ members ∧ l !! j = Some q ∧ in_lower_half q = false end.
Lemma start_unobstructed l : job_start l → no_obstacle l → unobstructed l.
Proof.
  intros [Hall _] Hn r Hr. pose proof (Hall r Hr) as (_ & _ & _ & _ & Hb & _ & _ & Ht & _). split; [done|].
  unfold stuck. rewrite Hb, orb_false_r. intros Hl. destruct (Hn r Hr Hl) as [H1 H2]. split; [done|]. destruct (source r) as [|ms]; [done|].
  destruct H2 as (j & q & Hj & Hq & Hf). exists j, q. split; [done|]. split; [done|]. rewrite Hf.
  by destruct (Hall q (list_elem_of_lookup_2 _ _ _ Hq)) as (_ & _ & _ & _ & -> & _).
Qed.
Lemma runs_unobstructed l0 l : job_start l0 → no_obstacle l0 → rtc job_step l0 l → unobstructed l.
Proof.
  intros Hs Hn Hr. pose proof (start_inv _ Hs) as Hi. pose proof (start_unobstructed _ Hs Hn) as Hu. clear Hs Hn.
  induction Hr; [done|]. by eauto using step_keeps, step_unobstructed.
Qed.

(** C3. If no pending [MPI_Irecv] matches the dummy of a blocked receive, and every
    receive that is blocked on [MPI_ANY_SOURCE] has a member of its communicator that
    is in no receive, then from every state that the drain can reach, in any
    interleaving, the steps that remain can bring every process out of the loop of
    [drainWithoutBarriers()]: no state is a deadlock, no assertion of [postDummy()]
    stops a process, and no choice of the interleaving so far leaves a receive
    blocked without a dummy or a message uncounted. *)
Theorem drain_can_finish l0 l :
  job_start l0 → no_obstacle l0 → rtc job_step l0 l → ∃ l', rtc job_step l l' ∧ ∀ r, r ∈ l' → dpc r = Exited ∧ at_rest r.
Proof.
  intros Hs Hn Hr. pose proof (runs_inv _ _ Hs Hr) as Hi. pose proof (runs_unobstructed _ _ Hs Hn Hr) as Hu.
  destruct (can_finish l Hi Hu) as (l' & Hr' & Hx). exists l'. split; [done|].
  intros r Hel. split; [by apply Hx|]. apply (exit_at_rest l' r); [|done|by apply Hx|done].
  eapply runs_inv; [exact Hs|by etrans].
Qed.

Lemma job2_no_obstacle : no_obstacle job2.
Proof.
  intros r Hr Hl. unfold job2, job2_with in *. rewrite !elem_of_cons in Hr. destruct Hr as [-> |[-> |[]%not_elem_of_nil]]; [|done].
  split; [done|]. exists 1. eexists. split; [by apply list_elem_of_lookup_2 with 1|]. split; reflexivity.
Qed.
Lemma drain_can_finish_witness :
  ∃ l', rtc job_step (job2_after before_dummy) l' ∧ ∀ r, r ∈ l' → dpc r = Exited ∧ at_rest r.
Proof. exact (drain_can_finish job2 _ job2_start job2_no_obstacle job2_before). Defined.

(** ** When an obstacle is there *)

(** A dummy that a pending [MPI_Irecv] of the application took is counted as a
    message and leaves the [MPI_Recv] blocked; nothing sends it another one, so
    no process ever leaves the loop. *)
Theorem taken_dummy_never_exits l0 l l' r :
  job_start l0 → rtc job_step l0 l → r ∈ l → 0 < irecv_dummies r → rtc job_step l l' → ∀ x, x ∈ l' → dpc x ≠ Exited.
Proof.
  intros Hs Hr Hel Ht Hr' x Hx Hd. pose proof (runs_inv _ _ Hs Hr) as Hi.
  assert (job_inv l' ∧ ∃ y, y ∈ l' ∧ 0 < irecv_dummies y) as [Hi' (y & Hy & Hty)].
  { assert (∃ y, y ∈ l ∧ 0 < irecv_dummies y) as Hex by eauto. clear r Hel Ht Hr Hs Hx. induction Hr'; [done|].
    eauto using step_keeps, step_taken. }
  destruct (exit_no_dummy l' x y Hi' Hx Hd Hy). lia.
Qed.

(** It happens: the same job with one such [MPI_Irecv]. *)
Definition taken_schedule : list job_action := passes ++ [Do_top 0; Do_top 1; Do_irecv_dummy 0].
Lemma taken_dummy_never_exits_witness :
  let l := default [] (run_schedule (job2_with 1) taken_schedule) in
  ∀ l', rtc job_step l l' → ∀ x, x ∈ l' → dpc x ≠ Exited.
Proof.
  intros l l' Hr. destruct (l !! 0) as [r|] eqn:E; [|exfalso; vm_compute in E; discriminate].
  apply (taken_dummy_never_exits (job2_with 1) l l' r (job2_with_start 1)).
  - apply (run_schedule_steps taken_schedule). vm_compute. reflexivity.
  - by eapply list_elem_of_lookup_2.
  - assert (Some (irecv_dummies r) = Some 1) as H; [|injection H; lia].
    change (irecv_dummies <$> Some r = Some 1). rewrite <- E. vm_compute. reflexivity.
  - exact Hr.
Defined.
