(* ===== verification/Keyvals.v ===== *)
(** * Keyvals and attributes of communicators
    ([src/src/mpi-wrappers/mpi_comm_wrappers.cpp])

    MANA caches attributes in the upper half: [tupleMap] maps a keyval to its
    callbacks and to the attributes that communicators have under it,
    [keyvalVec] says which numbers are taken, [selfKeyvals] lists the keyvals
    of MPI_COMM_SELF's attributes in the order in which they were set.

    The callbacks are the application's: [delete_fn] and [copy_fn] are
    parameters, programs on the whole state, since a callback may call MANA's
    functions again.  [app] is the application's own state.  The code keeps a
    pointer to a tuple across a callback; a tuple has the number of its creation
    ([tuple_id]), and an access through the pointer aborts when the tuple is
    gone.  [keyval_order] is the unspecified order in which
    [std::unordered_map] enumerates its keys. *)
From S2P Require Import Prelude Mpi.

Record KeyvalTuple := mk_tuple {
  extraState : Z;
  copyFn : Z;
  deleteFn : Z;
  attributeMap : gmap Z Z;
  freed : bool;
  tuple_id : nat
}.
#[export] Instance eta_tuple : Eta KeyvalTuple := λ t,
  mk_tuple (extraState t) (copyFn t) (deleteFn t) (attributeMap t) (freed t) (tuple_id t).

(** The attributes that MPI predefines on MPI_COMM_WORLD, copied at launch. *)
Record env_attrs := mk_env {
  tag_ub : Z; appnum : Z; appnum_flag : bool; universe_size : Z; universe_size_flag : bool;
  lastusedcode : Z; lastusedcode_flag : bool }.

#[export] Instance eta_env : Eta env_attrs := λ e,
  mk_env (tag_ub e) (appnum e) (appnum_flag e) (universe_size e) (universe_size_flag e) (lastusedcode e) (lastusedcode_flag e).

Record attrs (W : Type) := mk_attrs {
  keyvalVec : list Z;
  tupleMap : gmap Z KeyvalTuple;
  selfKeyvals : list Z;
  env : env_attrs;
  next_tuple : nat;
  app : W
}.
Arguments mk_attrs {W}. Arguments keyvalVec {W}. Arguments tupleMap {W}. Arguments selfKeyvals {W}.
Arguments env {W}. Arguments next_tuple {W}. Arguments app {W}.
#[export] Instance eta_attrs W : Eta (attrs W) := λ s,
  mk_attrs (keyvalVec s) (tupleMap s) (selfKeyvals s) (env s) (next_tuple s) (app s).

(** The keyvals that the MPI library predefines, and its null callbacks. *)
Class KeyvalLib := {
  MPI_TAG_UB : Z; MPI_HOST : Z; MPI_IO : Z; MPI_WTIME_IS_GLOBAL : Z; MPI_APPNUM : Z;
  MPI_UNIVERSE_SIZE : Z; MPI_LASTUSEDCODE : Z;
  MPI_KEYVAL_INVALID : Z;
  MPI_COMM_NULL_COPY_FN : Z;
  MPI_COMM_NULL_DELETE_FN : Z
}.

(** The application's callbacks, and the enumeration of the keys of a map. *)
Class Callbacks (W : Type) := {
  delete_fn : Z → Z → Z → Z → Z → prog (attrs W) Z;          (* fn comm keyval value extra *)
  copy_fn : Z → Z → Z → Z → Z → prog (attrs W) (Z * bool * Z); (* fn oldcomm keyval extra value; the error, the flag, the copy *)
  keyval_order : list Z → list Z
}.

(** What [MPI_Comm_get_attr] stores: a pointer to an [int] of MANA's with this
    value, or the pointer that the application set. *)
Inductive attr_value := EnvInt (n : Z) | User (v : Z).

Section keyvals.
Context {ML : MpiLib} {KL : KeyvalLib} {W : Type} {CB : Callbacks W}.

Definition is_predefined_keyval (keyval : Z) : bool :=
  (keyval =? MPI_TAG_UB) || (keyval =? MPI_HOST) || (keyval =? MPI_IO) || (keyval =? MPI_WTIME_IS_GLOBAL) ||
  (keyval =? MPI_APPNUM) || (keyval =? MPI_LASTUSEDCODE) || (keyval =? MPI_UNIVERSE_SIZE).

(** ** The tables *)

Definition find_tuple (keyval : Z) : prog (attrs W) (option KeyvalTuple) := gets (λ s, tupleMap s !! keyval).
(** Access through a pointer to the tuple [id] of [keyval]. *)
Definition tuple_at (keyval : Z) (id : nat) : prog (attrs W) KeyvalTuple :=
  o ← find_tuple keyval;
  t ← deref o;
  assert_ (bool_decide (tuple_id t = id)) ;; mret t.
Definition update_tuple (keyval : Z) (id : nat) (f : KeyvalTuple → KeyvalTuple) : prog (attrs W) unit :=
  t ← tuple_at keyval id;
  modify (λ s, s <| tupleMap ::= λ m, <[keyval := f t]> m |>).
Definition erase_attribute (keyval : Z) (id : nat) (comm : Z) : prog (attrs W) unit :=
  update_tuple keyval id (λ t, t <| attributeMap ::= delete comm |>).
Definition emplace_attribute (keyval : Z) (id : nat) (comm v : Z) : prog (attrs W) unit :=
  update_tuple keyval id (λ t, t <| attributeMap ::= λ m, match m !! comm with Some _ => m | None => <[comm := v]> m end |>).

Definition remove_keyval_if_unused (keyval : Z) : prog (attrs W) unit :=
  o ← find_tuple keyval;
  match o with
  | Some t =>
      if freed t && bool_decide (attributeMap t = ∅) then
        modify (λ s, s <| tupleMap ::= delete keyval |>
                       <| keyvalVec ::= λ l, <[Z.to_nat keyval := -1]> l |>)
      else mret ()
  | None => mret ()
  end.

(** ** Attributes that MPI predefines

    [lower] is the lower half's [MPI_Comm_get_attr] on its MPI_COMM_WORLD: the
    error code, and the [int] that the attribute points to if it exists. *)

Definition lower_half_tag_ub (lower : Z → Z * option Z) : prog (attrs W) Z :=
  let '(retval, ub) := lower MPI_TAG_UB in
  assert_ (retval =? MPI_SUCCESS) ;; deref ub.
Definition init_tag_ub (lower : Z → Z * option Z) : prog (attrs W) unit :=
  ub ← lower_half_tag_ub lower;
  modify (λ s, s <| env ::= λ e, e <| tag_ub := ub |> |>).
(** At restart. *)
Definition check_tag_ub (lower : Z → Z * option Z) : prog (attrs W) unit :=
  ub ← lower_half_tag_ub lower;
  e ← gets env;
  assert_ (negb (ub <? tag_ub e)).
(** The new value and flag of a copied attribute. *)
Definition copy_lower_half_attr (lower : Z → Z * option Z) (keyval value : Z) : prog (attrs W) (Z * bool) :=
  let '(retval, v) := lower keyval in
  assert_ (retval =? MPI_SUCCESS) ;;
  mret (default value v, bool_decide (is_Some v)).
Definition init_predefined_attributes (lower : Z → Z * option Z) : prog (attrs W) unit :=
  e ← gets env;
  '(v1, f1) ← copy_lower_half_attr lower MPI_APPNUM (appnum e);
  '(v2, f2) ← copy_lower_half_attr lower MPI_UNIVERSE_SIZE (universe_size e);
  '(v3, f3) ← copy_lower_half_attr lower MPI_LASTUSEDCODE (lastusedcode e);
  modify (λ s, s <| env ::= λ e, mk_env (tag_ub e) v1 f1 v2 f2 v3 f3 |>).

(** ** Attributes *)

Definition PMPI_Comm_get_attr (comm comm_keyval : Z) : prog (attrs W) (Z * option attr_value) :=
  e ← gets env;
  if comm =? MPI_COMM_NULL then mret (MPI_ERR_COMM, None)
  else if comm_keyval =? MPI_TAG_UB then mret (MPI_SUCCESS, Some (EnvInt (tag_ub e)))
  else if comm_keyval =? MPI_HOST then mret (MPI_SUCCESS, Some (EnvInt MPI_PROC_NULL))
  else if comm_keyval =? MPI_IO then mret (MPI_SUCCESS, Some (EnvInt MPI_ANY_SOURCE))
  else if comm_keyval =? MPI_WTIME_IS_GLOBAL then mret (MPI_SUCCESS, Some (EnvInt 0))
  else if comm_keyval =? MPI_APPNUM then
    mret (MPI_SUCCESS, if appnum_flag e then Some (EnvInt (appnum e)) else None)
  else if comm_keyval =? MPI_UNIVERSE_SIZE then
    mret (MPI_SUCCESS, if universe_size_flag e then Some (EnvInt (universe_size e)) else None)
  else if comm_keyval =? MPI_LASTUSEDCODE then
    mret (MPI_SUCCESS, if lastusedcode_flag e then Some (EnvInt (lastusedcode e)) else None)
  else
    o ← find_tuple comm_keyval;
    match o with
    | None => mret (MPI_ERR_KEYVAL, None)
    | Some t => mret (MPI_SUCCESS, User <$> attributeMap t !! comm)
    end.

(** The delete callback of an attribute: MPI_SUCCESS without a call if it is
    [MPI_COMM_NULL_DELETE_FN]. *)
Definition call_delete_fn (t : KeyvalTuple) (comm keyval v : Z) : prog (attrs W) Z :=
  if deleteFn t =? MPI_COMM_NULL_DELETE_FN then mret MPI_SUCCESS
  else delete_fn (deleteFn t) comm keyval v (extraState t).

Definition PMPI_Comm_set_attr (comm comm_keyval attribute_val : Z) : prog (attrs W) Z :=
  if comm =? MPI_COMM_NULL then mret MPI_ERR_COMM else
  o ← find_tuple comm_keyval;
  match o with
  | None => mret MPI_ERR_KEYVAL
  | Some t =>
      match attributeMap t !! comm with
      | Some old =>
          retval ← call_delete_fn t comm comm_keyval old;
          if negb (retval =? MPI_SUCCESS) then mret retval
          else
            erase_attribute comm_keyval (tuple_id t) comm ;;
            emplace_attribute comm_keyval (tuple_id t) comm attribute_val ;;
            mret retval
      | None =>
          (if comm =? MPI_COMM_SELF then modify (λ s, s <| selfKeyvals ::= λ l, l ++ [comm_keyval] |>) else mret ()) ;;
          emplace_attribute comm_keyval (tuple_id t) comm attribute_val ;;
          mret MPI_SUCCESS
      end
  end.

Definition PMPI_Comm_delete_attr (comm comm_keyval : Z) : prog (attrs W) Z :=
  if comm =? MPI_COMM_NULL then mret MPI_ERR_COMM else
  o ← find_tuple comm_keyval;
  match o with
  | None => mret MPI_ERR_KEYVAL
  | Some t =>
      match attributeMap t !! comm with
      | Some v =>
          retval ← call_delete_fn t comm comm_keyval v;
          if negb (retval =? MPI_SUCCESS) then mret retval
          else
            erase_attribute comm_keyval (tuple_id t) comm ;;
            (if comm =? MPI_COMM_SELF then modify (λ s, s <| selfKeyvals ::= filter (.≠ comm_keyval) |>) else mret ()) ;;
            remove_keyval_if_unused comm_keyval ;;
            mret retval
      | None => mret MPI_SUCCESS
      end
  end.

(** The keyvals under which [comm] has an attribute. *)
Definition keyvals_of (comm : Z) (s : attrs W) : list Z :=
  keyval_order (fst <$> filter (λ kt, is_Some (attributeMap kt.2 !! comm)) (map_to_list (tupleMap s))).

(** The first part of [MPI_Comm_free]: the attributes, one after the other. *)
Fixpoint free_attributes (comm : Z) (keyvals : list Z) : prog (attrs W) Z :=
  match keyvals with
  | [] => mret MPI_SUCCESS
  | keyval :: rest =>
      o ← find_tuple keyval;
      match o ≫= (λ t, pair t <$> attributeMap t !! comm) with
      | None => free_attributes comm rest
      | Some (t, v) =>
          retval ← call_delete_fn t comm keyval v;
          if negb (retval =? MPI_SUCCESS) then mret retval
          else
            erase_attribute keyval (tuple_id t) comm ;;
            remove_keyval_if_unused keyval ;;
            free_attributes comm rest
      end
  end.
Definition delete_comm_attributes (comm : Z) : prog (attrs W) Z :=
  keyvals ← gets (keyvals_of comm);
  free_attributes comm keyvals.

Fixpoint copy_attributes (oldcomm newcomm : Z) (keyvals : list Z) : prog (attrs W) Z :=
  match keyvals with
  | [] => mret MPI_SUCCESS
  | keyval :: rest =>
      o ← find_tuple keyval;
      match o ≫= (λ t, pair t <$> attributeMap t !! oldcomm) with
      | None => copy_attributes oldcomm newcomm rest
      | Some (t, v) =>
          if copyFn t =? MPI_COMM_NULL_COPY_FN then copy_attributes oldcomm newcomm rest
          else
            '(retval, flag, attribute_val) ← copy_fn (copyFn t) oldcomm keyval (extraState t) v;
            if negb (retval =? MPI_SUCCESS) then mret retval
            else
              (if flag : bool then emplace_attribute keyval (tuple_id t) newcomm attribute_val else mret ()) ;;
              copy_attributes oldcomm newcomm rest
      end
  end.
Definition copy_comm_attributes (oldcomm newcomm : Z) : prog (attrs W) Z :=
  keyvals ← gets (keyvals_of oldcomm);
  copy_attributes oldcomm newcomm keyvals.

(** At [MPI_Finalize].  A callback may set attributes again, so the number of
    iterations is not bounded: out of fuel is a loop that goes on. *)
Fixpoint delete_self_loop (fuel : nat) : prog (attrs W) Z :=
  l ← gets selfKeyvals;
  match last l with
  | None => mret MPI_SUCCESS
  | Some keyval =>
      match fuel with
      | O => spin
      | S fuel' =>
          modify (λ s, s <| selfKeyvals ::= @removelast Z |>) ;;
          retval ← PMPI_Comm_delete_attr MPI_COMM_SELF keyval;
          if negb (retval =? MPI_SUCCESS) then
            modify (λ s, s <| selfKeyvals ::= λ l, l ++ [keyval] |>) ;; mret retval
          else delete_self_loop fuel'
      end
  end.
Definition delete_self_attributes : nat → prog (attrs W) Z := delete_self_loop.

(** ** Keyvals *)

(** The first number that was given back, in [keyvalVec] from [i] on. *)
Fixpoint first_free (l : list Z) (i : Z) : option Z :=
  match l with
  | [] => None
  | v :: l' => if v =? -1 then Some i else first_free l' (i + 1)
  end.
(** The placeholders of predefined keyvals before the next number.  Seven
    numbers are predefined, so eight iterations are enough. *)
Fixpoint skip_predefined (fuel : nat) (keyval : Z) : prog (attrs W) Z :=
  if is_predefined_keyval keyval then
    match fuel with
    | O => spin
    | S fuel' => modify (λ s, s <| keyvalVec ::= λ l, l ++ [-2] |>) ;; skip_predefined fuel' (keyval + 1)
    end
  else mret keyval.

Definition emplace_tuple (keyval copy_ delete_ extra : Z) : prog (attrs W) unit :=
  modify (λ s, s <| tupleMap ::= λ m,
    match m !! keyval with Some _ => m | None => <[keyval := mk_tuple extra copy_ delete_ ∅ false (next_tuple s)]> m end |>
    <| next_tuple ::= S |>).

Definition PMPI_Comm_create_keyval (copy_ delete_ extra : Z) : prog (attrs W) (Z * Z) :=
  l ← gets keyvalVec;
  match first_free l 0 with
  | Some keyval =>
      modify (λ s, s <| keyvalVec ::= λ l, <[Z.to_nat keyval := keyval]> l |>) ;;
      emplace_tuple keyval copy_ delete_ extra ;;
      mret (MPI_SUCCESS, keyval)
  | None =>
      keyval ← skip_predefined 8 (Z.of_nat (length l));
      modify (λ s, s <| keyvalVec ::= λ l, l ++ [keyval] |>) ;;
      emplace_tuple keyval copy_ delete_ extra ;;
      mret (MPI_SUCCESS, keyval)
  end.

(** The error code, and the value left in the caller's keyval.  The comparison
    with the size is unsigned: a negative keyval is larger than the size of any
    vector. *)
Definition PMPI_Comm_free_keyval (keyval : Z) : prog (attrs W) (Z * Z) :=
  l ← gets keyvalVec;
  if (0 <=? keyval) && (keyval <? Z.of_nat (length l)) && match l !! Z.to_nat keyval with Some v => 0 <=? v | None => false end then
    o ← find_tuple keyval;
    t ← deref o;
    if freed t then mret (MPI_ERR_KEYVAL, keyval)
    else
      update_tuple keyval (tuple_id t) (λ t, t <| freed := true |>) ;;
      remove_keyval_if_unused keyval ;;
      mret (MPI_SUCCESS, MPI_KEYVAL_INVALID)
  else mret (MPI_ERR_KEYVAL, keyval).

(** MPI-1's names. *)
Definition PMPI_Attr_get (comm keyval : Z) : prog (attrs W) (Z * option attr_value) := PMPI_Comm_get_attr comm keyval.
Definition PMPI_Attr_delete (comm keyval : Z) : prog (attrs W) Z := PMPI_Comm_delete_attr comm keyval.
Definition PMPI_Attr_put (comm keyval attribute_val : Z) : prog (attrs W) Z := PMPI_Comm_set_attr comm keyval attribute_val.
Definition PMPI_Keyval_create (copy_ delete_ extra : Z) : prog (attrs W) (Z * Z) := PMPI_Comm_create_keyval copy_ delete_ extra.
Definition PMPI_Keyval_free (keyval : Z) : prog (attrs W) (Z * Z) := PMPI_Comm_free_keyval keyval.

End keyvals.
