(* ===== verification/KeyvalsInv.v ===== *)
(** * The invariant of keyvals and attributes

    [attr_ok hole s]: a number in [keyvalVec] is in use, free or the placeholder
    of a predefined keyval; a freed keyval stays only while an attribute uses
    it; [selfKeyvals] lists the keyvals of MPI_COMM_SELF's attributes, except
    [hole], which [delete_self_attributes()] has taken from the list. *)
From S2P Require Import Prelude Mpi Keyvals.

Section invariant.
Context {ML : MpiLib} {KL : KeyvalLib} {W : Type} {CB : Callbacks W}.
Implicit Types (s : attrs W) (hole : option Z).

(** The value of the attribute of [comm] under [keyval]. *)
Definition attr_at s (comm keyval : Z) : option Z := tupleMap s !! keyval ≫= λ t, attributeMap t !! comm.

Record attr_ok hole s : Prop := {
  ao_vec (i : nat) v : keyvalVec s !! i = Some v →
    v = -1 ∧ is_predefined_keyval (Z.of_nat i) = false ∧ tupleMap s !! Z.of_nat i = None ∨
    v = -2 ∧ is_predefined_keyval (Z.of_nat i) = true ∧ tupleMap s !! Z.of_nat i = None ∨
    v = Z.of_nat i ∧ is_predefined_keyval (Z.of_nat i) = false ∧ is_Some (tupleMap s !! Z.of_nat i);
  ao_tuple k t : tupleMap s !! k = Some t → 0 ≤ k ∧ keyvalVec s !! Z.to_nat k = Some k;
  ao_freed k t : tupleMap s !! k = Some t → freed t = true → attributeMap t ≠ ∅;
  ao_nodup : NoDup (selfKeyvals s);
  ao_self k : k ∈ selfKeyvals s ↔ is_Some (attr_at s MPI_COMM_SELF k) ∧ hole ≠ Some k
}.

(** The attribute of [comm] under [keyval], and the tuple that holds it, are as
    before. *)
Definition kept (comm keyval : Z) s s' : Prop :=
  ∀ t, tupleMap s !! keyval = Some t →
    ∃ t', tupleMap s' !! keyval = Some t' ∧ tuple_id t' = tuple_id t ∧ attributeMap t' !! comm = attributeMap t !! comm.

(** The attribute that MPI_Finalize deletes is still there. *)
Definition present hole s : Prop := ∀ h, hole = Some h → is_Some (attr_at s MPI_COMM_SELF h).

(** What the code relies on of the callbacks: they return, they change the
    tables only as MANA's functions do, and a callback for an attribute leaves
    that attribute and the one that MPI_Finalize deletes.  They may set, read and
    delete other attributes, those of MPI_COMM_SELF too. *)
Class CallbacksOk : Prop := {
  delete_fn_ok fn comm k v x hole s :
    attr_ok hole s → present hole s →
    wp (delete_fn fn comm k v x) (λ _ s', attr_ok hole s' ∧ present hole s' ∧ kept comm k s s') s;
  copy_fn_ok fn comm k x v hole s :
    attr_ok hole s → present hole s →
    wp (copy_fn fn comm k x v) (λ _ s', attr_ok hole s' ∧ present hole s' ∧ kept comm k s s') s;
  keyval_order_perm l : keyval_order l ≡ₚ l
}.

(** ** Updates of one tuple *)

Lemma kept_refl comm k s : kept comm k s s.
Proof. intros t Ht. by exists t. Qed.

Lemma attr_at_insert s k t comm k' :
  attr_at (s <| tupleMap ::= λ m, <[k := t]> m |>) comm k' = if decide (k' = k) then attributeMap t !! comm else attr_at s comm k'.
Proof.
  unfold attr_at. cbn. case_decide as E; [subst k'; by rewrite lookup_insert_eq|by rewrite lookup_insert_ne].
Qed.

(** The tuple [k] gets other attributes; [selfKeyvals] follows. *)
Lemma attr_ok_tuple hole s k t t' l :
  attr_ok hole s → tupleMap s !! k = Some t → (freed t' = true → attributeMap t' ≠ ∅) →
  NoDup l → (∀ k', k' ∈ l ↔ (if decide (k' = k) then is_Some (attributeMap t' !! MPI_COMM_SELF) else is_Some (attr_at s MPI_COMM_SELF k')) ∧ hole ≠ Some k') →
  attr_ok hole (s <| tupleMap ::= λ m, <[k := t']> m |> <| selfKeyvals := l |>).
Proof.
  intros Hok Ht Hf Hl Hself. split; cbn.
  - intros i v Hi. destruct (decide (k = Z.of_nat i)) as [->|Hne].
    + rewrite lookup_insert_eq. destruct (ao_vec _ _ Hok i v Hi) as [(_ & _ & H)|[(_ & _ & H)|(H1 & H2 & _)]]; [congruence|congruence|].
      right. right. done.
    + rewrite lookup_insert_ne by done. by apply (ao_vec _ _ Hok).
  - intros k' u. destruct (decide (k = k')) as [->|Hne]; [intros _; by apply (ao_tuple _ _ Hok _ t)|].
    rewrite lookup_insert_ne by done. by apply (ao_tuple _ _ Hok).
  - intros k' u. destruct (decide (k = k')) as [->|Hne]; [rewrite lookup_insert_eq; by intros [= <-]|].
    rewrite lookup_insert_ne by done. by apply (ao_freed _ _ Hok).
  - done.
  - intros k'. rewrite Hself. apply and_iff_compat_r.
    pose proof (attr_at_insert s k t' MPI_COMM_SELF k') as E. unfold attr_at in *. cbn in *. rewrite E. by case_decide.
Qed.

(** An update through the pointer to a tuple that is still there. *)
Lemma wp_update_tuple k t f (Q : unit → attrs W → Prop) s :
  tupleMap s !! k = Some t → Q () (s <| tupleMap ::= λ m, <[k := f t]> m |>) → wp (update_tuple k (tuple_id t) f) Q s.
Proof.
  intros Ht HQ. unfold update_tuple, tuple_at, find_tuple, wp. prog_red. rewrite Ht.
  rewrite bool_decide_eq_true_2 by done. exact HQ.
Qed.

Lemma wp_update_kept k t t' f (Q : unit → attrs W → Prop) s :
  tupleMap s !! k = Some t' → tuple_id t' = tuple_id t → Q () (s <| tupleMap ::= λ m, <[k := f t']> m |>) →
  wp (update_tuple k (tuple_id t) f) Q s.
Proof. intros Ht <-. by apply wp_update_tuple. Qed.

(** ** [remove_keyval_if_unused()] *)

Lemma remove_ok hole s k t :
  attr_ok hole s → tupleMap s !! k = Some t → attributeMap t = ∅ →
  attr_ok hole (s <| tupleMap ::= delete k |> <| keyvalVec ::= λ l, <[Z.to_nat k := -1]> l |>).
Proof.
  intros Hok Ht He. destruct (ao_tuple _ _ Hok k t Ht) as [H0 Hk].
  assert (Z.of_nat (Z.to_nat k) = k) as Ek by lia.
  split; cbn.
  - intros i v Hi. destruct (decide (Z.to_nat k = i)) as [<-|Hne].
    + rewrite list_lookup_insert_eq in Hi by (by eapply lookup_lt_Some). injection Hi as <-. left. split; [done|].
      rewrite Ek, lookup_delete_eq. split; [|done].
      destruct (ao_vec _ _ Hok _ _ Hk) as [(_ & _ & H)|[(_ & _ & H)|(_ & H & _)]]; rewrite Ek in H; congruence.
    + rewrite list_lookup_insert_ne in Hi by done. rewrite lookup_delete_ne by lia. by apply (ao_vec _ _ Hok).
  - intros k' u. destruct (decide (k = k')) as [->|Hne]; [by rewrite lookup_delete_eq|]. rewrite lookup_delete_ne by done.
    intros Hu. destruct (ao_tuple _ _ Hok k' u Hu) as [H1 H2]. split; [done|]. rewrite list_lookup_insert_ne by lia. done.
  - intros k' u. destruct (decide (k = k')) as [->|Hne]; [by rewrite lookup_delete_eq|]. rewrite lookup_delete_ne by done.
    by apply (ao_freed _ _ Hok).
  - apply Hok.
  - intros k'. rewrite (ao_self _ _ Hok). apply and_iff_compat_r. unfold attr_at. cbn.
    destruct (decide (k = k')) as [->|Hne]; [|by rewrite lookup_delete_ne].
    rewrite lookup_delete_eq, Ht. cbn. rewrite He, lookup_empty. done.
Qed.

(** After an attribute of [k] is gone, or [k] is freed: [k] goes too if nothing
    needs it. *)
Lemma wp_remove hole s k t (Q : unit → attrs W → Prop) :
  tupleMap s !! k = Some t → attr_ok hole (s <| tupleMap ::= λ m, <[k := t <| freed := false |>]> m |>) →
  (∀ s', attr_ok hole s' → env s' = env s → (∀ comm k', attr_at s' comm k' = attr_at s comm k') →
    tupleMap s' = (if freed t && bool_decide (attributeMap t = ∅) then delete k (tupleMap s) else tupleMap s) →
    selfKeyvals s' = selfKeyvals s → app s' = app s → Q () s') →
  wp (remove_keyval_if_unused k) Q s.
Proof.
  intros Ht Hok HQ. set (s1 := s <| tupleMap ::= λ m, <[k := t <| freed := false |>]> m |>) in *.
  unfold remove_keyval_if_unused, find_tuple, wp. prog_red. rewrite Ht.
  destruct (freed t && bool_decide (attributeMap t = ∅)) eqn:E.
  - apply andb_true_iff in E as [_ He%bool_decide_eq_true]. apply HQ; [|done|..|done|done].
    + assert (tupleMap s1 !! k = Some (t <| freed := false |>)) as H1 by (cbn; apply lookup_insert_eq).
      pose proof (remove_ok hole s1 k _ Hok H1 He) as H. unfold s1, set_field in *. cbn in *. rewrite delete_insert_eq in H. exact H.
    + intros comm k'. unfold attr_at. cbn. destruct (decide (k = k')) as [->|]; [|by rewrite lookup_delete_ne].
      rewrite lookup_delete_eq, Ht. cbn. by rewrite He, lookup_empty.
    + done.
  - apply HQ; [|done..]. assert (tupleMap s1 !! k = Some (t <| freed := false |>)) as H1 by (cbn; apply lookup_insert_eq).
    pose proof (attr_ok_tuple hole s1 k _ t (selfKeyvals s) Hok H1) as H. unfold s1, set_field in *. cbn in *.
    rewrite insert_insert_eq, (insert_id _ _ _ Ht) in H. destruct s. apply H.
    + intros Hf. rewrite Hf in E. by apply bool_decide_eq_false in E.
    + apply (ao_nodup _ _ Hok).
    + intros k'. pose proof (ao_self _ _ Hok k') as Hs. cbn in Hs. rewrite Hs. apply and_iff_compat_r. unfold attr_at. cbn.
      destruct (decide (k' = k)) as [->|]; [by rewrite lookup_insert_eq|done].
Qed.

(** ** Callbacks and attributes *)

Lemma attr_ok_ext hole s s' :
  keyvalVec s' = keyvalVec s → tupleMap s' = tupleMap s → selfKeyvals s' = selfKeyvals s → attr_ok hole s → attr_ok hole s'.
Proof.
  intros E1 E2 E3 []. split; unfold attr_at in *; rewrite ?E1, ?E2, ?E3; try done.
Qed.
(** The same tables, but for the attributes of one tuple. *)
Lemma attr_ok_update hole s s' k t t' :
  attr_ok hole s → tupleMap s !! k = Some t → (freed t' = true → attributeMap t' ≠ ∅) →
  keyvalVec s' = keyvalVec s → tupleMap s' = <[k := t']> (tupleMap s) → NoDup (selfKeyvals s') →
  (∀ k', k' ∈ selfKeyvals s' ↔
    (if decide (k' = k) then is_Some (attributeMap t' !! MPI_COMM_SELF) else is_Some (attr_at s MPI_COMM_SELF k')) ∧ hole ≠ Some k') →
  attr_ok hole s'.
Proof.
  intros Hok Ht Hf E1 E2 Hnd Hself. eapply attr_ok_ext; [..|by apply (attr_ok_tuple hole s k t t' (selfKeyvals s'))]; done.
Qed.

Context `{!CallbacksOk}.

Lemma present_none s : present None s.
Proof. done. Qed.
Lemma wp_call_delete hole t comm k v s :
  attr_ok hole s → present hole s → wp (call_delete_fn t comm k v) (λ _ s', attr_ok hole s' ∧ present hole s' ∧ kept comm k s s') s.
Proof.
  intros Hok Hp. unfold call_delete_fn. destruct (_ =? _); [|by apply delete_fn_ok]. apply wp_ret. split_and!; [done|done|apply kept_refl].
Qed.

Lemma attr_at_tuple s k t comm : tupleMap s !! k = Some t → attr_at s comm k = attributeMap t !! comm.
Proof. intros Ht. unfold attr_at. by rewrite Ht. Qed.
Lemma kept_attr comm k s s' : kept comm k s s' → is_Some (tupleMap s !! k) → attr_at s' comm k = attr_at s comm k.
Proof. intros Hk [t Ht]. destruct (Hk t Ht) as (t' & Ht' & _ & E). by rewrite (attr_at_tuple _ _ _ _ Ht), (attr_at_tuple _ _ _ _ Ht'). Qed.

Lemma wp_self_list comm f (Q : unit → attrs W → Prop) s :
  Q () (s <| selfKeyvals := if comm =? MPI_COMM_SELF then f (selfKeyvals s) else selfKeyvals s |>) →
  wp (if comm =? MPI_COMM_SELF then modify (λ s, s <| selfKeyvals ::= f |>) else mret ()) Q s.
Proof. destruct (comm =? MPI_COMM_SELF); [done|]. by destruct s. Qed.

(** ** [MPI_Comm_set_attr] *)
Definition set_post comm k v s (r : Z) s' : Prop :=
  if decide (comm = MPI_COMM_NULL) then r = MPI_ERR_COMM ∧ s' = s
  else if decide (tupleMap s !! k = None) then r = MPI_ERR_KEYVAL ∧ s' = s
  else if decide (r = MPI_SUCCESS) then attr_at s' comm k = Some v
  else attr_at s' comm k = attr_at s comm k ∧ is_Some (attr_at s comm k).

Lemma set_attr_ok hole comm k v s :
  attr_ok hole s → present hole s →
  wp (PMPI_Comm_set_attr comm k v) (λ r s', attr_ok hole s' ∧ set_post comm k v s r s') s.
Proof.
  intros Hok Hpr. unfold PMPI_Comm_set_attr. destruct (comm =? MPI_COMM_NULL) eqn:En.
  { apply Z.eqb_eq in En. apply wp_ret. unfold set_post. by rewrite decide_True. }
  apply Z.eqb_neq in En. apply wp_bind. unfold find_tuple at 1, gets, wp at 1.
  destruct (tupleMap s !! k) as [t|] eqn:Et; [|apply wp_ret; split; [done|]; unfold set_post; by rewrite decide_False, decide_True].
  destruct (attributeMap t !! comm) as [old|] eqn:Eo.
  - apply wp_bind. eapply wp_mono; [by apply (wp_call_delete hole)|]. intros r s1 (Hok1 & _ & Hkept).
    destruct (Hkept t Et) as (t1 & Et1 & Eid & Em). rewrite Eo in Em.
    destruct (r =? MPI_SUCCESS) eqn:Er; cbn [negb].
    + apply Z.eqb_eq in Er. apply wp_bind, (wp_update_kept _ _ t1); [done|done|].
      apply wp_bind. eapply (wp_update_kept _ _ (t1 <| attributeMap ::= delete comm |>)); [cbn; by rewrite lookup_insert_eq|done|].
      apply wp_ret. unfold set_post. rewrite decide_False, decide_False, decide_True by congruence. unfold set_field. cbn. rewrite lookup_delete_eq. split; [|unfold attr_at; cbn; by rewrite lookup_insert_eq; cbn; rewrite lookup_insert_eq].
      eapply (attr_ok_update hole s1 _ k t1); [done|done| |done|cbn; by rewrite insert_insert_eq|apply Hok1|].
      * intros _. cbn. apply insert_non_empty.
      * intros k'. cbn. rewrite (ao_self _ _ Hok1). apply and_iff_compat_r. case_decide as Ek; [|done]. subst k'.
        rewrite (attr_at_tuple _ _ _ _ Et1). destruct (decide (comm = MPI_COMM_SELF)) as [->|Hns].
        -- rewrite lookup_insert_eq, Em. split; by eexists.
        -- by rewrite lookup_insert_ne, lookup_delete_ne.
    + apply Z.eqb_neq in Er. apply wp_ret. unfold set_post. rewrite !decide_False by congruence. split; [done|].
      split; [by apply kept_attr; [|eexists]|]. rewrite (attr_at_tuple _ _ _ _ Et), Eo. by eexists.
  - apply wp_bind, (wp_self_list comm (λ l, l ++ [k])). set (l := if _ =? _ then _ else _).
    apply wp_bind, (wp_update_tuple _ t); [done|]. apply wp_ret. unfold set_post. rewrite decide_False, decide_False, decide_True by congruence. unfold set_field. cbn. rewrite Eo.
    split; [|unfold attr_at; cbn; by rewrite lookup_insert_eq; cbn; rewrite lookup_insert_eq].
    assert (comm = MPI_COMM_SELF → hole ≠ Some k) as Hh.
    { intros -> Eh. destruct (Hpr k Eh) as [x Hx]. rewrite (attr_at_tuple _ _ _ _ Et) in Hx. congruence. }
    assert (comm = MPI_COMM_SELF → k ∉ selfKeyvals s) as Hnew.
    { intros ->. rewrite (ao_self _ _ Hok), (attr_at_tuple _ _ _ _ Et), Eo. by intros [[]%is_Some_None _]. }
    eapply (attr_ok_update hole s _ k t); [done|done| |done|done|..]; cbn.
    + intros _. apply insert_non_empty.
    + unfold l. destruct (comm =? MPI_COMM_SELF) eqn:Es; [|apply Hok]. apply Z.eqb_eq in Es. apply NoDup_app.
      split_and!; [apply Hok| |apply NoDup_singleton]. intros x Hx ->%list_elem_of_singleton. by apply Hnew.
    + intros k'. unfold l. destruct (comm =? MPI_COMM_SELF) eqn:Es.
      * apply Z.eqb_eq in Es. rewrite elem_of_snoc, (ao_self _ _ Hok). case_decide as Ek.
        -- subst k' comm. rewrite lookup_insert_eq. naive_solver.
        -- naive_solver.
      * apply Z.eqb_neq in Es. rewrite (ao_self _ _ Hok). apply and_iff_compat_r. case_decide as Ek; [|done]. subst k'.
        by rewrite lookup_insert_ne, (attr_at_tuple _ _ _ _ Et).
Qed.

(** ** [MPI_Comm_delete_attr] *)

(** The attribute of [comm] is erased, and [selfKeyvals] is up to date. *)
Lemma wp_remove_after hole comm k t s (Q : unit → attrs W → Prop) :
  attr_ok hole s → tupleMap s !! k = Some t →
  (∀ s', attr_ok hole s' → env s' = env s →
    (∀ c k', attr_at s' c k' = if decide (c = comm ∧ k' = k) then None else attr_at s c k') →
    (∀ k', k' ≠ k → tupleMap s' !! k' = tupleMap s !! k') →
    selfKeyvals s' = (if comm =? MPI_COMM_SELF then filter (.≠ k) (selfKeyvals s) else selfKeyvals s) → app s' = app s → Q () s') →
  wp (remove_keyval_if_unused k) Q
    (s <| tupleMap ::= λ m, <[k := t <| attributeMap ::= delete comm |>]> m |>
       <| selfKeyvals := if comm =? MPI_COMM_SELF then filter (.≠ k) (selfKeyvals s) else selfKeyvals s |>).
Proof.
  intros Hok Ht HQ. eapply (wp_remove hole _ k (t <| attributeMap ::= delete comm |>)); [cbn; by rewrite lookup_insert_eq| |].
  - eapply (attr_ok_update hole s _ k t (t <| attributeMap ::= delete comm |> <| freed := false |>));
      [done|done|done|done|cbn; by rewrite insert_insert_eq|..]; cbn.
    + destruct (comm =? MPI_COMM_SELF); [apply NoDup_filter|]; apply Hok.
    + intros k'. destruct (comm =? MPI_COMM_SELF) eqn:Es.
      * apply Z.eqb_eq in Es. subst comm. rewrite elem_of_remove, (ao_self _ _ Hok). case_decide as Ek; [subst k'|naive_solver].
        rewrite lookup_delete_eq. split; [tauto|]. by intros [[]%is_Some_None _].
      * apply Z.eqb_neq in Es. rewrite (ao_self _ _ Hok). apply and_iff_compat_r. case_decide as Ek; [|done]. subst k'.
        by rewrite lookup_delete_ne, (attr_at_tuple _ _ _ _ Ht).
  - intros s' Hok' He Hat Hm Hself Happ. apply HQ; [done|done| | |done|done].
    2: { intros k' Hne. rewrite Hm. destruct (_ && _); cbn; rewrite ?lookup_delete_ne, lookup_insert_ne by done; done. }
    intros c k'. rewrite Hat. unfold attr_at. cbn.
    destruct (decide (k' = k)) as [->|Hne].
    + rewrite lookup_insert_eq, Ht. cbn. destruct (decide (c = comm)) as [->|Hc].
      * rewrite lookup_delete_eq, decide_True; done.
      * rewrite lookup_delete_ne, decide_False by naive_solver. done.
    + rewrite lookup_insert_ne, decide_False by naive_solver. done.
Qed.

Definition delete_post comm k s (r : Z) s' : Prop :=
  if decide (comm = MPI_COMM_NULL) then r = MPI_ERR_COMM ∧ s' = s
  else if decide (tupleMap s !! k = None) then r = MPI_ERR_KEYVAL ∧ s' = s
  else if decide (r = MPI_SUCCESS) then attr_at s' comm k = None
  else attr_at s' comm k = attr_at s comm k ∧ is_Some (attr_at s comm k).

Lemma delete_attr_ok hole comm k s :
  attr_ok hole s → present hole s → wp (PMPI_Comm_delete_attr comm k) (λ r s', attr_ok hole s' ∧ delete_post comm k s r s') s.
Proof.
  intros Hok Hpr. unfold PMPI_Comm_delete_attr. destruct (comm =? MPI_COMM_NULL) eqn:En.
  { apply Z.eqb_eq in En. apply wp_ret. unfold delete_post. by rewrite decide_True. }
  apply Z.eqb_neq in En. apply wp_bind. unfold find_tuple at 1, gets, wp at 1.
  destruct (tupleMap s !! k) as [t|] eqn:Et; [|apply wp_ret; split; [done|]; unfold delete_post; by rewrite decide_False, decide_True].
  destruct (attributeMap t !! comm) as [v|] eqn:Ev.
  - apply wp_bind. eapply wp_mono; [by apply (wp_call_delete hole)|]. intros r s1 (Hok1 & _ & Hkept).
    destruct (Hkept t Et) as (t1 & Et1 & Eid & Em). destruct (r =? MPI_SUCCESS) eqn:Er; cbn [negb].
    + apply Z.eqb_eq in Er. apply wp_bind, (wp_update_kept _ _ t1); [done|done|]. apply wp_bind, wp_self_list.
      apply wp_bind, (wp_remove_after hole comm k t1 s1); [done|done|]. intros s' Hok' _ Hat _ _ _. apply wp_ret. split; [done|].
      unfold delete_post. rewrite decide_False, decide_False, decide_True by congruence. by rewrite Hat, decide_True.
    + apply Z.eqb_neq in Er. apply wp_ret. unfold delete_post. rewrite !decide_False by congruence. split; [done|].
      rewrite (attr_at_tuple _ _ _ _ Et1), (attr_at_tuple _ _ _ _ Et), Em, Ev. split; [done|by eexists].
  - apply wp_ret. split; [done|]. unfold delete_post. rewrite decide_False, decide_False, decide_True by congruence.
    by rewrite (attr_at_tuple _ _ _ _ Et).
Qed.

(** ** Copying and freeing *)

Lemma free_attributes_ok comm l s :
  attr_ok None s → comm ≠ MPI_COMM_SELF → wp (free_attributes comm l) (λ _ s', attr_ok None s') s.
Proof.
  intros Hok Hns. revert s Hok. induction l as [|k l IH]; intros s Hok; cbn [free_attributes]; [by apply wp_ret|].
  apply wp_bind. unfold find_tuple at 1, gets, wp at 1. destruct (tupleMap s !! k) as [t|] eqn:Et; cbn; [|by apply IH].
  destruct (attributeMap t !! comm) as [v|] eqn:Ev; cbn; [|by apply IH].
  apply wp_bind. eapply wp_mono; [by apply (wp_call_delete None)|]. intros r s1 (Hok1 & _ & Hkept).
  destruct (Hkept t Et) as (t1 & Et1 & Eid & Em). destruct (r =? MPI_SUCCESS) eqn:Er; cbn [negb]; [|by apply wp_ret].
  apply wp_bind, (wp_update_kept _ _ t1); [done|done|].
  pose proof (wp_remove_after None comm k t1 s1) as Hrm. apply Z.eqb_neq in Hns. rewrite Hns in Hrm.
  apply wp_bind. destruct s1. apply Hrm; [done|done|]. intros s' Hok' _ _ _ _ _. by apply IH.
Qed.

Lemma copy_attributes_ok old new l s :
  attr_ok None s → new ≠ MPI_COMM_SELF → wp (copy_attributes old new l) (λ _ s', attr_ok None s') s.
Proof.
  intros Hok Hns. revert s Hok. induction l as [|k l IH]; intros s Hok; cbn [copy_attributes]; [by apply wp_ret|].
  apply wp_bind. unfold find_tuple at 1, gets, wp at 1. destruct (tupleMap s !! k) as [t|] eqn:Et; cbn; [|by apply IH].
  destruct (attributeMap t !! old) as [v|] eqn:Ev; cbn; [|by apply IH]. destruct (copyFn t =? _); [by apply IH|].
  apply wp_bind. eapply wp_mono; [by apply (copy_fn_ok _ _ _ _ _ None)|]. intros [[r flag] val] s1 (Hok1 & _ & Hkept).
  destruct (Hkept t Et) as (t1 & Et1 & Eid & Em). destruct (r =? MPI_SUCCESS); cbn [negb]; [|by apply wp_ret].
  apply wp_bind. destruct flag; [|apply wp_ret; by apply IH]. apply (wp_update_kept _ _ t1); [done|done|]. apply IH.
  eapply (attr_ok_update None s1 _ k t1); [done|done| |done|done|apply Hok1|]; cbn.
  - intros Hf. pose proof (ao_freed _ _ Hok1 k t1 Et1 Hf) as Hne. destruct (attributeMap t1 !! new); [done|apply insert_non_empty].
  - intros k'. rewrite (ao_self _ _ Hok1). apply and_iff_compat_r. case_decide as Ek; [|done]. subst k'.
    rewrite (attr_at_tuple _ _ _ _ Et1). destruct (attributeMap t1 !! new); [done|]. by rewrite lookup_insert_ne.
Qed.
End invariant.
