(* ===== verification/KeyvalsLife.v ===== *)
(** * Making and freeing keyvals *)
From S2P Require Import Prelude Mpi Keyvals KeyvalsInv.

Section keyvals.
Context {ML : MpiLib} {KL : KeyvalLib} {W : Type} {CB : Callbacks W}.
Implicit Types (s : attrs W) (hole : option Z).

Lemma first_free_some l i k :
  first_free l i = Some k → ∃ j : nat, l !! j = Some (-1) ∧ k = i + Z.of_nat j.
Proof.
  revert i. induction l as [|v l IH]; intros i; cbn [first_free]; [done|]. destruct (v =? -1) eqn:E.
  - intros [= <-]. exists 0%nat. apply Z.eqb_eq in E. split; [by rewrite E|lia].
  - intros (j & Hj & ->)%IH. exists (S j). split; [done|lia].
Qed.

(** ** The placeholders of predefined keyvals *)

Definition predefined : list Z :=
  [MPI_TAG_UB; MPI_HOST; MPI_IO; MPI_WTIME_IS_GLOBAL; MPI_APPNUM; MPI_LASTUSEDCODE; MPI_UNIVERSE_SIZE].
Lemma predefined_spec k : is_predefined_keyval k = true ↔ k ∈ predefined.
Proof.
  unfold is_predefined_keyval, predefined. rewrite !orb_true_iff, !Z.eqb_eq, !elem_of_cons, elem_of_nil. tauto.
Qed.
(** How many elements of [l] are at least [k]. *)
Definition above (k : Z) (l : list Z) : nat := length (filter (λ x, k ≤ x) l).
Lemma above_lt k l : k ∈ l → (above (k + 1) l < above k l)%nat.
Proof.
  assert (∀ l, above (k + 1) l ≤ above k l)%nat as Hle.
  { clear l. unfold above. induction l as [|x l IH]; [done|]. rewrite !filter_cons. repeat case_decide; cbn; lia. }
  induction l as [|x l IH]; [by intros []%not_elem_of_nil|]. intros [<-|Hk]%elem_of_cons; unfold above in *; rewrite !filter_cons.
  - rewrite decide_False, decide_True by lia. cbn. specialize (Hle l). lia.
  - specialize (IH Hk). repeat case_decide; cbn; lia.
Qed.
Lemma predefined_above k : (above k predefined ≤ 7)%nat.
Proof. apply (length_filter _ predefined). Qed.

(** A number at the end of [keyvalVec]. *)
Lemma attr_ok_push hole s v t :
  attr_ok hole s → let k := Z.of_nat (length (keyvalVec s)) in
  v = (if is_predefined_keyval k then -2 else k) → (if is_predefined_keyval k then t = None else ∃ x c d n, t = Some (mk_tuple x c d ∅ false n)) →
  attr_ok hole (s <| keyvalVec ::= λ l, l ++ [v] |> <| tupleMap ::= λ m, partial_alter (λ _, t) k m |>).
Proof.
  intros Hok k Hv Ht. assert (tupleMap s !! k = None) as Hk.
  { destruct (tupleMap s !! k) as [u|] eqn:Eu; [|done]. destruct (ao_tuple _ _ Hok k u Eu) as [_ H%lookup_lt_Some]. unfold k in H. lia. }
  split; cbn.
  - intros i w [Hi|[Hi Hw]]%lookup_app_Some.
    + rewrite lookup_partial_alter_ne by (apply lookup_lt_Some in Hi; unfold k; lia). by apply (ao_vec _ _ Hok).
    + apply list_lookup_singleton_Some in Hw as [E <-]. replace (Z.of_nat i) with k by (unfold k; lia).
      rewrite lookup_partial_alter_eq. destruct (is_predefined_keyval k); [by right; left|]. destruct Ht as (? & ? & ? & ? & ->). right. right. by eauto.
  - intros k' u. destruct (decide (k = k')) as [<-|Hne].
    + rewrite lookup_partial_alter_eq. intros Hu. split; [unfold k; lia|].
      rewrite lookup_app_r by (unfold k; lia). replace (Z.to_nat k - length (keyvalVec s))%nat with 0%nat by (unfold k; lia).
      destruct (is_predefined_keyval k); [congruence|]. by rewrite Hv.
    + rewrite lookup_partial_alter_ne by done. intros Hu. destruct (ao_tuple _ _ Hok k' u Hu) as [H1 H2]. split; [done|].
      by apply lookup_app_l_Some.
  - intros k' u. destruct (decide (k = k')) as [<-|Hne]; [|rewrite lookup_partial_alter_ne by done; by apply (ao_freed _ _ Hok)].
    rewrite lookup_partial_alter_eq. destruct (is_predefined_keyval k); [by subst|]. destruct Ht as (? & ? & ? & ? & ->). by intros [= <-].
  - apply Hok.
  - intros k'. rewrite (ao_self _ _ Hok). apply and_iff_compat_r. unfold attr_at. cbn.
    destruct (decide (k = k')) as [<-|Hne]; [|by rewrite lookup_partial_alter_ne].
    rewrite lookup_partial_alter_eq, Hk. destruct (is_predefined_keyval k); [by subst|]. destruct Ht as (? & ? & ? & ? & ->). cbn.
    by rewrite lookup_empty.
Qed.

(** ** [MPI_Comm_create_keyval] *)

(** The tables with a new tuple. *)
Definition created hole s (c d x : Z) (rk : Z * Z) s' : Prop :=
  attr_ok hole s' ∧ rk.1 = MPI_SUCCESS ∧ 0 ≤ rk.2 ∧ is_predefined_keyval rk.2 = false ∧ tupleMap s !! rk.2 = None ∧
  tupleMap s' = <[rk.2 := mk_tuple x c d ∅ false (next_tuple s)]> (tupleMap s) ∧
  selfKeyvals s' = selfKeyvals s ∧ env s' = env s ∧ app s' = app s.

(** The tables that placeholders do not change. *)
Definition same_but_vec s s' : Prop :=
  tupleMap s' = tupleMap s ∧ selfKeyvals s' = selfKeyvals s ∧ env s' = env s ∧ app s' = app s ∧ next_tuple s' = next_tuple s.

Lemma skip_ok hole fuel s k :
  attr_ok hole s → k = Z.of_nat (length (keyvalVec s)) → (above k predefined ≤ fuel)%nat →
  wp (skip_predefined fuel k) (λ k' s', attr_ok hole s' ∧ k' = Z.of_nat (length (keyvalVec s')) ∧ is_predefined_keyval k' = false ∧
    same_but_vec s s') s.
Proof.
  revert s k. induction fuel as [|fuel IH]; intros s k Hok Hk Hf; cbn [skip_predefined]; destruct (is_predefined_keyval k) eqn:Ep.
  - apply predefined_spec, above_lt in Ep. lia.
  - by apply wp_ret.
  - apply wp_bind. unfold modify, wp at 1. pose proof Ep as Hlt. apply predefined_spec, above_lt in Hlt.
    eapply wp_mono; [apply IH|].
    + pose proof (attr_ok_push hole s (-2) None Hok) as H. cbn zeta in H. rewrite <- Hk, Ep in H.
      eapply attr_ok_ext; [..|by apply H]; [done| |done]. cbn. symmetry. change (delete k (tupleMap s) = tupleMap s). apply delete_id.
      destruct (tupleMap s !! k) as [u|] eqn:Eu; [|done]. destruct (ao_tuple _ _ Hok k u Eu) as [_ Hl%lookup_lt_Some]. lia.
    + cbn. rewrite length_app. cbn. lia.
    + lia.
    + done.
  - by apply wp_ret.
Qed.

(** A number that was given back is used again. *)
Lemma attr_ok_reuse hole s j t :
  attr_ok hole s → keyvalVec s !! j = Some (-1) → attributeMap t = ∅ → freed t = false → let k := Z.of_nat j in
  attr_ok hole (s <| keyvalVec ::= λ l, <[j := k]> l |> <| tupleMap ::= λ m, <[k := t]> m |>).
Proof.
  intros Hok Hj He Hf k. destruct (ao_vec _ _ Hok j (-1) Hj) as [(_ & Hp & Ht)|[(? & _)|(? & _)]]; [|lia|lia]. fold k in Hp, Ht.
  split; cbn.
  - intros i v Hi. destruct (decide (i = j)) as [->|Hne].
    + rewrite list_lookup_insert_eq in Hi by (by eapply lookup_lt_Some). injection Hi as <-.
      right. right. split; [done|]. split; [done|]. exists t. apply lookup_insert_eq.
    + rewrite list_lookup_insert_ne in Hi by done. rewrite lookup_insert_ne by (unfold k; lia). by apply (ao_vec _ _ Hok).
  - intros k' u. destruct (decide (k = k')) as [<-|Hne].
    + intros _. split; [unfold k; lia|]. unfold k. rewrite Nat2Z.id. apply list_lookup_insert_eq. by eapply lookup_lt_Some.
    + rewrite lookup_insert_ne by done. intros Hu. destruct (ao_tuple _ _ Hok k' u Hu) as [H1 H2]. split; [done|].
      rewrite list_lookup_insert_ne by (unfold k in Hne; lia). done.
  - intros k' u. destruct (decide (k = k')) as [<-|Hne]; [rewrite lookup_insert_eq; intros [= <-]; congruence|].
    rewrite lookup_insert_ne by done. by apply (ao_freed _ _ Hok).
  - apply Hok.
  - intros k'. rewrite (ao_self _ _ Hok). apply and_iff_compat_r. unfold attr_at. cbn.
    destruct (decide (k = k')) as [<-|Hne]; [|by rewrite lookup_insert_ne]. rewrite lookup_insert_eq, Ht. cbn. by rewrite He, lookup_empty.
Qed.

Lemma create_ok hole c d x s : attr_ok hole s → wp (PMPI_Comm_create_keyval c d x) (created hole s c d x) s.
Proof.
  intros Hok. unfold PMPI_Comm_create_keyval. apply wp_bind. unfold gets, wp at 1.
  destruct (first_free (keyvalVec s) 0) as [k|] eqn:Ef.
  - apply first_free_some in Ef as (j & Hj & ->). replace (0 + Z.of_nat j) with (Z.of_nat j) by lia. set (k := Z.of_nat j).
    destruct (ao_vec _ _ Hok j (-1) Hj) as [(_ & Hp & Ht)|[(? & _)|(? & _)]]; [|lia|lia]. fold k in Hp, Ht.
    unfold emplace_tuple. apply wp_bind. unfold modify, wp at 1. apply wp_bind. unfold wp at 1. apply wp_ret.
    unfold created. cbn [fst snd]. cbn. rewrite Ht. split; [|split_and!; try done; unfold k; lia].
    eapply attr_ok_ext; [..|by apply (attr_ok_reuse hole s j (mk_tuple x c d ∅ false (next_tuple s)))]; cbn; [by unfold k; rewrite Nat2Z.id|by rewrite Ht|done].
  - apply wp_bind. eapply wp_mono; [apply (skip_ok hole); [done|done|pose proof (predefined_above (Z.of_nat (length (keyvalVec s)))); lia]|].
    intros k s1 (Hok1 & Hk & Hp & E1 & E2 & E3 & E4 & E5). apply wp_bind. unfold modify, wp at 1. unfold emplace_tuple.
    assert (tupleMap s1 !! k = None) as Ht.
    { destruct (tupleMap s1 !! k) as [u|] eqn:Eu; [|done]. destruct (ao_tuple _ _ Hok1 k u Eu) as [_ Hl%lookup_lt_Some]. lia. }
    apply wp_bind. unfold modify, wp at 1. apply wp_ret. unfold created. cbn [fst snd]. cbn. rewrite Ht, <- E1.
    split; [|split_and!; try done; [lia|by rewrite E5]].
    pose proof (attr_ok_push hole s1 k (Some (mk_tuple x c d ∅ false (next_tuple s1))) Hok1) as H. cbn zeta in H. rewrite <- Hk, Hp in H.
    eapply attr_ok_ext; [..|apply H; [done|by eauto]]; cbn; [done|by rewrite Ht|done].
Qed.

(** ** [MPI_Comm_free_keyval] *)

Lemma free_keyval_ok hole k s :
  attr_ok hole s →
  wp (PMPI_Comm_free_keyval k) (λ rk s', attr_ok hole s' ∧ env s' = env s ∧
    (∀ comm k', attr_at s' comm k' = attr_at s comm k') ∧
    match tupleMap s !! k with
    | Some t => if freed t then rk = (MPI_ERR_KEYVAL, k) ∧ s' = s
        else rk = (MPI_SUCCESS, MPI_KEYVAL_INVALID) ∧ ((∀ comm, attr_at s comm k = None) → tupleMap s' !! k = None)
    | None => rk = (MPI_ERR_KEYVAL, k) ∧ s' = s
    end) s.
Proof.
  intros Hok. unfold PMPI_Comm_free_keyval. apply wp_bind. unfold gets, wp at 1. destruct (_ && _) eqn:E.
  2: { apply wp_ret. destruct (tupleMap s !! k) as [t|] eqn:Et; [|done]. exfalso. destruct (ao_tuple _ _ Hok k t Et) as [H0 Hv].
    rewrite Hv in E. apply lookup_lt_Some in Hv. rewrite !andb_false_iff, Z.leb_gt, Z.ltb_ge in E. lia. }
  apply andb_true_iff in E as [[H0%Z.leb_le H1%Z.ltb_lt]%andb_true_iff H2].
  destruct (keyvalVec s !! Z.to_nat k) as [v|] eqn:Ev; [|done]. apply Z.leb_le in H2.
  destruct (ao_vec _ _ Hok _ _ Ev) as [(-> & _)|[(-> & _)|(_ & _ & [t Ht])]]; [lia|lia|]. rewrite Z2Nat.id in Ht by done.
  apply wp_bind. unfold find_tuple, gets, wp at 1. rewrite Ht. apply wp_bind. unfold deref, wp at 1. cbn.
  destruct (freed t) eqn:Efr; [by apply wp_ret|].
  apply wp_bind, (wp_update_tuple _ t); [done|]. apply wp_bind.
  eapply (wp_remove hole _ k (t <| freed := true |>)); [cbn; by rewrite lookup_insert_eq| |].
  - eapply attr_ok_ext; [..|exact Hok]; cbn; [done| |done]. rewrite insert_insert_eq. apply insert_id. rewrite Ht. destruct t. cbn in Efr. by subst.
  - intros s' Hok' He Hat Hm _ _. apply wp_ret.
    assert (∀ comm k', attr_at s' comm k' = attr_at s comm k') as Hat'.
    { intros comm k'. rewrite Hat. unfold attr_at. cbn. destruct (decide (k = k')) as [<-|]; [|by rewrite lookup_insert_ne]. by rewrite lookup_insert_eq, Ht. }
    split_and!; [done|done|done|done|]. intros Hnone.
    rewrite Hm. cbn. rewrite bool_decide_eq_true_2; [by rewrite lookup_delete_eq|]. apply map_empty. intros comm.
    rewrite <- (Hnone comm). symmetry. by apply attr_at_tuple.
Qed.
End keyvals.
