(* ===== verification/KeyvalsFinalize.v ===== *)
(** * The attributes of MPI_COMM_SELF at MPI_Finalize

    [delete_self_attributes()] with any callbacks, which may set attributes of
    MPI_COMM_SELF again; and, for callbacks that change the application's own
    state and nothing of MANA's, against a reference: the delete callbacks of the
    attributes run in the reverse of the order in which the attributes were set,
    up to the first that fails. *)
From S2P Require Import Prelude Mpi Keyvals KeyvalsInv KeyvalsLife.

Section reentry.
Context {ML : MpiLib} {KL : KeyvalLib} {W : Type} {CB : Callbacks W}.
Implicit Types s : attrs W.

(** The list without its last element. *)
Lemma attr_ok_pop s k l :
  attr_ok None s → selfKeyvals s = l ++ [k] → attr_ok (Some k) (s <| selfKeyvals := l |>) ∧ is_Some (attr_at s MPI_COMM_SELF k).
Proof.
  intros Hok E. pose proof (ao_nodup _ _ Hok) as Hnd. rewrite E in Hnd. apply NoDup_app in Hnd as (Hnd & Hnk & _). split.
  - destruct Hok. split; cbn; try done. intros k'. specialize (ao_self k'). rewrite E, elem_of_snoc in ao_self.
    change (attr_at (s <| selfKeyvals := l |>) MPI_COMM_SELF k') with (attr_at s MPI_COMM_SELF k').
    split; [intros Hk'; split; [apply ao_self; by left|intros [= ->]; eapply Hnk; [done|by left]]|].
    intros [Ha Hne]. destruct (proj2 ao_self) as [| ->]; [done|done|congruence].
  - apply (ao_self _ _ Hok). rewrite E. apply elem_of_snoc. by right.
Qed.
Lemma attr_ok_unhole k s : attr_ok (Some k) s → attr_at s MPI_COMM_SELF k = None → attr_ok None s.
Proof.
  intros [] Hn. split; try done. intros k'. rewrite ao_self. split; [by intros [? _]|]. intros [Ha _]. split; [done|].
  intros [= ->]. rewrite Hn in Ha. by destruct Ha.
Qed.
Lemma attr_ok_unpop k s :
  attr_ok (Some k) s → is_Some (attr_at s MPI_COMM_SELF k) → attr_ok None (s <| selfKeyvals ::= λ l, l ++ [k] |>).
Proof.
  intros [] Ha. split; cbn; try done.
  - apply NoDup_app. split_and!; [done| |apply NoDup_singleton]. intros x Hx ->%list_elem_of_singleton.
    apply ao_self in Hx as [_ ?]. done.
  - intros k'. rewrite elem_of_snoc, ao_self.
    change (attr_at (s <| selfKeyvals ::= λ l, l ++ [k] |>) MPI_COMM_SELF k') with (attr_at s MPI_COMM_SELF k').
    destruct (decide (k' = k)) as [->|]; naive_solver.
Qed.

(** The attributes of MPI_COMM_SELF that are left, with those that the application
    may still set in its callbacks. *)
Definition pending (budget : W → nat) s : nat := (length (selfKeyvals s) + budget (app s))%nat.
(** The callbacks set no more attributes of MPI_COMM_SELF than the budget allows. *)
Definition within_budget (budget : W → nat) : Prop := ∀ fn comm k v x s r s',
  delete_fn fn comm k v x s = Ok r s' → (pending budget s' ≤ pending budget s)%nat.

Lemma update_tuple_lists k id f s s' :
  update_tuple k id f s = Ok () s' → selfKeyvals s' = selfKeyvals s ∧ app s' = app s.
Proof.
  unfold update_tuple, tuple_at, find_tuple. prog_red. destruct (tupleMap s !! k) as [t|]; [|done].
  case_bool_decide; [|done]. by intros [= <-].
Qed.
Lemma remove_keyval_lists k s s' :
  remove_keyval_if_unused k s = Ok () s' → selfKeyvals s' = selfKeyvals s ∧ app s' = app s.
Proof.
  unfold remove_keyval_if_unused, find_tuple. prog_red. destruct (tupleMap s !! k) as [t|]; [|by intros [= <-]].
  destruct (_ && _); by intros [= <-].
Qed.

Lemma delete_attr_pending budget comm k s r s' :
  within_budget budget → PMPI_Comm_delete_attr comm k s = Ok r s' → (pending budget s' ≤ pending budget s)%nat.
Proof.
  intros Hb. unfold PMPI_Comm_delete_attr. destruct (comm =? MPI_COMM_NULL); [by intros [= _ <-]|].
  unfold find_tuple. unfold mbind at 1, prog_bind at 1, gets at 1. destruct (tupleMap s !! k) as [t|]; [|by intros [= _ <-]].
  destruct (attributeMap t !! comm) as [v|]; [|by intros [= _ <-]]. intros (r1 & s1 & E1 & E)%prog_bind_inv.
  assert (pending budget s1 ≤ pending budget s)%nat as H1.
  { unfold call_delete_fn in E1. destruct (_ =? _); [by injection E1 as _ <-|]. by eapply Hb. }
  destruct (negb (r1 =? MPI_SUCCESS)); [by injection E as _ <-|].
  apply prog_bind_inv in E as ([] & s2 & [L2 A2]%update_tuple_lists & E). apply prog_bind_inv in E as ([] & s3 & E3 & E).
  apply prog_bind_inv in E as ([] & s4 & [L4 A4]%remove_keyval_lists & [= _ <-]).
  unfold pending in *. rewrite L4, A4. destruct (comm =? MPI_COMM_SELF); injection E3 as <-; cbn; rewrite ?L2, ?A2; [|lia].
  pose proof (length_filter (.≠ k) (selfKeyvals s1)). lia.
Qed.

(** The loop ends, and the list is empty or it is the attribute at its end whose
    callback failed. *)
Lemma delete_self_loop_reentrant `{!CallbacksOk} budget fuel s :
  within_budget budget → attr_ok None s → MPI_COMM_SELF ≠ MPI_COMM_NULL → (pending budget s ≤ fuel)%nat →
  wp (delete_self_loop fuel) (λ r s', attr_ok None s' ∧
    if decide (r = MPI_SUCCESS) then ∀ k, attr_at s' MPI_COMM_SELF k = None
    else ∃ l k, selfKeyvals s' = l ++ [k] ∧ is_Some (attr_at s' MPI_COMM_SELF k)) s.
Proof.
  intros Hb Hok Hn. revert s Hok. induction fuel as [|fuel IH]; intros s Hok Hf; cbn [delete_self_loop]; apply wp_bind; unfold gets, wp at 1;
    destruct (last (selfKeyvals s)) as [k|] eqn:El.
  1: { apply last_Some in El as [l El]. unfold pending in Hf. rewrite El, length_app in Hf. cbn in Hf. lia. }
  1, 3: apply last_None in El; apply wp_ret; (split; [done|]); rewrite decide_True by done; intros k; apply eq_None_not_Some; intros Hk;
    assert (k ∈ selfKeyvals s) as Hin by (by apply (ao_self _ _ Hok)); rewrite El in Hin; by apply not_elem_of_nil in Hin.
  apply last_Some in El as [l El]. apply wp_bind. unfold modify, wp at 1. destruct (attr_ok_pop s k l Hok El) as [Hok1 Hat].
  replace (s <| selfKeyvals ::= @removelast Z |>) with (s <| selfKeyvals := l |>) by (unfold set_field; cbn; by rewrite El, removelast_last).
  set (s1 := s <| selfKeyvals := l |>) in *.
  assert (present (Some k) s1) as Hpr by (intros h [= <-]; exact Hat).
  destruct (wp_ok _ _ _ (delete_attr_ok (Some k) MPI_COMM_SELF k s1 Hok1 Hpr)) as (r & s2 & E & Hok2 & Hpost).
  pose proof (delete_attr_pending budget _ _ _ _ _ Hb E) as Hp2. apply wp_bind. unfold wp at 1. rewrite E.
  assert (tupleMap s1 !! k ≠ None) as Ht.
  { destruct Hat as [v Hv]. unfold attr_at in Hv. change (tupleMap s1) with (tupleMap s). intros E0. by rewrite E0 in Hv. }
  unfold delete_post in Hpost. rewrite decide_False, decide_False in Hpost by done.
  destruct (Z.eqb_spec r MPI_SUCCESS) as [Er|Er]; cbn [negb].
  - rewrite decide_True in Hpost by done. apply IH; [by eapply attr_ok_unhole|].
    unfold pending in *. unfold s1 in Hp2. rewrite El, length_app in Hf. cbn in Hp2, Hf. lia.
  - rewrite decide_False in Hpost by done. destruct Hpost as [Ha _]. apply wp_bind. unfold wp at 1. apply wp_ret.
    assert (is_Some (attr_at s2 MPI_COMM_SELF k)) as Hk by (rewrite Ha; exact Hat).
    split; [by apply attr_ok_unpop|]. rewrite decide_False by done. by exists (selfKeyvals s2), k.
Qed.
End reentry.

Section finalize.
Context {ML : MpiLib} {KL : KeyvalLib} {W : Type}.
(** fn comm keyval value extra, and the application's state *)
Context (on_delete : Z → Z → Z → Z → Z → W → Z * W) (on_copy : Z → Z → Z → Z → Z → W → (Z * bool * Z) * W) (order : list Z → list Z).
Implicit Types s : attrs W.

Definition outside_callbacks : Callbacks W := {|
  delete_fn fn comm k v x s := let '(r, w) := on_delete fn comm k v x (app s) in Ok r (s <| app := w |>);
  copy_fn fn comm k x v s := let '(r, w) := on_copy fn comm k x v (app s) in Ok r (s <| app := w |>);
  keyval_order := order |}.
#[local] Existing Instance outside_callbacks.

(** The callback of MPI_COMM_SELF's attribute [k]. *)
Definition delete_once s (k : Z) (w : W) : Z * W :=
  match tupleMap s !! k ≫= λ t, pair t <$> attributeMap t !! MPI_COMM_SELF with
  | Some (t, v) => if deleteFn t =? MPI_COMM_NULL_DELETE_FN then (MPI_SUCCESS, w) else on_delete (deleteFn t) MPI_COMM_SELF k v (extraState t) w
  | None => (MPI_SUCCESS, w)
  end.
(** The callbacks of [ks] in order: the error, the attributes that are left, the
    application's state. *)
Fixpoint finalize_ref s (ks : list Z) (w : W) : Z * list Z * W :=
  match ks with
  | [] => (MPI_SUCCESS, [], w)
  | k :: ks' =>
      let '(r, w') := delete_once s k w in
      if r =? MPI_SUCCESS then finalize_ref s ks' w' else (r, ks, w')
  end.

Lemma attr_ok_app hole s w : attr_ok hole s → attr_ok hole (s <| app := w |>).
Proof. by apply attr_ok_ext. Qed.
Lemma finalize_ref_ext s s' ks w :
  (∀ k, k ∈ ks → tupleMap s' !! k = tupleMap s !! k) → finalize_ref s' ks w = finalize_ref s ks w.
Proof.
  revert w. induction ks as [|k ks IH]; intros w Hs; [done|]. cbn [finalize_ref]. unfold delete_once. rewrite Hs by (by left).
  destruct (match _ with Some _ => _ | None => _ end) as [r w']. destruct (r =? MPI_SUCCESS); [|done]. apply IH. intros. apply Hs. by right.
Qed.
Lemma finalize_ref_sub s ks w r rest w' : finalize_ref s ks w = (r, rest, w') → ∀ k, k ∈ rest → k ∈ ks.
Proof.
  revert w. induction ks as [|k0 ks IH]; intros w; cbn [finalize_ref]; [by intros [= _ <- _]|].
  destruct (delete_once s k0 w) as [r0 w0]. destruct (r0 =? MPI_SUCCESS); [|by intros [= _ <- _]].
  intros H k Hk. right. by eapply IH.
Qed.

(** [MPI_Comm_delete_attr] of an attribute of MPI_COMM_SELF. *)
Lemma delete_self_once hole k s :
  attr_ok hole s → MPI_COMM_SELF ≠ MPI_COMM_NULL → is_Some (attr_at s MPI_COMM_SELF k) →
  wp (PMPI_Comm_delete_attr MPI_COMM_SELF k) (λ r s', attr_ok hole s' ∧ r = (delete_once s k (app s)).1 ∧ app s' = (delete_once s k (app s)).2 ∧
    (∀ k', k' ≠ k → tupleMap s' !! k' = tupleMap s !! k') ∧
    if r =? MPI_SUCCESS then selfKeyvals s' = filter (.≠ k) (selfKeyvals s) ∧
      ∀ c k', attr_at s' c k' = if decide (c = MPI_COMM_SELF ∧ k' = k) then None else attr_at s c k'
    else selfKeyvals s' = selfKeyvals s ∧ ∀ c k', attr_at s' c k' = attr_at s c k') s.
Proof.
  intros Hok Hn Hat. unfold PMPI_Comm_delete_attr. apply Z.eqb_neq in Hn. rewrite Hn. apply wp_bind. unfold find_tuple at 1, gets, wp at 1.
  destruct Hat as [v Hv]. unfold attr_at in Hv. destruct (tupleMap s !! k) as [t|] eqn:Et; cbn in Hv; [|done].
  rewrite Hv. apply wp_bind.
  assert (wp (call_delete_fn t MPI_COMM_SELF k v) (λ r s', r = (delete_once s k (app s)).1 ∧ s' = s <| app := (delete_once s k (app s)).2 |>) s) as Hcb.
  { unfold call_delete_fn, delete_once. rewrite Et. cbn. rewrite Hv. cbn. unfold wp. cbn.
    destruct (deleteFn t =? MPI_COMM_NULL_DELETE_FN); [by destruct s|]. by destruct (on_delete _ _ _ _ _ _). }
  eapply wp_mono; [exact Hcb|]. clear Hcb. set (d := delete_once s k (app s)). intros r s1 [-> ->].
  destruct (d.1 =? MPI_SUCCESS) eqn:Er; cbn [negb].
  - apply wp_bind, (wp_update_tuple _ t); [done|]. apply wp_bind. rewrite Z.eqb_refl. unfold modify, wp at 1. apply wp_bind.
    pose proof (wp_remove_after hole MPI_COMM_SELF k t (s <| app := d.2 |>)) as Hrm. rewrite Z.eqb_refl in Hrm.
    apply Hrm; [by apply attr_ok_app|done|]. intros s' Hok' _ Hat' Hm Hself Happ. apply wp_ret. rewrite Er. by split_and!.
  - apply wp_ret. rewrite Er. split_and!; try done. by apply attr_ok_app.
Qed.

Definition finalize_post s (l : list Z) (r : Z) s' : Prop :=
  let '(r0, rest, w) := finalize_ref s (reverse l) (app s) in
  r = r0 ∧ app s' = w ∧ selfKeyvals s' = reverse rest ∧ attr_ok None s' ∧
  ∀ c k, attr_at s' c k = if decide (c = MPI_COMM_SELF ∧ k ∈ l ∧ k ∉ rest) then None else attr_at s c k.

Lemma delete_self_loop_ok l fuel s :
  attr_ok None s → MPI_COMM_SELF ≠ MPI_COMM_NULL → selfKeyvals s = l → (length l ≤ fuel)%nat →
  wp (delete_self_loop fuel) (finalize_post s l) s.
Proof.
  intros Hok Hn. revert fuel s Hok. induction l as [|k l IH] using rev_ind; intros fuel s Hok Hl Hf.
  - destruct fuel; cbn [delete_self_loop]; unfold gets; apply wp_bind; unfold wp at 1; rewrite Hl; cbn; apply wp_ret;
      unfold finalize_post; cbn; (split_and!; [done|done|done|done|]); intros c k; by rewrite decide_False by (by intros (_ & []%not_elem_of_nil & _)).
  - rewrite length_app in Hf. cbn in Hf. destruct fuel as [|fuel]; [lia|]. cbn [delete_self_loop]. apply wp_bind. unfold gets, wp at 1.
    rewrite Hl, last_snoc. apply wp_bind. unfold modify, wp at 1. destruct (attr_ok_pop s k l Hok Hl) as [Hok1 Hat].
    replace (s <| selfKeyvals ::= @removelast Z |>) with (s <| selfKeyvals := l |>) by (unfold set_field; cbn; by rewrite Hl, removelast_last).
    apply wp_bind. eapply wp_mono; [by apply (delete_self_once (Some k))|]. cbn beta. intros r s1 (Hok2 & Hr & Happ & Htm & Hcase).
    change (delete_once _ k _) with (delete_once s k (Keyvals.app s)) in Hr, Happ.
    assert (k ∉ l) as Hkl.
    { pose proof (ao_nodup _ _ Hok) as Hnd. rewrite Hl in Hnd. apply NoDup_app in Hnd as (_ & Hnk & _). intros Hk. eapply Hnk; [done|by left]. }
    assert (finalize_ref s (reverse (l ++ [k])) (Keyvals.app s) = let '(r, w') := delete_once s k (Keyvals.app s) in
      if r =? MPI_SUCCESS then finalize_ref s (reverse l) w' else (r, k :: reverse l, w')) as Eref by (by rewrite reverse_app).
    unfold finalize_post. rewrite Eref. clear Eref. destruct (delete_once s k (Keyvals.app s)) as [r0 w0]. cbn in Hr, Happ. subst r.
    destruct (r0 =? MPI_SUCCESS) eqn:Er; cbn [negb].
    + destruct Hcase as [Hself Hat1]. cbn in Hself. rewrite filter_id in Hself by (by intros x Hx ->).
      assert (attr_ok None s1) as Hok3 by (apply (attr_ok_unhole k); [done|]; by rewrite Hat1, decide_True).
      eapply wp_mono; [by apply (IH fuel s1 Hok3 Hself); lia|]. intros r s' Hpost. unfold finalize_post in Hpost.
      rewrite (finalize_ref_ext s s1), Happ in Hpost.
      2: { intros x Hx. rewrite elem_of_reverse in Hx. apply Htm. intros ->. by apply Hkl. }
      destruct (finalize_ref s (reverse l) w0) as [[r1 rest] w1] eqn:Ef. destruct Hpost as (-> & -> & -> & Hok' & Hat').
      split_and!; [done..|]. intros c k0. rewrite Hat', Hat1. change (attr_at (s <| selfKeyvals := l |>) c k0) with (attr_at s c k0).
      assert (k ∉ rest) as Hkr by (intros Hk; apply Hkl; rewrite <- elem_of_reverse; by eapply finalize_ref_sub).
      pose proof (elem_of_snoc k k0 l).
      repeat case_decide; naive_solver.
    + destruct Hcase as [Hself Hat1]. apply wp_bind. unfold wp at 1. apply wp_ret. cbv beta iota.
      split_and!; [done|done|rewrite reverse_cons, reverse_involutive; cbn; by rewrite Hself| |].
      * apply attr_ok_unpop; [done|]. by rewrite Hat1.
      * intros c k0. rewrite decide_False; [apply Hat1|]. rewrite elem_of_snoc, elem_of_cons, elem_of_reverse. tauto.
Qed.
End finalize.
