(* ===== verification/KeyvalsSpec.v ===== *)
(** * What keyvals and attributes guarantee *)
From S2P Require Import Prelude Mpi Constants Keyvals KeyvalsInv KeyvalsLife KeyvalsFinalize.

(** ** Calls of the application *)

Inductive attr_call :=
  | Call_create (copy_ delete_ extra : Z)
  | Call_free_keyval (keyval : Z)
  | Call_set (comm keyval v : Z)
  | Call_get (comm keyval : Z)
  | Call_delete (comm keyval : Z)
  | Call_free_comm (comm : Z)            (* the attributes' part of MPI_Comm_free *)
  | Call_dup (oldcomm newcomm : Z).      (* the attributes' part of MPI_Comm_dup *)

Section spec.
Context {ML : MpiLib} {KL : KeyvalLib} {W : Type} {CB : Callbacks W}.
Implicit Types s : attrs W.

Definition do_call (c : attr_call) : prog (attrs W) unit :=
  match c with
  | Call_create c d x => PMPI_Comm_create_keyval c d x ;; mret ()
  | Call_free_keyval k => PMPI_Comm_free_keyval k ;; mret ()
  | Call_set comm k v => PMPI_Comm_set_attr comm k v ;; mret ()
  | Call_get comm k => PMPI_Comm_get_attr comm k ;; mret ()
  | Call_delete comm k => PMPI_Comm_delete_attr comm k ;; mret ()
  | Call_free_comm comm => delete_comm_attributes comm ;; mret ()
  | Call_dup old new => copy_comm_attributes old new ;; mret ()
  end.
(** MPI_COMM_SELF is never freed, and is not a duplicate. *)
Definition legal_call (c : attr_call) : bool :=
  match c with Call_free_comm comm | Call_dup _ comm => negb (comm =? MPI_COMM_SELF) | _ => true end.

Lemma get_attr_state comm k s : ∃ r, PMPI_Comm_get_attr comm k s = Ok r s.
Proof.
  unfold PMPI_Comm_get_attr, find_tuple. prog_red.
  repeat (match goal with |- context [if ?b then _ else _] => destruct b end; [by eexists|]). destruct (tupleMap s !! k); by eexists.
Qed.

Lemma do_call_ok `{OKC : !CallbacksOk} c s : attr_ok None s → legal_call c = true → wp (do_call c) (λ _ s', attr_ok None s') s.
Proof.
  intros Hok Hl. destruct c as [c d x|k|comm k v|comm k|comm k|comm|old new]; cbn [do_call]; apply wp_bind.
  - eapply wp_mono; [by apply (create_ok None)|]. intros [r k] s' [H _]. by apply wp_ret.
  - eapply wp_mono; [by apply (free_keyval_ok None)|]. intros r s' [H _]. by apply wp_ret.
  - eapply wp_mono; [by apply (set_attr_ok None)|]. intros r s' [H _]. by apply wp_ret.
  - destruct (get_attr_state comm k s) as [r Hr]. unfold wp at 1. by rewrite Hr.
  - eapply wp_mono; [by apply (delete_attr_ok None)|]. intros r s' [H _]. by apply wp_ret.
  - apply negb_true_iff, Z.eqb_neq in Hl. eapply wp_mono; [by apply wp_bind, free_attributes_ok|]. intros r s' H. by apply wp_ret.
  - apply negb_true_iff, Z.eqb_neq in Hl. eapply wp_mono; [by apply wp_bind, copy_attributes_ok|]. intros r s' H. by apply wp_ret.
Qed.

(** C28. Every sequence of calls on keyvals and attributes (creating and freeing
    keyvals, setting, reading and deleting attributes, freeing and duplicating
    communicators) returns and keeps the tables consistent, whatever the
    callbacks do through the same functions: each number is in use, free, or
    the placeholder of a predefined keyval, a freed keyval stays exactly while
    an attribute uses it, and the list for MPI_Finalize has the keyvals of
    MPI_COMM_SELF's attributes, once each. *)
Theorem attribute_calls_keep_tables `{OKC : !CallbacksOk} (calls : list attr_call) s :
  attr_ok None s → forallb legal_call calls = true → wp (for_each calls do_call) (λ _ s', attr_ok None s') s.
Proof.
  revert s. induction calls as [|c calls IH]; intros s Hok Hl; cbn [for_each]; [by apply wp_ret|].
  cbn in Hl. apply andb_true_iff in Hl as [H1 H2]. apply wp_bind. eapply wp_mono; [by apply do_call_ok|]. intros [] s' Hok'. by apply IH.
Qed.

(** What [MPI_Comm_get_attr] returns for a keyval that is not predefined. *)
Lemma get_attr_user comm k s :
  comm ≠ MPI_COMM_NULL → is_predefined_keyval k = false → is_Some (tupleMap s !! k) →
  PMPI_Comm_get_attr comm k s = Ok (MPI_SUCCESS, User <$> attr_at s comm k) s.
Proof.
  intros Hc Hp [t Ht]. unfold PMPI_Comm_get_attr, find_tuple. prog_red. apply Z.eqb_neq in Hc. rewrite Hc.
  unfold is_predefined_keyval in Hp. rewrite !orb_false_iff in Hp. destruct Hp as [[[[[[-> ->] ->] ->] ->] ->] ->].
  by rewrite Ht, (attr_at_tuple _ _ _ _ Ht).
Qed.
Lemma tuple_not_predefined hole k t s : attr_ok hole s → tupleMap s !! k = Some t → is_predefined_keyval k = false.
Proof.
  intros Hok Ht. destruct (ao_tuple _ _ Hok k t Ht) as [H0 Hv]. destruct (ao_vec _ _ Hok _ _ Hv) as [(_ & _ & H)|[(_ & _ & H)|(_ & H & _)]];
    rewrite Z2Nat.id in H by done; congruence.
Qed.

(** Reading an attribute back: after a successful MPI_Comm_set_attr,
    MPI_Comm_get_attr returns the value, and after a successful
    MPI_Comm_delete_attr it finds none; when the delete callback fails, both
    calls return its error and the attribute keeps its value; an unknown keyval
    and MPI_COMM_NULL are errors that change nothing.  Callbacks may call the
    same functions for other attributes. *)
Theorem attribute_set_get_delete `{OKC : !CallbacksOk} comm k v s :
  attr_ok None s →
  wp (r ← PMPI_Comm_set_attr comm k v; g ← PMPI_Comm_get_attr comm k; mret (r, g)) (λ '(r, (_, g)) s',
    if decide (comm = MPI_COMM_NULL) then r = MPI_ERR_COMM ∧ s' = s
    else if decide (tupleMap s !! k = None) then r = MPI_ERR_KEYVAL ∧ s' = s
    else g = User <$> (if decide (r = MPI_SUCCESS) then Some v else attr_at s comm k)) s ∧
  wp (r ← PMPI_Comm_delete_attr comm k; mret r) (λ r s',
    if decide (comm = MPI_COMM_NULL) then r = MPI_ERR_COMM ∧ s' = s
    else if decide (tupleMap s !! k = None) then r = MPI_ERR_KEYVAL ∧ s' = s
    else attr_at s' comm k = if decide (r = MPI_SUCCESS) then None else attr_at s comm k) s.
Proof.
  intros Hok. split; apply wp_bind.
  - eapply wp_mono; [by apply (set_attr_ok None)|]. intros r s' [Hok' Hp]. unfold set_post in Hp.
    destruct (get_attr_state comm k s') as [g Hg]. apply wp_bind. unfold wp at 1. rewrite Hg. apply wp_ret. destruct g as [rg g].
    destruct (decide (comm = MPI_COMM_NULL)); [done|]. destruct (decide (tupleMap s !! k = None)) as [|Hk]; [done|].
    assert (is_Some (attr_at s' comm k)) as Hat by (destruct (decide (r = MPI_SUCCESS)); [by rewrite Hp|destruct Hp as [-> ?]; done]).
    assert (∃ t, tupleMap s' !! k = Some t) as [t Ht] by (unfold attr_at in Hat; destruct (tupleMap s' !! k); [by eexists|by destruct Hat]).
    rewrite get_attr_user in Hg; [|done|by eapply tuple_not_predefined|by eexists]. injection Hg as _ <-.
    f_equal. destruct (decide (r = MPI_SUCCESS)); [done|by destruct Hp].
  - eapply wp_mono; [by apply (delete_attr_ok None)|]. intros r s' [Hok' Hp]. apply wp_ret. unfold delete_post in Hp.
    repeat case_decide; try done. by destruct Hp.
Qed.
End spec.

(** ** MPI_Finalize *)

(** C38. [delete_self_attributes()] deletes the attributes of MPI_COMM_SELF.  (1)
    With callbacks that may use the same functions, and set attributes of
    MPI_COMM_SELF again, as long as they set finitely many in all ([budget]), it
    returns: with MPI_SUCCESS only when no attribute of MPI_COMM_SELF is left,
    also none that a callback has set; otherwise with the error of the callback
    of the attribute that is now last in the list and stays.  (2) With callbacks
    that touch none of MANA's tables it behaves as its reference: it runs the
    delete callbacks in the reverse of the order in which the attributes were
    set, each once, up to the first that fails; it returns that error (or
    MPI_SUCCESS), the attributes whose callbacks succeeded are gone, the others
    and all attributes of other communicators stay, and the list that remains is
    that of the attributes that remain.  In both cases the tables stay
    consistent. *)
Theorem finalize_deletes_in_reverse `{ML : MpiLib, KL : KeyvalLib} {W : Type} {CB : Callbacks W} `{OKC : !CallbacksOk}
    (budget : W → nat) (on_delete : Z → Z → Z → Z → Z → W → Z * W) on_copy order (s : attrs W) :
  attr_ok None s → MPI_COMM_SELF ≠ MPI_COMM_NULL → within_budget budget →
  wp (delete_self_attributes (pending budget s)) (λ r s', attr_ok None s' ∧
    if decide (r = MPI_SUCCESS) then ∀ k, attr_at s' MPI_COMM_SELF k = None
    else ∃ l k, selfKeyvals s' = l ++ [k] ∧ is_Some (attr_at s' MPI_COMM_SELF k)) s ∧
  wp (delete_self_attributes (CB := outside_callbacks on_delete on_copy order) (length (selfKeyvals s))) (λ r s',
    let '(r0, rest, w) := finalize_ref on_delete s (reverse (selfKeyvals s)) (app s) in
    r = r0 ∧ app s' = w ∧ selfKeyvals s' = reverse rest ∧ attr_ok None s' ∧
    ∀ c k, attr_at s' c k = if decide (c = MPI_COMM_SELF ∧ k ∈ selfKeyvals s ∧ k ∉ rest) then None else attr_at s c k) s.
Proof. intros Hok Hn Hb. split; [by apply (delete_self_loop_reentrant budget)|by apply delete_self_loop_ok]. Qed.

(** ** The life of a keyval *)

(** MPI_Comm_create_keyval succeeds with a number that is neither
    predefined nor in use, also when freed numbers are used again, and changes
    no attribute.  MPI_Comm_free_keyval of a keyval in use invalidates the
    caller's handle and changes no attribute; the keyval is gone at once if no
    communicator has an attribute under it.  Any other keyval, a freed one too,
    is an error that changes nothing. *)
Theorem keyval_lifecycle `{ML : MpiLib, KL : KeyvalLib} {W : Type} {CB : Callbacks W} c d x k (s : attrs W) :
  attr_ok None s →
  wp (PMPI_Comm_create_keyval c d x) (λ rk s',
    rk.1 = MPI_SUCCESS ∧ is_predefined_keyval rk.2 = false ∧ tupleMap s !! rk.2 = None ∧ is_Some (tupleMap s' !! rk.2) ∧
    ∀ comm k', attr_at s' comm k' = attr_at s comm k') s ∧
  wp (PMPI_Comm_free_keyval k) (λ rk s',
    (∀ comm k', attr_at s' comm k' = attr_at s comm k') ∧
    match tupleMap s !! k with
    | Some t => if freed t then rk = (MPI_ERR_KEYVAL, k) ∧ s' = s
        else rk = (MPI_SUCCESS, MPI_KEYVAL_INVALID) ∧ ((∀ comm, attr_at s comm k = None) → tupleMap s' !! k = None)
    | None => rk = (MPI_ERR_KEYVAL, k) ∧ s' = s
    end) s.
Proof.
  intros Hok. split.
  - eapply wp_mono; [by apply (create_ok None)|]. intros [r k1] s' (_ & Hr & _ & Hp & Hn & Hm & _). cbn [fst snd] in *.
    split_and!; [done|done|done|rewrite Hm, lookup_insert_eq; by eexists|]. intros comm k'. unfold attr_at. rewrite Hm.
    destruct (decide (k1 = k')) as [<-|]; [rewrite lookup_insert_eq, Hn; apply lookup_empty|by rewrite lookup_insert_ne].
  - eapply wp_mono; [by apply (free_keyval_ok None)|]. intros rk s' (_ & _ & Hat & H). done.
Qed.

(** ** Examples *)

(** Open MPI's shape: the predefined keyvals are the first numbers. *)
Definition sample_keyvals : KeyvalLib := {|
  MPI_TAG_UB := 0; MPI_HOST := 1; MPI_IO := 2; MPI_WTIME_IS_GLOBAL := 3; MPI_APPNUM := 4;
  MPI_UNIVERSE_SIZE := 6; MPI_LASTUSEDCODE := 5; MPI_KEYVAL_INVALID := -1;
  MPI_COMM_NULL_COPY_FN := 0; MPI_COMM_NULL_DELETE_FN := 0 |}.
#[local] Existing Instance sample_lib.
#[local] Existing Instance sample_keyvals.

(** The application's state is the list of the keyvals whose delete callbacks
    ran; a delete callback makes a keyval of its own. *)
Definition reentrant : Callbacks (list Z) := {|
  delete_fn fn comm k v x :=
    modify (λ s, s <| app ::= λ l, l ++ [k] |>) ;; PMPI_Comm_create_keyval 0 0 0 ;; mret MPI_SUCCESS;
  copy_fn fn comm k x v := mret (MPI_SUCCESS, true, v);
  keyval_order := id |}.
#[local] Existing Instance reentrant.

Lemma reentrant_ok : CallbacksOk (CB := reentrant).
Proof.
  split.
  - intros fn comm k v x hole s Hok Hpr. unfold delete_fn, reentrant. apply wp_bind. unfold modify, wp at 1. apply wp_bind.
    set (s1 := s <| app ::= _ |>). assert (attr_ok hole s1) as Hok1 by (by eapply attr_ok_ext; [..|exact Hok]).
    eapply wp_mono; [by apply (create_ok hole)|]. intros [r k1] s' (Hok' & _ & _ & _ & Hn & Hm & _). apply wp_ret. split_and!; [done| |].
    { intros h Hh. destruct (Hpr h Hh) as [y Hy]. exists y. cbn [snd] in *. unfold attr_at in *. rewrite Hm, lookup_insert_ne; [done|].
      intros ->. change (tupleMap s !! h = None) in Hn. by rewrite Hn in Hy. }
    intros t Ht. exists t. cbn [snd] in *. rewrite Hm, lookup_insert_ne by (intros ->; change (tupleMap s !! k = None) in Hn; congruence). done.
  - intros fn comm k x v hole s Hok Hpr. apply wp_ret. split_and!; [done|done|apply kept_refl].
  - done.
Qed.

Definition sample_env : env_attrs := mk_env 32767 0 true 0 false 0 false.
Definition no_attrs : attrs (list Z) := mk_attrs [] ∅ [] sample_env 0 [].
(** One keyval, number 7, whose callbacks are 1. *)
Definition one_keyval : attrs (list Z) :=
  mk_attrs [-2; -2; -2; -2; -2; -2; -2; 7] {[7 := mk_tuple 0 1 1 ∅ false 0]} [] sample_env 1 [].

Lemma no_attrs_ok : attr_ok None no_attrs.
Proof.
  split; cbn; try done; [constructor|]. intros k. split; [by intros []%not_elem_of_nil|]. intros [[x Hx] _]. done.
Qed.
Lemma one_keyval_ok : attr_ok None one_keyval.
Proof.
  pose proof (create_ok None 1 1 0 no_attrs no_attrs_ok) as H. apply wp_ok in H as (rk & s' & E & Hok & _).
  assert (PMPI_Comm_create_keyval 1 1 0 no_attrs = Ok (0, 7) one_keyval) as E' by (vm_compute; reflexivity).
  rewrite E' in E. injection E as _ <-. exact Hok.
Qed.

Definition sample_calls : list attr_call :=
  [Call_create 1 1 0; Call_set MPI_COMM_WORLD 7 42; Call_set MPI_COMM_SELF 7 43; Call_set MPI_COMM_SELF 7 44;
   Call_free_keyval 7; Call_dup MPI_COMM_WORLD 100; Call_get 100 7; Call_free_comm 100; Call_delete MPI_COMM_SELF 7;
   Call_delete MPI_COMM_WORLD 7].

Lemma attribute_calls_keep_tables_witness :
  ∃ s', for_each sample_calls do_call no_attrs = Ok () s' ∧ attr_ok None s'.
Proof.
  pose proof (attribute_calls_keep_tables (OKC := reentrant_ok) sample_calls no_attrs no_attrs_ok
    ltac:(vm_compute; reflexivity)) as H.
  apply wp_ok in H as ([] & s' & E & Hok). exists s'. split; [exact E|exact Hok].
Defined.

Lemma attribute_set_get_delete_witness :
  wp (r ← PMPI_Comm_set_attr MPI_COMM_WORLD 7 42; g ← PMPI_Comm_get_attr MPI_COMM_WORLD 7; mret (r, g))
    (λ '(r, (_, g)) s', r = MPI_SUCCESS → g = Some (User 42)) one_keyval.
Proof.
  destruct (attribute_set_get_delete (OKC := reentrant_ok) MPI_COMM_WORLD 7 42 one_keyval one_keyval_ok) as [H _].
  eapply wp_mono; [exact H|]. intros [r [rg g]] s'. rewrite decide_False by (vm_compute; discriminate).
  rewrite decide_False by (vm_compute; discriminate). intros -> ->. by rewrite decide_True.
Defined.

(** Keyvals 7 and 8 have attributes of MPI_COMM_SELF, set in this order. *)
Definition logging (fn comm k v x : Z) (w : list Z) : Z * list Z := (0, w ++ [k]).
Definition no_copy (fn comm k x v : Z) (w : list Z) : (Z * bool * Z) * list Z := ((0, false, 0), w).
Definition two_self : attrs (list Z) :=
  mk_attrs [-2; -2; -2; -2; -2; -2; -2; 7; 8]
    (<[7 := mk_tuple 0 1 1 {[MPI_COMM_SELF := 5]} false 0]> {[8 := mk_tuple 0 1 1 {[MPI_COMM_SELF := 6]} true 1]})
    [7; 8] sample_env 2 [].
Definition two_self_calls : list attr_call :=
  [Call_create 1 1 0; Call_create 1 1 0; Call_set MPI_COMM_SELF 7 5; Call_set MPI_COMM_SELF 8 6; Call_free_keyval 8].
Lemma two_self_ok : attr_ok None two_self.
Proof.
  assert (∃ s', for_each two_self_calls do_call no_attrs = Ok () s' ∧ attr_ok None s') as (s' & E & Hok).
  { cut (wp (for_each two_self_calls do_call) (λ _ s', attr_ok None s') no_attrs).
    - intros H. apply wp_ok in H as ([] & s' & E & Hok). by exists s'.
    - pose proof reentrant_ok. unfold two_self_calls. cbn [for_each].
      repeat (apply wp_bind; eapply wp_mono; [apply do_call_ok; [first [exact no_attrs_ok|eassumption]|vm_compute; reflexivity]|intros [] ? ?]).
      by apply wp_ret. }
  assert (for_each two_self_calls do_call no_attrs = Ok () two_self) as E' by (vm_compute; reflexivity).
  rewrite E' in E. injection E as <-. exact Hok.
Qed.

(** The first delete callback that runs sets an attribute under the keyval 7, if
    MPI_COMM_SELF has none there. *)
Definition sets_again (k : Z) (s : attrs (list Z)) : bool :=
  negb (k =? 7) && bool_decide (app s = []) && bool_decide (attr_at s MPI_COMM_SELF 7 = None).
Definition setting_again : Callbacks (list Z) := {|
  delete_fn fn comm k v x := s ← get_state;
    modify (λ s, s <| app ::= λ l, l ++ [k] |>) ;;
    (if sets_again k s then PMPI_Comm_set_attr (CB := outside_callbacks logging no_copy id) MPI_COMM_SELF 7 9 else mret 0) ;;
    mret MPI_SUCCESS;
  copy_fn fn comm k x v := mret (MPI_SUCCESS, false, 0);
  keyval_order := id |}.
Definition one_more (w : list Z) : nat := match w with [] => 1 | _ => 0 end.

Lemma outside_ok {W} on_delete on_copy : CallbacksOk (CB := @outside_callbacks W on_delete on_copy id).
Proof.
  split; [| |done]; intros fn comm k v x hole s Hok Hpr; unfold wp; cbn;
    [destruct (on_delete _ _ _ _ _ _)|destruct (on_copy _ _ _ _ _ _)]; (split; [by apply attr_ok_app|split; [done|intros t Ht; by exists t]]).
Qed.

(** What the callback does to the tables. *)
Lemma set_seven_run (s : attrs (list Z)) :
  attr_at s MPI_COMM_SELF 7 = None →
  (tupleMap s !! 7 = None ∧ PMPI_Comm_set_attr (CB := outside_callbacks logging no_copy id) MPI_COMM_SELF 7 9 s = Ok MPI_ERR_KEYVAL s) ∨
  ∃ t, PMPI_Comm_set_attr (CB := outside_callbacks logging no_copy id) MPI_COMM_SELF 7 9 s =
    Ok MPI_SUCCESS (s <| selfKeyvals ::= λ l, l ++ [7] |> <| tupleMap ::= <[7 := t]> |>).
Proof.
  intros Hn. unfold PMPI_Comm_set_attr. change (MPI_COMM_SELF =? MPI_COMM_NULL) with false. change (MPI_COMM_SELF =? MPI_COMM_SELF) with true.
  unfold emplace_attribute, update_tuple, tuple_at, find_tuple. prog_red. unfold attr_at in Hn.
  destruct (tupleMap s !! 7) as [t|] eqn:Et; [|by left]. cbn [mbind option_bind] in Hn. rewrite Hn. right.
  unfold set_field at 1 3. cbn [tupleMap]. rewrite Et, bool_decide_eq_true_2 by done. by eexists.
Qed.

Lemma setting_again_ok : CallbacksOk (CB := setting_again).
Proof.
  split; [| |done].
  2: { intros fn comm k v x hole s Hok Hpr. apply wp_ret. split_and!; [done|done|apply kept_refl]. }
  intros fn comm k v x hole s Hok Hpr. unfold delete_fn, setting_again. apply wp_bind. unfold get_state, wp at 1. apply wp_bind.
  unfold modify, wp at 1. set (s1 := s <| app ::= _ |>). assert (attr_ok hole s1) as Hok1 by (by eapply attr_ok_ext; [..|exact Hok]).
  apply wp_bind. destruct (sets_again k s) eqn:Es; [|apply wp_ret, wp_ret; split_and!; [done|done|intros t Ht; by exists t]].
  unfold sets_again in Es. rewrite !andb_true_iff, negb_true_iff, Z.eqb_neq, !bool_decide_eq_true in Es. destruct Es as [[Hk _] Hn].
  destruct (wp_ok _ _ _ (set_attr_ok (H := outside_ok logging no_copy) hole MPI_COMM_SELF 7 9 s1 Hok1 Hpr)) as (r & s2 & E & Hok2 & _).
  unfold wp at 1. rewrite E. apply wp_ret. split; [done|]. destruct (set_seven_run s1 Hn) as [[_ E']|[t E']]; rewrite E' in E; injection E as _ <-.
  - split; [done|intros t Ht; by exists t].
  - split.
    + intros h Hh. destruct (decide (h = 7)) as [->|Hne]; [specialize (Hpr 7 Hh); change (attr_at s1 MPI_COMM_SELF 7) with (attr_at s MPI_COMM_SELF 7) in Hn; rewrite Hn in Hpr; by destruct Hpr|].
      specialize (Hpr h Hh). unfold attr_at in *. cbn. by rewrite lookup_insert_ne.
    + intros t0 Ht0. exists t0. cbn. by rewrite lookup_insert_ne.
Qed.
Lemma setting_again_budget : within_budget (CB := setting_again) one_more.
Proof.
  intros fn comm k v x s r s'. unfold delete_fn, setting_again. prog_red. set (s1 := s <| app ::= _ |>).
  assert (∀ s2 : attrs (list Z), app s2 = app s1 → one_more (app s2) = 0%nat) as Hz by (intros s2 ->; cbn; by destruct (app s)).
  destruct (sets_again k s) eqn:Es; [|intros [= _ <-]; unfold pending; rewrite (Hz s1) by done; cbn; lia].
  unfold sets_again in Es. rewrite !andb_true_iff, negb_true_iff, Z.eqb_neq, !bool_decide_eq_true in Es. destruct Es as [[_ Ha] Hn].
  destruct (set_seven_run s1 Hn) as [[_ ->]|[t ->]]; intros [= _ <-]; unfold pending; rewrite Hz by done; cbn; rewrite ?length_app, ?Ha; cbn; lia.
Qed.

(** Keyval 8 has an attribute of MPI_COMM_SELF; its callback sets one under 7. *)
Definition one_self : attrs (list Z) :=
  mk_attrs [-2; -2; -2; -2; -2; -2; -2; 7; 8]
    (<[7 := mk_tuple 0 1 1 ∅ false 0]> {[8 := mk_tuple 0 1 1 {[MPI_COMM_SELF := 6]} true 1]}) [8] sample_env 2 [].
Definition one_self_calls : list attr_call :=
  [Call_create 1 1 0; Call_create 1 1 0; Call_set MPI_COMM_SELF 8 6; Call_free_keyval 8].
Lemma one_self_ok : attr_ok None one_self.
Proof.
  assert (∃ s', for_each one_self_calls do_call no_attrs = Ok () s' ∧ attr_ok None s') as (s' & E & Hok).
  { cut (wp (for_each one_self_calls do_call) (λ _ s', attr_ok None s') no_attrs).
    - intros H. apply wp_ok in H as ([] & s' & E & Hok). by exists s'.
    - pose proof reentrant_ok. unfold one_self_calls. cbn [for_each].
      repeat (apply wp_bind; eapply wp_mono; [apply do_call_ok; [first [exact no_attrs_ok|eassumption]|vm_compute; reflexivity]|intros [] ? ?]).
      by apply wp_ret. }
  assert (for_each one_self_calls do_call no_attrs = Ok () one_self) as E' by (vm_compute; reflexivity).
  rewrite E' in E. injection E as <-. exact Hok.
Qed.

Lemma finalize_deletes_in_reverse_witness :
  (∃ s', delete_self_attributes (CB := setting_again) 2 one_self = Ok 0 s' ∧ app s' = [8; 7] ∧ ∀ k, attr_at s' MPI_COMM_SELF k = None) ∧
  ∃ s', delete_self_attributes (CB := outside_callbacks logging no_copy id) 2 two_self = Ok 0 s' ∧ app s' = [8; 7] ∧ selfKeyvals s' = [].
Proof.
  split.
  - destruct (finalize_deletes_in_reverse (OKC := setting_again_ok) one_more logging no_copy id one_self one_self_ok
      ltac:(vm_compute; discriminate) setting_again_budget) as [H _].
    apply wp_ok in H as (r & s' & E & _ & H). exists s'.
    assert (match delete_self_attributes (CB := setting_again) 2 one_self with Ok r s' => (r, app s') | _ => (1, []) end = (0, [8; 7])) as Er
      by (vm_compute; reflexivity).
    change (pending one_more one_self) with 2%nat in E. rewrite E in Er. injection Er as Er1 Er2. rewrite Er1 in E, H. split; [exact E|].
    split; [exact Er2|]. rewrite decide_True in H by done. exact H.
  - destruct (finalize_deletes_in_reverse (OKC := setting_again_ok) one_more logging no_copy id two_self two_self_ok
      ltac:(vm_compute; discriminate) setting_again_budget) as [_ H].
    apply wp_ok in H as (r & s' & E & H). exists s'.
    assert (finalize_ref logging two_self (reverse (selfKeyvals two_self)) (app two_self) = (0, [], [8; 7])) as Eref by (vm_compute; reflexivity).
    rewrite Eref in H. destruct H as (-> & -> & -> & _). split; [exact E|]. by split.
Defined.

Lemma keyval_lifecycle_witness :
  ∃ s', PMPI_Comm_free_keyval 7 one_keyval = Ok (0, -1) s' ∧ tupleMap s' !! 7 = None.
Proof.
  destruct (keyval_lifecycle 1 1 0 7 one_keyval one_keyval_ok) as [_ H]. apply wp_ok in H as (rk & s' & E & _ & H). exists s'.
  assert (tupleMap one_keyval !! 7 = Some (mk_tuple 0 1 1 ∅ false 0)) as Et by (vm_compute; reflexivity).
  rewrite Et in H. cbn in H. destruct H as [-> H]. split; [exact E|]. apply H. intros comm. unfold attr_at. rewrite Et. apply lookup_empty.
Defined.
