(* ===== verification/CkptMemory.v ===== *)
(** * The memory that a checkpoint saves ([src/src/mpi_plugin.cpp])

    DMTCP walks along the areas of [/proc/self/maps] and asks its plugins about
    each: [dmtcp_skip_memory_region_ckpting()] says of the first part of an area
    whether to skip it, and where that part ends.  MANA saves the upper half:
    the list of the upper half's mappings that [MemArena] keeps, and the upper
    half's stack. *)
From S2P Require Import Prelude MemArena ArenaWrappers ArenaSpec.

(** DMTCP's description of an area of memory, with the fields that MANA uses; the
    last four are the bits of [properties] and the name. *)
Record ProcMapsArea := mk_area {
  a_addr : Z;
  a_end : Z;                (* endAddr *)
  a_size : Z;
  a_prot : Z;
  a_flags : Z;
  a_offset : Z;
  a_filesize : Z;           (* mmapFileSize *)
  a_zero : bool;            (* DMTCP_ZERO_PAGE *)
  a_parent : bool;          (* DMTCP_ZERO_PAGE_PARENT_HEADER *)
  a_child : bool;           (* DMTCP_ZERO_PAGE_CHILD_HEADER *)
  a_name : string
}.
#[export] Instance eta_area : Eta ProcMapsArea := λ a,
  mk_area (a_addr a) (a_end a) (a_size a) (a_prot a) (a_flags a) (a_offset a) (a_filesize a) (a_zero a) (a_parent a) (a_child a) (a_name a).

(** The part from [s] to [e]. *)
Definition sub_area (area : ProcMapsArea) (s e : Z) : ProcMapsArea :=
  area <| a_addr := s |> <| a_end := e |> <| a_size := e - s |>.

(** [std::partition_point]: binary search for the first element that does not
    satisfy [p], among [n] elements from [first] on. *)
Fixpoint partition_search {A} (p : A → bool) (l : list A) (fuel first n : nat) : nat :=
  match fuel with
  | O => first
  | S fuel' =>
      match n with
      | O => first
      | _ =>
          let half := (n / 2)%nat in
          match l !! (first + half)%nat with
          | Some x => if p x then partition_search p l fuel' (first + half + 1) (n - half - 1) else partition_search p l fuel' first half
          | None => first
          end
      end
  end.
Definition partition_point {A} (p : A → bool) (l : list A) : nat := partition_search p l (length l) 0 (length l).

(** The first range of the upper half that ends above [addr]. *)
Definition nextUpperHalfRange (regions : list MmapInfo_t) (uh_stack_start uh_stack_end : Z) (addr : Z) : option (Z * Z) :=
  let found := (λ b, (b_addr b, b_end b)) <$> regions !! partition_point (λ b, b_end b <=? addr) regions in
  if (addr <? uh_stack_end) && match found with Some (start, _) => uh_stack_start <? start | None => true end
  then Some (uh_stack_start, uh_stack_end)
  else found.

(** Whether to skip, and [*uncheckedAddr]; [next] is the next plugin's
    definition, if there is one. *)
Definition dmtcp_skip_memory_region_ckpting (regions : list MmapInfo_t) (uh_stack_start uh_stack_end : Z)
    (next : option (ProcMapsArea → bool * Z)) (area : ProcMapsArea) : bool * Z :=
  match nextUpperHalfRange regions uh_stack_start uh_stack_end (a_addr area) with
  | None => (true, a_end area)
  | Some (start, end_) =>
      if a_end area <=? start then (true, a_end area)
      else if a_addr area <? start then (true, start)
      else
        let unchecked := Z.min end_ (a_end area) in
        match next with
        | None => (false, unchecked)
        | Some f => f (area <| a_end := unchecked |> <| a_size := unchecked - a_addr area |>)
        end
  end.

(** ** The binary search *)

Lemma partition_search_spec {A} (p : A → bool) (l : list A) :
  (∀ i j x y, (i ≤ j)%nat → l !! i = Some x → l !! j = Some y → p y = true → p x = true) →
  ∀ fuel first n, (n ≤ fuel)%nat → (first + n ≤ length l)%nat →
    (∀ i x, (i < first)%nat → l !! i = Some x → p x = true) →
    (∀ i x, (first + n ≤ i)%nat → l !! i = Some x → p x = false) →
    let k := partition_search p l fuel first n in
    (∀ i x, (i < k)%nat → l !! i = Some x → p x = true) ∧ (∀ i x, (k ≤ i)%nat → l !! i = Some x → p x = false).
Proof.
  intros Hmono fuel. induction fuel as [|fuel IH]; intros first n Hn Hlen Hlo Hhi; cbn [partition_search].
  { split; [done|]. intros i x Hi. apply Hhi. lia. }
  destruct n as [|n]; [split; [done|]; intros i x Hi; apply Hhi; lia|]. set (half := (S n / 2)%nat).
  assert (half < S n)%nat as Hh by (apply Nat.div_lt; lia).
  destruct (l !! (first + half)%nat) as [m|] eqn:Em; [|apply lookup_ge_None in Em; lia].
  destruct (p m) eqn:Ep.
  - apply IH; [lia|lia| |].
    + intros i x Hi Hx. apply (Hmono i (first + half)%nat x m); [lia|done|done|done].
    + intros i x Hi. apply Hhi. lia.
  - apply IH; [lia|lia|done|]. intros i x Hi Hx. destruct (p x) eqn:Ex; [|done].
    by rewrite (Hmono (first + half)%nat i m x ltac:(lia) Em Hx Ex) in Ep.
Qed.

Lemma partition_point_spec {A} (p : A → bool) (l : list A) :
  (∀ i j x y, (i ≤ j)%nat → l !! i = Some x → l !! j = Some y → p y = true → p x = true) →
  (∀ i x, (i < partition_point p l)%nat → l !! i = Some x → p x = true) ∧
  (∀ i x, (partition_point p l ≤ i)%nat → l !! i = Some x → p x = false).
Proof.
  intros Hmono. apply (partition_search_spec p l Hmono); [lia|lia|lia|]. intros i x Hi Hx%lookup_lt_Some. lia.
Qed.

(** ** What is saved *)

(** The addresses of the upper half. *)
Definition upper_half (regions : list MmapInfo_t) (stack_start stack_end x : Z) : Prop :=
  covers regions x ∨ stack_start ≤ x < stack_end.

Lemma sorted_lookup l i j x y :
  StronglySorted before l → (i < j)%nat → l !! i = Some x → l !! j = Some y → before x y.
Proof.
  intros Hs. revert i j. induction Hs as [|z l Hs IH Hf]; intros [|i] [|j] Hij Hx Hy; try done; try lia; cbn in *.
  - injection Hx as <-. rewrite Forall_forall in Hf. apply Hf. by eapply list_elem_of_lookup_2.
  - apply (IH i j); [lia|done|done].
Qed.

(** The range found begins at the first address of the upper half from [addr]
    on, or contains [addr], and is all of the upper half. *)
Lemma next_range_spec regions s e addr :
  blocks_ok regions →
  match nextUpperHalfRange regions s e addr with
  | Some (start, end_) => addr < end_ ∧ (∀ x, start ≤ x < end_ → upper_half regions s e x) ∧
      (∀ x, addr ≤ x < start → ¬ upper_half regions s e x)
  | None => ∀ x, addr ≤ x → ¬ upper_half regions s e x
  end.
Proof.
  intros [Hs Hp]. rewrite Forall_forall in Hp. set (p := λ b, b_end b <=? addr).
  assert (∀ i j x y, (i ≤ j)%nat → regions !! i = Some x → regions !! j = Some y → p y = true → p x = true) as Hmono.
  { intros i j x y Hij Hx Hy. unfold p. rewrite !Z.leb_le. destruct (decide (i = j)) as [->|Hne]; [assert (x = y) as -> by congruence; done|].
    assert (i < j)%nat as Hlt by lia. pose proof (sorted_lookup _ _ _ _ _ Hs Hlt Hx Hy) as Hb. unfold before in Hb.
    destruct (Hp y) as [_ ?]; [by eapply list_elem_of_lookup_2|]. unfold b_end in *. lia. }
  destruct (partition_point_spec p regions Hmono) as [Hlo Hhi]. unfold nextUpperHalfRange. fold p. set (k := partition_point p regions) in *.
  assert (∀ x, addr ≤ x → covers regions x → ∃ i b, (k ≤ i)%nat ∧ regions !! i = Some b ∧ in_block b x) as Hcov.
  { intros x Hx (b & (i & Hi)%list_elem_of_lookup & Hb). exists i, b. split; [|done]. destruct (decide (k ≤ i)%nat); [done|].
    pose proof (Hlo i b ltac:(lia) Hi) as H. unfold p in H. apply Z.leb_le in H. unfold in_block in Hb. lia. }
  destruct (regions !! k) as [b|] eqn:Eb; cbn.
  - pose proof (Hhi k b ltac:(lia) Eb) as Hb. unfold p in Hb. apply Z.leb_gt in Hb.
    assert (∀ x, addr ≤ x < b_addr b → ¬ covers regions x) as Hlow.
    { intros x Hx Hc. destruct (Hcov x ltac:(lia) Hc) as (i & c & Hi & Hci & Hin). unfold in_block in Hin.
      destruct (decide (i = k)) as [->|Hne]; [assert (c = b) as -> by congruence; lia|].
      assert (k < i)%nat as Hlt by lia. pose proof (sorted_lookup _ _ _ _ _ Hs Hlt Eb Hci) as Hbf. unfold before in Hbf.
      destruct (Hp b) as [_ ?]; [by eapply list_elem_of_lookup_2|]. unfold b_end in *. lia. }
    destruct (Z.ltb_spec addr e), (Z.ltb_spec s (b_addr b)); cbn.
    1: { split; [done|]. split; [intros x Hx; by right|]. intros x Hx [Hc|Hst]; [apply (Hlow x); [lia|done]|lia]. }
    all: split; [done|]; split; [intros x Hx; left; exists b; split; [by eapply list_elem_of_lookup_2|exact Hx]|].
    all: intros x Hx [Hc|Hst]; [by apply (Hlow x)|lia].
  - assert (∀ x, addr ≤ x → ¬ covers regions x) as Hno.
    { intros x Hx Hc. destruct (Hcov x Hx Hc) as (i & c & Hi & Hci & _). apply lookup_lt_Some in Hci. apply lookup_ge_None in Eb. lia. }
    rewrite andb_true_r. destruct (Z.ltb_spec addr e).
    + split; [done|]. split; [intros x Hx; by right|]. intros x Hx [Hc|Hst]; [apply (Hno x); [lia|done]|lia].
    + intros x Hx [Hc|Hst]; [by apply (Hno x)|lia].
Qed.

(** One answer: it is about a part of the area that is not empty, and is right
    for every address of that part. *)
Lemma skip_answer regions s e area :
  blocks_ok regions → a_addr area < a_end area →
  let '(skip, unchecked) := dmtcp_skip_memory_region_ckpting regions s e None area in
  a_addr area < unchecked ≤ a_end area ∧
  ∀ x, a_addr area ≤ x < unchecked → if skip : bool then ¬ upper_half regions s e x else upper_half regions s e x.
Proof.
  intros Hok Ha. pose proof (next_range_spec regions s e (a_addr area) Hok) as H. unfold dmtcp_skip_memory_region_ckpting.
  destruct (nextUpperHalfRange regions s e (a_addr area)) as [[start end_]|].
  - destruct H as (H1 & H2 & H3). destruct (Z.leb_spec (a_end area) start).
    + split; [lia|]. intros x Hx. apply H3. lia.
    + destruct (Z.ltb_spec (a_addr area) start).
      * split; [lia|]. done.
      * split; [lia|]. intros x Hx. apply H2. lia.
  - split; [lia|]. intros x Hx. apply H. lia.
Qed.

(** Asking again about the rest of an area, [n] times at most: the parts that
    are saved. *)
Fixpoint saved_parts (regions : list MmapInfo_t) (s e : Z) (n : nat) (area : ProcMapsArea) : list ProcMapsArea :=
  if a_end area <=? a_addr area then [] else
  match n with
  | O => []
  | S n' =>
      let '(skip, unchecked) := dmtcp_skip_memory_region_ckpting regions s e None area in
      let rest := saved_parts regions s e n' (sub_area area unchecked (a_end area)) in
      if skip then rest else sub_area area (a_addr area) unchecked :: rest
  end.

Lemma saved_parts_spec regions s e : blocks_ok regions → ∀ n area,
  a_end area - a_addr area ≤ Z.of_nat n →
  ∀ x, (∃ part, part ∈ saved_parts regions s e n area ∧ a_addr part ≤ x < a_end part) ↔
    a_addr area ≤ x < a_end area ∧ upper_half regions s e x.
Proof.
  intros Hok n. induction n as [|n IH]; intros area Hn x; cbn [saved_parts]; destruct (Z.leb_spec (a_end area) (a_addr area)) as [Hle|Hlt].
  - split; [by intros (? & []%not_elem_of_nil & _)|lia].
  - lia.
  - split; [by intros (? & []%not_elem_of_nil & _)|lia].
  - pose proof (skip_answer regions s e area Hok Hlt) as Hans.
    destruct (dmtcp_skip_memory_region_ckpting regions s e None area) as [skip u]. destruct Hans as [Hu Hx].
    specialize (IH (sub_area area u (a_end area)) ltac:(cbn; lia) x). cbn in IH. destruct skip.
    + rewrite IH. split; [intros [? ?]; split; [lia|done]|]. intros [H1 H2]. split; [|done].
      destruct (decide (x < u)); [|lia]. by destruct (Hx x ltac:(lia)).
    + split.
      * intros (part & [->|Hp]%elem_of_cons & Hin); [cbn in Hin; split; [lia|by apply Hx]|].
        destruct (proj1 IH) as [H1 H2]; [by exists part|]. split; [lia|done].
      * intros [H1 H2]. destruct (decide (x < u)) as [Hxu|Hxu].
        -- exists (sub_area area (a_addr area) u). split; [by left|cbn; lia].
        -- destruct (proj2 IH) as (part & Hp & Hin); [split; [lia|done]|]. exists part. split; [by right|done].
Qed.

(** C40. A checkpoint saves the upper half's memory and none of the lower
    half's: whatever calls of mmap, munmap and mremap the upper half made, for
    every area of the process's memory the answers of
    [dmtcp_skip_memory_region_ckpting()], asked again about the rest of the area
    until its end, save exactly the addresses of the area that the list of the
    upper half's mappings or the upper half's stack contain; each answer makes
    progress, so the length of the area bounds their number.  Where another
    plugin also decides, it is asked only about memory of the upper half. *)
Theorem checkpoint_saves_upper_half {K : Type} (knows : bool) (st : arena (K := K)) s e area :
  arena_ok (knows := knows) st →
  (∀ n x, a_end area - a_addr area ≤ Z.of_nat n →
    (∃ part, part ∈ saved_parts (allocated_blocks st) s e n area ∧ a_addr part ≤ x < a_end part) ↔
    a_addr area ≤ x < a_end area ∧ upper_half (allocated_blocks st) s e x) ∧
  (∀ next, a_addr area < a_end area →
    let '(skip, u) := dmtcp_skip_memory_region_ckpting (allocated_blocks st) s e None area in
    dmtcp_skip_memory_region_ckpting (allocated_blocks st) s e (Some next) area =
      (if skip : bool then (skip, u) else next (sub_area area (a_addr area) u)) ∧
    (skip = false → ∀ x, a_addr area ≤ x < u → upper_half (allocated_blocks st) s e x)).
Proof.
  intros Hok. pose proof (ao_allocated _ Hok) as Hb. split.
  - intros n x Hn. by apply saved_parts_spec.
  - intros next Ha. pose proof (skip_answer _ s e area Hb Ha) as H. unfold dmtcp_skip_memory_region_ckpting in *.
    destruct (nextUpperHalfRange _ _ _ _) as [[start end_]|]; [|done].
    destruct (a_end area <=? start); [done|]. destruct (a_addr area <? start); [done|]. split; [done|]. intros _. apply H.
Qed.

(** The arena of the examples, with a stack above it; the area begins in the
    lower half's memory. *)
Lemma checkpoint_saves_upper_half_witness :
  let area := mk_area 0x1000 0x90000 0x8f000 3 0x22 0 0 false false false EmptyString in
  saved_parts (allocated_blocks sample_arena) 0x70000 0x80000 10 area =
    [sub_area area 0x10000 0x11000; sub_area area 0x70000 0x80000] ∧
  ∀ x, (∃ part, part ∈ saved_parts (allocated_blocks sample_arena) 0x70000 0x80000 (Z.to_nat 0x8f000) area ∧ a_addr part ≤ x < a_end part) ↔
    0x1000 ≤ x < 0x90000 ∧ upper_half (allocated_blocks sample_arena) 0x70000 0x80000 x.
Proof.
  cbv zeta. split; [vm_compute; reflexivity|]. intros x.
  destruct (checkpoint_saves_upper_half true sample_arena 0x70000 0x80000 (mk_area 0x1000 0x90000 0x8f000 3 0x22 0 0 false false false EmptyString) sample_arena_ok) as [H _].
  apply (H (Z.to_nat 0x8f000) x). cbn [a_end a_addr]. lia.
Defined.
