(* ===== verification/ImageRestore.v ===== *)
(** * Restoring memory from a checkpoint image ([src/src/lower-half/lower-half.cpp])

    At restart the new lower half reads the checkpoint image: a header for each
    area of the upper half's memory, followed by the area's bytes, and a header
    with address 0 at the end.  An area in which whole pages are zero is a parent
    header, which has no bytes, and one child header for each run of pages, with
    bytes unless the run is zero.  [main()] walks along the image three times: it
    maps the ranges where nothing is mapped, unmaps them, and maps and fills them. *)
From Stdlib Require Import Ascii String.
From S2P Require Import Prelude MemArena ArenaWrappers CkptMemory.

Definition MAP_SHARED : Z := 0x01.
Definition MAP_GROWSDOWN : Z := 0x100.

(** The calls on files.  The image file is given by its bytes; a result of -1
    is an error. *)
Class ImageKernel (K : Type) := {
  read_len : list Z → Z → Z → K → Z;                (* bytes, position, length: what read() into a variable returns *)
  sys_read : list Z → Z → Z → Z → K → Z * K;        (* bytes, position, destination, length *)
  sys_open : string → option (Z * Z)                (* the descriptor and the size of a file that can be opened *)
}.

Section restore.
Context `{Kernel K} `{!ImageKernel K}.
(** DMTCP's layout of a header, and the bytes of the image. *)
Context (sizeof_area : Z) (area_of_bytes : list Z → ProcMapsArea) (image : list Z).

(** The arena with its kernel, and the position in the image. *)
Record rstate := mk_rstate { r_arena : arena (K := K); r_pos : Z }.
#[global] Instance eta_rstate : Eta rstate := λ st, mk_rstate (r_arena st) (r_pos st).

Definition on_arena {A} (m : prog (arena (K := K)) A) : prog rstate A := λ st,
  match m (r_arena st) with Ok a ar => Ok a (st <| r_arena := ar |>) | Abort => Abort | Spin => Spin end.

Definition lseek_set (pos : Z) : prog rstate unit := modify (λ st, st <| r_pos := pos |>).
Definition lseek_cur (n : Z) : prog rstate unit := modify (λ st, st <| r_pos ::= λ p, p + n |>).

(** [read(fd, &area, sizeof area)]: the result and the bytes. *)
Definition read_header : prog rstate (Z * list Z) := λ st,
  let rc := read_len image (r_pos st) sizeof_area (kern (r_arena st)) in
  Ok (rc, take (Z.to_nat rc) (drop (Z.to_nat (r_pos st)) image)) (st <| r_pos ::= λ p, p + Z.max 0 rc |>).

(** [read(fd, dest, want)]. *)
Definition read_mem (dest want : Z) : prog rstate Z := λ st,
  let '(rc, k) := sys_read image (r_pos st) dest want (kern (r_arena st)) in
  Ok rc (st <| r_arena ::= λ a, a <| kern := k |> |> <| r_pos ::= λ p, p + Z.max 0 rc |>).

(** ** Reserving and releasing *)

(** The bytes after a header, as the first two walks skip them. *)
Definition seek_len (area : ProcMapsArea) : Z :=
  if negb (has_flag (a_flags area) MAP_ANONYMOUS) && (0 <? a_filesize area) then a_filesize area else a_size area.
Definition skip_data (area : ProcMapsArea) : prog rstate unit :=
  if negb (a_zero area) && negb (a_parent area) then lseek_cur (seek_len area) else mret ().

Fixpoint reserve_loop (ckpt_file_pos : Z) (fuel : nat) : prog rstate unit :=
  match fuel with
  | O => spin
  | S fuel' =>
      h ← read_header;
      assert_ (h.1 =? sizeof_area) ;;
      let area := area_of_bytes h.2 in
      if a_addr area =? 0 then lseek_set ckpt_file_pos
      else
        (if negb (a_child area) then
           mmapedat ← on_arena (mmap_fixed_noreplace (a_addr area) (a_size area) PROT_NONE (Z.lor MAP_PRIVATE MAP_ANONYMOUS) 0 0);
           match mmapedat with inl _ => mret () | inr _ => spin end
         else mret ()) ;;
        skip_data area ;;
        reserve_loop ckpt_file_pos fuel'
  end.

(** Returns the position of the first header. *)
Definition reserve_memory_areas (fuel : nat) : prog rstate Z :=
  ckpt_file_pos ← gets r_pos;
  reserve_loop ckpt_file_pos fuel ;;
  mret ckpt_file_pos.

(** [buf] holds the bytes of the variable [area]: a short read leaves the rest of
    it as it was. *)
Fixpoint release_loop (ckpt_file_pos : Z) (buf : list Z) (fuel : nat) : prog rstate unit :=
  match fuel with
  | O => spin
  | S fuel' =>
      h ← read_header;
      assert_ (0 <? h.1) ;;
      let buf := h.2 ++ drop (length h.2) buf in
      let area := area_of_bytes buf in
      if a_addr area =? 0 then lseek_set ckpt_file_pos
      else
        (if negb (a_child area) then on_arena (sys (sys_munmap (a_addr area) (a_size area))) ;; mret () else mret ()) ;;
        skip_data area ;;
        release_loop ckpt_file_pos buf fuel'
  end.
Definition release_reserved_memory (ckpt_file_pos : Z) (uninit : list Z) (fuel : nat) : prog rstate unit :=
  release_loop ckpt_file_pos uninit fuel.

(** ** Restoring *)

Definition name_begins_slash (name : string) : bool :=
  match name with String c _ => Ascii.eqb c "/" | EmptyString => false end.
Definition name_has_stack (name : string) : bool :=
  match index 0 "stack" name with Some _ => true | None => false end.

(** A stack grows, and a shared area becomes private. *)
Definition adjust_flags (endOfStack : Z) (area : ProcMapsArea) : ProcMapsArea :=
  let area := if negb (String.eqb (a_name area) EmptyString) && negb (name_begins_slash (a_name area)) && name_has_stack (a_name area)
                 || (a_end area =? endOfStack)
              then area <| a_flags ::= λ f, Z.lor f MAP_GROWSDOWN |> else area in
  if has_flag (a_flags area) MAP_SHARED
  then area <| a_flags ::= λ f, Z.lor (Z.lor (Z.lxor f MAP_SHARED) MAP_PRIVATE) MAP_ANONYMOUS |> else area.

Definition restore_protection (area : ProcMapsArea) : prog rstate unit :=
  if negb (has_flag (a_prot area) PROT_WRITE) then
    ok ← on_arena (sys (sys_mprotect (a_addr area) (a_size area) (a_prot area)));
    assert_ ok
  else mret ().

(** The descriptor to map, or -1, and the area with its offset and flags. *)
Definition open_image (area : ProcMapsArea) : prog rstate (Z * ProcMapsArea) :=
  if name_begins_slash (a_name area) then
    match sys_open (a_name area) with
    | Some (imagefd, curr_size) =>
        assert_ (negb (curr_size =? -1)) ;;
        if (u64 curr_size <? u64 (a_size area + a_offset area)) && has_flag (a_prot area) PROT_WRITE
        then mret (-1, area <| a_offset := 0 |> <| a_flags ::= λ f, Z.lor f MAP_ANONYMOUS |>)
        else mret (imagefd, area)
    | None => mret (-1, area)
    end
  else mret (-1, area).

(** [if ((area.properties & DMTCP_ZERO_PAGE_CHILD_HEADER) == 0) { ... }]; the
    variable that a failure tests in a loop has no value. *)
Definition map_area (area : ProcMapsArea) : prog rstate unit :=
  '(imagefd, area) ← open_image area;
  let area_flags := if (imagefd =? -1) && has_flag (a_flags area) MAP_PRIVATE then Z.lor (a_flags area) MAP_ANONYMOUS else a_flags area in
  let flags := if negb (has_flag (a_prot area) PROT_WRITE) then Z.lor area_flags MAP_NORESERVE else area_flags in
  mmappedat ← on_arena (restore_mmap (a_addr area) (a_size area) (Z.lor (a_prot area) PROT_WRITE) flags imagefd (a_offset area));
  match mmappedat with
  | inl a => if a =? a_addr area then mret () else abort
  | inr _ => abort
  end.

(** [do { rc = read(...); count += rc; } while (rc > 0 && count < total)], with
    the conversions to the types of [rc] and [count]. *)
Fixpoint read_loop (to_rc to_count : Z → Z) (addr total count : Z) (fuel : nat) : prog rstate Z :=
  match fuel with
  | O => spin
  | S fuel' =>
      rc0 ← read_mem (addr + count) (total - count);
      let rc := to_rc rc0 in
      let count := to_count (count + rc) in
      if (0 <? rc) && (count <? total) then read_loop to_rc to_count addr total count fuel' else mret count
  end.

(** [ssize_t rc; int count] for the part of a file, [size_t rc, count] for
    another area. *)
Definition fill_area (fuel : nat) (area : ProcMapsArea) : prog rstate unit :=
  if (0 <? a_filesize area) && name_begins_slash (a_name area) then
    count ← read_loop (λ rc, rc) s32 (a_addr area) (a_filesize area) 0 fuel;
    assert_ (count =? a_filesize area)
  else
    count ← read_loop u64 u64 (a_addr area) (a_size area) 0 fuel;
    if count =? a_size area then mret () else spin.

(** The part of [restoreMemoryArea()] after its flags are adjusted. *)
Definition restore_area (fuel : nat) (area : ProcMapsArea) : prog rstate unit :=
  if a_zero area then restore_protection area
  else
    (if negb (a_child area) then map_area area else mret ()) ;;
    if negb (a_parent area) then fill_area fuel area ;; restore_protection area else mret ().

Definition restoreMemoryArea (endOfStack : Z) (fuel : nat) : prog rstate Z :=
  h ← read_header;
  assert_ (h.1 =? sizeof_area) ;;
  let area := area_of_bytes h.2 in
  if a_addr area =? 0 then mret (-1)
  else restore_area fuel (adjust_flags endOfStack area) ;; mret 0.

Fixpoint restore_memory_data (endOfStack : Z) (fuel : nat) : prog rstate unit :=
  match fuel with
  | O => spin
  | S fuel' =>
      ret ← restoreMemoryArea endOfStack fuel;
      if ret =? -1 then mret () else restore_memory_data endOfStack fuel'
  end.

(** The part of [main()] in restart mode that restores memory.  [initialize] is
    [RestoreTarget::initialize()] of DMTCP; [restore_session_leadership()], which
    may make the process a session leader, does nothing to memory. *)
Definition restart_memory (initialize : prog rstate unit) (endOfStack : Z) (uninit : list Z) (fuel : nat) : prog rstate unit :=
  ckpt_file_pos ← reserve_memory_areas fuel;
  initialize ;;
  release_reserved_memory ckpt_file_pos uninit fuel ;;
  restore_memory_data endOfStack fuel ;;
  on_arena init_mem_arena_after_restore.
End restore.
Arguments rstate K : clear implicits.
Arguments mk_rstate {K} r_arena r_pos.
