(* ===== verification/ImageWalk.v ===== *)
(** * The walks that reserve and release memory

    What the kernel and DMTCP promise ([ImageLaws], [codec_ok]), the format of
    the image, and the first two walks of [ImageRestore] along it: they return,
    and leave the memory as it was. *)
From S2P Require Import Prelude MemArena ArenaWrappers ArenaSpec CkptMemory ImageRestore.

(** A range of whole pages in user space. *)
Definition page_range (addr len : Z) : Prop :=
  0 < addr ∧ (PAGE_SIZE | addr) ∧ 0 < len ∧ (PAGE_SIZE | len) ∧ addr + len ≤ 2 ^ 63.

(** A cell of memory has its protection and its byte; there is no byte where a
    mapping reaches past the end of its file.  The manual pages say: [mmap]
    changes nothing outside its range and gives the range the protection it asks
    for, zeros if it is anonymous and the file's pages if not; it fails on a
    range of pages only for want of memory (which a restart needs); [munmap] and
    [mprotect] work on mapped pages; [read] of a regular file into writable
    memory makes progress until the end of the file, and returns all of a
    structure, which is far smaller than its limit. *)
Class ImageLaws (K : Type) `{!Kernel K, !ImageKernel K} (mem : K → Z → option (Z * option Z)) : Prop := {
  il_kernel :: KernelLaws K (λ k x, is_Some (mem k x)) true;
  mmap_outside addr len prot flags fd off k r k' x :
    sys_mmap addr len prot flags fd off k = (inl r, k') → ¬ (r ≤ x < r + len) → mem k' x = mem k x;
  mmap_inside addr len prot flags fd off k r k' x :
    sys_mmap addr len prot flags fd off k = (inl r, k') → r ≤ x < r + len → ∃ v, mem k' x = Some (prot, v) ∧
      (has_flag flags MAP_ANONYMOUS = true → v = Some 0) ∧
      (∀ name size, sys_open name = Some (fd, size) → off + (x - r) < size → is_Some v);
  mmap_failed addr len prot flags fd off k e k' x :
    sys_mmap addr len prot flags fd off k = (inr e, k') → mem k' x = mem k x;
  mmap_fixed_ok addr len prot flags fd off k :
    has_flag flags MAP_FIXED = true → has_flag flags MAP_PRIVATE = true → page_range addr len → 0 ≤ off → (PAGE_SIZE | off) →
    has_flag flags MAP_ANONYMOUS = true ∨ (∃ name size, sys_open name = Some (fd, size)) →
    ∃ k', sys_mmap addr len prot flags fd off k = (inl addr, k');
  mmap_unmapped_ok addr len prot k :
    page_range addr len → (∀ x, addr ≤ x < addr + len → mem k x = None) →
    ∃ k', sys_mmap addr len prot (Z.lor (Z.lor MAP_PRIVATE MAP_ANONYMOUS) MAP_FIXED_NOREPLACE) 0 0 k = (inl addr, k');
  munmap_ok addr len k :
    page_range addr len → ∃ k', sys_munmap addr len k = (inl (), k');
  munmap_outside addr len k k' x :
    sys_munmap addr len k = (inl (), k') → ¬ (addr ≤ x < addr + len) → mem k' x = mem k x;
  mprotect_ok addr len prot k :
    page_range addr len → (∀ x, addr ≤ x < addr + len → is_Some (mem k x)) →
    ∃ k', sys_mprotect addr len prot k = (true, k') ∧
      ∀ x, mem k' x = if decide (addr ≤ x < addr + len) then (λ c, (prot, c.2)) <$> mem k x else mem k x;
  read_struct file pos want k :
    0 ≤ pos → 0 < want ≤ 2 ^ 20 → pos + want ≤ Z.of_nat (length file) → read_len file pos want k = want;
  read_progress file pos dest want k :
    0 ≤ pos < Z.of_nat (length file) → 0 < want →
    (∀ x, dest ≤ x < dest + want → ∃ prot b, mem k x = Some (prot, Some b) ∧ has_flag prot PROT_WRITE = true) →
    ∃ rc k', sys_read file pos dest want k = (rc, k') ∧ 1 ≤ rc ≤ want ∧ pos + rc ≤ Z.of_nat (length file) ∧
      ∀ x, mem k' x = if decide (dest ≤ x < dest + rc) then (λ c, (c.1, file !! Z.to_nat (pos + (x - dest)))) <$> mem k x else mem k x;
  open_ok name fd size : sys_open name = Some (fd, size) → 0 ≤ fd ∧ 0 ≤ size < 2 ^ 63
}.

(** DMTCP writes a header that it reads as the same area. *)
Record codec_ok (sizeof_area : Z) (area_of_bytes : list Z → ProcMapsArea) (encode : ProcMapsArea → list Z) : Prop := {
  co_size : 0 < sizeof_area ≤ 2 ^ 20;
  co_length a : Z.of_nat (length (encode a)) = sizeof_area;
  co_decode a : area_of_bytes (encode a) = a
}.

Definition in_area (a : ProcMapsArea) (x : Z) : Prop := a_addr a ≤ x < a_addr a + a_size a.
#[export] Instance in_area_dec a x : Decision (in_area a x).
Proof. unfold in_area. apply _. Defined.

(** A header with the bytes that follow it. *)
Definition record : Type := ProcMapsArea * list Z.

Definition in_tops (rs : list record) (x : Z) : Prop := ∃ r, r ∈ rs ∧ a_child r.1 = false ∧ in_area r.1 x.

Lemma in_tops_nil x : ¬ in_tops [] x.
Proof. by intros (r & []%not_elem_of_nil & _). Qed.
Lemma in_tops_cons r rs x : in_tops (r :: rs) x ↔ (a_child r.1 = false ∧ in_area r.1 x) ∨ in_tops rs x.
Proof.
  unfold in_tops. split.
  - intros (q & [->|Hq]%elem_of_cons & ? & ?); [by left|right; by exists q].
  - intros [[? ?]|(q & ? & ?)]; [exists r; split; [by left|done]|exists q; split; [by right|done]].
Qed.

(** The first two walks skip the bytes that follow. *)
Record walk_ok (r : record) : Prop := {
  wo_range : page_range (a_addr r.1) (a_size r.1);
  wo_data : Z.of_nat (length r.2) = if negb (a_zero r.1) && negb (a_parent r.1) then seek_len r.1 else 0
}.

(** Ranges that are mapped on their own do not overlap. *)
Fixpoint tops_apart (rs : list record) : Prop :=
  match rs with
  | [] => True
  | r :: rs => (a_child r.1 = false → ∀ x, in_area r.1 x → ¬ in_tops rs x) ∧ tops_apart rs
  end.

Section walks.
Context `{IL : ImageLaws K mem}.
Context (sizeof_area : Z) (area_of_bytes : list Z → ProcMapsArea) (encode : ProcMapsArea → list Z) (image : list Z).
Hypothesis Hcodec : codec_ok sizeof_area area_of_bytes encode.
Implicit Types (st : rstate K) (ar : arena (K := K)).

Abbreviation cell ar x := (mem (kern ar) x).
Abbreviation read_header := (read_header sizeof_area image).

(** The bytes of the image from the position on. *)
Definition at_ st (s : list Z) : Prop := 0 ≤ r_pos st ∧ drop (Z.to_nat (r_pos st)) image = s.

Fixpoint written (rs : list record) : list Z :=
  match rs with [] => [] | r :: rs => encode r.1 ++ r.2 ++ written rs end.

Lemma at_skip st s1 s2 pos : at_ st (s1 ++ s2) → pos = r_pos st + Z.of_nat (length s1) → at_ (st <| r_pos := pos |>) s2.
Proof.
  intros [H1 H2] ->. split; cbn; [lia|]. rewrite Z2Nat.inj_add, Nat2Z.id by lia.
  by rewrite <- drop_drop, H2, drop_app_length.
Qed.

Lemma read_header_run st a s :
  at_ st (encode a ++ s) →
  read_header st = Ok (sizeof_area, encode a) (st <| r_pos := r_pos st + sizeof_area |>) ∧ at_ (st <| r_pos := r_pos st + sizeof_area |>) s.
Proof.
  intros Hat. pose proof (co_size _ _ _ Hcodec) as Hs. pose proof (co_length _ _ _ Hcodec a) as Hl. pose proof Hat as [H1 H2]. split.
  - assert (length image - Z.to_nat (r_pos st) = length (encode a ++ s))%nat as Hlen by (rewrite <- H2; by rewrite length_drop).
    rewrite length_app in Hlen.
    unfold read_header. rewrite (read_struct image (r_pos st) sizeof_area) by lia. rewrite H2. replace (Z.to_nat sizeof_area) with (length (encode a)) by lia.
    rewrite take_app_length, Z.max_r by lia. done.
  - apply (at_skip st (encode a)); [done|lia].
Qed.

Lemma skip_data_run st r s :
  walk_ok r → at_ st (r.2 ++ s) → ∃ st', skip_data r.1 st = Ok () st' ∧ r_arena st' = r_arena st ∧ at_ st' s.
Proof.
  intros [_ Hd] Hat. unfold skip_data. destruct (negb _ && negb _).
  - eexists. split; [done|]. split; [done|]. unfold lseek_cur. cbn. apply (at_skip st r.2); [done|]. cbn. lia.
  - exists st. split; [done|]. split; [done|]. destruct r.2; [done|cbn in Hd; lia].
Qed.

(** ** Reserving *)

(** The first call of [mmap_fixed_noreplace()] finds that the kernel knows
    [MAP_FIXED_NOREPLACE]. *)
Definition probe_finds ar : Prop :=
  match probe_noreplace ar with Ok None ar' => has_map_fixed_noreplace ar' = Some true | _ => False end.

(** The lists and what is mapped are as before. *)
Record same_arena ar ar' : Prop := {
  sa_ok : arena_ok (knows := true) ar';
  sa_allocated : allocated_blocks ar' = allocated_blocks ar;
  sa_free : free_blocks ar' = free_blocks ar;
  sa_max : max_allocated_addr ar' = max_allocated_addr ar
}.
Lemma same_arena_trans a1 a2 a3 : same_arena a1 a2 → same_arena a2 a3 → same_arena a1 a3.
Proof. intros [? ? ? ?] [? ? ? ?]. split; [done|congruence|congruence|congruence]. Qed.
Lemma same_arena_lists ar ar' : arena_ok (knows := true) ar → same_lists (knows := true) ar ar' → same_arena ar ar'.
Proof. intros Hok Hl. destruct (same_lists_reserves _ _ Hok Hl) as [? ? _ _]. destruct Hl. by split. Qed.
Lemma same_arena_kern ar k : arena_ok (knows := true) ar → same_arena ar (ar <| kern := k |>).
Proof. intros [? ? ? ?]. by split. Qed.

Lemma probe_run ar :
  arena_ok (knows := true) ar → probe_finds ar →
  ∃ ar', probe_noreplace ar = Ok None ar' ∧ has_map_fixed_noreplace ar' = Some true ∧ same_arena ar ar' ∧ ∀ x, cell ar' x = cell ar x.
Proof.
  intros Hok Hp. pose proof (probe_noreplace_spec (mapped := λ k x, is_Some (mem k x)) ar Hok) as Hs. unfold probe_finds in Hp.
  destruct (probe_noreplace ar) as [[e|] ar'| |] eqn:E; try done. exists ar'. split; [done|]. split; [done|]. destruct Hs as [Hl Hm].
  split; [by apply same_arena_lists|]. intros x. unfold probe_noreplace in E.
  cbv beta iota delta [mbind prog_bind mret prog_ret get_state modify abort sys] in E.
  destruct (has_map_fixed_noreplace ar) eqn:Eh; [by injection E as <-|].
  destruct (sys_mmap 0 _ 0 _ _ _ (kern ar)) as [[a|e] k1] eqn:E1; [|done]. cbn [kern set_field] in E.
  destruct (sys_mmap a _ 0 _ _ _ k1) as [[a2|e2] k2] eqn:E2; [done|]. cbn [kern set_field] in E.
  destruct (sys_munmap a PAGE_SIZE k2) as [[[]|e3] k3] eqn:E3; [|done]. injection E as <-. cbn [kern set_field].
  destruct (mmap_free (mapped := λ k x, is_Some (mem k x)) _ _ _ (Z.lor MAP_PRIVATE MAP_ANONYMOUS) _ _ _ _ _ eq_refl E1) as [Hf _].
  destruct (decide (a ≤ x < a + PAGE_SIZE)) as [Hx|Hx].
  - specialize (Hf x Hx). destruct (munmap_range (mapped := λ k x, is_Some (mem k x)) _ _ _ _ E3) as (_ & _ & _ & Hm3).
    transitivity (@None (Z * option Z)); [|symmetry]; apply eq_None_not_Some; [|done]. intros [_ []]%Hm3. done.
  - rewrite (munmap_outside _ _ _ _ _ E3 Hx), (mmap_failed _ _ _ _ _ _ _ _ _ _ E2). by apply (mmap_outside _ _ _ _ _ _ _ _ _ _ E1).
Qed.

Lemma noreplace_run ar addr len :
  arena_ok (knows := true) ar → probe_finds ar → page_range addr len → (∀ x, addr ≤ x < addr + len → cell ar x = None) →
  ∃ ar', mmap_fixed_noreplace addr len PROT_NONE (Z.lor MAP_PRIVATE MAP_ANONYMOUS) 0 0 ar = Ok (inl addr) ar' ∧
    same_arena ar ar' ∧ probe_finds ar' ∧ (∀ x, ¬ (addr ≤ x < addr + len) → cell ar' x = cell ar x) ∧
    ∀ x, addr ≤ x < addr + len → ∃ v, cell ar' x = Some (PROT_NONE, v).
Proof.
  intros Hok Hp Hr Hfree. destruct (probe_run ar Hok Hp) as (ar1 & E & Hh & Hs & Hm).
  destruct (mmap_unmapped_ok addr len PROT_NONE (kern ar1)) as (k & Ek); [done|intros x Hx; rewrite Hm; by apply Hfree|].
  exists (ar1 <| kern := k |>). split.
  { unfold mmap_fixed_noreplace. rewrite (prog_bind_ok _ _ _ _ _ E). change (has_flag (Z.lor MAP_PRIVATE MAP_ANONYMOUS) MAP_FIXED) with false.
    cbv beta iota delta [mbind prog_bind get_state]. rewrite Hh. change (default false (Some true)) with true. cbv beta iota zeta delta [sys]. by rewrite Ek. }
  split; [eapply same_arena_trans; [exact Hs|]; apply same_arena_kern, Hs|]. split_and!.
  - unfold probe_finds, probe_noreplace. prog_red. unfold set_field. cbn. by rewrite Hh.
  - intros x Hx. cbn. rewrite (mmap_outside _ _ _ _ _ _ _ _ _ _ Ek Hx). apply Hm.
  - intros x Hx. cbn. destruct (mmap_inside _ _ _ _ _ _ _ _ _ _ Ek Hx) as (v & Hv & _). by exists v.
Qed.

Lemma reserve_run p term tl rs : ∀ fuel st,
  a_addr term = 0 → (length rs < fuel)%nat → at_ st (written rs ++ encode term ++ tl) →
  arena_ok (knows := true) (r_arena st) → probe_finds (r_arena st) → Forall walk_ok rs → tops_apart rs →
  (∀ x, in_tops rs x → cell (r_arena st) x = None) →
  ∃ ar', reserve_loop sizeof_area area_of_bytes image p fuel st = Ok () (mk_rstate ar' p) ∧
    same_arena (r_arena st) ar' ∧ (∀ x, ¬ in_tops rs x → cell ar' x = cell (r_arena st) x) ∧
    ∀ x, in_tops rs x → ∃ v, cell ar' x = Some (PROT_NONE, v).
Proof.
  intros fuel st Ht. revert fuel st. induction rs as [|r rs IH]; intros [|fuel] st Hf Hat Hok Hp Hw Hap Hfree; cbn in Hf; try lia; cbn [reserve_loop].
  - destruct (read_header_run st term tl Hat) as [E _]. rewrite (prog_bind_ok _ _ _ _ _ E). cbn [fst snd].
    rewrite Z.eqb_refl, (co_decode _ _ _ Hcodec), Ht. cbn. eexists. split; [done|]. split; [by split|]. split; [done|]. by intros x []%in_tops_nil.
  - cbn [written] in Hat. rewrite <- !app_assoc in Hat. destruct (read_header_run st r.1 _ Hat) as [E Hat1].
    rewrite (prog_bind_ok _ _ _ _ _ E). cbn [fst snd]. rewrite Z.eqb_refl, (co_decode _ _ _ Hcodec).
    apply Forall_cons in Hw as [Hw1 Hw]. destruct Hap as [Hap1 Hap]. pose proof (wo_range _ Hw1) as Hr.
    cbv zeta. destruct (Z.eqb_spec (a_addr r.1) 0) as [E0|_]; [unfold page_range in Hr; lia|].
    set (st1 := st <| r_pos := r_pos st + sizeof_area |>) in *.
    assert (∃ ar2, (if negb (a_child r.1) then mmapedat ← on_arena (mmap_fixed_noreplace (a_addr r.1) (a_size r.1) PROT_NONE (Z.lor MAP_PRIVATE MAP_ANONYMOUS) 0 0);
        match mmapedat with inl _ => mret () | inr _ => spin end else mret ()) st1 = Ok () (st1 <| r_arena := ar2 |>) ∧
      same_arena (r_arena st) ar2 ∧ probe_finds ar2 ∧ (∀ x, ¬ (a_child r.1 = false ∧ in_area r.1 x) → cell ar2 x = cell (r_arena st) x) ∧
      ∀ x, a_child r.1 = false → in_area r.1 x → ∃ v, cell ar2 x = Some (PROT_NONE, v))
      as (ar2 & E2 & Hs2 & Hp2 & Hm2 & Hn2).
    { destruct (a_child r.1) eqn:Ec; cbn [negb]; [exists (r_arena st); by destruct Hok|].
      destruct (noreplace_run (r_arena st) (a_addr r.1) (a_size r.1)) as (ar2 & E2 & ? & ? & Hm & Hn); [done|done|done| |].
      { intros x Hx. apply Hfree, in_tops_cons. by left. }
      exists ar2. split; [unfold on_arena; prog_red; unfold st1; unfold set_field; cbn; by rewrite E2|]. do 2 (split; [done|]). split; [intros x Hx; apply Hm; unfold in_area in Hx; tauto|]. intros x _ Hx. by apply Hn. }
    rewrite (prog_bind_ok (assert_ true) _ st1 () st1 eq_refl), (prog_bind_ok _ _ _ _ _ E2).
    destruct (skip_data_run (st1 <| r_arena := ar2 |>) r (written rs ++ encode term ++ tl) Hw1) as (st3 & E3 & Ha3 & Hat3); [exact Hat1|]. rewrite (prog_bind_ok _ _ _ _ _ E3). cbn in Ha3.
    destruct (IH fuel st3) as (ar' & E4 & Hs4 & Hm4 & Hn4); [lia|done|rewrite Ha3; apply Hs2|by rewrite Ha3|done|done| |].
    { intros x Hx. rewrite Ha3, Hm2; [apply Hfree, in_tops_cons; by right|]. intros [Hc Hin]. by apply (Hap1 Hc x). }
    rewrite E4. exists ar'. split; [done|]. rewrite Ha3 in Hs4, Hm4. split; [by eapply same_arena_trans|].
    split.
    + intros x Hx. rewrite in_tops_cons in Hx. rewrite Hm4, Hm2; [done|tauto|tauto].
    + intros x [[Hc Hin]|Hx]%in_tops_cons; [|by apply Hn4]. rewrite Hm4 by (by apply Hap1). by apply Hn2.
Qed.
(** A range in which something is mapped stops the first walk for good. *)
Lemma reserve_collision p term tl rs x : ∀ fuel st,
  at_ st (written rs ++ encode term ++ tl) → arena_ok (knows := true) (r_arena st) → Forall walk_ok rs →
  in_tops rs x → is_Some (cell (r_arena st) x) →
  ∀ st', reserve_loop sizeof_area area_of_bytes image p fuel st ≠ Ok () st'.
Proof.
  induction rs as [|r rs IH]; intros fuel st Hat Hok Hw Hx Hm st' Hrun; [by apply in_tops_nil in Hx|].
  destruct fuel as [|fuel]; [done|]. cbn [reserve_loop written] in Hat, Hrun. rewrite <- !app_assoc in Hat.
  destruct (read_header_run st r.1 _ Hat) as [E Hat1].
  rewrite (prog_bind_ok _ _ _ _ _ E) in Hrun. cbn [fst snd] in Hrun. rewrite Z.eqb_refl, (co_decode _ _ _ Hcodec) in Hrun. cbv zeta in Hrun.
  apply Forall_cons in Hw as [Hw1 Hw]. pose proof (wo_range _ Hw1) as Hr.
  destruct (Z.eqb_spec (a_addr r.1) 0) as [E0|_]; [unfold page_range in Hr; lia|].
  set (st1 := st <| r_pos := r_pos st + sizeof_area |>) in *.
  rewrite (prog_bind_ok (assert_ true) _ st1 () st1 eq_refl) in Hrun. prog_inv Hrun.
  assert (∃ ar2, s = st1 <| r_arena := ar2 |> ∧ arena_ok (knows := true) ar2 ∧ is_Some (cell ar2 x) ∧ (a_child r.1 = false → ¬ in_area r.1 x)) as (ar2 & -> & Hok2 & Hm2 & Hnot).
  { destruct (a_child r.1); cbn [negb] in E0; [injection E0 as <- <-; by exists (r_arena st)|]. unfold on_arena in E0. prog_red in E0.
    change (r_arena st1) with (r_arena st) in E0.
    pose proof (mmap_fixed_noreplace_spec (mapped := λ k x, is_Some (mem k x)) (a_addr r.1) (a_size r.1) PROT_NONE (Z.lor MAP_PRIVATE MAP_ANONYMOUS) 0 0 _ Hok) as Hs.
    destruct (mmap_fixed_noreplace _ _ _ _ _ _ (r_arena st)) as [[q|e] ar2| |]; try done. injection E0 as <- <-.
    destruct Hs as (-> & _ & _ & _ & Hl & Hnew & Hall). exists ar2. split; [done|].
    split; [by destruct (same_arena_lists _ _ Hok Hl)|]. split; [apply Hall; by left|]. intros _ Hin. by apply (Hnew x). }
  destruct (skip_data_run (st1 <| r_arena := ar2 |>) r (written rs ++ encode term ++ tl) Hw1) as (st3 & E3 & Ha3 & Hat3); [exact Hat1|].
  rewrite (prog_bind_ok _ _ _ _ _ E3) in Hrun. cbn in Ha3.
  apply (IH fuel st3 Hat3) with st'; [by rewrite Ha3|done| |by rewrite Ha3|done].
  apply in_tops_cons in Hx as [[Hc Hin]|?]; [by destruct (Hnot Hc)|done].
Qed.

(** ** Releasing *)

Lemma release_walk_run p term tl rs : ∀ buf fuel st,
  a_addr term = 0 → Z.of_nat (length buf) = sizeof_area → (length rs < fuel)%nat → at_ st (written rs ++ encode term ++ tl) →
  arena_ok (knows := true) (r_arena st) → Forall walk_ok rs →
  ∃ ar', release_loop sizeof_area area_of_bytes image p buf fuel st = Ok () (mk_rstate ar' p) ∧
    same_arena (r_arena st) ar' ∧ (∀ x, in_tops rs x → cell ar' x = None) ∧
    (∀ x, ¬ in_tops rs x → cell ar' x = cell (r_arena st) x) ∧ (∀ x, cell (r_arena st) x = None → cell ar' x = None).
Proof.
  intros buf fuel st Ht. revert buf fuel st. pose proof (co_size _ _ _ Hcodec) as Hsz.
  assert (∀ buf a, Z.of_nat (length buf) = sizeof_area → encode a ++ drop (length (encode a)) buf = encode a) as Hover.
  { intros buf a Hb. rewrite drop_ge, app_nil_r; [done|]. pose proof (co_length _ _ _ Hcodec a). lia. }
  induction rs as [|r rs IH]; intros buf [|fuel] st Hb Hf Hat Hok Hw; cbn in Hf; try lia; cbn [release_loop].
  - destruct (read_header_run st term tl Hat) as [E _]. rewrite (prog_bind_ok _ _ _ _ _ E). cbn [fst snd].
    rewrite (Hover buf term Hb), (proj2 (Z.ltb_lt 0 sizeof_area)), (co_decode _ _ _ Hcodec), Ht by lia. cbn. eexists. split; [done|].
    split; [by split|]. split; [intros x []%in_tops_nil|done].
  - cbn [written] in Hat. rewrite <- !app_assoc in Hat. destruct (read_header_run st r.1 _ Hat) as [E Hat1].
    rewrite (prog_bind_ok _ _ _ _ _ E). cbn [fst snd].
    rewrite (Hover buf r.1 Hb), (proj2 (Z.ltb_lt 0 sizeof_area)), (co_decode _ _ _ Hcodec) by lia. cbv zeta.
    apply Forall_cons in Hw as [Hw1 Hw]. pose proof (wo_range _ Hw1) as Hr.
    destruct (Z.eqb_spec (a_addr r.1) 0) as [E0|_]; [unfold page_range in Hr; lia|].
    set (st1 := st <| r_pos := r_pos st + sizeof_area |>) in *.
    assert (∃ k, (if negb (a_child r.1) then on_arena (sys (sys_munmap (a_addr r.1) (a_size r.1))) ;; mret () else mret ()) st1 =
        Ok () (st1 <| r_arena := (r_arena st) <| kern := k |> |>) ∧
      (a_child r.1 = false → ∀ x, in_area r.1 x → mem k x = None) ∧
      (∀ x, ¬ (a_child r.1 = false ∧ in_area r.1 x) → mem k x = cell (r_arena st) x)) as (k & E2 & Hin & Hout).
    { destruct (a_child r.1); cbn [negb]; [exists (kern (r_arena st)); split; [by destruct st as [[] ?]|done]|].
      destruct (munmap_ok _ _ (kern (r_arena st)) Hr) as (k & Ek). exists k. split; [unfold on_arena, sys; prog_red; unfold st1, set_field; cbn; by rewrite Ek|]. split.
      - intros _ x Hx. destruct (munmap_range (mapped := λ k x, is_Some (mem k x)) _ _ _ _ Ek) as (_ & _ & _ & Hm).
        apply eq_None_not_Some. rewrite Hm. unfold in_area in Hx. tauto.
      - intros x Hx. apply (munmap_outside _ _ _ _ _ Ek). unfold in_area in Hx. tauto. }
    rewrite (prog_bind_ok (assert_ true) _ st1 () st1 eq_refl), (prog_bind_ok _ _ _ _ _ E2).
    destruct (skip_data_run (st1 <| r_arena := (r_arena st) <| kern := k |> |>) r (written rs ++ encode term ++ tl) Hw1) as (st3 & E3 & Ha3 & Hat3); [exact Hat1|].
    rewrite (prog_bind_ok _ _ _ _ _ E3). cbn in Ha3. pose proof (same_arena_kern _ k Hok) as Hs.
    destruct (IH (encode r.1) fuel st3) as (ar' & E4 & Hs4 & Hm4 & Hn4 & Hp4); [apply (co_length _ _ _ Hcodec)|lia|done|rewrite Ha3; apply Hs|done|].
    rewrite E4. exists ar'. rewrite Ha3 in *. cbn in *. split; [done|]. split; [by eapply same_arena_trans|].
    assert (∀ x, cell (r_arena st) x = None → mem k x = None) as Hk.
    { intros x Hx. destruct (a_child r.1) eqn:Ec; [rewrite Hout; [done|by intros [? _]]|]. destruct (decide (in_area r.1 x)); [by apply Hin|]. rewrite Hout; [done|tauto]. }
    split; [|split].
    + intros x [[Hc Hx]|Hx]%in_tops_cons; [|by apply Hm4]. by apply Hp4, Hin.
    + intros x Hx. rewrite in_tops_cons in Hx. rewrite Hn4, Hout; [done|tauto|tauto].
    + intros x Hx. by apply Hp4, Hk.
Qed.
End walks.
