(* ===== verification/ImageRegions.v ===== *)
(** * Restoring one area

    The format of an image's areas, and [restoreMemoryArea()] on each kind of
    header: it maps, fills and protects the area, and changes nothing else. *)
From S2P Require Import Prelude MemArena ArenaWrappers ArenaSpec CkptMemory ImageRestore ImageWalk.

(** ** Flags *)

Lemma has_flag_lor a b f : has_flag (Z.lor a b) f = has_flag a f || has_flag b f.
Proof.
  unfold has_flag. rewrite Z.land_lor_distr_l, <- negb_andb. f_equal. apply eq_true_iff_eq.
  rewrite andb_true_iff, !Z.eqb_eq. apply Z.lor_eq_0_iff.
Qed.
Lemma lor_has_write p : has_flag p PROT_WRITE = true → Z.lor p PROT_WRITE = p.
Proof.
  intros Hp. change PROT_WRITE with (2 ^ 1) in *. rewrite flag_bit in Hp by lia. apply Z.bits_inj'. intros i Hi.
  rewrite Z.lor_spec, Z.pow2_bits_eqb by lia. destruct (Z.eqb_spec 1 i) as [<-|]; [by rewrite Hp|apply orb_false_r].
Qed.

(** A page range is not rounded. *)
Lemma round_up_pages addr len : page_range addr len → ROUND_UP len PAGE_SIZE = len.
Proof.
  intros (? & _ & ? & [q ->] & ?). change PAGE_SIZE with (2 ^ 12) in *. rewrite ROUND_UP_pow2 by lia.
  replace (q * 2 ^ 12 + 2 ^ 12 - 1) with (2 ^ 12 - 1 + q * 2 ^ 12) by lia. rewrite Z.div_add by lia. by rewrite (Z.div_small (2 ^ 12 - 1)) by lia.
Qed.

(** ** The format *)

(** A part of the saved memory: its bytes, or zeros. *)
Record piece := mk_piece { p_area : ProcMapsArea; p_data : option (list Z) }.
(** An area with its bytes, or a parent header with the pieces of its range. *)
Inductive region :=
  | Whole (a : ProcMapsArea) (d : list Z)
  | Split (a : ProcMapsArea) (cs : list piece).

Definition region_area (r : region) : ProcMapsArea := match r with Whole a _ | Split a _ => a end.
Definition pieces_of (r : region) : list piece := match r with Whole a d => [mk_piece a (Some d)] | Split _ cs => cs end.
Definition piece_record (p : piece) : record := (p_area p, default [] (p_data p)).
Definition records_of (r : region) : list record :=
  match r with Whole a d => [(a, d)] | Split a cs => (a, []) :: map piece_record cs end.

(** The byte that the image has for an address of a piece. *)
Definition byte_of (p : piece) (x : Z) : option Z :=
  match p_data p with None => Some 0 | Some d => d !! Z.to_nat (x - a_addr (p_area p)) end.

Record area_ok (a : ProcMapsArea) : Prop := {
  ak_range : page_range (a_addr a) (a_size a);
  ak_offset : 0 ≤ a_offset a;
  ak_aligned : (PAGE_SIZE | a_offset a);
  ak_bound : a_size a + a_offset a < 2 ^ 63;
  ak_sharing : has_flag (a_flags a) MAP_PRIVATE = true ∨ has_flag (a_flags a) MAP_SHARED = true
}.

(** The children of a parent header follow each other from [s] to [e]. *)
Fixpoint tiles (s : Z) (cs : list piece) (e : Z) : Prop :=
  match cs with
  | [] => s = e
  | c :: cs => a_addr (p_area c) = s ∧ tiles (s + a_size (p_area c)) cs e
  end.

Record child_ok (parent : ProcMapsArea) (c : piece) : Prop := {
  ck_area : area_ok (p_area c);
  ck_child : a_child (p_area c) = true;
  ck_parent : a_parent (p_area c) = false;
  ck_prot : a_prot (p_area c) = a_prot parent;
  ck_filesize : a_filesize (p_area c) = 0;
  ck_data : match p_data c with None => a_zero (p_area c) = true | Some d => a_zero (p_area c) = false ∧ Z.of_nat (length d) = a_size (p_area c) end
}.

Section regions.
Context `{IL : ImageLaws K mem}.

(** What DMTCP writes.  For the part of a file that an area maps, the image has
    [mmapFileSize] bytes, which [int] holds; the file of an area that is not
    writable has not shrunk since. *)
Definition region_ok (r : region) : Prop :=
  match r with
  | Whole a d => area_ok a ∧ a_zero a = false ∧ a_parent a = false ∧ a_child a = false ∧ Z.of_nat (length d) = seek_len a ∧
      (0 < a_filesize a → name_begins_slash (a_name a) = negb (has_flag (a_flags a) MAP_ANONYMOUS) ∧ a_filesize a ≤ a_size a ∧ a_filesize a < 2 ^ 31) ∧
      (name_begins_slash (a_name a) = true → has_flag (a_flags a) MAP_ANONYMOUS = false → has_flag (a_prot a) PROT_WRITE = false →
        ∀ fd size, sys_open (a_name a) = Some (fd, size) → a_offset a + Z.of_nat (length d) ≤ size)
  | Split a cs => area_ok a ∧ a_zero a = false ∧ a_parent a = true ∧ a_child a = false ∧ name_begins_slash (a_name a) = false ∧
      tiles (a_addr a) cs (a_addr a + a_size a) ∧ Forall (child_ok a) cs
  end.

Lemma region_area_ok r : region_ok r → area_ok (region_area r).
Proof. destruct r; by intros [? _]. Qed.

Lemma region_walk_ok r : region_ok r → Forall walk_ok (records_of r).
Proof.
  destruct r as [a d|a cs]; cbn.
  - intros (Ha & Hz & Hp & Hc & Hd & _). apply Forall_singleton. split; cbn; [apply Ha|]. by rewrite Hz, Hp.
  - intros (Ha & Hz & Hp & Hc & _ & _ & Hcs). apply Forall_cons. split; [split; cbn; [apply Ha|by rewrite Hp, andb_false_r]|].
    apply Forall_forall. intros q (c & -> & Hin)%list_elem_of_fmap. rewrite Forall_forall in Hcs. destruct (Hcs c Hin) as [Hca _ Hcp _ Hf Hd].
    split; cbn; [apply Hca|]. rewrite Hcp. destruct (p_data c) as [d|].
    + destruct Hd as [Hd1 Hd2]. unfold seek_len. rewrite Hd1, Hf. cbn. by rewrite andb_false_r.
    + by rewrite Hd.
Qed.

Lemma region_tops r x : region_ok r → in_tops (records_of r) x ↔ in_area (region_area r) x.
Proof.
  destruct r as [a d|a cs]; cbn; intros Hr; rewrite in_tops_cons; cbn.
  - destruct Hr as (_ & _ & _ & Hc & _). split; [intros [[_ ?]|[]%in_tops_nil]; done|by left].
  - destruct Hr as (_ & _ & _ & Hc & _ & _ & Hcs). split; [|by left]. intros [[_ ?]|(q & (c & -> & Hin)%list_elem_of_fmap & Hq & _)]; [done|].
    rewrite Forall_forall in Hcs. destruct (Hcs c Hin) as [_ Hch _ _ _ _]. cbn in Hq. congruence.
Qed.

Context (sizeof_area : Z) (area_of_bytes : list Z → ProcMapsArea) (encode : ProcMapsArea → list Z) (image : list Z) (endOfStack : Z).
Hypothesis Hcodec : codec_ok sizeof_area area_of_bytes encode.
Implicit Types (st : rstate K) (ar : arena (K := K)).
Abbreviation cell ar x := (mem (kern ar) x).
Abbreviation at_ := (at_ image).

(** Only the kernel and the position change. *)
Definition with_kern st (k : K) (pos : Z) : rstate K := mk_rstate ((r_arena st) <| kern := k |>) pos.

(** [adjust_flags] changes the flags only, and makes the area private. *)
Lemma adjust_fields a :
  let b := adjust_flags endOfStack a in
  a_addr b = a_addr a ∧ a_size b = a_size a ∧ a_prot b = a_prot a ∧ a_offset b = a_offset a ∧ a_filesize b = a_filesize a ∧
  a_zero b = a_zero a ∧ a_parent b = a_parent a ∧ a_child b = a_child a ∧ a_name b = a_name a.
Proof. unfold adjust_flags, set_field. cbv zeta. by repeat case_match. Qed.

Lemma adjust_private a : area_ok a → has_flag (a_flags (adjust_flags endOfStack a)) MAP_PRIVATE = true ∧
  (has_flag (a_flags a) MAP_ANONYMOUS = true → has_flag (a_flags (adjust_flags endOfStack a)) MAP_ANONYMOUS = true).
Proof.
  intros [_ _ _ _ Hs]. unfold adjust_flags. set (b := if _ || _ then _ else _).
  assert (has_flag (a_flags b) MAP_SHARED = has_flag (a_flags a) MAP_SHARED ∧ has_flag (a_flags b) MAP_PRIVATE = has_flag (a_flags a) MAP_PRIVATE ∧
    has_flag (a_flags b) MAP_ANONYMOUS = has_flag (a_flags a) MAP_ANONYMOUS) as (E1 & E2 & E3).
  { unfold b. destruct (_ || _); [|done]. unfold set_field. cbn [a_flags]. rewrite !has_flag_lor. cbn. by rewrite !orb_false_r. }
  cbv zeta. rewrite E1. destruct (has_flag (a_flags a) MAP_SHARED) eqn:Es.
  - unfold set_field. cbn [a_flags]. rewrite !has_flag_lor. cbn. by rewrite !orb_true_r.
  - rewrite E2, E3. destruct Hs; done.
Qed.
(** ** Mapping *)

(** What [open_image] gives [restore_mmap]: an anonymous mapping, or a file. *)
Lemma open_image_run st a n :
  area_ok a → n ≤ a_size a →
  (name_begins_slash (a_name a) = true → has_flag (a_flags a) MAP_ANONYMOUS = false → has_flag (a_prot a) PROT_WRITE = false →
    ∀ fd size, sys_open (a_name a) = Some (fd, size) → a_offset a + n ≤ size) →
  ∃ fd off flags, open_image a st = Ok (fd, a <| a_offset := off |> <| a_flags := flags |>) st ∧ 0 ≤ off ∧ (PAGE_SIZE | off) ∧
    (has_flag (a_flags a) MAP_PRIVATE = true → has_flag flags MAP_PRIVATE = true) ∧
    (has_flag (a_flags a) MAP_ANONYMOUS = true → has_flag flags MAP_ANONYMOUS = true) ∧
    (name_begins_slash (a_name a) = false → fd = -1) ∧
    (fd = -1 ∨ ∃ size, sys_open (a_name a) = Some (fd, size) ∧ (has_flag flags MAP_ANONYMOUS = false → off + n ≤ size)).
Proof.
  intros Ha Hn Hfile. pose proof (ak_range _ Ha) as (? & _ & ? & _ & ?). pose proof (ak_offset _ Ha). pose proof (ak_bound _ Ha). pose proof (ak_aligned _ Ha).
  assert (∀ st, Ok (-1, a) st = Ok (-1, a <| a_offset := a_offset a |> <| a_flags := a_flags a |>) st) as Hsame by (by destruct a).
  unfold open_image. destruct (name_begins_slash (a_name a)) eqn:Es.
  2:{ exists (-1), (a_offset a), (a_flags a). split; [apply Hsame|]. do 5 (split; [done|]). by left. }
  destruct (sys_open (a_name a)) as [[fd size]|] eqn:Eo.
  2:{ exists (-1), (a_offset a), (a_flags a). split; [apply Hsame|]. do 5 (split; [done|]). by left. }
  destruct (open_ok _ _ _ Eo) as [Hfd Hsz]. destruct (Z.eqb_spec size (-1)); [lia|]. cbn [negb].
  rewrite (prog_bind_ok (assert_ true) _ st () st eq_refl), !u64_small by lia.
  destruct (Z.ltb_spec size (a_size a + a_offset a)) as [Hlt|Hge]; cbn [andb]; [destruct (has_flag (a_prot a) PROT_WRITE) eqn:Ew|].
  - exists (-1), 0, (Z.lor (a_flags a) MAP_ANONYMOUS). split; [done|]. split; [done|]. split; [apply Z.divide_0_r|].
    rewrite !has_flag_lor. split; [by intros ->|]. split; [by intros ->|]. split; [done|by left].
  - exists fd, (a_offset a), (a_flags a). split; [by destruct a|]. do 4 (split; [done|]). split; [done|]. right. exists size. split; [done|]. intros Han. by eapply Hfile.
  - exists fd, (a_offset a), (a_flags a). split; [by destruct a|]. do 4 (split; [done|]). split; [done|]. right. exists size. split; [done|]. lia.
Qed.

Lemma restore_mmap_run ar addr len prot flags fd off :
  ArenaSpec.arena_ok (knows := true) ar → page_range addr len → 0 ≤ off → (PAGE_SIZE | off) → has_flag flags MAP_PRIVATE = true →
  has_flag flags MAP_ANONYMOUS = true ∨ (∃ name size, sys_open name = Some (fd, size)) →
  ∃ ar', restore_mmap addr len prot flags fd off ar = Ok (inl addr) ar' ∧ ArenaSpec.arena_ok (knows := true) ar' ∧
    (∀ x, covers (allocated_blocks ar') x ↔ covers (allocated_blocks ar) x ∨ addr ≤ x < addr + len) ∧
    max_allocated_addr ar' = Z.max (max_allocated_addr ar) (addr + len) ∧
    (∀ x, ¬ (addr ≤ x < addr + len) → cell ar' x = cell ar x) ∧
    (∀ x, addr ≤ x < addr + len → ∃ v, cell ar' x = Some (prot, v) ∧ (has_flag flags MAP_ANONYMOUS = true → v = Some 0) ∧
      (∀ name size, sys_open name = Some (fd, size) → off + (x - addr) < size → is_Some v)).
Proof.
  intros Hok Hr Ho Hal Hp Hfd. unfold restore_mmap. rewrite (round_up_pages _ _ Hr).
  set (ar1 := ar <| max_allocated_addr ::= λ m, if m <? addr + len then addr + len else m |>).
  rewrite (prog_bind_ok (raise_max (addr + len)) _ ar () ar1 eq_refl).
  destruct (mmap_fixed_ok addr len prot (Z.lor flags MAP_FIXED) fd off (kern ar1)) as (k & Ek); [|by rewrite has_flag_lor, Hp|done|done|done| |].
  { rewrite has_flag_lor. by rewrite orb_true_r. }
  { destruct Hfd as [Ha|?]; [left; by rewrite has_flag_lor, Ha|by right]. }
  set (ar2 := ar1 <| kern := k |>).
  rewrite (prog_bind_ok (sys _) _ ar1 (inl addr) ar2) by (unfold sys; by rewrite Ek).
  destruct (record_mapping (knows := true) ar2 (mk_block addr len)) as (ar3 & E3 & Hok3 & Hc & _ & Hk).
  { destruct Hok. by split. }
  { unfold page_range in Hr. split; cbn; lia. }
  { unfold page_range in Hr. unfold b_end. cbn. lia. }
  assert (max_allocated_addr ar3 = max_allocated_addr ar1) as Hmax.
  { unfold merge_allocated, remove_free in E3. prog_red in E3. destruct (remove_overlap_blocks _ _); [by injection E3 as <-|done]. }
  exists ar3. split; [rewrite <- prog_bind_assoc; by rewrite (prog_bind_ok _ _ _ _ _ E3)|].
  split; [done|]. split; [intros x; apply Hc|]. rewrite Hmax, Hk. cbn.
  split; [destruct (Z.ltb_spec (max_allocated_addr ar) (addr + len)); lia|].
  split; [intros x Hx; by apply (mmap_outside _ _ _ _ _ _ _ _ _ _ Ek)|].
  intros x Hx. destruct (mmap_inside _ _ _ _ _ _ _ _ _ _ Ek Hx) as (v & Hv & Hz & Hb). exists v. split; [done|].
  split; [|done]. intros Ha. apply Hz. by rewrite has_flag_lor, Ha.
Qed.

(** The lists and the memory gain an area. *)
Record grown ar ar' (a : ProcMapsArea) : Prop := {
  gr_ok : ArenaSpec.arena_ok (knows := true) ar';
  gr_covers x : covers (allocated_blocks ar') x ↔ covers (allocated_blocks ar) x ∨ in_area a x;
  gr_max : max_allocated_addr ar' = Z.max (max_allocated_addr ar) (a_addr a + a_size a);
  gr_outside x : ¬ in_area a x → cell ar' x = cell ar x
}.

(** An area that was mapped and has yet to be filled: it is writable. *)
Definition mapped_as ar ar' (a : ProcMapsArea) (n : Z) : Prop :=
  grown ar ar' a ∧
  (∀ x, in_area a x → ∃ v, cell ar' x = Some (Z.lor (a_prot a) PROT_WRITE, v) ∧
    (x < a_addr a + n → is_Some v) ∧ (name_begins_slash (a_name a) = false → v = Some 0)).

Lemma map_area_run st a n :
  ArenaSpec.arena_ok (knows := true) (r_arena st) → area_ok a → n ≤ a_size a →
  (name_begins_slash (a_name a) = true → has_flag (a_flags a) MAP_ANONYMOUS = false → has_flag (a_prot a) PROT_WRITE = false →
    ∀ fd size, sys_open (a_name a) = Some (fd, size) → a_offset a + n ≤ size) →
  ∃ ar', map_area (adjust_flags endOfStack a) st = Ok () (st <| r_arena := ar' |>) ∧ mapped_as (r_arena st) ar' a n.
Proof.
  intros Hok Ha Hn Hfile. destruct (adjust_fields a) as (E1 & E2 & E3 & E4 & E5 & _ & _ & _ & E9). destruct (adjust_private a Ha) as [Hpr Han].
  set (b := adjust_flags endOfStack a) in *.
  destruct (open_image_run st b n) as (fd & off & flags & Eo & Ho1 & Ho2 & Hp & Hz & Hs & Hfd).
  { destruct Ha. by split; rewrite ?E1, ?E2, ?E4; [| | | |left]. }
  { by rewrite E2. }
  { rewrite E3, E4, E9. intros Hsl Hb. apply Hfile; [done|]. destruct (has_flag (a_flags a) MAP_ANONYMOUS); [by rewrite Han in Hb|done]. }
  unfold map_area. rewrite (prog_bind_ok _ _ _ _ _ Eo). unfold set_field. cbn [a_flags a_prot a_addr a_size a_offset].
  set (fl := if (fd =? -1) && _ then _ else _). set (fl' := if negb _ then _ else _).
  assert (has_flag fl' MAP_PRIVATE = true ∧ has_flag fl' MAP_ANONYMOUS = has_flag fl MAP_ANONYMOUS ∧
    (has_flag flags MAP_ANONYMOUS = true → has_flag fl MAP_ANONYMOUS = true) ∧ (fd = -1 → has_flag fl MAP_ANONYMOUS = true)) as (F1 & F2 & F3 & F4).
  { specialize (Hp Hpr). assert (has_flag fl MAP_PRIVATE = true) as Hfl by (unfold fl; destruct (_ && _); [by rewrite has_flag_lor, Hp|done]).
    split; [unfold fl'; destruct (negb _); [by rewrite has_flag_lor, Hfl|done]|].
    split; [unfold fl'; destruct (negb _); [rewrite has_flag_lor; apply orb_false_r|done]|].
    split; [unfold fl; destruct (_ && _); [by rewrite has_flag_lor, orb_true_r|done]|].
    intros ->. unfold fl. rewrite Hp. cbn. by rewrite has_flag_lor, orb_true_r. }
  destruct (restore_mmap_run (r_arena st) (a_addr b) (a_size b) (Z.lor (a_prot b) PROT_WRITE) fl' fd off) as (ar' & Er & H1 & H2 & H3 & H5 & H6); [done| |done|done|done| |].
  { rewrite E1, E2. apply Ha. }
  { rewrite F2. destruct Hfd as [->|(size & Eopen & _)]; [left; by apply F4|right; eauto]. }
  exists ar'. split.
  { rewrite (prog_bind_ok (on_arena _) _ st (inl (a_addr b)) (st <| r_arena := ar' |>)) by (unfold on_arena; by rewrite Er). by rewrite Z.eqb_refl. }
  rewrite E1, E2, E3 in *. split; [by split|]. intros x Hx. destruct (H6 x Hx) as (v & Hv & Hv0 & Hvb).
  rewrite F2 in Hv0. exists v. split; [done|]. split.
  - intros Hxn. destruct Hfd as [->|(size & Eopen & Hsize)]; [by rewrite Hv0 by auto|].
    destruct (has_flag flags MAP_ANONYMOUS); [by rewrite Hv0 by auto|]. apply (Hvb _ _ Eopen). specialize (Hsize eq_refl). lia.
  - intros Hsl. apply Hv0, F4, Hs. by rewrite E9.
Qed.

(** ** Filling and protecting *)

Lemma read_loop_run to_rc to_count addr total tl :
  (∀ z, 0 ≤ z ≤ total → to_rc z = z) → (∀ z, 0 ≤ z ≤ total → to_count z = z) →
  ∀ fuel count d st, (length d ≤ fuel)%nat → 0 ≤ count → total - count = Z.of_nat (length d) → d ≠ [] → at_ st (d ++ tl) →
  (∀ x, addr + count ≤ x < addr + total → ∃ prot b, cell (r_arena st) x = Some (prot, Some b) ∧ has_flag prot PROT_WRITE = true) →
  ∃ k pos, read_loop image to_rc to_count addr total count fuel st = Ok total (with_kern st k pos) ∧ at_ (with_kern st k pos) tl ∧
    ∀ x, mem k x = if decide (addr + count ≤ x < addr + total) then (λ c, (c.1, d !! Z.to_nat (x - (addr + count)))) <$> cell (r_arena st) x else cell (r_arena st) x.
Proof.
  intros Hrc Hcount fuel. induction fuel as [|fuel IH]; intros count d st Hf Hc Hd Hne Hat Hw.
  { destruct d; [done|cbn in Hf; lia]. }
  assert (0 < Z.of_nat (length d)) as Hpos by (destruct d; [done|cbn; lia]). pose proof Hat as [Hp Hdrop].
  assert (length image - Z.to_nat (r_pos st) = length (d ++ tl))%nat as Hlen by (rewrite <- Hdrop; by rewrite length_drop). rewrite length_app in Hlen.
  destruct (read_progress image (r_pos st) (addr + count) (total - count) (kern (r_arena st))) as (rc & k1 & Er & Hr & Hr2 & Hm1); [lia|lia| |].
  { intros x Hx. apply Hw. lia. }
  cbn [read_loop]. set (st1 := with_kern st k1 (r_pos st + rc)).
  assert (∀ i, (i < Z.to_nat rc)%nat → image !! (Z.to_nat (r_pos st) + i)%nat = d !! i) as Himg.
  { intros i Hi. rewrite <- lookup_drop, Hdrop. apply lookup_app_l. lia. }
  rewrite (prog_bind_ok (read_mem _ _ _) _ st rc st1).
  2:{ unfold read_mem. rewrite Er, Z.max_r by lia. done. }
  rewrite Hrc, Hcount, (proj2 (Z.ltb_lt 0 rc)) by lia. cbn [andb].
  assert (∀ x, addr + count ≤ x < addr + count + rc → mem k1 x = (λ c, (c.1, d !! Z.to_nat (x - (addr + count)))) <$> cell (r_arena st) x) as Hin.
  { intros x Hx. rewrite Hm1, decide_True by lia. destruct (cell (r_arena st) x) as [c|]; [|done]. cbn. do 2 f_equal.
    rewrite <- Himg by lia. f_equal. lia. }
  assert (∀ x, ¬ (addr + count ≤ x < addr + count + rc) → mem k1 x = cell (r_arena st) x) as Hout by (intros x Hx; by rewrite Hm1, decide_False).
  assert (at_ st1 (drop (Z.to_nat rc) d ++ tl)) as Hat1.
  { refine (at_skip image st (take (Z.to_nat rc) d) (drop (Z.to_nat rc) d ++ tl) (r_pos st + rc) _ _); [by rewrite app_assoc, take_drop|]. rewrite length_take. lia. }
  destruct (Z.ltb_spec (count + rc) total) as [Hlt|Hge].
  - destruct (IH (count + rc) (drop (Z.to_nat rc) d) st1) as (k & pos & Erun & Hat' & Hm'); [rewrite length_drop; lia|lia|rewrite length_drop; lia| |done| |].
    { intros E%(f_equal length). rewrite length_drop in E. cbn in E. lia. }
    { intros x Hx. cbn. rewrite Hout by lia. apply Hw. lia. }
    exists k, pos. split; [exact Erun|]. split; [exact Hat'|]. intros x. rewrite Hm'. cbn. destruct (decide (addr + (count + rc) ≤ x < addr + total)) as [Hx|Hx].
    + rewrite Hout, decide_True, lookup_drop by lia. destruct (cell (r_arena st) x) as [c|]; [|done]. cbn. do 3 f_equal. lia.
    + destruct (decide (addr + count ≤ x < addr + total)); [apply Hin; lia|apply Hout; lia].
  - exists k1, (r_pos st + rc). rewrite drop_ge in Hat1 by lia. split; [by replace (count + rc) with total by lia|]. split; [exact Hat1|]. intros x.
    destruct (decide _); [apply Hin; lia|apply Hout; lia].
Qed.

(** The bytes that [fill_area] reads. *)
Definition fill_len (a : ProcMapsArea) : Z :=
  if (0 <? a_filesize a) && name_begins_slash (a_name a) then a_filesize a else a_size a.

Lemma fill_area_run fuel a d tl st :
  page_range (a_addr a) (a_size a) → ((0 <? a_filesize a) && name_begins_slash (a_name a) = true → a_filesize a < 2 ^ 31) →
  Z.of_nat (length d) = fill_len a → (length d ≤ fuel)%nat → at_ st (d ++ tl) →
  (∀ x, a_addr a ≤ x < a_addr a + fill_len a → ∃ prot b, cell (r_arena st) x = Some (prot, Some b) ∧ has_flag prot PROT_WRITE = true) →
  ∃ k pos, fill_area image fuel a st = Ok () (with_kern st k pos) ∧ at_ (with_kern st k pos) tl ∧
    ∀ x, mem k x = if decide (a_addr a ≤ x < a_addr a + fill_len a) then (λ c, (c.1, d !! Z.to_nat (x - a_addr a))) <$> cell (r_arena st) x else cell (r_arena st) x.
Proof.
  intros Hr Hsmall Hd Hf Hat Hw. unfold page_range in Hr. unfold fill_area, fill_len in *.
  assert (∀ to_rc to_count total, 0 < total → Z.of_nat (length d) = total → (∀ z, 0 ≤ z ≤ total → to_rc z = z) → (∀ z, 0 ≤ z ≤ total → to_count z = z) →
    (∀ x, a_addr a ≤ x < a_addr a + total → ∃ prot b, cell (r_arena st) x = Some (prot, Some b) ∧ has_flag prot PROT_WRITE = true) →
    ∃ k pos, read_loop image to_rc to_count (a_addr a) total 0 fuel st = Ok total (with_kern st k pos) ∧ at_ (with_kern st k pos) tl ∧
      ∀ x, mem k x = if decide (a_addr a ≤ x < a_addr a + total) then (λ c, (c.1, d !! Z.to_nat (x - a_addr a))) <$> cell (r_arena st) x else cell (r_arena st) x) as Hloop.
  { intros to_rc to_count total Ht Hdt H1 H2 Hcells. destruct (read_loop_run to_rc to_count (a_addr a) total tl H1 H2 fuel 0 d st) as (k & pos & E & Hat' & Hm);
      [done|lia|lia|intros ->; cbn in Hdt; lia|done|by rewrite Z.add_0_r|]. rewrite Z.add_0_r in Hm. eauto 10. }
  destruct (_ && _) eqn:Eb.
  - apply andb_true_iff in Eb as [Ef%Z.ltb_lt _]. specialize (Hsmall eq_refl).
    destruct (Hloop (λ rc, rc) s32 (a_filesize a)) as (k & pos & E & Hat' & Hm); [lia|done|done|intros; apply s32_small; lia|done|].
    exists k, pos. rewrite (prog_bind_ok _ _ _ _ _ E), Z.eqb_refl. done.
  - destruct (Hloop u64 u64 (a_size a)) as (k & pos & E & Hat' & Hm); [lia|done|intros; apply u64_small; lia|intros; apply u64_small; lia|done|].
    exists k, pos. rewrite (prog_bind_ok _ _ _ _ _ E), Z.eqb_refl. done.
Qed.

Lemma protect_run a st :
  page_range (a_addr a) (a_size a) → (∀ x, in_area a x → ∃ v, cell (r_arena st) x = Some (Z.lor (a_prot a) PROT_WRITE, v)) →
  ∃ k, restore_protection a st = Ok () (with_kern st k (r_pos st)) ∧
    (∀ x, in_area a x → mem k x = (λ c, (a_prot a, c.2)) <$> cell (r_arena st) x) ∧ (∀ x, ¬ in_area a x → mem k x = cell (r_arena st) x).
Proof.
  intros Hr Hw. unfold restore_protection. destruct (has_flag (a_prot a) PROT_WRITE) eqn:Ew; cbn [negb].
  - exists (kern (r_arena st)). split; [by destruct st as [[] ?]|]. split; [|done]. intros x Hx.
    destruct (Hw x Hx) as (v & ->). cbn. by rewrite (lor_has_write _ Ew).
  - destruct (mprotect_ok (a_addr a) (a_size a) (a_prot a) (kern (r_arena st)) Hr) as (k & E & Hm).
    { intros x Hx. destruct (Hw x Hx) as (v & ->). by eexists. }
    exists k. split; [|split; intros x Hx; rewrite Hm; [by rewrite decide_True|by rewrite decide_False]]. by rewrite (prog_bind_ok (on_arena _) _ st true (with_kern st k (r_pos st))) by (unfold on_arena, sys; by rewrite E).
Qed.
End regions.
