(* ===== verification/ImageRestoreSpec.v ===== *)
(** * A restart restores the saved memory

    The third walk of [ImageRestore] restores every region, and with the first
    two it does so without touching memory that was mapped. *)
From Stdlib Require Import Ascii String.
From S2P Require Import Prelude MemArena ArenaWrappers ArenaSpec CkptMemory ImageRestore ImageWalk ImageRegions.

Section restored.
Context `{IL : ImageLaws K mem}.
Context (sizeof_area : Z) (area_of_bytes : list Z → ProcMapsArea) (encode : ProcMapsArea → list Z) (image : list Z) (endOfStack : Z).
Hypothesis Hcodec : codec_ok sizeof_area area_of_bytes encode.
Implicit Types (st : rstate K) (ar : arena (K := K)).
Abbreviation cell ar x := (mem (kern ar) x).
Abbreviation at_ := (at_ image).
Abbreviation adjust := (adjust_flags endOfStack).
Abbreviation run_area := (restoreMemoryArea sizeof_area area_of_bytes image endOfStack).
Abbreviation run_data := (restore_memory_data sizeof_area area_of_bytes image endOfStack).
Abbreviation written := (written encode).

(** The piece has its protection and its bytes. *)
Definition piece_restored (k : K) (p : piece) : Prop :=
  ∀ x, in_area (p_area p) x → ∃ v, mem k x = Some (a_prot (p_area p), v) ∧ ∀ b, byte_of p x = Some b → v = Some b.

Lemma header_step fuel st a s :
  at_ st (encode a ++ s) → a_addr a ≠ 0 →
  ∃ st1, r_arena st1 = r_arena st ∧ at_ st1 s ∧ ∀ st', restore_area image fuel (adjust a) st1 = Ok () st' → run_area fuel st = Ok 0 st'.
Proof.
  intros Hat Ha. destruct (read_header_run sizeof_area area_of_bytes encode image Hcodec st a s Hat) as [E Hat1].
  eexists. split; [|split; [exact Hat1|]]; [done|]. intros st' Hr. unfold restoreMemoryArea. rewrite (prog_bind_ok _ _ _ _ _ E). cbn [fst snd].
  rewrite Z.eqb_refl, (co_decode _ _ _ Hcodec). cbv zeta. destruct (Z.eqb_spec (a_addr a) 0); [done|].
  set (st1 := st <| r_pos := _ |>) in *. rewrite (prog_bind_ok (assert_ true) _ st1 () st1 eq_refl). by rewrite (prog_bind_ok _ _ _ _ _ Hr).
Qed.

(** Filling and protecting an area that is mapped. *)
Lemma fill_protect_run fuel a d tl st :
  page_range (a_addr a) (a_size a) → ((0 <? a_filesize a) && name_begins_slash (a_name a) = true → a_filesize a < 2 ^ 31) →
  Z.of_nat (length d) = fill_len a → fill_len a ≤ a_size a → (length d ≤ fuel)%nat → at_ st (d ++ tl) →
  (∀ x, in_area a x → ∃ v, cell (r_arena st) x = Some (Z.lor (a_prot a) PROT_WRITE, v) ∧ (x < a_addr a + fill_len a → is_Some v)) →
  ∃ k pos, (fill_area image fuel (adjust a) ;; restore_protection (adjust a)) st = Ok () (with_kern st k pos) ∧ at_ (with_kern st k pos) tl ∧
    piece_restored k (mk_piece a (Some d)) ∧ ∀ x, ¬ in_area a x → mem k x = cell (r_arena st) x.
Proof.
  intros Hr Hsm Hd Hle Hf Hat Hw. destruct (adjust_fields endOfStack a) as (E1 & E2 & E3 & _ & E5 & _ & _ & _ & E9).
  assert (fill_len (adjust a) = fill_len a) as El by (unfold fill_len; by rewrite E2, E5, E9).
  assert (has_flag (Z.lor (a_prot a) PROT_WRITE) PROT_WRITE = true) as Hwr by (rewrite has_flag_lor; apply orb_true_r).
  destruct (fill_area_run image fuel (adjust a) d tl st) as (k1 & pos & Ef & Hat1 & Hm1);
    [by rewrite E1, E2|by rewrite E5, E9|by rewrite El|done|done| |].
  { rewrite El, E1. intros x Hx. destruct (Hw x) as (v & Hv & Hb); [unfold in_area; lia|]. destruct Hb as [b ->]; [lia|]. eauto. }
  rewrite El, E1 in Hm1.
  destruct (protect_run (adjust a) (with_kern st k1 pos)) as (k & Ep & Hm & Ho); [by rewrite E1, E2| |].
  { intros x Hx. unfold in_area in Hx. rewrite E1, E2 in Hx. cbn. rewrite Hm1, E3. destruct (Hw x Hx) as (v & -> & _). destruct (decide _); cbn; eauto. }
  exists k, pos. rewrite (prog_bind_ok _ _ _ _ _ Ef). split; [exact Ep|]. split; [exact Hat1|]. unfold in_area in Hm, Ho. rewrite E1, E2 in Hm, Ho. rewrite E3 in Hm. cbn in Hm, Ho. split.
  - intros x Hx. cbn in *. unfold in_area in Hx. rewrite Hm, Hm1 by done. destruct (Hw x Hx) as (v & -> & _).
    destruct (decide _) as [Hin|Hout]; cbn; eexists; (split; [done|]); intros b Hb; [done|]. exfalso. apply lookup_lt_Some in Hb. lia.
  - intros x Hx. unfold in_area in Hx. rewrite Ho, Hm1, decide_False by lia. done.
Qed.

(** A change of the kernel alone keeps what [grown] says of the lists. *)
Lemma grown_kern ar ar1 a k : grown (mem := mem) ar ar1 a → (∀ x, ¬ in_area a x → mem k x = cell ar1 x) → grown (mem := mem) ar (ar1 <| kern := k |>) a.
Proof. intros [[? ? ? ?] ? ? Ho] Hk. split; try done. intros x Hx. cbn. rewrite Hk by done. by apply Ho. Qed.

(** ** The records of a region *)

Lemma whole_run fuel a d s st :
  region_ok (Whole a d) → ArenaSpec.arena_ok (knows := true) (r_arena st) → (length d ≤ fuel)%nat → at_ st (encode a ++ d ++ s) →
  ∃ st', run_area fuel st = Ok 0 st' ∧ at_ st' s ∧ grown (mem := mem) (r_arena st) (r_arena st') a ∧ piece_restored (kern (r_arena st')) (mk_piece a (Some d)).
Proof.
  intros (Ha & Hz & Hp & Hc & Hd & Hfs & Hfile) Hok Hf Hat. pose proof (ak_range _ Ha) as Hr. pose proof Hr as (Hr0 & _).
  assert (fill_len a = seek_len a ∧ fill_len a ≤ a_size a) as [Hlen Hle].
  { unfold fill_len, seek_len. destruct (Z.ltb_spec 0 (a_filesize a)) as [H1|H1]; [|rewrite andb_false_r; done].
    destruct (Hfs H1) as (-> & ? & _). destruct (has_flag _ _); cbn; lia. }
  destruct (header_step fuel st a _ Hat) as (st1 & Ea & Hat1 & Hstep); [lia|].
  destruct (adjust_fields endOfStack a) as (_ & _ & _ & _ & _ & E6 & E7 & E8 & _).
  destruct (map_area_run endOfStack st1 a (Z.of_nat (length d))) as (ar2 & Em & Hg & Hcells); [by rewrite Ea|done|lia|done|].
  destruct (fill_protect_run fuel a d s (st1 <| r_arena := ar2 |>)) as (k & pos & Er & Hat3 & Hp3 & Ho3); [done| |lia|done|done|exact Hat1| |].
  { intros [H1%Z.ltb_lt _]%andb_true_iff. by apply Hfs. }
  { intros x Hx. destruct (Hcells x Hx) as (v & Hv & Hb & _). exists v. split; [done|]. rewrite Hlen, <- Hd. done. }
  eexists. split; [|split; [exact Hat3|]].
  - apply Hstep. unfold restore_area. rewrite E6, E7, E8, Hz, Hp, Hc. cbn [negb]. rewrite (prog_bind_ok _ _ _ _ _ Em). exact Er.
  - rewrite Ea in Hg. split; [|exact Hp3]. by apply grown_kern.
Qed.

(** A child of [parent] in a range that the parent's header mapped. *)
Lemma child_run fuel parent c s st :
  child_ok parent c → (length (default [] (p_data c)) ≤ fuel)%nat → at_ st (encode (p_area c) ++ default [] (p_data c) ++ s) →
  (∀ x, in_area (p_area c) x → cell (r_arena st) x = Some (Z.lor (a_prot parent) PROT_WRITE, Some 0)) →
  ∃ st' k, run_area fuel st = Ok 0 st' ∧ r_arena st' = (r_arena st) <| kern := k |> ∧ at_ st' s ∧ piece_restored k c ∧
    ∀ x, ¬ in_area (p_area c) x → mem k x = cell (r_arena st) x.
Proof.
  intros [Ha Hc Hp Hprot Hfs Hd] Hf Hat Hcells. pose proof (ak_range _ Ha) as Hr. pose proof Hr as (Hr0 & _).
  destruct (header_step fuel st (p_area c) _ Hat) as (st1 & Ea & Hat1 & Hstep); [lia|]. rewrite <- Hprot in Hcells.
  destruct (adjust_fields endOfStack (p_area c)) as (E1 & E2 & E3 & _ & _ & E6 & E7 & E8 & _). unfold restore_area in Hstep. rewrite E6, E7, E8, Hp, Hc in Hstep.
  destruct c as [a od]. cbn in *. destruct od as [d|]; cbn in *.
  - destruct Hd as [Hz Hd]. rewrite Hz in Hstep. cbn [negb] in Hstep.
    assert (fill_len a = a_size a) as El by (unfold fill_len; by rewrite Hfs).
    destruct (fill_protect_run fuel a d s st1) as (k & pos & Er & Hat3 & Hp3 & Ho3); [done|by rewrite Hfs|lia|lia|done|done| |].
    { intros x Hx. rewrite Ea, Hcells by done. eexists. split; [done|]. by eexists. }
    exists (with_kern st1 k pos), k. split; [apply Hstep; exact Er|]. rewrite <- Ea. split; [done|]. split; [exact Hat3|]. split; [exact Hp3|exact Ho3].
  - rewrite Hd in Hstep. destruct (protect_run (adjust a) st1) as (k & Ep & Hm & Ho); [by rewrite E1, E2| |].
    { intros x Hx. unfold in_area in Hx. rewrite E1, E2 in Hx. rewrite Ea, Hcells, E3 by done. by eexists. }
    exists (with_kern st1 k (r_pos st1)), k. split; [by apply Hstep|]. split; [cbn; by rewrite Ea|]. split; [exact Hat1|].
    unfold in_area in Hm, Ho. rewrite E1, E2, Ea in Hm, Ho. rewrite E3 in Hm. split.
    + intros x Hx. cbn in *. unfold in_area in Hx. rewrite Hm, Hcells by done. cbn. eexists. split; [done|]. by intros b [= <-].
    + intros x Hx. unfold in_area in Hx. by apply Ho.
Qed.

(** One turn of the third walk. *)
Lemma data_step fuel st st' : run_area (S fuel) st = Ok 0 st' → run_data (S fuel) st = run_data fuel st'.
Proof. intros E. cbn [restore_memory_data]. by rewrite (prog_bind_ok _ _ _ _ _ E). Qed.

Lemma piece_restored_same k k' p : piece_restored k p → (∀ x, in_area (p_area p) x → mem k' x = mem k x) → piece_restored k' p.
Proof. intros Hp Hs x Hx. rewrite (Hs x Hx). by apply Hp. Qed.

Lemma tiles_inside parent cs : ∀ s e, Forall (child_ok parent) cs → tiles s cs e →
  s ≤ e ∧ ∀ c x, c ∈ cs → in_area (p_area c) x → s ≤ x < e.
Proof.
  induction cs as [|c cs IH]; intros s e Hc Ht; cbn in Ht.
  { subst. split; [done|]. by intros c x []%not_elem_of_nil. }
  apply Forall_cons in Hc as [Hc1 Hc]. destruct Ht as [E Ht]. destruct (IH _ _ Hc Ht) as [Hle Hin].
  pose proof (ak_range _ (ck_area _ _ Hc1)) as Hr. unfold page_range in Hr. split; [lia|].
  intros c' x [->|Hc']%elem_of_cons Hx; [unfold in_area in Hx; lia|]. specialize (Hin c' x Hc' Hx). lia.
Qed.

Lemma children_run N parent tl cs : ∀ fuel s e st,
  Forall (child_ok parent) cs → tiles s cs e → Forall (λ c, (length (default [] (p_data c)) ≤ N)%nat) cs → (length cs + N < fuel)%nat →
  at_ st (written (map piece_record cs) ++ tl) →
  (∀ x, s ≤ x < e → cell (r_arena st) x = Some (Z.lor (a_prot parent) PROT_WRITE, Some 0)) →
  ∃ st' k, run_data fuel st = run_data (fuel - length cs) st' ∧ r_arena st' = (r_arena st) <| kern := k |> ∧ at_ st' tl ∧
    Forall (piece_restored k) cs ∧ ∀ x, ¬ (s ≤ x < e) → mem k x = cell (r_arena st) x.
Proof.
  induction cs as [|c cs IH]; intros fuel s e st Hc Ht HN Hf Hat Hcells; cbn in Ht.
  { exists st, (kern (r_arena st)). cbn. rewrite Nat.sub_0_r. by destruct st as [[] ?]. }
  pose proof Hc as Hc'. apply Forall_cons in Hc' as [Hc1 Hcs]. destruct Ht as [Es Ht]. apply Forall_cons in HN as [HN1 HN].
  destruct (tiles_inside parent cs _ _ Hcs Ht) as [Hle Hin]. pose proof (ak_range _ (ck_area _ _ Hc1)) as Hr. unfold page_range in Hr.
  destruct fuel as [|fuel]; [cbn in Hf; lia|]. cbn [map ImageWalk.written piece_record] in Hat. rewrite <- !app_assoc in Hat.
  destruct (child_run (S fuel) parent c _ st Hc1 ltac:(cbn in Hf; lia) Hat) as (st1 & k1 & E1 & Ea1 & Hat1 & Hp1 & Ho1).
  { intros x Hx. unfold in_area in Hx. apply Hcells. lia. }
  destruct (IH fuel (s + a_size (p_area c)) e st1) as (st' & k & E2 & Ea2 & Hat2 & Hp2 & Ho2); [done|done|done|cbn in Hf; lia|done| |].
  { intros x Hx. rewrite Ea1. cbn. rewrite Ho1 by (unfold in_area; lia). apply Hcells. lia. }
  rewrite Ea1 in Ho2, Ea2. cbn in Ho2. exists st', k. split; [rewrite (data_step _ _ _ E1); exact E2|]. split; [by rewrite Ea2|]. split; [done|]. split.
  - apply Forall_cons. split; [|done]. apply (piece_restored_same k1); [done|]. intros x Hx. unfold in_area in Hx. apply Ho2. lia.
  - intros x Hx. rewrite Ho2, Ho1; [done|unfold in_area; lia|lia].
Qed.

Definition data_within (N : nat) (r : region) : Prop := Forall (λ q : record, (length q.2 ≤ N)%nat) (records_of r).

Lemma region_run N r tl fuel st :
  region_ok r → data_within N r → (length (records_of r) + N < fuel)%nat → ArenaSpec.arena_ok (knows := true) (r_arena st) →
  at_ st (written (records_of r) ++ tl) →
  ∃ st', run_data fuel st = run_data (fuel - length (records_of r)) st' ∧ at_ st' tl ∧
    grown (mem := mem) (r_arena st) (r_arena st') (region_area r) ∧ Forall (piece_restored (kern (r_arena st'))) (pieces_of r).
Proof.
  intros Hr HN Hf Hok Hat. destruct fuel as [|fuel]; [lia|]. destruct r as [a d|a cs]; cbn [records_of ImageWalk.written region_area pieces_of fst snd] in *; unfold data_within in HN; cbn in HN.
  - apply Forall_cons in HN as [HN _]. cbn in HN. rewrite <- !app_assoc in Hat. destruct (whole_run (S fuel) a d tl st Hr Hok) as (st' & E & Hat' & Hg & Hp); [cbn [length] in Hf; lia|done|].
    exists st'. cbn. rewrite Nat.sub_0_r. split; [by apply data_step|]. split; [done|]. split; [done|]. by apply Forall_singleton.
  - destruct Hr as (Ha & Hz & Hpar & Hc & Hname & Ht & Hcs). apply Forall_cons in HN as [_ HN]. pose proof (ak_range _ Ha) as Hrange. pose proof Hrange as (Hr0 & _).
    rewrite app_nil_l, <- app_assoc in Hat. destruct (header_step (S fuel) st a _ Hat) as (st1 & Ea & Hat1 & Hstep); [lia|].
    destruct (adjust_fields endOfStack a) as (_ & _ & _ & _ & _ & E6 & E7 & E8 & E9).
    destruct (map_area_run endOfStack st1 a 0) as (ar2 & Em & Hg & Hcells); [by rewrite Ea|done|unfold page_range in Hrange; lia| |].
    { by rewrite Hname. }
    assert (run_area (S fuel) st = Ok 0 (st1 <| r_arena := ar2 |>)) as E1.
    { apply Hstep. unfold restore_area. rewrite E6, E7, E8, Hz, Hpar, Hc. cbn [negb]. by rewrite (prog_bind_ok _ _ _ _ _ Em). }
    destruct (children_run N a tl cs fuel (a_addr a) (a_addr a + a_size a) (st1 <| r_arena := ar2 |>)) as (st' & k & E2 & Ea2 & Hat2 & Hp2 & Ho2); [done|done| | |exact Hat1| |].
    { apply Forall_forall. intros c Hin. rewrite Forall_forall in HN. by apply (HN (piece_record c)), list_elem_of_fmap_2. }
    { cbn [length] in Hf. rewrite length_map in Hf. lia. }
    { intros x Hx. destruct (Hcells x Hx) as (v & Hv & _ & Hv0). cbn. by rewrite Hv, (Hv0 Hname). }
    exists st'. split; [rewrite (data_step _ _ _ E1), E2; cbn; by rewrite length_map|]. split; [done|]. rewrite Ea2 in *. cbn. rewrite Ea in Hg. split; [|done].
    apply grown_kern; [done|]. intros x Hx. by apply Ho2.
Qed.

(** ** The whole image *)

Definition in_regions (rs : list region) (x : Z) : Prop := ∃ r, r ∈ rs ∧ in_area (region_area r) x.
Lemma in_regions_cons r rs x : in_regions (r :: rs) x ↔ in_area (region_area r) x ∨ in_regions rs x.
Proof.
  unfold in_regions. split.
  - intros (q & [->|Hq]%elem_of_cons & ?); [by left|right; by exists q].
  - intros [?|(q & ? & ?)]; [exists r; split; [by left|done]|exists q; split; [by right|done]].
Qed.
Lemma in_regions_nil x : ¬ in_regions [] x.
Proof. by intros (? & []%not_elem_of_nil & _). Qed.

Fixpoint regions_apart (rs : list region) : Prop :=
  match rs with [] => True | r :: rs => (∀ x, in_area (region_area r) x → ¬ in_regions rs x) ∧ regions_apart rs end.
Definition records (rs : list region) : list record := concat (map records_of rs).

Lemma piece_inside r p x : region_ok r → p ∈ pieces_of r → in_area (p_area p) x → in_area (region_area r) x.
Proof.
  destruct r as [a d|a cs]; cbn; [by intros _ ->%list_elem_of_singleton|].
  intros (_ & _ & _ & _ & _ & Ht & Hcs) Hp Hx. by apply (tiles_inside a cs _ _ Hcs Ht) with p.
Qed.

Lemma written_app r1 r2 : written (r1 ++ r2) = written r1 ++ written r2.
Proof. induction r1 as [|r r1 IH]; [done|]. cbn. by rewrite IH, <- !app_assoc. Qed.

(** What the third walk does for a list of regions. *)
Record all_restored ar ar' (rs : list region) : Prop := {
  al_ok : ArenaSpec.arena_ok (knows := true) ar';
  al_covers x : covers (allocated_blocks ar') x ↔ covers (allocated_blocks ar) x ∨ in_regions rs x;
  al_max : max_allocated_addr ar ≤ max_allocated_addr ar';
  al_bound : max_allocated_addr ar ≤ 2 ^ 63 → max_allocated_addr ar' ≤ 2 ^ 63;
  al_above x : in_regions rs x → x < max_allocated_addr ar';
  al_outside x : ¬ in_regions rs x → cell ar' x = cell ar x;
  al_pieces r p : r ∈ rs → p ∈ pieces_of r → piece_restored (kern ar') p
}.

Lemma regions_run N tl rs : ∀ fuel st,
  Forall region_ok rs → regions_apart rs → Forall (data_within N) rs → (length (records rs) + N < fuel)%nat →
  ArenaSpec.arena_ok (knows := true) (r_arena st) → at_ st (written (records rs) ++ tl) →
  ∃ st', run_data fuel st = run_data (fuel - length (records rs)) st' ∧ at_ st' tl ∧ all_restored (r_arena st) (r_arena st') rs.
Proof.
  induction rs as [|r rs IH]; intros fuel st Hok Hap HN Hf Ha Hat.
  { exists st. cbn. rewrite Nat.sub_0_r. do 2 (split; [done|]). split; try done.
    - intros x. split; [by left|]. intros [?|[]%in_regions_nil]; done.
    - by intros x []%in_regions_nil.
    - by intros r p []%not_elem_of_nil. }
  apply Forall_cons in Hok as [Hr Hok], HN as [HN1 HN]. destruct Hap as [Hap1 Hap]. cbn [records map concat] in *. unfold records in *. cbn [map concat] in *.
  rewrite length_app in Hf |- *. rewrite written_app, <- app_assoc in Hat.
  destruct (region_run N r _ fuel st Hr HN1 ltac:(lia) Ha Hat) as (st1 & E1 & Hat1 & Hg & Hp).
  destruct (IH (fuel - length (records_of r))%nat st1 Hok Hap HN ltac:(lia) (gr_ok _ _ _ Hg) Hat1) as (st' & E2 & Hat2 & [A1 A2 A3 A3b A4 A5 A6]).
  pose proof (gr_max _ _ _ Hg) as Hmax. pose proof (ak_range _ (region_area_ok _ Hr)) as Hrange. unfold page_range in Hrange.
  exists st'. split; [rewrite E1, E2; f_equal; lia|]. split; [done|]. split; [done| | | | | |].
  - intros x. rewrite A2, (gr_covers _ _ _ Hg), in_regions_cons. tauto.
  - lia.
  - lia.
  - intros x [Hx|Hx]%in_regions_cons; [|by apply A4]. unfold in_area in Hx. lia.
  - intros x Hx. rewrite in_regions_cons in Hx. rewrite A5 by tauto. apply (gr_outside _ _ _ Hg). tauto.
  - intros q p [->|Hq]%elem_of_cons Hin; [|by apply (A6 q)]. rewrite Forall_forall in Hp. apply (piece_restored_same (kern (r_arena st1))); [by apply Hp|].
    intros x Hx. apply A5, Hap1. by eapply piece_inside.
Qed.

(** The image has the regions from the position on; [term] ends it. *)
Record image_holds st (rs : list region) : Prop := {
  ih_regions : Forall region_ok rs;
  ih_apart : regions_apart rs;
  ih_bytes : ∃ term tl, a_addr term = 0 ∧ at_ st (written (records rs) ++ encode term ++ tl)
}.

Lemma records_cons r rs : records (r :: rs) = records_of r ++ records rs.
Proof. done. Qed.

Lemma records_walk rs : Forall region_ok rs → Forall walk_ok (records rs).
Proof.
  induction 1 as [|r rs Hr _ IH]; [done|]. rewrite records_cons. apply Forall_app. split; [by apply region_walk_ok|done].
Qed.

Lemma in_tops_app r1 r2 x : in_tops (r1 ++ r2) x ↔ in_tops r1 x ∨ in_tops r2 x.
Proof. induction r1 as [|r r1 IH]; cbn; [split; [by right|by intros [[]%in_tops_nil|?]]|]. rewrite !in_tops_cons, IH. tauto. Qed.

Lemma records_tops rs x : Forall region_ok rs → in_tops (records rs) x ↔ in_regions rs x.
Proof.
  induction 1 as [|r rs Hr _ IH].
  - split; [intros []%in_tops_nil|intros []%in_regions_nil].
  - by rewrite records_cons, in_tops_app, in_regions_cons, region_tops, IH.
Qed.

Lemma tops_apart_app r1 r2 : tops_apart r1 → tops_apart r2 → (∀ x, in_tops r1 x → ¬ in_tops r2 x) → tops_apart (r1 ++ r2).
Proof.
  induction r1 as [|r r1 IH]; cbn; intros H1 H2 H; [done|]. destruct H1 as [H1 H1']. split.
  - intros Hc x Hx [?|?]%in_tops_app; [by apply (H1 Hc x)|]. apply (H x); [apply in_tops_cons; by left|done].
  - apply IH; [done|done|]. intros x Hx. apply H, in_tops_cons. by right.
Qed.

Lemma region_tops_apart r : region_ok r → tops_apart (records_of r).
Proof.
  assert (∀ cs parent, Forall (child_ok parent) cs → tops_apart (map piece_record cs) ∧ ∀ x, ¬ in_tops (map piece_record cs) x) as Hch.
  { intros cs parent. induction 1 as [|c cs Hc _ [IH1 IH2]]; cbn; [split; [done|apply in_tops_nil]|].
    split; [split; [|done]; by rewrite (ck_child _ _ Hc)|]. intros x. rewrite in_tops_cons. cbn. rewrite (ck_child _ _ Hc). by intros [[? _]|?%IH2]. }
  destruct r as [a d|a cs]; cbn; [by intros _; split; [intros _ x _; apply in_tops_nil|]|].
  intros (_ & _ & _ & _ & _ & _ & Hcs). destruct (Hch _ _ Hcs) as [H1 H2]. split; [|done]. intros _ x _. apply H2.
Qed.

Lemma records_apart rs : Forall region_ok rs → regions_apart rs → tops_apart (records rs).
Proof.
  induction 1 as [|r rs Hr Hrs IH]; [done|]. intros [H1 H2]. rewrite records_cons. apply tops_apart_app; [by apply region_tops_apart|by apply IH|].
  intros x Hx%region_tops; [|done]. rewrite records_tops by done. by apply H1.
Qed.

(** [RestoreTarget::initialize()] is code of the lower half: it does not call the
    upper half's wrappers and does not move the image's file position.  It may map
    memory where nothing is mapped and change memory of its own, but not a range that
    is mapped without access. *)
Definition keeps_reserved (m : prog (rstate K) unit) : Prop := ∀ st, ArenaSpec.arena_ok (knows := true) (r_arena st) →
  ∃ ar', m st = Ok () (st <| r_arena := ar' |>) ∧ same_arena (r_arena st) ar' ∧
    ∀ x v, cell (r_arena st) x = Some (PROT_NONE, v) → cell ar' x = Some (PROT_NONE, v).

(** A call of [mmap()] that leaves the choice of the address to the kernel does so. *)
Lemma mmap_keeps_reserved len prot flags fd off :
  has_flag flags MAP_FIXED = false → keeps_reserved (on_arena (sys (sys_mmap 0 len prot flags fd off)) ;; mret ()).
Proof.
  intros Hf st Hok. unfold on_arena, sys. prog_red. destruct (sys_mmap 0 len prot flags fd off (kern (r_arena st))) as [[r|e] k] eqn:E.
  - exists ((r_arena st) <| kern := k |>). split; [done|]. split; [by apply same_arena_kern|]. intros x v Hx. cbn.
    destruct (mmap_free (mapped := λ k x, is_Some (mem k x)) _ _ _ _ _ _ _ _ _ Hf E) as [Hfree _].
    rewrite (mmap_outside _ _ _ _ _ _ _ _ _ x E); [done|]. intros Hin. apply (Hfree x Hin). rewrite Hx. by eexists.
  - exists ((r_arena st) <| kern := k |>). split; [done|]. split; [by apply same_arena_kern|]. intros x v Hx. cbn.
    by rewrite (mmap_failed _ _ _ _ _ _ _ _ _ x E).
Qed.

Definition longest (rs : list region) : nat := max_list (map (λ q : record, length q.2) (records rs)).
Lemma longest_within rs : Forall (data_within (longest rs)) rs.
Proof.
  apply Forall_forall. intros r Hr. apply Forall_forall. intros q Hq. apply max_list_elem_of_le.
  apply (list_elem_of_fmap_2 (λ q : record, length q.2)). clear -Hr Hq. induction rs as [|r' rs IH]; [by apply not_elem_of_nil in Hr|].
  rewrite records_cons. apply elem_of_app. apply elem_of_cons in Hr as [->|Hr]; [by left|right; by apply IH].
Qed.

(** The first two walks keep the ranges of the regions free of what [initialize]
    maps, and leave all other memory. *)
Lemma reserve_release_run initialize uninit rs term tl fuel st :
  keeps_reserved initialize → Z.of_nat (length uninit) = sizeof_area → Forall region_ok rs → regions_apart rs → a_addr term = 0 →
  at_ st (written (records rs) ++ encode term ++ tl) → (length (records rs) < fuel)%nat →
  ArenaSpec.arena_ok (knows := true) (r_arena st) → probe_finds (r_arena st) → (∀ x, in_regions rs x → cell (r_arena st) x = None) →
  ∃ ar1 ar2 ar3,
    reserve_memory_areas sizeof_area area_of_bytes image fuel st = Ok (r_pos st) (mk_rstate ar1 (r_pos st)) ∧
    initialize (mk_rstate ar1 (r_pos st)) = Ok () (mk_rstate ar2 (r_pos st)) ∧
    release_reserved_memory sizeof_area area_of_bytes image (r_pos st) uninit fuel (mk_rstate ar2 (r_pos st)) = Ok () (mk_rstate ar3 (r_pos st)) ∧
    same_arena (r_arena st) ar3 ∧ (∀ x, ¬ in_regions rs x → cell ar1 x = cell (r_arena st) x ∧ cell ar3 x = cell ar2 x) ∧
    (∀ x, in_regions rs x → cell ar2 x = cell ar1 x).
Proof.
  intros Hini Hun Hok Hap Ht Hat Hf Ha Hp Hfree.
  destruct (reserve_run sizeof_area area_of_bytes encode image Hcodec (r_pos st) term tl (records rs) fuel st) as (ar1 & E1 & Hs1 & Hm1 & Hn1);
    [done|done|done|done|done|by apply records_walk|by apply records_apart| |].
  { intros x Hx. by apply Hfree, records_tops. }
  destruct (Hini (mk_rstate ar1 (r_pos st))) as (ar2 & E2 & Hs2 & Hm2); [apply Hs1|].
  destruct (release_walk_run sizeof_area area_of_bytes encode image Hcodec (r_pos st) term tl (records rs) uninit fuel (mk_rstate ar2 (r_pos st)))
    as (ar3 & E3 & Hs3 & Hm3 & Hn3 & _); [done|done|done|exact Hat|apply Hs2|by apply records_walk|].
  exists ar1, ar2, ar3. split_and!; [|done|done| | |].
  - unfold reserve_memory_areas. rewrite (prog_bind_ok (gets r_pos) _ st (r_pos st) st eq_refl). by rewrite (prog_bind_ok _ _ _ _ _ E1).
  - eapply same_arena_trans; [exact Hs1|]. eapply same_arena_trans; [exact Hs2|exact Hs3].
  - intros x Hx. rewrite <- records_tops in Hx by done. split; [by apply Hm1|by apply Hn3].
  - intros x Hx. rewrite <- records_tops in Hx by done. destruct (Hn1 x Hx) as (v & Hv). rewrite Hv. by apply Hm2.
Qed.

(** C6. A restart restores the saved memory, and touches no other: given the
    image of regions that do not overlap, the walks that reserve, release and
    fill them return, whatever [RestoreTarget::initialize()] maps in between where
    nothing is mapped; every piece of every region then has its saved protection
    and bytes (zeros for zero pages), all memory outside the regions is as it was
    before the first walk, but for what [initialize()] changed there, nothing that
    [initialize()] mapped or wrote is lost, the list of the upper half's mappings
    holds exactly the regions, and the arena for new mappings begins above them.
    If anything is mapped where a region belongs, the restart does not get past the
    first walk. *)
Theorem restart_restores_memory initialize uninit rs fuel st :
  image_holds st rs → ArenaSpec.arena_ok (knows := true) (r_arena st) → allocated_blocks (r_arena st) = [] → max_allocated_addr (r_arena st) = 0 →
  probe_finds (r_arena st) → keeps_reserved initialize → Z.of_nat (length uninit) = sizeof_area → (length (records rs) + longest rs < fuel)%nat →
  let run := restart_memory sizeof_area area_of_bytes image initialize endOfStack uninit fuel st in
  ((∀ x, in_regions rs x → cell (r_arena st) x = None) →
    ∃ ar1 ar2 st',
      reserve_memory_areas sizeof_area area_of_bytes image fuel st = Ok (r_pos st) (mk_rstate ar1 (r_pos st)) ∧
      initialize (mk_rstate ar1 (r_pos st)) = Ok () (mk_rstate ar2 (r_pos st)) ∧ run = Ok () st' ∧
      (∀ r p, r ∈ rs → p ∈ pieces_of r → piece_restored (kern (r_arena st')) p) ∧
      (∀ x, ¬ in_regions rs x → cell ar1 x = cell (r_arena st) x ∧ cell (r_arena st') x = cell ar2 x) ∧
      (∀ x, cell ar2 x ≠ cell ar1 x → cell (r_arena st') x = cell ar2 x) ∧
      (∀ x, covers (allocated_blocks (r_arena st')) x ↔ in_regions rs x) ∧
      (∀ x, in_regions rs x → x < arena_base (r_arena st')) ∧
      Forall (λ b, b_addr b = arena_base (r_arena st')) (free_blocks (r_arena st'))) ∧
  (∀ x, in_regions rs x → is_Some (cell (r_arena st) x) → ∀ st', run ≠ Ok () st').
Proof.
  intros [Hok Hap (term & tl & Ht & Hat)] Ha Halloc Hmax Hp Hini Hun Hf run. unfold run, restart_memory. split.
  - intros Hfree. destruct (reserve_release_run initialize uninit rs term tl fuel st) as (ar1 & ar2 & ar3 & Er & Ei & El & Hs1 & Hm1 & Hm2); try done; [lia|].
    destruct (regions_run (longest rs) (encode term ++ tl) rs fuel (mk_rstate ar3 (r_pos st)) Hok Hap (longest_within rs) Hf (sa_ok _ _ Hs1) Hat)
      as (st2 & E2 & Hat2 & [A1 A2 A3 A3b A4 A5 A6]). cbn in A2, A3, A3b, A5.
    assert (run_data fuel (mk_rstate ar3 (r_pos st)) = Ok () (st2 <| r_pos := r_pos st2 + sizeof_area |>)) as E3.
    { rewrite E2. destruct (fuel - length (records rs))%nat as [|f] eqn:Ef; [lia|]. cbn [restore_memory_data].
      destruct (read_header_run sizeof_area area_of_bytes encode image Hcodec st2 term tl Hat2) as [Eh _].
      unfold restoreMemoryArea. rewrite prog_bind_assoc, (prog_bind_ok _ _ _ _ _ Eh). cbn [fst snd]. rewrite Z.eqb_refl, (co_decode _ _ _ Hcodec), Ht. done. }
    rewrite (sa_max _ _ Hs1), Hmax in A3, A3b. rewrite (sa_allocated _ _ Hs1), Halloc in A2. specialize (A3b ltac:(lia)).
    assert (∃ ar4, init_mem_arena_after_restore (r_arena st2) = Ok () ar4 ∧ kern ar4 = kern (r_arena st2) ∧ allocated_blocks ar4 = allocated_blocks (r_arena st2) ∧
      arena_base ar4 = ROUND_UP (max_allocated_addr (r_arena st2)) PAGE_SIZE ∧ Forall (λ b, b_addr b = arena_base ar4) (free_blocks ar4)) as (ar4 & E4 & K4 & L4 & B4 & F4).
    { unfold init_mem_arena_after_restore, init_mem_arena. prog_red. eexists. split; [reflexivity|]. do 3 (split; [done|]). by repeat constructor. }
    exists ar1, ar2, (mk_rstate ar4 (r_pos st2 + sizeof_area)). split; [done|]. split; [done|]. split.
    { rewrite (prog_bind_ok _ _ _ _ _ Er), (prog_bind_ok _ _ _ _ _ Ei), (prog_bind_ok _ _ _ _ _ El), (prog_bind_ok _ _ _ _ _ E3).
      unfold on_arena. cbn. by rewrite E4. }
    cbn. rewrite K4, L4, B4 in *. split; [exact A6|].
    assert (∀ x, ¬ in_regions rs x → cell ar1 x = cell (r_arena st) x ∧ cell (r_arena st2) x = cell ar2 x) as Hout.
    { intros x Hx. destruct (Hm1 x Hx) as [? ?]. split; [done|]. by rewrite A5. }
    split; [exact Hout|]. split; [|split; [|split; [|done]]].
    + intros x Hne. apply Hout. intros Hx. by apply Hne, Hm2.
    + intros x. rewrite A2. split; [by intros [[]%covers_nil|?]|by right].
    + intros x Hx%A4. destruct (ROUND_UP_spec (max_allocated_addr (r_arena st2)) 12) as [[? ?] _]; [lia|lia|lia|]. change (2 ^ 12) with PAGE_SIZE in *. lia.
  - intros x Hx Hm st' Hr. unfold reserve_memory_areas in Hr. prog_inv Hr. prog_inv E. injection E0 as <- <-. prog_inv E. injection E as <- <-. 
    destruct a0. by apply (reserve_collision sizeof_area area_of_bytes encode image Hcodec (r_pos st) term tl (records rs) x fuel st) with s0;
      [| |apply records_walk|apply records_tops| |].
Qed.
End restored.
