(* ===== verification/ImageSample.v ===== *)
(** * A kernel with memory, and an image

    A kernel that keeps [ImageLaws]: its state is the log of what was done to
    the memory, the latest first.  Reads from the image return at most 1000
    bytes.  The image of the examples has a stack, a split area and a file. *)
From Stdlib Require Import Ascii String.
From S2P Require Import Prelude MemArena ArenaWrappers ArenaSpec CkptMemory ImageRestore ImageWalk ImageRegions ImageRestoreSpec.

Inductive mem_event :=
  | EMap (s e prot : Z)
  | EUnmap (s e : Z)
  | EProt (s e prot : Z)
  | EStore (s : Z) (bs : list Z).

Definition within (s e x : Z) : bool := (s <=? x) && (x <? e).
Lemma within_decide {A} s e x (a b : A) : (if within s e x then a else b) = if decide (s ≤ x < e) then a else b.
Proof. unfold within. destruct (decide _), (Z.leb_spec s x), (Z.ltb_spec x e); (done || lia). Qed.
Lemma within_spec s e x : within s e x = true ↔ s ≤ x < e.
Proof. unfold within. rewrite andb_true_iff, Z.leb_le, Z.ltb_lt. tauto. Qed.

Fixpoint mem_of (k : list mem_event) (x : Z) : option (Z * option Z) :=
  match k with
  | [] => None
  | EMap s e prot :: k => if within s e x then Some (prot, Some 0) else mem_of k x
  | EUnmap s e :: k => if within s e x then None else mem_of k x
  | EProt s e prot :: k => if within s e x then (λ c, (prot, c.2)) <$> mem_of k x else mem_of k x
  | EStore s bs :: k =>
      if within s (s + Z.of_nat (length bs)) x then (λ c, (c.1, bs !! Z.to_nat (x - s))) <$> mem_of k x else mem_of k x
  end.

Definition no_cell (c : option (Z * option Z)) : bool := match c with None => true | Some _ => false end.
Definition mem_unused (addr len : Z) (k : list mem_event) : bool := forallb (λ x, no_cell (mem_of k x)) (seqZ addr len).
Lemma mem_unused_spec addr len k : mem_unused addr len k = true ↔ ∀ x, addr ≤ x < addr + len → mem_of k x = None.
Proof.
  unfold mem_unused. rewrite forallb_forall. split.
  - intros H x Hx. specialize (H x). rewrite <- list_elem_of_In, elem_of_seqZ in H. specialize (H Hx). by destruct (mem_of k x).
  - intros H x Hx%list_elem_of_In%elem_of_seqZ. by rewrite H.
Qed.

#[export] Instance mem_kernel : Kernel (list mem_event) := {
  sys_mmap addr len prot flags _ _ k :=
    if negb (log_range addr len) then (inr EINVAL, k)
    else if has_flag flags MAP_FIXED || mem_unused addr len k then (inl addr, EMap addr (addr + len) prot :: k)
    else (inr (if has_flag flags MAP_FIXED_NOREPLACE then EEXIST else ENOMEM), k);
  sys_munmap addr len k := if log_range addr len then (inl (), EUnmap addr (addr + len) :: k) else (inr EINVAL, k);
  sys_mremap _ _ _ _ _ k := (inr ENOMEM, k);
  sys_mprotect addr len prot k := (true, EProt addr (addr + len) prot :: k);
  sys_madvise_dontneed _ _ k := (true, k);
  proc_maps k := filter (λ m : Z * Z, m.1 ≤ m.2 ≤ 2 ^ 63) (omap (λ ev, match ev with EMap s e _ => Some (s, e) | _ => None end) k);
  is_libc _ _ := false
}.

Definition read_amount (file : list Z) (pos want limit : Z) : Z := Z.max 0 (Z.min (Z.min want limit) (Z.of_nat (length file) - pos)).

#[export] Instance mem_image_kernel : ImageKernel (list mem_event) := {
  read_len file pos want _ := read_amount file pos want (2 ^ 20);
  sys_read file pos dest want k :=
    let rc := read_amount file pos want 1000 in
    (rc, EStore dest (take (Z.to_nat rc) (drop (Z.to_nat pos) file)) :: k);
  sys_open name := if String.eqb name "/lib/libm.so" then Some (7, 0x2000) else None
}.

Lemma log_range_ok addr len : page_range addr len → log_range addr len = true.
Proof. intros (? & _ & ? & _ & ?). unfold log_range. rewrite !andb_true_iff, !Z.ltb_lt, Z.leb_le. lia. Qed.

Ltac mem_case E := repeat (destruct (log_range _ _) eqn:E; cbn; [|try done]); try (destruct (_ || _) eqn:?; [|try done]).

Lemma mem_kernel_laws : KernelLaws (list mem_event) (λ k x, is_Some (mem_of k x)) true.
Proof.
  split; cbn.
  - intros addr len prot flags fd off k r k'. mem_case E. intros [= <- _]. by apply log_range_spec.
  - intros addr len prot flags fd off k r k' Hf. rewrite Hf. destruct (log_range addr len); cbn; [|done].
    destruct (mem_unused addr len k) eqn:Eu; [|done]. intros [= <- <-]. pose proof (proj1 (mem_unused_spec _ _ _) Eu) as Hu. split; intros x; cbn.
    + intros Hx. rewrite Hu by done. by intros [? ?].
    + pose proof (within_spec addr (addr + len) x). destruct (within _ _ _); split; intros; try tauto; [by eexists|].
      destruct H0 as [?|?]; [done|]. destruct H as [_ H]. by specialize (H H0).
  - intros addr len prot flags fd off k r k' _ _. mem_case E. by intros [= <- _].
  - done.
  - intros addr len prot flags fd off k e k'. mem_case E; by intros [= _ <-].
  - intros addr len k k'. destruct (log_range addr len) eqn:E; [|done]. intros [= <-]. apply log_range_spec in E.
    split; [lia|]. split; [lia|]. split; [lia|]. intros x. cbn. pose proof (within_spec addr (addr + len) x).
    destruct (within _ _ _); split; [by intros [? ?]|tauto| |by intros [? _]]. intros Hs. split; [done|]. intros Hx. destruct H as [_ H]. by specialize (H Hx).
  - intros addr len k e k'. destruct (log_range addr len); [done|]. by intros [= _ <-].
  - done.
  - intros k s e [? _]%list_elem_of_filter. done.
Qed.

#[export] Instance mem_laws : ImageLaws (list mem_event) mem_of.
Proof.
  split; cbn.
  - apply mem_kernel_laws.
  - intros addr len prot flags fd off k r k' x. mem_case E. intros [= <- <-] Hx. cbn. pose proof (within_spec addr (addr + len) x). destruct (within _ _ _); [tauto|done].
  - intros addr len prot flags fd off k r k' x. mem_case E. intros [= <- <-] Hx. cbn. rewrite (proj2 (within_spec _ _ _) Hx). eauto.
  - intros addr len prot flags fd off k e k' x. mem_case E; by intros [= _ <-].
  - intros addr len prot flags fd off k Hf _ Hr _ _ _. rewrite (log_range_ok _ _ Hr), Hf. cbn. eauto.
  - intros addr len prot k Hr Hu. rewrite (log_range_ok _ _ Hr), (proj2 (mem_unused_spec _ _ _) Hu), orb_true_r. cbn. eauto.
  - intros addr len k Hr. rewrite (log_range_ok _ _ Hr). eauto.
  - intros addr len k k' x. destruct (log_range addr len); [|done]. intros [= <-] Hx. cbn. pose proof (within_spec addr (addr + len) x). destruct (within _ _ _); [tauto|done].
  - intros addr len prot k _ _. eexists. split; [done|]. intros x. cbn. by rewrite within_decide.
  - intros file pos want k H1 H2 H3. unfold read_amount. lia.
  - intros file pos dest want k Hp Hw _. eexists _, _. split; [done|]. unfold read_amount. split; [lia|]. split; [lia|]. intros x. cbn.
    set (rc := 0 `max` _). rewrite within_decide, length_take, length_drop.
    replace (Z.of_nat (Z.to_nat rc `min` (length file - Z.to_nat pos))) with rc by lia. destruct (decide _); [|done].
    destruct (mem_of k x) as [c|]; [|done]. cbn. do 2 f_equal. rewrite lookup_take_lt, lookup_drop by lia. f_equal. lia.
  - intros name fd size. destruct (String.eqb _ _); [|done]. intros [= <- <-]. lia.
Qed.

(** ** An image *)

Definition encode_area (a : ProcMapsArea) : list Z :=
  [a_addr a; a_end a; a_size a; a_prot a; a_flags a; a_offset a; a_filesize a; Z.b2z (a_zero a); Z.b2z (a_parent a); Z.b2z (a_child a);
   Zpos (encode (a_name a))].
Definition decode_area (bs : list Z) : ProcMapsArea :=
  match bs with
  | [addr; e; size; prot; flags; offset; filesize; zero; parent; child; Zpos name] =>
      mk_area addr e size prot flags offset filesize (zero =? 1) (parent =? 1) (child =? 1) (default EmptyString (decode name))
  | _ => mk_area 0 0 0 0 0 0 0 false false false EmptyString
  end.
Lemma sample_codec : codec_ok 11 decode_area encode_area.
Proof.
  split; [lia|done|]. intros [addr e size prot flags offset filesize zero parent child name]. cbn. rewrite decode_encode.
  by destruct zero, parent, child.
Qed.

(** A page of the stack; two pages of data of which the first is zero; and three
    bytes of a library that is mapped read-only. *)
Definition sample_stack : ProcMapsArea := mk_area 0x7000 0x8000 0x1000 3 0x22 0 0 false false false "[stack]".
Definition sample_parent : ProcMapsArea := mk_area 0x10000 0x12000 0x2000 1 0x22 0 0 false true false EmptyString.
Definition sample_zero : piece := mk_piece (mk_area 0x10000 0x11000 0x1000 1 0x22 0 0 true false true EmptyString) None.
Definition sample_child : piece :=
  mk_piece (mk_area 0x11000 0x12000 0x1000 1 0x22 0 0 false false true EmptyString) (Some (replicate 4096 9)).
Definition sample_file : ProcMapsArea := mk_area 0x20000 0x21000 0x1000 5 0x2 0 3 false false false "/lib/libm.so".
Definition sample_regions : list region :=
  [Whole sample_stack (replicate 4096 7); Split sample_parent [sample_zero; sample_child]; Whole sample_file [4; 5; 6]].
Definition sample_image : list Z :=
  written encode_area (records sample_regions) ++ encode_area (mk_area 0 0 0 0 0 0 0 false false false EmptyString).

(** The lower half's page is mapped. *)
Definition sample_restart : rstate (list mem_event) :=
  mk_rstate (mk_arena [] [] 0 0 0 (Some true) None [EMap 0x40000 0x41000 3]) 0.

Lemma sample_regions_ok : Forall region_ok sample_regions.
Proof.
  assert (∀ a, 0 < a_addr a ∧ a_addr a / PAGE_SIZE * PAGE_SIZE = a_addr a ∧ 0 < a_size a ∧ a_size a / PAGE_SIZE * PAGE_SIZE = a_size a ∧
    a_addr a + a_size a ≤ 2 ^ 63 ∧ a_offset a = 0 ∧ a_size a < 2 ^ 62 ∧ has_flag (a_flags a) MAP_PRIVATE = true → area_ok a) as Ha.
  { intros a (H1 & H2 & H3 & H4 & H5 & H6 & H7 & H8). split; [|lia|rewrite H6; apply Z.divide_0_r|lia|by left].
    split; [done|]. split; [by exists (a_addr a / PAGE_SIZE)|]. split; [done|]. split; [by exists (a_size a / PAGE_SIZE)|done]. }
  unfold sample_regions. rewrite !Forall_cons. split; [|split; [|split; [|apply Forall_nil_2]]]; cbn [region_ok].
  - split; [by apply Ha|]. do 3 (split; [done|]). split; [by rewrite length_replicate|]. split; done.
  - split; [by apply Ha|]. do 4 (split; [done|]). split; [done|]. rewrite !Forall_cons. split; [|split; [|apply Forall_nil_2]].
    + split; [by apply Ha|done..].
    + split; [by apply Ha|done..|]. split; [done|]. cbn [sample_child p_data]. by rewrite length_replicate.
  - split; [by apply Ha|]. do 3 (split; [done|]). split; [done|]. split; [done|]. intros _ _ _ fd size. cbn. by intros [= _ <-].
Qed.

Lemma sample_regions_apart : regions_apart sample_regions.
Proof.
  cbn. split_and!; try done; intros x Hx; repeat (rewrite in_regions_cons); unfold in_area in *; cbn in *; intros Hi;
    repeat (destruct Hi as [Hi|Hi]; [lia|]); by apply in_regions_nil in Hi.
Qed.

Lemma sample_regions_below x : in_regions sample_regions x → x < 0x30000.
Proof.
  unfold sample_regions. rewrite !in_regions_cons. unfold in_area. cbn [region_area sample_stack sample_parent sample_file a_addr a_size].
  intros [?|[?|[?|[]%in_regions_nil]]]; lia.
Qed.

(** The image above in a process whose lower half has mapped another page, and maps
    one more between the walks. *)
Definition sample_initialize : prog (rstate (list mem_event)) unit :=
  on_arena (sys (sys_mmap 0 0x1000 3 (Z.lor MAP_PRIVATE MAP_ANONYMOUS) (-1) 0)) ;; mret ().
Lemma restart_restores_memory_witness :
  ∃ st', restart_memory 11 decode_area sample_image sample_initialize 0x8000 (replicate 11 0) 4200 sample_restart = Ok () st' ∧
    (∀ r p, r ∈ sample_regions → p ∈ pieces_of r → piece_restored (mem := mem_of) (kern (r_arena st')) p) ∧
    (∀ x, covers (allocated_blocks (r_arena st')) x ↔ in_regions sample_regions x).
Proof.
  destruct (restart_restores_memory 11 decode_area encode_area sample_image 0x8000 sample_codec sample_initialize (replicate 11 0) sample_regions 4200 sample_restart) as [H _].
  - split; [apply sample_regions_ok|apply sample_regions_apart|]. exists (mk_area 0 0 0 0 0 0 0 false false false EmptyString), []. split; [done|].
    split; [done|]. cbn [r_pos sample_restart]. rewrite app_nil_r. done.
  - split; [split; constructor|split; constructor| |done]. by intros x []%covers_nil.
  - done.
  - done.
  - done.
  - by apply mmap_keeps_reserved.
  - done.
  - apply Nat.ltb_lt. vm_compute. reflexivity.
  - destruct H as (ar1 & ar2 & st' & _ & _ & H1 & H2 & _ & _ & H4 & _); [|exists st'; exact (conj H1 (conj H2 H4))]. intros x Hx%sample_regions_below.
    change ((if within 0x40000 0x41000 x then Some (3, Some 0) else None) = @None (Z * option Z)). rewrite within_decide, decide_False by lia. reflexivity.
Defined.
