(* ===== verification/Collectives.v ===== *)
(** * Collective calls and communicators
    ([src/src/mpi-wrappers/mpi_collective_wrappers.cpp], [mpi_comm_wrappers.cpp],
    [mpi_cart_wrappers.cpp], [src/src/virtual_id.cpp], [src/src/seq_num.cpp])

    A collective wrapper counts the call on the communicator's clock, translates
    the handles and calls the lower half.  A call that makes a communicator gives
    it a gid and a clock; [MPI_Comm_free()] starts a barrier on it, and the real
    communicator and the clock go when the barrier is complete.

    The brackets [LOWER_HALF_DISABLE_CKPT()] are those of [LowerHalfGuard].  A
    wait for a drain to go on, which only the checkpoint thread ends, is [Spin]
    here; [CollectiveDrain] is about such waits. *)
From S2P Require Import Prelude Mpi Constants VirtualId Kvdb SeqNum.

(** ** The lower half's calls *)

(** A collective call with its arguments; buffers and arrays are addresses.  The
    nonblocking variants have the same arguments. *)
Inductive coll_call :=
  | Bcast (buffer count datatype root comm : Z)
  | Barrier (comm : Z)
  | Allreduce (sendbuf recvbuf count datatype op comm : Z)
  | Reduce (sendbuf recvbuf count datatype op root comm : Z)
  | Reduce_scatter (sendbuf recvbuf recvcounts datatype op comm : Z)
  | Alltoall (sendbuf sendcount sendtype recvbuf recvcount recvtype comm : Z)
  | Alltoallv (sendbuf sendcounts sdispls sendtype recvbuf recvcounts rdispls recvtype comm : Z)
  | Gather (sendbuf sendcount sendtype recvbuf recvcount recvtype root comm : Z)
  | Gatherv (sendbuf sendcount sendtype recvbuf recvcounts displs recvtype root comm : Z)
  | Scatter (sendbuf sendcount sendtype recvbuf recvcount recvtype root comm : Z)
  | Scatterv (sendbuf sendcounts displs sendtype recvbuf recvcount recvtype root comm : Z)
  | Allgather (sendbuf sendcount sendtype recvbuf recvcount recvtype comm : Z)
  | Allgatherv (sendbuf sendcount sendtype recvbuf recvcounts displs recvtype comm : Z)
  | Scan (sendbuf recvbuf count datatype op comm : Z).

(** A call that makes a communicator. *)
Inductive comm_call :=
  | Comm_create (comm group : Z)
  | Comm_create_group (comm group tag : Z)
  | Comm_split (comm color key : Z)
  | Comm_split_type (comm split_type key info : Z)
  | Comm_dup (comm : Z)
  | Cart_create (comm ndims dims periods reorder : Z)
  | Cart_sub (comm remain_dims : Z).

(** A call is followed by its return code and what it writes.  The calls that
    [new_comm_desc()] makes to describe a communicator change nothing. *)
Class CollLib (L : Type) := {
  MANA_COMM_NULL : Z;
  MANA_COMM_WORLD : Z;
  MANA_COMM_SELF : Z;
  lh_coll : coll_call → L → Z * L;
  lh_icoll : coll_call → L → (Z * Z) * L;              (* code, request *)
  lh_make_comm : comm_call → L → (Z * Z) * L;          (* code, communicator *)
  lh_test_barrier : Z → L → (Z * bool) * L;            (* MPI_Test of a request *)
  lh_free_comm : Z → L → Z * L;
  lh_comm_size : Z → L → Z;
  lh_comm_rank : Z → L → Z;
  lh_comm_group : Z → L → Z * L;
  lh_translate_ranks : Z → list Z → L → list Z;        (* of a group, to ranks in the world *)
  lh_free_group : Z → L → L;
  lh_topo_test : Z → L → Z;
  lh_cartdim : Z → L → Z;
  lh_cart : Z → Z → L → list Z * list Z;               (* dims, periods *)
  lh_bcast_gid : Z → Z → L → Z * L                     (* value, communicator: the value at rank 0 *)
}.

Record pending_free := mk_free { f_gid : Z; f_real_comm : Z; f_request : Z }.

(** The parts of a process that these calls change. *)
Record coll (L : Type) := mk_coll { c_vids : vid_state; c_seq : seq_state; pending_frees : list pending_free; c_lower : L }.
Arguments mk_coll {L} c_vids c_seq pending_frees c_lower.
Arguments c_vids {L} _. Arguments c_seq {L} _. Arguments pending_frees {L} _. Arguments c_lower {L} _.
#[export] Instance eta_coll L : Eta (coll L) := λ s, mk_coll (c_vids s) (c_seq s) (pending_frees s) (c_lower s).

Section wrappers.
Context `{MpiLib} `{CollLib L}.
Context (FORTRAN_MPI_IN_PLACE MPI_IN_PLACE g_world_size g_world_rank : Z) (polls : nat).

Definition on_vids {A} (m : prog vid_state A) : prog (coll L) A := λ s,
  match m (c_vids s) with Ok a st => Ok a (s <| c_vids := st |>) | Abort => Abort | Spin => Spin end.
Definition on_constants {A} (p : prog constants_state A) : prog (coll L) A :=
  on_vids (λ st, match p (consts st) with Ok a cs => Ok a (st <| consts := cs |>) | Abort => Abort | Spin => Spin end).
Definition on_seq {A} (m : prog seq_state A) : prog (coll L) A := λ s,
  match m (c_seq s) with Ok a q => Ok a (s <| c_seq := q |>) | Abort => Abort | Spin => Spin end.
Definition on_lower {A} (f : L → A * L) : prog (coll L) A := λ s,
  let '(a, l) := f (c_lower s) in Ok a (s <| c_lower := l |>).
Definition ask {A} (f : L → A) : prog (coll L) A := gets (λ s, f (c_lower s)).

(** ** Frees that wait for their barriers *)

Definition start_comm_free_barrier (gid real_comm : Z) : prog (coll L) Z :=
  '(retval, request) ← on_lower (lh_icoll (Barrier real_comm));
  (if retval =? MPI_SUCCESS then modify (λ s, s <| pending_frees ::= λ l, l ++ [mk_free gid real_comm request] |>) else mret ()) ;;
  mret retval.

(** [do { retval = MPI_Test(...) } while (retval == MPI_SUCCESS && wait && !flag)]. *)
Fixpoint test_free (fuel : nat) (request : Z) (wait : bool) : prog (coll L) (Z * bool) :=
  match fuel with
  | O => spin
  | S fuel' =>
      '(retval, flag) ← on_lower (lh_test_barrier request);
      if (retval =? MPI_SUCCESS) && wait && negb flag then test_free fuel' request wait else mret (retval, flag)
  end.

Definition finish_free (f : pending_free) (wait : bool) : prog (coll L) bool :=
  '(retval, flag) ← test_free polls (f_request f) wait;
  retval ← (if (retval =? MPI_SUCCESS) && flag then on_lower (lh_free_comm (f_real_comm f)) else mret retval);
  assert_ (retval =? MPI_SUCCESS) ;;
  (if (flag : bool) then modify (λ s, s <| c_seq ::= erase_clock (f_gid f) |>) else mret ()) ;;
  mret flag.

(** The frees that stay. *)
Fixpoint test_frees (l : list pending_free) : prog (coll L) (list pending_free) :=
  match l with
  | [] => mret []
  | f :: l' =>
      flag ← finish_free f false;
      rest ← test_frees l';
      mret (if (flag : bool) then rest else f :: rest)
  end.
Definition test_comm_free_barriers : prog (coll L) unit :=
  l ← gets pending_frees;
  rest ← test_frees l;
  modify (λ s, s <| pending_frees := rest |>).

Definition complete_comm_free_barriers : prog (coll L) unit :=
  l ← gets pending_frees;
  for_each l (λ f, finish_free f true ;; mret ()) ;;
  modify (λ s, s <| pending_frees := [] |>).

(** ** Critical sections *)

(** [begin_critical_section(comm, counted)]. *)
Definition enter_section (comm : Z) (counted : bool) : prog (coll L) unit := λ s,
  let desc := if counted then (λ d, (comm_gid d, comm_size d)) <$> get_comm_desc (c_vids s) comm else None in
  match begin_critical_section desc (c_seq s) with
  | Some (Ok _ q) => Ok () (s <| c_seq := q |>)
  | Some Abort => Abort
  | Some Spin => Spin
  | None => Spin
  end.
Definition commit_begin (comm : Z) : prog (coll L) unit :=
  if comm =? MPI_COMM_NULL then mret () else enter_section comm true.

Definition commit_finish (comm : Z) : prog (coll L) unit :=
  modify (λ s, s <| c_seq ::= commit_ready |>) ;;
  s ← get_state;
  (if must_wait (c_seq s) then spin else mret ()) ;;
  match pending_frees s with [] => mret () | _ => test_comm_free_barriers end.

(** ** Collective wrappers *)

Definition in_place (buf : Z) : Z := if buf =? FORTRAN_MPI_IN_PLACE then MPI_IN_PLACE else buf.

Definition PMPI_Bcast (buffer count datatype root comm : Z) : prog (coll L) Z :=
  commit_begin comm ;;
  real_comm ← on_vids (get_real_id comm);
  real_datatype ← on_vids (get_real_id datatype);
  retval ← on_lower (lh_coll (Bcast buffer count real_datatype root real_comm));
  commit_finish comm ;;
  mret retval.

Definition PMPI_Barrier (comm : Z) : prog (coll L) Z :=
  commit_begin comm ;;
  real_comm ← on_vids (get_real_id comm);
  retval ← on_lower (lh_coll (Barrier real_comm));
  commit_finish comm ;;
  mret retval.

Definition PMPI_Allreduce (sendbuf recvbuf count datatype op comm : Z) : prog (coll L) Z :=
  commit_begin comm ;;
  real_comm ← on_vids (get_real_id comm);
  real_datatype ← on_vids (get_real_id datatype);
  real_op ← on_vids (get_real_id op);
  retval ← on_lower (lh_coll (Allreduce (in_place sendbuf) recvbuf count real_datatype real_op real_comm));
  commit_finish comm ;;
  mret retval.

Definition PMPI_Reduce (sendbuf recvbuf count datatype op root comm : Z) : prog (coll L) Z :=
  commit_begin comm ;;
  real_comm ← on_vids (get_real_id comm);
  real_datatype ← on_vids (get_real_id datatype);
  real_op ← on_vids (get_real_id op);
  retval ← on_lower (lh_coll (Reduce (in_place sendbuf) recvbuf count real_datatype real_op root real_comm));
  commit_finish comm ;;
  mret retval.

Definition PMPI_Reduce_scatter (sendbuf recvbuf recvcounts datatype op comm : Z) : prog (coll L) Z :=
  commit_begin comm ;;
  real_comm ← on_vids (get_real_id comm);
  real_datatype ← on_vids (get_real_id datatype);
  real_op ← on_vids (get_real_id op);
  retval ← on_lower (lh_coll (Reduce_scatter (in_place sendbuf) recvbuf recvcounts real_datatype real_op real_comm));
  commit_finish comm ;;
  mret retval.

Definition MPI_Alltoall_internal (sendbuf sendcount sendtype recvbuf recvcount recvtype comm : Z) : prog (coll L) Z :=
  real_comm ← on_vids (get_real_id comm);
  realSendType ← on_vids (get_real_id sendtype);
  realRecvType ← on_vids (get_real_id recvtype);
  on_lower (lh_coll (Alltoall (in_place sendbuf) sendcount realSendType recvbuf recvcount realRecvType real_comm)).

Definition PMPI_Alltoall (sendbuf sendcount sendtype recvbuf recvcount recvtype comm : Z) : prog (coll L) Z :=
  commit_begin comm ;;
  retval ← MPI_Alltoall_internal sendbuf sendcount sendtype recvbuf recvcount recvtype comm;
  commit_finish comm ;;
  mret retval.

Definition PMPI_Alltoallv (sendbuf sendcounts sdispls sendtype recvbuf recvcounts rdispls recvtype comm : Z) : prog (coll L) Z :=
  commit_begin comm ;;
  real_comm ← on_vids (get_real_id comm);
  realSendType ← on_vids (get_real_id sendtype);
  realRecvType ← on_vids (get_real_id recvtype);
  retval ← on_lower (lh_coll (Alltoallv (in_place sendbuf) sendcounts sdispls realSendType recvbuf recvcounts rdispls realRecvType real_comm));
  commit_finish comm ;;
  mret retval.

(** [MPI_Gather] tests for [FORTRAN_MPI_IN_PLACE] twice. *)
Definition PMPI_Gather (sendbuf sendcount sendtype recvbuf recvcount recvtype root comm : Z) : prog (coll L) Z :=
  commit_begin comm ;;
  real_comm ← on_vids (get_real_id comm);
  realSendType ← on_vids (get_real_id sendtype);
  realRecvType ← on_vids (get_real_id recvtype);
  retval ← on_lower (lh_coll (Gather (in_place (in_place sendbuf)) sendcount realSendType recvbuf recvcount realRecvType root real_comm));
  commit_finish comm ;;
  mret retval.

Definition PMPI_Gatherv (sendbuf sendcount sendtype recvbuf recvcounts displs recvtype root comm : Z) : prog (coll L) Z :=
  commit_begin comm ;;
  real_comm ← on_vids (get_real_id comm);
  realSendType ← on_vids (get_real_id sendtype);
  realRecvType ← on_vids (get_real_id recvtype);
  retval ← on_lower (lh_coll (Gatherv (in_place sendbuf) sendcount realSendType recvbuf recvcounts displs realRecvType root real_comm));
  commit_finish comm ;;
  mret retval.

Definition PMPI_Scatter (sendbuf sendcount sendtype recvbuf recvcount recvtype root comm : Z) : prog (coll L) Z :=
  commit_begin comm ;;
  real_comm ← on_vids (get_real_id comm);
  realSendType ← on_vids (get_real_id sendtype);
  realRecvType ← on_vids (get_real_id recvtype);
  retval ← on_lower (lh_coll (Scatter sendbuf sendcount realSendType (in_place recvbuf) recvcount realRecvType root real_comm));
  commit_finish comm ;;
  mret retval.

Definition PMPI_Scatterv (sendbuf sendcounts displs sendtype recvbuf recvcount recvtype root comm : Z) : prog (coll L) Z :=
  commit_begin comm ;;
  real_comm ← on_vids (get_real_id comm);
  realSendType ← on_vids (get_real_id sendtype);
  realRecvType ← on_vids (get_real_id recvtype);
  retval ← on_lower (lh_coll (Scatterv sendbuf sendcounts displs realSendType (in_place recvbuf) recvcount realRecvType root real_comm));
  commit_finish comm ;;
  mret retval.

Definition PMPI_Allgather (sendbuf sendcount sendtype recvbuf recvcount recvtype comm : Z) : prog (coll L) Z :=
  commit_begin comm ;;
  real_comm ← on_vids (get_real_id comm);
  realSendType ← on_vids (get_real_id sendtype);
  realRecvType ← on_vids (get_real_id recvtype);
  retval ← on_lower (lh_coll (Allgather (in_place sendbuf) sendcount realSendType recvbuf recvcount realRecvType real_comm));
  commit_finish comm ;;
  mret retval.

Definition PMPI_Allgatherv (sendbuf sendcount sendtype recvbuf recvcounts displs recvtype comm : Z) : prog (coll L) Z :=
  commit_begin comm ;;
  real_comm ← on_vids (get_real_id comm);
  realSendType ← on_vids (get_real_id sendtype);
  realRecvType ← on_vids (get_real_id recvtype);
  retval ← on_lower (lh_coll (Allgatherv (in_place sendbuf) sendcount realSendType recvbuf recvcounts displs realRecvType real_comm));
  commit_finish comm ;;
  mret retval.

Definition PMPI_Scan (sendbuf recvbuf count datatype op comm : Z) : prog (coll L) Z :=
  commit_begin comm ;;
  real_comm ← on_vids (get_real_id comm);
  real_datatype ← on_vids (get_real_id datatype);
  real_op ← on_vids (get_real_id op);
  retval ← on_lower (lh_coll (Scan (in_place sendbuf) recvbuf count real_datatype real_op real_comm));
  commit_finish comm ;;
  mret retval.

(** ** Nonblocking collectives *)

Definition new_virt_collective_request (real_request : Z) : prog vid_state Z :=
  request ← add_virt_id real_request NoDesc MANA_REQUEST_KIND;
  slot ← get_virt_id_entry request;
  modify (update_entry slot (λ e, e <| collective := true |>)) ;;
  mret request.

(** The end of a nonblocking wrapper: the return code and [*request]. *)
Definition finish_nonblocking (comm : Z) (r : Z * Z) : prog (coll L) (Z * Z) :=
  request ← (if r.1 =? MPI_SUCCESS then on_vids (new_virt_collective_request r.2) else mret r.2);
  commit_finish comm ;;
  mret (r.1, request).

Definition PMPI_Ibcast (buffer count datatype root comm : Z) : prog (coll L) (Z * Z) :=
  commit_begin comm ;;
  real_comm ← on_vids (get_real_id comm);
  real_datatype ← on_vids (get_real_id datatype);
  r ← on_lower (lh_icoll (Bcast buffer count real_datatype root real_comm));
  finish_nonblocking comm r.

Definition PMPI_Ibarrier (comm : Z) : prog (coll L) (Z * Z) :=
  commit_begin comm ;;
  real_comm ← on_vids (get_real_id comm);
  r ← on_lower (lh_icoll (Barrier real_comm));
  finish_nonblocking comm r.

Definition PMPI_Ireduce (sendbuf recvbuf count datatype op root comm : Z) : prog (coll L) (Z * Z) :=
  commit_begin comm ;;
  real_comm ← on_vids (get_real_id comm);
  real_datatype ← on_vids (get_real_id datatype);
  real_op ← on_vids (get_real_id op);
  r ← on_lower (lh_icoll (Reduce (in_place sendbuf) recvbuf count real_datatype real_op root real_comm));
  finish_nonblocking comm r.

Definition PMPI_Iallreduce (sendbuf recvbuf count datatype op comm : Z) : prog (coll L) (Z * Z) :=
  commit_begin comm ;;
  real_comm ← on_vids (get_real_id comm);
  real_datatype ← on_vids (get_real_id datatype);
  real_op ← on_vids (get_real_id op);
  r ← on_lower (lh_icoll (Allreduce (in_place sendbuf) recvbuf count real_datatype real_op real_comm));
  finish_nonblocking comm r.

Definition PMPI_Ireduce_scatter (sendbuf recvbuf recvcounts datatype op comm : Z) : prog (coll L) (Z * Z) :=
  commit_begin comm ;;
  real_comm ← on_vids (get_real_id comm);
  real_datatype ← on_vids (get_real_id datatype);
  real_op ← on_vids (get_real_id op);
  r ← on_lower (lh_icoll (Reduce_scatter (in_place sendbuf) recvbuf recvcounts real_datatype real_op real_comm));
  finish_nonblocking comm r.

Definition PMPI_Iscan (sendbuf recvbuf count datatype op comm : Z) : prog (coll L) (Z * Z) :=
  commit_begin comm ;;
  real_comm ← on_vids (get_real_id comm);
  real_datatype ← on_vids (get_real_id datatype);
  real_op ← on_vids (get_real_id op);
  r ← on_lower (lh_icoll (Scan (in_place sendbuf) recvbuf count real_datatype real_op real_comm));
  finish_nonblocking comm r.

Definition PMPI_Ialltoall (sendbuf sendcount sendtype recvbuf recvcount recvtype comm : Z) : prog (coll L) (Z * Z) :=
  commit_begin comm ;;
  real_comm ← on_vids (get_real_id comm);
  realSendType ← on_vids (get_real_id sendtype);
  realRecvType ← on_vids (get_real_id recvtype);
  r ← on_lower (lh_icoll (Alltoall (in_place sendbuf) sendcount realSendType recvbuf recvcount realRecvType real_comm));
  finish_nonblocking comm r.

Definition PMPI_Ialltoallv (sendbuf sendcounts sdispls sendtype recvbuf recvcounts rdispls recvtype comm : Z) : prog (coll L) (Z * Z) :=
  commit_begin comm ;;
  real_comm ← on_vids (get_real_id comm);
  realSendType ← on_vids (get_real_id sendtype);
  realRecvType ← on_vids (get_real_id recvtype);
  r ← on_lower (lh_icoll (Alltoallv (in_place sendbuf) sendcounts sdispls realSendType recvbuf recvcounts rdispls realRecvType real_comm));
  finish_nonblocking comm r.

Definition PMPI_Iallgather (sendbuf sendcount sendtype recvbuf recvcount recvtype comm : Z) : prog (coll L) (Z * Z) :=
  commit_begin comm ;;
  real_comm ← on_vids (get_real_id comm);
  realSendType ← on_vids (get_real_id sendtype);
  realRecvType ← on_vids (get_real_id recvtype);
  r ← on_lower (lh_icoll (Allgather (in_place sendbuf) sendcount realSendType recvbuf recvcount realRecvType real_comm));
  finish_nonblocking comm r.

Definition PMPI_Iallgatherv (sendbuf sendcount sendtype recvbuf recvcounts displs recvtype comm : Z) : prog (coll L) (Z * Z) :=
  commit_begin comm ;;
  real_comm ← on_vids (get_real_id comm);
  realSendType ← on_vids (get_real_id sendtype);
  realRecvType ← on_vids (get_real_id recvtype);
  r ← on_lower (lh_icoll (Allgatherv (in_place sendbuf) sendcount realSendType recvbuf recvcounts displs realRecvType real_comm));
  finish_nonblocking comm r.

Definition PMPI_Igather (sendbuf sendcount sendtype recvbuf recvcount recvtype root comm : Z) : prog (coll L) (Z * Z) :=
  commit_begin comm ;;
  real_comm ← on_vids (get_real_id comm);
  realSendType ← on_vids (get_real_id sendtype);
  realRecvType ← on_vids (get_real_id recvtype);
  r ← on_lower (lh_icoll (Gather (in_place sendbuf) sendcount realSendType recvbuf recvcount realRecvType root real_comm));
  finish_nonblocking comm r.

Definition PMPI_Igatherv (sendbuf sendcount sendtype recvbuf recvcounts displs recvtype root comm : Z) : prog (coll L) (Z * Z) :=
  commit_begin comm ;;
  real_comm ← on_vids (get_real_id comm);
  realSendType ← on_vids (get_real_id sendtype);
  realRecvType ← on_vids (get_real_id recvtype);
  r ← on_lower (lh_icoll (Gatherv (in_place sendbuf) sendcount realSendType recvbuf recvcounts displs realRecvType root real_comm));
  finish_nonblocking comm r.

Definition PMPI_Iscatter (sendbuf sendcount sendtype recvbuf recvcount recvtype root comm : Z) : prog (coll L) (Z * Z) :=
  commit_begin comm ;;
  real_comm ← on_vids (get_real_id comm);
  realSendType ← on_vids (get_real_id sendtype);
  realRecvType ← on_vids (get_real_id recvtype);
  r ← on_lower (lh_icoll (Scatter sendbuf sendcount realSendType (in_place recvbuf) recvcount realRecvType root real_comm));
  finish_nonblocking comm r.

Definition PMPI_Iscatterv (sendbuf sendcounts displs sendtype recvbuf recvcount recvtype root comm : Z) : prog (coll L) (Z * Z) :=
  commit_begin comm ;;
  real_comm ← on_vids (get_real_id comm);
  realSendType ← on_vids (get_real_id sendtype);
  realRecvType ← on_vids (get_real_id recvtype);
  r ← on_lower (lh_icoll (Scatterv sendbuf sendcounts displs realSendType (in_place recvbuf) recvcount realRecvType root real_comm));
  finish_nonblocking comm r.

(** ** New communicators *)

(** C computes [gids_made++ * g_world_size + g_world_rank] in 64 bits. *)
Definition make_gid : prog vid_state Z :=
  st ← get_state;
  modify (λ st, st <| gids_made ::= λ n, u64 (n + 1) |>) ;;
  mret (u64 (gids_made st * g_world_size + g_world_rank)).

Definition new_comm_desc (real_comm : Z) : prog (coll L) mana_comm_desc :=
  size ← ask (lh_comm_size real_comm);
  rank ← ask (lh_comm_rank real_comm);
  local_group ← on_lower (lh_comm_group real_comm);
  global_ranks ← ask (lh_translate_ranks local_group (seqZ 0 size));
  on_lower (λ l, ((), lh_free_group local_group l)) ;;
  topology ← ask (lh_topo_test real_comm);
  ndims ← (if topology =? MPI_CART then ask (lh_cartdim real_comm) else mret (-1));
  cart ← (if 0 <? ndims then ask (lh_cart real_comm ndims) else mret ([], []));
  gid ← (if rank =? 0 then on_vids make_gid else mret 0);
  gid ← (if 1 <? size then on_lower (lh_bcast_gid gid real_comm) else mret gid);
  on_seq (add_comm_clock gid) ;;
  mret (mk_comm_desc size rank global_ranks ndims cart.1 cart.2 gid).

Definition new_virt_comm (real_comm : Z) : prog (coll L) Z :=
  if real_comm =? MANA_COMM_NULL then mret MPI_COMM_NULL else
  desc ← new_comm_desc real_comm;
  on_vids (add_virt_id real_comm (CommDesc desc) MANA_COMM_KIND).

Definition init_world_comm : prog (coll L) unit :=
  '(_, world) ← on_lower (lh_make_comm (Comm_dup MANA_COMM_WORLD));
  world ← new_virt_comm world;
  on_vids (modify (λ st, st <| g_world_comm := world |>)) ;;
  self ← new_comm_desc MANA_COMM_SELF;
  on_vids (modify (λ st, st <| self_desc := Some self |>)).

(** The end of a wrapper that makes a communicator: the return code and
    [*newcomm]. *)
Definition finish_make (comm : Z) (r : Z * Z) : prog (coll L) (Z * Z) :=
  newcomm ← (if r.1 =? MPI_SUCCESS then
               if r.2 =? MANA_COMM_NULL then mret MPI_COMM_NULL else new_virt_comm r.2
             else mret r.2);
  commit_finish comm ;;
  mret (r.1, newcomm).
(** The Cartesian wrappers leave the null communicator to [new_virt_comm()]. *)
Definition finish_cart (comm : Z) (r : Z * Z) : prog (coll L) (Z * Z) :=
  newcomm ← (if r.1 =? MPI_SUCCESS then new_virt_comm r.2 else mret r.2);
  commit_finish comm ;;
  mret (r.1, newcomm).

Definition PMPI_Comm_create (comm group : Z) : prog (coll L) (Z * Z) :=
  commit_begin comm ;;
  real_comm ← on_vids (get_real_id comm);
  real_group ← on_vids (get_real_id group);
  r ← on_lower (lh_make_comm (Comm_create real_comm real_group));
  finish_make comm r.

Definition MPI_Comm_create_group_internal (comm group tag : Z) : prog (coll L) (Z * Z) :=
  real_comm ← on_vids (get_real_id comm);
  real_group ← on_vids (get_real_id group);
  on_lower (lh_make_comm (Comm_create_group real_comm real_group tag)).
(** Only the members of the group call it, so it is not counted. *)
Definition PMPI_Comm_create_group (comm group tag : Z) : prog (coll L) (Z * Z) :=
  enter_section comm false ;;
  r ← MPI_Comm_create_group_internal comm group tag;
  finish_make comm r.

Definition PMPI_Comm_split (comm color key : Z) : prog (coll L) (Z * Z) :=
  commit_begin comm ;;
  real_comm ← on_vids (get_real_id comm);
  r ← on_lower (lh_make_comm (Comm_split real_comm color key));
  finish_make comm r.

Definition PMPI_Comm_split_type (comm split_type key inf : Z) : prog (coll L) (Z * Z) :=
  commit_begin comm ;;
  real_comm ← on_vids (get_real_id comm);
  real_info ← on_constants (lower_half_handle inf);
  r ← on_lower (lh_make_comm (Comm_split_type real_comm split_type key real_info));
  finish_make comm r.

(** The part of [MPI_Comm_dup] before the attributes are copied. *)
Definition comm_dup (comm : Z) : prog (coll L) (Z * Z) :=
  commit_begin comm ;;
  real_comm ← on_vids (get_real_id comm);
  r ← on_lower (lh_make_comm (Comm_dup real_comm));
  finish_make comm r.

Definition PMPI_Cart_create (old_comm ndims dims periods reorder : Z) : prog (coll L) (Z * Z) :=
  let reorder := 0 in
  commit_begin old_comm ;;
  real_comm ← on_vids (get_real_id old_comm);
  r ← on_lower (lh_make_comm (Cart_create real_comm ndims dims periods reorder));
  finish_cart old_comm r.

Definition PMPI_Cart_sub (comm remain_dims : Z) : prog (coll L) (Z * Z) :=
  commit_begin comm ;;
  real_comm ← on_vids (get_real_id comm);
  r ← on_lower (lh_make_comm (Cart_sub real_comm remain_dims));
  finish_cart comm r.

(** ** MPI_Comm_free, after the delete callbacks *)

Definition MPI_Comm_free_internal (comm : Z) : prog (coll L) Z :=
  real_comm ← on_vids (get_real_id comm);
  on_lower (lh_free_comm real_comm).

(** The return code and [*comm]. *)
Definition comm_free (comm : Z) : prog (coll L) (Z * Z) :=
  commit_begin comm ;;
  s ← get_state;
  retval ← match lookup_virt_id_entry (c_vids s) comm, get_comm_desc (c_vids s) comm with
           | Some _, Some desc =>
               real_comm ← on_vids (get_real_id comm);
               start_comm_free_barrier (comm_gid desc) real_comm
           | _, _ => MPI_Comm_free_internal comm
           end;
  newcomm ← (if retval =? MPI_SUCCESS then on_vids (free_virt_id comm) ;; mret MPI_COMM_NULL else mret comm);
  commit_finish newcomm ;;
  mret (retval, newcomm).
End wrappers.
