(* ===== verification/CollectivesSpec.v ===== *)
(** * Collective calls: what a wrapper does

    The 28 wrappers of collective calls, as one function of the call, and the
    effect of a call on the process: the clock of its communicator counts it
    once, and the lower half gets the same call with each handle translated. *)
From S2P Require Import Prelude Mpi Constants VirtualId VirtualIdInv VirtualIdSpec Kvdb SeqNum Collectives.

(** ** The handles of a call *)

Definition coll_comm (c : coll_call) : Z :=
  match c with
  | Bcast _ _ _ _ comm | Barrier comm | Allreduce _ _ _ _ _ comm | Reduce _ _ _ _ _ _ comm
  | Reduce_scatter _ _ _ _ _ comm | Alltoall _ _ _ _ _ _ comm | Alltoallv _ _ _ _ _ _ _ _ comm
  | Gather _ _ _ _ _ _ _ comm | Gatherv _ _ _ _ _ _ _ _ comm | Scatter _ _ _ _ _ _ _ comm
  | Scatterv _ _ _ _ _ _ _ _ comm | Allgather _ _ _ _ _ _ comm | Allgatherv _ _ _ _ _ _ _ comm
  | Scan _ _ _ _ _ comm => comm
  end.

(** The communicator, the datatypes and the operation. *)
Definition coll_handles (c : coll_call) : list Z :=
  match c with
  | Bcast _ _ t _ comm => [comm; t]
  | Barrier comm => [comm]
  | Allreduce _ _ _ t op comm | Reduce _ _ _ t op _ comm | Reduce_scatter _ _ _ t op comm
  | Scan _ _ _ t op comm => [comm; t; op]
  | Alltoall _ _ st _ _ rt comm | Alltoallv _ _ _ st _ _ _ rt comm | Gather _ _ st _ _ rt _ comm
  | Gatherv _ _ st _ _ _ rt _ comm | Scatter _ _ st _ _ rt _ comm | Scatterv _ _ _ st _ _ rt _ comm
  | Allgather _ _ st _ _ rt comm | Allgatherv _ _ st _ _ _ rt comm => [comm; st; rt]
  end.

(** The call with each handle [h] replaced by [f h], and the buffer that may be
    [MPI_IN_PLACE] replaced by [g] of it. *)
Definition map_call (f g : Z → Z) (c : coll_call) : coll_call :=
  match c with
  | Bcast b n t r comm => Bcast b n (f t) r (f comm)
  | Barrier comm => Barrier (f comm)
  | Allreduce s r n t op comm => Allreduce (g s) r n (f t) (f op) (f comm)
  | Reduce s r n t op root comm => Reduce (g s) r n (f t) (f op) root (f comm)
  | Reduce_scatter s r n t op comm => Reduce_scatter (g s) r n (f t) (f op) (f comm)
  | Alltoall s sn st r rn rt comm => Alltoall (g s) sn (f st) r rn (f rt) (f comm)
  | Alltoallv s sn sd st r rn rd rt comm => Alltoallv (g s) sn sd (f st) r rn rd (f rt) (f comm)
  | Gather s sn st r rn rt root comm => Gather (g s) sn (f st) r rn (f rt) root (f comm)
  | Gatherv s sn st r rn d rt root comm => Gatherv (g s) sn (f st) r rn d (f rt) root (f comm)
  | Scatter s sn st r rn rt root comm => Scatter s sn (f st) (g r) rn (f rt) root (f comm)
  | Scatterv s sn d st r rn rt root comm => Scatterv s sn d (f st) (g r) rn (f rt) root (f comm)
  | Allgather s sn st r rn rt comm => Allgather (g s) sn (f st) r rn (f rt) (f comm)
  | Allgatherv s sn st r rn d rt comm => Allgatherv (g s) sn (f st) r rn d (f rt) (f comm)
  | Scan s r n t op comm => Scan (g s) r n (f t) (f op) (f comm)
  end.

Section calls.
Context `{MpiLib} `{CollLib L}.
Context (FORTRAN_MPI_IN_PLACE MPI_IN_PLACE : Z) (polls : nat).
Implicit Types (s : coll L).

(** The wrapper that an application's call reaches. *)
Definition blocking_wrapper (c : coll_call) : prog (coll L) Z :=
  let w {A} (f : Z → Z → A) := f FORTRAN_MPI_IN_PLACE MPI_IN_PLACE in
  match c with
  | Bcast b n t r comm => PMPI_Bcast polls b n t r comm
  | Barrier comm => PMPI_Barrier polls comm
  | Allreduce s r n t op comm => w PMPI_Allreduce polls s r n t op comm
  | Reduce s r n t op root comm => w PMPI_Reduce polls s r n t op root comm
  | Reduce_scatter s r n t op comm => w PMPI_Reduce_scatter polls s r n t op comm
  | Alltoall s sn st r rn rt comm => w PMPI_Alltoall polls s sn st r rn rt comm
  | Alltoallv s sn sd st r rn rd rt comm => w PMPI_Alltoallv polls s sn sd st r rn rd rt comm
  | Gather s sn st r rn rt root comm => w PMPI_Gather polls s sn st r rn rt root comm
  | Gatherv s sn st r rn d rt root comm => w PMPI_Gatherv polls s sn st r rn d rt root comm
  | Scatter s sn st r rn rt root comm => w PMPI_Scatter polls s sn st r rn rt root comm
  | Scatterv s sn d st r rn rt root comm => w PMPI_Scatterv polls s sn d st r rn rt root comm
  | Allgather s sn st r rn rt comm => w PMPI_Allgather polls s sn st r rn rt comm
  | Allgatherv s sn st r rn d rt comm => w PMPI_Allgatherv polls s sn st r rn d rt comm
  | Scan s r n t op comm => w PMPI_Scan polls s r n t op comm
  end.

Definition nonblocking_wrapper (c : coll_call) : prog (coll L) (Z * Z) :=
  let w {A} (f : Z → Z → A) := f FORTRAN_MPI_IN_PLACE MPI_IN_PLACE in
  match c with
  | Bcast b n t r comm => PMPI_Ibcast polls b n t r comm
  | Barrier comm => PMPI_Ibarrier polls comm
  | Allreduce s r n t op comm => w PMPI_Iallreduce polls s r n t op comm
  | Reduce s r n t op root comm => w PMPI_Ireduce polls s r n t op root comm
  | Reduce_scatter s r n t op comm => w PMPI_Ireduce_scatter polls s r n t op comm
  | Alltoall s sn st r rn rt comm => w PMPI_Ialltoall polls s sn st r rn rt comm
  | Alltoallv s sn sd st r rn rd rt comm => w PMPI_Ialltoallv polls s sn sd st r rn rd rt comm
  | Gather s sn st r rn rt root comm => w PMPI_Igather polls s sn st r rn rt root comm
  | Gatherv s sn st r rn d rt root comm => w PMPI_Igatherv polls s sn st r rn d rt root comm
  | Scatter s sn st r rn rt root comm => w PMPI_Iscatter polls s sn st r rn rt root comm
  | Scatterv s sn d st r rn rt root comm => w PMPI_Iscatterv polls s sn d st r rn rt root comm
  | Allgather s sn st r rn rt comm => w PMPI_Iallgather polls s sn st r rn rt comm
  | Allgatherv s sn st r rn d rt comm => w PMPI_Iallgatherv polls s sn st r rn d rt comm
  | Scan s r n t op comm => w PMPI_Iscan polls s r n t op comm
  end.

(** ** One shape for all wrappers *)

Let place := in_place FORTRAN_MPI_IN_PLACE MPI_IN_PLACE.
Abbreviation finish := (commit_finish polls).

Lemma in_place_idem b : place (place b) = place b.
Proof.
  unfold place, in_place. destruct (Z.eqb_spec b FORTRAN_MPI_IN_PLACE) as [->|Hb].
  - by destruct (MPI_IN_PLACE =? _).
  - by rewrite (proj2 (Z.eqb_neq _ _)).
Qed.

(** [real] translates the handles of [c]. *)
Definition translates (real : Z → Z) (st : vid_state) (c : coll_call) : Prop :=
  Forall (λ h, get_real_id h st = Ok (real h) st) (coll_handles c).

Lemma on_vids_real real s h :
  get_real_id h (c_vids s) = Ok (real h) (c_vids s) → on_vids (get_real_id h) s = Ok (real h) s.
Proof. intros E. unfold on_vids. rewrite E. by destruct s. Qed.

(** Runs a statement whose effect is known. *)
Ltac run_stmt :=
  match goal with
  | E : ?m ?s = Ok ?a ?t |- context [(?m ≫= ?f) ?s] => rewrite (prog_bind_ok m f s a t E)
  end.

Ltac unfold_blocking :=
  unfold PMPI_Bcast, PMPI_Barrier, PMPI_Allreduce, PMPI_Reduce, PMPI_Reduce_scatter, PMPI_Alltoall,
    PMPI_Alltoallv, PMPI_Gather, PMPI_Gatherv, PMPI_Scatter, PMPI_Scatterv, PMPI_Allgather,
    PMPI_Allgatherv, PMPI_Scan, MPI_Alltoall_internal; fold place; rewrite ?in_place_idem.
Ltac unfold_nonblocking :=
  unfold PMPI_Ibcast, PMPI_Ibarrier, PMPI_Iallreduce, PMPI_Ireduce, PMPI_Ireduce_scatter,
    PMPI_Ialltoall, PMPI_Ialltoallv, PMPI_Igather, PMPI_Igatherv, PMPI_Iscatter, PMPI_Iscatterv,
    PMPI_Iallgather, PMPI_Iallgatherv, PMPI_Iscan; fold place.

(** After [commit_begin()], a wrapper calls the lower half with the translated
    handles. *)
Lemma blocking_shape real c s s1 :
  commit_begin (coll_comm c) s = Ok () s1 → translates real (c_vids s1) c →
  blocking_wrapper c s =
    (retval ← on_lower (lh_coll (map_call real place c)); finish (coll_comm c) ;; mret retval) s1.
Proof.
  intros E Ht. unfold translates in Ht.
  destruct c; cbn [blocking_wrapper coll_comm coll_handles map_call] in *; unfold_blocking;
    decompose_Forall_hyps;
    repeat match goal with Hr : get_real_id _ _ = _ |- _ => apply on_vids_real in Hr end;
    run_stmt; rewrite ?prog_bind_assoc; repeat (rewrite ?prog_bind_assoc; run_stmt); reflexivity.
Qed.

Lemma nonblocking_shape real c s s1 :
  commit_begin (coll_comm c) s = Ok () s1 → translates real (c_vids s1) c →
  nonblocking_wrapper c s =
    (r ← on_lower (lh_icoll (map_call real place c)); finish_nonblocking polls (coll_comm c) r) s1.
Proof.
  intros E Ht. unfold translates in Ht.
  destruct c; cbn [nonblocking_wrapper coll_comm coll_handles map_call] in *; unfold_nonblocking;
    decompose_Forall_hyps;
    repeat match goal with Hr : get_real_id _ _ = _ |- _ => apply on_vids_real in Hr end;
    repeat run_stmt; reflexivity.
Qed.
(** ** The effect of a call *)

(** The clock of a counted call.  During a drain, a call past the target raises
    it. *)
Definition tick (pending : bool) (k : comm_clock) : comm_clock :=
  let seq' := u64 (clock_seq k + 1) in
  mk_clock seq' (if pending then Z.max (clock_target k) seq' else clock_target k).

(** A call on a communicator of [size] members raises the target for others. *)
Definition raises (pending : bool) (size : Z) (k : comm_clock) : bool :=
  pending && (clock_target k <? u64 (clock_seq k + 1)) && (1 <? size).

(** The clocks of the process while it is in a call on [comm]. *)
Definition counted (comm : Z) (st : vid_state) (q : seq_state) : seq_state :=
  if comm =? MPI_COMM_NULL then q else
  let q' := q <| current_phase := IN_CS |> in
  match d ← get_comm_desc st comm; k ← clocks q !! comm_gid d; Some (d, k) with
  | None => q'
  | Some (d, k) =>
      q' <| clocks := <[comm_gid d := tick (ckpt_pending q) k]> (clocks q) |>
         <| raised_clocks := raised_clocks q ++
              (if raises (ckpt_pending q) (comm_size d) k then [comm_gid d] else []) |>
  end.

(** The clock of the communicator, if it has a descriptor, is there. *)
Definition has_clock (comm : Z) (s : coll L) : Prop :=
  ∀ d, get_comm_desc (c_vids s) comm = Some d → is_Some (clocks (c_seq s) !! comm_gid d).

Lemma count_call_eq comm s :
  has_clock comm s → comm ≠ MPI_COMM_NULL →
  count_call ((λ d, (comm_gid d, comm_size d)) <$> get_comm_desc (c_vids s) comm) (c_seq s) =
    Ok () (counted comm (c_vids s) (c_seq s)).
Proof.
  intros Hc Hn. unfold counted. rewrite (proj2 (Z.eqb_neq _ _)) by done.
  destruct (get_comm_desc (c_vids s) comm) as [d|] eqn:Ed; [|done].
  destruct (Hc d Ed) as [k Hk]. simpl. unfold count_call, raises, tick. prog_red.
  destruct (c_seq s) as [pending phase cl raised added version]. simpl in *. rewrite Hk. simpl.
  destruct pending; simpl; [|by rewrite app_nil_r].
  destruct (Z.ltb_spec (clock_target k) (u64 (clock_seq k + 1))); simpl.
  - rewrite Z.max_r by lia. destruct (1 <? comm_size d); simpl; [done|by rewrite app_nil_r].
  - rewrite Z.max_l by lia. by rewrite app_nil_r.
Qed.

Lemma commit_begin_run comm s :
  has_clock comm s → negb (comm =? MPI_COMM_NULL) && must_wait (c_seq s) = false →
  commit_begin comm s = Ok () (s <| c_seq := counted comm (c_vids s) (c_seq s) |>).
Proof.
  intros Hc Hw. unfold commit_begin. destruct (Z.eqb_spec comm MPI_COMM_NULL) as [->|Hn].
  { unfold counted. rewrite Z.eqb_refl. by destruct s. }
  simpl in Hw. unfold enter_section, begin_critical_section. rewrite Hw.
  by rewrite count_call_eq.
Qed.

Lemma commit_begin_waits comm s :
  negb (comm =? MPI_COMM_NULL) && must_wait (c_seq s) = true → commit_begin comm s = Spin.
Proof.
  intros [Hn Hw]%andb_true_iff. unfold commit_begin. destruct (comm =? MPI_COMM_NULL); [done|].
  unfold enter_section, begin_critical_section. by rewrite Hw.
Qed.

Lemma wrappers_wait c s :
  commit_begin (coll_comm c) s = Spin → blocking_wrapper c s = Spin ∧ nonblocking_wrapper c s = Spin.
Proof.
  intros E. assert (∀ A (f : () → prog (coll L) A), (commit_begin (coll_comm c) ≫= f) s = Spin) as Hs.
  { intros A f. unfold mbind, prog_bind. by rewrite E. }
  split; destruct c; apply Hs.
Qed.

(** The end of a call: a process that a drain holds back waits, and the
    barriers of freed communicators are tested. *)
Definition end_call {A} (r : A) : prog (coll L) A := λ s,
  if must_wait (c_seq s) then Spin
  else match pending_frees s with
       | [] => Ok r s
       | _ => (test_comm_free_barriers polls ;; mret r) s
       end.

Lemma commit_finish_eq {A} comm (r : A) s :
  (finish comm ;; mret r) s = end_call r (s <| c_seq ::= commit_ready |>).
Proof.
  unfold commit_finish, end_call. prog_red.
  destruct (must_wait (c_seq (s <| c_seq ::= commit_ready |>))); [done|].
  destruct s as [vids q frees l]. simpl. by destruct frees.
Qed.

(** C12. A collective call is counted once and reaches the lower half translated.
    Let [c] be any of the 14 collective calls, blocking or not, on handles that
    [real] translates.  The wrapper counts the call on the clock of its
    communicator, and on no other (a call on [MPI_COMM_NULL] or on an invalid
    handle is not counted); then the lower half gets the same call, in which
    each handle is the real one and [FORTRAN_MPI_IN_PLACE] is [MPI_IN_PLACE];
    its return code is the application's.  A nonblocking call that succeeds
    makes a virtual request; one that fails leaves the table as it is.  The
    call waits only while a drain runs whose targets the process has reached. *)
Theorem collective_call_exact c real s :
  translates real (c_vids s) c → has_clock (coll_comm c) s →
  let comm := coll_comm c in
  let call := map_call real place c in
  let q := commit_ready (counted comm (c_vids s) (c_seq s)) in
  let waits := negb (comm =? MPI_COMM_NULL) && must_wait (c_seq s) in
  blocking_wrapper c s =
    (if waits then Spin else
     let '(rc, l) := lh_coll call (c_lower s) in
     end_call rc (mk_coll (c_vids s) q (pending_frees s) l)) ∧
  nonblocking_wrapper c s =
    (if waits then Spin else
     let '((rc, request), l) := lh_icoll call (c_lower s) in
     if rc =? MPI_SUCCESS then
       match new_virt_collective_request request (c_vids s) with
       | Ok virt st => end_call (rc, virt) (mk_coll st q (pending_frees s) l)
       | Abort => Abort
       | Spin => Spin
       end
     else end_call (rc, request) (mk_coll (c_vids s) q (pending_frees s) l)).
Proof.
  intros Ht Hc comm call q waits. destruct waits eqn:Ew.
  { by apply wrappers_wait, commit_begin_waits. }
  pose proof (commit_begin_run comm s Hc Ew) as E. split.
  - rewrite (blocking_shape real c s _ E Ht). unfold on_lower at 1, mbind, prog_bind. simpl.
    fold call. destruct (lh_coll call (c_lower s)) as [rc l]. apply commit_finish_eq.
  - rewrite (nonblocking_shape real c s _ E Ht). unfold on_lower at 1, mbind, prog_bind. simpl.
    fold call. destruct (lh_icoll call (c_lower s)) as [[rc request] l].
    unfold finish_nonblocking. simpl. destruct (rc =? MPI_SUCCESS).
    + unfold on_vids, mbind at 1, prog_bind at 1. simpl.
      destruct (new_virt_collective_request request (c_vids s)); [|done..].
      apply commit_finish_eq.
    + apply commit_finish_eq.
Qed.
End calls.

(** ** A sample *)

(** A lower half of one process that records the collective calls. *)
Definition sample_coll_lib : CollLib (list coll_call) := {|
  MANA_COMM_NULL := 1; MANA_COMM_WORLD := 2; MANA_COMM_SELF := 3;
  lh_coll c l := (0, l ++ [c]);
  lh_icoll c l := ((0, 900), l ++ [c]);
  lh_make_comm _ l := ((0, 500), l);
  lh_test_barrier _ l := ((0, true), l);
  lh_free_comm _ l := (0, l);
  lh_comm_size _ _ := 1;
  lh_comm_rank _ _ := 0;
  lh_comm_group _ l := (700, l);
  lh_translate_ranks _ ranks _ := ranks;
  lh_free_group _ l := l;
  lh_topo_test _ _ := -32766;
  lh_cartdim _ _ := 0;
  lh_cart _ _ _ := ([], []);
  lh_bcast_gid v _ l := (v, l)
|}.

(** A process with a communicator, a datatype and an operation. *)
Definition sample_objects : prog vid_state (Z * Z * Z) :=
  c ← add_virt_id 200 (CommDesc sample_comm) MANA_COMM_KIND;
  t ← add_virt_id 300 (DatatypeDesc zero_datatype_desc) MANA_DATATYPE_KIND;
  op ← add_virt_id 400 (OpDesc (mk_op_desc 0 1)) MANA_OP_KIND;
  mret (c, t, op).
Definition sample_vids : vid_state := match sample_objects init_vid with Ok _ st => st | _ => init_vid end.
Definition sample_process : coll (list coll_call) :=
  mk_coll sample_vids (mk_seq false IS_READY {[7 := mk_clock 4 0]} [] false 0) [] [].
(** [MPI_Allreduce(MPI_IN_PLACE, 60, 8, t, op, c)] of a Fortran program. *)
Definition sample_call : coll_call := Allreduce 50 60 8 805306369 1073741826 268435456.
Definition sample_real (h : Z) : Z := if h =? 268435456 then 200 else if h =? 805306369 then 300 else 400.

Lemma sample_translates : @translates sample_lib sample_real sample_vids sample_call.
Proof. repeat constructor; vm_compute; reflexivity. Qed.
Lemma sample_has_clock : @has_clock sample_lib (list coll_call) 268435456 sample_process.
Proof. intros d Hd. vm_compute in Hd. injection Hd as <-. vm_compute. by eexists. Qed.

Lemma collective_call_exact_witness :
  @blocking_wrapper sample_lib _ sample_coll_lib 50 (-1) 9 sample_call sample_process =
    Ok 0 (mk_coll sample_vids (mk_seq false IS_READY {[7 := mk_clock 5 0]} [] false 0) []
            [Allreduce (-1) 60 8 300 400 200]).
Proof.
  refine (eq_trans (proj1 (@collective_call_exact sample_lib _ sample_coll_lib 50 (-1) 9 sample_call
    sample_real sample_process sample_translates sample_has_clock)) _).
  vm_compute. reflexivity.
Defined.
