(* ===== verification/CommClocks.v ===== *)
(** * Communicators and their clocks

    Each communicator of a process owns one clock, from the call that makes it
    to the end of its [MPI_Comm_free] barrier.  The owners are the entries of
    the virtual-ID table, [self_desc] and [pending_frees]; the invariant
    [clocks_ok] says that the clocks are those of the owners and that no two
    owners share one.  This file proves that the operations of [Collectives]
    keep it. *)
From S2P Require Import Prelude Mpi Constants VirtualId VirtualIdInv VirtualIdSpec PendingLog Kvdb SeqNum Collectives CollectivesSpec.

(** ** The owners of clocks *)

Inductive owner := OHandle (h : Z) | OSelf | OPending.

Definition owns (m : gmap Z (Z * descriptor)) (self : option mana_comm_desc) (frees : list pending_free)
    (o : owner) (g : Z) : Prop :=
  match o with
  | OHandle h => ∃ r d, m !! h = Some (r, CommDesc d) ∧ comm_gid d = g
  | OSelf => ∃ d, self = Some d ∧ comm_gid d = g
  | OPending => g ∈ (f_gid <$> frees)
  end.

Record clocks_ok (m : gmap Z (Z * descriptor)) (self : option mana_comm_desc)
    (frees : list pending_free) (cl : gmap Z comm_clock) : Prop := {
  co_unique : ∀ o o' g, owns m self frees o g → owns m self frees o' g → o = o';
  co_exact : ∀ g, is_Some (cl !! g) ↔ ∃ o, owns m self frees o g;
  co_frees : NoDup (f_gid <$> frees)
}.

Definition is_comm_desc (d : descriptor) : bool := match d with CommDesc _ => true | _ => false end.

Lemma clocks_ok_dom m self frees cl cl' :
  dom cl' = dom cl → clocks_ok m self frees cl → clocks_ok m self frees cl'.
Proof.
  intros Hd [Hu He Hf]. split; [done| |done]. intros g. rewrite <- elem_of_dom, Hd, elem_of_dom. apply He.
Qed.

(** A map with the same communicators. *)
Lemma clocks_ok_map m m' self frees cl :
  (∀ h r d, m' !! h = Some (r, CommDesc d) ↔ m !! h = Some (r, CommDesc d)) →
  clocks_ok m self frees cl → clocks_ok m' self frees cl.
Proof.
  intros Hm [Hu He Hf].
  assert (∀ o g, owns m' self frees o g ↔ owns m self frees o g) as Ho.
  { intros [h| |] g; simpl; [by setoid_rewrite Hm|done..]. }
  split; [intros o o' g; rewrite !Ho; apply Hu| |done]. intros g. setoid_rewrite Ho. apply He.
Qed.

Lemma clocks_ok_insert_other m self frees cl h r d :
  m !! h = None → is_comm_desc d = false →
  clocks_ok m self frees cl → clocks_ok (<[h := (r, d)]> m) self frees cl.
Proof.
  intros Hh Hd. apply clocks_ok_map. intros h' r' d'. rewrite lookup_insert_Some.
  split; [|intros Hm; right; split; [congruence|done]].
  intros [[_ [= _ ->]]|[_ ?]]; [done|done].
Qed.

Lemma clocks_ok_delete_other m self frees cl h r d :
  m !! h = Some (r, d) → is_comm_desc d = false →
  clocks_ok m self frees cl → clocks_ok (delete h m) self frees cl.
Proof.
  intros Hh Hd. apply clocks_ok_map. intros h' r' d'. rewrite lookup_delete_Some.
  split; [tauto|]. intros Hm. split; [|done]. intros ->. simplify_eq.
Qed.

(** A new owner of a new clock. *)
Lemma clocks_ok_add m self frees cl m' self' frees' o d k :
  cl !! comm_gid d = None →
  (∀ o' g, owns m' self' frees' o' g ↔ owns m self frees o' g ∨ (o' = o ∧ g = comm_gid d)) →
  f_gid <$> frees' = f_gid <$> frees →
  clocks_ok m self frees cl → clocks_ok m' self' frees' (<[comm_gid d := k]> cl).
Proof.
  intros Hn Ho Hf [Hu He Hnd].
  assert (∀ o', ¬ owns m self frees o' (comm_gid d)) as Hfresh.
  { intros o' Hown. assert (is_Some (cl !! comm_gid d)) as [? ?]; [|congruence]. apply He. eauto. }
  split; [|intros g|by rewrite Hf].
  - intros o1 o2 g. rewrite !Ho. intros [H1|[-> ->]] [H2|[-> E]]; subst;
      [by eapply Hu|by destruct (Hfresh o1)|by destruct (Hfresh o2)|done].
  - setoid_rewrite Ho. destruct (decide (g = comm_gid d)) as [->|Hg].
    + rewrite lookup_insert_eq. split; [eauto|by eexists].
    + rewrite lookup_insert_ne by done. rewrite He. split; intros [o' Hw]; [eauto|].
      destruct Hw as [Hw|[_ ?]]; [eauto|done].
Qed.

Lemma clocks_ok_new m self frees cl h r d k :
  cl !! comm_gid d = None → m !! h = None →
  clocks_ok m self frees cl → clocks_ok (<[h := (r, CommDesc d)]> m) self frees (<[comm_gid d := k]> cl).
Proof.
  intros Hn Hh. apply (clocks_ok_add _ _ _ _ _ _ _ (OHandle h)); [done| |done].
  intros [h'| |] g; simpl; [|split; [by left|by intros [?|[??]]]..].
  destruct (decide (h' = h)) as [->|Hne]; [rewrite lookup_insert_eq|rewrite lookup_insert_ne by done].
  - split; [intros (? & ? & [= -> ->] & <-); by right|].
    intros [(? & ? & ? & _)|[_ ->]]; [congruence|eauto].
  - split; [by left|]. intros [?|[[= ?] _]]; done.
Qed.

Lemma clocks_ok_self m frees cl d k :
  cl !! comm_gid d = None →
  clocks_ok m None frees cl → clocks_ok m (Some d) frees (<[comm_gid d := k]> cl).
Proof.
  intros Hn. apply (clocks_ok_add _ _ _ _ _ _ _ OSelf); [done| |done].
  intros [h'| |] g; simpl; [split; [by left|by intros [?|[??]]]| |split; [by left|by intros [?|[??]]]].
  split; [intros (? & [= ->] & <-); by right|]. intros [(? & ? & _)|[_ ->]]; [done|eauto].
Qed.

(** [MPI_Comm_free()] hands the clock of a handle to a pending free. *)
Lemma clocks_ok_free m self frees cl h r d f :
  m !! h = Some (r, CommDesc d) → f_gid f = comm_gid d →
  clocks_ok m self frees cl → clocks_ok (delete h m) self (frees ++ [f]) cl.
Proof.
  intros Hm Hf [Hu He Hnd].
  assert (owns m self frees (OHandle h) (comm_gid d)) as Hown by (simpl; eauto).
  assert (∀ o g, owns (delete h m) self (frees ++ [f]) o g ↔
    (owns m self frees o g ∧ o ≠ OHandle h) ∨ (o = OPending ∧ g = comm_gid d)) as Ho.
  { intros [h'| |] g; simpl.
    - setoid_rewrite lookup_delete_Some. naive_solver.
    - naive_solver.
    - rewrite fmap_app, elem_of_app. simpl. rewrite list_elem_of_singleton, Hf.
      split; [intros [?| ->]; [by left|by right]|]. intros [[? _]|[_ ?]]; [by left|by right]. }
  split.
  - intros o o' g. rewrite !Ho. intros [[H1 ?]|[-> ->]] [[H2 ?]|[-> E]]; subst; [by eapply Hu|..|done].
    + by pose proof (Hu _ _ _ H1 Hown).
    + by pose proof (Hu _ _ _ H2 Hown).
  - intros g. rewrite He. setoid_rewrite Ho.
    split; [|intros [o [[? _]|[_ ->]]]; eauto]. intros [o Hw]. destruct (decide (g = comm_gid d)) as [->|Hg]; [eauto|].
    exists o. left. split; [done|]. intros ->. simpl in *. naive_solver.
  - rewrite fmap_app. apply NoDup_app. split_and!; [done| |apply NoDup_singleton].
    intros g Hg Hg'. simpl in Hg'. rewrite list_elem_of_singleton, Hf in Hg'. subst g.
    by pose proof (Hu OPending _ _ Hg Hown).
Qed.

(** The end of a barrier erases the clock. *)
Lemma clocks_ok_finish m self l k f cl :
  clocks_ok m self (l ++ f :: k) cl → clocks_ok m self (l ++ k) (delete (f_gid f) cl).
Proof.
  intros [Hu He Hnd]. rewrite fmap_app, fmap_cons in Hnd.
  assert (owns m self (l ++ f :: k) OPending (f_gid f)) as Hown.
  { simpl. rewrite fmap_app, fmap_cons, elem_of_app, elem_of_cons. tauto. }
  assert (∀ o g, owns m self (l ++ k) o g ↔ owns m self (l ++ f :: k) o g ∧ g ≠ f_gid f) as Ho.
  { assert (∀ o, o ≠ OPending → owns m self (l ++ f :: k) o (f_gid f) → False) as Hno.
    { intros o Hne Hw. apply Hne. by eapply Hu. }
    intros o g. destruct o as [h| |]; simpl.
    - split; [|tauto]. intros Hw. split; [done|]. intros ->. by apply (Hno (OHandle h)).
    - split; [|tauto]. intros Hw. split; [done|]. intros ->. by apply (Hno OSelf).
    - rewrite !fmap_app, fmap_cons, !elem_of_app, elem_of_cons.
      apply NoDup_app in Hnd as (_ & Hd & [Hk _]%NoDup_cons). split; [|naive_solver].
      intros [Hg|Hg]; (split; [tauto|]); intros ->; [|done]. apply (Hd _ Hg). by left. }
  split.
  - intros o o' g [H1 _]%Ho [H2 _]%Ho. by eapply Hu.
  - intros g. setoid_rewrite Ho. destruct (decide (g = f_gid f)) as [->|Hg].
    + rewrite lookup_delete_eq. split; [by intros [? ?]|naive_solver].
    + rewrite lookup_delete_ne by done. rewrite He. naive_solver.
  - rewrite fmap_app. apply NoDup_app in Hnd as (H1 & H2 & [_ H3]%NoDup_cons).
    apply NoDup_app. split_and!; [done| |done]. intros g Hg Hg'. apply (H2 g Hg). by right.
Qed.

(** ** The table under the operations *)

Section table.
Context `{MpiLib}.
Implicit Types (st : vid_state).

(** The fields that the operations on entries keep. *)
Definition kept_fields st := (consts st, self_desc st, g_world_comm st, gids_made st).

Lemma get_real_id_wlp h st : wlp (get_real_id h) (λ _ st', st' = st) st.
Proof.
  unfold wlp, get_real_id. destruct (entry_of st h); [done|]. unfold get_real_id_slow.
  destruct (find_constant _ _) as [[c|]|]; [done| |done]. prog_red. unfold get_virt_id_entry.
  destruct (lookup_virt_id_entry st h); [|done]. by destruct (slot_entry st _).
Qed.

Lemma alloc_slot_kept st : wlp alloc_slot (λ _ st', kept_fields st' = kept_fields st) st.
Proof.
  unfold wlp, alloc_slot. prog_red. destruct (0 <=? virt_id_free_head st).
  { by destruct (slot_entry st _). }
  destruct (MANA_VIRT_ID_SLOT_MASK <? _); [done|]. by rewrite alloc_chunks_run.
Qed.

Lemma add_virt_id_kept real d kind st :
  wlp (add_virt_id real d kind) (λ _ st', kept_fields st' = kept_fields st) st.
Proof.
  unfold add_virt_id. apply wlp_bind. eapply wlp_mono; [apply alloc_slot_kept|].
  intros slot st' E. unfold wlp. prog_red. by destruct (slot_entry st' slot).
Qed.

Lemma add_virt_id_wlp st m real d kind :
  vid_repr st m → 1 ≤ kind ≤ MANA_NUM_KINDS → desc_kind kind d → virt_id_next_seq st + 1 < 2 ^ 64 →
  wlp (add_virt_id real d kind) (λ h st', m !! h = None ∧ vid_repr st' (<[h := (real, d)]> m) ∧
    virt_id_next_seq st' = virt_id_next_seq st + 1 ∧ kept_fields st' = kept_fields st ∧
    ∃ slot, lookup_virt_id_entry st' h = Some slot) st.
Proof.
  intros (free & live & Hok & Hr) Hk Hd Hn.
  pose proof (add_virt_id_kept real d kind st) as Hkept.
  pose proof (add_virt_id_spec st free live real d kind Hok Hk Hd Hn) as Ha. cbv zeta in Ha.
  unfold wlp in *. destruct (MANA_VIRT_ID_SLOT_MASK <? next_slot st free); [by rewrite Ha|].
  destruct Ha as (st' & e & E & Hok' & He & Hl & Hre & Hde & _ & _ & _ & Hs & _ & Hns & _ & Hall & _).
  rewrite E in Hkept |- *.
  assert (∀ x, x ∈ live → slot_entry st' x = slot_entry st x) as Hold.
  { intros x Hx. apply Hall; [by apply Hok|]. by intros ->. }
  assert (0 ≤ next_slot st free < 2 ^ 24) as Hrange.
  { eapply inv_slot_range; [exact Hok'|]. rewrite elem_of_snoc. tauto. }
  destruct (represents_insert _ _ _ _ _ _ _ _ Hok Hr He Hl Hs Hrange Hold) as [Hm Hr'].
  split_and!; [done| |done|done|].
  - exists (tail free), (live ++ [next_slot st free]). split; [done|].
    unfold abs_entry in Hr'. by rewrite Hre, Hde in Hr'.
  - eexists. by eapply lookup_live_entry.
Qed.

Lemma lookup_repr st m h slot :
  vid_repr st m → lookup_virt_id_entry st h = Some slot →
  ∃ e, slot_entry st slot = Some e ∧ virt e = _handle h ∧ m !! _handle h = Some (abs_entry e) ∧
    desc_kind (kind_of (virt e)) (desc e).
Proof.
  intros (free & live & Hok & Hr) El. destruct (lookup_sound _ _ _ _ _ _ Hok El) as [Hin Hv].
  destruct (inv_live_entry _ _ _ _ _ Hok Hin) as (e & k & He & Hl). exists e.
  unfold handle_of in Hv. rewrite He in Hv. simpl in Hv. split_and!; [done|done| |].
  - apply Hr. eauto 6.
  - rewrite (live_entry_kind_of _ _ _ (inv_slot_range _ _ _ _ _ Hok Hin) Hl). apply Hl.
Qed.

Lemma free_virt_id_wlp st m h :
  vid_repr st m →
  wlp (free_virt_id h) (λ _ st', is_Some (lookup_virt_id_entry st h) ∧ vid_repr st' (delete (_handle h) m) ∧
    virt_id_next_seq st' = virt_id_next_seq st ∧ kept_fields st' = kept_fields st) st.
Proof.
  intros (free & live & Hok & Hr). unfold wlp.
  destruct (lookup_virt_id_entry st h) as [slot|] eqn:El.
  2: { unfold free_virt_id. prog_red. by rewrite El. }
  destruct (lookup_sound _ _ _ _ _ _ Hok El) as [Hin Hv].
  destruct (inv_live_entry _ _ _ _ _ Hok Hin) as (e & k & He & Hl).
  unfold handle_of in Hv. rewrite He in Hv. simpl in Hv.
  assert (free_virt_id h st = free_virt_id (virt e) st) as ->.
  { unfold free_virt_id. prog_red.
    rewrite El, (lookup_live_entry _ _ _ _ (inv_slot_range _ _ _ _ _ Hok Hin) He Hl).
    assert (_handle (virt e) = _handle h) as ->; [|done]. rewrite Hv.
    unfold _handle. apply s32_small. unfold s32. pose proof (Z.mod_pos_bound (h + 2 ^ 31) (2 ^ 32)). lia. }
  pose proof (free_virt_id_run st free live slot e Hok Hin He) as Hrun.
  case_decide; [|by rewrite Hrun]. destruct Hrun as [pool ->]. split_and!; [done| |done|done].
  exists (slot :: free), (filter (.≠ slot) live). split; [by eapply freed_ok|].
  rewrite <- Hv. eapply represents_delete; eauto using freed_entry_ne.
Qed.

(** Updates that a map does not show. *)
Lemma vid_repr_update st m slot f :
  vid_repr st m → benign f → (∀ e, abs_entry (f e) = abs_entry e) →
  (∃ v, lookup_virt_id_entry st v = Some slot) → vid_repr (update_entry slot f st) m.
Proof.
  intros (free & live & Hok & Hr) Hb Ha [v El].
  destruct (lookup_sound _ _ _ _ _ _ Hok El) as [Hin _].
  exists free, live. split; [by apply update_live_ok|]. intros h x. rewrite (Hr h x).
  split; intros (y & e & Hy & He & <- & <-).
  - exists y. setoid_rewrite slot_entry_update. case_decide; [subst|by eauto].
    rewrite He. exists (f e). split_and!; [done..|apply Hb|apply Ha].
  - exists y. rewrite slot_entry_update in He. case_decide as Hc; [subst|by eauto].
    destruct (slot_entry st y) as [e0|]; [|done]. simplify_eq/=.
    exists e0. split_and!; [done..|symmetry; apply Hb|symmetry; apply Ha].
Qed.

Lemma vid_repr_ext st st' m :
  table_fields st' = table_fields st → virt_id_chunks st' = virt_id_chunks st → vid_repr st m → vid_repr st' m.
Proof.
  intros Hf Hc (free & live & Hok & Hr). exists free, live. split; [by eapply vid_inv_ext|].
  intros h x. rewrite (Hr h x). by setoid_rewrite (slot_entry_ext st st' _ Hc).
Qed.
End table.

(** ** The state of a process *)

Section process.
Context `{MpiLib} `{CollLib L}.
Context (FORTRAN_MPI_IN_PLACE MPI_IN_PLACE g_world_size g_world_rank : Z) (polls : nat).
Implicit Types (s : coll L).

(** The constants for communicators have no entry in the table. *)
Definition comm_constants (cs : constants_state) : Prop :=
  ∃ mc, (∀ u h, is_Some (mc !! u) → virtual_value h → same_handle u h →
           slot_is_reserved cs (Z.land h MANA_VIRT_ID_SLOT_MASK) = true) ∧
    ∀ u, u = MPI_COMM_WORLD ∨ u = MPI_COMM_SELF → is_Some ((mc : gmap Z mana_constant) !! u) ∧ - 2 ^ 63 ≤ u < 2 ^ 63.

(** At most [n] handles were made. *)
Definition comm_ok (n : Z) (s : coll L) : Prop :=
  ∃ m, vid_repr (c_vids s) m ∧ comm_constants (consts (c_vids s)) ∧ virt_id_next_seq (c_vids s) ≤ n ∧
    clocks_ok m (self_desc (c_vids s)) (pending_frees s) (clocks (c_seq s)).

Lemma lookup_comm_constant st m u :
  vid_repr st m → comm_constants (consts st) → u = MPI_COMM_WORLD ∨ u = MPI_COMM_SELF →
  lookup_virt_id_entry st u = None.
Proof.
  intros (free & live & Hok & _) (mc & Hres & Hc) Hu. destruct (Hc u Hu) as [Hin Hr].
  by eapply (lookup_constant_none st free live mc).
Qed.

(** The entry that a communicator names: [None] for [MPI_COMM_SELF]. *)
Definition comm_key (st : vid_state) (comm : Z) : option Z :=
  if comm =? MPI_COMM_SELF then None
  else Some (_handle (if comm =? MPI_COMM_WORLD then g_world_comm st else comm)).

(** The owner of a communicator's clock. *)
Lemma comm_desc_owner st m comm d :
  vid_repr st m → get_comm_desc st comm = Some d →
  ∀ frees, owns m (self_desc st) frees (from_option OHandle OSelf (comm_key st comm)) (comm_gid d).
Proof.
  intros Hr. unfold get_comm_desc, comm_key. destruct (comm =? MPI_COMM_SELF); [by eexists|].
  set (v := if comm =? MPI_COMM_WORLD then g_world_comm st else comm). unfold entry_of.
  destruct (lookup_virt_id_entry st v) as [slot|] eqn:El; [cbn [mbind option_bind]|done].
  destruct (lookup_repr _ _ _ _ Hr El) as (e & -> & Hv & Hm & Hd).
  destruct (negb _); [done|]. destruct (desc e) as [|d'| | |] eqn:Ed; try done. intros [= ->].
  intros frees. simpl. unfold abs_entry in Hm. rewrite Ed in Hm. eauto.
Qed.

Lemma comm_ok_clock n s comm : comm_ok n s → has_clock comm s.
Proof.
  intros (m & Hr & _ & _ & Hc) d Hd. apply (co_exact _ _ _ _ Hc). eauto using comm_desc_owner.
Qed.

(** ** Postconditions of the parts *)

Lemma wlp_coll_real h (Q : Z → coll L → Prop) s : (∀ r, Q r s) → wlp (on_vids (get_real_id h)) Q s.
Proof.
  intros HQ. pose proof (get_real_id_wlp h (c_vids s)) as Hw. unfold wlp, on_vids in *.
  destruct (get_real_id h (c_vids s)); [|done..]. subst. destruct s. apply HQ.
Qed.
Lemma wlp_info h (Q : Z → coll L → Prop) s : (∀ r, Q r s) → wlp (on_constants (lower_half_handle h)) Q s.
Proof.
  intros HQ. unfold wlp, on_constants, on_vids, lower_half_handle, lower_of_constant.
  destruct s as [[] q frees l]. simpl. destruct (find_constant _ _) as [[c|]|]; [apply HQ|apply HQ|done].
Qed.
Lemma wlp_lower {A} (f : L → A * L) (Q : A → coll L → Prop) s :
  (∀ a l, Q a (s <| c_lower := l |>)) → wlp (on_lower f) Q s.
Proof. intros HQ. unfold wlp, on_lower. by destruct (f (c_lower s)). Qed.
Lemma wlp_ask {A} (f : L → A) (Q : A → coll L → Prop) s : (∀ a, Q a s) → wlp (ask f) Q s.
Proof. intros HQ. apply HQ. Qed.
Lemma wlp_if {A} (b : bool) (m1 m2 : prog (coll L) A) Q s :
  (b = true → wlp m1 Q s) → (b = false → wlp m2 Q s) → wlp (if b then m1 else m2) Q s.
Proof. destruct b; auto. Qed.

Lemma comm_ok_lower n s l : comm_ok n s → comm_ok n (s <| c_lower := l |>).
Proof. done. Qed.
Lemma comm_ok_seq n s q : dom (clocks q) = dom (clocks (c_seq s)) → comm_ok n s → comm_ok n (s <| c_seq := q |>).
Proof. intros Hd (m & Hr & Hk & Hn & Hc). exists m. split_and!; [done..|]. by eapply clocks_ok_dom. Qed.

Lemma enter_section_wlp n comm b s :
  comm_ok n s → wlp (enter_section comm b) (λ _ s', comm_ok n s' ∧ c_vids s' = c_vids s) s.
Proof.
  intros Hok. unfold wlp, enter_section, begin_critical_section.
  destruct (must_wait (c_seq s)); [done|]. destruct b; simpl; [|by split].
  destruct (get_comm_desc (c_vids s) comm) as [d|] eqn:Ed; simpl; [|by split].
  destruct (comm_ok_clock _ _ _ Hok d Ed) as [k Hk]. unfold count_call. prog_red. simpl. rewrite Hk. simpl.
  assert (∀ q c, clocks q = <[comm_gid d := c]> (clocks (c_seq s)) → comm_ok n (s <| c_seq := q |>)) as Hq.
  { intros q c Eq. apply comm_ok_seq; [|done]. rewrite Eq, dom_insert_L.
    apply mk_is_Some, elem_of_dom in Hk. set_solver. }
  destruct (ckpt_pending (c_seq s) && _); [destruct (1 <? comm_size d)|]; simpl; (split; [by eapply Hq|done]).
Qed.

Lemma commit_begin_wlp n comm s :
  comm_ok n s → wlp (commit_begin comm) (λ _ s', comm_ok n s' ∧ c_vids s' = c_vids s) s.
Proof. intros Hok. unfold commit_begin. apply wlp_if; [done|]. intros _. by apply enter_section_wlp. Qed.

(** ** Pending frees *)

(** The invariant while the frees in [l] are left. *)
Definition frees_ok (s : coll L) (l : list pending_free) (s' : coll L) : Prop :=
  c_vids s' = c_vids s ∧ pending_frees s' = pending_frees s ∧
  ∀ m, clocks_ok m (self_desc (c_vids s)) (pending_frees s) (clocks (c_seq s)) →
    clocks_ok m (self_desc (c_vids s)) l (clocks (c_seq s')).

(** A wait that succeeds saw the end of the barrier. *)
Lemma test_free_wlp fuel request wait s :
  wlp (test_free fuel request wait) (λ r s', (∃ l, s' = s <| c_lower := l |>) ∧
    (wait = true → r.1 = MPI_SUCCESS → r.2 = true)) s.
Proof.
  revert s. induction fuel as [|fuel IH]; intros s; [done|]. simpl.
  apply wlp_bind, wlp_lower. intros [rc flag] l. apply wlp_if.
  - intros _. eapply wlp_mono; [apply IH|]. intros r s' [[l' ->] ?]. split; [by exists l'|done].
  - intros Hb. split; [by exists l|]. simpl. intros -> ->. rewrite Z.eqb_refl in Hb. by destruct flag.
Qed.

Lemma finish_free_wlp s0 f wait l k s :
  frees_ok s0 (l ++ f :: k) s →
  wlp (finish_free polls f wait) (λ flag s', (wait = true → flag = true) ∧
    frees_ok s0 (l ++ (if flag then [] else [f]) ++ k) s') s.
Proof.
  intros (Hv & Hp & Hc). unfold finish_free. apply wlp_bind.
  eapply wlp_mono; [apply test_free_wlp|]. intros [rc flag] s' [[lo ->] Hflag]. simpl in *.
  apply wlp_bind. eapply (wlp_mono _ (λ rc' s', (∃ lo, s' = s <| c_lower := lo |>) ∧ (flag = false → rc' = rc))).
  { apply wlp_if.
    - intros [_ ->]%andb_true_iff. apply wlp_lower. intros ? lo'. split; [by exists lo'|done].
    - intros _. split; [by exists lo|done]. }
  intros rc' s' [[lo' ->] Hrc]. apply wlp_bind. unfold assert_. apply wlp_if; [|done].
  intros Hs%Z.eqb_eq. apply wlp_ret, wlp_bind.
  destruct flag; (split; [|split; [done|split; [done|]]]); [done| |intros Hw|exact Hc].
  - intros m Hm. simpl. apply clocks_ok_finish. by apply Hc.
  - rewrite Hrc in Hs by done. by apply Hflag.
Qed.

Lemma test_frees_wlp s0 l k s :
  frees_ok s0 (k ++ l) s → wlp (test_frees polls l) (λ rest s', frees_ok s0 (k ++ rest) s') s.
Proof.
  revert k s. induction l as [|f l IH]; intros k s Hok; [done|]. simpl.
  apply wlp_bind. eapply wlp_mono; [by apply finish_free_wlp|]. intros flag s' [_ Hok'].
  apply wlp_bind. destruct flag; [by apply IH|].
  assert (frees_ok s0 ((k ++ [f]) ++ l) s') as Hok1 by by rewrite <- app_assoc.
  eapply wlp_mono; [exact (IH _ _ Hok1)|].
  intros rest s'' Hok''. simpl in Hok''. by rewrite <- app_assoc in Hok''.
Qed.

Lemma frees_ok_done n s l s' :
  frees_ok s l s' → comm_ok n s → comm_ok n (s' <| pending_frees := l |>).
Proof.
  intros (Hv & Hp & Hc) (m & Hr & Hk & Hn & Hm). exists m. simpl. rewrite Hv. split_and!; [done..|].
  by apply Hc.
Qed.

Lemma frees_ok_refl s : frees_ok s (pending_frees s) s.
Proof. by split_and!. Qed.

Lemma test_barriers_wlp n s : comm_ok n s → wlp (test_comm_free_barriers polls) (λ _ s', comm_ok n s') s.
Proof.
  intros Hok. unfold test_comm_free_barriers. apply wlp_bind. simpl. apply wlp_bind.
  eapply wlp_mono; [apply (test_frees_wlp s _ []), frees_ok_refl|].
  intros rest s' Hs. by apply (frees_ok_done n s).
Qed.

Lemma finish_all_wlp s0 l s :
  frees_ok s0 l s → wlp (for_each l (λ f, finish_free polls f true ;; mret ())) (λ _ s', frees_ok s0 [] s') s.
Proof.
  revert s. induction l as [|f l IH]; intros s Hok; [done|]. simpl. apply wlp_bind, wlp_bind.
  eapply wlp_mono; [by apply (finish_free_wlp s0 f true [])|]. intros flag s' [-> Hok']; [|done]. by apply IH.
Qed.

Lemma complete_barriers_wlp n s :
  comm_ok n s → wlp (complete_comm_free_barriers polls) (λ _ s', comm_ok n s' ∧ pending_frees s' = []) s.
Proof.
  intros Hok. unfold complete_comm_free_barriers. apply wlp_bind. simpl. apply wlp_bind.
  eapply wlp_mono; [apply (finish_all_wlp s), frees_ok_refl|].
  intros [] s' Hs. split; [|done]. by apply (frees_ok_done n s).
Qed.

Lemma commit_finish_wlp n comm s : comm_ok n s → wlp (commit_finish polls comm) (λ _ s', comm_ok n s') s.
Proof.
  intros Hok. unfold commit_finish. apply wlp_bind.
  assert (comm_ok n (s <| c_seq ::= commit_ready |>)) as Hok' by exact Hok.
  apply wlp_bind, wlp_bind. unfold wlp at 1. simpl. destruct (must_wait _); [done|].
  destruct (pending_frees s); [done|]. by apply test_barriers_wlp.
Qed.

(** ** Collective calls *)

(** Steps through a wrapper up to its end. *)
Ltac call_steps :=
  repeat lazymatch goal with
    | |- wlp (_ ≫= _) _ _ => apply wlp_bind
    | |- wlp (on_vids (get_real_id _)) _ _ => apply wlp_coll_real; intros ?
    | |- wlp (on_constants (lower_half_handle _)) _ _ => apply wlp_info; intros ?
    | |- wlp (on_lower _) _ _ => apply wlp_lower; intros ? ?
    end.

Lemma comm_ok_mono n n' s : n ≤ n' → comm_ok n s → comm_ok n' s.
Proof. intros Hn (m & ? & ? & ? & ?). exists m. split_and!; [done..|lia|done]. Qed.

Lemma blocking_wlp n c s :
  comm_ok n s → wlp (blocking_wrapper FORTRAN_MPI_IN_PLACE MPI_IN_PLACE polls c) (λ _ s', comm_ok n s') s.
Proof.
  intros Hok. pose proof (commit_begin_wlp n (coll_comm c) s Hok) as Hb.
  destruct c; simpl in *; apply wlp_bind; (eapply wlp_mono; [exact Hb|]); intros [] s1 [Hs1 _];
    unfold MPI_Alltoall_internal; call_steps; by apply commit_finish_wlp, comm_ok_lower.
Qed.

Lemma new_request_wlp st m real :
  vid_repr st m → virt_id_next_seq st + 1 < 2 ^ 64 →
  wlp (new_virt_collective_request real) (λ h st', m !! h = None ∧ vid_repr st' (<[h := (real, NoDesc)]> m) ∧
    virt_id_next_seq st' = virt_id_next_seq st + 1 ∧ kept_fields st' = kept_fields st) st.
Proof.
  intros Hr Hn. unfold new_virt_collective_request. apply wlp_bind.
  eapply wlp_mono; [apply (add_virt_id_wlp st m); [done|done|by left|done]|].
  intros h st' (Hh & Hr' & Hs & Hk & slot & El). unfold wlp. prog_red. unfold get_virt_id_entry.
  rewrite El. split_and!; [done| |done|done].
  apply vid_repr_update; [done| |done|by exists h]. intros e. do 4 (split; [done|]). done.
Qed.

(** The state after the table changed. *)
Lemma comm_ok_vids n s st m :
  vid_repr st m → kept_fields st = kept_fields (c_vids s) → virt_id_next_seq st ≤ n →
  comm_constants (consts (c_vids s)) →
  clocks_ok m (self_desc (c_vids s)) (pending_frees s) (clocks (c_seq s)) → comm_ok n (s <| c_vids := st |>).
Proof.
  unfold kept_fields. intros Hr [= Hc Hs _ _] Hn Hk Hm. exists m. simpl. rewrite Hc, Hs. done.
Qed.

Lemma wlp_on_vids {A} (p : prog vid_state A) (Q : A → coll L → Prop) s :
  wlp p (λ a st, Q a (s <| c_vids := st |>)) (c_vids s) → wlp (on_vids p) Q s.
Proof. unfold wlp, on_vids. by destruct (p (c_vids s)). Qed.

Lemma finish_nonblocking_wlp n comm r s :
  comm_ok n s → n + 1 < 2 ^ 64 → wlp (finish_nonblocking polls comm r) (λ _ s', comm_ok (n + 1) s') s.
Proof.
  intros Hok Hn. unfold finish_nonblocking. apply wlp_bind.
  eapply (wlp_mono _ (λ _ s', comm_ok (n + 1) s')).
  { apply wlp_if; intros _; [|by apply comm_ok_mono with n; [lia|]].
    destruct Hok as (m & Hr & Hk & Hs & Hm). apply wlp_on_vids.
    eapply wlp_mono; [apply (new_request_wlp _ m); [done|lia]|]. intros h st' (Hh & Hr' & Hs' & Hkept).
    apply (comm_ok_vids _ s st' _ Hr' Hkept); [lia|done|]. by apply clocks_ok_insert_other. }
  intros req s' Hok'. apply wlp_bind. by apply commit_finish_wlp.
Qed.

Lemma nonblocking_wlp n c s :
  comm_ok n s → n + 1 < 2 ^ 64 →
  wlp (nonblocking_wrapper FORTRAN_MPI_IN_PLACE MPI_IN_PLACE polls c) (λ _ s', comm_ok (n + 1) s') s.
Proof.
  intros Hok Hn. pose proof (commit_begin_wlp n (coll_comm c) s Hok) as Hb.
  destruct c; simpl in *; apply wlp_bind; (eapply wlp_mono; [exact Hb|]); intros [] s1 [Hs1 _];
    call_steps; by apply finish_nonblocking_wlp.
Qed.

(** ** New communicators *)

(** [s'] has the handles, the frees and [self_desc] of [s]. *)
Definition same_handles (s s' : coll L) : Prop :=
  pending_frees s' = pending_frees s ∧ table_fields (c_vids s') = table_fields (c_vids s) ∧
  virt_id_chunks (c_vids s') = virt_id_chunks (c_vids s) ∧ self_desc (c_vids s') = self_desc (c_vids s).

(** The parts of [new_comm_desc()] before the clock. *)
Definition before_clock (s s' : coll L) : Prop := same_handles s s' ∧ c_seq s' = c_seq s.

Lemma before_clock_lower {A} s (f : L → A * L) s' :
  before_clock s s' → wlp (on_lower f) (λ _, before_clock s) s'.
Proof. intros ?. by apply wlp_lower. Qed.
Lemma before_clock_gid s s' :
  before_clock s s' → wlp (on_vids (make_gid g_world_size g_world_rank)) (λ _, before_clock s) s'.
Proof. intros [(? & ? & ? & ?) ?]. by split. Qed.

(** One statement before the clock. *)
Ltac before_step :=
  apply wlp_bind;
  match goal with
  | Hs : before_clock ?s0 ?s1 |- wlp ?p _ ?s1 =>
      eapply (wlp_mono p (λ _, before_clock s0));
      [ try (apply wlp_if; intros ?); first
          [ by apply before_clock_lower | by apply before_clock_gid | by apply wlp_ask | by apply wlp_ret ]
      | clear s1 Hs; intros ? s1 Hs; cbv beta ]
  end.

Lemma new_comm_desc_wlp real s :
  wlp (new_comm_desc g_world_size g_world_rank real) (λ d s', same_handles s s' ∧
    clocks (c_seq s) !! comm_gid d = None ∧
    clocks (c_seq s') = <[comm_gid d := mk_clock 0 0]> (clocks (c_seq s))) s.
Proof.
  assert (∀ s1, before_clock s s1 →
    wlp (new_comm_desc g_world_size g_world_rank real) (λ d s', same_handles s s' ∧
      clocks (c_seq s) !! comm_gid d = None ∧
      clocks (c_seq s') = <[comm_gid d := mk_clock 0 0]> (clocks (c_seq s))) s1) as Hw; [|by apply Hw].
  intros s1 Hs. unfold new_comm_desc. do 10 before_step.
  destruct Hs as [Hh Hq]. apply wlp_bind. unfold wlp, on_seq, add_comm_clock. prog_red. rewrite Hq.
  case_bool_decide as Hg; [|done]. simpl. by destruct (ckpt_pending (c_seq s)).
Qed.

Lemma same_handles_repr s s' m :
  same_handles s s' → vid_repr (c_vids s) m → vid_repr (c_vids s') m ∧
    consts (c_vids s') = consts (c_vids s) ∧ virt_id_next_seq (c_vids s') = virt_id_next_seq (c_vids s).
Proof.
  intros (_ & Hf & Hc & _) Hr. split; [by eapply vid_repr_ext|]. unfold table_fields in Hf. by simplify_eq.
Qed.

Lemma new_virt_comm_wlp n real s :
  comm_ok n s → n + 1 < 2 ^ 64 →
  wlp (new_virt_comm g_world_size g_world_rank real) (λ _ s', comm_ok (n + 1) s' ∧
    self_desc (c_vids s') = self_desc (c_vids s)) s.
Proof.
  intros Hok Hn. apply wlp_if; intros _.
  { split; [|done]. by apply comm_ok_mono with n; [lia|]. }
  destruct Hok as (m & Hr & Hk & Hs & Hm). apply wlp_bind.
  eapply wlp_mono; [apply new_comm_desc_wlp|]. intros d s1 (Hsame & Hg & Hcl).
  destruct (same_handles_repr _ _ _ Hsame Hr) as (Hr1 & Hc1 & Hn1). destruct Hsame as (Hf & _ & _ & Hself).
  apply wlp_on_vids. eapply wlp_mono; [apply (add_virt_id_wlp _ m); [done|done|done|lia]|].
  intros h st' (Hh & Hr' & Hs' & Hkept & _). split.
  - apply (comm_ok_vids _ s1 st' _ Hr' Hkept); [lia|by rewrite Hc1|].
    rewrite Hself, Hf, Hcl. by apply clocks_ok_new.
  - unfold kept_fields in Hkept. simpl. simplify_eq. congruence.
Qed.

Lemma end_make_wlp n (comm : Z → Z) (p : prog (coll L) Z) (rc : Z) s :
  wlp p (λ _ s', comm_ok n s') s →
  wlp (newcomm ← p; commit_finish polls (comm newcomm) ;; mret (rc, newcomm)) (λ _ s', comm_ok n s') s.
Proof.
  intros Hp. apply wlp_bind. eapply wlp_mono; [exact Hp|]. intros v s' Hs. apply wlp_bind.
  by apply commit_finish_wlp.
Qed.

Lemma finish_make_wlp n comm r s :
  comm_ok n s → n + 1 < 2 ^ 64 →
  wlp (finish_make g_world_size g_world_rank polls comm r) (λ _ s', comm_ok (n + 1) s') s ∧
  wlp (finish_cart g_world_size g_world_rank polls comm r) (λ _ s', comm_ok (n + 1) s') s.
Proof.
  intros Hok Hn.
  assert (comm_ok (n + 1) s) as Hok' by (by apply comm_ok_mono with n; [lia|]).
  assert (wlp (new_virt_comm g_world_size g_world_rank r.2) (λ _ s', comm_ok (n + 1) s') s) as Hv.
  { eapply wlp_mono; [by apply (new_virt_comm_wlp n)|]. by intros ?? [? _]. }
  split; apply (end_make_wlp _ (λ _, comm)); (apply wlp_if; intros _; [|done]); [|done]. by apply wlp_if.
Qed.

(** The wrappers that make a communicator. *)
Definition make_wrapper (c : comm_call) : prog (coll L) (Z * Z) :=
  match c with
  | Comm_create comm group => PMPI_Comm_create g_world_size g_world_rank polls comm group
  | Comm_create_group comm group tag => PMPI_Comm_create_group g_world_size g_world_rank polls comm group tag
  | Comm_split comm color key => PMPI_Comm_split g_world_size g_world_rank polls comm color key
  | Comm_split_type comm split_type key info =>
      PMPI_Comm_split_type g_world_size g_world_rank polls comm split_type key info
  | Comm_dup comm => comm_dup g_world_size g_world_rank polls comm
  | Cart_create comm ndims dims periods reorder =>
      PMPI_Cart_create g_world_size g_world_rank polls comm ndims dims periods reorder
  | Cart_sub comm remain_dims => PMPI_Cart_sub g_world_size g_world_rank polls comm remain_dims
  end.

Lemma make_wlp n c s :
  comm_ok n s → n + 1 < 2 ^ 64 → wlp (make_wrapper c) (λ _ s', comm_ok (n + 1) s') s.
Proof.
  intros Hok Hn.
  assert (∀ comm, wlp (commit_begin comm) (λ _ s', comm_ok n s') s) as Hb.
  { intros comm. eapply wlp_mono; [by apply (commit_begin_wlp n)|]. by intros ?? [? _]. }
  assert (∀ comm, wlp (enter_section comm false) (λ _ s', comm_ok n s') s) as He.
  { intros comm. eapply wlp_mono; [by apply (enter_section_wlp n)|]. by intros ?? [? _]. }
  destruct c; simpl; apply wlp_bind; (eapply wlp_mono; [(apply Hb || apply He)|]); intros [] s1 Hs1;
    unfold MPI_Comm_create_group_internal; call_steps; by apply (finish_make_wlp n).
Qed.

(** ** MPI_Comm_free *)

Lemma lookup_not_constant st m comm slot :
  vid_repr st m → comm_constants (consts st) → lookup_virt_id_entry st comm = Some slot →
  comm ≠ MPI_COMM_SELF ∧ comm ≠ MPI_COMM_WORLD.
Proof.
  intros Hr Hk El. pose proof (lookup_comm_constant st m comm Hr Hk) as Hc.
  split; intros ->; rewrite Hc in El; naive_solver.
Qed.

(** The descriptor of a handle of the table is the entry's. *)
Lemma comm_desc_entry st m comm slot d :
  vid_repr st m → comm_constants (consts st) → lookup_virt_id_entry st comm = Some slot →
  get_comm_desc st comm = Some d → ∃ r, m !! _handle comm = Some (r, CommDesc d).
Proof.
  intros Hr Hk El. unfold get_comm_desc.
  destruct (lookup_not_constant st m comm slot) as [Hs Hw]; [done..|].
  rewrite (proj2 (Z.eqb_neq _ _) Hs), (proj2 (Z.eqb_neq _ _) Hw). unfold entry_of. rewrite El.
  cbn [mbind option_bind]. destruct (lookup_repr _ _ _ _ Hr El) as (e & -> & _ & Hm & _).
  destruct (negb _); [done|]. unfold abs_entry in Hm. destruct (desc e); naive_solver.
Qed.

(** A handle whose entry is not a communicator's has no descriptor. *)
Lemma comm_desc_none st m comm slot :
  vid_repr st m → comm_constants (consts st) → lookup_virt_id_entry st comm = Some slot →
  get_comm_desc st comm = None → ∃ r d, m !! _handle comm = Some (r, d) ∧ is_comm_desc d = false.
Proof.
  intros Hr Hk El. unfold get_comm_desc.
  destruct (lookup_not_constant st m comm slot) as [Hs Hw]; [done..|].
  rewrite (proj2 (Z.eqb_neq _ _) Hs), (proj2 (Z.eqb_neq _ _) Hw). unfold entry_of. rewrite El.
  cbn [mbind option_bind]. destruct (lookup_repr _ _ _ _ Hr El) as (e & -> & _ & Hm & Hd).
  exists (real_id e), (desc e). split; [done|]. unfold desc_kind in Hd.
  destruct (desc e); try done. rewrite Hd, Z.eqb_refl in *. done.
Qed.

(** The handle of a freed communicator leaves the table after its barrier has
    started. *)
Definition free_started (n comm : Z) (rc : Z) (s : coll L) : Prop :=
  if rc =? MPI_SUCCESS
  then ∃ m, vid_repr (c_vids s) m ∧ comm_constants (consts (c_vids s)) ∧ virt_id_next_seq (c_vids s) ≤ n ∧
    (is_Some (lookup_virt_id_entry (c_vids s) comm) →
     clocks_ok (delete (_handle comm) m) (self_desc (c_vids s)) (pending_frees s) (clocks (c_seq s)))
  else comm_ok n s.

Lemma start_barrier_wlp n comm s m r d real :
  vid_repr (c_vids s) m → comm_constants (consts (c_vids s)) → virt_id_next_seq (c_vids s) ≤ n →
  clocks_ok m (self_desc (c_vids s)) (pending_frees s) (clocks (c_seq s)) →
  m !! _handle comm = Some (r, CommDesc d) →
  wlp (start_comm_free_barrier (comm_gid d) real) (free_started n comm) s.
Proof.
  intros Hr Hk Hn Hm Hd. unfold start_comm_free_barrier. apply wlp_bind, wlp_lower. intros [rc req] l.
  apply wlp_bind. apply wlp_if; intros Hrc; unfold free_started, wlp; simpl; rewrite Hrc.
  - exists m. split_and!; [done..|]. intros _. simpl. by eapply clocks_ok_free.
  - by exists m.
Qed.

Lemma comm_free_wlp n comm s : comm_ok n s → wlp (comm_free polls comm) (λ _ s', comm_ok n s') s.
Proof.
  intros Hok. unfold comm_free. apply wlp_bind. eapply wlp_mono; [by apply (commit_begin_wlp n)|].
  intros [] s1 [(m & Hr & Hk & Hn & Hm) _]. apply wlp_bind. unfold wlp at 1. simpl. apply wlp_bind.
  eapply (wlp_mono _ (free_started n comm)).
  { assert (wlp (MPI_Comm_free_internal comm) (λ _ s', ∃ l, s' = s1 <| c_lower := l |>) s1) as Hi.
    { unfold MPI_Comm_free_internal. call_steps. by eexists. }
    destruct (lookup_virt_id_entry (c_vids s1) comm) as [slot|] eqn:El;
      [destruct (get_comm_desc (c_vids s1) comm) as [d|] eqn:Ed|].
    - destruct (comm_desc_entry _ _ _ _ _ Hr Hk El Ed) as [r Hd]. apply wlp_bind, wlp_coll_real. intros real.
      by eapply start_barrier_wlp.
    - eapply wlp_mono; [exact Hi|]. intros rc s' [l ->]. unfold free_started. simpl.
      destruct (comm_desc_none _ _ _ _ Hr Hk El Ed) as (r & d & Hd & Hnc).
      destruct (rc =? MPI_SUCCESS); [|by exists m]. exists m. split_and!; [done..|]. intros _.
      by eapply clocks_ok_delete_other.
    - eapply wlp_mono; [exact Hi|]. intros rc s' [l ->]. unfold free_started. simpl. rewrite El.
      destruct (rc =? MPI_SUCCESS); exists m; [|done]. split_and!; [done..|]. by intros [? ?]. }
  intros rc s2 Hs2. apply (end_make_wlp n (λ v, v)). unfold free_started in Hs2. apply wlp_if; intros Hrc; rewrite Hrc in Hs2; [|done].
  destruct Hs2 as (m2 & Hr2 & Hk2 & Hn2 & Hc2). apply wlp_bind, wlp_on_vids.
  eapply wlp_mono; [by apply (free_virt_id_wlp _ m2)|]. intros [] st' (Hl & Hr' & Hs' & Hkept).
  apply (comm_ok_vids n s2 st' _ Hr' Hkept); [lia|done|]. by apply Hc2.
Qed.
End process.
