(* ===== verification/CommClocksSpec.v ===== *)
(** * Every communicator has a clock of its own

    The calls of an application on its communicators, as steps of a process,
    and the invariant of [CommClocks] in each state that they reach. *)
From S2P Require Import Prelude Mpi Constants VirtualId VirtualIdInv VirtualIdSpec PendingLog Kvdb SeqNum Collectives CollectivesSpec CommClocks.

(** ** The drain and the set of clocks

    What the checkpoint thread does to the clocks in a drain ([SeqNum]). *)
Section drain.
Context `{Kvdb K}.
Inductive seq_drain_step (q : seq_state) : seq_state → Prop :=
  | drain_pending b : seq_drain_step q (q <| ckpt_pending := b |>)
  | drain_reset : seq_drain_step q (seq_num_reset q)
  | drain_download db kv : seq_drain_step q (download_targets db kv q)
  | drain_upload db list_db count_db round kv q' kv' :
      upload_raised_targets db list_db count_db round q kv = (q', kv') → seq_drain_step q q'
  | drain_download_raised db list_db round raised kv q' :
      download_raised_targets db list_db round raised kv q = Some q' → seq_drain_step q q'.

Lemma download_loop_dom db list_db round kv fuel i D cl cl' :
  download_loop db list_db round kv fuel i D cl = Some cl' → dom cl' = dom cl.
Proof.
  revert i D cl. induction fuel as [|fuel IH]; intros i D cl; cbn [download_loop]; [by intros [= ->]|].
  intros (gid & _ & E)%bind_Some. destruct (cl !! gid) as [c|] eqn:Ec; [|by eapply IH].
  case_decide; [by eapply IH|]. apply bind_Some in E as (m & _ & E). rewrite (IH _ _ _ E), dom_insert_L.
  apply elem_of_dom_2 in Ec. set_solver.
Qed.
(** No step of a drain adds or erases a clock. *)
Lemma seq_drain_dom q q' : seq_drain_step q q' → dom (clocks q') = dom (clocks q).
Proof.
  assert (∀ db kv, dom (clocks (download_targets db kv q)) = dom (clocks q)) as Hd.
  { intros db kv. apply set_eq. intros g. rewrite !elem_of_dom, clocks_download. by rewrite fmap_is_Some. }
  intros [b| |db kv|db ldb cdb round kv q1 kv1 E|db ldb round raised kv q1 E]; [done|done|apply Hd|..].
  - unfold upload_raised_targets in E. destruct (upload_loop _ _ _ _ _), (request_INCRBY _ _ _ _). by injection E as <- _.
  - unfold download_raised_targets in E. destruct (_ <=? _); [injection E as <-; apply Hd|].
    apply bind_Some in E as (cl & El & [= <-]). by eapply download_loop_dom.
Qed.
End drain.

Section process.
Context `{MpiLib} `{CollLib L}.
Context (FORTRAN_MPI_IN_PLACE MPI_IN_PLACE g_world_size g_world_rank : Z) (polls : nat).
Implicit Types (s : coll L).

(** Before [MPI_Init()]. *)
Record initial (s : coll L) : Prop := {
  init_table : vid_repr (c_vids s) ∅;
  init_consts : comm_constants (consts (c_vids s));
  init_seq : virt_id_next_seq (c_vids s) = 0;
  init_self : self_desc (c_vids s) = None;
  init_frees : pending_frees s = [];
  init_clocks : clocks (c_seq s) = ∅
}.

(** What a process does: collective calls, calls that make or free a
    communicator, the end of the pending frees, calls of other wrappers that
    make or free another kind of object, and any change of the clocks that
    neither adds nor erases one, such as every step of a drain ([seq_drain_dom]).
    [virt_id_next_seq] has not wrapped. *)
Inductive comm_step (s : coll L) : coll L → Prop :=
  | step_blocking c r s' :
      blocking_wrapper FORTRAN_MPI_IN_PLACE MPI_IN_PLACE polls c s = Ok r s' → comm_step s s'
  | step_nonblocking c r s' :
      virt_id_next_seq (c_vids s) + 1 < 2 ^ 64 →
      nonblocking_wrapper FORTRAN_MPI_IN_PLACE MPI_IN_PLACE polls c s = Ok r s' → comm_step s s'
  | step_make c r s' :
      virt_id_next_seq (c_vids s) + 1 < 2 ^ 64 →
      make_wrapper g_world_size g_world_rank polls c s = Ok r s' → comm_step s s'
  | step_free comm r s' : comm_free polls comm s = Ok r s' → comm_step s s'
  | step_complete s' : complete_comm_free_barriers polls s = Ok () s' → comm_step s s'
  | step_object real d kind h s' :
      virt_id_next_seq (c_vids s) + 1 < 2 ^ 64 → is_comm_desc d = false →
      1 ≤ kind ≤ MANA_NUM_KINDS → desc_kind kind d →
      on_vids (add_virt_id real d kind) s = Ok h s' → comm_step s s'
  | step_release h s' :
      kind_of (_handle h) ≠ MANA_COMM_KIND →
      on_vids (free_virt_id h) s = Ok () s' → comm_step s s'
  | step_drain q : dom (clocks q) = dom (clocks (c_seq s)) → comm_step s (s <| c_seq := q |>).

Lemma initial_ok s : initial s → comm_ok 0 s.
Proof.
  intros [Hr Hk Hn Hs Hf Hc]. exists ∅. rewrite Hn, Hs, Hf, Hc. split_and!; [done..|]. split.
  - intros [h| |] o' g; simpl; [|naive_solver|by rewrite elem_of_nil].
    setoid_rewrite lookup_empty. naive_solver.
  - intros g. rewrite lookup_empty. split; [by intros [? ?]|]. intros [[h| |] Ho]; simpl in Ho.
    + setoid_rewrite lookup_empty in Ho. naive_solver.
    + naive_solver.
    + by rewrite elem_of_nil in Ho.
  - constructor.
Qed.

(** The bound may be the number of handles made. *)
Lemma comm_ok_tight n s : comm_ok n s → comm_ok (virt_id_next_seq (c_vids s)) s.
Proof. intros (m & ? & ? & ? & ?). by exists m. Qed.

Lemma comm_ok_field n s st :
  table_fields st = table_fields (c_vids s) → virt_id_chunks st = virt_id_chunks (c_vids s) →
  self_desc st = self_desc (c_vids s) → comm_ok n s → comm_ok n (s <| c_vids := st |>).
Proof.
  intros Hf Hc Hs (m & Hr & Hk & Hn & Hm). exists m. simpl. rewrite Hs.
  pose proof (vid_repr_ext _ _ _ Hf Hc Hr). unfold table_fields in Hf.
  injection Hf as -> _ _ -> _. done.
Qed.

Lemma init_world_comm_wlp s :
  initial s → wlp (init_world_comm g_world_size g_world_rank) (λ _ s', comm_ok 1 s') s.
Proof.
  intros Hi. unfold init_world_comm. apply wlp_bind, wlp_lower. intros [rc world] l.
  apply wlp_bind. eapply wlp_mono.
  { apply (new_virt_comm_wlp g_world_size g_world_rank 0); [by apply comm_ok_lower, initial_ok|lia]. }
  intros h s1 [Hok Hself]. simpl in Hself. rewrite (init_self _ Hi) in Hself. apply wlp_bind, wlp_on_vids.
  set (s2 := s1 <| c_vids := (c_vids s1) <| g_world_comm := h |> |>).
  change (wlp (self ← new_comm_desc g_world_size g_world_rank MANA_COMM_SELF;
    on_vids (modify (λ st, st <| self_desc := Some self |>))) (λ _ s', comm_ok 1 s') s2).
  assert (comm_ok 1 s2 ∧ self_desc (c_vids s2) = None) as [(m & Hr & Hk & Hn & Hm) Hself2].
  { split; [by apply comm_ok_field|done]. }
  apply wlp_bind. eapply wlp_mono; [apply new_comm_desc_wlp|]. intros d s3 (Hsame & Hg & Hcl).
  destruct (same_handles_repr _ _ _ Hsame Hr) as (Hr3 & Hc3 & Hn3). destruct Hsame as (Hf & _ & _ & _).
  exists m. simpl. rewrite Hc3, Hn3, Hf, Hcl. split_and!; [by eapply vid_repr_ext, Hr3|done..|].
  rewrite Hself2 in Hm. by apply clocks_ok_self.
Qed.

Lemma comm_step_ok s s' : comm_step s s' → (∃ n, comm_ok n s) → ∃ n, comm_ok n s'.
Proof.
  intros Hs [n Hok%comm_ok_tight]. set (k := virt_id_next_seq (c_vids s)) in *.
  destruct Hs as [c r s' E|c r s' Hn E|c r s' Hn E|comm r s' E|s' E|real d kind h s' Hn Hd Hk Hdk E|h s' Hh E|q Hq].
  - exists k. exact (wlp_ok _ _ _ _ _ (blocking_wlp _ _ _ _ _ _ Hok) E).
  - exists (k + 1). exact (wlp_ok _ _ _ _ _ (nonblocking_wlp _ _ _ _ _ _ Hok Hn) E).
  - exists (k + 1). exact (wlp_ok _ _ _ _ _ (make_wlp _ _ _ _ _ _ Hok Hn) E).
  - exists k. exact (wlp_ok _ _ _ _ _ (comm_free_wlp _ _ _ _ Hok) E).
  - exists k. exact (proj1 (wlp_ok _ _ _ _ _ (complete_barriers_wlp _ _ _ Hok) E)).
  - exists (k + 1). refine (wlp_ok _ (λ _ s', comm_ok (k + 1) s') _ _ _ _ E). apply wlp_on_vids.
    destruct Hok as (m & Hr & Hkc & _ & Hm).
    eapply wlp_mono; [by apply (add_virt_id_wlp _ m)|]. intros h' st' (Hh & Hr' & Hs' & Hkept & _).
    apply (comm_ok_vids _ s st' _ Hr' Hkept); [lia|done|by apply clocks_ok_insert_other].
  - exists k. refine (wlp_ok _ (λ _ s', comm_ok k s') _ _ _ _ E). apply wlp_on_vids.
    destruct Hok as (m & Hr & Hkc & _ & Hm).
    eapply wlp_mono; [by apply (free_virt_id_wlp _ m)|]. intros [] st' ([slot El] & Hr' & Hs' & Hkept).
    apply (comm_ok_vids _ s st' _ Hr' Hkept); [lia|done|].
    destruct (lookup_repr _ _ _ _ Hr El) as (e & _ & Hv & He & Hde).
    eapply clocks_ok_delete_other; [exact He| |done].
    unfold desc_kind in Hde. rewrite Hv in Hde. by destruct (desc e).
  - exists k. by apply comm_ok_seq.
Qed.

(** A handle of a communicator has its descriptor. *)
Lemma desc_of_handle st m h r d :
  vid_repr st m → comm_constants (consts st) → m !! h = Some (r, CommDesc d) → get_comm_desc st h = Some d.
Proof.
  intros (free & live & Hok & Hr) Hk Hm.
  destruct (represents_lookup _ _ _ _ _ _ Hok Hr Hm) as (slot & e & Hin & He & Hv & Hx & El).
  destruct (lookup_not_constant st m h slot) as [Hs Hw]; [by exists free, live|done|done|].
  destruct (represents_kind _ _ _ _ _ _ _ Hok Hr Hm) as (_ & Hkd & _).
  unfold get_comm_desc. rewrite (proj2 (Z.eqb_neq _ _) Hs), (proj2 (Z.eqb_neq _ _) Hw).
  unfold entry_of. rewrite El. cbn [mbind option_bind]. rewrite He, Hv. simpl in Hkd. rewrite Hkd, Z.eqb_refl.
  unfold abs_entry in Hx. by injection Hx as _ ->.
Qed.

(** C10. Every communicator has a clock of its own.  In every state that a
    process reaches from [init_world_comm()] by collective calls, by calls that
    make or free communicators and other objects, and by drains: (1) a
    communicator with a descriptor has a clock, so a collective call never
    counts on an erased clock, also while other communicators are freed;
    (2) two handles have the same gid only if they name the same communicator,
    so no two communicators share a clock; (3) no clock leaks: each one belongs
    to a communicator that has a handle or to one whose [MPI_Comm_free] barrier
    is not complete; and (4) those are different communicators. *)
Theorem comm_clocks_exact s0 s1 s :
  initial s0 → init_world_comm g_world_size g_world_rank s0 = Ok () s1 → rtc comm_step s1 s →
  let gid_of comm := comm_gid <$> get_comm_desc (c_vids s) comm in
  (∀ comm g, gid_of comm = Some g → is_Some (clocks (c_seq s) !! g)) ∧
  (∀ comm comm' g, gid_of comm = Some g → gid_of comm' = Some g →
     comm_key (c_vids s) comm = comm_key (c_vids s) comm') ∧
  (∀ g, is_Some (clocks (c_seq s) !! g) →
     (∃ comm, gid_of comm = Some g) ∨ g ∈ (f_gid <$> pending_frees s)) ∧
  (∀ comm g, gid_of comm = Some g → g ∉ (f_gid <$> pending_frees s)) ∧ NoDup (f_gid <$> pending_frees s).
Proof.
  intros Hi E Hs gid_of.
  assert (∃ n, comm_ok n s) as (n & m & Hr & Hk & _ & [Hu He Hf]).
  { assert (∃ n, comm_ok n s1) as Hok by (exists 1; exact (wlp_ok _ _ _ _ _ (init_world_comm_wlp _ Hi) E)).
    clear E. induction Hs; eauto using comm_step_ok. }
  assert (∀ comm g, gid_of comm = Some g → owns m (self_desc (c_vids s)) (pending_frees s)
    (from_option OHandle OSelf (comm_key (c_vids s) comm)) g) as Ho.
  { intros comm g (d & Hd & ->)%fmap_Some_1. by apply comm_desc_owner. }
  split_and!; [|intros comm comm' g H1%Ho H2%Ho| | |done].
  - intros comm g Hg%Ho. apply He. eauto.
  - pose proof (Hu _ _ _ H1 H2) as Heq.
    destruct (comm_key _ comm), (comm_key _ comm'); simplify_eq/=; done.
  - intros g [o Hg]%He. destruct o as [h| |]; simpl in Hg; [|left|by right].
    + left. destruct Hg as (r & d & Hm & <-). exists h. unfold gid_of. by rewrite (desc_of_handle _ m h r d).
    + destruct Hg as (d & Hd & <-). exists MPI_COMM_SELF. unfold gid_of, get_comm_desc.
      by rewrite Z.eqb_refl, Hd.
  - intros comm g Hg%Ho Hp. pose proof (Hu OPending _ _ Hp Hg) as Heq.
    by destruct (comm_key (c_vids s) comm).
Qed.
End process.

(** ** A sample *)

(** The slots of the two constants are reserved. *)
Definition sample_consts : constants_state :=
  @reserve_constant_slot sample_lib (@MPI_COMM_WORLD sample_lib)
    (@reserve_constant_slot sample_lib (@MPI_COMM_SELF sample_lib) init_constants).
Definition sample_start : coll (list coll_call) :=
  mk_coll (init_vid <| consts := sample_consts |>) (mk_seq false IS_READY ∅ [] false 0) [] [].

Lemma sample_comm_constants : @comm_constants sample_lib sample_consts.
Proof.
  pose (c := mk_constant 0 0 0 true).
  exists (<[@MPI_COMM_WORLD sample_lib := c]> (<[@MPI_COMM_SELF sample_lib := c]> ∅)). split.
  - intros u h Hu _ <-.
    assert (u = @MPI_COMM_WORLD sample_lib ∨ u = @MPI_COMM_SELF sample_lib) as [-> | ->].
    { destruct Hu as [x [[<- _]|[_ [[<- _]|[_ ?]]%lookup_insert_Some]]%lookup_insert_Some]; [by left|by right|].
      by rewrite lookup_empty in *. }
    + by vm_compute.
    + by vm_compute.
  - intros u [-> | ->]; (split; [by vm_compute; eexists|by vm_compute]).
Qed.

Lemma clocks_sample_initial : @initial sample_lib _ sample_start.
Proof.
  split; [apply vid_repr_consts; by vm_compute|apply sample_comm_constants|done..].
Qed.

Definition sample_next {A} (p : prog (coll (list coll_call)) A) (s : coll (list coll_call)) :=
  match p s with Ok _ s' => s' | _ => s end.
(** [MPI_Init], [MPI_Comm_dup] of the world, a barrier on the duplicate, and
    its [MPI_Comm_free]; the process is rank 1 of a world of 2. *)
Definition sample1 := sample_next (@init_world_comm sample_lib _ sample_coll_lib 2 1) sample_start.
Definition sample2 := sample_next (@make_wrapper sample_lib _ sample_coll_lib 2 1 9 (Comm_dup 268435456)) sample1.
Definition sample3 := sample_next (@blocking_wrapper sample_lib _ sample_coll_lib 50 (-1) 9 (Barrier 268435457)) sample2.
Definition sample4 := sample_next (@comm_free sample_lib _ sample_coll_lib 9 268435457) sample3.

Lemma clocks_sample_steps : rtc (@comm_step sample_lib _ sample_coll_lib 50 (-1) 2 1 9) sample1 sample4.
Proof.
  apply (rtc_l _ _ sample2); [|apply (rtc_l _ _ sample3), rtc_once].
  - eapply (@step_make _ _ _ _ _ _ _ _ _ (Comm_dup 268435456)); [by vm_compute|].
    vm_compute. reflexivity.
  - eapply (@step_blocking _ _ _ _ _ _ _ _ _ (Barrier 268435457)). vm_compute. reflexivity.
  - eapply (@step_free _ _ _ _ _ _ _ _ _ 268435457). vm_compute. reflexivity.
Qed.

Lemma comm_clocks_exact_witness :
  dom (clocks (c_seq sample3)) = {[1; 3; 5]} ∧ dom (clocks (c_seq sample4)) = {[1; 3]} ∧
  @get_comm_desc sample_lib (c_vids sample4) 268435457 = None ∧
  ∀ comm g, comm_gid <$> @get_comm_desc sample_lib (c_vids sample4) comm = Some g →
    is_Some (clocks (c_seq sample4) !! g).
Proof.
  split; [by vm_compute|]. split; [by vm_compute|]. split; [by vm_compute|].
  assert (@init_world_comm sample_lib _ sample_coll_lib 2 1 sample_start = Ok () sample1) as E
    by (vm_compute; reflexivity).
  exact (proj1 (@comm_clocks_exact sample_lib _ sample_coll_lib 50 (-1) 2 1 9 sample_start sample1 sample4
    clocks_sample_initial E clocks_sample_steps)).
Defined.
