(* ===== verification/CommGids.v ===== *)
(** * Gids are unique in the job ([make_gid()], [new_comm_desc()])

    [add_comm_clock()] aborts if a process has two communicators with one gid.
    Rank 0 of a new communicator makes its gid and the other members receive it
    from there, each at a time of its own, while other communicators are made
    and freed.  This file composes the processes of a job and proves that every
    gid is new in the whole job, so no process aborts. *)
From S2P Require Import Prelude Mpi Constants VirtualId VirtualIdInv VirtualIdSpec PendingLog Kvdb SeqNum Collectives CollectivesSpec CommClocks CommClocksSpec.

Section job.
Context `{MpiLib} `{CollLib L}.
Implicit Types (s : coll L).

(** ** One process *)

(** The lower half when [new_comm_desc()] broadcasts the gid. *)
Definition at_bcast (real : Z) (l : L) : L :=
  let '(group, l1) := lh_comm_group real l in lh_free_group group l1.

(** The gid that [new_comm_desc()] has after the broadcast. *)
Definition desc_gid (n r real : Z) (s : coll L) : Z :=
  let l := c_lower s in
  let g := if lh_comm_rank real l =? 0 then u64 (gids_made (c_vids s) * n + r) else 0 in
  if 1 <? lh_comm_size real l then (lh_bcast_gid g real (at_bcast real l)).1 else g.

(** The process makes [real] as its rank 0; the broadcast gives the root's value. *)
Definition root_call (real : Z) (s : coll L) : Prop :=
  lh_comm_rank real (c_lower s) = 0 ∧ ∀ v, (lh_bcast_gid v real (at_bcast real (c_lower s))).1 = v.
(** The process is another member; the broadcast gives the root's gid [g]. *)
Definition member_call (real g : Z) (s : coll L) : Prop :=
  lh_comm_rank real (c_lower s) ≠ 0 ∧ 1 < lh_comm_size real (c_lower s) ∧
  (lh_bcast_gid 0 real (at_bcast real (c_lower s))).1 = g.

(** [new_comm_desc()] after the gid is known. *)
Lemma add_clock_run g (d : mana_comm_desc) s :
  if decide (clocks (c_seq s) !! g = None)
  then ∃ s', (on_seq (add_comm_clock g) ;; mret d) s = Ok d s' ∧ c_vids s' = c_vids s ∧
    clocks (c_seq s') = <[g := mk_clock 0 0]> (clocks (c_seq s))
  else (on_seq (add_comm_clock g) ;; mret d) s = Abort.
Proof.
  unfold on_seq, add_comm_clock. prog_red. case_decide as Hg; [rewrite bool_decide_eq_true_2 by done|].
  - simpl. destruct (ckpt_pending (c_seq s)); by eexists.
  - by rewrite bool_decide_eq_false_2.
Qed.

Lemma new_comm_desc_run n r real s :
  let g := desc_gid n r real s in
  if decide (clocks (c_seq s) !! g = None)
  then ∃ d s', new_comm_desc n r real s = Ok d s' ∧ comm_gid d = g ∧
    clocks (c_seq s') = <[g := mk_clock 0 0]> (clocks (c_seq s)) ∧
    gids_made (c_vids s') = if lh_comm_rank real (c_lower s) =? 0 then u64 (gids_made (c_vids s) + 1)
                            else gids_made (c_vids s)
  else new_comm_desc n r real s = Abort.
Proof.
  intros g.
  assert (∃ d s1, new_comm_desc n r real s = (on_seq (add_comm_clock g) ;; mret d) s1 ∧ comm_gid d = g ∧
    c_seq s1 = c_seq s ∧ gids_made (c_vids s1) =
      if lh_comm_rank real (c_lower s) =? 0 then u64 (gids_made (c_vids s) + 1) else gids_made (c_vids s))
    as (d & s1 & -> & Hd & Hq & Hm).
  { unfold new_comm_desc, ask, on_vids, make_gid, on_lower, g, desc_gid, at_bcast. prog_red.
    destruct (lh_comm_group real (c_lower s)) as [group l1]. simpl.
    repeat (match goal with |- context [if ?b then _ else _] => destruct b end; simpl);
      try destruct (lh_bcast_gid _ real (lh_free_group group l1)) as [g' l2]; simpl;
      (do 2 eexists; split; [reflexivity|]; split; [reflexivity|]; split; reflexivity). }
  pose proof (add_clock_run g d s1) as Hr. rewrite Hq in Hr. case_decide; [|done].
  destruct Hr as (s' & -> & Hv & Hc). exists d, s'. by rewrite Hv.
Qed.

(** ** The job *)

(** The processes by rank, and the communicators made so far: the gid of each
    and the members that have not received it. *)
Record job := mk_job { procs : list (coll L); made : list (Z * list nat) }.

(** A new communicator at its rank 0, whose other members are [members]; the
    gid at one of those; and everything else that a process does, which makes
    no gid and adds no clock (counting calls, erasing clocks, making other
    objects).  The counter of gids has not passed [2 ^ 64]. *)
Inductive job_step (j : job) : job → Prop :=
  | job_root r s real members d s' :
      procs j !! r = Some s → root_call real s → r ∉ members →
      (gids_made (c_vids s) + 1) * Z.of_nat (length (procs j)) < 2 ^ 64 →
      new_comm_desc (Z.of_nat (length (procs j))) (Z.of_nat r) real s = Ok d s' →
      job_step j (mk_job (<[r := s']> (procs j)) (made j ++ [(comm_gid d, members)]))
  | job_member r s real i g members d s' :
      procs j !! r = Some s → made j !! i = Some (g, members) → r ∈ members → member_call real g s →
      new_comm_desc (Z.of_nat (length (procs j))) (Z.of_nat r) real s = Ok d s' →
      job_step j (mk_job (<[r := s']> (procs j)) (<[i := (g, filter (.≠ r) members)]> (made j)))
  | job_local r s s' :
      procs j !! r = Some s → gids_made (c_vids s') = gids_made (c_vids s) →
      dom (clocks (c_seq s')) ⊆ dom (clocks (c_seq s)) →
      job_step j (mk_job (<[r := s']> (procs j)) (made j)).

(** Before any communicator. *)
Definition job_start (j : job) : Prop :=
  made j = [] ∧ ∀ r s, procs j !! r = Some s → gids_made (c_vids s) = 0 ∧ clocks (c_seq s) = ∅.

Record job_inv (j : job) : Prop := {
  ji_count : ∀ r s, procs j !! r = Some s →
    0 ≤ gids_made (c_vids s) ∧ gids_made (c_vids s) * Z.of_nat (length (procs j)) < 2 ^ 64;
  ji_made : ∀ g M, (g, M) ∈ made j → ∃ r s i, procs j !! r = Some s ∧ 0 ≤ i < gids_made (c_vids s) ∧
    g = i * Z.of_nat (length (procs j)) + Z.of_nat r;
  ji_unique : NoDup (made j).*1;
  ji_clocks : ∀ r s g, procs j !! r = Some s → is_Some (clocks (c_seq s) !! g) →
    ∃ M, (g, M) ∈ made j ∧ r ∉ M
}.

Lemma job_start_inv j : job_start j → job_inv j.
Proof.
  intros [Hm Hp]. split.
  - intros r s Hr. destruct (Hp r s Hr) as [-> _]. lia.
  - intros g M. rewrite Hm. by intros ?%not_elem_of_nil.
  - rewrite Hm. constructor.
  - intros r s g Hr. destruct (Hp r s Hr) as [_ ->]. rewrite lookup_empty. by intros [? ?].
Qed.

(** The gid that a root makes. *)
Lemma root_gid j r s real :
  job_inv j → procs j !! r = Some s → root_call real s →
  (gids_made (c_vids s) + 1) * Z.of_nat (length (procs j)) < 2 ^ 64 →
  let n := Z.of_nat (length (procs j)) in
  let g := desc_gid n (Z.of_nat r) real s in
  g = gids_made (c_vids s) * n + Z.of_nat r ∧ (∀ M, (g, M) ∉ made j) ∧ clocks (c_seq s) !! g = None.
Proof.
  intros [Hc Hm Hu Hk] Hr [Hrank Hb] Hlt n g. destruct (Hc r s Hr) as [Hpos _].
  assert (r < length (procs j))%nat as Hlen by by eapply lookup_lt_Some.
  assert (g = gids_made (c_vids s) * n + Z.of_nat r) as Hg.
  { unfold g, desc_gid. rewrite Hrank, Z.eqb_refl.
    rewrite u64_small by (unfold n; nia). destruct (1 <? _); [apply Hb|done]. }
  assert (∀ M, (g, M) ∉ made j) as Hfresh.
  { intros M HM. destruct (Hm g M HM) as (r' & s' & i & Hr' & Hi & E).
    pose proof (lookup_lt_Some _ _ _ Hr'). rewrite Hg in E. fold n in E.
    assert (gids_made (c_vids s) = i ∧ Z.of_nat r = Z.of_nat r') as [Ei Er%Nat2Z.inj].
    { apply (Z.div_mod_unique n); [unfold n; lia..|lia]. }
    simplify_eq. lia. }
  split_and!; [done|done|]. apply eq_None_not_Some. intros Hs.
  destruct (Hk r s g Hr Hs) as (M & HM & _). by apply (Hfresh M).
Qed.

(** The gid that a member receives. *)
Lemma member_gid j r s real i g M :
  job_inv j → procs j !! r = Some s → made j !! i = Some (g, M) → r ∈ M → member_call real g s →
  let n := Z.of_nat (length (procs j)) in
  desc_gid n (Z.of_nat r) real s = g ∧ clocks (c_seq s) !! g = None.
Proof.
  intros [Hc Hm Hu Hk] Hr Hi HM (Hrank & Hsize & Hb) n. split.
  - unfold desc_gid. rewrite (proj2 (Z.eqb_neq _ _) Hrank), (proj2 (Z.ltb_lt _ _) Hsize). done.
  - apply eq_None_not_Some. intros Hs. destruct (Hk r s g Hr Hs) as (M' & HM' & Hn).
    apply list_elem_of_lookup in HM' as [i' Hi'].
    assert (i = i') as ->.
    { eapply NoDup_lookup; [exact Hu|..]; rewrite list_lookup_fmap; [by rewrite Hi|by rewrite Hi']. }
    by simplify_eq.
Qed.

(** A process that changes keeps the gids made before. *)
Lemma made_keep j r s s' n :
  procs j !! r = Some s → gids_made (c_vids s) ≤ gids_made (c_vids s') →
  ∀ g, (∃ r0 s0 i, procs j !! r0 = Some s0 ∧ 0 ≤ i < gids_made (c_vids s0) ∧ g = i * n + Z.of_nat r0) →
  ∃ r0 s0 i, <[r := s']> (procs j) !! r0 = Some s0 ∧ 0 ≤ i < gids_made (c_vids s0) ∧ g = i * n + Z.of_nat r0.
Proof.
  intros Hr Hle g (r0 & s0 & i & Hr0 & Hi & ->). destruct (decide (r = r0)) as [->|Hne].
  - simplify_eq. exists r0, s', i. rewrite list_lookup_insert_eq by (by eapply lookup_lt_Some).
    split_and!; [done|lia..].
  - exists r0, s0, i. by rewrite list_lookup_insert_ne.
Qed.

(** The lookups in an updated list of processes. *)
Lemma procs_insert j r s s' r0 s0 :
  procs j !! r = Some s → <[r := s']> (procs j) !! r0 = Some s0 →
  (r0 = r ∧ s0 = s') ∨ (r0 ≠ r ∧ procs j !! r0 = Some s0).
Proof.
  intros Hr. destruct (decide (r = r0)) as [->|Hne].
  - rewrite list_lookup_insert_eq by (by eapply lookup_lt_Some). intros [= ->]. by left.
  - rewrite list_lookup_insert_ne by done. right. by split.
Qed.

Lemma job_root_inv j r s real M d s' :
  procs j !! r = Some s → root_call real s → r ∉ M →
  (gids_made (c_vids s) + 1) * Z.of_nat (length (procs j)) < 2 ^ 64 →
  new_comm_desc (Z.of_nat (length (procs j))) (Z.of_nat r) real s = Ok d s' →
  job_inv j → job_inv (mk_job (<[r := s']> (procs j)) (made j ++ [(comm_gid d, M)])).
Proof.
  intros Hr Hroot HM Hlt E Hj. pose proof Hj as [Hc Hm Hu Hk].
  destruct (root_gid j r s real Hj Hr Hroot Hlt) as (Hg & Hfresh & Hnone).
  set (n := Z.of_nat (length (procs j))) in *.
  pose proof (new_comm_desc_run n (Z.of_nat r) real s) as Hrun. cbv zeta in Hrun.
  rewrite decide_True in Hrun by done. destruct Hrun as (d' & s1 & E' & Hd & Hcl & Hgm).
  rewrite E in E'. injection E' as <- <-. destruct (Hc r s Hr) as [Hpos _].
  rewrite (proj1 Hroot), Z.eqb_refl in Hgm. pose proof (lookup_lt_Some _ _ _ Hr) as Hlen.
  rewrite u64_small in Hgm by (unfold n in *; nia). rewrite Hd. clear E.
  split; simpl; rewrite ?length_insert; fold n.
  - intros r0 s0 [[-> ->]|[_ ?]]%(procs_insert j r s); [lia|eauto|done].
  - intros g M0 [HM0|[= -> ->]%list_elem_of_singleton]%elem_of_app.
    + eapply made_keep; [done|lia|eauto].
    + exists r, s', (gids_made (c_vids s)). rewrite list_lookup_insert_eq by done. split_and!; [done|lia..].
  - rewrite fmap_app. apply NoDup_app. split_and!; [done| |apply NoDup_singleton].
    intros g Hin%list_elem_of_fmap Heq%list_elem_of_singleton. destruct Hin as ([g' M'] & -> & Hin).
    simpl in Heq. rewrite Heq in Hin. by eapply Hfresh.
  - assert (∀ r0 s0 g, procs j !! r0 = Some s0 → is_Some (clocks (c_seq s0) !! g) →
      ∃ M0, (g, M0) ∈ made j ++ [(desc_gid n (Z.of_nat r) real s, M)] ∧ r0 ∉ M0) as Hold.
    { intros r0 s0 g Hr0 Hs. destruct (Hk r0 s0 g Hr0 Hs) as (M0 & ? & ?). exists M0. rewrite elem_of_app. tauto. }
    intros r0 s0 g [[-> ->]|[_ Hr0]]%(procs_insert j r s); [|by eapply Hold|done].
    rewrite Hcl, lookup_insert_is_Some. intros [<-|[_ Hs]]; [|by eapply Hold].
    exists M. split; [|done]. apply elem_of_app. right. by left.
Qed.

Lemma job_member_inv j r s real i g M d s' :
  procs j !! r = Some s → made j !! i = Some (g, M) → r ∈ M → member_call real g s →
  new_comm_desc (Z.of_nat (length (procs j))) (Z.of_nat r) real s = Ok d s' →
  job_inv j → job_inv (mk_job (<[r := s']> (procs j)) (<[i := (g, filter (.≠ r) M)]> (made j))).
Proof.
  intros Hr Hi HrM Hmem E Hj. pose proof Hj as [Hc Hm Hu Hk].
  destruct (member_gid j r s real i g M Hj Hr Hi HrM Hmem) as (Hg & Hnone).
  set (n := Z.of_nat (length (procs j))) in *.
  pose proof (new_comm_desc_run n (Z.of_nat r) real s) as Hrun. cbv zeta in Hrun. rewrite Hg in Hrun.
  rewrite decide_True in Hrun by done. destruct Hrun as (d' & s1 & E' & Hd & Hcl & Hgm).
  rewrite E in E'. injection E' as <- <-. rewrite (proj2 (Z.eqb_neq _ _) (proj1 Hmem)) in Hgm. clear E.
  pose proof (lookup_lt_Some _ _ _ Hi) as Hlen.
  assert (∀ x M0, (x, M0) ∈ made j → ∃ M1, (x, M1) ∈ <[i := (g, filter (.≠ r) M)]> (made j) ∧
    ∀ r0, r0 ∉ M0 → r0 ∉ M1) as Hold.
  { intros x M0 [i0 Hi0]%list_elem_of_lookup. destruct (decide (i = i0)) as [->|Hne].
    - simplify_eq. exists (filter (.≠ r) M). split.
      + apply list_elem_of_lookup. exists i0. by rewrite list_lookup_insert_eq.
      + intros r0 Hr0 [? _]%elem_of_remove. done.
    - exists M0. split; [|done]. apply list_elem_of_lookup. exists i0. by rewrite list_lookup_insert_ne. }
  split; simpl; rewrite ?length_insert; fold n.
  - intros r0 s0 [[-> ->]|[_ ?]]%(procs_insert j r s); [rewrite Hgm; eauto|eauto|done].
  - intros x M0 [i0 Hi0]%list_elem_of_lookup. eapply made_keep; [done|lia|].
    destruct (decide (i = i0)) as [->|Hne].
    + rewrite list_lookup_insert_eq in Hi0 by done. simplify_eq. eapply Hm, list_elem_of_lookup_2, Hi.
    + rewrite list_lookup_insert_ne in Hi0 by done. eapply Hm, list_elem_of_lookup_2, Hi0.
  - rewrite list_fmap_insert. simpl. rewrite list_insert_id; [done|]. by rewrite list_lookup_fmap, Hi.
  - intros r0 s0 x [[-> ->]|[_ Hr0]]%(procs_insert j r s) Hs; [| |done].
    + rewrite Hcl, lookup_insert_is_Some in Hs. destruct Hs as [<-|[_ Hs]].
      * exists (filter (.≠ r) M). split; [|by intros [_ ?]%elem_of_remove].
        apply list_elem_of_lookup. exists i. by rewrite list_lookup_insert_eq.
      * destruct (Hk r s x Hr Hs) as (M0 & (M1 & ? & ?)%Hold & ?). eauto.
    + destruct (Hk r0 s0 x Hr0 Hs) as (M0 & (M1 & ? & ?)%Hold & ?). eauto.
Qed.

Lemma job_local_inv j r s s' :
  procs j !! r = Some s → gids_made (c_vids s') = gids_made (c_vids s) →
  dom (clocks (c_seq s')) ⊆ dom (clocks (c_seq s)) →
  job_inv j → job_inv (mk_job (<[r := s']> (procs j)) (made j)).
Proof.
  intros Hr Hg Hd [Hc Hm Hu Hk]. split; simpl; rewrite ?length_insert; [| |done|].
  - intros r0 s0 [[-> ->]|[_ ?]]%(procs_insert j r s); [rewrite Hg; eauto|eauto|done].
  - intros g M HM. eapply made_keep; [done|lia|eauto].
  - intros r0 s0 g [[-> ->]|[_ Hr0]]%(procs_insert j r s); [|eauto|done].
    rewrite <- elem_of_dom. intros Hs%Hd%elem_of_dom. eauto.
Qed.

Lemma job_step_inv j j' : job_step j j' → job_inv j → job_inv j'.
Proof. intros []; eauto using job_root_inv, job_member_inv, job_local_inv. Qed.

(** C11. Gids are unique in the job.  However the processes interleave (a member
    may receive a gid long after the root made it, and make or free other
    communicators in between), as long as no counter passes [2 ^ 64]: no two
    communicators of the job get the same gid; a root's gid is new in the whole
    job, and [new_comm_desc()] succeeds there; a member that receives the gid of
    a communicator has no clock for it yet, so the assertion of
    [add_comm_clock()] that no two communicators have one gid holds, and its
    clock is the one of that communicator. *)
Theorem gids_unique j0 j :
  job_start j0 → rtc job_step j0 j →
  let n := Z.of_nat (length (procs j)) in
  NoDup (made j).*1 ∧
  (∀ r s real, procs j !! r = Some s → root_call real s → (gids_made (c_vids s) + 1) * n < 2 ^ 64 →
     ∃ d s', new_comm_desc n (Z.of_nat r) real s = Ok d s' ∧ comm_gid d ∉ (made j).*1) ∧
  (∀ r s real i g members, procs j !! r = Some s → made j !! i = Some (g, members) → r ∈ members →
     member_call real g s →
     ∃ d s', new_comm_desc n (Z.of_nat r) real s = Ok d s' ∧ comm_gid d = g).
Proof.
  intros Hstart Hsteps n.
  assert (job_inv j) as Hj.
  { apply job_start_inv in Hstart. induction Hsteps; eauto using job_step_inv. }
  split_and!; [apply Hj|intros r s real Hr Hroot Hlt|intros r s real i g M Hr Hi HM Hmem].
  - destruct (root_gid j r s real Hj Hr Hroot Hlt) as (_ & Hfresh & Hnone).
    pose proof (new_comm_desc_run n (Z.of_nat r) real s) as Hrun. cbv zeta in Hrun.
    rewrite decide_True in Hrun by done. destruct Hrun as (d & s' & E & Hd & _). exists d, s'.
    split; [done|]. rewrite Hd. intros ([g M] & Eg & Hin)%list_elem_of_fmap. simpl in Eg. subst g.
    by eapply Hfresh.
  - destruct (member_gid j r s real i g M Hj Hr Hi HM Hmem) as (Hg & Hnone).
    pose proof (new_comm_desc_run n (Z.of_nat r) real s) as Hrun. cbv zeta in Hrun. fold n in Hg.
    rewrite Hg in Hrun. rewrite decide_True in Hrun by done. destruct Hrun as (d & s' & E & Hd & _). eauto.
Qed.
End job.

(** ** A sample: two processes and one communicator *)

(** The lower half's state is the rank. *)
Definition sample_pair_lib : CollLib Z := {|
  MANA_COMM_NULL := 1; MANA_COMM_WORLD := 2; MANA_COMM_SELF := 3;
  lh_coll _ l := (0, l);
  lh_icoll _ l := ((0, 900), l);
  lh_make_comm _ l := ((0, 500), l);
  lh_test_barrier _ l := ((0, true), l);
  lh_free_comm _ l := (0, l);
  lh_comm_size _ _ := 2;
  lh_comm_rank _ l := l;
  lh_comm_group _ l := (700, l);
  lh_translate_ranks _ ranks _ := ranks;
  lh_free_group _ l := l;
  lh_topo_test _ _ := -32766;
  lh_cartdim _ _ := 0;
  lh_cart _ _ _ := ([], []);
  lh_bcast_gid v _ l := (if l =? 0 then v else 0, l)
|}.
Definition sample_proc (rank : Z) : coll Z := mk_coll init_vid (mk_seq false IS_READY ∅ [] false 0) [] rank.
Definition sample_job : job := mk_job [sample_proc 0; sample_proc 1] [].

Lemma sample_job_start : job_start sample_job.
Proof. split; [done|]. intros [|[|r]] s Hr; simplify_eq/=; done. Qed.

Definition sample_root : outcome (coll Z) mana_comm_desc :=
  @new_comm_desc sample_lib _ sample_pair_lib 2 0 500 (sample_proc 0).

Lemma gids_unique_witness :
  ∃ d0 s0, sample_root = Ok d0 s0 ∧
  ∃ d s, @new_comm_desc sample_lib _ sample_pair_lib 2 1 500 (sample_proc 1) = Ok d s ∧ comm_gid d = comm_gid d0.
Proof.
  destruct sample_root as [d0 s0| |] eqn:E; [|vm_compute in E; discriminate E..].
  exists d0, s0. split; [done|].
  assert (comm_gid d0 = 0) as Hd by (vm_compute in E; by injection E as <- _).
  pose proof (@job_root sample_lib _ sample_pair_lib sample_job 0 (sample_proc 0) 500 [1%nat] d0 s0 eq_refl
    ltac:(by split) ltac:(by rewrite list_elem_of_singleton) ltac:(by vm_compute) E) as Hstep.
  destruct (@gids_unique sample_lib _ sample_pair_lib _ _ sample_job_start (rtc_once _ _ Hstep))
    as (_ & _ & Hmember).
  apply (Hmember 1%nat (sample_proc 1) 500 0%nat (comm_gid d0) [1%nat]); [done|done|by left|].
  by rewrite Hd.
Defined.
