(* ===== verification/CommAttrs.v ===== *)
(** * MPI_Comm_free and MPI_Comm_dup, with the attributes
    ([src/src/mpi-wrappers/mpi_comm_wrappers.cpp], [mpi_collective_wrappers.cpp])

    [MPI_Comm_free] runs the delete callbacks of the communicator's attributes
    before the collective call; [MPI_Comm_dup] runs the copy callbacks after it,
    and frees the duplicate if one of them fails.  The two calls compose the
    parts in [Keyvals] and [Collectives]. *)
From S2P Require Import Prelude Mpi Constants VirtualId VirtualIdInv VirtualIdSpec PendingLog Kvdb SeqNum Keyvals KeyvalsInv KeyvalsLife Collectives CollectivesSpec CommClocks.

Record comm_proc (W L : Type) := mk_proc { cp_attrs : attrs W; cp_coll : coll L }.
Arguments mk_proc {W L} cp_attrs cp_coll. Arguments cp_attrs {W L} _. Arguments cp_coll {W L} _.

Section calls.
Context {ML : MpiLib} {KL : KeyvalLib} {W : Type} {CB : Callbacks W} {L : Type} {CL : CollLib L}.
Context (g_world_size g_world_rank : Z) (polls : nat).
Implicit Types (s : comm_proc W L).

Definition on_attrs {A} (p : prog (attrs W) A) : prog (comm_proc W L) A := λ s,
  match p (cp_attrs s) with Ok a x => Ok a (mk_proc x (cp_coll s)) | Abort => Abort | Spin => Spin end.
Definition on_coll {A} (p : prog (coll L) A) : prog (comm_proc W L) A := λ s,
  match p (cp_coll s) with Ok a x => Ok a (mk_proc (cp_attrs s) x) | Abort => Abort | Spin => Spin end.

(** The return code and [*comm]. *)
Definition PMPI_Comm_free (comm : Z) : prog (comm_proc W L) (Z * Z) :=
  retval ← on_attrs (delete_comm_attributes comm);
  if negb (retval =? MPI_SUCCESS) then mret (retval, comm)
  else on_coll (comm_free polls comm).

Definition PMPI_Comm_dup (comm : Z) : prog (comm_proc W L) (Z * Z) :=
  '(retval, newcomm) ← on_coll (comm_dup g_world_size g_world_rank polls comm);
  if (retval =? MPI_SUCCESS) && negb (newcomm =? MPI_COMM_NULL) then
    retval ← on_attrs (copy_comm_attributes comm newcomm);
    if negb (retval =? MPI_SUCCESS) then
      PMPI_Comm_free newcomm ;;
      mret (retval, MPI_COMM_NULL)
    else mret (retval, newcomm)
  else mret (retval, newcomm).

(** [fuel] is that of [delete_self_attributes]; [lh_finalize] is the lower half's
    [MPI_Finalize]. *)
Definition PMPI_Finalize (fuel : nat) (lh_finalize : L → Z * L) : prog (comm_proc W L) Z :=
  retval ← on_attrs (delete_self_attributes fuel);
  if negb (retval =? MPI_SUCCESS) then mret retval else
  on_coll (complete_comm_free_barriers polls) ;;
  on_coll (on_lower lh_finalize).

(** ** The communicators and their clocks *)

Lemma wlp_attrs {A} (p : prog (attrs W) A) (Q : A → comm_proc W L → Prop) s :
  (∀ a x, Q a (mk_proc x (cp_coll s))) → wlp (on_attrs p) Q s.
Proof. intros HQ. unfold wlp, on_attrs. by destruct (p (cp_attrs s)). Qed.
Lemma wlp_coll {A} (p : prog (coll L) A) (Q : A → comm_proc W L → Prop) s :
  wlp p (λ a x, Q a (mk_proc (cp_attrs s) x)) (cp_coll s) → wlp (on_coll p) Q s.
Proof. unfold wlp, on_coll. by destruct (p (cp_coll s)). Qed.

(** A delete callback that fails: the call returns its error, and the
    communicator, its clock and its handle stay; no collective call is counted. *)
Lemma comm_free_callback_fails comm rc x s :
  delete_comm_attributes comm (cp_attrs s) = Ok rc x → rc ≠ MPI_SUCCESS →
  PMPI_Comm_free comm s = Ok (rc, comm) (mk_proc x (cp_coll s)).
Proof.
  intros E Hrc. unfold PMPI_Comm_free, on_attrs. prog_red. rewrite E.
  by rewrite (proj2 (Z.eqb_neq _ _) Hrc).
Qed.

(** The whole calls keep the invariant of the clocks, whatever the callbacks
    return. *)
Lemma comm_free_keeps n comm s :
  comm_ok n (cp_coll s) → wlp (PMPI_Comm_free comm) (λ _ s', comm_ok n (cp_coll s')) s.
Proof.
  intros Hok. unfold PMPI_Comm_free. apply wlp_bind, wlp_attrs. intros rc x.
  destruct (negb _); [done|]. apply wlp_coll. by apply comm_free_wlp.
Qed.

Lemma comm_dup_keeps n comm s :
  comm_ok n (cp_coll s) → n + 1 < 2 ^ 64 → wlp (PMPI_Comm_dup comm) (λ _ s', comm_ok (n + 1) (cp_coll s')) s.
Proof.
  intros Hok Hn. unfold PMPI_Comm_dup. apply wlp_bind, wlp_coll.
  eapply wlp_mono; [exact (make_wlp _ _ _ n (Comm_dup comm) _ Hok Hn)|]. intros [rc h] x Hx.
  destruct (_ && _); [|done]. apply wlp_bind, wlp_attrs. intros rc' y. destruct (negb _); [|done].
  apply wlp_bind. eapply wlp_mono; [by apply comm_free_keeps|]. done.
Qed.

(** [MPI_Finalize] returns the error of a delete callback before anything else
    happens.  Otherwise every free barrier is complete when the lower half's
    [MPI_Finalize] is called: it has no pending request of MANA's, and the clocks
    are those of the communicators that are left. *)
Theorem finalize_completes_frees n fuel lh_finalize s :
  comm_ok n (cp_coll s) →
  wlp (PMPI_Finalize fuel lh_finalize) (λ r s',
    (∃ x, delete_self_attributes fuel (cp_attrs s) = Ok r x ∧ r ≠ MPI_SUCCESS ∧ s' = mk_proc x (cp_coll s)) ∨
    ∃ x c, comm_ok n c ∧ pending_frees c = [] ∧ complete_comm_free_barriers polls (cp_coll s) = Ok () c ∧
      let '(r0, l) := lh_finalize (c_lower c) in r = r0 ∧ s' = mk_proc x (c <| c_lower := l |>)) s.
Proof.
  intros Hok. unfold PMPI_Finalize, on_attrs, on_coll, on_lower, wlp. prog_red.
  destruct (delete_self_attributes fuel (cp_attrs s)) as [r x| |] eqn:E; [|done..].
  destruct (Z.eqb_spec r MPI_SUCCESS) as [->|Hr]; cbn [negb]; [|left; by exists x]. cbn.
  pose proof (complete_barriers_wlp polls n (cp_coll s) Hok) as Hc. unfold wlp in Hc.
  destruct (complete_comm_free_barriers polls (cp_coll s)) as [[] c| |]; [|done..].
  destruct Hc as [Hc Hp]. cbn.
  destruct (lh_finalize (c_lower c)) as [r0 l] eqn:El. cbn. right. exists x, c. by rewrite El.
Qed.
End calls.
