(* ===== verification/ForwardCalls.v ===== *)
(** * Wrappers that forward a call ([src/src/mpi-wrappers/])

    These wrappers translate the handles among their arguments, call the lower
    half and return what it returns: enquiries about communicators, topologies,
    groups, errors and the library, and reads and writes of files.  A datatype, a
    file or a communicator is translated by [get_real_id()]; an [MPI_Info] or an
    [MPI_Errhandler], which MANA does not virtualize, by [lower_half_handle()].

    Arrays and buffers are addresses.  [lh_forward] returns the code and the
    values that the call writes to its output arguments.  The brackets
    [LOWER_HALF_DISABLE_CKPT()] are those of [LowerHalfGuard]. *)
From S2P Require Import Prelude Mpi Constants VirtualId VirtualIdInv VirtualIdSpec.

(** The calls, with their input arguments. *)
Inductive fwd_call :=
  | Comm_size (comm : Z)
  | Comm_rank (comm : Z)
  | Abort_all (comm errorcode : Z)
  | Comm_compare (comm1 comm2 : Z)
  | Comm_set_errhandler (comm errhandler : Z)
  | Topo_test (comm : Z)
  | Cart_coords (comm rank maxdims : Z)
  | Cart_get (comm maxdims : Z)
  | Cart_map (comm ndims dims periods : Z)
  | Cart_rank (comm coords : Z)
  | Cart_shift (comm direction disp : Z)
  | Cartdim_get (comm : Z)
  | Dims_create (nnodes ndims dims : Z)
  | Group_size (group : Z)
  | Group_compare (group1 group2 : Z)
  | Group_rank (group : Z)
  | Group_translate_ranks (group1 n ranks1 group2 : Z)
  | Reduce_local (inbuf inoutbuf count datatype op : Z)
  | Error_class (errorcode : Z)
  | Error_string (errorcode : Z)
  | Finalized
  | Get_processor_name
  | Get_count (status datatype : Z)
  | Get_library_version
  | Get_address (location : Z)
  | File_get_atomicity (fh : Z)
  | File_set_atomicity (fh flag : Z)
  | File_set_size (fh size : Z)
  | File_get_size (fh : Z)
  | File_read (fh buf count datatype : Z)
  | File_read_at (fh offset buf count datatype : Z)
  | File_read_at_all (fh offset buf count datatype : Z)
  | File_read_all (fh buf count datatype : Z)
  | File_write (fh buf count datatype : Z)
  | File_write_at (fh offset buf count datatype : Z)
  | File_write_at_all (fh offset buf count datatype : Z)
  | File_write_all (fh buf count datatype : Z)
  | File_sync (fh : Z)
  | File_get_position (fh : Z)
  | File_seek (fh offset whence : Z)
  | File_delete (filename info : Z)
  | File_set_errhandler (file errhandler : Z)
  | Type_get_extent (datatype : Z)
  | Type_get_name (datatype : Z)
  | Type_size_x (type : Z)
  | Pack_size (incount datatype comm : Z)
  | Pack (inbuf incount datatype outbuf outsize position comm : Z)
  | Get_elements (status datatype : Z)
  | Get_elements_x (status datatype : Z).

Class FwdLib (L : Type) := {
  lh_forward : fwd_call → L → (Z * list Z) * L
}.

(** The parts of a process that the calls use. *)
Record fwd (L : Type) := mk_fwd { w_vids : vid_state; w_lower : L }.
Arguments mk_fwd {L} w_vids w_lower. Arguments w_vids {L} _. Arguments w_lower {L} _.
#[export] Instance eta_fwd L : Eta (fwd L) := λ s, mk_fwd (w_vids s) (w_lower s).

Section wrappers.
Context `{MpiLib} `{FwdLib L}.

Definition real_id_of (h : Z) : prog (fwd L) Z := λ s,
  match get_real_id h (w_vids s) with Ok a st => Ok a (s <| w_vids := st |>) | Abort => Abort | Spin => Spin end.
Definition on_consts {A} (p : prog constants_state A) : prog (fwd L) A := λ s,
  match p (consts (w_vids s)) with
  | Ok a cs => Ok a (s <| w_vids ::= λ st, st <| consts := cs |> |>)
  | Abort => Abort
  | Spin => Spin
  end.
Definition forward (c : fwd_call) : prog (fwd L) (Z * list Z) := λ s,
  let '(r, l) := lh_forward c (w_lower s) in Ok r (s <| w_lower := l |>).

(** ** Communicators *)

Definition PMPI_Comm_size (comm : Z) : prog (fwd L) (Z * list Z) :=
  real_comm ← real_id_of comm;
  forward (Comm_size real_comm).
Definition PMPI_Comm_rank (comm : Z) : prog (fwd L) (Z * list Z) :=
  real_comm ← real_id_of comm;
  forward (Comm_rank real_comm).
Definition PMPI_Abort (comm errorcode : Z) : prog (fwd L) (Z * list Z) :=
  real_comm ← real_id_of comm;
  forward (Abort_all real_comm errorcode).
Definition PMPI_Comm_compare (comm1 comm2 : Z) : prog (fwd L) (Z * list Z) :=
  real_comm1 ← real_id_of comm1;
  real_comm2 ← real_id_of comm2;
  forward (Comm_compare real_comm1 real_comm2).
Definition PMPI_Comm_set_errhandler (comm errhandler : Z) : prog (fwd L) (Z * list Z) :=
  real_comm ← real_id_of comm;
  real_errhandler ← on_consts (lower_half_handle errhandler);
  forward (Comm_set_errhandler real_comm real_errhandler).
Definition PMPI_Topo_test (comm : Z) : prog (fwd L) (Z * list Z) :=
  real_comm ← real_id_of comm;
  forward (Topo_test real_comm).

(** ** Topologies *)

Definition PMPI_Cart_coords (comm rank maxdims : Z) : prog (fwd L) (Z * list Z) :=
  real_comm ← real_id_of comm;
  forward (Cart_coords real_comm rank maxdims).
Definition PMPI_Cart_get (comm maxdims : Z) : prog (fwd L) (Z * list Z) :=
  real_comm ← real_id_of comm;
  forward (Cart_get real_comm maxdims).
Definition PMPI_Cart_map (comm ndims dims periods : Z) : prog (fwd L) (Z * list Z) :=
  real_comm ← real_id_of comm;
  forward (Cart_map real_comm ndims dims periods).
Definition PMPI_Cart_rank (comm coords : Z) : prog (fwd L) (Z * list Z) :=
  real_comm ← real_id_of comm;
  forward (Cart_rank real_comm coords).
Definition PMPI_Cart_shift (comm direction disp : Z) : prog (fwd L) (Z * list Z) :=
  real_comm ← real_id_of comm;
  forward (Cart_shift real_comm direction disp).
Definition PMPI_Cartdim_get (comm : Z) : prog (fwd L) (Z * list Z) :=
  real_comm ← real_id_of comm;
  forward (Cartdim_get real_comm).
Definition PMPI_Dims_create (nnodes ndims dims : Z) : prog (fwd L) (Z * list Z) :=
  forward (Dims_create nnodes ndims dims).

(** ** Groups and operations *)

Definition PMPI_Group_size (group : Z) : prog (fwd L) (Z * list Z) :=
  real_group ← real_id_of group;
  forward (Group_size real_group).
Definition PMPI_Group_compare (group1 group2 : Z) : prog (fwd L) (Z * list Z) :=
  real_group1 ← real_id_of group1;
  real_group2 ← real_id_of group2;
  forward (Group_compare real_group1 real_group2).
Definition PMPI_Group_rank (group : Z) : prog (fwd L) (Z * list Z) :=
  real_group ← real_id_of group;
  forward (Group_rank real_group).
Definition PMPI_Group_translate_ranks (group1 n ranks1 group2 : Z) : prog (fwd L) (Z * list Z) :=
  real_group1 ← real_id_of group1;
  real_group2 ← real_id_of group2;
  forward (Group_translate_ranks real_group1 n ranks1 real_group2).
Definition PMPI_Reduce_local (inbuf inoutbuf count datatype op : Z) : prog (fwd L) (Z * list Z) :=
  real_datatype ← real_id_of datatype;
  real_op ← real_id_of op;
  forward (Reduce_local inbuf inoutbuf count real_datatype real_op).

(** ** Errors and the library *)

Definition PMPI_Error_class (errorcode : Z) : prog (fwd L) (Z * list Z) :=
  forward (Error_class errorcode).
Definition PMPI_Error_string (errorcode : Z) : prog (fwd L) (Z * list Z) :=
  forward (Error_string errorcode).
Definition PMPI_Finalized : prog (fwd L) (Z * list Z) :=
  forward Finalized.
Definition PMPI_Get_processor_name : prog (fwd L) (Z * list Z) :=
  forward Get_processor_name.
Definition PMPI_Get_count (status datatype : Z) : prog (fwd L) (Z * list Z) :=
  real_datatype ← real_id_of datatype;
  forward (Get_count status real_datatype).
Definition PMPI_Get_library_version : prog (fwd L) (Z * list Z) :=
  forward Get_library_version.
Definition PMPI_Get_address (location : Z) : prog (fwd L) (Z * list Z) :=
  forward (Get_address location).

(** ** Files *)

Definition PMPI_File_get_atomicity (fh : Z) : prog (fwd L) (Z * list Z) :=
  real_file ← real_id_of fh;
  forward (File_get_atomicity real_file).
Definition PMPI_File_set_atomicity (fh flag : Z) : prog (fwd L) (Z * list Z) :=
  real_file ← real_id_of fh;
  forward (File_set_atomicity real_file flag).
Definition PMPI_File_set_size (fh size : Z) : prog (fwd L) (Z * list Z) :=
  real_file ← real_id_of fh;
  forward (File_set_size real_file size).
Definition PMPI_File_get_size (fh : Z) : prog (fwd L) (Z * list Z) :=
  real_file ← real_id_of fh;
  forward (File_get_size real_file).
Definition PMPI_File_read (fh buf count datatype : Z) : prog (fwd L) (Z * list Z) :=
  real_file ← real_id_of fh;
  real_datatype ← real_id_of datatype;
  forward (File_read real_file buf count real_datatype).
Definition PMPI_File_read_at (fh offset buf count datatype : Z) : prog (fwd L) (Z * list Z) :=
  real_file ← real_id_of fh;
  real_datatype ← real_id_of datatype;
  forward (File_read_at real_file offset buf count real_datatype).
Definition PMPI_File_read_at_all (fh offset buf count datatype : Z) : prog (fwd L) (Z * list Z) :=
  real_file ← real_id_of fh;
  real_datatype ← real_id_of datatype;
  forward (File_read_at_all real_file offset buf count real_datatype).
Definition PMPI_File_read_all (fh buf count datatype : Z) : prog (fwd L) (Z * list Z) :=
  real_file ← real_id_of fh;
  real_datatype ← real_id_of datatype;
  forward (File_read_all real_file buf count real_datatype).
Definition PMPI_File_write (fh buf count datatype : Z) : prog (fwd L) (Z * list Z) :=
  real_file ← real_id_of fh;
  real_datatype ← real_id_of datatype;
  forward (File_write real_file buf count real_datatype).
Definition PMPI_File_write_at (fh offset buf count datatype : Z) : prog (fwd L) (Z * list Z) :=
  real_file ← real_id_of fh;
  real_datatype ← real_id_of datatype;
  forward (File_write_at real_file offset buf count real_datatype).
Definition PMPI_File_write_at_all (fh offset buf count datatype : Z) : prog (fwd L) (Z * list Z) :=
  real_file ← real_id_of fh;
  real_datatype ← real_id_of datatype;
  forward (File_write_at_all real_file offset buf count real_datatype).
Definition PMPI_File_write_all (fh buf count datatype : Z) : prog (fwd L) (Z * list Z) :=
  real_file ← real_id_of fh;
  real_datatype ← real_id_of datatype;
  forward (File_write_all real_file buf count real_datatype).
Definition PMPI_File_sync (fh : Z) : prog (fwd L) (Z * list Z) :=
  real_file ← real_id_of fh;
  forward (File_sync real_file).
Definition PMPI_File_get_position (fh : Z) : prog (fwd L) (Z * list Z) :=
  real_file ← real_id_of fh;
  forward (File_get_position real_file).
Definition PMPI_File_seek (fh offset whence : Z) : prog (fwd L) (Z * list Z) :=
  real_file ← real_id_of fh;
  forward (File_seek real_file offset whence).
Definition PMPI_File_delete (filename info : Z) : prog (fwd L) (Z * list Z) :=
  realInfo ← on_consts (lower_half_handle info);
  forward (File_delete filename realInfo).
Definition PMPI_File_set_errhandler (file errhandler : Z) : prog (fwd L) (Z * list Z) :=
  real_file ← real_id_of file;
  real_errhandler ← on_consts (lower_half_handle errhandler);
  forward (File_set_errhandler real_file real_errhandler).

(** ** Datatypes: enquiries and packing *)

Definition PMPI_Type_get_extent (datatype : Z) : prog (fwd L) (Z * list Z) :=
  real_datatype ← real_id_of datatype;
  forward (Type_get_extent real_datatype).
Definition PMPI_Type_get_name (datatype : Z) : prog (fwd L) (Z * list Z) :=
  real_datatype ← real_id_of datatype;
  forward (Type_get_name real_datatype).
Definition PMPI_Type_size_x (type : Z) : prog (fwd L) (Z * list Z) :=
  real_type ← real_id_of type;
  forward (Type_size_x real_type).
Definition PMPI_Pack_size (incount datatype comm : Z) : prog (fwd L) (Z * list Z) :=
  real_datatype ← real_id_of datatype;
  real_comm ← real_id_of comm;
  forward (Pack_size incount real_datatype real_comm).
Definition PMPI_Pack (inbuf incount datatype outbuf outsize position comm : Z) : prog (fwd L) (Z * list Z) :=
  real_datatype ← real_id_of datatype;
  real_comm ← real_id_of comm;
  forward (Pack inbuf incount real_datatype outbuf outsize position real_comm).

(** These two pass the datatype on as it is. *)
Definition PMPI_Get_elements (status datatype : Z) : prog (fwd L) (Z * list Z) := forward (Get_elements status datatype).
Definition PMPI_Get_elements_x (status datatype : Z) : prog (fwd L) (Z * list Z) := forward (Get_elements_x status datatype).

(** [g_libmpi_is_initialized && g_libmana_is_initialized] is [initialized];
    [lh_initialized] is the lower half's call. *)
Definition PMPI_Initialized (initialized : bool) (lh_initialized : L → (Z * list Z) * L) : prog (fwd L) (Z * list Z) := λ s,
  if initialized then let '(r, l) := lh_initialized (w_lower s) in Ok r (s <| w_lower := l |>)
  else Ok (0, [0]) s.

(** MANA does not ask the lower half. *)
Definition PMPI_File_get_view (fh : Z) : prog (fwd L) (Z * list Z) := mret (MPI_SUCCESS, []).

(** The wrapper that an application's call reaches. *)
Definition forward_wrapper (c : fwd_call) : prog (fwd L) (Z * list Z) :=
  match c with
  | Comm_size comm => PMPI_Comm_size comm
  | Comm_rank comm => PMPI_Comm_rank comm
  | Abort_all comm errorcode => PMPI_Abort comm errorcode
  | Comm_compare comm1 comm2 => PMPI_Comm_compare comm1 comm2
  | Comm_set_errhandler comm errhandler => PMPI_Comm_set_errhandler comm errhandler
  | Topo_test comm => PMPI_Topo_test comm
  | Cart_coords comm rank maxdims => PMPI_Cart_coords comm rank maxdims
  | Cart_get comm maxdims => PMPI_Cart_get comm maxdims
  | Cart_map comm ndims dims periods => PMPI_Cart_map comm ndims dims periods
  | Cart_rank comm coords => PMPI_Cart_rank comm coords
  | Cart_shift comm direction disp => PMPI_Cart_shift comm direction disp
  | Cartdim_get comm => PMPI_Cartdim_get comm
  | Dims_create nnodes ndims dims => PMPI_Dims_create nnodes ndims dims
  | Group_size group => PMPI_Group_size group
  | Group_compare group1 group2 => PMPI_Group_compare group1 group2
  | Group_rank group => PMPI_Group_rank group
  | Group_translate_ranks group1 n ranks1 group2 => PMPI_Group_translate_ranks group1 n ranks1 group2
  | Reduce_local inbuf inoutbuf count datatype op => PMPI_Reduce_local inbuf inoutbuf count datatype op
  | Error_class errorcode => PMPI_Error_class errorcode
  | Error_string errorcode => PMPI_Error_string errorcode
  | Finalized => PMPI_Finalized
  | Get_processor_name => PMPI_Get_processor_name
  | Get_count status datatype => PMPI_Get_count status datatype
  | Get_library_version => PMPI_Get_library_version
  | Get_address location => PMPI_Get_address location
  | File_get_atomicity fh => PMPI_File_get_atomicity fh
  | File_set_atomicity fh flag => PMPI_File_set_atomicity fh flag
  | File_set_size fh size => PMPI_File_set_size fh size
  | File_get_size fh => PMPI_File_get_size fh
  | File_read fh buf count datatype => PMPI_File_read fh buf count datatype
  | File_read_at fh offset buf count datatype => PMPI_File_read_at fh offset buf count datatype
  | File_read_at_all fh offset buf count datatype => PMPI_File_read_at_all fh offset buf count datatype
  | File_read_all fh buf count datatype => PMPI_File_read_all fh buf count datatype
  | File_write fh buf count datatype => PMPI_File_write fh buf count datatype
  | File_write_at fh offset buf count datatype => PMPI_File_write_at fh offset buf count datatype
  | File_write_at_all fh offset buf count datatype => PMPI_File_write_at_all fh offset buf count datatype
  | File_write_all fh buf count datatype => PMPI_File_write_all fh buf count datatype
  | File_sync fh => PMPI_File_sync fh
  | File_get_position fh => PMPI_File_get_position fh
  | File_seek fh offset whence => PMPI_File_seek fh offset whence
  | File_delete filename info => PMPI_File_delete filename info
  | File_set_errhandler file errhandler => PMPI_File_set_errhandler file errhandler
  | Type_get_extent datatype => PMPI_Type_get_extent datatype
  | Type_get_name datatype => PMPI_Type_get_name datatype
  | Type_size_x type => PMPI_Type_size_x type
  | Pack_size incount datatype comm => PMPI_Pack_size incount datatype comm
  | Pack inbuf incount datatype outbuf outsize position comm => PMPI_Pack inbuf incount datatype outbuf outsize position comm
  | Get_elements status datatype => PMPI_Get_elements status datatype
  | Get_elements_x status datatype => PMPI_Get_elements_x status datatype
  end.

(** ** What the wrappers do *)

(** The handles that are translated by the table, and those that are not
    virtualized. *)
Definition virtual_handles (c : fwd_call) : list Z :=
  match c with
  | Comm_size comm => [comm]
  | Comm_rank comm => [comm]
  | Abort_all comm _ => [comm]
  | Comm_compare comm1 comm2 => [comm1; comm2]
  | Comm_set_errhandler comm _ => [comm]
  | Topo_test comm => [comm]
  | Cart_coords comm _ _ => [comm]
  | Cart_get comm _ => [comm]
  | Cart_map comm _ _ _ => [comm]
  | Cart_rank comm _ => [comm]
  | Cart_shift comm _ _ => [comm]
  | Cartdim_get comm => [comm]
  | Dims_create _ _ _ => []
  | Group_size group => [group]
  | Group_compare group1 group2 => [group1; group2]
  | Group_rank group => [group]
  | Group_translate_ranks group1 _ _ group2 => [group1; group2]
  | Reduce_local _ _ _ datatype op => [datatype; op]
  | Error_class _ => []
  | Error_string _ => []
  | Finalized => []
  | Get_processor_name => []
  | Get_count _ datatype => [datatype]
  | Get_library_version => []
  | Get_address _ => []
  | File_get_atomicity fh => [fh]
  | File_set_atomicity fh _ => [fh]
  | File_set_size fh _ => [fh]
  | File_get_size fh => [fh]
  | File_read fh _ _ datatype => [fh; datatype]
  | File_read_at fh _ _ _ datatype => [fh; datatype]
  | File_read_at_all fh _ _ _ datatype => [fh; datatype]
  | File_read_all fh _ _ datatype => [fh; datatype]
  | File_write fh _ _ datatype => [fh; datatype]
  | File_write_at fh _ _ _ datatype => [fh; datatype]
  | File_write_at_all fh _ _ _ datatype => [fh; datatype]
  | File_write_all fh _ _ datatype => [fh; datatype]
  | File_sync fh => [fh]
  | File_get_position fh => [fh]
  | File_seek fh _ _ => [fh]
  | File_delete _ _ => []
  | File_set_errhandler file _ => [file]
  | Type_get_extent datatype => [datatype]
  | Type_get_name datatype => [datatype]
  | Type_size_x type => [type]
  | Pack_size _ datatype comm => [datatype; comm]
  | Pack _ _ datatype _ _ _ comm => [datatype; comm]
  | Get_elements _ datatype | Get_elements_x _ datatype => [datatype]
  end.
Definition constant_handles (c : fwd_call) : list Z :=
  match c with
  | Comm_set_errhandler _ errhandler => [errhandler]
  | File_delete _ info => [info]
  | File_set_errhandler _ errhandler => [errhandler]
  | _ => []
  end.

(** The call with each handle translated. *)
Definition map_handles (f g : Z → Z) (c : fwd_call) : fwd_call :=
  match c with
  | Comm_size comm => Comm_size (f comm)
  | Comm_rank comm => Comm_rank (f comm)
  | Abort_all comm errorcode => Abort_all (f comm) errorcode
  | Comm_compare comm1 comm2 => Comm_compare (f comm1) (f comm2)
  | Comm_set_errhandler comm errhandler => Comm_set_errhandler (f comm) (g errhandler)
  | Topo_test comm => Topo_test (f comm)
  | Cart_coords comm rank maxdims => Cart_coords (f comm) rank maxdims
  | Cart_get comm maxdims => Cart_get (f comm) maxdims
  | Cart_map comm ndims dims periods => Cart_map (f comm) ndims dims periods
  | Cart_rank comm coords => Cart_rank (f comm) coords
  | Cart_shift comm direction disp => Cart_shift (f comm) direction disp
  | Cartdim_get comm => Cartdim_get (f comm)
  | Group_size group => Group_size (f group)
  | Group_compare group1 group2 => Group_compare (f group1) (f group2)
  | Group_rank group => Group_rank (f group)
  | Group_translate_ranks group1 n ranks1 group2 => Group_translate_ranks (f group1) n ranks1 (f group2)
  | Reduce_local inbuf inoutbuf count datatype op => Reduce_local inbuf inoutbuf count (f datatype) (f op)
  | Get_count status datatype => Get_count status (f datatype)
  | File_get_atomicity fh => File_get_atomicity (f fh)
  | File_set_atomicity fh flag => File_set_atomicity (f fh) flag
  | File_set_size fh size => File_set_size (f fh) size
  | File_get_size fh => File_get_size (f fh)
  | File_read fh buf count datatype => File_read (f fh) buf count (f datatype)
  | File_read_at fh offset buf count datatype => File_read_at (f fh) offset buf count (f datatype)
  | File_read_at_all fh offset buf count datatype => File_read_at_all (f fh) offset buf count (f datatype)
  | File_read_all fh buf count datatype => File_read_all (f fh) buf count (f datatype)
  | File_write fh buf count datatype => File_write (f fh) buf count (f datatype)
  | File_write_at fh offset buf count datatype => File_write_at (f fh) offset buf count (f datatype)
  | File_write_at_all fh offset buf count datatype => File_write_at_all (f fh) offset buf count (f datatype)
  | File_write_all fh buf count datatype => File_write_all (f fh) buf count (f datatype)
  | File_sync fh => File_sync (f fh)
  | File_get_position fh => File_get_position (f fh)
  | File_seek fh offset whence => File_seek (f fh) offset whence
  | File_delete filename info => File_delete filename (g info)
  | File_set_errhandler file errhandler => File_set_errhandler (f file) (g errhandler)
  | Type_get_extent datatype => Type_get_extent (f datatype)
  | Type_get_name datatype => Type_get_name (f datatype)
  | Type_size_x type => Type_size_x (f type)
  | Pack_size incount datatype comm => Pack_size incount (f datatype) (f comm)
  | Pack inbuf incount datatype outbuf outsize position comm => Pack inbuf incount (f datatype) outbuf outsize position (f comm)
  | Get_elements status datatype => Get_elements status (f datatype)
  | Get_elements_x status datatype => Get_elements_x status (f datatype)
  | _ => c
  end.

Definition handles_known (f g : Z → Z) (st : vid_state) (c : fwd_call) : Prop :=
  Forall (λ h, get_real_id h st = Ok (f h) st) (virtual_handles c) ∧
  Forall (λ h, lower_half_handle h (consts st) = Ok (g h) (consts st)) (constant_handles c).

Definition is_get_elements (c : fwd_call) : bool :=
  match c with Get_elements _ _ | Get_elements_x _ _ => true | _ => false end.

Lemma real_id_of_eq f h s :
  get_real_id h (w_vids s) = Ok (f h) (w_vids s) → real_id_of h s = Ok (f h) s.
Proof. intros E. unfold real_id_of. rewrite E. by destruct s. Qed.
Lemma on_consts_eq {A} (p : prog constants_state A) a s :
  p (consts (w_vids s)) = Ok a (consts (w_vids s)) → on_consts p s = Ok a s.
Proof. intros E. unfold on_consts. rewrite E. destruct s as [st l]. by destruct st. Qed.

(** C36. An enquiry or a file access is forwarded as it is.  For each of the 47
    wrappers (not [MPI_Get_elements] and [MPI_Get_elements_x]), on handles that [f] (the table) and [g] (the constants) translate:
    the lower half gets the same call with exactly its handles translated, its
    return code and the values it writes are the application's, and nothing
    of MANA's state changes. *)
Theorem forward_wrappers_exact c f g s :
  handles_known f g (w_vids s) c → is_get_elements c = false →
  forward_wrapper c s =
    let '(r, l) := lh_forward (map_handles f g c) (w_lower s) in Ok r (mk_fwd (w_vids s) l).
Proof.
  intros [Hf Hg] Hn. destruct c; try discriminate Hn; clear Hn; cbn [forward_wrapper virtual_handles constant_handles map_handles] in *;
    decompose_Forall_hyps;
    repeat match goal with
      | E : get_real_id _ _ = _ |- _ => apply real_id_of_eq in E
      | E : lower_half_handle _ _ = _ |- _ => apply on_consts_eq in E
      end;
    repeat match goal with
      | E : ?p s = Ok _ s |- _ => refine (eq_trans (prog_bind_ok p _ s _ s E) _); cbv beta
      end; reflexivity.
Qed.

(** [MPI_Get_elements] gives the lower half the application's handle, which is
    not the lower half's. *)
Theorem get_elements_not_translated status datatype f g s :
  f datatype ≠ datatype →
  ∃ c, forward_wrapper (Get_elements status datatype) s = forward c s ∧ c ≠ map_handles f g (Get_elements status datatype).
Proof. intros Hne. exists (Get_elements status datatype). split; [done|]. cbn. congruence. Qed.
End wrappers.

(** ** A sample *)

(** A lower half that records the calls. *)
Definition sample_fwd_lib : FwdLib (list fwd_call) := {| lh_forward c l := ((0, [7]), l ++ [c]) |}.
Definition sample_table : vid_state := match sample_run init_vid with Ok _ st => st | _ => init_vid end.

(** The communicator of [sample_run], with an error handler that is not a
    constant. *)
Lemma forward_wrappers_exact_witness :
  @forward_wrapper sample_lib _ sample_fwd_lib (Comm_set_errhandler 268435457 99) (mk_fwd sample_table []) =
    Ok (0, [7]) (mk_fwd sample_table [Comm_set_errhandler 200 99]).
Proof.
  assert (@handles_known sample_lib (λ _, 200) (λ h, h) sample_table (Comm_set_errhandler 268435457 99)) as Hk
    by (split; repeat constructor; vm_compute; reflexivity).
  exact (@forward_wrappers_exact sample_lib _ sample_fwd_lib (Comm_set_errhandler 268435457 99) (λ _, 200) (λ h, h)
    (mk_fwd sample_table []) Hk eq_refl).
Defined.
