(* ===== verification/Objects.v ===== *)
(** * Groups and operations
    ([src/src/mpi-wrappers/mpi_group_wrappers.cpp], [mpi_op_wrappers.cpp],
    [src/src/virtual_id.cpp])

    The wrappers that make and free groups and operations.  The descriptor that
    a wrapper records is what [Restart] remakes the object from: the world ranks
    of a group, the function and the flag of an operation. *)
From S2P Require Import Prelude Mpi Constants VirtualId VirtualIdInv VirtualIdSpec PendingLog Kvdb SeqNum Collectives CommClocks ForwardCalls.

Definition MPI_GROUP_NULL `{MpiLib} : Z := upper_const "GROUP_NULL".
Definition MPI_OP_NULL `{MpiLib} : Z := upper_const "OP_NULL".

(** The lower half's calls: the return code, what is written and the new
    state.  [lh_new_group] is followed by the group that is in the output
    argument after the call. *)
Inductive group_call := Comm_group (comm : Z) | Group_incl (group n ranks : Z).
Class ObjLib (L : Type) := {
  MANA_GROUP_NULL : Z;
  lh_new_group : group_call → L → (Z * Z) * L;
  lh_size_of_group : Z → L → Z;
  lh_rank_in_group : Z → L → Z;
  lh_world_ranks : Z → list Z → L → list Z;          (* Group_translate_ranks, to g_world_group *)
  lh_op_create : Z → Z → L → (Z * Z) * L;
  lh_op_free : Z → L → Z * L
}.

Section wrappers.
Context `{MpiLib} `{ObjLib L}.
Implicit Types (s : fwd L).

Definition on_table {A} (p : prog vid_state A) : prog (fwd L) A := λ s,
  match p (w_vids s) with Ok a st => Ok a (s <| w_vids := st |>) | Abort => Abort | Spin => Spin end.
Definition lower_call {A} (f : L → A * L) : prog (fwd L) A := λ s,
  let '(a, l) := f (w_lower s) in Ok a (s <| w_lower := l |>).

Definition new_virt_group (real_group : Z) : prog (fwd L) Z :=
  s ← get_state;
  let size := lh_size_of_group real_group (w_lower s) in
  let rank := lh_rank_in_group real_group (w_lower s) in
  let global_ranks := lh_world_ranks real_group (seqZ 0 size) (w_lower s) in
  on_table (add_virt_id real_group (GroupDesc (mk_group_desc size rank global_ranks)) MANA_GROUP_KIND).

(** The fields of the new descriptor are [malloc]'s, until [MPI_Op_create] sets
    them. *)
Definition new_virt_op (junk : mana_op_desc) (real_op : Z) : prog (fwd L) Z :=
  on_table (add_virt_id real_op (OpDesc junk) MANA_OP_KIND).

(** [*group] is used also when the call failed. *)
Definition PMPI_Comm_group (comm : Z) : prog (fwd L) (Z * Z) :=
  real_comm ← on_table (get_real_id comm);
  '(retval, group) ← lower_call (lh_new_group (Comm_group real_comm));
  group ← (if group =? MANA_GROUP_NULL then mret MPI_GROUP_NULL else new_virt_group group);
  mret (retval, group).

Definition PMPI_Group_incl (group n ranks : Z) : prog (fwd L) (Z * Z) :=
  real_group ← on_table (get_real_id group);
  '(retval, newgroup) ← lower_call (lh_new_group (Group_incl real_group n ranks));
  newgroup ← (if retval =? MPI_SUCCESS then
                if newgroup =? MANA_GROUP_NULL then mret MPI_GROUP_NULL else new_virt_group newgroup
              else mret newgroup);
  mret (retval, newgroup).

Definition PMPI_Group_free (group : Z) : prog (fwd L) (Z * Z) :=
  on_table (free_virt_id group) ;;
  mret (MPI_SUCCESS, MPI_GROUP_NULL).

(** [get_virt_id_desc()] returns the new descriptor, whose fields are set. *)
Definition set_op_desc (op user_fn commute : Z) : prog vid_state unit :=
  d ← get_virt_id_desc op;
  match d with
  | OpDesc _ =>
      slot ← get_virt_id_entry op;
      modify (update_entry slot (λ e, e <| desc := OpDesc (mk_op_desc user_fn commute) |>))
  | _ => abort
  end.
Definition PMPI_Op_create (junk : mana_op_desc) (user_fn commute : Z) : prog (fwd L) (Z * Z) :=
  '(retval, op) ← lower_call (lh_op_create user_fn commute);
  op ← (if retval =? MPI_SUCCESS then
          op ← new_virt_op junk op;
          on_table (set_op_desc op user_fn commute) ;;
          mret op
        else mret op);
  mret (retval, op).

(** [op] is not NULL. *)
Definition PMPI_Op_free (op : Z) : prog (fwd L) (Z * Z) :=
  real_op ← on_table (get_real_id op);
  retval ← lower_call (lh_op_free real_op);
  if retval =? MPI_SUCCESS then
    on_table (free_virt_id op) ;;
    mret (retval, MPI_OP_NULL)
  else mret (retval, op).

(** ** What the wrappers do *)

(** A slot is left. *)
Definition room (st : vid_state) : Prop :=
  ∀ free live, vid_ok st free live → next_slot st free ≤ MANA_VIRT_ID_SLOT_MASK.

(** No call is logged in the entry of a handle, as in that of any handle but a
    request. *)
Definition no_call (st : vid_state) (h : Z) : Prop :=
  ∃ e, entry_of st h = Some e ∧ call_type (call e) = UNKNOW_REQUEST.

Lemma get_real_id_live st m h r d : vid_repr st m → m !! h = Some (r, d) → get_real_id h st = Ok r st.
Proof.
  intros (free & live & Hok & Hr) Hm.
  destruct (represents_lookup _ _ _ _ _ _ Hok Hr Hm) as (slot & e & _ & He & _ & Hx & Hl).
  unfold abs_entry in Hx. simplify_eq. unfold get_real_id, entry_of. rewrite Hl.
  cbn [mbind option_bind]. by rewrite He.
Qed.

Lemma add_virt_id_ok st m real d kind :
  vid_repr st m → room st → 1 ≤ kind ≤ MANA_NUM_KINDS → desc_kind kind d → virt_id_next_seq st + 1 < 2 ^ 64 →
  ∃ h st', add_virt_id real d kind st = Ok h st' ∧ m !! h = None ∧ kind_of h = kind ∧
    vid_repr st' (<[h := (real, d)]> m).
Proof.
  intros Hr Hroom Hk Hd Hn. pose proof Hr as (free & live & Hok & _).
  pose proof (add_virt_id_spec st free live real d kind Hok Hk Hd Hn) as Ha. cbv zeta in Ha.
  rewrite (proj2 (Z.ltb_ge _ _) (Hroom free live Hok)) in Ha.
  destruct Ha as (st' & e & E & Hok' & _ & Hl & _). exists (virt e), st'.
  destruct (wlp_ok _ _ _ _ _ (add_virt_id_wlp st m real d kind Hr Hk Hd Hn) E) as (? & ? & _).
  split_and!; [done..| |done]. eapply live_entry_kind_of; [|exact Hl].
  eapply inv_slot_range; [exact Hok'|]. apply elem_of_snoc. by right.
Qed.

Lemma free_virt_id_ok st m h x :
  vid_repr st m → m !! h = Some x → no_call st h →
  ∃ st', free_virt_id h st = Ok () st' ∧ vid_repr st' (delete h m).
Proof.
  intros (free & live & Hok & Hr) Hm (e0 & He0 & Hc).
  destruct (represents_lookup _ _ _ _ _ _ Hok Hr Hm) as (slot & e & Hin & He & <- & _ & Hl).
  unfold entry_of in He0. rewrite Hl in He0. cbn [mbind option_bind] in He0. rewrite He in He0. simplify_eq.
  pose proof (free_virt_id_run st free live slot e0 Hok Hin He) as Hrun. rewrite decide_True in Hrun by done.
  destruct Hrun as [pool ->]. eexists. split; [done|].
  exists (slot :: free), (filter (.≠ slot) live). split; [by eapply freed_ok|].
  eapply represents_delete; eauto using freed_entry_ne.
Qed.

(** The descriptor from which a group is remade. *)
Definition group_desc (real : Z) (l : L) : descriptor :=
  let size := lh_size_of_group real l in
  GroupDesc (mk_group_desc size (lh_rank_in_group real l) (lh_world_ranks real (seqZ 0 size) l)).

Lemma on_table_ok {A} (p : prog vid_state A) a st s : p (w_vids s) = Ok a st → on_table p s = Ok a (mk_fwd st (w_lower s)).
Proof. intros E. unfold on_table. by rewrite E. Qed.

Lemma new_virt_group_ok s m real :
  vid_repr (w_vids s) m → room (w_vids s) → virt_id_next_seq (w_vids s) + 1 < 2 ^ 64 →
  ∃ h st, new_virt_group real s = Ok h (mk_fwd st (w_lower s)) ∧ m !! h = None ∧ kind_of h = MANA_GROUP_KIND ∧
    vid_repr st (<[h := (real, group_desc real (w_lower s))]> m).
Proof.
  intros Hr Hroom Hn.
  destruct (add_virt_id_ok (w_vids s) m real (group_desc real (w_lower s)) MANA_GROUP_KIND)
    as (h & st & E & ? & ? & ?); [done..|].
  exists h, st. split_and!; [|done..]. by apply on_table_ok.
Qed.

(** An update depends on the entry only. *)
Lemma update_entry_ext st slot e f f' :
  slot_entry st slot = Some e → f e = f' e → update_entry slot f st = update_entry slot f' st.
Proof.
  unfold slot_entry, update_entry. destruct (virt_id_chunks st !! chunk_of slot) as [chunk|] eqn:Ec; [|done].
  intros [= He] Hf. destruct st. unfold set_field. cbn in *. f_equal.
  apply alter_ext. intros c Hc. rewrite Ec in Hc. simplify_eq. by rewrite Hf.
Qed.

Lemma vid_repr_set st m slot e f h :
  vid_repr st m → lookup_virt_id_entry st h = Some slot → slot_entry st slot = Some e → benign f →
  vid_repr (update_entry slot f st) (<[virt e := abs_entry (f e)]> m).
Proof.
  intros (free & live & Hok & Hr) El He Hb. destruct (lookup_sound _ _ _ _ _ _ Hok El) as [Hin _].
  exists free, live. split; [by apply update_live_ok|]. intros h' x. rewrite lookup_insert_Some, (Hr h' x).
  setoid_rewrite slot_entry_update. split.
  - intros [[<- <-]|[Hne (y & ey & Hy & Hey & Hv & Hx)]].
    + exists slot, (f e). rewrite decide_True, He by done. split_and!; [done..|apply Hb|done].
    + exists y, ey. rewrite decide_False by congruence. done.
  - intros (y & ey & Hy & Hey & Hv & Hx). case_decide as Hc; [subst y|].
    + rewrite He in Hey. simplify_eq/=. left. split; [symmetry; apply Hb|done].
    + right. split; [|by eauto 6]. intros Heq. apply Hc. eapply handle_of_inj; [exact Hok|done|done|].
      unfold handle_of. rewrite He, Hey. simpl. congruence.
Qed.

(** The fields of the new descriptor become those of the call. *)
Lemma set_op_desc_ok st m h r d fn commute :
  vid_repr st m → m !! h = Some (r, OpDesc d) →
  ∃ st', set_op_desc h fn commute st = Ok () st' ∧ vid_repr st' (<[h := (r, OpDesc (mk_op_desc fn commute))]> m).
Proof.
  intros Hrep Hm. pose proof Hrep as (free & live & Hok & Hr).
  destruct (represents_lookup _ _ _ _ _ _ Hok Hr Hm) as (slot & e & _ & He & <- & Hx & El).
  unfold abs_entry in Hx. injection Hx as <- Hd.
  set (f := λ e : virt_id_entry, e <| desc := OpDesc (mk_op_desc fn commute) |>).
  set (f' := λ e : virt_id_entry, match desc e with OpDesc _ => f e | _ => e end).
  assert (f e = f' e) as Hff by (unfold f'; by rewrite Hd).
  exists (update_entry slot f st). split.
  - unfold set_op_desc, get_virt_id_desc, get_virt_id_entry, entry_of. prog_red. rewrite El.
    cbn [mbind option_bind]. by rewrite He, Hd, El.
  - rewrite (update_entry_ext _ _ _ _ _ He Hff).
    replace (real_id e, OpDesc (mk_op_desc fn commute)) with (abs_entry (f' e)) by by rewrite <- Hff.
    eapply vid_repr_set; [done|done|done|]. intros e0. unfold f'.
    destruct (desc e0) eqn:Ed; (do 4 (split; [done|])); intros k; simpl; rewrite ?Ed; done.
Qed.

Section calls.
Context (s : fwd L) (m : gmap Z (Z * descriptor)).
Context (Hr : vid_repr (w_vids s) m) (Hroom : room (w_vids s)) (Hn : virt_id_next_seq (w_vids s) + 1 < 2 ^ 64).

Lemma table_real h r d : m !! h = Some (r, d) → on_table (get_real_id h) s = Ok r s.
Proof using Hr Hroom Hn.
  intros Hm. rewrite (on_table_ok _ r (w_vids s)); [by destruct s|]. by eapply get_real_id_live.
Qed.
Lemma lower_call_ok {A} (f : L → A * L) a l : f (w_lower s) = (a, l) → lower_call f s = Ok a (mk_fwd (w_vids s) l).
Proof. intros E. unfold lower_call. by rewrite E. Qed.

Lemma group_incl_ok group n ranks r d rc real l :
  m !! group = Some (r, d) → lh_new_group (Group_incl r n ranks) (w_lower s) = ((rc, real), l) →
  ∃ h st, PMPI_Group_incl group n ranks s = Ok (rc, h) (mk_fwd st l) ∧
    if decide (rc = MPI_SUCCESS ∧ real ≠ MANA_GROUP_NULL)
    then m !! h = None ∧ kind_of h = MANA_GROUP_KIND ∧ vid_repr st (<[h := (real, group_desc real l)]> m)
    else st = w_vids s.
Proof using Hr Hroom Hn.
  intros Hm E. unfold PMPI_Group_incl. rewrite (prog_bind_ok _ _ _ _ _ (table_real _ _ _ Hm)).
  rewrite (prog_bind_ok _ _ _ _ _ (lower_call_ok _ _ _ E)).
  destruct (Z.eqb_spec rc MPI_SUCCESS) as [->|Hrc].
  2: { exists real, (w_vids s). by rewrite decide_False by tauto. }
  destruct (Z.eqb_spec real MANA_GROUP_NULL) as [->|Hne].
  { exists MPI_GROUP_NULL, (w_vids s). by rewrite decide_False by tauto. }
  destruct (new_virt_group_ok (mk_fwd (w_vids s) l) m real) as (h & st & E' & Hfresh); [done..|].
  exists h, st. rewrite decide_True by done. by rewrite (prog_bind_ok _ _ _ _ _ E').
Qed.

(** [MPI_Comm_group] does not look at the return code: it also makes a handle
    for what is in [*group] after a call that failed. *)
Lemma comm_group_ok comm r d rc real l :
  m !! comm = Some (r, d) → lh_new_group (Comm_group r) (w_lower s) = ((rc, real), l) → real ≠ MANA_GROUP_NULL →
  ∃ h st, PMPI_Comm_group comm s = Ok (rc, h) (mk_fwd st l) ∧ m !! h = None ∧
    vid_repr st (<[h := (real, group_desc real l)]> m).
Proof using Hr Hroom Hn.
  intros Hm E Hne. unfold PMPI_Comm_group. rewrite (prog_bind_ok _ _ _ _ _ (table_real _ _ _ Hm)).
  rewrite (prog_bind_ok _ _ _ _ _ (lower_call_ok _ _ _ E)). rewrite (proj2 (Z.eqb_neq _ _) Hne).
  destruct (new_virt_group_ok (mk_fwd (w_vids s) l) m real) as (h & st & E' & Hf & _ & Hv); [done..|].
  exists h, st. by rewrite (prog_bind_ok _ _ _ _ _ E').
Qed.

Lemma op_create_ok junk fn commute rc real l :
  lh_op_create fn commute (w_lower s) = ((rc, real), l) →
  ∃ h st, PMPI_Op_create junk fn commute s = Ok (rc, h) (mk_fwd st l) ∧
    if decide (rc = MPI_SUCCESS)
    then m !! h = None ∧ kind_of h = MANA_OP_KIND ∧
      vid_repr st (<[h := (real, OpDesc (mk_op_desc fn commute))]> m)
    else st = w_vids s.
Proof using Hr Hroom Hn.
  intros E. unfold PMPI_Op_create. rewrite (prog_bind_ok _ _ _ _ _ (lower_call_ok _ _ _ E)).
  destruct (Z.eqb_spec rc MPI_SUCCESS) as [->|Hrc].
  2: { exists real, (w_vids s). by rewrite decide_False. }
  destruct (add_virt_id_ok (w_vids s) m real (OpDesc junk) MANA_OP_KIND) as (h & st & Ea & Hf & Hk & Hv); [done..|].
  destruct (set_op_desc_ok st (<[h := (real, OpDesc junk)]> m) h real junk fn commute Hv)
    as (st' & Es & Hv'); [apply lookup_insert_eq|].
  exists h, st'. rewrite decide_True by done. rewrite insert_insert_eq in Hv'. split_and!; [|done..].
  rewrite prog_bind_assoc. unfold new_virt_op.
  rewrite (prog_bind_ok _ _ _ _ _ (on_table_ok _ _ _ (mk_fwd (w_vids s) l) Ea)).
  rewrite prog_bind_assoc. by rewrite (prog_bind_ok _ _ _ _ _ (on_table_ok _ _ _ (mk_fwd st l) Es)).
Qed.

Lemma group_free_ok group x :
  m !! group = Some x → no_call (w_vids s) group →
  ∃ st, PMPI_Group_free group s = Ok (MPI_SUCCESS, MPI_GROUP_NULL) (mk_fwd st (w_lower s)) ∧
    vid_repr st (delete group m).
Proof using Hr Hroom Hn.
  intros Hm Hc. destruct (free_virt_id_ok _ _ _ _ Hr Hm Hc) as (st & E & Hv). exists st. split; [|done].
  unfold PMPI_Group_free. by rewrite (prog_bind_ok _ _ _ _ _ (on_table_ok _ _ _ s E)).
Qed.

Lemma op_free_ok op r d rc l :
  m !! op = Some (r, d) → no_call (w_vids s) op → lh_op_free r (w_lower s) = (rc, l) →
  if decide (rc = MPI_SUCCESS)
  then ∃ st, PMPI_Op_free op s = Ok (rc, MPI_OP_NULL) (mk_fwd st l) ∧ vid_repr st (delete op m)
  else PMPI_Op_free op s = Ok (rc, op) (mk_fwd (w_vids s) l).
Proof using Hr Hroom Hn.
  intros Hm Hc E. unfold PMPI_Op_free. rewrite (prog_bind_ok _ _ _ _ _ (table_real _ _ _ Hm)).
  rewrite (prog_bind_ok _ _ _ _ _ (lower_call_ok _ _ _ E)).
  destruct (Z.eqb_spec rc MPI_SUCCESS) as [->|Hrc]; [rewrite decide_True by done|by rewrite decide_False].
  destruct (free_virt_id_ok _ _ _ _ Hr Hm Hc) as (st & Ef & Hv). exists st. split; [|done].
  by rewrite (prog_bind_ok _ _ _ _ _ (on_table_ok _ _ _ (mk_fwd (w_vids s) l) Ef)).
Qed.
End calls.

(** Groups and operations are recorded with what a restart needs.  In a table
    that represents [m], with a slot left: a new group's handle is fresh, of
    the group's kind, and stands for the lower half's group and for a descriptor
    with its size, its rank and the world ranks of its members; a new operation's
    stands for a descriptor with the function and the flag it was made from; a
    call that fails leaves the table as it is.  [MPI_Group_free] removes exactly
    its handle; [MPI_Op_free] does so when the lower half has freed the
    operation. *)
Theorem group_op_wrappers_record s m :
  vid_repr (w_vids s) m → room (w_vids s) → virt_id_next_seq (w_vids s) + 1 < 2 ^ 64 →
  (∀ group n ranks r d rc real l, m !! group = Some (r, d) →
     lh_new_group (Group_incl r n ranks) (w_lower s) = ((rc, real), l) →
     ∃ h st, PMPI_Group_incl group n ranks s = Ok (rc, h) (mk_fwd st l) ∧
       if decide (rc = MPI_SUCCESS ∧ real ≠ MANA_GROUP_NULL)
       then m !! h = None ∧ kind_of h = MANA_GROUP_KIND ∧ vid_repr st (<[h := (real, group_desc real l)]> m)
       else st = w_vids s) ∧
  (∀ junk fn commute rc real l, lh_op_create fn commute (w_lower s) = ((rc, real), l) →
     ∃ h st, PMPI_Op_create junk fn commute s = Ok (rc, h) (mk_fwd st l) ∧
       if decide (rc = MPI_SUCCESS)
       then m !! h = None ∧ kind_of h = MANA_OP_KIND ∧
         vid_repr st (<[h := (real, OpDesc (mk_op_desc fn commute))]> m)
       else st = w_vids s) ∧
  (∀ group x, m !! group = Some x → no_call (w_vids s) group →
     ∃ st, PMPI_Group_free group s = Ok (MPI_SUCCESS, MPI_GROUP_NULL) (mk_fwd st (w_lower s)) ∧
       vid_repr st (delete group m)) ∧
  (∀ op r d rc l, m !! op = Some (r, d) → no_call (w_vids s) op → lh_op_free r (w_lower s) = (rc, l) →
     if decide (rc = MPI_SUCCESS)
     then ∃ st, PMPI_Op_free op s = Ok (rc, MPI_OP_NULL) (mk_fwd st l) ∧ vid_repr st (delete op m)
     else PMPI_Op_free op s = Ok (rc, op) (mk_fwd (w_vids s) l)).
Proof.
  intros Hr Hroom Hn. split_and!; intros.
  - by eapply group_incl_ok.
  - by eapply op_create_ok.
  - by eapply group_free_ok.
  - by eapply op_free_ok.
Qed.
End wrappers.

(** ** A sample *)

Definition sample_obj_lib : ObjLib () := {|
  MANA_GROUP_NULL := 1;
  lh_new_group _ l := ((0, 44), l);
  lh_size_of_group _ _ := 2; lh_rank_in_group _ _ := 0; lh_world_ranks _ ranks _ := ranks;
  lh_op_create _ _ l := ((0, 55), l);
  lh_op_free _ l := (0, l)
|}.

Lemma init_room : room init_vid.
Proof.
  intros free live Hok. destruct free as [|x free]; [by vm_compute|].
  destruct (inv_chain _ _ _ _ Hok) as [Hx [H0 _]]. simpl in Hx. lia.
Qed.

Lemma group_op_wrappers_record_witness :
  ∃ h st, @PMPI_Op_create sample_lib _ sample_obj_lib (mk_op_desc 0 0) 10 1 (mk_fwd init_vid ()) = Ok (0, h) (mk_fwd st ()) ∧
    kind_of h = MANA_OP_KIND ∧ vid_repr st (<[h := (55, OpDesc (mk_op_desc 10 1))]> ∅).
Proof.
  destruct (@group_op_wrappers_record sample_lib _ sample_obj_lib (mk_fwd init_vid ()) ∅ vid_repr_init init_room
    ltac:(by vm_compute)) as (_ & Hop & _).
  destruct (Hop (mk_op_desc 0 0) 10 1 0 55 () eq_refl) as (h & st & E & Hd).
  exists h, st. rewrite decide_True in Hd by done. destruct Hd as (_ & ? & ?). done.
Defined.
