(* ===== verification/Files.v ===== *)
(** * Files of MPI-IO
    ([src/src/mpi-wrappers/mpi_file_wrappers.cpp], [src/src/mpi_files.h],
    [src/src/mpi_plugin.cpp], [src/src/virtual_id.cpp])

    The wrappers that keep the parameters of open files in [g_params_map], what
    a checkpoint writes of the map and how a restart reads it and opens the
    files again.  The wrappers that only forward are in [ForwardCalls].

    The file of a checkpoint is the list of the records in it; a record is
    written and read whole.  [file_order] is the order in which
    [std::unordered_map] enumerates its keys. *)
From S2P Require Import Prelude Mpi Constants VirtualId VirtualIdInv VirtualIdSpec PendingLog Kvdb SeqNum Collectives CommClocks ForwardCalls Objects.

Definition MPI_FILE_NULL `{MpiLib} : Z := upper_const "FILE_NULL".

Record OpenFileParameters := mk_params {
  p_comm : Z; p_mode : Z; p_info : Z; p_filepath : string;
  p_atomicity : Z; p_size : Z;
  p_viewDisp : Z; p_viewEType : Z; p_viewFType : Z; p_viewInfo : Z; p_viewSet : Z; p_datarep : string;
  p_offset : Z
}.
#[export] Instance eta_params : Eta OpenFileParameters := λ p,
  mk_params (p_comm p) (p_mode p) (p_info p) (p_filepath p) (p_atomicity p) (p_size p)
    (p_viewDisp p) (p_viewEType p) (p_viewFType p) (p_viewInfo p) (p_viewSet p) (p_datarep p) (p_offset p).
(** What [operator[]] of the map makes. *)
Definition zero_params : OpenFileParameters := mk_params 0 0 0 "" 0 0 0 0 0 0 0 "" 0.

Class FileLib (L : Type) := {
  MPI_SEEK_SET : Z;
  lh_file_open : Z → string → Z → Z → L → (Z * Z) * L;               (* comm, name, mode, info; code, file *)
  lh_file_set_view : Z → Z → Z → Z → string → Z → L → Z * L;
  lh_file_close : Z → L → Z * L;
  lh_file_errhandler : Z → L → (Z * Z) * L;
  file_order : list Z → list Z
}.

Record files (L : Type) := mk_files { f_fwd : fwd L; g_params_map : gmap Z OpenFileParameters }.
Arguments mk_files {L} f_fwd g_params_map. Arguments f_fwd {L} _. Arguments g_params_map {L} _.
#[export] Instance eta_files L : Eta (files L) := λ s, mk_files (f_fwd s) (g_params_map s).

Section wrappers.
Context `{MpiLib} `{FwdLib L} `{FileLib L}.

Definition on_fwd {A} (p : prog (fwd L) A) : prog (files L) A := λ s,
  match p (f_fwd s) with Ok a w => Ok a (s <| f_fwd := w |>) | Abort => Abort | Spin => Spin end.

Definition new_virt_file (real_file : Z) : prog vid_state Z := add_virt_id real_file NoDesc MANA_FILE_KIND.

(** [junk] is the local [params] before its fields are set. *)
Definition PMPI_File_open (junk : OpenFileParameters) (comm : Z) (filename : string) (amode info : Z) : prog (files L) (Z * Z) :=
  realComm ← on_fwd (real_id_of comm);
  realInfo ← on_fwd (on_consts (lower_half_handle info));
  '(retval, fh) ← on_fwd (lower_call (lh_file_open realComm filename amode realInfo));
  if retval =? MPI_SUCCESS then
    virt_file ← on_fwd (on_table (new_virt_file fh));
    fh ← on_fwd (on_table (new_virt_file fh));
    let params := junk <| p_mode := amode |> <| p_comm := comm |> <| p_info := info |>
      <| p_filepath := filename |> <| p_viewSet := 0 |> in
    modify (λ s, s <| g_params_map ::= <[virt_file := params]> |>) ;;
    mret (retval, fh)
  else mret (retval, fh).

(** [g_params_map[fh]._viewSet = 1; g_params_map[fh]._viewInfo = info]. *)
Definition record_view (fh info : Z) (m : gmap Z OpenFileParameters) : gmap Z OpenFileParameters :=
  <[fh := (default zero_params (m !! fh)) <| p_viewSet := 1 |> <| p_viewInfo := info |>]> m.

Definition PMPI_File_set_view (fh disp etype filetype : Z) (datarep : string) (info : Z) : prog (files L) Z :=
  real_file ← on_fwd (real_id_of fh);
  realEtype ← on_fwd (real_id_of etype);
  realFtype ← on_fwd (real_id_of filetype);
  realInfo ← on_fwd (on_consts (lower_half_handle info));
  retval ← on_fwd (lower_call (lh_file_set_view real_file disp realEtype realFtype datarep realInfo));
  (if retval =? MPI_SUCCESS then modify (λ s, s <| g_params_map ::= record_view fh info |>) else mret ()) ;;
  mret retval.

(** The return code and [*fh]. *)
Definition PMPI_File_close (fh : Z) : prog (files L) (Z * Z) :=
  real_file ← on_fwd (real_id_of fh);
  retval ← on_fwd (lower_call (lh_file_close real_file));
  if retval =? MPI_SUCCESS then
    modify (λ s, s <| g_params_map ::= delete fh |>) ;;
    mret (retval, MPI_FILE_NULL)
  else mret (retval, fh).

Definition PMPI_File_get_errhandler (file : Z) : prog (files L) (Z * Z) :=
  real_file ← on_fwd (real_id_of file);
  '(retval, errhandler) ← on_fwd (lower_call (lh_file_errhandler real_file));
  errhandler ← (if retval =? MPI_SUCCESS then on_fwd (on_consts (upper_half_handle errhandler)) else mret errhandler);
  mret (retval, errhandler).

(** ** Checkpoint *)

(** What a call wrote to its output argument, which keeps its value if the
    call failed. *)
Definition written (r : Z * list Z) (old : Z) : Z := match r.2 with v :: _ => v | [] => old end.

(** The record of one file: the properties are asked for now; [MPI_File_get_view]
    writes nothing. *)
Definition save_file (fh : Z) (p : OpenFileParameters) : prog (fwd L) OpenFileParameters :=
  offset ← PMPI_File_get_position fh;
  atomicity ← PMPI_File_get_atomicity fh;
  size ← PMPI_File_get_size fh;
  _ ← PMPI_File_get_view fh;
  mret (p <| p_offset := written offset (p_offset p) |> <| p_atomicity := written atomicity (p_atomicity p) |>
          <| p_size := written size (p_size p) |>).

Fixpoint save_records (keys : list Z) : prog (files L) (list (Z * OpenFileParameters)) :=
  match keys with
  | [] => mret []
  | fh :: rest =>
      s ← get_state;
      p ← deref (g_params_map s !! fh);
      p ← on_fwd (save_file fh p);
      modify (λ s, s <| g_params_map ::= <[fh := p]> |>) ;;
      records ← save_records rest;
      mret ((fh, p) :: records)
  end.

(** The file's new contents, or [None] if the file is not written; [opened] tells
    whether [open()] succeeds. *)
Definition save_mpi_files (opened : bool) : prog (files L) (option (list (Z * OpenFileParameters))) :=
  s ← get_state;
  if (size (g_params_map s) =? 0)%nat then mret None else
  if negb opened then mret None else
  records ← save_records (file_order (elements (dom (g_params_map s))));
  mret (Some records).

(** ** Restart *)

(** The loop that reads the records.  It stores [buf] once more when [read()]
    returns 0, before it looks at the count. *)
Fixpoint read_records (buf : Z * OpenFileParameters) (records : list (Z * OpenFileParameters))
    (m : gmap Z OpenFileParameters) : gmap Z OpenFileParameters :=
  match records with
  | [] => <[buf.1 := buf.2]> m
  | r :: records' => read_records r records' (<[r.1 := r.2]> m)
  end.

(** Opens a file again.  [fh] is the lower half's file. *)
Definition restore_file (virt : Z) (p : OpenFileParameters) : prog (files L) unit :=
  real_comm ← on_fwd (real_id_of (p_comm p));
  real_info ← on_fwd (on_consts (lower_half_handle (p_info p)));
  '(retval, fh) ← on_fwd (lower_call (lh_file_open real_comm (p_filepath p) (p_mode p) real_info));
  assert_ (retval =? 0) ;;
  on_fwd (on_table (update_virt_id virt fh)) ;;
  on_fwd (PMPI_File_set_atomicity fh (p_atomicity p)) ;;
  on_fwd (PMPI_File_set_size fh (p_size p)) ;;
  (if negb (p_viewSet p =? 0) then
     PMPI_File_set_view fh (p_viewDisp p) (p_viewEType p) (p_viewFType p) (p_datarep p) (p_viewInfo p) ;; mret ()
   else mret ()) ;;
  on_fwd (PMPI_File_seek fh (p_offset p) MPI_SEEK_SET) ;;
  mret ().

(** [file] is the contents of the file, or [None] if it does not exist; [junk] is
    the buffer before the first [read()]. *)
Definition restore_mpi_files (junk : Z * OpenFileParameters) (file : option (list (Z * OpenFileParameters)))
  : prog (files L) unit :=
  match file with
  | None => mret ()
  | Some records =>
      modify (λ s, s <| g_params_map := read_records junk records ∅ |>) ;;
      s ← get_state;
      for_each (file_order (elements (dom (g_params_map s)))) (λ virt,
        s ← get_state;
        p ← deref (g_params_map s !! virt);
        restore_file virt p)
  end.

(** ** What a checkpoint saves *)

Implicit Types (s : files L) (w : fwd L).

(** What a checkpoint asks of a file. *)
Definition is_query (c : fwd_call) : Prop :=
  match c with File_get_position _ | File_get_atomicity _ | File_get_size _ => True | _ => False end.
(** The lower half answers with the file's properties, which the questions do not
    change. *)
Context (answer : L → fwd_call → Z * list Z).
Hypothesis query_answered : ∀ c l, is_query c →
  ∃ l', lh_forward c l = (answer l c, l') ∧ ∀ c', is_query c' → answer l' c' = answer l c'.

(** The parameters with the answers of the lower half at [l] for its file [r]; an
    answer without a value keeps the old one. *)
Definition saved_params (l : L) (r : Z) (p : OpenFileParameters) : OpenFileParameters :=
  p <| p_offset := written (answer l (File_get_position r)) (p_offset p) |>
    <| p_atomicity := written (answer l (File_get_atomicity r)) (p_atomicity p) |>
    <| p_size := written (answer l (File_get_size r)) (p_size p) |>.
Definition same_answers (l l' : L) : Prop := ∀ c, is_query c → answer l' c = answer l c.

(** The record of the file [fh] in a process. *)
Definition saved_from (w : fwd L) (fh : Z) (p p' : OpenFileParameters) : Prop :=
  ∃ r, get_real_id fh (w_vids w) = Ok r (w_vids w) ∧ p' = saved_params (w_lower w) r p.

(** The handle translates. *)
Definition translatable (st : vid_state) (fh : Z) : Prop := ∃ r, get_real_id fh st = Ok r st.

Lemma query_run fh r (c : Z → fwd_call) w :
  get_real_id fh (w_vids w) = Ok r (w_vids w) → is_query (c r) →
  ∃ l, (real_file ← real_id_of fh; forward (c real_file)) w = Ok (answer (w_lower w) (c r)) (mk_fwd (w_vids w) l) ∧ same_answers (w_lower w) l.
Proof.
  intros Hr Hq. rewrite (prog_bind_ok _ _ _ _ _ (real_id_of_eq (λ _, r) fh w Hr)).
  destruct (query_answered (c r) (w_lower w) Hq) as (l & E & Hs). exists l. unfold forward. rewrite E. by split.
Qed.

Lemma save_file_run fh r p w :
  get_real_id fh (w_vids w) = Ok r (w_vids w) →
  ∃ l, save_file fh p w = Ok (saved_params (w_lower w) r p) (mk_fwd (w_vids w) l) ∧ same_answers (w_lower w) l.
Proof.
  intros Hr. unfold save_file.
  destruct (query_run fh r File_get_position w Hr I) as (l1 & E1 & S1).
  destruct (query_run fh r File_get_atomicity (mk_fwd (w_vids w) l1) Hr I) as (l2 & E2 & S2).
  destruct (query_run fh r File_get_size (mk_fwd (w_vids w) l2) Hr I) as (l3 & E3 & S3). cbn [w_vids w_lower] in *.
  exists l3. split; [|intros c Hc; by rewrite S3, S2, S1].
  rewrite (prog_bind_ok _ _ _ _ _ E1), (prog_bind_ok _ _ _ _ _ E2), (prog_bind_ok _ _ _ _ _ E3).
  unfold PMPI_File_get_view. prog_red. unfold saved_params. by rewrite (S2 (File_get_size r) I), (S1 (File_get_size r) I), (S1 (File_get_atomicity r) I).
Qed.

Lemma saved_from_later w w' fh p p' :
  w_vids w' = w_vids w → same_answers (w_lower w) (w_lower w') → saved_from w' fh p p' → saved_from w fh p p'.
Proof.
  intros Hv Hs (r & Hr & ->). exists r. rewrite <- Hv. split; [done|]. unfold saved_params. by rewrite !Hs.
Qed.

(** The map after the records of [keys] were saved. *)
Lemma save_records_wp keys s :
  NoDup keys → (∀ fh, fh ∈ keys → is_Some (g_params_map s !! fh) ∧ translatable (w_vids (f_fwd s)) fh) →
  wp (save_records keys) (λ records s', w_vids (f_fwd s') = w_vids (f_fwd s) ∧ records.*1 = keys ∧
    (∀ fh, fh ∉ keys → g_params_map s' !! fh = g_params_map s !! fh) ∧
    Forall (λ r, g_params_map s' !! r.1 = Some r.2 ∧ ∃ p, g_params_map s !! r.1 = Some p ∧ saved_from (f_fwd s) r.1 p r.2) records) s.
Proof.
  revert s. induction keys as [|fh keys IH]; intros s Hnd Hk; [by repeat constructor|].
  apply NoDup_cons in Hnd as [Hfh Hnd]. destruct (Hk fh) as [[p Hp] [r Ht]]; [left|].
  destruct (save_file_run fh r p (f_fwd s) Ht) as (l & E & Hsame). set (p' := saved_params _ r p) in *.
  set (s1 := mk_files (mk_fwd (w_vids (f_fwd s)) l) (<[fh := p']> (g_params_map s))).
  assert (save_records (fh :: keys) s = (records ← save_records keys; mret ((fh, p') :: records)) s1) as Hrun.
  { cbn [save_records]. prog_red. rewrite Hp. unfold on_fwd. by rewrite E. }
  assert (∀ x, x ∈ keys → is_Some (g_params_map s1 !! x) ∧ translatable (w_vids (f_fwd s1)) x) as Hk1.
  { intros x Hx. destruct (Hk x) as [Hs Hx']; [by right|]. simpl. split; [|done].
    rewrite lookup_insert_ne by set_solver. done. }
  destruct (wp_ok _ _ _ (IH s1 Hnd Hk1)) as (records & s2 & E2 & Hv2 & Hf & Hout & Hin).
  unfold wp. rewrite Hrun, (prog_bind_ok _ _ _ _ _ E2). cbn -[lookup]. split_and!; [by rewrite Hv2|by rewrite Hf| |].
  - intros x [Hx Hx']%not_elem_of_cons. rewrite Hout by done. simpl. by rewrite lookup_insert_ne.
  - constructor; simpl; [rewrite Hout by done; simpl; rewrite lookup_insert_eq; split; [done|]; exists p; split; [done|by exists r]|].
    rewrite Forall_forall in Hin |- *. intros x Hr. destruct (Hin x Hr) as (H1' & p0 & H2' & H3').
    split; [done|]. exists p0. split; [|by apply (saved_from_later _ (f_fwd s1))]. simpl in H2'. rewrite lookup_insert_ne in H2'; [done|].
    intros ->. apply Hfh. rewrite <- Hf. by apply list_elem_of_fmap_2.
Qed.

(** Reading records with different keys gives the map that they list; the last
    one is stored twice. *)
Lemma read_records_spec records buf m :
  NoDup records.*1 →
  read_records buf records m = (match last records with Some _ => list_to_map records ∪ m | None => <[buf.1 := buf.2]> m end).
Proof.
  revert buf m. induction records as [|r records IH]; intros buf m Hnd; [done|].
  apply NoDup_cons in Hnd as [Hr Hnd]. cbn [read_records]. rewrite IH by done.
  destruct r as [k p]. simpl in Hr. destruct (last records) as [r'|] eqn:El.
  - rewrite last_cons, El. simpl. rewrite <- insert_union_l. rewrite insert_union_r; [done|].
    by apply not_elem_of_list_to_map_1.
  - apply last_None in El. subst. simpl. rewrite insert_insert_eq, <- insert_union_l. by rewrite (left_id_L ∅ (∪)).
Qed.

(** C33. What a checkpoint writes of the open files is what a restart reads.  If
    the handles in [g_params_map] are in use, [save_mpi_files()] returns.  Nothing
    is written, and nothing changes, exactly if no file is open or the file cannot be opened.  Otherwise every
    file in the map keeps its parameters of opening and its view, and gets the
    position, the atomicity flag and the size that the lower half now reports for
    it (the old value where a call fails); and the loop of [restore_mpi_files()]
    rebuilds exactly this map from the file, although it stores the last record
    twice. *)
Theorem saved_files_round_trip opened s junk :
  (∀ l, file_order l ≡ₚ l) →
  (∀ fh, is_Some (g_params_map s !! fh) → translatable (w_vids (f_fwd s)) fh) →
  wp (save_mpi_files opened) (λ file s',
    match file with
    | None => (g_params_map s = ∅ ∨ opened = false) ∧ s' = s
    | Some records => g_params_map s ≠ ∅ ∧ opened = true ∧ w_vids (f_fwd s') = w_vids (f_fwd s) ∧
        (∀ fh, option_Forall2 (saved_from (f_fwd s) fh) (g_params_map s !! fh) (g_params_map s' !! fh)) ∧
        read_records junk records ∅ = g_params_map s'
    end) s.
Proof.
  intros Hord Ht. unfold wp, save_mpi_files. prog_red.
  destruct (Nat.eqb_spec (size (g_params_map s)) 0) as [Hz%map_size_empty_inv|Hz]; [by split; [left|]|].
  destruct opened; cbn [negb]; [|by split; [right|]].
  assert (g_params_map s ≠ ∅) as Hne by (intros E; apply Hz; by rewrite E).
  set (keys := file_order (elements (dom (g_params_map s)))).
  assert (∀ fh, fh ∈ keys ↔ is_Some (g_params_map s !! fh)) as Hkeys.
  { intros fh. unfold keys. by rewrite Hord, elem_of_elements, elem_of_dom. }
  assert (NoDup keys) as Hnd by (unfold keys; rewrite Hord; apply NoDup_elements).
  destruct (wp_ok _ _ _ (save_records_wp keys s Hnd ltac:(intros fh Hf%Hkeys; auto)))
    as (records & s' & -> & Hv & Hf & Hout & Hin).
  assert (∀ fh, is_Some (g_params_map s !! fh) → ∃ p p', g_params_map s !! fh = Some p ∧
    g_params_map s' !! fh = Some p' ∧ saved_from (f_fwd s) fh p p' ∧ (fh, p') ∈ records) as Hrec.
  { intros fh Hs%Hkeys. rewrite <- Hf in Hs. apply list_elem_of_fmap in Hs as ([x p'] & -> & Hs).
    rewrite Forall_forall in Hin. destruct (Hin _ Hs) as (H1' & p & H2' & H3'). by exists p, p'. }
  assert (∀ fh, option_Forall2 (saved_from (f_fwd s) fh) (g_params_map s !! fh) (g_params_map s' !! fh)) as Hfiles.
  { intros fh. destruct (g_params_map s !! fh) as [p|] eqn:E.
    - destruct (Hrec fh) as (p0 & p' & ? & -> & ? & _); [by eexists|]. simplify_eq. by constructor.
    - rewrite Hout, E; [constructor|]. rewrite Hkeys, E. by intros [? ?]. }
  split_and!; [done|done|done|done|]. rewrite read_records_spec by by rewrite Hf.
  destruct (last records) eqn:El.
  2: { apply last_None in El. subst records. destruct Hz. apply map_size_empty_iff, map_empty.
       intros fh. apply eq_None_not_Some. intros (? & ? & ? & ? & ? & []%not_elem_of_nil)%Hrec. }
  rewrite (right_id_L ∅ (∪)). apply map_eq. intros fh. apply option_eq. intros p'.
  rewrite <- elem_of_list_to_map by by rewrite Hf. split.
  - intros Hp. rewrite Forall_forall in Hin. by destruct (Hin _ Hp).
  - intros Hp. destruct (Hrec fh) as (? & p0 & _ & ? & _ & ?); [|by simplify_eq].
    specialize (Hfiles fh). rewrite Hp in Hfiles. inversion Hfiles. by eexists.
Qed.

(** ** Limits of the code *)

Lemma on_fwd_real h r s s' : on_fwd (real_id_of h) s = Ok r s' → s' = s.
Proof.
  unfold on_fwd, real_id_of. pose proof (get_real_id_wlp h (w_vids (f_fwd s))) as Hw. unfold wlp in Hw.
  destruct (get_real_id h _); [|done..]. subst. intros [= _ <-]. by destruct s as [[] ?].
Qed.
Lemma on_fwd_info h r s s' : on_fwd (on_consts (lower_half_handle h)) s = Ok r s' → s' = s.
Proof.
  unfold on_fwd, on_consts, lower_half_handle, lower_of_constant.
  destruct s as [[[] l] g]. simpl. by destruct (find_constant _ _) as [[c|]|]; intros [=].
Qed.
Lemma on_fwd_table {A} (p : prog vid_state A) a s s' :
  on_fwd (on_table p) s = Ok a s' →
  p (w_vids (f_fwd s)) = Ok a (w_vids (f_fwd s')) ∧ g_params_map s' = g_params_map s.
Proof.
  unfold on_fwd, on_table. destruct (p (w_vids (f_fwd s))); [|done..]. by intros [= -> <-].
Qed.

(** [MPI_File_open] makes two handles, and keeps the parameters under the one
    that it does not return: the application's handle is not in the map. *)
Theorem open_saves_other_handle junk comm name mode info s m h s' :
  vid_repr (w_vids (f_fwd s)) m → virt_id_next_seq (w_vids (f_fwd s)) + 2 < 2 ^ 64 →
  (∀ fh, is_Some (g_params_map s !! fh) → is_Some (m !! fh)) →
  PMPI_File_open junk comm name mode info s = Ok (MPI_SUCCESS, h) s' →
  g_params_map s' !! h = None ∧
  ∃ virt_file params, virt_file ≠ h ∧ g_params_map s' = <[virt_file := params]> (g_params_map s).
Proof.
  intros Hr Hn Hm E. unfold PMPI_File_open in E.
  apply prog_bind_inv in E as (rc1 & s1 & E1 & E). apply prog_bind_inv in E as (ri & s2 & E2 & E).
  apply prog_bind_inv in E as ([rc fh] & s3 & E3 & E). apply on_fwd_real in E1. apply on_fwd_info in E2.
  assert (w_vids (f_fwd s3) = w_vids (f_fwd s) ∧ g_params_map s3 = g_params_map s) as [Hv Hg].
  { subst s1 s2. unfold on_fwd, lower_call in E3. destruct (lh_file_open _ _ _ _ _) as [[a b] l].
    by injection E3 as _ _ <-. }
  clear E3. destruct (Z.eqb_spec rc MPI_SUCCESS) as [->|Hrc]; [|by injection E as ?].
  apply prog_bind_inv in E as (v & s4 & [E4 Hg4]%on_fwd_table & E).
  apply prog_bind_inv in E as (h' & s5 & [E5 Hg5]%on_fwd_table & E). injection E as -> <-. simpl.
  rewrite Hv in E4. unfold new_virt_file in *.
  destruct (wlp_ok _ _ _ _ _ (add_virt_id_wlp _ m fh NoDesc MANA_FILE_KIND Hr ltac:(done) ltac:(by right) ltac:(lia)) E4)
    as (Hfresh & Hr4 & Hn4 & _).
  destruct (wlp_ok _ _ _ _ _ (add_virt_id_wlp _ _ fh NoDesc MANA_FILE_KIND Hr4 ltac:(done) ltac:(by right) ltac:(lia)) E5)
    as (Hfresh5 & _). apply lookup_insert_None in Hfresh5 as [Hh Hne].
  rewrite Hg5, Hg4, Hg. split; [|by eexists v, _]. rewrite lookup_insert_ne by done.
  destruct (g_params_map s !! h) as [p|] eqn:Ep; [|done]. destruct (Hm h) as [x Hx]; [by rewrite Ep|].
  discriminate (eq_trans (eq_sym Hh) Hx).
Qed.

(** [lookup_virt_id_entry()] does not depend on the real handles. *)
Lemma lookup_update_real st virt real st' v :
  update_virt_id virt real st = Ok () st' → lookup_virt_id_entry st' v = lookup_virt_id_entry st v ∧ consts st' = consts st.
Proof.
  unfold update_virt_id. prog_red. destruct (lookup_virt_id_entry st virt) as [slot|]; [|done].
  intros [= <-]. split; [|done]. unfold lookup_virt_id_entry. rewrite slot_entry_update.
  set (x := Z.land _ _). by case_decide; [subst; destruct (slot_entry st x)|].
Qed.

(** [restore_mpi_files()] gives the lower half's handle to wrappers that expect a
    virtual one: if it is neither a handle in use nor a constant, the process
    reports an invalid handle and loops, with any file open. *)
Theorem restore_open_file_hangs virt p s rc ri fh l :
  on_fwd (real_id_of (p_comm p)) s = Ok rc s →
  on_fwd (on_consts (lower_half_handle (p_info p))) s = Ok ri s →
  lh_file_open rc (p_filepath p) (p_mode p) ri (w_lower (f_fwd s)) = ((0, fh), l) →
  is_Some (lookup_virt_id_entry (w_vids (f_fwd s)) virt) →
  lookup_virt_id_entry (w_vids (f_fwd s)) fh = None →
  find_constant (constant_key fh) (consts (w_vids (f_fwd s))) = Some None →
  restore_file virt p s = Spin.
Proof.
  intros E1 E2 E3 [slot El] Hfh Hc. unfold restore_file.
  rewrite (prog_bind_ok _ _ _ _ _ E1), (prog_bind_ok _ _ _ _ _ E2).
  set (s3 := mk_files (mk_fwd (w_vids (f_fwd s)) l) (g_params_map s)).
  assert (on_fwd (lower_call (lh_file_open rc (p_filepath p) (p_mode p) ri)) s = Ok (0, fh) s3) as E4.
  { unfold on_fwd, lower_call. by rewrite E3. }
  rewrite (prog_bind_ok _ _ _ _ _ E4). cbn [Z.eqb assert_]. unfold mbind at 1, prog_bind at 1. cbn [mret prog_ret].
  destruct (update_virt_id virt fh (w_vids (f_fwd s))) as [[] st| |] eqn:Eu;
    [|unfold update_virt_id in Eu; prog_red in Eu; by rewrite El in Eu..].
  destruct (lookup_update_real _ _ _ _ fh Eu) as [Hl Hcs].
  set (s4 := mk_files (mk_fwd st l) (g_params_map s)).
  assert (on_fwd (on_table (update_virt_id virt fh)) s3 = Ok () s4) as E5.
  { unfold on_fwd, on_table. simpl. by rewrite Eu. }
  rewrite (prog_bind_ok _ _ _ _ _ E5).
  assert (on_fwd (PMPI_File_set_atomicity fh (p_atomicity p)) s4 = Spin) as E6.
  { unfold on_fwd, PMPI_File_set_atomicity, real_id_of, get_real_id, entry_of. prog_red. simpl f_fwd. cbn [w_vids].
    rewrite Hl, Hfh. cbn [mbind option_bind]. unfold get_real_id_slow. rewrite Hcs, Hc. prog_red.
    unfold get_virt_id_entry. by rewrite Hl, Hfh. }
  unfold mbind at 1, prog_bind at 1. by rewrite E6.
Qed.
End wrappers.

(** ** A sample: one open file *)

Definition sample_answers : FwdLib () := {|
  lh_forward c l := ((0, match c with File_get_position _ => [64] | File_get_size _ => [4096] | _ => [1] end), l)
|}.
Definition sample_answer (l : ()) (c : fwd_call) : Z * list Z := (lh_forward (FwdLib := sample_answers) c l).1.
Definition sample_file_lib : FileLib () := {|
  MPI_SEEK_SET := 0;
  lh_file_open _ _ _ _ l := ((0, 100), l);
  lh_file_set_view _ _ _ _ _ _ l := (0, l);
  lh_file_close _ l := (0, l);
  lh_file_errhandler _ l := ((0, 5), l);
  file_order l := l
|}.
Definition sample_file_run : prog vid_state Z := new_virt_file 100.
Definition sample_file_vids : vid_state := match sample_file_run init_vid with Ok _ st => st | _ => init_vid end.
Definition sample_file : Z := match sample_file_run init_vid with Ok h _ => h | _ => 0 end.
Definition sample_params : OpenFileParameters := zero_params <| p_filepath := "data" |> <| p_mode := 9 |>.
Definition sample_files : files () := mk_files (mk_fwd sample_file_vids ()) {[sample_file := sample_params]}.

Lemma saved_files_round_trip_witness :
  ∃ records s', @save_mpi_files sample_lib _ sample_answers sample_file_lib true sample_files = Ok (Some records) s' ∧
    records = [(sample_file, sample_params <| p_offset := 64 |> <| p_atomicity := 1 |> <| p_size := 4096 |>)] ∧
    read_records (0, zero_params) records ∅ = g_params_map s' ∧
    @saved_from sample_lib _ sample_answer (f_fwd sample_files) sample_file sample_params
      (sample_params <| p_offset := 64 |> <| p_atomicity := 1 |> <| p_size := 4096 |>).
Proof.
  assert (∀ fh, is_Some (g_params_map sample_files !! fh) → @translatable sample_lib sample_file_vids fh) as Ht.
  { intros fh [p Hp]. change (({[sample_file := sample_params]} : gmap Z OpenFileParameters) !! fh = Some p) in Hp. apply lookup_singleton_Some in Hp as [<- _]. exists 100. vm_compute. reflexivity. }
  pose proof (@saved_files_round_trip sample_lib _ sample_answers sample_file_lib sample_answer
    (λ c l _, ex_intro _ l (conj eq_refl (λ _ _, eq_refl))) true sample_files (0, zero_params)
    (λ l, Permutation_refl l) Ht) as H. unfold wp in H.
  destruct (save_mpi_files true sample_files) as [[records|] s'| |] eqn:E; [|vm_compute in E; discriminate E..].
  exists records, s'. destruct H as (_ & _ & _ & _ & H). split; [done|]. split; [|split; [exact H|]].
  - vm_compute in E. injection E as <- _. vm_compute. reflexivity.
  - exists 100. split; vm_compute; reflexivity.
Defined.
