(* ===== verification/FortranHandles.v ===== *)
(** * Fortran handles
    ([src/src/mpi-wrappers/fortran_handles.h], [src/src/virtual_id.cpp])

    A Fortran handle has 32 bits.  That of a virtual handle is the handle itself;
    that of a predefined constant is the MPI library's, which
    [init_predefined_virt_ids()] has found. *)
From S2P Require Import Prelude Mpi Constants VirtualId VirtualIdInv VirtualIdSpec.

Section conversions.
Context `{MpiLib}.

Definition fortran_to_handle (kind fortran : Z) : prog vid_state Z := λ st,
  if (kind <=? MANA_NUM_KINDS) && bool_decide (is_Some (lookup_virt_id_entry st (u32 fortran)))
  then Ok (u32 fortran) st
  else Ok (default fortran (fortran_constants (consts st) !! (kind, fortran))) st.

Definition handle_to_fortran (kind key : Z) : prog vid_state Z := λ st,
  if (kind <=? MANA_NUM_KINDS) && bool_decide (is_Some (lookup_virt_id_entry st key))
  then Ok (_handle key) st
  else match find_constant key (consts st) with
       | Some (Some c) => Ok (c_fortran c) st
       | Some None => Ok (s32 key) st
       | None => Spin
       end.

(** [wide]: the C handle is wider than an [MPI_Fint]. *)
Definition mana_f2c (wide : bool) (kind fortran : Z) : prog vid_state Z :=
  if wide then fortran_to_handle kind fortran else mret fortran.
Definition mana_c2f (wide : bool) (kind handle : Z) : prog vid_state Z :=
  if wide then handle_to_fortran kind handle else mret (s32 handle).

(** The C handles of an array, and back. *)
Fixpoint mana_f2c_array (wide : bool) (kind : Z) (fortran : list Z) : prog vid_state (list Z) :=
  match fortran with
  | [] => mret []
  | f :: fortran' =>
      h ← mana_f2c wide kind f;
      rest ← mana_f2c_array wide kind fortran';
      mret (h :: rest)
  end.
Fixpoint mana_c2f_array (wide : bool) (kind : Z) (handles : list Z) : prog vid_state (list Z) :=
  match handles with
  | [] => mret []
  | h :: handles' =>
      f ← mana_c2f wide kind h;
      rest ← mana_c2f_array wide kind handles';
      mret (f :: rest)
  end.

(** ** The constants' Fortran handles *)

Context (c2f : Z → Z → Z) (lower : string → Z).
Let fortran_of (x : Z * string) : Z := c2f x.1 (lower x.2).

(** The MPI library gives one constant one Fortran handle, and different
    constants of a kind different ones. *)
Record fortran_coherent (l : list (Z * string)) : Prop := {
  fc_fun : ∀ x y, x ∈ l → y ∈ l → upper_const x.2 = upper_const y.2 → fortran_of x = fortran_of y;
  fc_inj : ∀ x y, x ∈ l → y ∈ l → x.1 = y.1 → fortran_of x = fortran_of y → upper_const x.2 = upper_const y.2
}.

(** The Fortran handles of the constants entered so far. *)
Definition fortran_entered (l : list (Z * string)) (cs : constants_state) (m : gmap Z mana_constant) : Prop :=
  ∀ x, x ∈ l → (∃ c, m !! upper_const x.2 = Some c ∧ c_fortran c = fortran_of x) ∧
    fortran_constants cs !! (x.1, fortran_of x) = Some (upper_const x.2).

Lemma repr_unique cs m m' : repr cs m → repr cs m' → m = m'.
Proof.
  intros Hm Hm'. apply map_eq. intros u.
  pose proof (find_constant_repr cs m u Hm) as E. rewrite (find_constant_repr cs m' u Hm') in E. by injection E.
Qed.

Lemma fortran_step U m0 l x cs m :
  (size U ≤ 128)%nat → coherent lower (l ++ [x]) → fortran_coherent (l ++ [x]) → upper_const x.2 ∈ U →
  entered lower U m0 l cs m → fortran_entered l cs m →
  ∃ cs' m', enter c2f lower x cs = Ok () cs' ∧ entered lower U m0 (l ++ [x]) cs' m' ∧
    fortran_entered (l ++ [x]) cs' m'.
Proof.
  intros HU Hc [Hfun Hinj] Hx He Hl.
  destruct (enter_step c2f lower U m0 l x cs m HU Hc Hx He) as (cs' & m' & E & He').
  exists cs', m'. split_and!; [done|done|]. destruct x as [kind name]. simpl in *.
  destruct (set_upper_to_lower_refines c2f cs m kind (upper_const name) (lower name))
    as (cs'' & E' & Hr' & _ & Hfc & _); [apply He|eapply table_room; [done|apply He|done]|].
  rewrite E in E'. injection E' as <-.
  rewrite (repr_unique _ _ _ (entered_repr _ _ _ _ _ _ He') Hr').
  intros y Hy. assert (y ∈ l ∨ y = (kind, name)) as Hy' by by apply elem_of_snoc.
  rewrite Hfc. split.
  - destruct (decide (upper_const y.2 = upper_const name)) as [Eu|Eu].
    + rewrite Eu, lookup_insert_eq. eexists. split; [done|]. simpl. symmetry.
      apply (Hfun y (kind, name)); [done|apply elem_of_snoc; by right|done].
    + rewrite lookup_insert_ne by done. destruct Hy' as [Hy'| ->]; [by apply Hl|done].
  - destruct (decide ((y.1, fortran_of y) = (kind, c2f kind (lower name)))) as [[= Ek Ef]|Ek].
    + rewrite Ek, Ef, lookup_insert_eq. f_equal. symmetry.
      apply (Hinj y (kind, name)); [done|apply elem_of_snoc; by right|done|done].
    + rewrite lookup_insert_ne by done. destruct Hy' as [Hy'| ->]; [by apply Hl|done].
Qed.

Lemma coherent_app_snoc l1 x l2 (P : list (Z * string) → Prop) :
  (∀ l l', (∀ y, y ∈ l → y ∈ l') → P l' → P l) → P (l1 ++ x :: l2) → P (l1 ++ [x]).
Proof. intros Hmono. apply Hmono. intros y. rewrite !elem_of_app, !elem_of_cons, elem_of_nil. tauto. Qed.

Lemma fortran_all U m0 l2 l1 cs m :
  (size U ≤ 128)%nat → coherent lower (l1 ++ l2) → fortran_coherent (l1 ++ l2) → uppers l2 ⊆ U →
  entered lower U m0 l1 cs m → fortran_entered l1 cs m →
  ∃ cs' m', for_each l2 (enter c2f lower) cs = Ok () cs' ∧ entered lower U m0 (l1 ++ l2) cs' m' ∧
    fortran_entered (l1 ++ l2) cs' m'.
Proof.
  revert l1 cs m. induction l2 as [|x l2 IH]; intros l1 cs m HU Hc Hf Hsub He Hl.
  { rewrite app_nil_r. by exists cs, m. }
  destruct (fortran_step U m0 l1 x cs m) as (cs1 & m1 & H1 & He1 & Hl1); [done|..|done|done|].
  { eapply (coherent_app_snoc l1 x l2); [|exact Hc]. intros l l' Hll Hl' y z Hy Hz. eauto. }
  { eapply (coherent_app_snoc l1 x l2); [|exact Hf]. intros l l' Hll [H1 H2]. split; eauto. }
  { apply Hsub. unfold uppers. clear. set_solver. }
  rewrite cons_middle, app_assoc in Hc, Hf |- *.
  destruct (IH (l1 ++ [x]) cs1 m1) as (cs' & m' & H2 & He'); [done|done|done| |done|done|].
  { unfold uppers in *. clear -Hsub. set_solver. }
  exists cs', m'. split; [|done]. simpl. unfold mbind, prog_bind. by rewrite H1.
Qed.

Lemma init_fortran_entered cs m :
  repr cs m → dom m ⊆ uppers PREDEFINED → coherent lower PREDEFINED → fortran_coherent PREDEFINED →
  ∃ cs' m', init_predefined_constants c2f lower cs = Ok () cs' ∧
    entered lower (uppers PREDEFINED) m PREDEFINED cs' m' ∧ fortran_entered PREDEFINED cs' m'.
Proof.
  intros Hr Hd Hc Hf. unfold init_predefined_constants, modify.
  set (cs0 := cs <| lower_to_upper_constants := ∅ |> <| fortran_constants := ∅ |>).
  destruct (fortran_all (uppers PREDEFINED) m PREDEFINED [] cs0 m)
    as (cs' & m' & Hfe & He); [apply predefined_count|done|done|done| | |].
  { split; [by apply (repr_ext cs)|done|..]; try done; intros x; intros; by destruct (not_elem_of_nil x). }
  { by intros x ?%not_elem_of_nil. }
  exists cs', m'. split; [|done]. unfold mbind, prog_bind. exact Hfe.
Qed.

(** ** Round trips *)

(** A value that is not of a virtual handle's shape is not in the table. *)
Lemma lookup_not_virtual st v : ¬ virtual_value (u32 v) → lookup_virt_id_entry st (u32 v) = None.
Proof.
  intros Hv. unfold lookup_virt_id_entry. destruct (handle64 && _); [done|].
  destruct (Z.leb_spec MANA_NUM_KINDS (u32 (Z.shiftr (u32 (_handle (u32 v))) MANA_VIRT_ID_KIND_SHIFT - 1)))
    as [|Hk]; [done|]. exfalso. apply Hv.
  assert (u32 (_handle (u32 v)) = u32 v) as E.
  { unfold _handle, s32, u32. rewrite Zminus_mod, Z.mod_mod, <- Zminus_mod by lia.
    rewrite Z.add_simpl_r. by apply Z.mod_mod. }
  rewrite E in Hk. pose proof (u32_range v) as Hr. set (x := u32 v) in *. clearbody x.
  unfold virtual_value, MANA_NUM_KINDS, MANA_VIRT_ID_KIND_SHIFT in *. rewrite Z.shiftr_div_pow2 in * by lia.
  assert (0 ≤ x / 2 ^ 28 < 16) as Hq by (split; [apply Z.div_pos; lia|apply Z.div_lt_upper_bound; lia]).
  destruct (decide (x / 2 ^ 28 = 0)) as [E0|E0].
  - rewrite E0 in Hk. vm_compute in Hk. discriminate.
  - rewrite u32_small in Hk by lia. split; [|lia]. split; [lia|].
    pose proof (Z.mul_succ_div_gt x (2 ^ 28)). lia.
Qed.

(** A live handle is its own Fortran handle. *)
Lemma handle_round_trip st m kind h x :
  vid_repr st m → m !! h = Some x → kind ≤ MANA_NUM_KINDS →
  handle_to_fortran kind h st = Ok h st ∧ fortran_to_handle kind h st = Ok h st.
Proof.
  intros (free & live & Hok & Hr) Hm Hk. destruct x as [r d].
  destruct (represents_lookup _ _ _ _ _ _ Hok Hr Hm) as (slot & e & _ & _ & _ & _ & El).
  destruct (represents_kind _ _ _ _ _ _ _ Hok Hr Hm) as (_ & _ & Hrange).
  unfold handle_to_fortran, fortran_to_handle. rewrite (u32_small h) by lia. rewrite El.
  rewrite (proj2 (Z.leb_le _ _) Hk), bool_decide_eq_true_2 by by eexists. simpl.
  unfold _handle. by rewrite s32_small by lia.
Qed.

(** A constant is found again from its Fortran handle. *)
Lemma constant_round_trip st m cs mc mc0 kind name :
  vid_repr st m → consts st = cs → entered lower (uppers PREDEFINED) mc0 PREDEFINED cs mc →
  fortran_entered PREDEFINED cs mc → (kind, name) ∈ PREDEFINED →
  - 2 ^ 63 ≤ upper_const name < 2 ^ 63 → ¬ virtual_value (u32 (fortran_of (kind, name))) →
  ∃ f, handle_to_fortran kind (upper_const name) st = Ok f st ∧ fortran_to_handle kind f st = Ok (upper_const name) st.
Proof.
  intros (free & live & Hok & _) <- He Hfe Hin Hrange Hnv. exists (fortran_of (kind, name)).
  destruct (Hfe _ Hin) as [(c & Hm & Hcf) Hfc]. simpl in Hm, Hfc.
  assert (lookup_virt_id_entry st (upper_const name) = None) as El.
  { eapply lookup_constant_none; [exact Hok| |by eexists|done]. intros u h Hu Hv Hs.
    apply elem_of_dom, (entered_dom _ _ _ _ _ _ He) in Hu. unfold uppers in Hu.
    apply elem_of_list_to_set, list_elem_of_fmap in Hu as (x & -> & Hx). by apply (entered_reserved _ _ _ _ _ _ He x). }
  unfold handle_to_fortran, fortran_to_handle. rewrite El, (lookup_not_virtual st _ Hnv).
  rewrite !bool_decide_eq_false_2, !andb_false_r by (by intros [? ?]).
  rewrite (find_constant_repr _ _ _ (entered_repr _ _ _ _ _ _ He)), Hm, Hcf, Hfc. done.
Qed.

(** C34. Fortran and C handles convert back and forth without loss.  After the
    constants were entered, at launch or at a restart: the Fortran handle of
    every virtual handle in use converts back to it, and that of every
    predefined constant to the constant, also for arrays of handles.  The MPI library
    gives a constant one Fortran handle, different constants of a kind
    different ones, and none of them has the shape of a virtual handle. *)
Theorem fortran_round_trip st0 cs m mc kind handles :
  repr cs mc → dom mc ⊆ uppers PREDEFINED → coherent lower PREDEFINED → fortran_coherent PREDEFINED →
  (∀ x, x ∈ PREDEFINED → - 2 ^ 63 ≤ upper_const x.2 < 2 ^ 63 ∧ ¬ virtual_value (u32 (fortran_of x))) →
  ∃ cs', init_predefined_constants c2f lower cs = Ok () cs' ∧
    let st := st0 <| consts := cs' |> in
    vid_repr st m →
    Forall (λ h, (is_Some (m !! h) ∧ kind ≤ MANA_NUM_KINDS) ∨ ∃ name, (kind, name) ∈ PREDEFINED ∧ upper_const name = h) handles →
    (fortran ← mana_c2f_array true kind handles; mana_f2c_array true kind fortran) st = Ok handles st.
Proof.
  intros Hr Hd Hc Hf Hx. destruct (init_fortran_entered cs mc Hr Hd Hc Hf) as (cs' & mc' & E & He & Hfe).
  exists cs'. split; [done|]. intros st Hv Hh.
  assert (∀ h, h ∈ handles → ∃ f, handle_to_fortran kind h st = Ok f st ∧ fortran_to_handle kind f st = Ok h st) as Hone.
  { intros h Hin. rewrite Forall_forall in Hh. destruct (Hh h Hin) as [[[x Hm] Hk]|(name & Hn & <-)].
    - exists h. by eapply handle_round_trip.
    - destruct (Hx _ Hn) as [Hrange Hnv].
      eapply (constant_round_trip st m cs' mc' mc kind name Hv eq_refl He Hfe Hn Hrange Hnv). }
  clear -Hone. rename handles into l.
  assert (∃ fs, mana_c2f_array true kind l st = Ok fs st ∧ mana_f2c_array true kind fs st = Ok l st) as (fs & H1 & H2).
  { induction l as [|h l IH]; [by exists []|]. destruct (Hone h) as (f & Hf1 & Hf2); [left|].
    destruct IH as (fs & H1 & H2); [intros x Hx; apply Hone; by right|]. exists (f :: fs). simpl.
    by rewrite (prog_bind_ok _ _ _ _ _ Hf1), (prog_bind_ok _ _ _ _ _ H1), (prog_bind_ok _ _ _ _ _ Hf2),
      (prog_bind_ok _ _ _ _ _ H2). }
  by rewrite (prog_bind_ok _ _ _ _ _ H1).
Qed.
End conversions.

(** ** A sample *)

Lemma sample_index x : x ∈ PREDEFINED → 0 ≤ name_index x.2 < 1000.
Proof.
  assert (Forall (λ x, 0 ≤ name_index x.2 < 1000) PREDEFINED) as Hf.
  { apply Forall_forall. intros y Hy.
    assert (forallb (λ x, (0 <=? name_index x.2) && (name_index x.2 <? 1000)) PREDEFINED = true) as Hb
      by (vm_compute; reflexivity).
    rewrite forallb_forall in Hb. specialize (Hb y). rewrite <- list_elem_of_In, andb_true_iff in Hb.
    destruct (Hb Hy) as [?%Z.leb_le ?%Z.ltb_lt]. lia. }
  rewrite Forall_forall in Hf. apply Hf.
Qed.
Lemma sample_fortran_coherent : @fortran_coherent sample_lib sample_c2f sample_lower PREDEFINED.
Proof.
  split; intros x y Hx%sample_index Hy%sample_index; unfold sample_c2f, sample_lower; simpl.
  - intros. f_equal. lia.
  - intros _ E. f_equal. revert E. Z.to_euclidean_division_equations. lia.
Qed.
Lemma sample_fortran_shape x : x ∈ PREDEFINED →
  - 2 ^ 63 ≤ @upper_const sample_lib x.2 < 2 ^ 63 ∧ ¬ virtual_value (u32 (sample_c2f x.1 (sample_lower x.2))).
Proof.
  intros Hx%sample_index. split; [simpl; lia|]. unfold virtual_value, MANA_VIRT_ID_KIND_SHIFT. intros [_ [Hk _]].
  unfold sample_c2f in Hk. pose proof (Z.mod_pos_bound (sample_lower x.2) 1000 ltac:(lia)) as Hm.
  rewrite u32_small, Z.shiftr_div_pow2, Z.div_small in Hk by lia. lia.
Qed.

(** The vector of reserved slots stays as short as the table. *)
Lemma insert_from_reserved fuel u l f i cs cs' :
  insert_from fuel u l f i cs = Ok () cs' → reserved_slots cs' = reserved_slots cs.
Proof.
  revert i. induction fuel as [|fuel IH]; intros i; [done|]. cbn [insert_from]. prog_red.
  repeat (match goal with |- context [if ?b then _ else _] => destruct b end);
    try done; try (by intros [= <-]); eauto.
Qed.
Lemma reserve_length `{MpiLib} u cs :
  Z.of_nat (length (reserved_slots cs)) ≤ 2 ^ 24 →
  Z.of_nat (length (reserved_slots (reserve_constant_slot u cs))) ≤ 2 ^ 24.
Proof.
  intros Hl. unfold reserve_constant_slot. cbv zeta. destruct (_ || _); [done|]. simpl.
  set (v := if handle64 then _ else _). pose proof (slot_mask_range v).
  rewrite length_insert. destruct (Z.leb_spec (Z.of_nat (length (reserved_slots cs))) (Z.land v MANA_VIRT_ID_SLOT_MASK));
    [rewrite length_resize; lia|done].
Qed.
Lemma init_reserved_length `{MpiLib} c2f lower cs cs' :
  Z.of_nat (length (reserved_slots cs)) ≤ 2 ^ 24 →
  init_predefined_constants c2f lower cs = Ok () cs' → Z.of_nat (length (reserved_slots cs')) ≤ 2 ^ 24.
Proof.
  intros Hl E. unfold init_predefined_constants in E. prog_red in E.
  refine (for_each_inv (λ cs, Z.of_nat (length (reserved_slots cs)) ≤ 2 ^ 24) _ _ _ _ _ _ E); [|done].
  intros [kind name] t t' _ Ht Et. unfold set_upper_to_lower in Et. prog_red in Et.
  apply insert_from_reserved in Et. rewrite Et. by apply reserve_length.
Qed.

Lemma fortran_round_trip_witness :
  let handles := [@upper_const sample_lib "INT"; @upper_const sample_lib "DOUBLE"] in
  ∃ cs, @init_predefined_constants sample_lib sample_c2f sample_lower init_constants = Ok () cs ∧
  (fortran ← @mana_c2f_array sample_lib true MANA_DATATYPE_KIND handles;
   @mana_f2c_array sample_lib true MANA_DATATYPE_KIND fortran) (init_vid <| consts := cs |>) =
    Ok handles (init_vid <| consts := cs |>).
Proof.
  intros handles.
  destruct (@fortran_round_trip sample_lib sample_c2f sample_lower init_vid init_constants ∅ ∅ MANA_DATATYPE_KIND handles
    repr_empty ltac:(set_solver) sample_coherent sample_fortran_coherent sample_fortran_shape) as (cs & E & Hrt).
  assert (Z.of_nat (length (reserved_slots init_constants)) ≤ 2 ^ 24) as H0 by (simpl; lia).
  exists cs. split; [exact E|]. refine (Hrt (vid_repr_consts cs (init_reserved_length _ _ _ _ H0 E)) _).
  apply Forall_cons; split; [|apply Forall_cons; split; [|apply Forall_nil; exact I]];
    right; [exists "INT"|exists "DOUBLE"]; (split; [|reflexivity]); apply list_elem_of_In; vm_compute; tauto.
Defined.
