(* ===== verification/PendingCollectives.v ===== *)
(** * Completing nonblocking collectives before a checkpoint
    ([src/src/seq_num.cpp])

    After the drain of collective calls all members have started the same
    nonblocking collectives, so each pending request completes when it is tested
    often enough.  [complete_pending_nonblocking_collectives()] tests each until
    it completes; the drain without barriers calls
    [test_pending_nonblocking_collectives()] again and again, until it returns 0.
    A completed request maps to [MPI_REQUEST_NULL] afterwards.  [polls] bounds
    the loop over one request, as in [P2p]. *)
From S2P Require Import Prelude Mpi Constants VirtualId VirtualIdInv VirtualIdSpec PendingLog PendingLogSpec DatatypeRefs DatatypeSpec RequestTable P2p.

Section operations.
Context `{MpiLib} `{P2pLib L}.
Context (polls : nat).

(** [while (!flag) { MPI_Test_internal(...); ASSERT(...) }]. *)
Fixpoint test_until (fuel : nat) (request : Z) : prog (p2p L) unit :=
  match fuel with
  | O => spin
  | S fuel' =>
      '(rc, flag, _) ← MPI_Test_internal request false;
      assert_ (rc =? MPI_SUCCESS) ;;
      if (flag : bool) then mret () else test_until fuel' request
  end.

Definition complete_pending_nonblocking_collectives : prog (p2p L) unit :=
  requests ← on_table (pending_collective_requests MANA_REQUEST_NULL);
  for_each requests (λ request,
    test_until polls request ;;
    on_table (update_virt_id request MANA_REQUEST_NULL)).

(** The loop of [test_pending_nonblocking_collectives()], from [pending]. *)
Fixpoint test_each (requests : list Z) (pending : Z) : prog (p2p L) Z :=
  match requests with
  | [] => mret pending
  | request :: rest =>
      '(rc, flag, _) ← MPI_Test_internal request false;
      assert_ (rc =? MPI_SUCCESS) ;;
      if (flag : bool)
      then on_table (update_virt_id request MANA_REQUEST_NULL) ;; test_each rest pending
      else test_each rest (s32 (pending + 1))
  end.
Definition test_pending_nonblocking_collectives : prog (p2p L) Z :=
  requests ← on_table (pending_collective_requests MANA_REQUEST_NULL);
  test_each requests 0.

End operations.

(** ** What the lower half promises

    [active l] are the requests of nonblocking collectives that are started and
    not complete, and [left r l] bounds the tests of [r] that can still find it
    incomplete, when all members have started the collective.  A test that finds
    a request complete frees it; nothing is promised about a request that is
    not active. *)
Class NbcLaws (L : Type) `{!MpiLib, !P2pLib L} (active : L → gset Z) (left : Z → L → nat) : Prop := {
  nbc_test r l rc flag st l' :
    r ∈ active l → lh_Test r l = ((rc, flag, st), l') →
    rc = MPI_SUCCESS ∧ active l' = (if flag then active l ∖ {[r]} else active l) ∧
    (flag = false → (left r l' < left r l)%nat) ∧
    ∀ r', r' ∈ active l' → (left r' l' ≤ left r' l)%nat
}.

Section correctness.
Context `{MpiLib} `{P2pLib L} {active : L → gset Z} {left : Z → L → nat} `{!NbcLaws L active left}.
Implicit Types (p : p2p L) (st : vid_state) (l : L).

(** ** The pending requests *)

Definition is_pending (e : virt_id_entry) : bool :=
  negb (virt e =? 0) && (kind_of (virt e) =? MANA_REQUEST_KIND) && collective e &&
  negb (real_id e =? MANA_REQUEST_NULL).
Definition entry_at (st : vid_state) (s : Z) : virt_id_entry := default zero_entry (slot_entry st s).
(** The slots of the pending requests, in the order in which they were made. *)
Definition pending_slots (st : vid_state) (live : list Z) : list Z :=
  filter (λ s, is_pending (entry_at st s) = true) live.
Definition real_at (st : vid_state) (s : Z) : Z := real_id (entry_at st s).

Definition set_null (s : Z) (st : vid_state) : vid_state :=
  update_entry s (λ e, e <| real_id := MANA_REQUEST_NULL |>) st.
(** The table after the requests in the slots [ss] have completed. *)
Definition set_nulls (ss : list Z) (st : vid_state) : vid_state := foldl (flip set_null) st ss.

Lemma pending_run st free live :
  vid_ok st free live →
  pending_collective_requests MANA_REQUEST_NULL st = Ok (handle_of st <$> pending_slots st live) st.
Proof.
  intros Hok. unfold pending_collective_requests. prog_red. rewrite (scan_run _ _ _ Hok).
  do 2 f_equal. apply (sort_by_seq st free live is_pending _ Hok).
  apply (scan_live_perm st free live (λ e, if is_pending e then Some (entry_seq e, virt e) else None) Hok).
  intros e He. unfold is_pending. by rewrite He.
Qed.

Lemma benign_null : benign (λ e, e <| real_id := MANA_REQUEST_NULL |>).
Proof. intros e. by split_and!. Qed.

Lemma set_null_ok s st free live : vid_ok st free live → s ∈ live → vid_ok (set_null s st) free live.
Proof. intros Hok Hs. unfold set_null. apply update_live_ok; [done..|apply benign_null]. Qed.

Lemma entry_at_null s st free live x :
  vid_ok st free live → s ∈ live →
  entry_at (set_null s st) x =
    if decide (x = s) then (entry_at st s) <| real_id := MANA_REQUEST_NULL |> else entry_at st x.
Proof.
  intros Hok Hs. unfold entry_at, set_null. rewrite slot_entry_update. case_decide as E; [subst x|].
  - destruct (inv_live_entry _ _ _ _ _ Hok Hs) as (e & k & -> & _). by rewrite decide_True.
  - by rewrite decide_False by congruence.
Qed.

Lemma handle_of_null s st x : handle_of (set_null s st) x = handle_of st x.
Proof. unfold set_null. by apply handle_of_update. Qed.

(** ** One request *)

(** The requests in the slots [ss] are pending and active, and no two are one
    request of the lower half. *)
Record ready (live : list Z) (ss : list Z) (st : vid_state) (l : L) : Prop := {
  rd_reals : NoDup (real_at st <$> ss);
  rd_live s : s ∈ ss → s ∈ live;
  rd_pending s : s ∈ ss → is_pending (entry_at st s) = true;
  rd_active s : s ∈ ss → real_at st s ∈ active l
}.

Lemma is_pending_real e : is_pending e = true → real_id e ≠ MANA_REQUEST_NULL.
Proof. unfold is_pending. intros [_ Hn]%andb_prop. by apply negb_true_iff, Z.eqb_neq in Hn. Qed.

Lemma ready_test live s ss p free :
  vid_ok (table p) free live → ready live (s :: ss) (table p) (lib p) →
  ∃ flag status l', MPI_Test_internal (handle_of (table p) s) false p = Ok (MPI_SUCCESS, flag, status) (p <| lib := l' |>) ∧
    active l' = (if flag then active (lib p) ∖ {[real_at (table p) s]} else active (lib p)) ∧
    (flag = false → (left (real_at (table p) s) l' < left (real_at (table p) s) (lib p))%nat) ∧
    ∀ r', r' ∈ active l' → (left r' l' ≤ left r' (lib p))%nat.
Proof.
  intros Hok Hr. assert (s ∈ live) as Hs by (eapply rd_live; [done|left]).
  assert (get_real_id (handle_of (table p) s) (table p) = Ok (real_at (table p) s) (table p)) as Eg.
  { unfold get_real_id, entry_of. rewrite (lookup_live _ _ _ _ _ Hok Hs). cbn [mbind option_bind].
    unfold real_at, entry_at. by destruct (inv_live_entry _ _ _ _ _ Hok Hs) as (e & k & -> & _). }
  destruct (lh_Test (real_at (table p) s) (lib p)) as [[[rc flag] st0] l'] eqn:El.
  destruct (nbc_test _ _ _ _ _ _ (rd_active _ _ _ _ Hr s ltac:(left)) El) as (-> & Ha & Hd & Hm).
  exists flag, st0, l'. split; [|done]. unfold MPI_Test_internal, on_table, call_lib. prog_red. rewrite Eg.
  assert ((real_at (table p) s =? MANA_REQUEST_NULL) = false) as ->.
  { apply Z.eqb_neq, is_pending_real, (rd_pending _ _ _ _ Hr). left. }
  destruct p. cbn in *. by rewrite El.
Qed.

(** The other requests stay ready. *)
Lemma ready_incomplete live s ss st l l' :
  ready live (s :: ss) st l → active l' = active l → ready live ss st l'.
Proof.
  intros [Hn Hl Hp Ha] E. split; [by apply NoDup_cons in Hn as [_ Hn]|..]; intros x Hx.
  - apply Hl. by right.
  - apply Hp. by right.
  - rewrite E. apply Ha. by right.
Qed.

Lemma ready_complete live s ss p l' free :
  vid_ok (table p) free live → ready live (s :: ss) (table p) (lib p) →
  active l' = active (lib p) ∖ {[real_at (table p) s]} →
  ready live ss (set_null s (table p)) l' ∧ ∀ x, x ∈ ss → entry_at (set_null s (table p)) x = entry_at (table p) x.
Proof.
  intros Hok [Hn Hl Hp Ha] E. apply NoDup_cons in Hn as [Hni Hn]. assert (s ∈ live) as Hs by (apply Hl; left).
  assert (∀ x, x ∈ ss → entry_at (set_null s (table p)) x = entry_at (table p) x) as Heq.
  { intros x Hx. rewrite (entry_at_null _ _ _ _ _ Hok Hs), decide_False; [done|]. intros ->.
    apply Hni. by apply list_elem_of_fmap_2. }
  split; [|done]. split.
  - replace (real_at (set_null s (table p)) <$> ss) with (real_at (table p) <$> ss); [done|].
    apply list_fmap_ext. intros i x Hx%list_elem_of_lookup_2. unfold real_at. by rewrite Heq.
  - intros x Hx. apply Hl. by right.
  - intros x Hx. rewrite Heq by done. apply Hp. by right.
  - intros x Hx. unfold real_at. rewrite Heq, E by done. apply elem_of_difference. split; [apply Ha; by right|].
    rewrite elem_of_singleton. intros Hr. apply Hni. rewrite <- Hr. by apply (list_elem_of_fmap_2 (real_at (table p))).
Qed.

Lemma null_step p s free live :
  vid_ok (table p) free live → s ∈ live →
  on_table (update_virt_id (handle_of (table p) s) MANA_REQUEST_NULL) p = Ok () (p <| table := set_null s (table p) |>).
Proof.
  intros Hok Hs. unfold on_table, update_virt_id. prog_red. by rewrite (lookup_live _ _ _ _ _ Hok Hs).
Qed.

(** ** The loops *)

Lemma test_until_run fuel live s ss p free :
  vid_ok (table p) free live → ready live (s :: ss) (table p) (lib p) →
  (left (real_at (table p) s) (lib p) < fuel)%nat →
  ∃ l', test_until fuel (handle_of (table p) s) p = Ok () (p <| lib := l' |>) ∧
    active l' = active (lib p) ∖ {[real_at (table p) s]} ∧
    ∀ r', r' ∈ active l' → (left r' l' ≤ left r' (lib p))%nat.
Proof.
  revert p. induction fuel as [|fuel IH]; intros p Hok Hr Hf; [lia|].
  destruct (ready_test _ _ _ _ _ Hok Hr) as (flag & st0 & l' & E & Ha & Hd & Hm). simpl.
  rewrite (prog_bind_ok _ _ _ _ _ E), Z.eqb_refl. destruct flag; [by exists l'|].
  specialize (Hd eq_refl).
  destruct (IH (p <| lib := l' |>)) as (l2 & E2 & Ha2 & Hm2); cbn in *.
  - done.
  - destruct Hr as [? ? ? Hact]. split; [assumption..|]. intros x Hx. rewrite Ha. by apply Hact.
  - lia.
  - exists l2. split; [exact E2|]. rewrite Ha2, Ha. split; [done|]. intros r' Hr'.
    etrans; [apply Hm2; by rewrite Ha2, Ha|]. apply Hm. rewrite Ha. set_solver.
Qed.

(** The processes before and after some of the requests have completed. *)
Record completed_to (p p' : p2p L) (ss : list Z) : Prop := {
  cm_state : p' = p <| table := set_nulls ss (table p) |> <| lib := lib p' |>;
  cm_active : active (lib p') = active (lib p) ∖ list_to_set (real_at (table p) <$> ss);
  cm_left r : r ∈ active (lib p') → (left r (lib p') ≤ left r (lib p))%nat
}.

Lemma completed_nil p l' :
  active l' = active (lib p) → (∀ r, r ∈ active l' → (left r l' ≤ left r (lib p))%nat) →
  completed_to p (p <| lib := l' |>) [].
Proof. intros Ha Hl. split; cbn; [by destruct p|set_solver|done]. Qed.

(** Completing [s] and then [ss]. *)
Lemma completed_cons p l' p' s ss :
  active l' = active (lib p) ∖ {[real_at (table p) s]} → (∀ r, r ∈ active l' → (left r l' ≤ left r (lib p))%nat) →
  (∀ x, x ∈ ss → entry_at (set_null s (table p)) x = entry_at (table p) x) →
  completed_to (p <| lib := l' |> <| table := set_null s (table p) |>) p' ss → completed_to p p' (s :: ss).
Proof.
  intros Ha Hl He [Hst Hact Hleft]. cbn in *.
  assert ((real_at (set_null s (table p)) <$> ss) = (real_at (table p) <$> ss)) as E.
  { apply list_fmap_ext. intros i x Hx%list_elem_of_lookup_2. unfold real_at. by rewrite He. }
  rewrite E in Hact. split; cbn.
  - rewrite Hst. by destruct p.
  - rewrite Hact, Ha. set_solver.
  - intros r Hr. etrans; [by apply Hleft|]. apply Hl. rewrite Hact in Hr. set_solver.
Qed.

(** An incomplete test, and then [ss]. *)
Lemma completed_skip p l' p' ss :
  active l' = active (lib p) → (∀ r, r ∈ active l' → (left r l' ≤ left r (lib p))%nat) →
  completed_to (p <| lib := l' |>) p' ss → completed_to p p' ss.
Proof.
  intros Ha Hl [Hst Hact Hleft]. cbn in *. split; [rewrite Hst; by destruct p|by rewrite Hact, Ha|].
  intros r Hr. etrans; [by apply Hleft|]. apply Hl. rewrite Hact in Hr. set_solver.
Qed.

Lemma complete_loop_run polls live free ss p :
  vid_ok (table p) free live → ready live ss (table p) (lib p) →
  (∀ s, s ∈ ss → (left (real_at (table p) s) (lib p) < polls)%nat) →
  ∃ p', for_each (handle_of (table p) <$> ss) (λ request,
      test_until polls request ;; on_table (update_virt_id request MANA_REQUEST_NULL)) p = Ok () p' ∧ completed_to p p' ss.
Proof.
  revert p. induction ss as [|s ss IH]; intros p Hok Hr Hf.
  { exists (p <| lib := lib p |>). split; [by destruct p|]. by apply completed_nil. }
  assert (s ∈ live) as Hs by (eapply rd_live; [done|by left]).
  destruct (test_until_run polls live s ss p free Hok Hr) as (l' & E & Ha & Hm); [apply Hf; by left|].
  destruct (ready_complete live s ss p l' free Hok Hr Ha) as [Hr' He].
  destruct (IH (p <| lib := l' |> <| table := set_null s (table p) |>)) as (p' & E' & Hc).
  - by apply set_null_ok.
  - exact Hr'.
  - intros x Hx. cbn. unfold real_at. rewrite He by done. eapply Nat.le_lt_trans; [|apply Hf; by right].
    apply Hm. apply (rd_active _ _ _ _ Hr') in Hx as Hx'. unfold real_at in Hx'. by rewrite He in Hx'.
  - exists p'. split; [|by eapply completed_cons]. cbn [fmap list_fmap for_each].
    rewrite prog_bind_assoc, (prog_bind_ok _ _ _ _ _ E). cbv beta.
    set (q := p <| lib := l' |>). refine (eq_trans (prog_bind_ok _ _ _ _ _ (null_step q s free live Hok Hs)) _).
    rewrite <- E'. f_equal. apply list_fmap_ext. intros i x _. symmetry. apply handle_of_null.
Qed.

Lemma test_each_run live free ss n p :
  vid_ok (table p) free live → ready live ss (table p) (lib p) →
  0 ≤ n → n + Z.of_nat (length ss) < 2 ^ 31 →
  ∃ p' done todo, test_each (handle_of (table p) <$> ss) n p = Ok (n + Z.of_nat (length todo)) p' ∧
    ss ≡ₚ done ++ todo ∧ completed_to p p' done ∧
    ∀ s, s ∈ todo → (left (real_at (table p) s) (lib p') < left (real_at (table p) s) (lib p))%nat.
Proof.
  revert n p. induction ss as [|s ss IH]; intros n p Hok Hr Hn Hb.
  { exists (p <| lib := lib p |>), [], []. split; [cbn; rewrite Z.add_0_r; by destruct p|].
    split; [done|]. split; [by apply completed_nil|]. by intros s ?%not_elem_of_nil. }
  assert (s ∈ live) as Hs by (eapply rd_live; [done|by left]). cbn [length] in Hb.
  destruct (ready_test _ _ _ _ _ Hok Hr) as (flag & st0 & l' & E & Ha & Hd & Hm).
  cbn [fmap list_fmap test_each]. rewrite (prog_bind_ok _ _ _ _ _ E), Z.eqb_refl. destruct flag.
  - destruct (ready_complete live s ss p l' free Hok Hr Ha) as [Hr' He].
    destruct (IH n (p <| lib := l' |> <| table := set_null s (table p) |>)) as (p' & done & todo & E' & Hp & Hc & Ht);
      [by apply set_null_ok|exact Hr'|lia|lia|].
    exists p', (s :: done), todo. split_and!.
    + set (q := p <| lib := l' |>). refine (eq_trans (prog_bind_ok _ _ _ _ _ (null_step q s free live Hok Hs)) _).
      rewrite <- E'. f_equal. apply list_fmap_ext. intros i x _. symmetry. apply handle_of_null.
    + by rewrite Hp.
    + eapply completed_cons; try done. intros x Hx. apply He. rewrite Hp. apply elem_of_app. by left.
    + intros x Hx. assert (x ∈ ss) as Hxs by (rewrite Hp; apply elem_of_app; by right).
      specialize (Ht x Hx). cbn in Ht. unfold real_at in *. rewrite He in Ht by done.
      eapply Nat.lt_le_trans; [exact Ht|]. apply Hm.
      apply (rd_active _ _ _ _ Hr') in Hxs as Hx'. unfold real_at in Hx'. by rewrite He in Hx'.
  - specialize (Hd eq_refl). pose proof (ready_incomplete _ _ _ _ _ _ Hr Ha) as Hr'.
    destruct (IH (n + 1) (p <| lib := l' |>)) as (p' & done & todo & E' & Hp & Hc & Ht);
      [exact Hok|exact Hr'|lia|lia|].
    exists p', done, (s :: todo). split_and!.
    + cbn [mbind]. rewrite s32_small by lia. cbn [length].
      replace (n + Z.of_nat (S (length todo))) with (n + 1 + Z.of_nat (length todo)) by lia. exact E'.
    + rewrite Hp. apply Permutation_middle.
    + by eapply completed_skip.
    + intros x [->|Hx]%elem_of_cons.
      * eapply Nat.le_lt_trans; [|exact Hd]. apply (cm_left _ _ _ Hc). rewrite (cm_active _ _ _ Hc). cbn. rewrite Ha.
        apply elem_of_difference. split; [apply (rd_active _ _ _ _ Hr); by left|].
        rewrite elem_of_list_to_set. pose proof (rd_reals _ _ _ _ Hr) as [Hni _]%NoDup_cons. intros (y & Ey & Hy)%list_elem_of_fmap.
        apply Hni, list_elem_of_fmap. exists y. split; [exact Ey|]. rewrite Hp. apply elem_of_app. by left.
      * eapply Nat.lt_le_trans; [by apply Ht|]. apply Hm. rewrite Ha. apply (rd_active _ _ _ _ Hr). right.
        rewrite Hp. apply elem_of_app. by right.
Qed.

(** ** The table afterwards *)

Lemma set_nulls_ok ss st free live :
  vid_ok st free live → (∀ s, s ∈ ss → s ∈ live) → vid_ok (set_nulls ss st) free live.
Proof.
  revert st. induction ss as [|s ss IH]; intros st Hok Hl; [done|]. cbn. apply IH; [|intros; apply Hl; by right].
  apply set_null_ok; [done|]. apply Hl. by left.
Qed.

Lemma entry_at_nulls ss st free live x :
  vid_ok st free live → (∀ s, s ∈ ss → s ∈ live) →
  entry_at (set_nulls ss st) x =
    if decide (x ∈ ss) then (entry_at st x) <| real_id := MANA_REQUEST_NULL |> else entry_at st x.
Proof.
  revert st. induction ss as [|s ss IH]; intros st Hok Hl; [done|].
  assert (s ∈ live) as Hs by (apply Hl; by left).
  change (set_nulls (s :: ss) st) with (set_nulls ss (set_null s st)).
  rewrite IH; [|by apply set_null_ok|intros; apply Hl; by right].
  rewrite (entry_at_null _ _ _ _ _ Hok Hs). repeat case_decide; subst; try done; set_solver.
Qed.

(** The requests that did not complete are the pending ones. *)
Lemma pending_nulls ss st free live :
  vid_ok st free live → (∀ s, s ∈ ss → s ∈ live) →
  pending_slots (set_nulls ss st) live = filter (.∉ ss) (pending_slots st live).
Proof.
  intros Hok Hl. unfold pending_slots. rewrite list_filter_filter. apply list_filter_iff. intros x.
  rewrite (entry_at_nulls _ _ _ _ _ Hok Hl). case_decide as Hx; [|tauto].
  split; [|tauto]. intros E%is_pending_real. by destruct E.
Qed.

Lemma pending_slots_live st live s : s ∈ pending_slots st live → s ∈ live ∧ is_pending (entry_at st s) = true.
Proof. unfold pending_slots. rewrite list_elem_of_filter. tauto. Qed.

Lemma few_slots st free live : vid_ok st free live → Z.of_nat (length (pending_slots st live)) ≤ 2 ^ 24.
Proof.
  intros Hok. transitivity (Z.of_nat (length (seqZ 0 (2 ^ 24)))); [|rewrite length_seqZ; lia].
  apply inj_le. etrans; [apply length_filter|]. apply submseteq_length, NoDup_submseteq; [by eapply inv_live_nodup|].
  intros s Hs. apply elem_of_seqZ. pose proof (inv_slot_range _ _ _ _ _ Hok Hs). lia.
Qed.

(** ** A test of a request that has completed *)

Lemma set_nulls_tables ss st free live log :
  vid_ok st free live → (∀ s, s ∈ ss → s ∈ live) → tables st log → tables (set_nulls ss st) log.
Proof.
  revert st. induction ss as [|s ss IH]; intros st Hok Hl Ht; [done|].
  assert (s ∈ live) as Hs by (apply Hl; by left).
  change (set_nulls (s :: ss) st) with (set_nulls ss (set_null s st)).
  apply IH; [by apply set_null_ok|intros; apply Hl; by right|].
  destruct (inv_live_entry _ _ _ _ _ Hok Hs) as (e & k & He & _).
  pose proof (lookup_live _ _ _ _ _ Hok Hs) as Hlk.
  destruct (lookup_any _ _ _ _ _ Hok Hlk) as [_ Hh].
  destruct (tables_update st log (handle_of st s) (entry_info e) (λ e, e <| real_id := MANA_REQUEST_NULL |>) Ht Hh)
    as (s' & e' & Hlk' & _ & _ & Ht' & _).
  - by rewrite (info_live _ _ _ _ Hok Hs), He.
  - intros e0. by split_and!.
  - rewrite Hlk in Hlk'. by injection Hlk' as <-.
Qed.

Lemma null_request_tests p log h b s0 :
  tables (table p) log → _handle h = h → kind_of h = MANA_REQUEST_KIND → h ≠ MPI_REQUEST_NULL →
  info (table p) h = Some (MANA_REQUEST_NULL, b, s0) →
  ∃ st' s, PMPI_Test h p = Ok (MPI_SUCCESS, true, MPI_REQUEST_NULL, s) (p <| table := st' |>) ∧ info st' h = None.
Proof.
  intros Ht Hh Hk Hn Hi.
  destruct (tables_log_op (table p) log (LClear h) Ht) as (st1 & E1 & T1 & S1); [done..|]. cbn in E1, T1.
  destruct (tables_release st1 _ T1) as (st2 & E2 & T2 & _ & _ & I2).
  assert (kind_of (_handle h) ≠ MANA_DATATYPE_KIND) as Hd by (rewrite Hh, Hk; done).
  destruct (tables_free st2 _ h (MANA_REQUEST_NULL, b, s0) T2 Hh) as (st3 & E3 & _ & N3 & _).
  { by rewrite Hh in Hd. }
  { by rewrite I2, (same_requests_info _ _ _ S1). }
  { intros ((r & c) & -> & [Hne _]%list_elem_of_filter)%list_elem_of_fmap. done. }
  exists st3, (completed_request_status h (table p)). split; [|done].
  unfold PMPI_Test. rewrite (proj2 (Z.eqb_neq _ _) Hn).
  assert (get_real_id h (table p) = Ok MANA_REQUEST_NULL (table p)) as Eg.
  { unfold info in Hi. unfold get_real_id. destruct (entry_of (table p) h) as [e|]; [|done].
    cbn in Hi. by injection Hi as -> _ _. }
  unfold finish_request, on_table. prog_red. destruct p as [tb l]. cbn in *. rewrite Eg, Z.eqb_refl. cbn.
  by rewrite E1, E2, E3.
Qed.

(** ** The theorem *)

Lemma completed_table p p' ss : completed_to p p' ss → table p' = set_nulls ss (table p).
Proof. intros Hc. by rewrite (cm_state _ _ _ Hc). Qed.

Lemma completed_tests p p' free live ss s log :
  vid_ok (table p) free live → completed_to p p' ss → (∀ s, s ∈ ss → s ∈ live) →
  s ∈ ss → is_pending (entry_at (table p) s) = true → tables (table p) log → handle_of (table p) s ≠ MPI_REQUEST_NULL →
  ∃ st' r, PMPI_Test (handle_of (table p) s) p' = Ok (MPI_SUCCESS, true, MPI_REQUEST_NULL, r) (p' <| table := st' |>) ∧
    info st' (handle_of (table p) s) = None.
Proof.
  intros Hok Hc Hl Hs Hp Ht Hn. pose proof (completed_table _ _ _ Hc) as Et.
  pose proof (set_nulls_ok ss _ _ _ Hok Hl) as Hok'. pose proof (Hl _ Hs) as Hs'.
  destruct (inv_live_entry _ _ _ _ _ Hok Hs') as (e & k & He & _).
  destruct (inv_live_entry _ _ _ _ _ Hok' Hs') as (e' & k' & He' & _).
  pose proof (entry_at_nulls ss _ _ _ s Hok Hl) as En. rewrite decide_True in En by done.
  unfold entry_at in En, Hp. rewrite He in En, Hp. rewrite He' in En. cbn in En, Hp. subst e'.
  assert (handle_of (set_nulls ss (table p)) s = handle_of (table p) s) as Eh.
  { unfold handle_of. by rewrite He, He'. }
  destruct (lookup_any _ _ _ _ _ Hok (lookup_live _ _ _ _ _ Hok Hs')) as [_ Hh].
  eapply (null_request_tests p' log (handle_of (table p) s)); [|done| |done|].
  - rewrite Et. by eapply set_nulls_tables.
  - unfold handle_of. rewrite He. cbn. unfold is_pending in Hp. rewrite !andb_true_iff in Hp.
    apply Z.eqb_eq. tauto.
  - rewrite Et, <- Eh, (info_live _ _ _ _ Hok' Hs'), He'. reflexivity.
Qed.

Lemma pending_slots_nodup st live : NoDup (real_at st <$> pending_slots st live) → NoDup (pending_slots st live).
Proof. apply NoDup_fmap_1. Qed.

Lemma taken_nil (ss : list Z) : filter (.∉ ss) ss = [].
Proof.
  apply elem_of_nil_inv. intros x [Hx Hx']%list_elem_of_filter. done.
Qed.

(** What is left of a list after a part of it is taken away. *)
Lemma rest_length (ss done todo : list Z) :
  NoDup ss → ss ≡ₚ done ++ todo → length (filter (.∉ done) ss) = length todo.
Proof.
  intros Hn Hp. apply Permutation_length. rewrite Hp in Hn |- *. apply NoDup_app in Hn as (_ & Hd & _).
  rewrite filter_app, taken_nil, filter_id; [done|]. intros x Hx Hx'. by apply (Hd x).
Qed.

(** C13. Before a checkpoint the pending nonblocking collectives complete.  Let
    [ss] be the slots of the pending requests, in creation order, which are
    active and distinct in the lower half.  (1) If no request needs more than
    [polls] tests, [complete_pending_nonblocking_collectives()] returns, and the
    lower half has completed exactly these requests (a request is never tested
    after it has completed); each of them maps to [MPI_REQUEST_NULL], nothing
    else of the process has changed, and none is pending.  A later
    [MPI_Test()] of such a request returns at once, without a call of the lower
    half, and frees its handle.  (2) [test_pending_nonblocking_collectives()]
    returns the number of requests that are still pending, after it has done the
    same for the others; each that is pending needs fewer tests, so that calling
    it again and again reaches 0. *)
Theorem pending_collectives_complete polls p free live :
  vid_ok (table p) free live →
  let ss := pending_slots (table p) live in
  NoDup (real_at (table p) <$> ss) → (∀ s, s ∈ ss → real_at (table p) s ∈ active (lib p)) →
  ((∀ s, s ∈ ss → (left (real_at (table p) s) (lib p) < polls)%nat) →
   ∃ p', complete_pending_nonblocking_collectives polls p = Ok () p' ∧ completed_to p p' ss ∧
     pending_collective_requests MANA_REQUEST_NULL (table p') = Ok [] (table p') ∧
     ∀ log s, tables (table p) log → s ∈ ss → handle_of (table p) s ≠ MPI_REQUEST_NULL →
       ∃ st' r, PMPI_Test (handle_of (table p) s) p' = Ok (MPI_SUCCESS, true, MPI_REQUEST_NULL, r) (p' <| table := st' |>) ∧
         info st' (handle_of (table p) s) = None) ∧
  ∃ p' done, test_pending_nonblocking_collectives p = Ok (Z.of_nat (length (pending_slots (table p') live))) p' ∧
    completed_to p p' done ∧ (∀ s, s ∈ done → s ∈ ss) ∧
    pending_slots (table p') live = filter (.∉ done) ss ∧
    ∀ s, s ∈ ss → s ∉ done → (left (real_at (table p) s) (lib p') < left (real_at (table p) s) (lib p))%nat.
Proof.
  intros Hok ss Hnd Hact.
  assert (ready live ss (table p) (lib p)) as Hr by (split; [done|intros s Hs; by apply (pending_slots_live _ _ _ Hs)..|done]).
  pose proof (pending_run _ _ _ Hok) as Ep. split.
  - intros Hf. destruct (complete_loop_run polls live free ss p Hok Hr Hf) as (p' & E & Hc).
    exists p'. split; [|split; [done|]].
    { unfold complete_pending_nonblocking_collectives, on_table. prog_red. rewrite Ep. destruct p. exact E. }
    pose proof (set_nulls_ok ss _ _ _ Hok (rd_live _ _ _ _ Hr)) as Hok'.
    rewrite (completed_table _ _ _ Hc), (pending_run _ _ _ Hok'), (pending_nulls _ _ _ _ Hok (rd_live _ _ _ _ Hr)).
    split; [by rewrite taken_nil|].
    intros log s Ht Hs. eapply completed_tests; try done; apply Hr. done.
  - pose proof (few_slots _ _ _ Hok) as Hb.
    destruct (test_each_run live free ss 0 p Hok Hr) as (p' & done & todo & E & Hp & Hc & Ht); [lia|fold ss in Hb; lia|].
    assert (∀ s, s ∈ done → s ∈ ss) as Hd by (intros s Hs; rewrite Hp; apply elem_of_app; by left).
    exists p', done. rewrite (completed_table _ _ _ Hc), (pending_nulls _ _ _ _ Hok) by (intros s Hs; by apply Hr, Hd).
    fold ss. rewrite (rest_length ss done todo (pending_slots_nodup _ _ Hnd) Hp). split_and!; try done.
    + unfold test_pending_nonblocking_collectives, on_table. prog_red. rewrite Ep. destruct p. exact E.
    + intros s Hs Hn. apply Ht. rewrite Hp in Hs. by apply elem_of_app in Hs as [|].
Qed.

End correctness.

(** ** Witness *)

(** A lower half that completes each request after a number of tests. *)
#[local] Instance countdown `{MpiLib} : P2pLib (gmap Z nat) := {|
  MANA_REQUEST_NULL := 0;
  MANA_BYTE := 1;
  lh_Type_size _ l := ((MPI_SUCCESS, 1), l);
  lh_Iprobe _ _ _ l := ((MPI_SUCCESS, false, empty_status), l);
  lh_Recv_bytes _ _ _ _ l := ((MPI_SUCCESS, []), l);
  lh_Recv _ _ _ _ _ _ l := ((MPI_SUCCESS, empty_status), l);
  lh_Irecv _ _ _ _ _ _ l := ((MPI_SUCCESS, 0), l);
  lh_Isend _ _ _ _ _ _ _ l := ((MPI_SUCCESS, 0), l);
  lh_Send _ _ _ _ _ _ _ l := (MPI_SUCCESS, l);
  lh_Test r l :=
    match l !! r with
    | Some (S n) => ((MPI_SUCCESS, false, empty_status), <[r := n]> l)
    | Some O => ((MPI_SUCCESS, true, empty_status), delete r l)
    | None => ((1, false, empty_status), l)
    end;
  lh_Request_get_status _ l := ((MPI_SUCCESS, false, empty_status), l);
  lh_Unpack _ _ _ _ _ _ l := (MPI_SUCCESS, l)
|}.

#[local] Instance countdown_laws `{MpiLib} : NbcLaws (gmap Z nat) dom (λ r l, default O (l !! r)).
Proof.
  split. intros r l rc flag st l' [n Hn]%elem_of_dom. cbn. rewrite Hn. destruct n as [|n]; intros [= <- <- <- <-].
  - split; [done|]. rewrite dom_delete_L. split; [done|]. split; [done|].
    intros r' Hr'. by rewrite lookup_delete_ne by set_solver.
  - split; [done|]. split; [apply dom_insert_lookup_L; by eexists|]. rewrite lookup_insert_eq. split; [cbn; lia|].
    intros r' _. destruct (decide (r' = r)) as [->|]; [|by rewrite lookup_insert_ne by congruence].
    rewrite lookup_insert_eq, Hn. cbn. lia.
Qed.

(** A table whose request is that of a collective, which completes at its third
    test. *)
Definition nbc_table : vid_state :=
  match sample_run init_vid with
  | Ok _ st => update_entry 0 (λ e, e <| collective := true |>) st
  | _ => init_vid
  end.
Definition nbc_process : p2p (gmap Z nat) :=
  mk_p2p nbc_table {[100 := 2%nat]} 0 0 [] 0 (mk_pending_recv PENDING_RECV_IDLE 0 0 0 0 0) false P2P_WAIT_BLOCKING
    [] [] [] 0 0 [] 0.

Lemma nbc_table_ok : ∃ free, vid_ok nbc_table free [0; 1].
Proof.
  destruct sample_run_ok as (r & c & st & free & live & E & Hok & -> & _). exists free.
  unfold nbc_table. rewrite E. apply update_live_ok; [done|by left|]. intros e. by split_and!.
Qed.

Lemma nbc_pending : @pending_slots _ (@countdown sample_lib) nbc_table [0; 1] = [0] ∧ real_at nbc_table 0 = 100.
Proof. vm_compute. done. Qed.

Lemma pending_collectives_complete_witness :
  (∃ p', @complete_pending_nonblocking_collectives sample_lib _ (@countdown sample_lib) 3 nbc_process = Ok () p' ∧ lib p' = ∅) ∧
  ∃ p', @test_pending_nonblocking_collectives sample_lib _ (@countdown sample_lib) nbc_process = Ok 1 p'.
Proof.
  destruct nbc_table_ok as [free Hok]. destruct nbc_pending as [Ep Er].
  destruct (@pending_collectives_complete sample_lib _ (@countdown sample_lib) _ _ (@countdown_laws sample_lib) 3 nbc_process free [0; 1] Hok)
    as [H1 H2].
  - change (table nbc_process) with nbc_table. rewrite Ep. cbn. apply NoDup_singleton.
  - change (table nbc_process) with nbc_table. rewrite Ep. intros s ->%list_elem_of_singleton. rewrite Er. set_solver.
  - change (table nbc_process) with nbc_table in *. rewrite Ep in *. split.
    + destruct H1 as (p1 & E1 & C1 & _).
      * intros s ->%list_elem_of_singleton. rewrite Er. cbn. rewrite lookup_singleton_eq. cbn. lia.
      * exists p1. split; [done|]. pose proof (cm_active _ _ _ C1) as Ha.
        apply dom_empty_inv_L. rewrite Ha. change (table nbc_process) with nbc_table. cbn [fmap list_fmap]. rewrite Er.
        cbn [lib nbc_process]. rewrite dom_singleton_L. set_solver.
    + clear H1. eexists. vm_compute. reflexivity.
Defined.
