(* ===== verification/RestartFds.v ===== *)
(** * Numbers of file descriptors across a restart
    ([src/src/mpi_plugin.cpp], [src/scripts/mana_restart],
    [src/src/lower-half/lower-half.cpp])

    A checkpoint writes the numbers of the open file descriptors to
    [header.mana]; [mana_restart] reads the headers and passes the numbers to the
    new lower half in [MANA_RESERVED_FDS]; [reserve_restart_fds()] puts a
    placeholder at each, so that the MPI library gets none of them; after DMTCP
    has restored the upper half's descriptors, [closeReservedFds()] closes the
    placeholders that are left.

    Text is a list of characters.  The table of a process maps the open
    descriptors to their files (device and inode).  [PROTECTED_FD_START] and
    [PROTECTED_FD_END] are DMTCP's; [memfd_create] is the kernel's. *)
From S2P Require Import Prelude Mpi P2p.
From Stdlib Require Import Ascii.

(** ** Numbers as text *)

Definition text : Type := list ascii.
Definition comma : ascii := ","%char.
Definition equals : ascii := "="%char.
Definition newline : ascii := "010"%char.
Definition str (s : string) : text := String.list_ascii_of_string s.

Definition is_digit (c : ascii) : bool := (48 <=? Z.of_nat (nat_of_ascii c)) && (Z.of_nat (nat_of_ascii c) <=? 57).
Definition digit_value (c : ascii) : Z := Z.of_nat (nat_of_ascii c) - 48.
Definition is_space (c : ascii) : bool :=
  bool_decide (c = " "%char) || (9 <=? Z.of_nat (nat_of_ascii c)) && (Z.of_nat (nat_of_ascii c) <=? 13).

(** [o << n] for [0 <= n < 10^10]. *)
Fixpoint decimal (fuel : nat) (n : Z) (acc : text) : text :=
  match fuel with
  | O => acc
  | S fuel' =>
      let acc' := ascii_of_nat (Z.to_nat (48 + n mod 10)) :: acc in
      if n <? 10 then acc' else decimal fuel' (n / 10) acc'
  end.
Definition print_int (n : Z) : text := decimal 10 n [].

Fixpoint join (l : list text) : text :=
  match l with
  | [] => []
  | [x] => x
  | x :: l' => x ++ comma :: join l'
  end.

(** The value of the digits at the start of a text, from [acc]; whether there
    is one; and the rest. *)
Fixpoint eat_digits (p : text) (acc : Z) (any : bool) : Z * bool * text :=
  match p with
  | c :: p' => if is_digit c then eat_digits p' (acc * 10 + digit_value c) true else (acc, any, p)
  | [] => (acc, any, [])
  end.

Fixpoint skip_spaces (p : text) : text :=
  match p with
  | c :: p' => if is_space c then skip_spaces p' else p
  | [] => []
  end.

(** [strtol(p, &end, 10)]: the value and [end], or [None] if [end == p]. *)
Definition strtol (p : text) : option (Z * text) :=
  let p1 := skip_spaces p in
  let '(neg, p2) := match p1 with
    | c :: p' => if bool_decide (c = "-"%char) then (true, p') else if bool_decide (c = "+"%char) then (false, p') else (false, p1)
    | [] => (false, p1)
    end in
  let '(v, any, rest) := eat_digits p2 0 false in
  if any then Some (Z.max (- 2 ^ 63) (Z.min (2 ^ 63 - 1) (if neg then - v else v)), rest) else None.

(** ** The header of a checkpoint *)

(** [save_mana_header()]: [fd] is the descriptor of the file, -1 if it cannot be
    opened, and [ListOpenFds] the numbers of the open descriptors. *)
Definition save_mana_header (dmtcp_is_protected_fd : Z → bool) (g_p2p_wait : p2p_wait_t) (fd : Z) (ListOpenFds : list Z)
  : option text :=
  if fd =? -1 then None else
  Some (str "p2p_wait=" ++ (if bool_decide (g_p2p_wait = P2P_WAIT_BLOCKING) then str "blocking" else str "polling") ++
    newline :: str "fds=" ++
    join (print_int <$> filter (λ open_fd, 2 < open_fd ∧ open_fd ≠ fd ∧ dmtcp_is_protected_fd open_fd = false) ListOpenFds) ++
    [newline]).

(** ** mana_restart *)

(** [l.split(c)]. *)
Fixpoint split (c : ascii) (l : text) : list text :=
  match l with
  | [] => [[]]
  | x :: l' =>
      if bool_decide (x = c) then [] :: split c l'
      else match split c l' with w :: ws => (x :: w) :: ws | [] => [[x]] end
  end.
(** [line.strip().split("=", 1)] if ["=" in line]. *)
Fixpoint split_once (c : ascii) (l : text) : option (text * text) :=
  match l with
  | [] => None
  | x :: l' => if bool_decide (x = c) then Some ([], l') else '(a, b) ← split_once c l'; Some (x :: a, b)
  end.
Definition strip (l : text) : text := reverse (skip_spaces (reverse (skip_spaces l))).

(** A later line for the same name wins. *)
Definition read_header (f : text) : list (text * text) :=
  omap (λ line, if bool_decide (equals ∈ line) then split_once equals (strip line) else None) (split newline f).
Definition get_field (name : text) (fields : list (text * text)) : option text :=
  snd <$> last (filter (λ p, p.1 = name) fields).

Definition isdigit (x : text) : bool := negb (bool_decide (x = [])) && forallb is_digit x.
Definition python_int (x : text) : Z := (eat_digits x 0 false).1.1.

Definition header_fds (f : text) : list Z :=
  python_int <$> filter (λ x, isdigit x = true) (split comma (default [] (get_field (str "fds") (read_header f)))).
(** The value of [MANA_RESERVED_FDS], [None] if it is not set. *)
Definition MANA_RESERVED_FDS (headers : list text) : option text :=
  let reserved_fds : gset Z := list_to_set (headers ≫= header_fds) in
  if bool_decide (reserved_fds = ∅) then None
  else Some (join (print_int <$> merge_sort Z.le (elements reserved_fds))).

(** [p2p_wait] of the first header that has one. *)
Definition header_p2p_wait (headers : list text) : option text :=
  head (omap (λ f, match get_field (str "p2p_wait") (read_header f) with
    | Some w => if bool_decide (w = str "polling" ∨ w = str "blocking") then Some w else None
    | None => None
    end) headers).

(** ** The table of file descriptors *)

(** [reserved_fd] is [lh_info]'s, with inode 0 before a restart reserves. *)
Record fd_state := mk_fds {
  fd_table : gmap Z (Z * Z);
  rlim_cur : Z;
  rlim_max : Z;
  reserved_fd : Z * Z
}.
#[export] Instance eta_fd_state : Eta fd_state := λ s, mk_fds (fd_table s) (rlim_cur s) (rlim_max s) (reserved_fd s).

Definition RLIM_INFINITY : Z := 2 ^ 64 - 1.

(** [fcntl(fd, F_GETFD) != -1]. *)
Definition is_open (s : fd_state) (fd : Z) : bool := bool_decide (is_Some (fd_table s !! fd)).
(** A number must be below the soft limit. *)
Definition dup2 (oldfd newfd : Z) : prog fd_state unit := modify (λ s,
  match fd_table s !! oldfd with
  | Some f => if (0 <=? newfd) && (newfd <? rlim_cur s) then s <| fd_table ::= <[newfd := f]> |> else s
  | None => s
  end).
Definition close (fd : Z) : prog fd_state unit := modify (λ s, s <| fd_table ::= delete fd |>).

(** A new file and its descriptor, -1 on failure; and whether [fstat()] fails. *)
Class FdKernel := { memfd_create : fd_state → Z * (Z * Z); fstat_fails : Z → fd_state → bool }.
(** The descriptor is the lowest that is free, and the file is new. *)
Class FdLaws (K : FdKernel) : Prop := {
  memfd_ok s fd f : memfd_create s = (fd, f) → fd ≠ -1 →
    0 ≤ fd < rlim_cur s ∧ fd_table s !! fd = None ∧ (∀ n, 0 ≤ n < fd → is_Some (fd_table s !! n)) ∧
    (∀ n, fd_table s !! n ≠ Some f) ∧ f.2 ≠ 0
}.

Section lower_half.
Context `{FdKernel} (PROTECTED_FD_START PROTECTED_FD_END : Z).

(** ** [reserve_restart_fds()] *)

Definition room : Z := 64.

Definition may_reserve (s : fd_state) (fd : Z) : bool :=
  (2 <? fd) && ((fd <? PROTECTED_FD_START) || (PROTECTED_FD_END <? fd)) && negb (is_open s (s32 fd)).

(** The loop over the list; [None] is an endless loop. *)
Fixpoint parse_fds (fuel : nat) (s : fd_state) (p : text) : option (list Z) :=
  match p with
  | [] => Some []
  | _ =>
      match fuel with
      | O => None
      | S fuel' =>
          match strtol p with
          | None => Some []
          | Some (fd, end_) =>
              let p' := match end_ with c :: e => if bool_decide (c = comma) then e else end_ | [] => [] end in
              fds ← parse_fds fuel' s p';
              Some (if may_reserve s fd then s32 fd :: fds else fds)
          end
      end
  end.

(** [std::unique]. *)
Fixpoint unique (l : list Z) : list Z :=
  match l with
  | x :: ((y :: _) as l') => if x =? y then unique l' else x :: unique l'
  | _ => l
  end.

Definition count_free_below (s : fd_state) (fds : list Z) : Z :=
  Z.of_nat (length (filter (λ fd, (fd ∉ fds) ∧ is_open s fd = false) (seqZ 3 (PROTECTED_FD_START - 3)))).

Definition raise_limit (top : Z) : prog fd_state unit := modify (λ s,
  if negb (rlim_cur s =? RLIM_INFINITY) && (rlim_cur s <=? top) then
    let need := top + 1 + room in
    s <| rlim_cur := if (rlim_max s =? RLIM_INFINITY) || (need <=? rlim_max s) then need else rlim_max s |>
  else s).

Definition reserve_fds (fds : list Z) : prog fd_state unit :=
  raise_limit (default 0 (last fds)) ;;
  s ← get_state;
  let '(placeholder, file) := memfd_create s in
  if placeholder =? -1 then mret () else
  modify (λ s, s <| fd_table ::= <[placeholder := file]> |>) ;;
  s ← get_state;
  if fstat_fails placeholder s then mret () else
  let st := default (0, 0) (fd_table s !! placeholder) in
  modify (λ s, s <| reserved_fd := st |>) ;;
  for_each fds (λ fd, if fd =? placeholder then mret () else dup2 placeholder fd).

Definition reserve_restart_fds (list : option text) : prog fd_state unit :=
  match list with
  | None | Some [] => mret ()
  | Some list =>
      s ← get_state;
      match parse_fds (length list) s list with
      | None => spin
      | Some [] => mret ()
      | Some fds =>
          let fds := unique (merge_sort Z.le fds) in
          if count_free_below s fds <? room then mret () else reserve_fds fds
      end
  end.

End lower_half.

(** ** [closeReservedFds()] *)

Definition closeReservedFds (ListOpenFds : list Z) : prog fd_state unit :=
  s ← get_state;
  if (reserved_fd s).2 =? 0 then mret () else
  for_each ListOpenFds (λ fd, s ← get_state;
    if bool_decide (fd_table s !! fd = Some (reserved_fd s)) then close fd else mret ()) ;;
  modify (λ s, s <| reserved_fd := ((reserved_fd s).1, 0) |>).

(** ** Printing and reading numbers *)

Definition digit_char (d : Z) : ascii := ascii_of_nat (Z.to_nat (48 + d)).

Lemma digit_char_ok d : 0 ≤ d < 10 → is_digit (digit_char d) = true ∧ digit_value (digit_char d) = d.
Proof.
  intros Hd. assert (d ∈ seqZ 0 10) as Hin by (apply elem_of_seqZ; lia).
  revert d Hd Hin. cut (Forall (λ d, is_digit (digit_char d) = true ∧ digit_value (digit_char d) = d) (seqZ 0 10)).
  { intros Hf d _ Hin. rewrite Forall_forall in Hf. by apply Hf. }
  vm_compute. repeat constructor.
Qed.

Lemma decimal_digits fuel n acc : 0 ≤ n → ∃ l, decimal fuel n acc = l ++ acc ∧ Forall (λ c, is_digit c = true) l ∧ (fuel ≠ O → l ≠ []).
Proof.
  revert n acc. induction fuel as [|fuel IH]; intros n acc Hn; [by exists []|]. cbn [decimal].
  assert (is_digit (digit_char (n mod 10)) = true) as Hd by (apply digit_char_ok, Z.mod_pos_bound; lia).
  destruct (n <? 10).
  - exists [digit_char (n mod 10)]. split; [done|]. by split; [constructor|].
  - destruct (IH (n / 10) (digit_char (n mod 10) :: acc)) as (l & E & Hl & _); [apply Z.div_pos; lia|].
    exists (l ++ [digit_char (n mod 10)]). split; [by rewrite <- app_assoc|]. split; [by apply Forall_app; split; [|constructor]|].
    by destruct l.
Qed.

Lemma eat_decimal fuel n acc : (fuel ≠ O)%nat → 0 ≤ n < 10 ^ Z.of_nat fuel →
  ∃ k, 0 ≤ k ∧ ∀ a any, eat_digits (decimal fuel n acc) a any = eat_digits acc (a * 10 ^ k + n) true.
Proof.
  revert n acc. induction fuel as [|fuel IH]; intros n acc Hf Hn; [done|]. cbn [decimal].
  pose proof (Z.mod_pos_bound n 10 ltac:(lia)) as Hm. destruct (digit_char_ok (n mod 10) Hm) as [Hd Hv].
  fold (digit_char (n mod 10)). destruct (Z.ltb_spec n 10) as [Hlt|Hge].
  - exists 1. split; [lia|]. intros a any. cbn [eat_digits]. rewrite Hd, Hv, Z.mod_small by lia. done.
  - assert (0 ≤ n / 10 < 10 ^ Z.of_nat fuel) as Hn'.
    { split; [apply Z.div_pos; lia|]. apply Z.div_lt_upper_bound; [lia|]. rewrite <- Z.pow_succ_r, <- Nat2Z.inj_succ by lia. lia. }
    assert (fuel ≠ O) as Hf' by (intros ->; cbn in Hn'; pose proof (Z.div_le_lower_bound n 10 1 ltac:(lia) ltac:(lia)); lia).
    destruct (IH (n / 10) (digit_char (n mod 10) :: acc) Hf' Hn') as (k & Hk & E). exists (k + 1). split; [lia|].
    intros a any. rewrite E. cbn [eat_digits]. rewrite Hd, Hv, Z.pow_add_r by lia. f_equal.
    pose proof (Z.div_mod n 10 ltac:(lia)). lia.
Qed.

(** A number, and what follows it. *)
Lemma print_int_digits n : 0 ≤ n → Forall (λ c, is_digit c = true) (print_int n) ∧ print_int n ≠ [].
Proof.
  intros Hn. destruct (decimal_digits 10 n [] Hn) as (l & E & Hl & Hne). unfold print_int. rewrite E, app_nil_r. by split; [|apply Hne].
Qed.

Lemma decimal_app fuel n acc rest : decimal fuel n acc ++ rest = decimal fuel n (acc ++ rest).
Proof. revert n acc. induction fuel as [|fuel IH]; intros n acc; [done|]. cbn [decimal]. destruct (n <? 10); [done|]. by rewrite IH. Qed.

Definition ends_number (rest : text) : Prop := match rest with c :: _ => is_digit c = false | [] => True end.

Lemma eat_print_int n rest any :
  0 ≤ n < 2 ^ 31 → ends_number rest → eat_digits (print_int n ++ rest) 0 any = (n, true, rest).
Proof.
  intros Hn Hr. unfold print_int. rewrite decimal_app.
  destruct (eat_decimal 10 n ([] ++ rest)) as (k & _ & ->); [done|lia|]. cbn [app].
  destruct rest as [|c rest]; cbn in *; [done|]. by rewrite Hr.
Qed.

Lemma digit_no_space c : is_digit c = true → is_space c = false ∧ c ≠ "-"%char ∧ c ≠ "+"%char ∧ c ≠ comma ∧ c ≠ newline ∧ c ≠ equals.
Proof.
  intros Hd. assert (∀ x, is_digit x = false → c ≠ x) as Hne by (intros x Hx ->; congruence).
  split; [|by repeat split; apply Hne]. unfold is_digit, is_space in *. apply andb_prop in Hd as [H1%Z.leb_le H2%Z.leb_le].
  rewrite bool_decide_eq_false_2 by (by apply Hne). cbn [orb]. apply andb_false_intro2, Z.leb_gt. lia.
Qed.

Lemma strtol_print_int n rest : 0 ≤ n < 2 ^ 31 → ends_number rest → strtol (print_int n ++ rest) = Some (n, rest).
Proof.
  intros Hn Hr. pose proof (print_int_digits n ltac:(lia)) as [Hd Hne]. pose proof (eat_print_int n rest false Hn Hr) as He.
  destruct (print_int n) as [|c p]; [done|]. apply Forall_cons in Hd as [Hc _].
  destruct (digit_no_space c Hc) as (Hs & Hm & Hp & _). unfold strtol. cbn [app skip_spaces] in *. rewrite Hs.
  rewrite !bool_decide_eq_false_2 by done. rewrite He. repeat f_equal. lia.
Qed.

(** ** The list of numbers *)

Definition numbers (l : list Z) : Prop := ∀ n, n ∈ l → 0 ≤ n < 2 ^ 31.

Lemma join_cons x l : join (x :: l) = x ++ match l with [] => [] | _ => comma :: join l end.
Proof. destruct l; [by rewrite app_nil_r|done]. Qed.

Lemma numbers_cons n l : numbers (n :: l) → 0 ≤ n < 2 ^ 31 ∧ numbers l.
Proof. intros Hl. split; [apply Hl; by left|]. intros m Hm. apply Hl. by right. Qed.

Lemma parse_join START END fuel s l :
  numbers l → (length (join (print_int <$> l)) ≤ fuel)%nat →
  parse_fds START END fuel s (join (print_int <$> l)) = Some (filter (λ n, may_reserve START END s n = true) l).
Proof.
  revert fuel. induction l as [|n l IH]; intros fuel Hl Hf; [by destruct fuel|].
  apply numbers_cons in Hl as [Hn Hl]. cbn [fmap list_fmap] in *. rewrite join_cons in *.
  set (rest := match print_int <$> l with [] => [] | _ => comma :: join (print_int <$> l) end) in *.
  assert (ends_number rest) as Hr by (unfold rest; by destruct (print_int <$> l)).
  pose proof (print_int_digits n ltac:(lia)) as [_ Hne]. pose proof (strtol_print_int n rest Hn Hr) as Hs.
  rewrite length_app in Hf. destruct (print_int n) as [|c p] eqn:Ep; [done|]. cbn [length app] in *.
  destruct fuel as [|fuel]; [lia|]. cbn [parse_fds]. rewrite Hs.
  assert (match rest with c :: e => if bool_decide (c = comma) then e else rest | [] => [] end = join (print_int <$> l)) as ->.
  { unfold rest. destruct l; [done|]. cbn [fmap list_fmap]. by rewrite bool_decide_eq_true_2. }
  rewrite IH; [|done|].
  - cbn [mbind option_bind]. rewrite filter_cons, s32_small by lia. repeat case_decide; by destruct (may_reserve _ _ _ _).
  - assert (length (join (print_int <$> l)) ≤ length rest)%nat; [|lia]. unfold rest. destruct l; cbn [fmap list_fmap length]; [done|lia].
Qed.

(** The loop ends for every text: each number read makes it shorter. *)
Lemma skip_spaces_length p : (length (skip_spaces p) ≤ length p)%nat.
Proof. induction p as [|c p IH]; cbn; [done|]. destruct (is_space c); cbn; lia. Qed.

Lemma eat_digits_length p a any v any' rest :
  eat_digits p a any = (v, any', rest) → (length rest ≤ length p)%nat ∧ (any = false → any' = true → (length rest < length p)%nat).
Proof.
  revert a any. induction p as [|c p IH]; cbn; intros a any.
  { intros [= <- <- <-]. split; [done|]. congruence. }
  destruct (is_digit c).
  - intros E. destruct (IH _ _ E) as [H1 _]. cbn [length]. split; [lia|intros _ _; lia].
  - intros [= <- <- <-]. cbn. split; [lia|]. congruence.
Qed.

Lemma strtol_length p v rest : strtol p = Some (v, rest) → (length rest < length p)%nat.
Proof.
  unfold strtol. pose proof (skip_spaces_length p) as Hl. destruct (skip_spaces p) as [|c q]; [done|]. cbn [length] in Hl.
  case_bool_decide; [|case_bool_decide]; destruct (eat_digits _ 0 false) as [[v' any] rest'] eqn:E;
    (destruct any; [|done]); intros [= <- <-]; apply eat_digits_length in E as [_ E]; specialize (E eq_refl eq_refl); cbn in E; lia.
Qed.

Lemma parse_fds_ends START END fuel s p : (length p ≤ fuel)%nat → is_Some (parse_fds START END fuel s p).
Proof.
  revert p. induction fuel as [|fuel IH]; intros [|c p] Hf; cbn in Hf; try (by eexists); [lia|]. cbn [parse_fds].
  destruct (strtol (c :: p)) as [[fd end_]|] eqn:E; [|by eexists]. apply strtol_length in E. cbn in E.
  destruct (IH (match end_ with c :: e => if bool_decide (c = comma) then e else end_ | [] => [] end)) as [fds ->].
  - destruct end_ as [|d e]; [cbn; lia|]. case_bool_decide; cbn in *; lia.
  - by eexists.
Qed.

(** ** The header, read by mana_restart *)

(** A text without the separator. *)
Lemma split_plain c l : c ∉ l → split c l = [l].
Proof.
  induction l as [|x l IH]; intros Hc; [done|]. apply not_elem_of_cons in Hc as [Hx Hc]. cbn [split].
  rewrite bool_decide_eq_false_2 by congruence. by rewrite IH.
Qed.
Lemma split_app c l k : c ∉ l → split c (l ++ c :: k) = l :: split c k.
Proof.
  induction l as [|x l IH]; intros Hc; cbn [app split].
  - by rewrite bool_decide_eq_true_2.
  - apply not_elem_of_cons in Hc as [Hx Hc]. rewrite bool_decide_eq_false_2 by congruence. by rewrite IH.
Qed.
Lemma split_once_app c l k : c ∉ l → split_once c (l ++ c :: k) = Some (l, k).
Proof.
  induction l as [|x l IH]; intros Hc; cbn [app split_once].
  - by rewrite bool_decide_eq_true_2.
  - apply not_elem_of_cons in Hc as [Hx Hc]. rewrite bool_decide_eq_false_2 by congruence. by rewrite IH.
Qed.

Lemma strip_plain c l d : is_space c = false → is_space d = false → strip (c :: l ++ [d]) = c :: l ++ [d].
Proof.
  intros Hc Hd. unfold strip. cbn [skip_spaces]. rewrite Hc. rewrite reverse_cons, reverse_app. cbn [reverse rev_append app].
  change (reverse [d]) with [d]. cbn [app skip_spaces]. rewrite Hd.
  rewrite app_comm_cons. change (d :: reverse l) with ([d] ++ reverse l).
  rewrite reverse_app, reverse_app, reverse_involutive. done.
Qed.

Lemma print_int_char n c : 0 ≤ n → is_digit c = false → c ∉ print_int n.
Proof. intros [Hd _]%print_int_digits Hc Hin. rewrite Forall_forall in Hd. rewrite (Hd c Hin) in Hc. done. Qed.

Lemma join_char l c : numbers l → is_digit c = false → c ≠ comma → c ∉ join (print_int <$> l).
Proof.
  intros Hl Hc Hne. induction l as [|n l IH]; [by apply not_elem_of_nil|]. apply numbers_cons in Hl as [Hn Hl].
  cbn [fmap list_fmap]. rewrite join_cons. apply not_elem_of_app. split; [apply print_int_char; [lia|done]|].
  destruct l; [by apply not_elem_of_nil|]. apply not_elem_of_cons. split; [done|]. by apply IH.
Qed.

Lemma split_join l : numbers l → l ≠ [] → split comma (join (print_int <$> l)) = print_int <$> l.
Proof.
  induction l as [|n l IH]; intros Hl Hne; [done|]. apply numbers_cons in Hl as [Hn Hl]. cbn [fmap list_fmap].
  rewrite join_cons. assert (comma ∉ print_int n) as Hc by (apply print_int_char; [lia|done]).
  destruct l as [|m l]; cbn [fmap list_fmap]; [by rewrite app_nil_r, split_plain|].
  rewrite split_app by done. f_equal. by apply IH.
Qed.

Lemma isdigit_print_int n : 0 ≤ n → isdigit (print_int n) = true.
Proof.
  intros [Hd Hne]%print_int_digits. unfold isdigit. rewrite bool_decide_eq_false_2 by done. cbn [negb andb].
  apply forallb_forall. intros c Hc%list_elem_of_In. rewrite Forall_forall in Hd. by apply Hd.
Qed.

Lemma python_int_print_int n : 0 ≤ n < 2 ^ 31 → python_int (print_int n) = n.
Proof. intros Hn. unfold python_int. pose proof (eat_print_int n [] false Hn I) as E. rewrite app_nil_r in E. by rewrite E. Qed.

(** The last character of a list of numbers is a digit. *)
Lemma join_last l : numbers l → join (print_int <$> l) = [] ∧ l = [] ∨ ∃ k d, join (print_int <$> l) = k ++ [d] ∧ is_digit d = true.
Proof.
  intros Hl. induction l as [|n l IH]; [by left|]. right. apply numbers_cons in Hl as [Hn Hl].
  cbn [fmap list_fmap]. rewrite join_cons. pose proof (print_int_digits n ltac:(lia)) as [Hd Hne].
  destruct l as [|m l]; cbn [fmap list_fmap].
  - destruct (exists_last Hne) as (k & d & E). rewrite E in *. exists k, d. rewrite app_nil_r. split; [done|].
    rewrite Forall_forall in Hd. apply Hd, elem_of_app. right. by left.
  - destruct (IH Hl) as [[_ ?]|(k & d & E & Hd')]; [done|]. exists (print_int n ++ comma :: k), d. split; [|done].
    change (print_int m :: (print_int <$> l)) with (print_int <$> m :: l). rewrite E. by rewrite <- app_assoc.
Qed.

Definition wait_text (w : p2p_wait_t) : text := if bool_decide (w = P2P_WAIT_BLOCKING) then str "blocking" else str "polling".
Definition header_text (w : p2p_wait_t) (l : list Z) : text :=
  str "p2p_wait=" ++ wait_text w ++ newline :: str "fds=" ++ join (print_int <$> l) ++ [newline].

Lemma fds_line l : numbers l →
  strip (str "fds=" ++ join (print_int <$> l)) = str "fds=" ++ join (print_int <$> l).
Proof.
  intros Hl. destruct (join_last l Hl) as [[-> _]|(k & d & -> & Hd)]; [reflexivity|].
  destruct (digit_no_space d Hd) as (Hs & _).
  replace (str "fds=" ++ k ++ [d]) with ("f"%char :: (str "ds=" ++ k) ++ [d]) by (by rewrite <- app_assoc).
  by apply strip_plain.
Qed.

Lemma read_header_text w l : numbers l →
  read_header (header_text w l) = [(str "p2p_wait", wait_text w); (str "fds", join (print_int <$> l))].
Proof.
  intros Hl. unfold read_header, header_text. rewrite app_assoc, split_app by (by destruct w; vm_compute; set_solver).
  rewrite app_assoc. rewrite split_app; [|apply not_elem_of_app; split; [vm_compute; set_solver|by apply join_char]].
  cbn [omap list_omap]. rewrite (fds_line l Hl), (bool_decide_eq_true_2 (equals ∈ str "fds=" ++ _)).
  - replace (str "fds=" ++ join (print_int <$> l)) with (str "fds" ++ equals :: join (print_int <$> l)) by done.
    rewrite split_once_app by (vm_compute; set_solver). by destruct w.
  - apply elem_of_app. left. vm_compute. set_solver.
Qed.

Lemma header_text_fds w l : numbers l → header_fds (header_text w l) = l.
Proof.
  intros Hl. unfold header_fds. rewrite read_header_text by done. cbn [get_field]. unfold get_field.
  replace (filter _ _) with [(str "fds", join (print_int <$> l))] by (by destruct w). cbn.
  destruct (decide (l = [])) as [->|Hne]; [reflexivity|]. rewrite split_join by done.
  rewrite filter_id.
  - rewrite <- list_fmap_compose. rewrite <- (list_fmap_id l) at 2. apply list_fmap_ext. intros i n Hn%list_elem_of_lookup_2. cbn.
    by apply python_int_print_int, Hl.
  - intros x (n & -> & Hn)%list_elem_of_fmap. apply isdigit_print_int. by apply Hl.
Qed.

Lemma header_text_wait w l hs : numbers l → header_p2p_wait (header_text w l :: hs) = Some (wait_text w).
Proof.
  intros Hl. unfold header_p2p_wait. cbn [omap list_omap]. rewrite read_header_text by done. by destruct w.
Qed.

(** ** Sorting *)

Lemma unique_elem l n : n ∈ unique l ↔ n ∈ l.
Proof.
  induction l as [|x [|y l] IH]; [done|done|]. change (unique (x :: y :: l)) with (if x =? y then unique (y :: l) else x :: unique (y :: l)).
  destruct (Z.eqb_spec x y) as [->|]; rewrite ?elem_of_cons, IH; rewrite ?elem_of_cons; tauto.
Qed.
Lemma unique_last l : last (unique l) = last l.
Proof.
  induction l as [|x [|y l] IH]; [done|done|]. change (unique (x :: y :: l)) with (if x =? y then unique (y :: l) else x :: unique (y :: l)).
  rewrite last_cons_cons, <- IH. destruct (Z.eqb_spec x y) as [->|]; [done|].
  destruct (unique (y :: l)) as [|z k] eqn:E; [|done]. exfalso. apply (not_elem_of_nil y). rewrite <- E. apply unique_elem. by left.
Qed.
Lemma sorted_last l n : StronglySorted Z.le l → n ∈ l → n ≤ default 0 (last l).
Proof.
  intros Hs. induction Hs as [|x l Hs IH Hf]; [by intros ?%not_elem_of_nil|]. destruct l as [|y l].
  - by intros ->%list_elem_of_singleton.
  - rewrite last_cons_cons. intros [->|Hn]%elem_of_cons; [|by apply IH].
    destruct (last (y :: l)) as [m|] eqn:E; [|by apply last_None in E]. rewrite Forall_forall in Hf. apply Hf.
    by apply last_Some_elem_of.
Qed.

(** [fds] as the two calls of the library leave it. *)
Lemma sorted_fds l : (∀ n, n ∈ unique (merge_sort Z.le l) ↔ n ∈ l) ∧
  ∀ n, n ∈ l → n ≤ default 0 (last (unique (merge_sort Z.le l))).
Proof.
  assert (∀ n, n ∈ merge_sort Z.le l ↔ n ∈ l) as Hm by (intros n; by rewrite (merge_sort_Permutation Z.le l)).
  split; intros n; [by rewrite unique_elem|]. intros Hn. rewrite unique_last. apply sorted_last; [|by apply Hm].
  apply (StronglySorted_merge_sort Z.le).
Qed.

(** ** Placeholders *)

Section placeholders.
Context {K : FdKernel} `{!FdLaws K} (START END : Z).

Lemma place_loop f ph fds s :
  fd_table s !! ph = Some f →
  ∃ t, for_each fds (λ fd, if fd =? ph then mret () else dup2 ph fd) s = Ok () (s <| fd_table := t |>) ∧
    ∀ n, t !! n = if decide (n = ph ∨ n ∈ fds ∧ 0 ≤ n < rlim_cur s) then Some f else fd_table s !! n.
Proof.
  revert s. induction fds as [|fd fds IH]; intros s Hph.
  { exists (fd_table s). split; [by destruct s|]. intros n. case_decide as Hc; [|done].
    destruct Hc as [->|[?%not_elem_of_nil _]]; done. }
  cbn [for_each]. destruct (Z.eqb_spec fd ph) as [->|Hne].
  { destruct (IH s Hph) as (t & E & Ht). exists t. split; [exact E|]. intros n. rewrite Ht.
    repeat case_decide; try done; set_solver. }
  set (s1 := if (0 <=? fd) && (fd <? rlim_cur s) then s <| fd_table ::= <[fd := f]> |> else s).
  assert (dup2 ph fd s = Ok () s1) as Ed by (unfold dup2, modify; by rewrite Hph).
  assert (∀ n, fd_table s1 !! n = if decide (n = fd ∧ 0 ≤ n < rlim_cur s) then Some f else fd_table s !! n) as Ht1.
  { intros n. unfold s1. destruct (Z.leb_spec 0 fd), (Z.ltb_spec fd (rlim_cur s)); cbn; try (rewrite decide_False by lia; done).
    destruct (decide (n = fd)) as [->|Hn]; [by rewrite lookup_insert_eq, decide_True by lia|].
    rewrite lookup_insert_ne, decide_False by (congruence || lia). done. }
  assert (rlim_cur s1 = rlim_cur s ∧ ∀ t, s1 <| fd_table := t |> = s <| fd_table := t |>) as [Ec Es].
  { unfold s1. destruct (_ && _); by destruct s. }
  destruct (IH s1) as (t & E & Ht); [rewrite Ht1; by case_decide|]. exists t. rewrite <- Es, (prog_bind_ok _ _ _ _ _ Ed).
  split; [exact E|]. intros n. rewrite Ht, Ht1, Ec. repeat case_decide; try done; set_solver.
Qed.

Lemma raise_limit_ok top s : rlim_cur s ≤ rlim_max s → 0 ≤ top < 2 ^ 31 →
  ∃ cur, raise_limit top s = Ok () (s <| rlim_cur := cur |>) ∧ ∀ n, n ≤ top → n < cur ↔ n < rlim_max s.
Proof.
  intros Hle Ht. unfold raise_limit, modify.
  destruct (Z.eqb_spec (rlim_cur s) RLIM_INFINITY) as [E|E]; cbn [negb andb].
  { exists (rlim_cur s). split; [by destruct s|]. unfold RLIM_INFINITY in *. lia. }
  destruct (Z.leb_spec (rlim_cur s) top) as [Hc|Hc]; [|exists (rlim_cur s); split; [by destruct s|lia]].
  eexists. split; [done|]. intros n Hn. unfold room, RLIM_INFINITY.
  destruct (Z.eqb_spec (rlim_max s) (2 ^ 64 - 1)), (Z.leb_spec (top + 1 + 64) (rlim_max s)); cbn [orb]; lia.
Qed.

Lemma lowest_below s fds fd :
  room ≤ count_free_below START s fds → (∀ n, 0 ≤ n < fd → is_Some (fd_table s !! n)) → fd < START.
Proof.
  intros Hc Hlow. destruct (filter (λ fd, (fd ∉ fds) ∧ is_open s fd = false) (seqZ 3 (START - 3))) as [|n l] eqn:E.
  { unfold count_free_below in Hc. rewrite E in Hc. unfold room in Hc. cbn in Hc. lia. }
  assert (n ∈ n :: l) as Hn by left. rewrite <- E in Hn. apply list_elem_of_filter in Hn as [[_ Ho] Hr%elem_of_seqZ].
  unfold is_open in Ho. apply bool_decide_eq_false_1 in Ho. destruct (decide (fd < START)); [done|].
  destruct Ho. apply Hlow. lia.
Qed.

(** What the reservation does to the table. *)
Record reserved (s s' : fd_state) (wanted : Z → Prop) (f : Z * Z) (ph : Z) : Prop := {
  rs_file : reserved_fd s' = f;
  rs_new n : fd_table s !! n ≠ Some f;
  rs_ino : f.2 ≠ 0;
  rs_below : ph < START;
  rs_open n g : fd_table s !! n = Some g → fd_table s' !! n = Some g;
  rs_free n : fd_table s !! n = None →
    (n = ph ∨ wanted n ∧ n < rlim_max s → fd_table s' !! n = Some f) ∧
    (¬ (n = ph ∨ wanted n ∧ n < rlim_max s) → fd_table s' !! n = None)
}.

(** What the placeholder's calls make of the state [s1], which has the raised
    limit. *)
Definition placeholder_outcome (s s1 s' : fd_state) (done : Z * Z → Z → Prop) : Prop :=
  let '(ph, f) := memfd_create s1 in
  let s2 := s1 <| fd_table ::= <[ph := f]> |> in
  if ph =? -1 then s' = s1 else if fstat_fails ph s2 then s' = s2 else done f ph.

Lemma reserve_fds_ok fds top s :
  rlim_cur s ≤ rlim_max s → top = default 0 (last fds) → 0 ≤ top < 2 ^ 31 →
  (∀ n, n ∈ fds → 0 ≤ n ≤ top ∧ fd_table s !! n = None) → room ≤ count_free_below START s fds →
  ∃ s1 s', reserve_fds fds s = Ok () s' ∧ raise_limit top s = Ok () s1 ∧
    placeholder_outcome s s1 s' (reserved s s' (.∈ fds)).
Proof.
  intros Hle -> Ht Hfds Hroom. unfold reserve_fds, placeholder_outcome.
  destruct (raise_limit_ok (default 0 (last fds)) s Hle Ht) as (cur & Er & Hcur).
  rewrite (prog_bind_ok _ _ _ _ _ Er). set (s1 := s <| rlim_cur := cur |>). exists s1. prog_red.
  destruct (memfd_create s1) as [ph f] eqn:Em. destruct (Z.eqb_spec ph (-1)) as [->|Hph]; [by exists s1|].
  destruct (memfd_ok s1 ph f Em Hph) as (Hr & Hnone & Hlow & Hnew & Hino). cbn in Hr, Hnone, Hlow, Hnew.
  set (s0 := s1 <| fd_table ::= <[ph := f]> |>). destruct (fstat_fails ph s0); [by exists s0|].
  assert (fd_table s0 !! ph = Some f) as Eph by apply lookup_insert_eq. rewrite Eph. cbn [default].
  set (s2 := s0 <| reserved_fd := f |>).
  destruct (place_loop f ph fds s2) as (t & E & Ht'); [exact Eph|].
  exists (s2 <| fd_table := t |>). split; [exact E|]. split; [done|]. split; [done|done|done| | |].
  - by eapply lowest_below.
  - intros n g Hg. cbn. rewrite Ht'. rewrite decide_False.
    + cbn. rewrite lookup_insert_ne; [done|]. intros ->. congruence.
    + intros [->|[Hin _]]; [congruence|]. apply Hfds in Hin as [_ Hn]. congruence.
  - intros n Hn. cbn. rewrite Ht'. split; intros Hc.
    + rewrite decide_True; [done|]. destruct Hc as [->|[Hin Hm]]; [by left|]. right. split; [done|]. apply Hfds in Hin as [? _].
      split; [lia|]. apply Hcur; lia.
    + rewrite decide_False.
      * cbn. rewrite lookup_insert_ne; [done|]. intros ->. apply Hc. by left.
      * intros [->|[Hin Hb]]; apply Hc; [by left|]. right. split; [done|]. apply Hfds in Hin as [? _]. apply (Hcur n); [lia|]. apply Hb.
Qed.

(** ** Closing them *)

Lemma close_loop fds s :
  ∃ t, for_each fds (λ fd, s ← get_state;
      if bool_decide (fd_table s !! fd = Some (reserved_fd s)) then close fd else mret ()) s = Ok () (s <| fd_table := t |>) ∧
    ∀ n, t !! n = if decide (n ∈ fds ∧ fd_table s !! n = Some (reserved_fd s)) then None else fd_table s !! n.
Proof.
  revert s. induction fds as [|fd fds IH]; intros s.
  { exists (fd_table s). split; [by destruct s|]. intros n. rewrite decide_False; [done|]. intros [?%not_elem_of_nil _]. done. }
  cbn [for_each]. set (s1 := if bool_decide (fd_table s !! fd = Some (reserved_fd s)) then s <| fd_table ::= delete fd |> else s).
  assert (∀ n, fd_table s1 !! n = if decide (n = fd ∧ fd_table s !! n = Some (reserved_fd s)) then None else fd_table s !! n) as H1.
  { intros n. unfold s1. case_bool_decide as Hb; [|rewrite decide_False; [done|]; intros [-> ?]; done].
    cbn. destruct (decide (n = fd)) as [->|Hne]; [by rewrite lookup_delete_eq, decide_True|].
    rewrite lookup_delete_ne, decide_False by (congruence || tauto). done. }
  assert (reserved_fd s1 = reserved_fd s ∧ ∀ t, s1 <| fd_table := t |> = s <| fd_table := t |>) as [Er Es].
  { unfold s1. case_bool_decide; by destruct s. }
  destruct (IH s1) as (t & E & Ht). exists t. rewrite <- Es. split.
  - rewrite <- E. prog_red. unfold s1. case_bool_decide; done.
  - intros n. rewrite Ht, H1, Er. repeat case_decide; try done; set_solver.
Qed.

Lemma close_reserved wanted f ph s s' up open_fds :
  reserved s s' wanted f ph → (∀ n, up !! n ≠ Some f) → (∀ n, is_Some ((up ∪ fd_table s') !! n) → n ∈ open_fds) →
  closeReservedFds open_fds (s' <| fd_table := up ∪ fd_table s' |>) =
    Ok () (s' <| fd_table := up ∪ fd_table s |> <| reserved_fd := (f.1, 0) |>).
Proof.
  intros Hr Hup Hall. set (s2 := s' <| fd_table := up ∪ fd_table s' |>).
  assert (reserved_fd s2 = f) as Ef by apply Hr. unfold closeReservedFds. prog_red. rewrite Ef.
  rewrite (proj2 (Z.eqb_neq _ _) (rs_ino _ _ _ _ _ Hr)). destruct (close_loop open_fds s2) as (t & E & Ht).
  prog_red in E. rewrite E. f_equal. unfold s2. destruct s' as [tb c m f']. cbn in *. subst f'.
  unfold set_field. cbn. f_equal. apply map_eq. intros n. rewrite Ht. clear E Ht s2.
  destruct (up !! n) as [g|] eqn:Eu.
  { rewrite !(lookup_union_Some_l _ _ _ _ Eu), decide_False; [done|]. intros [_ [= ->]]. by apply (Hup n). }
  rewrite !lookup_union_r in * by done. destruct (fd_table s !! n) as [g|] eqn:Es.
  - rewrite (rs_open _ _ _ _ _ Hr n g Es : tb !! n = Some g), decide_False; [done|]. intros [_ [= ->]]. by apply (rs_new _ _ _ _ _ Hr n).
  - case_decide as Hc; [done|]. destruct (tb !! n) as [g|] eqn:Et; [|done]. exfalso. apply Hc.
    assert (g = f) as ->.
    { destruct (rs_free _ _ _ _ _ Hr n Es) as [H1 H2]. cbn in H1, H2. rewrite Et in H1, H2.
      apply dec_stable. intros Hne. assert (Some g = None) as ?; [|done]. apply H2. intros Hw. specialize (H1 Hw). congruence. }
    split; [|done]. apply Hall. rewrite lookup_union_r by done. rewrite Et. by eexists.
Qed.
End placeholders.

(** ** The theorem *)

(** What a rank's checkpoint knows: its mode, the descriptor of the header's file
    and the open descriptors. *)
Record rank_fds := mk_rank { rk_wait : p2p_wait_t; rk_header : Z; rk_open : list Z }.

Section restart.
Context {K : FdKernel} `{!FdLaws K} (START END : Z) (protected : Z → bool).

(** The numbers that a rank saves. *)
Definition saved_by (r : rank_fds) : list Z :=
  filter (λ n, 2 < n ∧ n ≠ rk_header r ∧ protected n = false) (rk_open r).

Lemma headers_fds ranks headers :
  Forall2 (λ r h, save_mana_header protected (rk_wait r) (rk_header r) (rk_open r) = Some h) ranks headers →
  (∀ r, r ∈ ranks → numbers (rk_open r)) → headers ≫= header_fds = ranks ≫= saved_by.
Proof.
  intros Hf. induction Hf as [|r h ranks headers Eh Hf IH]; intros Hn; [done|]. rewrite !bind_cons, IH by (intros; apply Hn; by right).
  f_equal. unfold save_mana_header in Eh. destruct (rk_header r =? -1); [done|]. injection Eh as <-.
  apply (header_text_fds (rk_wait r) (saved_by r)). intros n [_ ?]%list_elem_of_filter. eapply Hn; [by left|done].
Qed.

Definition wanted (ranks : list rank_fds) (s : fd_state) (n : Z) : Prop :=
  n ∈ ranks ≫= saved_by ∧ (n < START ∨ END < n) ∧ fd_table s !! n = None.

Lemma may_reserve_ok s n : 2 < n < 2 ^ 31 →
  may_reserve START END s n = true ↔ (n < START ∨ END < n) ∧ fd_table s !! n = None.
Proof.
  intros Hn. unfold may_reserve, is_open. rewrite s32_small by lia. rewrite !andb_true_iff, orb_true_iff, negb_true_iff, bool_decide_eq_false.
  rewrite !Z.ltb_lt, <- eq_None_not_Some. split; [tauto|]. split; [split; [lia|]|]; tauto.
Qed.

Lemma reserved_ext s s' (P Q : Z → Prop) f ph : (∀ n, P n ↔ Q n) → reserved START s s' P f ph → reserved START s s' Q f ph.
Proof.
  intros HPQ [? ? ? ? ? Hf]. split; try done. intros n Hn. destruct (Hf n Hn) as [H1 H2]. rewrite (HPQ n) in H1, H2. by split.
Qed.

(** What the lower half reads of the text that [mana_restart] makes. *)
Lemma reserved_list ranks headers s :
  Forall2 (λ r h, save_mana_header protected (rk_wait r) (rk_header r) (rk_open r) = Some h) ranks headers →
  (∀ r, r ∈ ranks → numbers (rk_open r)) →
  match MANA_RESERVED_FDS headers with
  | None | Some [] => ∀ n, ¬ wanted ranks s n
  | Some t => ∃ P, parse_fds START END (length t) s t = Some P ∧ (∀ n, n ∈ P ↔ wanted ranks s n) ∧ ∀ n, n ∈ P → 2 < n < 2 ^ 31
  end.
Proof.
  intros Hh Hn. unfold MANA_RESERVED_FDS. rewrite (headers_fds ranks headers Hh Hn).
  set (U := list_to_set (ranks ≫= saved_by) : gset Z).
  assert (∀ n, n ∈ ranks ≫= saved_by → 2 < n < 2 ^ 31) as HU.
  { intros n (r & Hin & Hr)%list_elem_of_bind. apply list_elem_of_filter in Hin as [? Hin]. apply Hn in Hin; [lia|done]. }
  case_bool_decide as HUe; [intros n [Hin _]; set_solver|]. set (M := merge_sort Z.le (elements U)).
  assert (∀ n, n ∈ M ↔ n ∈ ranks ≫= saved_by) as HM.
  { intros n. unfold M. rewrite (merge_sort_Permutation Z.le), elem_of_elements. unfold U. by rewrite elem_of_list_to_set. }
  assert (numbers M) as HnM by (intros n ?%HM%HU; lia).
  destruct (join (print_int <$> M)) as [|c t] eqn:Et.
  { destruct (join_last M HnM) as [[_ E]|(k & d & E & _)]; [|rewrite Et in E; by destruct k].
    intros n [Hin%HM _]. rewrite E in Hin. by apply not_elem_of_nil in Hin. }
  rewrite <- Et, (parse_join START END _ s M HnM) by done. eexists. split; [done|]. split.
  - intros n. rewrite list_elem_of_filter, HM. unfold wanted. split.
    + intros [Hm Hin]. split; [done|]. apply may_reserve_ok in Hm; [done|by apply HU].
    + intros (Hin & Hw). split; [|done]. apply may_reserve_ok; [by apply HU|done].
  - intros n [_ ?%HM%HU]%list_elem_of_filter. done.
Qed.

(** C14. The numbers of the upper half's file descriptors stay free across a
    restart.  [headers] are the headers of some ranks' checkpoints.  What
    [mana_restart] passes on, [reserve_restart_fds()] reads back: it returns, and
    leaves the table of the lower half as it is if no number is wanted, if fewer
    than 64 numbers would be free below DMTCP's, or if [memfd_create()] gives no
    placeholder in the state that has the limit raised for the largest number (and
    with the placeholder alone if [fstat()] fails on it).
    Otherwise every wanted number below the hard limit (one that a rank saved,
    that is not DMTCP's and not in use) has the placeholder, which is a new file
    and whose own number is not DMTCP's; no open descriptor changes.  After DMTCP
    has restored the upper half's descriptors [up], [closeReservedFds()] closes
    exactly the placeholders that are left. *)
Theorem restart_fds_reserved ranks headers s :
  rlim_cur s ≤ rlim_max s →
  Forall2 (λ r h, save_mana_header protected (rk_wait r) (rk_header r) (rk_open r) = Some h) ranks headers →
  (∀ r, r ∈ ranks → numbers (rk_open r)) →
  ∃ s', reserve_restart_fds START END (MANA_RESERVED_FDS headers) s = Ok () s' ∧
    ((s' = s ∧
      ((∀ n, ¬ wanted ranks s n) ∨
       ∃ fds, (∀ n, n ∈ fds ↔ wanted ranks s n) ∧ count_free_below START s fds < room)) ∨
     ∃ top s1, wanted ranks s top ∧ (∀ n, wanted ranks s n → n ≤ top) ∧ raise_limit top s = Ok () s1 ∧
       placeholder_outcome s s1 s' (λ f ph, reserved START s s' (wanted ranks s) f ph ∧
         ∀ up open_fds, (∀ n, up !! n ≠ Some f) → (∀ n, is_Some ((up ∪ fd_table s') !! n) → n ∈ open_fds) →
           closeReservedFds open_fds (s' <| fd_table := up ∪ fd_table s' |>) =
             Ok () (s' <| fd_table := up ∪ fd_table s |> <| reserved_fd := (f.1, 0) |>))).
Proof.
  intros Hlim Hh Hn. pose proof (reserved_list ranks headers s Hh Hn) as Hl. unfold reserve_restart_fds.
  destruct (MANA_RESERVED_FDS headers) as [[|c t]|]; [by exists s; split; [|left; auto]| |by exists s; split; [|left; auto]].
  destruct Hl as (P & EP & HP & HU). prog_red. rewrite EP. destruct P as [|x P].
  { exists s. split; [done|]. left. split; [done|]. left. intros n Hw%HP. by apply not_elem_of_nil in Hw. }
  destruct (sorted_fds (x :: P)) as [Hin Htop]. set (fds := unique (merge_sort Z.le (x :: P))) in *.
  assert (∀ n, n ∈ fds ↔ wanted ranks s n) as Hw by (intros n; by rewrite Hin, HP).
  destruct (Z.ltb_spec (count_free_below START s fds) room) as [Hroom|Hroom].
  { exists s. split; [done|]. left. split; [done|]. right. by exists fds. }
  assert (∃ m, last fds = Some m) as [m El].
  { destruct (last fds) as [m|] eqn:El; [by exists m|]. apply last_None in El. assert (x ∈ fds) as Hx by (apply Hin; by left). rewrite El in Hx. by apply not_elem_of_nil in Hx. }
  assert (m ∈ fds) as Hm by (by apply last_Some_elem_of). assert (2 < m < 2 ^ 31) as Hb by (by apply HU, Hin). rewrite El in Htop. cbn in Htop.
  destruct (reserve_fds_ok START fds m s) as (s1 & s' & E & Er & Hr); [done|by rewrite El|lia| |done|].
  { intros n Hf. pose proof (proj1 (Hw n) Hf) as (_ & _ & Hnone). apply Hin in Hf. specialize (HU n Hf). apply Htop in Hf. split; [lia|done]. }
  exists s'. split; [exact E|]. right. exists m, s1. split; [by apply Hw|]. split; [intros n Hn'; by apply Htop, Hin, Hw|]. split; [done|].
  unfold placeholder_outcome in *. destruct (memfd_create s1) as [ph f]. destruct (ph =? -1); [done|]. destruct (fstat_fails _ _); [done|].
  split; [by apply (reserved_ext s s' (.∈ fds))|]. intros. by eapply close_reserved.
Qed.
End restart.

(** ** Witness *)

(** A kernel that gives the lowest free number and numbers its files. *)
Fixpoint lowest_free (fuel : nat) (t : gmap Z (Z * Z)) (n : Z) : Z :=
  match fuel with
  | O => n
  | S fuel' => if t !! n is Some _ then lowest_free fuel' t (n + 1) else n
  end.
Definition sample_memfd : FdKernel := {|
  memfd_create s :=
  let fd := lowest_free (size (fd_table s)) (fd_table s) 0 in
  let ino := 1 + map_fold (λ _ f m, Z.max (Z.abs f.2) m) 0 (fd_table s) in
  if (fd <? rlim_cur s) && bool_decide (fd_table s !! fd = None) then (fd, (1, ino)) else (-1, (0, 0));
  fstat_fails _ _ := false
|}.

Lemma first_free_ok fuel t n m : n ≤ m < lowest_free fuel t n → is_Some (t !! m).
Proof.
  revert n. induction fuel as [|fuel IH]; cbn; intros n Hm; [lia|].
  destruct (t !! n) as [f|] eqn:E; [|lia]. destruct (decide (m = n)) as [->|]; [by eexists|]. apply (IH (n + 1)). lia.
Qed.
Lemma first_free_le fuel t n : n ≤ lowest_free fuel t n.
Proof. revert n. induction fuel as [|fuel IH]; cbn; intros n; [lia|]. destruct (t !! n); [|lia]. specialize (IH (n + 1)). lia. Qed.

Lemma max_ino (t : gmap Z (Z * Z)) : let m := map_fold (λ _ f m, Z.max (Z.abs f.2) m) 0 t in
  0 ≤ m ∧ ∀ n f, t !! n = Some f → Z.abs f.2 ≤ m.
Proof.
  cbn. apply (map_fold_weak_ind (λ m t, 0 ≤ m ∧ ∀ n f, t !! n = Some f → Z.abs f.2 ≤ m)).
  - split; [lia|]. intros n f. by rewrite lookup_empty.
  - intros i x t' m Hi [H0 Hm]. split; [lia|]. intros n f. rewrite lookup_insert_Some. intros [[<- <-]|[_ Hn]]; [lia|].
    apply Hm in Hn. lia.
Qed.

#[local] Instance sample_fd_laws : FdLaws sample_memfd.
Proof.
  split. intros s fd f. cbn [memfd_create sample_memfd].
  set (n := lowest_free _ _ _). pose proof (max_ino (fd_table s)) as [H0 Hm]. cbn in H0, Hm.
  destruct (Z.ltb_spec n (rlim_cur s)) as [Hlt|]; [|by intros [= <- <-]].
  case_bool_decide as Hn; [|by intros [= <- <-]]. intros [= <- <-] _. cbn.
  pose proof (first_free_le (size (fd_table s)) (fd_table s) 0) as Hpos. fold n in Hpos.
  split; [lia|]. split; [done|]. split; [intros m Hm'; by eapply first_free_ok|]. split; [|lia].
  intros m Hl. apply Hm in Hl. cbn in Hl. lia.
Qed.

(** A lower half with its first three descriptors, and two ranks. *)
Definition sample_fds : fd_state := mk_fds {[0 := (1, 7); 1 := (1, 7); 2 := (1, 7)]} 256 4096 (0, 0).
Definition sample_protected (n : Z) : bool := (820 <=? n) && (n <=? 1023).
Definition sample_ranks : list rank_fds :=
  [mk_rank P2P_WAIT_BLOCKING 4 [0; 1; 2; 3; 4; 12; 821]; mk_rank P2P_WAIT_BLOCKING 5 [0; 1; 2; 5; 300; 12]].
Definition sample_headers : list text :=
  omap (λ r, save_mana_header sample_protected (rk_wait r) (rk_header r) (rk_open r)) sample_ranks.

Lemma restart_fds_reserved_witness :
  ∃ s', @reserve_restart_fds sample_memfd 820 1023 (MANA_RESERVED_FDS sample_headers) sample_fds = Ok () s' ∧
    (∀ n, 0 ≤ n ≤ 2 → fd_table s' !! n = Some (1, 7)) ∧
    String.string_of_list_ascii <$> MANA_RESERVED_FDS sample_headers = Some "3,12,300"%string.
Proof.
  destruct (@restart_fds_reserved sample_memfd sample_fd_laws 820 1023 sample_protected sample_ranks sample_headers sample_fds)
    as (s' & E & Hs); [done|by repeat constructor| |].
  { intros r Hr n Hn. unfold sample_ranks in Hr. rewrite !elem_of_cons in Hr. destruct Hr as [->|[->|[]%not_elem_of_nil]];
      cbn in Hn; set_unfold in Hn; lia. }
  exists s'. split; [exact E|]. split; [|reflexivity]. intros n Hn.
  assert (fd_table sample_fds !! n = Some (1, 7)) as El.
  { assert (n = 0 ∨ n = 1 ∨ n = 2) as [->|[->| ->]] by lia; reflexivity. }
  destruct Hs as [[-> _]|(top & s1 & _ & _ & Er & Ho)]; [exact El|]. unfold placeholder_outcome in Ho. destruct (memfd_create s1) as [ph f].
  destruct (ph =? -1); [|destruct Ho as [Hr _]; by apply (rs_open _ _ _ _ _ _ Hr)].
  unfold raise_limit, modify in Er. injection Er as <-. rewrite Ho. destruct (256 <=? top); exact El.
Defined.

(** The numbers of that run: 3 is the placeholder's own. *)
Example sample_reservation :
  (λ o : outcome fd_state unit, match o with Ok _ s => (map_to_list (fd_table s), rlim_cur s) | _ => ([], 0) end)
    (@reserve_restart_fds sample_memfd 820 1023 (MANA_RESERVED_FDS sample_headers) sample_fds) =
  ((λ s : gmap Z (Z * Z), map_to_list s)
     {[0 := (1, 7); 1 := (1, 7); 2 := (1, 7); 3 := (1, 8); 12 := (1, 8); 300 := (1, 8)]}, 365).
Proof. vm_compute. reflexivity. Qed.
