(* ===== verification/Signals.v ===== *)
(** * Signal handlers ([src/src/mpi_plugin.cpp])

    A signal can arrive while its thread runs in the lower half, whose FS
    register is not the application's.  MANA installs a wrapper in place of each
    handler; the wrapper looks up the thread's FS of the upper half in
    [g_upper_half_fsbase], switches to it, calls the application's handler from
    [userSignalHandlers] and switches back.

    A handler is an address; [sa_handler] and [sa_sigaction] are one field, as in
    C.  The functions of the next library ([NEXT_FNC]) are a parameter. *)
From S2P Require Import Prelude.

Definition SIG_DFL : Z := 0.
Definition SIG_IGN : Z := 1.
Definition SIG_ERR : Z := -1.
Definition SIGTERM : Z := 15.
Definition SA_SIGINFO : Z := 4.
Definition MaxSignals : Z := 64.

Record sigact := mk_sigact { sa_handler : Z; sa_flags : Z; sa_mask : Z }.
#[export] Instance eta_sigact : Eta sigact := λ a, mk_sigact (sa_handler a) (sa_flags a) (sa_mask a).
Definition zero_sigact : sigact := mk_sigact 0 0 0.
Definition has_siginfo (a : sigact) : bool := negb (Z.land (sa_flags a) SA_SIGINFO =? 0).
Definition no_handler (h : Z) : bool := (h =? SIG_IGN) || (h =? SIG_DFL).

(** [next_sigaction] returns the code and the old action; [action_of] is the
    action that the kernel takes. *)
Class SigLib (K : Type) := {
  next_sigaction : Z → option sigact → K → (Z * sigact) * K;
  next_signal : Z → Z → K → Z * K;
  action_of : K → Z → sigact
}.
Class SigLaws (K : Type) `{!SigLib K} : Prop := {
  sigaction_law n act k r old k' : next_sigaction n act k = ((r, old), k') →
    (r = 0 → old = action_of k n) ∧
    ∀ m, action_of k' m = match act with
                          | Some a => if decide (r = 0 ∧ m = n) then a else action_of k m
                          | None => action_of k m
                          end;
  signal_law n h k r k' : next_signal n h k = (r, k') →
    (r ≠ SIG_ERR → r = sa_handler (action_of k n) ∧ sa_handler (action_of k' n) = h ∧ has_siginfo (action_of k' n) = false) ∧
    ∀ m, (r = SIG_ERR ∨ m ≠ n) → action_of k' m = action_of k m
}.

(** [fs_of] are the threads' FS registers, [calls] the handlers that ran: thread,
    handler, signal and the FS register at the call. *)
Record sigs (K : Type) := mk_sigs {
  kern : K;
  userSignalHandlers : gmap Z sigact;
  g_upper_half_fsbase : gmap Z Z;
  fs_of : gmap Z Z;
  calls : list (Z * Z * Z * Z)
}.
Arguments mk_sigs {K}. Arguments kern {K}. Arguments userSignalHandlers {K}. Arguments g_upper_half_fsbase {K}.
Arguments fs_of {K}. Arguments calls {K}.
#[export] Instance eta_sigs K : Eta (sigs K) := λ s,
  mk_sigs (kern s) (userSignalHandlers s) (g_upper_half_fsbase s) (fs_of s) (calls s).

Section wrappers.
Context `{SigLib K}.
(** The addresses of the two wrappers, and DMTCP's signal. *)
Context (sa_handler_wrapper sa_sigaction_wrapper : Z) (dmtcp_get_ckpt_signal : Z).

Definition user_action (s : sigs K) (signum : Z) : sigact := default zero_sigact (userSignalHandlers s !! signum).
Definition call_next {A} (f : K → A * K) : prog (sigs K) A := λ s,
  let '(a, k) := f (kern s) in Ok a (s <| kern := k |>).
Definition not_wrapped (signum : Z) : bool := (signum =? dmtcp_get_ckpt_signal) || (MaxSignals <=? signum).

(** ** [sigaction()] and [signal()]

    The result is the code and what is written to [*oldAct]. *)

Definition written (want_old : bool) (ret : Z) (old : sigact) : option sigact :=
  if want_old && (ret =? 0) then Some old else None.

Definition sigaction (signum : Z) (act : option sigact) (want_old : bool) : prog (sigs K) (Z * option sigact) :=
  if not_wrapped signum then
    '(ret, old) ← call_next (next_sigaction signum act); mret (ret, written want_old ret old)
  else
    let finish (act : option sigact) (ret : Z) :=
      (match act with
       | Some a => if ret =? 0 then modify (λ s, s <| userSignalHandlers ::= <[signum := a]> |>) else mret ()
       | None => mret ()
       end) ;;
      s ← get_state;
      mret (ret, written want_old ret (user_action s signum)) in
    match act with
    | Some a =>
        if has_siginfo a then
          '(ret, _) ← call_next (next_sigaction signum (Some (a <| sa_handler := sa_sigaction_wrapper |>)));
          finish act ret
        else if no_handler (sa_handler a) then
          '(ret, old) ← call_next (next_sigaction signum act); mret (ret, written want_old ret old)
        else
          '(ret, _) ← call_next (next_sigaction signum (Some (a <| sa_handler := sa_handler_wrapper |>)));
          finish act ret
    | None =>
        '(ret, _) ← call_next (next_sigaction signum None);
        finish act ret
    end.

Definition signal (signum handler : Z) : prog (sigs K) Z :=
  if not_wrapped signum then call_next (next_signal signum handler) else
  ret ← (if no_handler handler then call_next (next_signal signum handler)
         else call_next (next_signal signum sa_handler_wrapper));
  (if negb (ret =? SIG_ERR)
   then modify (λ s, s <| userSignalHandlers ::= <[signum := (user_action s signum) <| sa_handler := handler |>]> |>)
   else mret ()) ;;
  mret ret.


(** ** The wrappers *)

Definition getFS (tid : Z) : prog (sigs K) Z := gets (λ s, default 0 (fs_of s !! tid)).
Definition setFS (tid fs : Z) : prog (sigs K) unit := modify (λ s, s <| fs_of ::= <[tid := fs]> |>).

(** [insert()] of an unordered map, which keeps an entry that is there. *)
Definition insert_fsbase (tid fs : Z) : prog (sigs K) unit := modify (λ s,
  match g_upper_half_fsbase s !! tid with
  | Some _ => s
  | None => s <| g_upper_half_fsbase ::= <[tid := fs]> |>
  end).

(** The part under the lock. *)
Definition find_fsbase (tid : Z) : prog (sigs K) Z :=
  s ← get_state;
  match g_upper_half_fsbase s !! tid with
  | Some uh_fsbase => mret uh_fsbase
  | None => uh_fsbase ← getFS tid; insert_fsbase tid uh_fsbase ;; mret uh_fsbase
  end.

(** Runs [handler] with the upper half's FS register. *)
Definition in_upper_half (tid : Z) (handler : prog (sigs K) unit) : prog (sigs K) unit :=
  fsbase ← getFS tid;
  uh_fsbase ← find_fsbase tid;
  (if negb (fsbase =? uh_fsbase) then setFS tid uh_fsbase else mret ()) ;;
  handler ;;
  (if negb (fsbase =? uh_fsbase) then setFS tid fsbase else mret ()).

(** Calls the handler at an address; [depth] bounds the calls of a wrapper by a
    wrapper.  [exit(1)] ends the process. *)
Fixpoint call_handler (depth : nat) (tid handler signum : Z) : prog (sigs K) unit :=
  match depth with
  | O => spin
  | S depth' =>
      let user := s ← get_state; call_handler depth' tid (sa_handler (user_action s signum)) signum in
      if handler =? sa_handler_wrapper then in_upper_half tid user
      else if handler =? sa_sigaction_wrapper then
        in_upper_half tid (if signum =? SIGTERM then abort else user)
      else if no_handler handler then abort
      else modify (λ s, s <| calls ::= λ l, l ++ [(tid, handler, signum, default 0 (fs_of s !! tid))] |>)
  end.


(** ** Threads: the events of the plugin *)


End wrappers.

(** ** What the application sees *)

Section correctness.
Context `{SigLib K} `{!SigLaws K}.
Context (handler_w sigaction_w ckpt_signal : Z).
Hypothesis wrappers_differ : handler_w ≠ sigaction_w.
Hypothesis wrappers_are_handlers : no_handler handler_w = false ∧ no_handler sigaction_w = false.
Definition is_plain (n : Z) : bool := not_wrapped ckpt_signal n.

(** The actions for which the code installs a wrapper. *)
Definition wraps (a : sigact) : bool := has_siginfo a || negb (no_handler (sa_handler a)).
(** The action that the kernel has for the application's action [a]. *)
Definition wrapped (a : sigact) : sigact :=
  if has_siginfo a then a <| sa_handler := sigaction_w |>
  else if no_handler (sa_handler a) then a else a <| sa_handler := handler_w |>.

(** [app] are the actions that the application has set, [threads] the upper
    half's FS of each thread. *)
Record sig_ok (app : gmap Z sigact) (threads : gmap Z Z) (s : sigs K) : Prop := {
  so_set n a : app !! n = Some a → is_plain n = false → action_of (kern s) n = wrapped a ∧
    (wraps a = true → sa_handler (user_action s n) = sa_handler a);
  so_threads : g_upper_half_fsbase s = threads
}.











(** ** A signal arrives *)



(** The state in which [in_upper_half()] calls the handler. *)
Lemma in_upper_half_enters tid (h : prog (sigs K) unit) s : ∃ t f, userSignalHandlers t = userSignalHandlers s ∧
  in_upper_half tid h s = match h t with Ok _ s' => f s' | Abort => Abort | Spin => Spin end.
Proof.
  unfold in_upper_half, find_fsbase, insert_fsbase, getFS, setFS. prog_red.
  destruct (g_upper_half_fsbase s !! tid) as [uh|] eqn:E; [|rewrite E];
    match goal with |- context [negb ?b] => destruct (negb b) end; eexists _, _; (split; [|reflexivity]); done.
Qed.

(** The handler that a wrapper calls. *)
Definition user_handler (depth : nat) (tid n : Z) : prog (sigs K) unit :=
  s ← get_state; call_handler handler_w sigaction_w depth tid (sa_handler (user_action s n)) n.
Lemma call_handler_wrapper depth tid n :
  call_handler handler_w sigaction_w (S depth) tid handler_w n = in_upper_half tid (user_handler depth tid n).
Proof. cbn [call_handler]. by rewrite Z.eqb_refl. Qed.
Lemma call_sigaction_wrapper depth tid n :
  call_handler handler_w sigaction_w (S depth) tid sigaction_w n =
    in_upper_half tid (if n =? SIGTERM then abort else user_handler depth tid n).
Proof. cbn [call_handler]. by rewrite (proj2 (Z.eqb_neq _ _) (not_eq_sym wrappers_differ)), Z.eqb_refl. Qed.

(** A wrapper that is its own user's handler calls itself without end. *)
Lemma wrapper_recurses depth : ∀ tid n w (s : sigs K),
  w = handler_w ∨ w = sigaction_w ∧ n ≠ SIGTERM →
  sa_handler (user_action s n) = handler_w ∨ sa_handler (user_action s n) = sigaction_w ∧ n ≠ SIGTERM →
  call_handler handler_w sigaction_w depth tid w n s = Spin.
Proof.
  induction depth as [|depth IH]; intros tid n w s Hw Hu; [done|].
  assert (call_handler handler_w sigaction_w (S depth) tid w n s = in_upper_half tid (user_handler depth tid n) s) as ->.
  { destruct Hw as [->|[-> Hn]]; [by rewrite call_handler_wrapper|]. rewrite call_sigaction_wrapper. by rewrite (proj2 (Z.eqb_neq _ _) Hn). }
  destruct (in_upper_half_enters tid (user_handler depth tid n) s) as (t & f & Et & ->).
  assert (user_action t n = user_action s n) as Ea by (unfold user_action; by rewrite Et).
  unfold user_handler. prog_red. rewrite Ea. by rewrite IH by (rewrite ?Ea; done).
Qed.




(** ** A process *)











(** ** What the code returns as the old action *)

(** [*oldAct] is the new action: [userSignalHandlers] is updated before it is
    copied. *)
Theorem sigaction_old_is_new n a old s s' :
  is_plain n = false → no_handler (sa_handler a) = false →
  sigaction handler_w sigaction_w ckpt_signal n (Some a) true s = Ok (0, old) s' → old = Some a.
Proof.
  intros Hp Hn. unfold sigaction. unfold is_plain in Hp. rewrite Hp, Hn. unfold call_next. prog_red.
  destruct (has_siginfo a); destruct (next_sigaction n _ (kern s)) as [[ret o] k]; cbn;
    (destruct (Z.eqb_spec ret 0) as [->|]; [|congruence]); intros [= <- _]; unfold user_action; cbn; by rewrite lookup_insert_eq.
Qed.

(** [signal()] returns the address of MANA's wrapper; when the application sets
    it again, the wrapper calls itself without end. *)
Theorem signal_returns_wrapper app threads n s r s' h a :
  sig_ok app threads s → app !! n = Some a → is_plain n = false → no_handler (sa_handler a) = false → has_siginfo a = false →
  signal handler_w ckpt_signal n h s = Ok r s' → r ≠ SIG_ERR → r = handler_w.
Proof.
  intros Hok Ha Hp Hn Hi E Hr. destruct (so_set _ _ _ Hok n a Ha Hp) as [Hk _]. unfold wrapped in Hk. rewrite Hi, Hn in Hk.
  revert E. unfold signal, call_next. unfold is_plain in Hp. rewrite Hp. prog_red.
  destruct (no_handler h); destruct (next_signal n _ (kern s)) as [ret k] eqn:El; destruct (signal_law _ _ _ _ _ El) as [Hs _];
    destruct (negb (ret =? SIG_ERR)); intros [= <- _]; destruct (Hs Hr) as (-> & _); by rewrite Hk.
Qed.

Theorem wrapper_as_handler_recurses depth tid n (s : sigs K) :
  sa_handler (user_action s n) = handler_w → call_handler handler_w sigaction_w depth tid handler_w n s = Spin.
Proof. intros Hu. apply wrapper_recurses; by left. Qed.
End correctness.

(** ** Witness *)

(** A kernel with 64 signals. *)
Definition valid_signal (n : Z) : bool := (1 <=? n) && (n <=? 64).
#[local] Instance sample_signals : SigLib (gmap Z sigact) := {|
  next_sigaction n act k :=
    if valid_signal n
    then ((0, default zero_sigact (k !! n)), match act with Some a => <[n := a]> k | None => k end)
    else ((-1, zero_sigact), k);
  next_signal n h k :=
    if valid_signal n && negb (sa_handler (default zero_sigact (k !! n)) =? SIG_ERR)
    then (sa_handler (default zero_sigact (k !! n)), <[n := mk_sigact h 0 0]> k)
    else (SIG_ERR, k);
  action_of k n := default zero_sigact (k !! n)
|}.
#[local] Instance sample_sig_laws : SigLaws (gmap Z sigact).
Proof.
  split.
  - intros n act k r old k'. cbn. destruct (valid_signal n); intros E; injection E as <- <- <-; (split; [discriminate || done|]); intros m.
    + destruct act as [a|]; [|done]. destruct (decide (m = n)) as [->|]; [by rewrite decide_True, lookup_insert_eq|].
      rewrite decide_False by naive_solver. by rewrite lookup_insert_ne.
    + by destruct act.
  - intros n h k r k'. cbn. destruct (valid_signal n && negb _) eqn:Ev; intros [= <- <-].
    + apply andb_prop in Ev as [_ Ev]. apply negb_true_iff, Z.eqb_neq in Ev. rewrite lookup_insert_eq. split; [done|].
      intros m [?|Hm]; [done|]. by rewrite lookup_insert_ne.
    + done.
Qed.


