(* ===== verification/FortranAttrs.v ===== *)
(** * Attributes of Fortran programs
    ([src/src/mpi-wrappers/mpi_fortran_attr_wrappers.cpp])

    A Fortran attribute is an integer: an [INTEGER] of 32 bits for the calls of
    MPI-1 ([MPI_ATTR_PUT]), an address-sized one of 64 bits for the others
    ([MPI_COMM_SET_ATTR]).  The wrappers store it in the C attribute.  A keyval
    that Fortran made has the C callbacks [f_copy] and [f_delete], whose extra
    state is the address of a [FortranKeyval]; they call the Fortran callbacks
    with a value of the keyval's width.

    The wrappers run on [Keyvals]: the C callbacks are an instance of its class
    [Callbacks], and the application's state holds the table of handles and the
    [FortranKeyval]s.  A value that is not written is [None]. *)
From S2P Require Import Prelude Mpi Constants VirtualId Keyvals KeyvalsInv KeyvalsLife KeyvalsSpec FortranHandles.

Record FortranKeyval := mk_fkeyval { fk_copy : Z; fk_del : Z; fk_extra_state : Z; fk_mpi1 : bool }.

Record fworld (A : Type) := mk_fworld { fw_vids : vid_state; fw_keyvals : gmap Z FortranKeyval; fw_app : A }.
Arguments mk_fworld {A}. Arguments fw_vids {A}. Arguments fw_keyvals {A}. Arguments fw_app {A}.
#[export] Instance eta_fworld A : Eta (fworld A) := λ w, mk_fworld (fw_vids w) (fw_keyvals w) (fw_app w).

(** The result of a Fortran copy callback: what it writes to the value, the flag
    and the error. *)
Definition copy_result : Type := option Z * option Z * option Z.

(** MPI's predefined callbacks, of 64 bits and of 32.  [value_in] is the integer at
    the address that they get. *)
Definition mpi_comm_null_copy_fn_ `{MpiLib} (value_in : Z) : copy_result := (None, Some 0, Some MPI_SUCCESS).
Definition mpi_comm_dup_fn_ `{MpiLib} (value_in : Z) : copy_result := (Some value_in, Some 1, Some MPI_SUCCESS).
Definition mpi_comm_null_delete_fn_ `{MpiLib} : option Z := Some MPI_SUCCESS.
Definition mpi_null_copy_fn_ `{MpiLib} (value_in : Z) : copy_result := (None, Some 0, Some MPI_SUCCESS).
Definition mpi_dup_fn_ `{MpiLib} (value_in : Z) : copy_result := (Some (s32 value_in), Some 1, Some MPI_SUCCESS).
Definition mpi_null_delete_fn_ `{MpiLib} : option Z := Some MPI_SUCCESS.

(** The addresses of the callbacks: [f_copy] and [f_delete] in C, MPI's in
    Fortran. *)
Record callback_addresses := mk_addresses {
  a_f_copy : Z; a_f_delete : Z;
  a_comm_null_copy : Z; a_comm_dup : Z; a_comm_null_delete : Z;
  a_null_copy : Z; a_dup : Z; a_null_delete : Z
}.

(** The program's own callbacks, Fortran's and C's. *)
Class ProgramFns (A : Type) := {
  fortran_copy : Z → Z → Z → Z → Z → fworld A → copy_result * fworld A;   (* fn comm keyval extra value *)
  fortran_delete : Z → Z → Z → Z → Z → fworld A → option Z * fworld A;    (* fn comm keyval value extra *)
  c_copy : Z → Z → Z → Z → Z → fworld A → (Z * bool * Z) * fworld A;
  c_delete : Z → Z → Z → Z → Z → fworld A → Z * fworld A
}.

Section attributes.
Context {ML : MpiLib} {KL : KeyvalLib} {A : Type} {PF : ProgramFns A}.
(** [wide] is that of [mana_f2c]; [mpich] is [MPICH]; [int_address] are the
    addresses of the [int]s of predefined attributes. *)
Context (addr : callback_addresses) (wide mpich : bool) (int_address : Z → Z) (order : list Z → list Z).

Definition fprog (B : Type) : Type := prog (attrs (fworld A)) B.

Definition on_handles {B} (m : prog vid_state B) : fprog B := λ s,
  match m (fw_vids (app s)) with
  | Ok b st => Ok b (s <| app ::= λ w, w <| fw_vids := st |> |>)
  | Abort => Abort
  | Spin => Spin
  end.
Definition on_program {B} (f : fworld A → B * fworld A) : fprog B := λ s,
  let '(b, w) := f (app s) in Ok b (s <| app := w |>).
Definition keyval_at (extra_state : Z) : fprog FortranKeyval :=
  o ← gets (λ s, fw_keyvals (app s) !! extra_state); deref o.

(** ** The C callbacks of Fortran's keyvals *)

(** [MPI_COMM_DUP_FN] of a keyval of MPI-1 accesses 64 bits where [f_copy] has an
    [MPI_Fint]: an invalid access.  [MPI_DUP_FN] of the other keyvals writes the low
    half of a 0. *)
Definition call_fortran_copy (mpi1 : bool) (fn fcomm keyval extra value_in : Z) : fprog copy_result :=
  if fn =? a_comm_dup addr then (if mpi1 then abort else mret (mpi_comm_dup_fn_ value_in))
  else if fn =? a_comm_null_copy addr then mret (mpi_comm_null_copy_fn_ value_in)
  else if fn =? a_dup addr then
    let '(out, fflag, ierr) := mpi_dup_fn_ value_in in mret (if mpi1 then out else u32 <$> out, fflag, ierr)
  else if fn =? a_null_copy addr then mret (mpi_null_copy_fn_ value_in)
  else on_program (fortran_copy fn fcomm keyval extra value_in).
Definition call_fortran_delete (fn fcomm keyval value extra : Z) : fprog (option Z) :=
  if fn =? a_comm_null_delete addr then mret mpi_comm_null_delete_fn_
  else if fn =? a_null_delete addr then mret mpi_null_delete_fn_
  else on_program (fortran_delete fn fcomm keyval value extra).

(** The error, the flag and the copy.  An [MPI_Fint] has 32 bits. *)
Definition f_copy (oldcomm keyval extra_state value : Z) : fprog (Z * bool * Z) :=
  k ← keyval_at extra_state;
  fcomm ← on_handles (mana_c2f wide MANA_COMM_KIND oldcomm);
  let width := if fk_mpi1 k then s32 else s64 in
  '(out, fflag, ierr) ← call_fortran_copy (fk_mpi1 k) (fk_copy k) fcomm keyval (fk_extra_state k) (width value);
  mret (default MPI_SUCCESS ierr, negb (s32 (default 0 fflag) =? 0), width (default 0 out)).

Definition f_delete (comm keyval value extra_state : Z) : fprog Z :=
  k ← keyval_at extra_state;
  fcomm ← on_handles (mana_c2f wide MANA_COMM_KIND comm);
  let width := if fk_mpi1 k then s32 else s64 in
  ierr ← call_fortran_delete (fk_del k) fcomm keyval (width value) (fk_extra_state k);
  mret (default MPI_SUCCESS ierr).

#[local] Instance fortran_callbacks : Callbacks (fworld A) := {|
  delete_fn fn comm k v x := if fn =? a_f_delete addr then f_delete comm k v x else on_program (c_delete fn comm k v x);
  copy_fn fn comm k x v := if fn =? a_f_copy addr then f_copy comm k x v else on_program (c_copy fn comm k x v);
  keyval_order := order
|}.

(** ** The calls *)

Definition predefined_keyvals : list Z :=
  [MPI_TAG_UB; MPI_HOST; MPI_IO; MPI_WTIME_IS_GLOBAL; MPI_UNIVERSE_SIZE; MPI_LASTUSEDCODE; MPI_APPNUM].
Definition fortran_keyval (k : Z) : Z := if mpich then k + 1 else k.

(** The C keyval, and whether it is predefined. *)
Definition c_keyval (keyval : Z) : Z * bool :=
  match list_find (λ k, keyval = fortran_keyval k) predefined_keyvals with
  | Some (_, k) => (k, true)
  | None => (keyval, false)
  end.

(** The error and what is written to the caller's keyval. *)
Definition create_keyval (copy del extra_state : Z) (mpi1 : bool) : fprog (Z * option Z) :=
  s ← get_state;
  let k := fresh (dom (fw_keyvals (app s))) in
  modify (λ s, s <| app ::= λ w, w <| fw_keyvals ::= <[k := mk_fkeyval copy del extra_state mpi1]> |> |>) ;;
  '(retval, ckeyval) ← PMPI_Comm_create_keyval (a_f_copy addr) (a_f_delete addr) k;
  if retval =? MPI_SUCCESS then mret (retval, Some ckeyval)
  else modify (λ s, s <| app ::= λ w, w <| fw_keyvals ::= delete k |> |>) ;; mret (retval, None).

(** The error, the flag if it is written, and the value if it is written. *)
Definition get_attr (comm keyval : Z) : fprog (Z * option bool * option Z) :=
  let '(k, predefined) := c_keyval keyval in
  '(retval, cvalue) ← PMPI_Comm_get_attr comm k;
  if retval =? MPI_SUCCESS then
    match cvalue with
    | None => mret (retval, Some false, None)
    | Some (EnvInt n) => mret (retval, Some true, Some (if predefined then n else int_address k))
    | Some (User v) => if predefined then abort else mret (retval, Some true, Some v)
    end
  else mret (retval, None, None).

Definition mpi_comm_create_keyval_ (copy del extra_state : Z) : fprog (Z * option Z) := create_keyval copy del extra_state false.
Definition mpi_keyval_create_ (copy del extra_state : Z) : fprog (Z * option Z) := create_keyval copy del extra_state true.
Definition mpi_comm_free_keyval_ (comm_keyval : Z) : fprog (Z * Z) := PMPI_Comm_free_keyval comm_keyval.
Definition mpi_keyval_free_ (keyval : Z) : fprog (Z * Z) := mpi_comm_free_keyval_ keyval.

Definition mpi_comm_set_attr_ (comm comm_keyval attribute_val : Z) : fprog Z :=
  c_comm ← on_handles (mana_f2c wide MANA_COMM_KIND comm);
  PMPI_Comm_set_attr c_comm (c_keyval comm_keyval).1 attribute_val.
Definition mpi_attr_put_ (comm keyval attribute_val : Z) : fprog Z :=
  c_comm ← on_handles (mana_f2c wide MANA_COMM_KIND comm);
  PMPI_Comm_set_attr c_comm (c_keyval keyval).1 (s64 attribute_val).

Definition mpi_comm_get_attr_ (comm comm_keyval : Z) : fprog (Z * option bool * option Z) :=
  c_comm ← on_handles (mana_f2c wide MANA_COMM_KIND comm);
  get_attr c_comm comm_keyval.
Definition mpi_attr_get_ (comm keyval : Z) : fprog (Z * option bool * option Z) :=
  c_comm ← on_handles (mana_f2c wide MANA_COMM_KIND comm);
  '(ierr, flag, value) ← get_attr c_comm keyval;
  mret (ierr, flag, s32 <$> value).

Definition mpi_comm_delete_attr_ (comm comm_keyval : Z) : fprog Z :=
  c_comm ← on_handles (mana_f2c wide MANA_COMM_KIND comm);
  PMPI_Comm_delete_attr c_comm (c_keyval comm_keyval).1.
Definition mpi_attr_delete_ (comm keyval : Z) : fprog Z := mpi_comm_delete_attr_ comm keyval.

(** ** Reading values back *)

Lemma update_tuple_inv (k : Z) id f (s s' : attrs (fworld A)) :
  update_tuple k id f s = Ok () s' → ∃ t, tupleMap s !! k = Some t ∧ s' = s <| tupleMap ::= <[k := f t]> |>.
Proof.
  unfold update_tuple, tuple_at, find_tuple. prog_red. destruct (tupleMap s !! k) as [t|]; [|done].
  case_bool_decide; [|done]. intros [= <-]. by exists t.
Qed.

Lemma emplace_reads comm k id v (s s' : attrs (fworld A)) :
  emplace_attribute k id comm v s = Ok () s' → attr_at s comm k = None →
  attr_at s' comm k = Some v ∧ is_Some (tupleMap s' !! k).
Proof.
  intros (t & Ht & ->)%update_tuple_inv Hn. rewrite (attr_at_tuple _ _ _ _ Ht) in Hn.
  unfold attr_at. cbn. rewrite !lookup_insert_eq. cbn. rewrite Hn, lookup_insert_eq. split; [done|by eexists].
Qed.

(** A [MPI_Comm_set_attr] that succeeds stores the value, whatever the callbacks
    do. *)
Lemma set_attr_stores comm k v s s' :
  MPI_ERR_COMM ≠ MPI_SUCCESS → MPI_ERR_KEYVAL ≠ MPI_SUCCESS →
  PMPI_Comm_set_attr comm k v s = Ok MPI_SUCCESS s' →
  comm ≠ MPI_COMM_NULL ∧ attr_at s' comm k = Some v ∧ is_Some (tupleMap s' !! k).
Proof.
  intros H1 H2. unfold PMPI_Comm_set_attr. destruct (Z.eqb_spec comm MPI_COMM_NULL) as [->|Hc]; [unfold mret, prog_ret; congruence|].
  intros E. split; [done|]. revert E. unfold find_tuple. unfold mbind at 1, prog_bind at 1, gets at 1.
  destruct (tupleMap s !! k) as [t|] eqn:Et; [|unfold mret, prog_ret; congruence].
  destruct (attributeMap t !! comm) as [old|] eqn:Eo.
  - intros (r & s1 & _ & E)%prog_bind_inv. destruct (negb (r =? MPI_SUCCESS)) eqn:Er.
    { unfold mret, prog_ret in E. injection E as -> _. rewrite Z.eqb_refl in Er. done. }
    apply prog_bind_inv in E as ([] & s2 & E2 & E). apply prog_bind_inv in E as ([] & s3 & E3 & [= _ <-]).
    apply (emplace_reads _ _ _ _ _ _ E3). apply update_tuple_inv in E2 as (t2 & _ & ->).
    unfold attr_at. cbn. rewrite lookup_insert_eq. cbn. apply lookup_delete_eq.
  - intros ([] & s1 & E1 & E)%prog_bind_inv. apply prog_bind_inv in E as ([] & s3 & E3 & [= <-]).
    apply (emplace_reads _ _ _ _ _ _ E3). assert (tupleMap s1 = tupleMap s) as Em.
    { destruct (comm =? MPI_COMM_SELF); by injection E1 as <-. }
    unfold attr_at. by rewrite Em, Et.
Qed.

Lemma get_attr_reads comm k v (s : attrs (fworld A)) :
  comm ≠ MPI_COMM_NULL → is_predefined_keyval k = false → c_keyval k = (k, false) →
  attr_at s comm k = Some v → is_Some (tupleMap s !! k) →
  get_attr comm k s = Ok (MPI_SUCCESS, Some true, Some v) s.
Proof.
  intros Hc Hp Hk Hv Ht. unfold get_attr. rewrite Hk, (prog_bind_ok _ _ _ _ _ (get_attr_user comm k s Hc Hp Ht)), Hv. cbn.
  by rewrite Z.eqb_refl.
Qed.

(** The communicator with the Fortran handle [f]. *)
Definition converts (s : attrs (fworld A)) (f comm : Z) : Prop :=
  mana_f2c wide MANA_COMM_KIND f (fw_vids (app s)) = Ok comm (fw_vids (app s)).

Lemma on_handles_run {B} (m : prog vid_state B) b (s : attrs (fworld A)) :
  m (fw_vids (app s)) = Ok b (fw_vids (app s)) → on_handles m s = Ok b s.
Proof. intros E. unfold on_handles. rewrite E. by destruct s as [? ? ? ? ? []]. Qed.

Lemma get_both f comm k v s :
  converts s f comm → comm ≠ MPI_COMM_NULL → is_predefined_keyval k = false → c_keyval k = (k, false) →
  attr_at s comm k = Some v → is_Some (tupleMap s !! k) →
  mpi_comm_get_attr_ f k s = Ok (MPI_SUCCESS, Some true, Some v) s ∧
  mpi_attr_get_ f k s = Ok (MPI_SUCCESS, Some true, Some (s32 v)) s.
Proof.
  intros Hf Hc Hp Hk Hv Ht. pose proof (on_handles_run _ _ _ Hf) as Eh. pose proof (get_attr_reads comm k v s Hc Hp Hk Hv Ht) as Eg.
  unfold mpi_comm_get_attr_, mpi_attr_get_. rewrite !(prog_bind_ok _ _ _ _ _ Eh). split; [done|].
  by rewrite (prog_bind_ok _ _ _ _ _ Eg).
Qed.

(** A first value under a keyval in use is stored without a callback. *)
Lemma set_attr_new comm k v (s : attrs (fworld A)) :
  comm ≠ MPI_COMM_NULL → is_Some (tupleMap s !! k) → attr_at s comm k = None →
  ∃ s', PMPI_Comm_set_attr comm k v s = Ok MPI_SUCCESS s' ∧ app s' = app s.
Proof.
  intros Hc [t Ht] Hn. rewrite (attr_at_tuple _ _ _ _ Ht) in Hn. unfold PMPI_Comm_set_attr. rewrite (proj2 (Z.eqb_neq _ _) Hc).
  unfold emplace_attribute, update_tuple, tuple_at, find_tuple. prog_red. rewrite Ht, Hn.
  destruct (comm =? MPI_COMM_SELF); cbn; rewrite ?Ht, bool_decide_eq_true_2 by done; by eexists.
Qed.

Lemma c_keyval_predefined k : k ∈ predefined_keyvals → c_keyval (fortran_keyval k) = (k, true).
Proof.
  intros Hin. unfold c_keyval. destruct (list_find _ predefined_keyvals) as [[i k']|] eqn:E.
  - apply list_find_Some in E as (_ & E & _). unfold fortran_keyval in E. destruct mpich; f_equal; lia.
  - apply list_find_None in E. rewrite Forall_forall in E. by destruct (E k Hin).
Qed.

(** MPI's predefined attributes: the keyvals, and the values of those that the MPI
    library has set. *)
Definition env_values (e : env_attrs) : list (Z * option Z) :=
  [(MPI_TAG_UB, Some (tag_ub e)); (MPI_HOST, Some MPI_PROC_NULL); (MPI_IO, Some MPI_ANY_SOURCE);
   (MPI_WTIME_IS_GLOBAL, Some 0); (MPI_APPNUM, if appnum_flag e then Some (appnum e) else None);
   (MPI_UNIVERSE_SIZE, if universe_size_flag e then Some (universe_size e) else None);
   (MPI_LASTUSEDCODE, if lastusedcode_flag e then Some (lastusedcode e) else None)].

Lemma env_value_read comm k n (s : attrs (fworld A)) :
  comm ≠ MPI_COMM_NULL → NoDup (env_values (env s)).*1 → (k, n) ∈ env_values (env s) →
  PMPI_Comm_get_attr comm k s = Ok (MPI_SUCCESS, EnvInt <$> n) s.
Proof.
  intros Hc Hnd Hin. unfold PMPI_Comm_get_attr. prog_red. rewrite (proj2 (Z.eqb_neq _ _) Hc).
  unfold env_values in *. cbn [fmap list_fmap fst] in Hnd. rewrite !NoDup_cons, !not_elem_of_cons in Hnd. rewrite !elem_of_cons, elem_of_nil in Hin.
  destruct_and! Hnd. destruct_or! Hin; injection Hin as -> ->;
    rewrite ?Z.eqb_refl; repeat (rewrite (proj2 (Z.eqb_neq _ _)) by congruence; rewrite ?Z.eqb_refl); by repeat case_match.
Qed.

Lemma env_value_get f comm k n s :
  converts s f comm → comm ≠ MPI_COMM_NULL → NoDup (env_values (env s)).*1 → (k, n) ∈ env_values (env s) →
  mpi_comm_get_attr_ f (fortran_keyval k) s = Ok (MPI_SUCCESS, Some (bool_decide (is_Some n)), n) s ∧
  mpi_attr_get_ f (fortran_keyval k) s = Ok (MPI_SUCCESS, Some (bool_decide (is_Some n)), s32 <$> n) s.
Proof.
  intros Hf Hc Hnd Hin. pose proof (on_handles_run _ _ _ Hf) as Eh.
  assert (get_attr comm (fortran_keyval k) s = Ok (MPI_SUCCESS, Some (bool_decide (is_Some n)), n) s) as Eg.
  { assert (k ∈ predefined_keyvals) as Hk.
    { unfold env_values in Hin. rewrite !elem_of_cons, elem_of_nil in Hin. unfold predefined_keyvals. rewrite !elem_of_cons.
      destruct_or! Hin; injection Hin as -> _; tauto. }
    unfold get_attr. rewrite (c_keyval_predefined k Hk).
    rewrite (prog_bind_ok _ _ _ _ _ (env_value_read comm k n s Hc Hnd Hin)). rewrite Z.eqb_refl. by destruct n. }
  unfold mpi_comm_get_attr_, mpi_attr_get_. rewrite !(prog_bind_ok _ _ _ _ _ Eh). split; [done|].
  by rewrite (prog_bind_ok _ _ _ _ _ Eg).
Qed.

(** C35. A Fortran attribute is the integer that the program stored, at the
    width of the call.  Let [f] be the Fortran handle of [comm], and [k] a keyval
    of the program.  (1) What [MPI_COMM_SET_ATTR] stores, [MPI_COMM_GET_ATTR]
    returns, and [MPI_ATTR_GET] its low 32 bits; (2) what [MPI_ATTR_PUT] stores,
    both return, negative values too; whatever the callbacks of an old value do.
    (3) Both succeed for a first value.  (4) MPI's callbacks [MPI_COMM_DUP_FN] (of a
    keyval of [MPI_COMM_CREATE_KEYVAL]) and [MPI_DUP_FN] (of [MPI_KEYVAL_CREATE]) copy
    a value that has the keyval's width.  (5) For each of the seven predefined
    attributes, whose C value is the address of an [int], both calls return the
    value of the [int]; and no value, with a false flag, if the MPI library has not
    set the attribute. *)
Theorem fortran_attributes_round_trip f comm k v s :
  MPI_ERR_COMM ≠ MPI_SUCCESS → MPI_ERR_KEYVAL ≠ MPI_SUCCESS →
  converts s f comm → c_keyval k = (k, false) → is_predefined_keyval k = false → - 2 ^ 63 ≤ v < 2 ^ 63 →
  (∀ s', mpi_comm_set_attr_ f k v s = Ok MPI_SUCCESS s' → converts s' f comm →
     mpi_comm_get_attr_ f k s' = Ok (MPI_SUCCESS, Some true, Some v) s' ∧
     mpi_attr_get_ f k s' = Ok (MPI_SUCCESS, Some true, Some (s32 v)) s') ∧
  (∀ s', - 2 ^ 31 ≤ v < 2 ^ 31 → mpi_attr_put_ f k v s = Ok MPI_SUCCESS s' → converts s' f comm →
     mpi_comm_get_attr_ f k s' = Ok (MPI_SUCCESS, Some true, Some v) s' ∧
     mpi_attr_get_ f k s' = Ok (MPI_SUCCESS, Some true, Some v) s') ∧
  (comm ≠ MPI_COMM_NULL → is_Some (tupleMap s !! k) → attr_at s comm k = None →
     (∃ s', mpi_comm_set_attr_ f k v s = Ok MPI_SUCCESS s' ∧ converts s' f comm) ∧
     ∃ s', mpi_attr_put_ f k v s = Ok MPI_SUCCESS s' ∧ converts s' f comm) ∧
  (∀ x fk fcomm, fw_keyvals (app s) !! x = Some fk → fk_copy fk = (if fk_mpi1 fk then a_dup addr else a_comm_dup addr) →
     a_dup addr ≠ a_comm_dup addr → a_dup addr ≠ a_comm_null_copy addr → (fk_mpi1 fk = true → - 2 ^ 31 ≤ v < 2 ^ 31) →
     mana_c2f wide MANA_COMM_KIND comm (fw_vids (app s)) = Ok fcomm (fw_vids (app s)) →
     copy_fn (a_f_copy addr) comm k x v s = Ok (MPI_SUCCESS, true, v) s) ∧
  (∀ p n, NoDup (env_values (env s)).*1 → comm ≠ MPI_COMM_NULL → (p, n) ∈ env_values (env s) →
     mpi_comm_get_attr_ f (fortran_keyval p) s = Ok (MPI_SUCCESS, Some (bool_decide (is_Some n)), n) s ∧
     mpi_attr_get_ f (fortran_keyval p) s = Ok (MPI_SUCCESS, Some (bool_decide (is_Some n)), s32 <$> n) s).
Proof.
  intros He1 He2 Hf Hk Hp Hv. pose proof (on_handles_run _ _ _ Hf) as Eh. split_and!.
  - intros s' E Hf'. unfold mpi_comm_set_attr_ in E. rewrite (prog_bind_ok _ _ _ _ _ Eh), Hk in E.
    apply set_attr_stores in E as (Hc & Ha & Ht); [|done..]. by eapply get_both.
  - intros s' Hv' E Hf'. unfold mpi_attr_put_ in E. rewrite (prog_bind_ok _ _ _ _ _ Eh), Hk, s64_small in E by done.
    apply set_attr_stores in E as (Hc & Ha & Ht); [|done..]. rewrite <- (s32_small v) at 2 by done. by eapply get_both.
  - intros Hc Ht Hn. unfold mpi_comm_set_attr_, mpi_attr_put_. rewrite !(prog_bind_ok _ _ _ _ _ Eh), Hk. unfold converts.
    split; [destruct (set_attr_new comm k v s Hc Ht Hn) as (s' & E & Ea)|destruct (set_attr_new comm k (s64 v) s Hc Ht Hn) as (s' & E & Ea)];
      exists s'; by rewrite Ea.
  - intros x fk fcomm Hx Hd Hne1 Hne2 Hw Hc. cbn. rewrite Z.eqb_refl. unfold f_copy, keyval_at, call_fortran_copy.
    pose proof (on_handles_run _ _ _ Hc) as Ec. unfold mbind, prog_bind, gets, deref. rewrite Hx. cbn. rewrite Ec, Hd.
    destruct (fk_mpi1 fk); rewrite ?(proj2 (Z.eqb_neq _ _) Hne1), ?(proj2 (Z.eqb_neq _ _) Hne2), Z.eqb_refl; cbn; unfold mret, prog_ret;
      rewrite ?(s32_small v), ?(s64_small v) by auto; rewrite ?(s32_small v) by auto; done.
  - intros p n Hnd Hc. by apply (env_value_get f comm).
Qed.

End attributes.

(** ** Witness *)

(** A program without callbacks of its own, an attribute -5 of [MPI_COMM_WORLD],
    and a C handle of the width of an [MPI_Fint]. *)
#[local] Existing Instance sample_lib.
#[local] Existing Instance sample_keyvals.
Definition no_fns : ProgramFns unit := {|
  fortran_copy _ _ _ _ _ w := ((None, None, None), w);
  fortran_delete _ _ _ _ _ w := (None, w);
  c_copy _ _ _ _ _ w := ((0, false, 0), w);
  c_delete _ _ _ _ _ w := (0, w)
|}.
#[local] Existing Instance no_fns.
Definition sample_addresses : callback_addresses := mk_addresses 901 902 913 914 915 903 904 905.
Definition fortran_start : attrs (fworld unit) := mk_attrs [] ∅ [] sample_env 0 (mk_fworld init_vid ∅ ()).
Definition fortran_made : attrs (fworld unit) :=
  match mpi_keyval_create_ sample_addresses 904 905 0 fortran_start with Ok _ s => s | _ => fortran_start end.

Lemma fortran_attributes_round_trip_witness :
  ∃ s', mpi_attr_put_ sample_addresses false false id 100 7 (-5) fortran_made = Ok 0 s' ∧
    mpi_attr_get_ false false (λ _, 0) 100 7 s' = Ok (0, Some true, Some (-5)) s' ∧
    mpi_attr_get_ false false (λ _, 0) 100 MPI_IO fortran_made = Ok (0, Some true, Some (s32 MPI_ANY_SOURCE)) fortran_made.
Proof.
  destruct (fortran_attributes_round_trip sample_addresses false false (λ _, 0) id 100 100 7 (-5) fortran_made)
    as (_ & H2 & H3 & _ & H5); [done|done|done|reflexivity|reflexivity|lia|].
  destruct H3 as (_ & s' & E & Hc); [done|vm_compute; by eexists|vm_compute; reflexivity|].
  exists s'. split; [exact E|]. split; [by apply H2|].
  apply (H5 MPI_IO (Some MPI_ANY_SOURCE)).
  - apply (bool_decide_unpack _). vm_compute. exact I.
  - done.
  - right. right. left.
Defined.
