(* ===== verification/MpiTools.v ===== *)
(** * The MPI tool information interface
    ([src/src/mpi-wrappers/mpi_t_wrappers.cpp])

    MANA's MPI_T has no variables and no categories; it counts the calls of
    [MPI_T_init_thread] and [MPI_T_finalize].  A result is the error code and the
    value that is written, if one is.  Each call loads the counter once;
    [MPI_T_finalize] then decrements it in a second access, so threads are a step
    relation. *)
From S2P Require Import Prelude Mpi.

(** The MPI library's error codes and the session that is none. *)
Class ToolLib := {
  MPI_T_ERR_NOT_INITIALIZED : Z;
  MPI_T_ERR_INVALID_HANDLE : Z;
  MPI_T_ERR_INVALID_INDEX : Z;
  MPI_T_ERR_INVALID_NAME : Z;
  MPI_T_ERR_INVALID_SESSION : Z;
  MPI_T_ERR_OUT_OF_SESSIONS : Z;
  MPI_T_PVAR_SESSION_NULL : Z
}.

(** The counter, and the sessions that are allocated. *)
Record tool := mk_tool { mpi_t_inits : Z; sessions : gset Z }.
#[export] Instance eta_tool : Eta tool := λ s, mk_tool (mpi_t_inits s) (sessions s).

Section calls.
Context {ML : MpiLib} {TL : ToolLib}.
(** [MPI_T_PVAR_ALL_HANDLES], if the symbol is defined; [malloc] is the address of
    a new session, or null. *)
Context (all_handles : option Z) (malloc : tool → Z).

(** [RETURN_IF_NOT_INITIALIZED()]. *)
Definition if_initialized (call : prog tool (Z * option Z)) : prog tool (Z * option Z) :=
  s ← get_state;
  if mpi_t_inits s =? 0 then mret (MPI_T_ERR_NOT_INITIALIZED, None) else call.

Definition PMPI_T_init_thread (required : Z) : prog tool (Z * option Z) :=
  modify (λ s, s <| mpi_t_inits ::= λ n, s32 (n + 1) |>) ;;
  mret (MPI_SUCCESS, Some required).
(** The part after the check. *)
Definition count_finalize : prog tool (Z * option Z) :=
  modify (λ s, s <| mpi_t_inits ::= λ n, s32 (n - 1) |>) ;;
  mret (MPI_SUCCESS, None).
Definition PMPI_T_finalize : prog tool (Z * option Z) := if_initialized count_finalize.

Definition is_all_handles (handle : Z) : bool := bool_decide (all_handles = Some handle).

Definition PMPI_T_enum_get_info : prog tool (Z * option Z) := if_initialized (mret (MPI_T_ERR_INVALID_HANDLE, None)).
Definition PMPI_T_enum_get_item : prog tool (Z * option Z) := if_initialized (mret (MPI_T_ERR_INVALID_HANDLE, None)).
Definition PMPI_T_cvar_get_num : prog tool (Z * option Z) := if_initialized (mret (MPI_SUCCESS, Some 0)).
Definition PMPI_T_cvar_get_info : prog tool (Z * option Z) := if_initialized (mret (MPI_T_ERR_INVALID_INDEX, None)).
Definition PMPI_T_cvar_get_index : prog tool (Z * option Z) := if_initialized (mret (MPI_T_ERR_INVALID_NAME, None)).
Definition PMPI_T_cvar_handle_alloc : prog tool (Z * option Z) := if_initialized (mret (MPI_T_ERR_INVALID_INDEX, None)).
Definition PMPI_T_cvar_handle_free : prog tool (Z * option Z) := if_initialized (mret (MPI_T_ERR_INVALID_HANDLE, None)).
Definition PMPI_T_cvar_read : prog tool (Z * option Z) := if_initialized (mret (MPI_T_ERR_INVALID_HANDLE, None)).
Definition PMPI_T_cvar_write : prog tool (Z * option Z) := if_initialized (mret (MPI_T_ERR_INVALID_HANDLE, None)).
Definition PMPI_T_pvar_get_num : prog tool (Z * option Z) := if_initialized (mret (MPI_SUCCESS, Some 0)).
Definition PMPI_T_pvar_get_info : prog tool (Z * option Z) := if_initialized (mret (MPI_T_ERR_INVALID_INDEX, None)).
Definition PMPI_T_pvar_get_index : prog tool (Z * option Z) := if_initialized (mret (MPI_T_ERR_INVALID_NAME, None)).
Definition PMPI_T_pvar_handle_alloc : prog tool (Z * option Z) := if_initialized (mret (MPI_T_ERR_INVALID_INDEX, None)).
Definition PMPI_T_pvar_handle_free : prog tool (Z * option Z) := if_initialized (mret (MPI_T_ERR_INVALID_HANDLE, None)).
Definition PMPI_T_pvar_start (handle : Z) : prog tool (Z * option Z) :=
  if_initialized (mret (if is_all_handles handle then MPI_SUCCESS else MPI_T_ERR_INVALID_HANDLE, None)).
Definition PMPI_T_pvar_stop (handle : Z) : prog tool (Z * option Z) :=
  if_initialized (mret (if is_all_handles handle then MPI_SUCCESS else MPI_T_ERR_INVALID_HANDLE, None)).
Definition PMPI_T_pvar_reset (handle : Z) : prog tool (Z * option Z) :=
  if_initialized (mret (if is_all_handles handle then MPI_SUCCESS else MPI_T_ERR_INVALID_HANDLE, None)).
Definition PMPI_T_pvar_read : prog tool (Z * option Z) := if_initialized (mret (MPI_T_ERR_INVALID_HANDLE, None)).
Definition PMPI_T_pvar_write : prog tool (Z * option Z) := if_initialized (mret (MPI_T_ERR_INVALID_HANDLE, None)).
Definition PMPI_T_pvar_readreset : prog tool (Z * option Z) := if_initialized (mret (MPI_T_ERR_INVALID_HANDLE, None)).
Definition PMPI_T_category_get_num : prog tool (Z * option Z) := if_initialized (mret (MPI_SUCCESS, Some 0)).
Definition PMPI_T_category_get_info : prog tool (Z * option Z) := if_initialized (mret (MPI_T_ERR_INVALID_INDEX, None)).
Definition PMPI_T_category_get_index : prog tool (Z * option Z) := if_initialized (mret (MPI_T_ERR_INVALID_NAME, None)).
Definition PMPI_T_category_get_cvars : prog tool (Z * option Z) := if_initialized (mret (MPI_T_ERR_INVALID_INDEX, None)).
Definition PMPI_T_category_get_pvars : prog tool (Z * option Z) := if_initialized (mret (MPI_T_ERR_INVALID_INDEX, None)).
Definition PMPI_T_category_get_categories : prog tool (Z * option Z) := if_initialized (mret (MPI_T_ERR_INVALID_INDEX, None)).
Definition PMPI_T_category_changed : prog tool (Z * option Z) := if_initialized (mret (MPI_SUCCESS, Some 0)).

Definition PMPI_T_pvar_session_create : prog tool (Z * option Z) :=
  if_initialized (
    s ← get_state;
    let session := malloc s in
    if session =? MPI_T_PVAR_SESSION_NULL then mret (MPI_T_ERR_OUT_OF_SESSIONS, Some session)
    else modify (λ s, s <| sessions ::= union {[session]} |>) ;; mret (MPI_SUCCESS, Some session)).
(** [free()] of an address that is not allocated is undefined. *)
Definition PMPI_T_pvar_session_free (session : Z) : prog tool (Z * option Z) :=
  if_initialized (
    if session =? MPI_T_PVAR_SESSION_NULL then mret (MPI_T_ERR_INVALID_SESSION, None)
    else
      s ← get_state;
      assert_ (bool_decide (session ∈ sessions s)) ;;
      modify (λ s, s <| sessions ::= λ ss, ss ∖ {[session]} |>) ;;
      mret (MPI_SUCCESS, Some MPI_T_PVAR_SESSION_NULL)).

(** ** The enquiries *)

Inductive tool_call :=
  | T_enum_get_info
  | T_enum_get_item
  | T_cvar_get_num
  | T_cvar_get_info
  | T_cvar_get_index
  | T_cvar_handle_alloc
  | T_cvar_handle_free
  | T_cvar_read
  | T_cvar_write
  | T_pvar_get_num
  | T_pvar_get_info
  | T_pvar_get_index
  | T_pvar_handle_alloc
  | T_pvar_handle_free
  | T_pvar_start (handle : Z)
  | T_pvar_stop (handle : Z)
  | T_pvar_reset (handle : Z)
  | T_pvar_read
  | T_pvar_write
  | T_pvar_readreset
  | T_category_get_num
  | T_category_get_info
  | T_category_get_index
  | T_category_get_cvars
  | T_category_get_pvars
  | T_category_get_categories
  | T_category_changed.
Definition do_tool_call (c : tool_call) : prog tool (Z * option Z) :=
  match c with
  | T_enum_get_info => PMPI_T_enum_get_info
  | T_enum_get_item => PMPI_T_enum_get_item
  | T_cvar_get_num => PMPI_T_cvar_get_num
  | T_cvar_get_info => PMPI_T_cvar_get_info
  | T_cvar_get_index => PMPI_T_cvar_get_index
  | T_cvar_handle_alloc => PMPI_T_cvar_handle_alloc
  | T_cvar_handle_free => PMPI_T_cvar_handle_free
  | T_cvar_read => PMPI_T_cvar_read
  | T_cvar_write => PMPI_T_cvar_write
  | T_pvar_get_num => PMPI_T_pvar_get_num
  | T_pvar_get_info => PMPI_T_pvar_get_info
  | T_pvar_get_index => PMPI_T_pvar_get_index
  | T_pvar_handle_alloc => PMPI_T_pvar_handle_alloc
  | T_pvar_handle_free => PMPI_T_pvar_handle_free
  | T_pvar_start handle => PMPI_T_pvar_start handle
  | T_pvar_stop handle => PMPI_T_pvar_stop handle
  | T_pvar_reset handle => PMPI_T_pvar_reset handle
  | T_pvar_read => PMPI_T_pvar_read
  | T_pvar_write => PMPI_T_pvar_write
  | T_pvar_readreset => PMPI_T_pvar_readreset
  | T_category_get_num => PMPI_T_category_get_num
  | T_category_get_info => PMPI_T_category_get_info
  | T_category_get_index => PMPI_T_category_get_index
  | T_category_get_cvars => PMPI_T_category_get_cvars
  | T_category_get_pvars => PMPI_T_category_get_pvars
  | T_category_get_categories => PMPI_T_category_get_categories
  | T_category_changed => PMPI_T_category_changed
  end.

(** An enquiry changes nothing.  Before the first [MPI_T_init_thread] and after
    the last [MPI_T_finalize] it is an error; otherwise there is no variable: the
    numbers are 0, and every index, name and handle (but the one for all handles)
    is invalid. *)
Lemma tool_call_answer c s :
  do_tool_call c s = Ok (if mpi_t_inits s =? 0 then (MPI_T_ERR_NOT_INITIALIZED, None) else
    match c with
    | T_cvar_get_num | T_pvar_get_num | T_category_get_num | T_category_changed => (MPI_SUCCESS, Some 0)
    | T_pvar_start h | T_pvar_stop h | T_pvar_reset h => (if is_all_handles h then MPI_SUCCESS else MPI_T_ERR_INVALID_HANDLE, None)
    | T_cvar_get_index | T_pvar_get_index | T_category_get_index => (MPI_T_ERR_INVALID_NAME, None)
    | T_cvar_get_info | T_cvar_handle_alloc | T_pvar_get_info | T_pvar_handle_alloc | T_category_get_info
    | T_category_get_cvars | T_category_get_pvars | T_category_get_categories => (MPI_T_ERR_INVALID_INDEX, None)
    | _ => (MPI_T_ERR_INVALID_HANDLE, None)
    end) s.
Proof.
  destruct c; cbn [do_tool_call];
    match goal with |- ?f s = _ => unfold f | |- ?f _ s = _ => unfold f end;
    unfold if_initialized; prog_red; by destruct (mpi_t_inits s =? 0).
Qed.

(** ** Threads *)

(** Thread [t] has [opens !! t] calls of [MPI_T_init_thread] that it has not
    finalized, and whether it is between the two accesses of [MPI_T_finalize]. *)
Inductive tool_step : list (nat * bool) * tool → list (nat * bool) * tool → Prop :=
  | ts_init ths s t n fin required r s' :
      ths !! t = Some (n, fin) → fin = false → mpi_t_inits s + 1 < 2 ^ 31 →
      PMPI_T_init_thread required s = Ok r s' → tool_step (ths, s) (<[t := (S n, false)]> ths, s')
  | ts_check ths s t n :
      ths !! t = Some (S n, false) → mpi_t_inits s ≠ 0 → tool_step (ths, s) (<[t := (S n, true)]> ths, s)
  | ts_count ths s t n r s' :
      ths !! t = Some (S n, true) → count_finalize s = Ok r s' → tool_step (ths, s) (<[t := (n, false)]> ths, s')
  | ts_call ths s t c n fin r s' :
      ths !! t = Some (n, fin) → do_tool_call c s = Ok r s' → tool_step (ths, s) (ths, s').

Definition total (ths : list (nat * bool)) : nat := sum_list_with fst ths.
Definition tool_ok (w : list (nat * bool) * tool) : Prop := mpi_t_inits w.2 = Z.of_nat (total w.1) ∧ mpi_t_inits w.2 < 2 ^ 31.

Lemma total_insert ths t n fin n' fin' :
  ths !! t = Some (n, fin) → (total (<[t := (n', fin')]> ths) + n = total ths + n')%nat.
Proof.
  unfold total. revert t. induction ths as [|[m f] ths IH]; intros [|t] E; cbn [lookup list_lookup] in E; [done..| |].
  - injection E as -> ->. cbn. lia.
  - specialize (IH t E). change (<[S t := (n', fin')]> ((m, f) :: ths)) with ((m, f) :: <[t := (n', fin')]> ths).
    cbn [sum_list_with fst]. lia.
Qed.

Lemma total_open ths t n fin : ths !! t = Some (n, fin) → (n ≤ total ths)%nat.
Proof. intros E. pose proof (total_insert ths t n fin 0 false E). lia. Qed.

#[local] Arguments total : simpl never.

Lemma tool_step_ok w w' : tool_step w w' → tool_ok w → tool_ok w'.
Proof.
  intros Hs [H1 H2]. destruct Hs as [ths s t n fin rq r s' E -> Hb Er|ths s t n E Hn|ths s t n r s' E Er|ths s t c n fin r s' E Er]; cbn in *.
  - injection Er as _ <-. pose proof (total_insert ths t n false (S n) false E). unfold tool_ok. cbn. rewrite s32_small by lia. lia.
  - pose proof (total_insert ths t _ _ (S n) true E). unfold tool_ok. cbn. lia.
  - injection Er as _ <-. pose proof (total_insert ths t _ _ n false E). pose proof (total_open ths t _ _ E).
    unfold tool_ok. cbn. rewrite s32_small by lia. lia.
  - rewrite tool_call_answer in Er. by injection Er as _ <-.
Qed.

(** In any interleaving of threads that finalize what they have initialized, the
    counter is the number of open initializations.  So a thread between its
    [MPI_T_init_thread] and its [MPI_T_finalize] never sees the interface closed,
    and after the last [MPI_T_finalize] every call is an error. *)
Theorem tool_interface_open ths0 s0 ths s t n fin c :
  total ths0 = 0%nat → mpi_t_inits s0 = 0 → rtc tool_step (ths0, s0) (ths, s) → ths !! t = Some (n, fin) →
  mpi_t_inits s = Z.of_nat (total ths) ∧ ((0 < n)%nat → mpi_t_inits s ≠ 0) ∧
  (total ths = 0%nat → do_tool_call c s = Ok (MPI_T_ERR_NOT_INITIALIZED, None) s).
Proof.
  intros H0 Hs Hr E. assert (tool_ok (ths, s)) as [H1 H2].
  { assert (tool_ok (ths0, s0)) as Hok by (split; cbn; rewrite ?H0, Hs; lia).
    revert Hok. remember (ths0, s0) as w0. remember (ths, s) as w. clear -Hr. induction Hr; eauto using tool_step_ok. }
  cbn in *. split; [done|]. split; [pose proof (total_open _ _ _ _ E); lia|].
  intros Ht. rewrite tool_call_answer. by rewrite H1, Ht.
Qed.
End calls.
