(* ===== verification/BarrierDrain.v ===== *)
(** * The drain of point-to-point messages with barriers
    ([drainInFlightP2p()], [registerLocalSendsAndRecvs()] and
    [unblockPendingRecvs()] of [src/src/p2p_drain.cpp], with the blocking part of
    [PMPI_Recv] of [src/src/mpi-wrappers/mpi_p2p_wrappers.cpp])

    When application threads may block in [MPI_Recv] and the checkpoint thread has
    no lower-half TLS of its own, the drain uses global barriers.  The processes
    sum their counters in the coordinator's store and drain until the sums agree;
    then each blocked [MPI_Recv] gets a dummy: its process sets a bit, asks a
    sender for the dummy by a text in the store, and the sender sends it.

    A step relation on the store and the list of processes, one step for each
    request to the store and each access to what the two threads of a process
    share.  A process leaves a barrier when every process has entered as many
    barriers as it has; the names of the barriers play no part in that.  The
    words of the bitmap are read in one step: they do not change after the
    barrier before.  As in [P2pJob], the messages that were sent to a process
    are a number.  MPI matches a message with the receive that was posted first:
    the pending [MPI_Irecv]s of a process, posted before its [MPI_Recv], take a
    dummy that matches one of them ([bs_irecv_dummy]).  What concerns one process
    alone (completing [MPI_Isend]s, marking acks) is in [P2pDrain]. *)
From S2P Require Import Prelude Kvdb P2p P2pDrain P2pJob.

(** The pending receive ([g_pending_recv]): the gid of its communicator, its source
    and tag ([None]: any), its size in bytes, and this process's rank in the
    communicator. *)
Record recv_envelope := mk_env { e_gid : Z; e_source : option nat; e_tag : option Z; e_bytes : Z; e_me : nat }.
Record dummy_msg := mk_dummy { d_gid : Z; d_source : nat; d_tag : Z; d_bytes : Z }.

(** What MPI requires of a message for the receive. *)
Definition env_matches (e : recv_envelope) (d : dummy_msg) : bool :=
  (d_gid d =? e_gid e) &&
  match e_source e with Some s => (d_source d =? s)%nat | None => true end &&
  match e_tag e with Some t => d_tag d =? t | None => true end.

(** The [MPI_Irecv] that MPI matches with a dummy is the first that fits; [None] if
    none does. *)
Fixpoint take_irecv (d : dummy_msg) (es : list recv_envelope) : option (list recv_envelope) :=
  match es with
  | [] => None
  | e :: es => if env_matches e d then Some es else cons e <$> take_irecv d es
  end.

(** Where the checkpoint thread is in [registerLocalSendsAndRecvs()]. *)
Inductive register_pc :=
  | Add_sent | Load_recv | Add_recv (n : nat) | In_register | Get_sent | Get_recv (gs : Z).
(** Where it is in [unblockPendingRecvs()]; [Send k n] is before dummy [k] of
    [n]. *)
Inductive unblock_pc :=
  | Close_slot | Set_bit | Set_phase | In_published
  | Choose | Fetch_slot (sender : nat) | Set_text (sender : nat) (s : Z) | In_posted
  | Get_count | Send (k n : Z) | In_sent.
Inductive barrier_pc :=
  | Register (r : register_pc)
  | Loop (gs gr : Z)              (* at the condition of the while *)
  | Drain                         (* in its body *)
  | Isends                        (* completePendingIsends(), markSsendAcks() *)
  | Unblock (u : unblock_pc)
  | Leaving                       (* close_lower_half() *)
  | Done.

#[export] Instance register_pc_eq_dec : EqDecision register_pc.
Proof. solve_decision. Defined.
#[export] Instance unblock_pc_eq_dec : EqDecision unblock_pc.
Proof. solve_decision. Defined.
#[export] Instance barrier_pc_eq_dec : EqDecision barrier_pc.
Proof. solve_decision. Defined.

Inductive barrier_name := Register_p2p_send_recv | Pending_Recv_Published | Pending_Recv_Posted | Dummies_Sent.

(** A process.  [b_hist] is what it has added to [recv_0], [recv_1], ...: its length
    is the number of the round it takes part in, or that number plus one when it
    has added its counter.  [b_barriers] are the barriers it has entered;
    [b_post] is the process it asked for a dummy, with the slot. *)
Record proc := mk_proc {
  b_env : recv_envelope;
  b_sent : nat;                  (* local_sent_messages *)
  b_recv : nat;                  (* local_recv_messages *)
  b_slot : pending_recv_state;
  b_phase : bool;                (* p2p_dummy_phase *)
  b_app : app_pc;
  b_real_to : nat;               (* messages to this process that nobody has taken *)
  b_dummies : list dummy_msg;    (* dummies to this process that nobody has taken *)
  b_pc : barrier_pc;
  b_blocked : bool;
  b_post : option (nat * Z);
  b_barriers : list barrier_name;
  b_hist : list nat;
  b_irecvs : list recv_envelope; (* the pending MPI_Irecvs posted before the MPI_Recv *)
  b_irecv_dummies : nat          (* dummies that such an MPI_Irecv took *)
}.
#[export] Instance eta_proc : Eta proc := λ p,
  mk_proc (b_env p) (b_sent p) (b_recv p) (b_slot p) (b_phase p) (b_app p) (b_real_to p) (b_dummies p) (b_pc p)
    (b_blocked p) (b_post p) (b_barriers p) (b_hist p) (b_irecvs p) (b_irecv_dummies p).

Section barriers.
Context `{Kvdb K} `{!KvdbText K}.
(** The world ranks of the members of each communicator, by its gid. *)
Context (members : Z → list nat).

Definition kv_get (key : kvdb_key) (kv : K) : Z := default 0 (get64 P2P key kv).
Definition enter (b : barrier_name) (pc : barrier_pc) (p : proc) : proc :=
  p <| b_barriers ::= λ l, l ++ [b] |> <| b_pc := pc |>.

(** ** The checkpoint thread *)

Definition registerLocalSendsAndRecvs (r : register_pc) (kv : K) (p : proc) : option (K * proc) :=
  let round := length (b_hist p) in
  match r with
  | Add_sent => Some ((request_INCRBY P2P (sent_key round) (Z.of_nat (b_sent p)) kv).2, p <| b_pc := Register Load_recv |>)
  | Load_recv => Some (kv, p <| b_pc := Register (Add_recv (b_recv p)) |>)
  | Add_recv n =>
      Some ((request_INCRBY P2P (recv_key round) (Z.of_nat n) kv).2,
            enter Register_p2p_send_recv (Register In_register) (p <| b_hist ::= λ h, h ++ [n] |>))
  | In_register => None
  | Get_sent => Some (kv, p <| b_pc := Register (Get_recv (kv_get (sent_key (pred round)) kv)) |>)
  | Get_recv gs => Some (kv, p <| b_pc := Loop gs (kv_get (recv_key (pred round)) kv) |>)
  end.

(** The rank in the communicator of the sender of the dummy; [None] is a failed
    assertion. *)
Definition choose_sender (kv : K) (e : recv_envelope) : option nat :=
  match e_source e with
  | Some s => if (s <? length (members (e_gid e)))%nat then Some s else None
  | None => Z.to_nat <$> first_unblocked kv (Z.of_nat <$> members (e_gid e)) 0
  end.
Definition word_key (rank : nat) : kvdb_key := blocked_key (Z.quot (Z.of_nat rank) 64).
Definition rank_bit (rank : nat) : Z := Z.rem (Z.of_nat rank) 64.

(** [unblockPendingRecvs()] of process [i], apart from the send itself. *)
Definition unblockPendingRecvs (i : nat) (u : unblock_pc) (kv : K) (p : proc) : option (K * proc) :=
  match u with
  | Close_slot =>
      Some (kv, p <| b_slot := if bool_decide (b_slot p = PENDING_RECV_IDLE) then PENDING_RECV_CLOSED else b_slot p |>
                  <| b_blocked := bool_decide (b_slot p = PENDING_RECV_ACTIVE) |> <| b_pc := Unblock Set_bit |>)
  | Set_bit =>
      Some (if b_blocked p then request_OR P2P (word_key i) (Z.shiftl 1 (rank_bit i)) kv else kv,
            p <| b_pc := Unblock Set_phase |>)
  | Set_phase => Some (kv, enter Pending_Recv_Published (Unblock In_published) (p <| b_phase := true |>))
  | Choose =>
      if b_blocked p then
        s ← choose_sender kv (b_env p);
        sender ← members (e_gid (b_env p)) !! s;
        Some (kv, p <| b_pc := Unblock (Fetch_slot sender) |>)
      else Some (kv, enter Pending_Recv_Posted (Unblock In_posted) p)
  | Fetch_slot sender =>
      let '(s, kv') := request_INCRBY P2P (ndummies_key (Z.of_nat sender)) 1 kv in
      Some (kv', p <| b_pc := Unblock (Set_text sender s) |> <| b_post := Some (sender, s) |>)
  | Set_text sender s =>
      let e := b_env p in
      Some (set_text P2P (dummy_key (Z.of_nat sender) s)
              [e_gid e; Z.of_nat (e_me e); default 0 (e_tag e); e_bytes e] kv,
            enter Pending_Recv_Posted (Unblock In_posted) p)
  | Get_count => Some (kv, p <| b_pc := Unblock (Send 0 (kv_get (ndummies_key (Z.of_nat i)) kv)) |>)
  | Send k n => if k <? n then None else Some (kv, enter Dummies_Sent (Unblock In_sent) p)
  | In_published | In_posted | In_sent => None
  end.

(** The rest of [drainInFlightP2p()] and [drainP2p()]. *)
Definition drainInFlightP2p (i : nat) (kv : K) (p : proc) : option (K * proc) :=
  match b_pc p with
  | Register r => registerLocalSendsAndRecvs r kv p
  | Loop gs gr => Some (kv, p <| b_pc := if gr <? gs then Drain else Isends |>)
  | Drain => Some (kv, p <| b_pc := Register Add_sent |>)
  | Isends => Some (kv, p <| b_pc := Unblock Close_slot |>)
  | Unblock u => unblockPendingRecvs i u kv p
  | Leaving | Done => None
  end.

(** After a barrier. *)
Definition after_barrier (pc : barrier_pc) : option barrier_pc :=
  match pc with
  | Register In_register => Some (Register Get_sent)
  | Unblock In_published => Some (Unblock Choose)
  | Unblock In_posted => Some (Unblock Get_count)
  | Unblock In_sent => Some Leaving
  | _ => None
  end.

(** The text of dummy [k] of sender [i]: the process that gets it, and the dummy. *)
Definition posted_dummy (i : nat) (k : Z) (kv : K) : option (nat * dummy_msg) :=
  text ← get_text P2P (dummy_key (Z.of_nat i) k) kv;
  match text with
  | [gid; dest; tag; bytes] =>
      w ← members gid !! Z.to_nat dest;
      '(source, _) ← list_find (eq i) (members gid);
      Some (w, mk_dummy gid source tag bytes)
  | _ => None
  end.

(** ** The application thread *)

Definition recv_real (p : proc) : proc := p <| b_real_to ::= pred |> <| b_app := Got Real |>.
Definition recv_dummy (p : proc) : proc := p <| b_dummies ::= tail |> <| b_app := Got Dummy |>.
(** The steps of [PMPI_Recv] after the receive. *)
Definition after_recv (p : proc) : option proc :=
  match b_app p with
  | Got k => Some (p <| b_app := Read k (b_phase p) |>)
  | Read k true => Some (p <| b_slot := PENDING_RECV_CLOSED |> <| b_app := Out |>)
  | Read k false => Some (p <| b_slot := PENDING_RECV_IDLE |> <| b_app := Stored k |>)
  | Stored k => Some (p <| b_recv ::= S |> <| b_app := Out |>)
  | _ => None
  end.
Definition in_recv (p : proc) : bool := match b_app p with InRecv | Got _ | Read _ _ => true | _ => false end.
Definition holds (p : proc) : nat := match b_app p with Got Real | Read Real _ | Stored Real => 1 | _ => 0 end.

(** ** Steps *)

Inductive barrier_step (kv : K) (l : list proc) : K → list proc → Prop :=
  | bs_ckpt i p kv' p' :
      l !! i = Some p → drainInFlightP2p i kv p = Some (kv', p') → barrier_step kv l kv' (<[i := p']> l)
  | bs_barrier i p pc :
      l !! i = Some p → after_barrier (b_pc p) = Some pc →
      (∀ q, q ∈ l → (length (b_barriers p) ≤ length (b_barriers q))%nat) →
      barrier_step kv l kv (<[i := p <| b_pc := pc |>]> l)
  | bs_drain i p :                       (* a message is completed or buffered, and counted *)
      l !! i = Some p → b_pc p = Drain → (0 < b_real_to p)%nat →
      barrier_step kv l kv (<[i := p <| b_real_to ::= pred |> <| b_recv ::= S |>]> l)
  | bs_drain_dummy i p d ds :            (* a dummy that the MPI_Recv does not match would be buffered *)
      l !! i = Some p → b_pc p = Drain → b_dummies p = d :: ds →
      b_slot p ≠ PENDING_RECV_ACTIVE ∨ env_matches (b_env p) d = false →
      barrier_step kv l kv (<[i := p <| b_dummies := ds |> <| b_recv ::= S |>]> l)
  | bs_send i p k n w d :
      l !! i = Some p → b_pc p = Unblock (Send k n) → k < n → posted_dummy i k kv = Some (w, d) →
      barrier_step kv l kv
        (alter (λ q, q <| b_dummies ::= λ ds, ds ++ [d] |>) w (<[i := p <| b_pc := Unblock (Send (k + 1) n) |>]> l))
  | bs_close i p :
      l !! i = Some p → b_pc p = Leaving → b_app p = Out →
      barrier_step kv l kv (<[i := p <| b_pc := Done |>]> l)
  | bs_recv_real i p :
      l !! i = Some p → b_app p = InRecv → (0 < b_real_to p)%nat →
      barrier_step kv l kv (<[i := recv_real p]> l)
  | bs_recv_dummy i p d ds :
      l !! i = Some p → b_app p = InRecv → b_dummies p = d :: ds → take_irecv d (b_irecvs p) = None →
      env_matches (b_env p) d = true →
      barrier_step kv l kv (<[i := recv_dummy p]> l)
  | bs_after_recv i p p' :
      l !! i = Some p → after_recv p = Some p' → barrier_step kv l kv (<[i := p']> l)
  | bs_irecv_real i p es e es' :         (* a message completes a pending MPI_Irecv, and is counted *)
      l !! i = Some p → b_pc p = Drain → (0 < b_real_to p)%nat → b_irecvs p = es ++ e :: es' →
      barrier_step kv l kv (<[i := p <| b_irecvs := es ++ es' |> <| b_real_to ::= pred |> <| b_recv ::= S |>]> l)
  | bs_irecv_dummy i p d ds es :         (* a dummy completes a pending MPI_Irecv *)
      l !! i = Some p → b_dummies p = d :: ds → take_irecv d (b_irecvs p) = Some es →
      barrier_step kv l kv (<[i := p <| b_irecvs := es |> <| b_dummies := ds |> <| b_irecv_dummies ::= S |>]> l).

(** When the drain begins: the database of this checkpoint is new, the slot is
    ACTIVE while the application thread is in the receive, every message that was
    sent is counted, held by the application thread, or not yet taken; no dummy
    exists.  The pending receive names a communicator that this process is a
    member of, and a source in it. *)
Definition env_ok (n i : nat) (e : recv_envelope) : Prop :=
  NoDup (members (e_gid e)) ∧ members (e_gid e) !! e_me e = Some i ∧ Forall (λ j, j < n)%nat (members (e_gid e)) ∧
  (∀ s, e_source e = Some s → (s < length (members (e_gid e)))%nat).

Definition barrier_start (kv : K) (l : list proc) : Prop :=
  (∀ k, get64 P2P (sent_key k) kv = None ∧ get64 P2P (recv_key k) kv = None) ∧
  (∀ z, get64 P2P (blocked_key z) kv = None ∧ get64 P2P (ndummies_key z) kv = None) ∧
  (∀ i p, l !! i = Some p →
    b_pc p = Register Add_sent ∧ b_hist p = [] ∧ b_barriers p = [] ∧ b_phase p = false ∧ b_blocked p = false ∧
    b_post p = None ∧ b_dummies p = [] ∧ b_irecv_dummies p = O ∧ (b_slot p = PENDING_RECV_ACTIVE ↔ in_recv p = true) ∧
    match b_app p with Got Dummy | Read Dummy _ | Stored Dummy | Read Real true => False | _ => True end ∧
    (in_recv p = true → env_ok (length l) i (b_env p))) ∧
  sum_list_with b_sent l = (sum_list_with b_recv l + sum_list_with b_real_to l + sum_list_with holds l)%nat.
End barriers.
