(* ===== verification/BarrierDrainInv.v ===== *)
(** * The invariant of the drain with barriers *)
From S2P Require Import Prelude Kvdb P2p P2pDrain P2pJob P2pJobInv BarrierDrain.
#[local] Open Scope nat_scope.

(** ** What the place of the checkpoint thread says *)

Definition past_loop (p : proc) : bool :=
  match b_pc p with Register _ | Loop _ _ | Drain => false | _ => true end.
Definition past_close (p : proc) : bool :=
  match b_pc p with Register _ | Loop _ _ | Drain | Isends | Unblock Close_slot => false | _ => true end.
Definition published (p : proc) : bool :=
  match b_pc p with Register _ | Loop _ _ | Drain | Isends | Unblock (Close_slot | Set_bit) => false | _ => true end.
(** The rounds after which it went on, the rounds whose barrier it has left, and
    the rounds to which it added its sent counter. *)
Definition continued (p : proc) : nat :=
  match b_pc p with
  | Register (Add_sent | Load_recv | Add_recv _) | Drain => length (b_hist p)
  | _ => pred (length (b_hist p))
  end.
Definition left_rounds (p : proc) : nat :=
  match b_pc p with Register In_register => pred (length (b_hist p)) | _ => length (b_hist p) end.
Definition nsent (p : proc) : nat :=
  match b_pc p with Register (Load_recv | Add_recv _) => S (length (b_hist p)) | _ => length (b_hist p) end.
(** The barriers of [unblockPendingRecvs()] that it has entered, and left. *)
Definition stage (p : proc) : nat :=
  match b_pc p with
  | Unblock (In_published | Choose | Fetch_slot _ | Set_text _ _) => 1
  | Unblock (In_posted | Get_count | Send _ _) => 2
  | Unblock In_sent | Leaving | Done => 3
  | _ => 0
  end.
Definition passed (p : proc) : nat :=
  match b_pc p with
  | Unblock (Choose | Fetch_slot _ | Set_text _ _ | In_posted) => 1
  | Unblock (Get_count | Send _ _ | In_sent) => 2
  | Leaving | Done => 3
  | _ => 0
  end.
Definition phase_barriers : list barrier_name := [Pending_Recv_Published; Pending_Recv_Posted; Dummies_Sent].

(** The sums of round [k] end the loop. *)
Definition contributions (k : nat) (l : list proc) : nat := sum_list_with (λ p, default 0 (b_hist p !! k)) l.
Definition ends_loop (k : nat) (l : list proc) : Prop := sum_list_with b_sent l ≤ contributions k l.

(** Whether the application thread has had its dummy. *)
Definition had_dummy (p : proc) : nat :=
  match b_app p with Got Dummy | Read Dummy _ => 1 | Out => if b_blocked p then 1 else 0 | _ => 0 end.
(** The dummies that were sent to it and taken. *)
Definition got_dummies (p : proc) : nat := had_dummy p + b_irecv_dummies p.

(** ** One process *)

Definition recv_ok (p : proc) : Prop :=
  match b_app p with
  | InRecv => past_close p = true → b_blocked p = true
  | Got Dummy => b_blocked p = true
  | Read Real b => b = false
  | Read Dummy b => b = true ∧ b_blocked p = true
  | Stored Dummy => False
  | _ => True
  end.
Definition post_ok (p : proc) : Prop :=
  match b_pc p with
  | Unblock (Fetch_slot _) => b_blocked p = true ∧ b_post p = None
  | Unblock (Set_text j s) => b_blocked p = true ∧ b_post p = Some (j, s)
  | Unblock (In_posted | Get_count | Send _ _ | In_sent) | Leaving | Done => is_Some (b_post p) ↔ b_blocked p = true
  | _ => b_post p = None
  end.
Definition pc_ok (p : proc) : Prop :=
  match b_pc p with
  | Register (Add_sent | Load_recv) => True
  | Register (Add_recv n) => n ≤ b_recv p
  | _ => b_hist p ≠ []
  end.

Record proc_ok (p : proc) : Prop := {
  po_slot : b_slot p = PENDING_RECV_ACTIVE ↔ in_recv p = true;
  po_hist k n : b_hist p !! k = Some n → n ≤ b_recv p;
  po_pc : pc_ok p;
  po_barriers : b_barriers p = replicate (length (b_hist p)) Register_p2p_send_recv ++ take (stage p) phase_barriers;
  po_phase : b_phase p = true ↔ 1 ≤ stage p;
  po_blocked : b_blocked p = true → past_close p = true;
  po_closed : past_close p = true → b_slot p ≠ PENDING_RECV_IDLE;
  po_app : recv_ok p;
  po_post : post_ok p
}.

(** ** All processes *)

(** Where the processes are relative to each other. *)
Record control_ok (l : list proc) : Prop := {
  co_left p q : p ∈ l → q ∈ l → left_rounds p ≤ length (b_hist q);
  co_continued p k : p ∈ l → k < continued p → ¬ ends_loop k l;
  co_exit p : p ∈ l → past_loop p = true → ends_loop (pred (length (b_hist p))) l;
  co_passed p q : p ∈ l → q ∈ l → passed p ≤ stage q
}.

Section barriers.
Context `{KvdbLaws K} `{!KvdbText K, !KvdbTextLaws K}.
Context (members : Z → list nat).

(** The sums and the bitmap in the store. *)
Record store_ok (kv : K) (l : list proc) : Prop := {
  so_sent k : kv_get (sent_key k) kv = Z.of_nat (sum_list_with (λ p, if decide (k < nsent p) then b_sent p else 0) l);
  so_recv k : kv_get (recv_key k) kv = Z.of_nat (contributions k l);
  so_bits i p : l !! i = Some p → Z.testbit (kv_get (word_key i) kv) (rank_bit i) = published p && b_blocked p;
  so_get p : p ∈ l →
    match b_pc p with
    | Register (Get_recv gs) => gs = Z.of_nat (sum_list_with b_sent l)
    | Loop gs gr => gs = Z.of_nat (sum_list_with b_sent l) ∧ gr = Z.of_nat (contributions (pred (length (b_hist p))) l)
    | _ => True
    end
}.

(** The number of dummies that sender [j] has sent. *)
Definition sent_slots (kv : K) (j : nat) (q : proc) : Z :=
  match b_pc q with
  | Unblock (Send k _) => k
  | Unblock In_sent | Leaving | Done => kv_get (ndummies_key (Z.of_nat j)) kv
  | _ => 0
  end.
(** The sender that a blocked process may ask: its source, or a member that is
    not blocked. *)
Definition sender_ok (l : list proc) (e : recv_envelope) (j : nat) : Prop :=
  j ∈ members (e_gid e) ∧
  match e_source e with
  | Some s => members (e_gid e) !! s = Some j
  | None => ∃ q, l !! j = Some q ∧ b_blocked q = false
  end.
Definition dummy_for (e : recv_envelope) (d : dummy_msg) : Prop := env_matches e d = true ∧ d_bytes d = e_bytes e.

Record posts_ok (kv : K) (l : list proc) : Prop := {
  ps_env i p : l !! i = Some p → in_recv p = true ∨ b_blocked p = true → env_ok members (length l) i (b_env p);
  ps_fetch p j : p ∈ l → b_pc p = Unblock (Fetch_slot j) → sender_ok l (b_env p) j;
  ps_slot i p j s : l !! i = Some p → b_post p = Some (j, s) →
    (0 ≤ s < kv_get (ndummies_key (Z.of_nat j)) kv)%Z ∧ sender_ok l (b_env p) j ∧
    (b_pc p = Unblock (Set_text j s) ∨ ∃ d, posted_dummy members j s kv = Some (i, d) ∧ dummy_for (b_env p) d);
  ps_count j : (0 ≤ kv_get (ndummies_key (Z.of_nat j)) kv)%Z;
  ps_owner j s : (0 ≤ s < kv_get (ndummies_key (Z.of_nat j)) kv)%Z → ∃ i p, l !! i = Some p ∧ b_post p = Some (j, s);
  ps_unique i i' p p' x : l !! i = Some p → l !! i' = Some p' → b_post p = Some x → b_post p' = Some x → i = i';
  ps_send i p k n : l !! i = Some p → b_pc p = Unblock (Send k n) →
    n = kv_get (ndummies_key (Z.of_nat i)) kv ∧ (0 ≤ k ≤ n)%Z;
  ps_dummies i p : l !! i = Some p →
    Forall (dummy_for (b_env p)) (b_dummies p) ∧
    match b_post p with
    | None => b_dummies p = [] ∧ got_dummies p = 0
    | Some (j, s) => ∃ q, l !! j = Some q ∧
        length (b_dummies p) + got_dummies p = if decide (s < sent_slots kv j q)%Z then 1 else 0
    end
}.

Record barrier_inv (kv : K) (l : list proc) : Prop := {
  bi_balance : sum_list_with b_sent l = sum_list_with b_recv l + sum_list_with b_real_to l + sum_list_with holds l;
  bi_proc p : p ∈ l → proc_ok p;
  bi_control : control_ok l;
  bi_store : store_ok kv l;
  bi_posts : posts_ok kv l
}.
End barriers.

(** ** Consequences *)

Lemma contributions_le k l : (∀ p, p ∈ l → proc_ok p) → contributions k l ≤ sum_list_with b_recv l.
Proof.
  intros Hl. apply sum_le. intros p Hp. destruct (b_hist p !! k) as [n|] eqn:E; cbn; [|lia].
  by apply (po_hist _ (Hl p Hp) k).
Qed.

Section facts.
Context `{KvdbLaws K} `{!KvdbText K, !KvdbTextLaws K}.
Context (members : Z → list nat).


(** When a process is past the loop, every message is counted. *)
Lemma past_loop_counted kv l p q :
  barrier_inv members kv l → p ∈ l → past_loop p = true → q ∈ l → b_real_to q = 0 ∧ holds q = 0.
Proof.
  intros Hi Hp Hx Hq. pose proof (co_exit _ (bi_control _ _ _ Hi) p Hp Hx) as He.
  pose proof (contributions_le (pred (length (b_hist p))) l (bi_proc _ _ _ Hi)) as Hc. pose proof (bi_balance _ _ _ Hi) as Hb.
  unfold ends_loop in He. split; eapply sum_zero; try done; lia.
Qed.

Lemma stage_past p : 1 ≤ stage p → past_loop p = true.
Proof. unfold stage, past_loop. destruct (b_pc p) as [| | | |[]| |]; lia || done. Qed.
Lemma passed_stage p : passed p ≤ stage p.
Proof. unfold stage, passed. destruct (b_pc p) as [| | | |[]| |]; lia. Qed.
Lemma close_past p : past_close p = true → past_loop p = true.
Proof. unfold past_close, past_loop. by destruct (b_pc p) as [| | | |[]| |]. Qed.
Lemma continued_left p : pc_ok p → continued p ≤ left_rounds p.
Proof. unfold continued, left_rounds. destruct (b_pc p) as [[]| | | | | |]; lia. Qed.

(** Processes past the loop have made the same number of rounds. *)
Lemma same_rounds l p q :
  control_ok l → (∀ p, p ∈ l → proc_ok p) → p ∈ l → q ∈ l → past_loop p = true → past_loop q = true →
  length (b_hist p) = length (b_hist q).
Proof.
  intros Hc Hok Hp Hq Hxp Hxq.
  assert (∀ p, p ∈ l → past_loop p = true → b_hist p ≠ [] ∧ continued p = pred (length (b_hist p))) as Hn.
  { intros x Hx Hxx. pose proof (po_pc _ (Hok x Hx)) as Hpc. unfold pc_ok, past_loop, continued in *. by destruct (b_pc x) as [[]| | | |[]| |]. }
  destruct (Hn p Hp Hxp) as [Hnp Ep], (Hn q Hq Hxq) as [Hnq Eq].
  pose proof (co_exit _ Hc p Hp Hxp) as H1. pose proof (co_exit _ Hc q Hq Hxq) as H2.
  destruct (b_hist p) as [|? hp] eqn:Ehp; [done|]. destruct (b_hist q) as [|? hq] eqn:Ehq; [done|]. cbn in *.
  destruct (lt_eq_lt_dec (length hp) (length hq)) as [[Hlt|Heq]|Hlt].
  - destruct (co_continued _ Hc q (length hp) Hq); [by rewrite Eq|done].
  - by rewrite Heq.
  - destruct (co_continued _ Hc p (length hq) Hp); [by rewrite Ep|done].
Qed.
End facts.
