(* ===== verification/BarrierDrainControl.v ===== *)
(** * The steps of the drain with barriers keep the processes together *)
From S2P Require Import Prelude Kvdb P2p P2pDrain P2pJob P2pJobInv BarrierDrain BarrierDrainInv.
#[local] Open Scope nat_scope.

Lemma sum_insert_same {A} (f : A → nat) l i x y : l !! i = Some x → f y = f x → sum_list_with f (<[i := y]> l) = sum_list_with f l.
Proof. intros Hi E. pose proof (sum_insert f l i x y Hi). lia. Qed.
Lemma elem_of_insert_inv {A} (l : list A) i x y : x ∈ <[i := y]> l → x = y ∨ x ∈ l.
Proof. intros Hx. apply list_elem_of_lookup in Hx as (j & Hj). apply list_lookup_insert_Some in Hj as [(-> & -> & _)|[_ Hj]]; [by left|right; by eapply list_elem_of_lookup_2]. Qed.

Lemma ends_loop_insert l i p p' k :
  l !! i = Some p → b_sent p' = b_sent p → b_hist p' !! k = b_hist p !! k → ends_loop k (<[i := p']> l) ↔ ends_loop k l.
Proof. intros Hi Es Eh. unfold ends_loop, contributions. by rewrite !(sum_insert_same _ l i p p') by (done || by rewrite Eh). Qed.

Lemma extends_lookup {A} (h h' x : list A) k : h' = h ++ x → k < length h → h' !! k = h !! k.
Proof. intros -> Hk. by apply lookup_app_l. Qed.

(** A process that changes its place. *)
Lemma control_insert l i p p' x :
  control_ok l → (∀ p, p ∈ l → proc_ok p) → l !! i = Some p →
  b_sent p' = b_sent p → b_hist p' = b_hist p ++ x → stage p ≤ stage p' →
  (∀ q, q ∈ l → left_rounds p' ≤ length (b_hist q)) → (∀ q, q ∈ l → passed p' ≤ stage q) →
  (∀ k, k < continued p' → ¬ ends_loop k (<[i := p']> l)) →
  (past_loop p' = true → ends_loop (pred (length (b_hist p'))) (<[i := p']> l)) →
  control_ok (<[i := p']> l).
Proof.
  intros Hc Hok Hi Es Eh Hst Hl Hp Hco Hex. assert (p ∈ l) as Hel by (by eapply list_elem_of_lookup_2).
  assert (∀ q, q ∈ l → left_rounds q ≤ length (b_hist p)) as Hlp by (intros q Hq; by apply (co_left _ Hc)).
  assert (length (b_hist p) ≤ length (b_hist p')) as Hlen by (rewrite Eh, length_app; lia).
  split.
  - intros a b [->|Ha]%elem_of_insert_inv [->|Hb]%elem_of_insert_inv; auto.
    + specialize (Hl p Hel). lia.
    + specialize (Hlp a Ha). lia.
    + by apply (co_left _ Hc).
  - intros a k [->|Ha]%elem_of_insert_inv Hk; [auto|]. rewrite ends_loop_insert; [by apply (co_continued _ Hc a)|done|done|].
    apply (extends_lookup _ _ x); [done|]. pose proof (continued_left a (po_pc _ (Hok a Ha))). specialize (Hlp a Ha). lia.
  - intros a [->|Ha]%elem_of_insert_inv Hx; [auto|]. rewrite ends_loop_insert; [by apply (co_exit _ Hc a)|done|done|].
    apply (extends_lookup _ _ x); [done|]. pose proof (po_pc _ (Hok a Ha)) as Hpc. specialize (Hlp a Ha).
    unfold left_rounds, past_loop, pc_ok in *. destruct (b_pc a) as [[]| | | |[]| |]; try done; destruct (b_hist a); done || (cbn in *; lia).
  - intros a b [->|Ha]%elem_of_insert_inv [->|Hb]%elem_of_insert_inv; auto using passed_stage.
    + pose proof (co_passed _ Hc a p Ha Hel). lia.
    + by apply (co_passed _ Hc).
Qed.

(** A process that leaves no barrier and decides nothing. *)
Lemma control_step l i p p' x :
  control_ok l → (∀ p, p ∈ l → proc_ok p) → l !! i = Some p →
  b_sent p' = b_sent p → b_hist p' = b_hist p ++ x → stage p ≤ stage p' → left_rounds p' ≤ left_rounds p →
  passed p' ≤ passed p → continued p' ≤ continued p → (past_loop p' = true → past_loop p = true ∧ x = []) →
  control_ok (<[i := p']> l).
Proof.
  intros Hc Hok Hi Es Eh Hst Hl Hp Hco Hex. assert (p ∈ l) as Hel by (by eapply list_elem_of_lookup_2).
  apply (control_insert l i p p' x); try done.
  - intros q Hq. pose proof (co_left _ Hc p q Hel Hq). lia.
  - intros q Hq. pose proof (co_passed _ Hc p q Hel Hq). lia.
  - intros k Hk. rewrite ends_loop_insert; [apply (co_continued _ Hc p); [done|lia]|done|done|].
    apply (extends_lookup _ _ x); [done|]. pose proof (continued_left p (po_pc _ (Hok p Hel))).
    pose proof (co_left _ Hc p p Hel Hel). lia.
  - intros Hx. destruct (Hex Hx) as [Hx' ->]. rewrite app_nil_r in Eh. rewrite ends_loop_insert, Eh by (done || by rewrite Eh).
    by apply (co_exit _ Hc).
Qed.

(** A process that stays where it is. *)
Lemma control_stay l i p p' :
  control_ok l → (∀ p, p ∈ l → proc_ok p) → l !! i = Some p →
  b_sent p' = b_sent p → b_hist p' = b_hist p → b_pc p' = b_pc p → control_ok (<[i := p']> l).
Proof.
  intros Hc Hok Hi Es Eh Epc. apply (control_step l i p p' []); rewrite ?app_nil_r; try done;
    unfold stage, left_rounds, passed, continued, past_loop; rewrite Epc, ?Eh; done.
Qed.

(** ** Leaving a barrier *)

Lemma barriers_length p : proc_ok p → length (b_barriers p) = length (b_hist p) + stage p.
Proof.
  intros Hok. rewrite (po_barriers _ Hok), length_app, length_replicate, length_take.
  unfold stage, phase_barriers. destruct (b_pc p) as [| | | |[]| |]; cbn; lia.
Qed.

Lemma in_loop_not_ahead l p q :
  control_ok l → (∀ p, p ∈ l → proc_ok p) → p ∈ l → q ∈ l → past_loop q = true → past_loop p = false →
  length (b_hist p) ≤ length (b_hist q).
Proof.
  intros Hc Hok Hp Hq Hx Hn. pose proof (co_exit _ Hc q Hq Hx) as He. pose proof (po_pc _ (Hok q Hq)) as Hpc.
  assert (b_hist q ≠ []) as Hne by (unfold pc_ok, past_loop in *; by destruct (b_pc q) as [[]| | | |[]| |]).
  destruct (decide (length (b_hist p) ≤ length (b_hist q))); [done|]. destruct (co_continued _ Hc p (pred (length (b_hist q))) Hp); [|done].
  destruct (b_hist q); [done|]. cbn in *. unfold continued, past_loop in *. destruct (b_pc p) as [[]| | | |[]| |]; try done; lia.
Qed.

Lemma barrier_together l p pc :
  control_ok l → (∀ p, p ∈ l → proc_ok p) → p ∈ l → after_barrier (b_pc p) = Some pc →
  (∀ q, q ∈ l → length (b_barriers p) ≤ length (b_barriers q)) →
  ∀ q, q ∈ l → left_rounds (p <| b_pc := pc |>) ≤ length (b_hist q) ∧ passed (p <| b_pc := pc |>) ≤ stage q.
Proof.
  intros Hc Hok Hp Hb Hall q Hq. specialize (Hall q Hq). rewrite !barriers_length in Hall by auto.
  pose proof (co_left _ Hc p q Hp Hq) as Hl. pose proof (co_passed _ Hc p q Hp Hq) as Hps.
  destruct (b_pc p) as [[]| | | |[]| |] eqn:Epc; try done; injection Hb as <-; unfold left_rounds, passed in *; cbn; rewrite Epc in *; split; try lia.
  - destruct (past_loop q) eqn:Hx.
    + apply (in_loop_not_ahead l); try done. unfold past_loop. by rewrite Epc.
    + unfold stage in Hall. rewrite Epc in Hall. unfold past_loop in Hx. destruct (b_pc q); try done; lia.
  - destruct (past_loop q) eqn:Hx.
    + pose proof (same_rounds l p q Hc Hok Hp Hq) as E. unfold past_loop at 1 in E. rewrite Epc in E. specialize (E eq_refl Hx).
      unfold stage at 1 in Hall. rewrite Epc in Hall. lia.
    + pose proof (in_loop_not_ahead l q p Hc Hok Hq Hp) as E. unfold past_loop at 1 in E. rewrite Epc in E. specialize (E eq_refl Hx).
      unfold stage in Hall. rewrite Epc in Hall. unfold past_loop in Hx. destruct (b_pc q); try done; lia.
  - pose proof (same_rounds l p q Hc Hok Hp Hq) as E. unfold past_loop at 1 in E. rewrite Epc in E. specialize (E eq_refl (stage_past q Hps)).
    unfold stage at 1 in Hall. rewrite Epc in Hall. lia.
  - pose proof (same_rounds l p q Hc Hok Hp Hq) as E. unfold past_loop at 1 in E. rewrite Epc in E.
    specialize (E eq_refl (stage_past q ltac:(lia))). unfold stage at 1 in Hall. rewrite Epc in Hall. lia.
Qed.

Lemma control_barrier l i p pc :
  control_ok l → (∀ p, p ∈ l → proc_ok p) → l !! i = Some p → after_barrier (b_pc p) = Some pc →
  (∀ q, q ∈ l → length (b_barriers p) ≤ length (b_barriers q)) → control_ok (<[i := p <| b_pc := pc |>]> l).
Proof.
  intros Hc Hok Hi Hb Hall. assert (p ∈ l) as Hel by (by eapply list_elem_of_lookup_2).
  pose proof (barrier_together l p pc Hc Hok Hel Hb Hall) as Ht. set (p' := p <| b_pc := pc |>) in *.
  assert (∀ k, ends_loop k (<[i := p']> l) ↔ ends_loop k l) as He by (intros k; by apply (ends_loop_insert l i p)).
  assert (continued p' ≤ continued p ∧ (past_loop p' = true → past_loop p = true) ∧ stage p ≤ stage p') as (H1 & H2 & H3).
  { unfold continued, past_loop, stage, p'. cbn. destruct (b_pc p) as [[]| | | |[]| |]; try done; injection Hb as <-; done. }
  apply (control_insert l i p p' []); rewrite ?app_nil_r; try done; try (intros q Hq; by apply Ht).
  - intros k Hk. rewrite He. apply (co_continued _ Hc p); [done|lia].
  - intros Hx. rewrite He. apply (co_exit _ Hc p); auto.
Qed.

(** ** The decision at the end of a round *)

Lemma control_loop l i p gs gr :
  control_ok l → (∀ p, p ∈ l → proc_ok p) → l !! i = Some p → b_pc p = Loop gs gr →
  gs = Z.of_nat (sum_list_with b_sent l) → gr = Z.of_nat (contributions (pred (length (b_hist p))) l) →
  control_ok (<[i := p <| b_pc := if (gr <? gs)%Z then Drain else Isends |>]> l).
Proof.
  intros Hc Hok Hi Epc Egs Egr. assert (p ∈ l) as Hel by (by eapply list_elem_of_lookup_2).
  set (p' := p <| b_pc := _ |>). assert (∀ k, ends_loop k (<[i := p']> l) ↔ ends_loop k l) as He by (intros k; by apply (ends_loop_insert l i p)).
  pose proof (po_pc _ (Hok p Hel)) as Hpc. unfold pc_ok in Hpc. rewrite Epc in Hpc.
  apply (control_insert l i p p' []); rewrite ?app_nil_r; try done.
  - unfold stage, p'. rewrite Epc. lia.
  - intros q Hq. pose proof (co_left _ Hc p q Hel Hq) as Hl. unfold left_rounds, p' in *. rewrite Epc in Hl. cbn. by destruct (_ <? _)%Z.
  - intros q Hq. unfold passed, p'. cbn. destruct (_ <? _)%Z; lia.
  - intros k Hk. rewrite He. assert (k < continued p ∨ ((gr < gs)%Z ∧ k = pred (length (b_hist p)))) as [Hk'|[Hlt ->]].
    { unfold continued, p' in *. rewrite Epc. cbn in Hk. destruct (Z.ltb_spec gr gs); [|lia]. destruct (b_hist p); [done|]. cbn in *. lia. }
    + by apply (co_continued _ Hc p).
    + unfold ends_loop. lia.
  - intros Hx. rewrite He. unfold ends_loop. unfold past_loop, p' in Hx. cbn in *. destruct (Z.ltb_spec gr gs); [done|lia].
Qed.
