(* ===== verification/BarrierDrainSteps.v ===== *)
(** * The steps of the drain with barriers keep its invariant *)
From S2P Require Import Prelude Kvdb P2p P2pDrain P2pJob P2pJobInv BarrierDrain BarrierDrainInv BarrierDrainControl.
#[local] Open Scope nat_scope.

Section steps.
Context `{KvdbLaws K} `{!KvdbText K, !KvdbTextLaws K}.
Context (members : Z → list nat).

(** ** One process *)

(** The parts of a process that a step of the checkpoint thread leaves. *)
Definition app_side (p : proc) : recv_envelope * nat * nat * app_pc * nat * list dummy_msg * list recv_envelope * nat :=
  (b_env p, b_sent p, b_recv p, b_app p, b_real_to p, b_dummies p, b_irecvs p, b_irecv_dummies p).

Lemma ckpt_app_side i kv p kv' p' : drainInFlightP2p members i kv p = Some (kv', p') → app_side p' = app_side p.
Proof.
  unfold drainInFlightP2p, registerLocalSendsAndRecvs, unblockPendingRecvs.
  destruct (b_pc p) as [[]| | | |[]| |]; intros E; try done; try (by injection E as <- <-).
  - destruct (b_blocked p); [|by injection E as <- <-]. destruct (choose_sender _ _ _) as [s|]; [|done]. cbn in E.
    destruct (_ !! s); [|done]. by injection E as <- <-.
  - destruct (request_INCRBY _ _ _ _). by injection E as <- <-.
  - destruct (_ <? _)%Z; [done|]. by injection E as <- <-.
Qed.

Lemma barriers_register p n pc :
  b_barriers p = replicate (length (b_hist p)) Register_p2p_send_recv ++ take 0 phase_barriers →
  stage (p <| b_pc := pc |>) = 0 →
  b_barriers p ++ [Register_p2p_send_recv] =
    replicate (length (b_hist p ++ [n])) Register_p2p_send_recv ++ take (stage (p <| b_pc := pc |>)) phase_barriers.
Proof.
  intros E Es. rewrite E, Es, length_app. cbn. rewrite !app_nil_r, Nat.add_comm. cbn. by rewrite <- replicate_S_end.
Qed.

Ltac proc_fields E :=
  injection E as _ <-; split; unfold pc_ok, recv_ok, stage, past_close, post_ok, in_recv in *; cbn in *; auto; try done; try tauto.

Lemma ckpt_proc_ok i kv p kv' p' : proc_ok p → drainInFlightP2p members i kv p = Some (kv', p') → proc_ok p'.
Proof.
  intros [H1 H2 H3 H4 H5 H6 H7 H8 H9]. unfold drainInFlightP2p, registerLocalSendsAndRecvs, unblockPendingRecvs.
  unfold pc_ok, stage, recv_ok, past_close, post_ok in *.
  destruct (b_pc p) as [[]|gs gr| | |[]| |] eqn:Epc; intros E; try done; try (proc_fields E; fail).
  - proc_fields E.
    + intros k m Hk. apply lookup_app_Some in Hk as [Hk|[_ Hk]]; [by apply (H2 k)|]. apply list_lookup_singleton_Some in Hk as [_ <-]. done.
    + by destruct (b_hist p).
    + by apply (barriers_register p n (Register In_register)).
  - destruct (gr <? gs)%Z; proc_fields E.
  - destruct (b_slot p) eqn:Es; cbn in E; proc_fields E; destruct (b_app p) as [| |[]|[] []|[]]; by intuition.
  - proc_fields E; by rewrite H4, <- app_assoc.
  - destruct (b_blocked p) eqn:Eb; [|proc_fields E; rewrite ?H4, <- ?app_assoc, ?Eb, ?H9; by intuition].
    destruct (choose_sender _ _ _) as [s|]; [|done]. cbn in E. destruct (_ !! s); [|done]. proc_fields E; rewrite ?Eb; by intuition.
  - destruct (request_INCRBY _ _ _ _) as [s kv1]. proc_fields E.
  - proc_fields E; [by rewrite H4, <- app_assoc|rewrite H5; lia|]. destruct H9 as [H9 ->]. by split.
  - destruct (_ <? _)%Z; [done|]. proc_fields E; [by rewrite H4, <- app_assoc|rewrite H5; lia].
Qed.

Lemma barrier_proc_ok p pc : proc_ok p → after_barrier (b_pc p) = Some pc → proc_ok (p <| b_pc := pc |>).
Proof.
  intros [H1 H2 H3 H4 H5 H6 H7 H8 H9] Hb. unfold pc_ok, stage, recv_ok, past_close, post_ok in *.
  destruct (b_pc p) as [[]| | | |[]| |] eqn:Epc; try done; injection Hb as <-; by split.
Qed.

(** ** The store *)

Lemma kv_get_INCRBY key v key' (kv : K) :
  kv_get key' (request_INCRBY P2P key v kv).2 = (if decide (key' = key) then kv_get key kv + v else kv_get key' kv)%Z.
Proof.
  unfold kv_get. pose proof (INCRBY_spec P2P key v kv) as Hu. case_decide as Hk.
  - subst key'. by rewrite (upd_key_eq _ _ _ _ _ Hu).
  - by rewrite (upd_key_ne _ _ _ _ _ _ _ Hu) by congruence.
Qed.
Lemma kv_get_OR key v key' (kv : K) :
  kv_get key' (request_OR P2P key v kv) = (if decide (key' = key) then Z.lor (kv_get key kv) v else kv_get key' kv)%Z.
Proof.
  unfold kv_get. pose proof (OR_spec P2P key v kv) as Hu. case_decide as Hk.
  - subst key'. by rewrite (upd_key_eq _ _ _ _ _ Hu).
  - by rewrite (upd_key_ne _ _ _ _ _ _ _ Hu) by congruence.
Qed.
Lemma kv_get_text key v key' (kv : K) : kv_get key' (set_text P2P key v kv) = kv_get key' kv.
Proof. unfold kv_get. by rewrite set_text_get64. Qed.

Lemma rank_bit_inj i j : word_key i = word_key j → rank_bit i = rank_bit j → i = j.
Proof.
  unfold word_key, rank_bit. intros [= E] E'. pose proof (Z.quot_rem' (Z.of_nat i) 64) as H1.
  pose proof (Z.quot_rem' (Z.of_nat j) 64) as H2. rewrite E, E' in H1. lia.
Qed.
Lemma rank_bit_nonneg i : (0 ≤ rank_bit i)%Z.
Proof. apply Z.rem_nonneg; lia. Qed.
Lemma bit_OR i j (kv : K) :
  Z.testbit (kv_get (word_key j) (request_OR P2P (word_key i) (Z.shiftl 1 (rank_bit i)) kv)) (rank_bit j) =
  (if decide (i = j) then true else Z.testbit (kv_get (word_key j) kv) (rank_bit j)).
Proof.
  pose proof (rank_bit_nonneg i) as Hi. pose proof (rank_bit_nonneg j) as Hj. rewrite kv_get_OR.
  assert (∀ n, (0 ≤ n)%Z → Z.testbit (Z.shiftl 1 (rank_bit i)) n = bool_decide (n = rank_bit i)) as Hb.
  { intros n Hn. rewrite Z.shiftl_spec by done. case_bool_decide as E.
    - by rewrite E, Z.sub_diag.
    - destruct (decide (n < rank_bit i)%Z); [apply Z.testbit_neg_r; lia|]. apply Z.bits_above_log2; cbn; lia. }
  case_decide as Hk.
  - rewrite Z.lor_spec, Hb by done. case_decide as E; [subst j; by rewrite bool_decide_true, orb_true_r|].
    rewrite bool_decide_false, orb_false_r, Hk; [done|]. intros E'. by apply E, rank_bit_inj.
  - rewrite decide_False; [done|]. by intros ->.
Qed.

Lemma store_insert kv kv' l i p p' x :
  control_ok l → (∀ p, p ∈ l → proc_ok p) → store_ok kv l → l !! i = Some p → b_sent p' = b_sent p → b_hist p' = b_hist p ++ x →
  (∀ k, kv_get (sent_key k) kv' + Z.of_nat (if decide (k < nsent p)%nat then b_sent p else 0%nat) =
        kv_get (sent_key k) kv + Z.of_nat (if decide (k < nsent p')%nat then b_sent p else 0%nat))%Z →
  (∀ k, kv_get (recv_key k) kv' + Z.of_nat (default 0%nat (b_hist p !! k)) =
        kv_get (recv_key k) kv + Z.of_nat (default 0%nat (b_hist p' !! k)))%Z →
  (∀ j, Z.testbit (kv_get (word_key j) kv') (rank_bit j) =
        if decide (i = j) then published p' && b_blocked p' else Z.testbit (kv_get (word_key j) kv) (rank_bit j)) →
  match b_pc p' with
  | Register (Get_recv gs) => gs = Z.of_nat (sum_list_with b_sent l)
  | Loop gs gr => gs = Z.of_nat (sum_list_with b_sent l) ∧ gr = Z.of_nat (contributions (pred (length (b_hist p'))) l) ∧ x = []
  | _ => True
  end → store_ok kv' (<[i := p']> l).
Proof.
  intros Hc Hok Hs Hi Es Eh H1 H2 H3 H4. assert (p ∈ l) as Hel by (by eapply list_elem_of_lookup_2).
  assert (sum_list_with b_sent (<[i := p']> l) = sum_list_with b_sent l) as E1 by (by apply (sum_insert_same _ _ _ p)).
  split.
  - intros k. pose proof (sum_insert (λ p, if decide (k < nsent p) then b_sent p else 0) l i p p' Hi) as E. cbn in E. rewrite Es in E.
    pose proof (so_sent _ _ Hs k). specialize (H1 k). lia.
  - intros k. unfold contributions. pose proof (sum_insert (λ p, default 0 (b_hist p !! k)) l i p p' Hi) as E. cbn in E.
    pose proof (so_recv _ _ Hs k) as Er. unfold contributions in Er. specialize (H2 k). lia.
  - intros j q Hj. rewrite H3. apply list_lookup_insert_Some in Hj as [(-> & -> & _)|[Hne Hj]]; [by rewrite decide_True|].
    rewrite decide_False by done. by apply (so_bits _ _ Hs).
  - intros q [->|Hq]%elem_of_insert_inv.
    + destruct (b_pc p') as [[]| | | | | |]; try done; [by rewrite E1|]. destruct H4 as (-> & -> & ->). split; [by rewrite E1|].
      rewrite app_nil_r in Eh. unfold contributions. f_equal. symmetry. apply (sum_insert_same _ _ _ p); [done|]. by rewrite Eh.
    + pose proof (so_get _ _ Hs q Hq) as Hg. pose proof (po_pc _ (Hok q Hq)) as Hpc. pose proof (co_left _ Hc q p Hq Hel) as Hl.
      unfold pc_ok, left_rounds in *. destruct (b_pc q) as [[]| | | | | |]; try done; [by rewrite E1|]. destruct Hg as [-> ->].
      split; [by rewrite E1|]. unfold contributions. f_equal. symmetry. apply (sum_insert_same _ _ _ p); [done|].
      rewrite (extends_lookup (b_hist p) (b_hist p') x); [done|done|]. destruct (b_hist q); [done|]. cbn in *. lia.
Qed.

(** A step that changes no sum and no bit. *)
Lemma store_quiet kv kv' l i p p' :
  control_ok l → (∀ p, p ∈ l → proc_ok p) → store_ok kv l → l !! i = Some p → b_sent p' = b_sent p → b_hist p' = b_hist p →
  nsent p' = nsent p → published p' && b_blocked p' = published p && b_blocked p →
  (∀ k, kv_get (sent_key k) kv' = kv_get (sent_key k) kv) → (∀ k, kv_get (recv_key k) kv' = kv_get (recv_key k) kv) →
  (∀ j, kv_get (word_key j) kv' = kv_get (word_key j) kv) →
  match b_pc p' with
  | Register (Get_recv gs) => gs = Z.of_nat (sum_list_with b_sent l)
  | Loop gs gr => gs = Z.of_nat (sum_list_with b_sent l) ∧ gr = Z.of_nat (contributions (pred (length (b_hist p'))) l)
  | _ => True
  end → store_ok kv' (<[i := p']> l).
Proof.
  intros Hc Hok Hs Hi Es Eh En Eb H1 H2 H3 H4. apply (store_insert kv kv' l i p p' []); rewrite ?app_nil_r; try done.
  - intros k. rewrite H1, En. lia.
  - intros k. rewrite H2, Eh. lia.
  - intros j. rewrite H3. case_decide as E; [|done]. subst j. rewrite Eb. by apply (so_bits _ _ Hs).
  - destruct (b_pc p') as [[]| | | | | |]; try done. destruct H4. by split_and!.
Qed.

Lemma store_stay kv l i p p' :
  control_ok l → (∀ p, p ∈ l → proc_ok p) → store_ok kv l → l !! i = Some p → b_sent p' = b_sent p → b_hist p' = b_hist p →
  b_pc p' = b_pc p → b_blocked p' = b_blocked p → store_ok kv (<[i := p']> l).
Proof.
  intros Hc Hok Hs Hi Es Eh Ep Eb. assert (p ∈ l) as Hel by (by eapply list_elem_of_lookup_2).
  apply (store_quiet kv kv l i p p'); try done; unfold nsent, published; rewrite ?Ep, ?Eh, ?Eb; try done.
  exact (so_get _ _ Hs p Hel).
Qed.

Lemma store_barrier kv l i p pc :
  control_ok l → (∀ p, p ∈ l → proc_ok p) → store_ok kv l → l !! i = Some p → after_barrier (b_pc p) = Some pc →
  store_ok kv (<[i := p <| b_pc := pc |>]> l).
Proof.
  intros Hc Hok Hs Hi Hb. apply (store_quiet kv kv l i p); try done; unfold nsent, published; cbn;
    destruct (b_pc p) as [[]| | | |[]| |]; try done; by injection Hb as <-.
Qed.

(** What a process reads after the barrier of its round. *)
Lemma sums_complete kv l p :
  control_ok l → store_ok kv l → p ∈ l → left_rounds p = length (b_hist p) → b_hist p ≠ [] →
  kv_get (sent_key (pred (length (b_hist p)))) kv = Z.of_nat (sum_list_with b_sent l).
Proof.
  intros Hc Hs Hp Hl Hn. rewrite (so_sent _ _ Hs). f_equal. set (k := pred (length (b_hist p))).
  assert (∀ q, q ∈ l → k < nsent q) as Hall.
  { intros q Hq. pose proof (co_left _ Hc p q Hp Hq). rewrite Hl in *. unfold nsent, k. destruct (b_hist p); [done|]. cbn in *.
    destruct (b_pc q) as [[]| | | | | |]; lia. }
  clear -Hall. induction l as [|q l IH]; [done|]. rewrite !sum_cons, decide_True by (apply Hall; by left). f_equal. apply IH.
  intros a Ha. apply Hall. by right.
Qed.

Lemma store_register r i kv l p kv' p' :
  control_ok l → (∀ p, p ∈ l → proc_ok p) → store_ok kv l → l !! i = Some p → b_pc p = Register r →
  registerLocalSendsAndRecvs r kv p = Some (kv', p') → store_ok kv' (<[i := p']> l).
Proof.
  intros Hc Hok Hs Hi Epc. assert (p ∈ l) as Hel by (by eapply list_elem_of_lookup_2). pose proof (po_pc _ (Hok p Hel)) as Hpc.
  unfold registerLocalSendsAndRecvs. unfold pc_ok in Hpc. rewrite Epc in Hpc. destruct r; intros E; try done.
  all: try (injection E as <- <-; apply (store_quiet kv kv l i p); try done; unfold nsent, published; cbn; rewrite Epc; done).
  - injection E as <- <-. apply (store_insert kv _ l i p _ []); try done; cbn; rewrite ?app_nil_r; try done.
    + intros k. rewrite kv_get_INCRBY. unfold nsent. cbn. rewrite Epc. case_decide as Ek; [injection Ek as ->|]; repeat case_decide; try lia.
      destruct Ek. f_equal. lia.
    + intros k. by rewrite kv_get_INCRBY, decide_False by done.
    + intros j. rewrite kv_get_INCRBY, decide_False by done. case_decide as Ej; [|done]. subst j. rewrite (so_bits _ _ Hs i p Hi). unfold published. by rewrite Epc.
  - injection E as <- <-. apply (store_insert kv _ l i p _ [n]); try done; cbn; try done.
    + intros k. rewrite kv_get_INCRBY, decide_False by done. unfold nsent, enter. cbn. rewrite Epc, length_app, Nat.add_comm. done.
    + intros k. rewrite kv_get_INCRBY. unfold enter. cbn. case_decide as Ek; [injection Ek as ->|].
      * rewrite lookup_ge_None_2, list_lookup_middle by done. cbn. lia.
      * assert (k ≠ length (b_hist p)) as Hk by (intros ->; done). f_equal. destruct (decide (k < length (b_hist p))) as [Hlt|Hge].
        { by rewrite lookup_app_l by done. }
        rewrite !lookup_ge_None_2; [done|rewrite length_app; cbn; lia|lia].
    + intros j. rewrite kv_get_INCRBY, decide_False by done. case_decide as Ej; [|done]. subst j. rewrite (so_bits _ _ Hs i p Hi). unfold published. by rewrite Epc.
  - injection E as <- <-. apply (store_quiet kv kv l i p); try done; unfold nsent, published; cbn; rewrite ?Epc; try done.
    apply (sums_complete kv l p); try done. unfold left_rounds. by rewrite Epc.
  - injection E as <- <-. apply (store_quiet kv kv l i p); try done; unfold nsent, published; cbn; rewrite ?Epc; try done.
    pose proof (so_get _ _ Hs p Hel) as Hg. rewrite Epc in Hg. split; [done|]. by rewrite (so_recv _ _ Hs).
Qed.

Lemma store_unblock u i kv l p kv' p' :
  control_ok l → (∀ p, p ∈ l → proc_ok p) → store_ok kv l → l !! i = Some p → b_pc p = Unblock u →
  unblockPendingRecvs members i u kv p = Some (kv', p') → store_ok kv' (<[i := p']> l).
Proof.
  intros Hc Hok Hs Hi Epc. unfold unblockPendingRecvs. destruct u; intros E; try done.
  all: try (injection E as <- <-; apply (store_quiet kv kv l i p); try done; unfold nsent, published; cbn; rewrite Epc; done).
  - injection E as <- <-. destruct (b_blocked p) eqn:Eb.
    + apply (store_insert kv _ l i p _ []); try done; cbn; rewrite ?app_nil_r; try done.
      * intros k. rewrite kv_get_OR, decide_False by done. unfold nsent. cbn. by rewrite Epc.
      * intros k. by rewrite kv_get_OR, decide_False by done.
      * intros j. rewrite bit_OR. unfold published. cbn. rewrite Eb. done.
    + apply (store_quiet kv kv l i p); try done; unfold nsent, published; cbn; by rewrite ?Epc, ?Eb.
  - assert (∀ p', b_sent p' = b_sent p → b_hist p' = b_hist p → b_blocked p' = b_blocked p → published p' = true → nsent p' = length (b_hist p) →
      match b_pc p' with Register _ | Loop _ _ => False | _ => True end → store_ok kv (<[i := p']> l)) as Hq.
    { intros q E1 E2 E3 E4 E5 E6. apply (store_quiet kv kv l i p); try done; [by rewrite E5; unfold nsent; rewrite Epc| |by destruct (b_pc q)].
      rewrite E3, E4. unfold published. by rewrite Epc. }
    destruct (b_blocked p) eqn:Eb; [|injection E as <- <-; by apply Hq].
    destruct (choose_sender _ _ _) as [s|]; [|done]. cbn in E. destruct (_ !! s); [|done]. injection E as <- <-. by apply Hq.
  - destruct (request_INCRBY _ _ _ _) as [s kv1] eqn:Er. injection E as <- <-.
    assert (kv1 = (request_INCRBY P2P (ndummies_key (Z.of_nat sender)) 1 kv).2) as -> by (by rewrite Er).
    apply (store_quiet kv _ l i p); try done; unfold nsent, published; cbn; rewrite ?Epc; try done; intros k; by rewrite kv_get_INCRBY, decide_False.
  - injection E as <- <-. apply (store_quiet kv _ l i p); try done; unfold nsent, published, enter; cbn; rewrite ?Epc; try done; intros k; by rewrite kv_get_text.
  - destruct (_ <? _)%Z; [done|]. injection E as <- <-. apply (store_quiet kv kv l i p); try done; unfold nsent, published, enter; cbn; by rewrite ?Epc.
Qed.

Lemma store_ckpt i kv l p kv' p' :
  control_ok l → (∀ p, p ∈ l → proc_ok p) → store_ok kv l → l !! i = Some p → drainInFlightP2p members i kv p = Some (kv', p') →
  store_ok kv' (<[i := p']> l).
Proof.
  intros Hc Hok Hs Hi. unfold drainInFlightP2p. destruct (b_pc p) as [r|gs gr| | |u| |] eqn:Epc; intros E; try done.
  - by eapply store_register.
  - injection E as <- <-. apply (store_quiet kv kv l i p); try done; unfold nsent, published; cbn; rewrite ?Epc; by destruct (_ <? _)%Z.
  - injection E as <- <-. apply (store_quiet kv kv l i p); try done; unfold nsent, published; cbn; by rewrite Epc.
  - injection E as <- <-. apply (store_quiet kv kv l i p); try done; unfold nsent, published; cbn; by rewrite Epc.
  - by eapply store_unblock.
Qed.
End steps.
