(* ===== verification/BarrierDrainPosts.v ===== *)
(** * The dummies of the drain with barriers *)
From S2P Require Import Prelude Kvdb P2p P2pDrain P2pJob P2pJobInv BarrierDrain BarrierDrainInv BarrierDrainControl BarrierDrainSteps.
#[local] Open Scope nat_scope.

Section posts.
Context `{KvdbLaws K} `{!KvdbText K, !KvdbTextLaws K}.
Context (members : Z → list nat).

Lemma sender_ok_insert l i p p' e j :
  l !! i = Some p → b_blocked p' = b_blocked p → sender_ok members l e j → sender_ok members (<[i := p']> l) e j.
Proof.
  intros Hi Eb [Hj Hs]. split; [done|]. destruct (e_source e); [done|]. destruct Hs as (q & Hq & Hb).
  destruct (decide (i = j)) as [<-|Hne].
  - exists p'. rewrite list_lookup_insert_eq by (by eapply lookup_lt_Some). split; [done|]. congruence.
  - exists q. by rewrite list_lookup_insert_ne.
Qed.

(** A step of process [i] that posts and sends nothing. *)
Lemma posts_insert kv kv' l i p p' :
  posts_ok members kv l → l !! i = Some p → b_env p' = b_env p → b_post p' = b_post p → b_blocked p' = b_blocked p →
  (in_recv p' = true → in_recv p = true ∨ b_blocked p = true) →
  (∀ j, kv_get (ndummies_key (Z.of_nat j)) kv' = kv_get (ndummies_key (Z.of_nat j)) kv) →
  (∀ i' q j s, i' ≠ i → l !! i' = Some q → b_post q = Some (j, s) → posted_dummy members j s kv' = posted_dummy members j s kv) →
  (∀ j, b_pc p' = Unblock (Fetch_slot j) → sender_ok members l (b_env p) j) →
  (∀ j s, b_post p = Some (j, s) →
     b_pc p' = Unblock (Set_text j s) ∨ ∃ d, posted_dummy members j s kv' = Some (i, d) ∧ dummy_for (b_env p) d) →
  (∀ k n, b_pc p' = Unblock (Send k n) → n = kv_get (ndummies_key (Z.of_nat i)) kv ∧ (0 ≤ k ≤ n)%Z) →
  sent_slots kv' i p' = sent_slots kv i p →
  Forall (dummy_for (b_env p)) (b_dummies p') →
  length (b_dummies p') + got_dummies p' = length (b_dummies p) + got_dummies p →
  posts_ok members kv' (<[i := p']> l).
Proof.
  intros Hps Hi Ee Ep Eb Hrv Hnd Htx Hf Hsl Hsd Hss Hdf Hlen.
  assert (∀ j q, l !! j = Some q → sent_slots kv' j q = sent_slots kv j q) as Hso.
  { intros j q _. unfold sent_slots. by destruct (b_pc q) as [| | | |[]| |]; rewrite ?Hnd. }
  assert (i < length l) as Hlt by (by eapply lookup_lt_Some).
  split.
  - intros a q Ha Hq. rewrite length_insert. apply list_lookup_insert_Some in Ha as [(<- & -> & _)|[_ Ha]].
    + rewrite Ee. apply (ps_env _ _ _ Hps i p Hi). rewrite Eb in Hq. destruct Hq; auto.
    + by apply (ps_env _ _ _ Hps).
  - intros q j [->|Hq]%elem_of_insert_inv Hpc; apply (sender_ok_insert l i p); try done.
    + rewrite Ee. by apply Hf.
    + by apply (ps_fetch _ _ _ Hps q).
  - intros a q j s Ha Hq. rewrite Hnd. apply list_lookup_insert_Some in Ha as [(<- & -> & _)|[Hne Ha]].
    + rewrite Ep in Hq. destruct (ps_slot _ _ _ Hps i p j s Hi Hq) as (H1 & H2 & _). rewrite Ee. split_and!; try lia; [|by apply Hsl].
      by apply (sender_ok_insert l i p).
    + destruct (ps_slot _ _ _ Hps a q j s Ha Hq) as (H1 & H2 & H3). split_and!; try lia; [by apply (sender_ok_insert l i p)|].
      rewrite (Htx a q j s) by done. done.
  - intros j. rewrite Hnd. apply (ps_count _ _ _ Hps).
  - intros j s. rewrite Hnd. intros Hs. destruct (ps_owner _ _ _ Hps j s Hs) as (a & q & Ha & Hq). exists a. destruct (decide (i = a)) as [<-|Hne].
    + exists p'. rewrite list_lookup_insert_eq by done. split; [done|]. congruence.
    + exists q. by rewrite list_lookup_insert_ne.
  - intros a b q r x Ha Hb Hq Hr.
    assert (∃ q', l !! a = Some q' ∧ b_post q' = Some x) as (q' & Hq' & Eq').
    { apply list_lookup_insert_Some in Ha as [(<- & -> & _)|[_ Ha]]; [exists p; by rewrite <- Ep|by exists q]. }
    assert (∃ r', l !! b = Some r' ∧ b_post r' = Some x) as (r' & Hr' & Er').
    { apply list_lookup_insert_Some in Hb as [(<- & -> & _)|[_ Hb]]; [exists p; by rewrite <- Ep|by exists r]. }
    by apply (ps_unique _ _ _ Hps a b q' r' x).
  - intros a q k n Ha Hq. rewrite Hnd. apply list_lookup_insert_Some in Ha as [(<- & -> & _)|[_ Ha]]; [by apply Hsd|by apply (ps_send _ _ _ Hps a q)].
  - assert (∀ j q, l !! j = Some q → ∃ q', <[i := p']> l !! j = Some q' ∧ sent_slots kv' j q' = sent_slots kv j q) as Hsr.
    { intros j q Hj. destruct (decide (i = j)) as [<-|Hne].
      - exists p'. rewrite list_lookup_insert_eq by done. split; [done|]. rewrite Hss. f_equal. congruence.
      - exists q. rewrite list_lookup_insert_ne by done. split; [done|]. by apply Hso. }
    intros a q Ha. apply list_lookup_insert_Some in Ha as [(<- & <- & _)|[_ Ha]].
    + rewrite Ee, Ep. split; [done|]. destruct (ps_dummies _ _ _ Hps i p Hi) as [_ Hd]. destruct (b_post p) as [[j s]|].
      * destruct Hd as (q0 & Hj & Hd). destruct (Hsr j q0 Hj) as (q' & Hq' & Es). exists q'. split; [done|]. by rewrite Hlen, Hd, Es.
      * destruct Hd as [E1 E2]. rewrite E1, E2 in Hlen. cbn in Hlen. destruct (b_dummies p'); cbn in Hlen; [split; [done|lia]|lia].
    + destruct (ps_dummies _ _ _ Hps a q Ha) as [Hd1 Hd]. split; [done|]. destruct (b_post q) as [[j s]|]; [|done].
      destruct Hd as (r & Hj & Hd). destruct (Hsr j r Hj) as (r' & Hr' & Es). exists r'. split; [done|]. by rewrite Hd, Es.
Qed.

(** ** Before the barriers *)

Lemma no_posts l p q :
  control_ok l → (∀ p, p ∈ l → proc_ok p) → p ∈ l → q ∈ l → stage p = 0 → b_post q = None ∧ passed q = 0.
Proof.
  intros Hc Hok Hp Hq Es. pose proof (co_passed _ Hc q p Hq Hp) as Hl. rewrite Es in Hl. split; [|lia].
  pose proof (po_post _ (Hok q Hq)) as Hpo. unfold post_ok, passed in *. destruct (b_pc q) as [| | | |[]| |]; done || lia.
Qed.
Lemma no_sends kv l p q j :
  control_ok l → p ∈ l → q ∈ l → stage p ≤ 1 → sent_slots (K:=K) kv j q = 0%Z ∧ passed q ≤ 1.
Proof.
  intros Hc Hp Hq Es. pose proof (co_passed _ Hc q p Hq Hp) as Hl. split; [|lia].
  unfold sent_slots, passed in *. destruct (b_pc q) as [| | | |[]| |]; done || lia.
Qed.
Lemma post_blocked p x : proc_ok p → b_post p = Some x → b_blocked p = true.
Proof.
  intros Hok E. pose proof (po_post _ Hok) as Hpo. unfold post_ok in Hpo. rewrite E in Hpo.
  destruct (b_pc p) as [| | | |[]| |]; try done; try (by destruct Hpo); apply Hpo; by eexists.
Qed.

(** ** The slot is closed *)

Lemma posts_close kv l i p :
  control_ok l → (∀ p, p ∈ l → proc_ok p) → posts_ok members kv l → l !! i = Some p → b_pc p = Unblock Close_slot →
  posts_ok members kv (<[i := p <| b_slot := if bool_decide (b_slot p = PENDING_RECV_IDLE) then PENDING_RECV_CLOSED else b_slot p |>
     <| b_blocked := bool_decide (b_slot p = PENDING_RECV_ACTIVE) |> <| b_pc := Unblock Set_bit |>]> l).
Proof.
  intros Hc Hok Hps Hi Epc. assert (p ∈ l) as Hel by (by eapply list_elem_of_lookup_2). set (p' := p <| b_slot := _ |> <| b_blocked := _ |> <| b_pc := _ |>).
  assert (∀ q, q ∈ l → b_post q = None ∧ passed q = 0) as Hno by (intros q Hq; apply (no_posts l p q); try done; unfold stage; by rewrite Epc).
  assert (∀ a q, <[i := p']> l !! a = Some q → b_post q = None) as Hno'.
  { intros a q Ha. apply list_lookup_insert_Some in Ha as [(_ & <- & _)|[_ Ha]]; [by apply (Hno p)|]. by eapply Hno, list_elem_of_lookup_2. }
  assert (∀ q u, q ∈ <[i := p']> l → b_pc q = Unblock u → match u with Fetch_slot _ | Send _ _ => False | _ => True end) as Hpc'.
  { intros q u [->|Hq]%elem_of_insert_inv E; [by injection E as <-|]. destruct (Hno q Hq) as [_ Ep]. unfold passed in Ep. rewrite E in Ep. by destruct u. }
  pose proof (po_slot _ (Hok p Hel)) as Hsl. split.
  - intros a q Ha Hq. rewrite length_insert. apply list_lookup_insert_Some in Ha as [(<- & <- & _)|[_ Ha]]; [|by apply (ps_env _ _ _ Hps)].
    apply (ps_env _ _ _ Hps i p Hi). left. destruct Hq as [Hq|Hq]; [done|]. cbn in Hq. apply Hsl. by apply bool_decide_eq_true in Hq.
  - intros q j Hq E. destruct (Hpc' q _ Hq E).
  - intros a q j s Ha E. rewrite (Hno' a q Ha) in E. done.
  - apply (ps_count _ _ _ Hps).
  - intros j s Hs. destruct (ps_owner _ _ _ Hps j s Hs) as (a & q & Ha & Hq).
    destruct (Hno q) as [E _]; [by eapply list_elem_of_lookup_2|congruence].
  - intros a b q r x Ha Hb E. rewrite (Hno' a q Ha) in E. done.
  - intros a q k n Ha E. destruct (Hpc' q (Send k n)); [by eapply list_elem_of_lookup_2|done].
  - intros a q Ha. rewrite (Hno' a q Ha). apply list_lookup_insert_Some in Ha as [(<- & <- & _)|[_ Ha]].
    + destruct (ps_dummies _ _ _ Hps i p Hi) as [Hd1 Hd]. rewrite (proj1 (Hno p Hel)) in Hd. destruct Hd as [E1 E2]. split; [done|]. split; [done|].
      unfold got_dummies, had_dummy, in_recv in *. cbn. destruct (b_app p) as [| |[]|[]|[]]; try lia. rewrite bool_decide_false; [lia|]. intros E. by apply Hsl in E.
    + destruct (ps_dummies _ _ _ Hps a q Ha) as [Hd1 Hd]. rewrite (proj1 (Hno q ltac:(by eapply list_elem_of_lookup_2))) in Hd. done.
Qed.

(** ** The sender is chosen *)

Lemma first_unblocked_spec (kv : K) ms i z :
  first_unblocked kv ms i = Some z →
  ∃ n r, z = (i + Z.of_nat n)%Z ∧ ms !! n = Some r ∧ Z.testbit (kv_get (blocked_key (Z.quot r 64)) kv) (Z.rem r 64) = false.
Proof.
  revert i. induction ms as [|r ms IH]; intros i; [done|]. cbn [first_unblocked]. destruct (negb _) eqn:Eb.
  - intros [= <-]. exists 0, r. split; [lia|]. split; [done|]. by apply negb_true_iff in Eb.
  - intros E. destruct (IH _ E) as (n & r' & -> & Hn & Hb). exists (S n), r'. split; [lia|]. done.
Qed.

Lemma choose_sender_ok kv l e s j i :
  store_ok kv l → env_ok members (length l) i e → (∀ q, q ∈ l → published q = true) →
  choose_sender members kv e = Some s → members (e_gid e) !! s = Some j → sender_ok members l e j.
Proof.
  intros Hs (Hnd & _ & Hlt & _) Hpub Hch Hj. split; [by eapply list_elem_of_lookup_2|]. unfold choose_sender in Hch.
  destruct (e_source e) as [s0|] eqn:Es; [destruct (_ <? _); [|done]; by injection Hch as ->|].
  destruct (first_unblocked _ _ _) as [z|] eqn:Ef; [|done]. injection Hch as <-.
  destruct (first_unblocked_spec _ _ _ _ Ef) as (m & r & -> & Hm & Hb). rewrite Z.add_0_l, Nat2Z.id in Hj.
  rewrite list_lookup_fmap, Hj in Hm. injection Hm as <-. rewrite Forall_forall in Hlt.
  destruct (lookup_lt_is_Some_2 l j) as [q Hq]; [apply Hlt; by eapply list_elem_of_lookup_2|]. exists q. split; [done|].
  pose proof (so_bits _ _ Hs j q Hq) as E. unfold word_key, rank_bit in E. rewrite Hb, Hpub in E by (by eapply list_elem_of_lookup_2). done.
Qed.

(** ** The dummy's text *)

Lemma posted_dummy_set kv l i e j s :
  env_ok members (length l) i e → sender_ok members l e j →
  ∃ d, posted_dummy members j s (set_text P2P (dummy_key (Z.of_nat j) s) [e_gid e; Z.of_nat (e_me e); default 0%Z (e_tag e); e_bytes e] kv) = Some (i, d)
    ∧ dummy_for e d.
Proof.
  intros (Hnd & Hme & _ & _) [Hj Hs]. unfold posted_dummy. rewrite set_text_eq. cbn. rewrite Nat2Z.id, Hme. cbn.
  destruct (list_find_elem_of (eq j) _ j Hj eq_refl) as [[a b] Ef]. rewrite Ef. cbn. apply list_find_Some in Ef as (Ha & <- & _).
  eexists. split; [done|]. split; [|done]. unfold env_matches. cbn. rewrite Z.eqb_refl. cbn.
  assert (match e_tag e with Some t => (default 0%Z (e_tag e) =? t)%Z | None => true end = true) as -> by (destruct (e_tag e); [by apply Z.eqb_refl|done]).
  rewrite andb_true_r. destruct (e_source e) as [s0|]; [|done]. rewrite (NoDup_lookup _ a s0 j Hnd Ha Hs). by apply Nat.eqb_refl.
Qed.

(** ** A slot is taken *)

Lemma posted_dummy_INCRBY kv key v j s :
  posted_dummy members j s (request_INCRBY P2P key v kv).2 = posted_dummy members j s kv.
Proof. unfold posted_dummy. by rewrite INCRBY_text. Qed.

Lemma posts_fetch kv l i p j :
  control_ok l → (∀ p, p ∈ l → proc_ok p) → posts_ok members kv l → l !! i = Some p → b_pc p = Unblock (Fetch_slot j) →
  posts_ok members (request_INCRBY P2P (ndummies_key (Z.of_nat j)) 1 kv).2
    (<[i := p <| b_pc := Unblock (Set_text j (kv_get (ndummies_key (Z.of_nat j)) kv)) |>
              <| b_post := Some (j, kv_get (ndummies_key (Z.of_nat j)) kv) |>]> l).
Proof.
  intros Hc Hok Hps Hi Epc. assert (p ∈ l) as Hel by (by eapply list_elem_of_lookup_2).
  assert (i < length l) as Hlt by (by eapply lookup_lt_Some).
  set (n := kv_get (ndummies_key (Z.of_nat j)) kv). set (kv' := (request_INCRBY _ _ _ _).2).
  set (p' := p <| b_pc := _ |> <| b_post := _ |>).
  assert (∀ a, kv_get (ndummies_key (Z.of_nat a)) kv' = if decide (a = j) then (n + 1)%Z else kv_get (ndummies_key (Z.of_nat a)) kv) as Hnd.
  { intros a. unfold kv'. rewrite kv_get_INCRBY. repeat case_decide; naive_solver lia. }
  pose proof (ps_count _ _ _ Hps j) as Hn0. fold n in Hn0.
  pose proof (ps_fetch _ _ _ Hps p j Hel Epc) as Hsend. pose proof (po_post _ (Hok p Hel)) as Hpp. unfold post_ok in Hpp. rewrite Epc in Hpp. destruct Hpp as [Hbl Hpn].
  assert (∀ kv a q, q ∈ l → sent_slots (K:=K) kv a q = 0%Z ∧ passed q ≤ 1) as Hss.
  { intros kv0 a q Hq. apply (no_sends kv0 l p q a); try done. unfold stage. rewrite Epc. lia. }
  assert (∀ a q x, l !! a = Some q → b_post q = Some x → a ≠ i) as Hni by (intros a q x Ha Hx ->; congruence).
  split.
  - intros a q Ha Hq. rewrite length_insert. apply list_lookup_insert_Some in Ha as [(<- & <- & _)|[_ Ha]]; [exact (ps_env _ _ _ Hps i p Hi Hq)|by apply (ps_env _ _ _ Hps)].
  - intros q a [->|Hq]%elem_of_insert_inv E; [done|]. apply (sender_ok_insert l i p); try done. by apply (ps_fetch _ _ _ Hps q).
  - intros a q b s Ha Hq. apply list_lookup_insert_Some in Ha as [(<- & <- & _)|[_ Ha]].
    + injection Hq as <- <-. rewrite Hnd, decide_True by done. split_and!; [lia|lia|by apply (sender_ok_insert l i p)|by left].
    + destruct (ps_slot _ _ _ Hps a q b s Ha Hq) as (H1 & H2 & H3). split; [rewrite Hnd; case_decide; [subst b; lia|done]|].
      split; [by apply (sender_ok_insert l i p)|]. unfold kv'. by rewrite posted_dummy_INCRBY.
  - intros a. rewrite Hnd. case_decide; [lia|apply (ps_count _ _ _ Hps)].
  - intros a s. rewrite Hnd. intros Hs. destruct (decide (a = j ∧ s = n)) as [[-> ->]|Hne].
    + exists i, p'. by rewrite list_lookup_insert_eq.
    + destruct (ps_owner _ _ _ Hps a s) as (b & q & Hb & Hq); [case_decide; [subst a; naive_solver lia|done]|].
      exists b, q. rewrite list_lookup_insert_ne; [done|]. by apply not_eq_sym, (Hni b q (a, s)).
  - assert (∀ a q, l !! a = Some q → b_post q ≠ Some (j, n)) as Hfr.
    { intros a q Ha Hq. destruct (ps_slot _ _ _ Hps a q j n Ha Hq) as (H1 & _). unfold n in *. lia. }
    intros a b q r x Ha Hb Hq Hr. apply list_lookup_insert_Some in Ha, Hb. destruct Ha as [(<- & <- & _)|[_ Ha]], Hb as [(<- & <- & _)|[_ Hb]].
    + done.
    + injection Hq as <-. by destruct (Hfr b r Hb).
    + injection Hr as <-. by destruct (Hfr a q Ha).
    + by apply (ps_unique _ _ _ Hps a b q r x).
  - intros a q k m Ha E. assert (q ∈ l ∨ q = p') as [Hq| ->].
    { apply list_lookup_insert_Some in Ha as [(_ & <- & _)|[_ Ha]]; [by right|left; by eapply list_elem_of_lookup_2]. }
    + destruct (Hss kv a q Hq) as [_ Hp]. unfold passed in Hp. rewrite E in Hp. lia.
    + done.
  - assert (∀ a q, <[i := p']> l !! a = Some q → sent_slots kv' a q = 0%Z) as Hss'.
    { intros a q Ha. apply list_lookup_insert_Some in Ha as [(_ & <- & _)|[_ Ha]]; [done|]. by eapply Hss, list_elem_of_lookup_2. }
    intros a q Ha. apply list_lookup_insert_Some in Ha as [(<- & <- & _)|[_ Ha]].
    + destruct (ps_dummies _ _ _ Hps i p Hi) as [Hd1 Hd]. rewrite Hpn in Hd. destruct Hd as [E1 E2]. split; [done|].
      destruct (ps_env _ _ _ Hps i p Hi (or_intror Hbl)) as (_ & _ & Hall & _). rewrite Forall_forall in Hall.
      destruct (lookup_lt_is_Some_2 (<[i := p']> l) j) as [q Hq]; [rewrite length_insert; apply Hall, Hsend|].
      exists q. split; [done|]. rewrite (Hss' j q Hq), decide_False by lia. unfold got_dummies, had_dummy, p' in *. cbn. rewrite E1. done.
    + destruct (ps_dummies _ _ _ Hps a q Ha) as [Hd1 Hd]. split; [done|]. destruct (b_post q) as [[b s]|]; [|done].
      destruct Hd as (r & Hb & Hd). rewrite (proj1 (Hss kv b r ltac:(by eapply list_elem_of_lookup_2))) in Hd.
      destruct (lookup_lt_is_Some_2 (<[i := p']> l) b) as [r' Hr']; [rewrite length_insert; by eapply lookup_lt_Some|].
      exists r'. split; [done|]. by rewrite (Hss' b r' Hr').
Qed.

(** ** The other steps of the checkpoint thread *)

(** The requests of a step that posts nothing leave the posted dummies. *)
Definition same_posts (kv kv' : K) : Prop :=
  (∀ j, kv_get (ndummies_key (Z.of_nat j)) kv' = kv_get (ndummies_key (Z.of_nat j)) kv) ∧
  (∀ j s, posted_dummy members j s kv' = posted_dummy members j s kv).
Lemma same_posts_refl kv : same_posts kv kv.
Proof. done. Qed.
Lemma same_posts_INCRBY kv key v : (∀ z, key ≠ ndummies_key z) → same_posts kv (request_INCRBY P2P key v kv).2.
Proof.
  intros Hk. split; intros j; [|intros s; apply posted_dummy_INCRBY]. rewrite kv_get_INCRBY, decide_False; [done|]. intros E. by apply (Hk (Z.of_nat j)).
Qed.
Lemma same_posts_OR kv r v : same_posts kv (request_OR P2P (word_key r) v kv).
Proof. split; intros j; [by rewrite kv_get_OR|intros s; unfold posted_dummy; by rewrite OR_text]. Qed.

Lemma posts_move kv kv' l i p p' :
  posts_ok members kv l → l !! i = Some p → same_posts kv kv' →
  app_side p' = app_side p → b_post p' = b_post p → b_blocked p' = b_blocked p →
  (∀ j s, b_pc p ≠ Unblock (Set_text j s)) → (∀ j, b_pc p' = Unblock (Fetch_slot j) → sender_ok members l (b_env p) j) →
  (∀ k n, b_pc p' = Unblock (Send k n) → n = kv_get (ndummies_key (Z.of_nat i)) kv ∧ (0 ≤ k ≤ n)%Z) →
  sent_slots kv i p' = sent_slots kv i p → posts_ok members kv' (<[i := p']> l).
Proof.
  intros Hps Hi [Hk1 Hk2] Ea Ep Eb Hn Hf Hsd Hss. injection Ea as Ee _ _ Eapp _ Ed _ Et.
  apply (posts_insert kv kv' l i p p'); try done.
  - unfold in_recv. rewrite Eapp. by left.
  - intros j s E. destruct (ps_slot _ _ _ Hps i p j s Hi E) as (_ & _ & [Ht|Ht]); [by destruct (Hn j s)|right; by rewrite Hk2].
  - rewrite <- Hss. unfold sent_slots. by destruct (b_pc p') as [| | | |[]| |]; rewrite ?Hk1.
  - rewrite Ed. by apply (ps_dummies _ _ _ Hps i p Hi).
  - unfold got_dummies, had_dummy. by rewrite Ed, Eapp, Eb, Et.
Qed.

Lemma posts_text kv l i p j s :
  posts_ok members kv l → l !! i = Some p → b_pc p = Unblock (Set_text j s) → b_blocked p = true → b_post p = Some (j, s) →
  posts_ok members (set_text P2P (dummy_key (Z.of_nat j) s) [e_gid (b_env p); Z.of_nat (e_me (b_env p)); default 0%Z (e_tag (b_env p)); e_bytes (b_env p)] kv)
    (<[i := enter Pending_Recv_Posted (Unblock In_posted) p]> l).
Proof.
  intros Hps Hi Epc Hb Hp. set (kv' := set_text _ _ _ _).
  apply (posts_insert kv kv' l i p); try done.
  - by left.
  - intros a. unfold kv'. by rewrite kv_get_text.
  - intros a q b s' Ha Hq Eq. unfold posted_dummy, kv'. rewrite set_text_ne; [done|]. intros [= E1 E2].
    assert (b = j) as -> by lia. subst s'. apply Ha. by apply (ps_unique _ _ _ Hps a i q p (j, s)).
  - intros a b E. rewrite Hp in E. injection E as <- <-. right. apply (posted_dummy_set kv l).
    + apply (ps_env _ _ _ Hps i p Hi). by right.
    + by apply (ps_slot _ _ _ Hps i p j s).
  - unfold sent_slots, enter. cbn. by rewrite Epc.
  - by apply (ps_dummies _ _ _ Hps i p Hi).
Qed.

Lemma all_published l p : control_ok l → p ∈ l → 1 ≤ passed p → ∀ q, q ∈ l → published q = true.
Proof.
  intros Hc Hp H1 q Hq. pose proof (co_passed _ Hc p q Hp Hq) as Hle. unfold stage, published in *. destruct (b_pc q) as [| | | |[]| |]; done || lia.
Qed.

Lemma posts_ckpt i kv l p kv' p' :
  control_ok l → (∀ p, p ∈ l → proc_ok p) → store_ok kv l → posts_ok members kv l → l !! i = Some p →
  drainInFlightP2p members i kv p = Some (kv', p') → posts_ok members kv' (<[i := p']> l).
Proof.
  intros Hc Hok Hs Hps Hi E. assert (p ∈ l) as Hel by (by eapply list_elem_of_lookup_2).
  pose proof (ckpt_app_side _ _ _ _ _ _ E) as Ea. pose proof (po_post _ (Hok p Hel)) as Hpo. unfold post_ok in Hpo. revert E.
  unfold drainInFlightP2p, registerLocalSendsAndRecvs, unblockPendingRecvs.
  destruct (b_pc p) as [[]|gs gr| | |[]| |] eqn:Epc; intros E; try done.
  all: try (injection E as <- <-; apply (posts_move kv kv l i p); try done; unfold sent_slots; cbn; rewrite ?Epc; done).
  - injection E as <- <-. apply (posts_move kv _ l i p); try done; unfold sent_slots; cbn; rewrite ?Epc; try done. by apply same_posts_INCRBY.
  - injection E as <- <-. apply (posts_move kv _ l i p); try done; unfold sent_slots; cbn; rewrite ?Epc; try done. by apply same_posts_INCRBY.
  - injection E as <- <-. apply (posts_move kv kv l i p); try done; unfold sent_slots; cbn; rewrite ?Epc; by destruct (_ <? _)%Z.
  - injection E as <- <-. by apply posts_close.
  - injection E as <- <-. apply (posts_move kv _ l i p); try done; unfold sent_slots; cbn; rewrite ?Epc; try done.
    destruct (b_blocked p); [apply same_posts_OR|apply same_posts_refl].
  - destruct (b_blocked p) eqn:Eb; [|injection E as <- <-; apply (posts_move kv kv l i p); try done; unfold sent_slots; cbn; rewrite ?Epc; done].
    destruct (choose_sender _ _ _) as [s|] eqn:Es; [|done]. cbn in E. destruct (members _ !! s) as [j|] eqn:Ej; [|done].
    injection E as <- <-. apply (posts_move kv kv l i p); try done; unfold sent_slots; cbn; rewrite ?Epc, ?Eb; try done.
    intros j' [= <-]. apply (choose_sender_ok kv l (b_env p) s j i); try done; [apply (ps_env _ _ _ Hps i p Hi); by right|].
    apply (all_published l p); try done. unfold passed. by rewrite Epc.
  - pose proof (posts_fetch kv l i p sender Hc Hok Hps Hi Epc) as Hf. pose proof (INCRBY_old P2P (ndummies_key (Z.of_nat sender)) 1%Z kv) as Ho.
    destruct (request_INCRBY _ _ _ _) as [s kv1]. injection E as <- <-. cbn in Ho, Hf. by rewrite Ho.
  - injection E as <- <-. destruct Hpo as [H1 H2]. by apply posts_text.
  - injection E as <- <-. apply (posts_move kv kv l i p); try done; unfold sent_slots; cbn; rewrite ?Epc; try done.
    intros k n [= <- <-]. split; [done|]. pose proof (ps_count _ _ _ Hps i). lia.
  - destruct (Z.ltb_spec k n); [done|]. injection E as <- <-. destruct (ps_send _ _ _ Hps i p k n Hi Epc) as [En Hk].
    apply (posts_move kv kv l i p); try done; unfold sent_slots, enter; cbn; rewrite ?Epc; try done. lia.
Qed.

Lemma posts_barrier kv l i p pc :
  posts_ok members kv l → l !! i = Some p → after_barrier (b_pc p) = Some pc → posts_ok members kv (<[i := p <| b_pc := pc |>]> l).
Proof.
  intros Hps Hi Hb. apply (posts_move kv kv l i p); try done; unfold sent_slots; cbn;
    destruct (b_pc p) as [[]| | | |[]| |]; try done; by injection Hb as <-.
Qed.

(** ** A dummy is sent *)

Definition sent_dummy (i w : nat) (k n : Z) (d : dummy_msg) (a : nat) (q : proc) : proc :=
  let q1 := if decide (a = i) then q <| b_pc := Unblock (Send (k + 1)%Z n) |> else q in
  if decide (a = w) then q1 <| b_dummies ::= λ ds, ds ++ [d] |> else q1.

Lemma sent_dummy_lookup (l : list proc) i p w k n d a :
  l !! i = Some p →
  alter (λ q, q <| b_dummies ::= λ ds, ds ++ [d] |>) w (<[i := p <| b_pc := Unblock (Send (k + 1)%Z n) |>]> l) !! a =
  sent_dummy i w k n d a <$> l !! a.
Proof.
  intros Hi. assert (<[i := p <| b_pc := Unblock (Send (k + 1)%Z n) |>]> l !! a =
      (λ q, if decide (a = i) then q <| b_pc := Unblock (Send (k + 1)%Z n) |> else q) <$> l !! a) as E.
  { destruct (decide (a = i)) as [->|Hne]; [rewrite list_lookup_insert_eq by (by eapply lookup_lt_Some); by rewrite Hi|].
    rewrite list_lookup_insert_ne by done. by destruct (l !! a). }
  unfold sent_dummy. destruct (decide (a = w)) as [->|Hne].
  - rewrite list_lookup_alter_eq, E. by destruct (l !! w).
  - rewrite list_lookup_alter_ne by done. exact E.
Qed.
Lemma sent_dummy_keeps i w k n d a q :
  let q' := sent_dummy i w k n d a q in
  b_env q' = b_env q ∧ b_sent q' = b_sent q ∧ b_recv q' = b_recv q ∧ b_app q' = b_app q ∧ b_real_to q' = b_real_to q ∧
  b_post q' = b_post q ∧ b_blocked q' = b_blocked q ∧ b_hist q' = b_hist q ∧
  b_pc q' = (if decide (a = i) then Unblock (Send (k + 1)%Z n) else b_pc q) ∧
  b_dummies q' = (if decide (a = w) then b_dummies q ++ [d] else b_dummies q) ∧
  b_irecvs q' = b_irecvs q ∧ b_irecv_dummies q' = b_irecv_dummies q.
Proof. unfold sent_dummy. destruct (decide (a = i)), (decide (a = w)); done. Qed.

Lemma posts_send kv l i p k n w d :
  control_ok l → (∀ p, p ∈ l → proc_ok p) → posts_ok members kv l → l !! i = Some p → b_pc p = Unblock (Send k n) → (k < n)%Z →
  posted_dummy members i k kv = Some (w, d) →
  posts_ok members kv (alter (λ q, q <| b_dummies ::= λ ds, ds ++ [d] |>) w (<[i := p <| b_pc := Unblock (Send (k + 1)%Z n) |>]> l)).
Proof.
  intros Hc Hok Hps Hi Epc Hk Hd. assert (p ∈ l) as Hel by (by eapply list_elem_of_lookup_2). set (l' := alter _ _ _).
  assert (∀ a q', l' !! a = Some q' → ∃ q, l !! a = Some q ∧ q' = sent_dummy i w k n d a q) as Hback.
  { intros a q' Ha. unfold l' in Ha. rewrite sent_dummy_lookup in Ha by done. destruct (l !! a) as [q|]; [|done]. injection Ha as <-. by exists q. }
  assert (∀ a q, l !! a = Some q → l' !! a = Some (sent_dummy i w k n d a q)) as Hfwd.
  { intros a q Ha. unfold l'. rewrite sent_dummy_lookup by done. by rewrite Ha. }
  assert (length l' = length l) as Hlen by (unfold l'; by rewrite length_alter, length_insert).
  destruct (ps_send _ _ _ Hps i p k n Hi Epc) as [En Hkn].
  (* the process that asked for this dummy *)
  destruct (ps_owner _ _ _ Hps i k ltac:(lia)) as (o & po & Ho & Hpo).
  assert (w = o ∧ dummy_for (b_env po) d) as [-> Hfor].
  { destruct (ps_slot _ _ _ Hps o po i k Ho Hpo) as (_ & _ & [Ht|(d' & Hd' & Hf)]); [|rewrite Hd in Hd'; by injection Hd' as -> ->].
    pose proof (co_passed _ Hc p po Hel ltac:(by eapply list_elem_of_lookup_2)) as Hp. unfold passed, stage in Hp. rewrite Epc, Ht in Hp. lia. }
  assert (∀ e j, sender_ok members l e j → sender_ok members l' e j) as Hso.
  { intros e j [Hj Hse]. split; [done|]. destruct (e_source e); [done|]. destruct Hse as (q & Hq & Hb). eexists. split; [by apply Hfwd|].
    by destruct (sent_dummy_keeps i o k n d j q) as (_ & _ & _ & _ & _ & _ & -> & _). }
  split.
  - intros a q' Ha Hq. destruct (Hback a q' Ha) as (q & Hq0 & ->). destruct (sent_dummy_keeps i o k n d a q) as (Ee & _ & _ & Eapp & _ & _ & Eb & _).
    rewrite Hlen, Ee. apply (ps_env _ _ _ Hps a q Hq0). unfold in_recv in *. by rewrite Eapp, Eb in Hq.
  - intros q' j Hq' Hpc. apply list_elem_of_lookup in Hq' as (a & Ha). destruct (Hback a q' Ha) as (q & Hq0 & ->).
    destruct (sent_dummy_keeps i o k n d a q) as (Ee & _ & _ & _ & _ & _ & _ & _ & Ep & _). rewrite Ee, Ep in *. case_decide; [done|].
    apply Hso. apply (ps_fetch _ _ _ Hps q); [by eapply list_elem_of_lookup_2|done].
  - intros a q' j s Ha Hq. destruct (Hback a q' Ha) as (q & Hq0 & ->).
    destruct (sent_dummy_keeps i o k n d a q) as (Ee & _ & _ & _ & _ & Epo & _ & _ & Ep & _). rewrite Epo in Hq. rewrite Ee, Ep.
    destruct (ps_slot _ _ _ Hps a q j s Hq0 Hq) as (H1 & H2 & H3). split; [done|]. split; [by apply Hso|].
    destruct H3 as [H3|H3]; [|by right]. left. case_decide; [|done]. subst a. congruence.
  - apply (ps_count _ _ _ Hps).
  - intros j s Hs. destruct (ps_owner _ _ _ Hps j s Hs) as (a & q & Ha & Hq). eexists a, _. split; [by apply Hfwd|].
    by destruct (sent_dummy_keeps i o k n d a q) as (_ & _ & _ & _ & _ & -> & _).
  - intros a b q' r' x Ha Hb Hq Hr. destruct (Hback a q' Ha) as (q & Hq0 & ->), (Hback b r' Hb) as (r & Hr0 & ->).
    destruct (sent_dummy_keeps i o k n d a q) as (_ & _ & _ & _ & _ & Ep & _), (sent_dummy_keeps i o k n d b r) as (_ & _ & _ & _ & _ & Ep' & _).
    apply (ps_unique _ _ _ Hps a b q r x); congruence.
  - intros a q' k' n' Ha Hq. destruct (Hback a q' Ha) as (q & Hq0 & ->). destruct (sent_dummy_keeps i o k n d a q) as (_ & _ & _ & _ & _ & _ & _ & _ & Ep & _).
    rewrite Ep in Hq. case_decide as Ha'; [|by apply (ps_send _ _ _ Hps a q)]. injection Hq as <- <-. subst a. split; [done|]. lia.
  - intros a q' Ha. destruct (Hback a q' Ha) as (q & Hq0 & ->).
    destruct (sent_dummy_keeps i o k n d a q) as (Ee & _ & _ & Eapp & _ & Epo & Eb & _ & _ & Ed & _ & Et). rewrite Ee, Epo, Ed.
    destruct (ps_dummies _ _ _ Hps a q Hq0) as [Hd1 Hd2]. split.
    { case_decide as Ea; [|done]. apply Forall_app. split; [done|]. apply Forall_singleton. subst a. rewrite Ho in Hq0. by injection Hq0 as <-. }
    assert (got_dummies (sent_dummy i o k n d a q) = got_dummies q) as Eh by (unfold got_dummies, had_dummy; by rewrite Eapp, Eb, Et). rewrite Eh.
    destruct (b_post q) as [[j s]|] eqn:Ep.
    + destruct Hd2 as (r & Hr & Hd2). eexists. split; [by apply Hfwd|].
      destruct (sent_dummy_keeps i o k n d j r) as (_ & _ & _ & _ & _ & _ & _ & _ & Epr & _). unfold sent_slots in *. rewrite Epr.
      destruct (decide (j = i)) as [->|Hji].
      * rewrite Hi in Hr. injection Hr as <-. rewrite Epc in Hd2. destruct (decide (a = o)) as [->|Hao].
        { rewrite Ho in Hq0. injection Hq0 as <-. rewrite Hpo in Ep. injection Ep as <-. rewrite length_app. rewrite decide_False in Hd2 by lia.
          rewrite decide_True by lia. cbn. lia. }
        assert (s ≠ k) as Hsk by (intros ->; apply Hao; by apply (ps_unique _ _ _ Hps a o q po (i, k))).
        rewrite Hd2. repeat case_decide; lia.
      * destruct (decide (a = o)) as [->|Hao]; [rewrite Ho in Hq0; injection Hq0 as <-; congruence|]. exact Hd2.
    + rewrite decide_False by (intros ->; congruence). done.
Qed.
End posts.
