(* ===== verification/BarrierDrainSafe.v ===== *)
(** * Every state that the drain with barriers reaches is in the invariant *)
From S2P Require Import Prelude Kvdb P2p P2pDrain P2pJob P2pJobInv BarrierDrain BarrierDrainInv BarrierDrainControl BarrierDrainSteps BarrierDrainPosts.
#[local] Open Scope nat_scope.

Section safe.
Context `{KvdbLaws K} `{!KvdbText K, !KvdbTextLaws K}.
Context (members : Z → list nat).

(** ** The checkpoint thread *)

Lemma control_ckpt i kv l p kv' p' :
  control_ok l → (∀ p, p ∈ l → proc_ok p) → store_ok kv l → l !! i = Some p → drainInFlightP2p members i kv p = Some (kv', p') →
  control_ok (<[i := p']> l).
Proof.
  intros Hc Hok Hs Hi. assert (p ∈ l) as Hel by (by eapply list_elem_of_lookup_2). pose proof (so_get _ _ Hs p Hel) as Hg.
  unfold drainInFlightP2p, registerLocalSendsAndRecvs, unblockPendingRecvs.
  destruct (b_pc p) as [[]|gs gr| | |[]| |] eqn:Epc; intros E; try done.
  all: try (injection E as <- <-; apply (control_step l i p _ []); rewrite ?app_nil_r; try done;
    unfold stage, left_rounds, passed, continued, past_loop, enter; cbn; rewrite ?Epc; done || lia).
  - injection E as <- <-. apply (control_step l i p _ [n]); try done;
      unfold stage, left_rounds, passed, continued, past_loop, enter; cbn; rewrite ?Epc, ?length_app; cbn; done || lia.
  - injection E as <- <-. destruct Hg. by apply control_loop.
  - destruct (b_blocked p); [destruct (choose_sender _ _ _) as [s|]; [|done]; cbn in E; destruct (_ !! s); [|done]|];
      injection E as <- <-; apply (control_step l i p _ []); rewrite ?app_nil_r; try done;
      unfold stage, left_rounds, passed, continued, past_loop, enter; cbn; rewrite ?Epc; done || lia.
  - destruct (request_INCRBY _ _ _ _). injection E as <- <-. apply (control_step l i p _ []); rewrite ?app_nil_r; try done;
      unfold stage, left_rounds, passed, continued, past_loop, enter; cbn; rewrite ?Epc; done || lia.
  - destruct (_ <? _)%Z; [done|]. injection E as <- <-. apply (control_step l i p _ []); rewrite ?app_nil_r; try done;
      unfold stage, left_rounds, passed, continued, past_loop, enter; cbn; rewrite ?Epc; done || lia.
Qed.

Lemma procs_ok_insert (l : list proc) i p' : (∀ p, p ∈ l → proc_ok p) → proc_ok p' → ∀ q, q ∈ <[i := p']> l → proc_ok q.
Proof. intros Hl Hp q [->|Hq]%elem_of_insert_inv; auto. Qed.

(** The messages are the same, in sum. *)
Definition messages (p : proc) : nat := b_recv p + b_real_to p + holds p.
Lemma balance_insert (l : list proc) i p p' :
  l !! i = Some p → b_sent p' = b_sent p → messages p' = messages p →
  sum_list_with b_sent l = sum_list_with b_recv l + sum_list_with b_real_to l + sum_list_with holds l →
  sum_list_with b_sent (<[i := p']> l) =
    sum_list_with b_recv (<[i := p']> l) + sum_list_with b_real_to (<[i := p']> l) + sum_list_with holds (<[i := p']> l).
Proof.
  intros Hi Es Em Hb. rewrite (sum_insert_same b_sent l i p p' Hi Es). unfold messages in Em.
  pose proof (sum_insert b_recv l i p p' Hi). pose proof (sum_insert b_real_to l i p p' Hi). pose proof (sum_insert holds l i p p' Hi). lia.
Qed.

Lemma app_side_balance p p' : app_side p' = app_side p → b_sent p' = b_sent p ∧ messages p' = messages p.
Proof. intros [= E1 E2 E3 E4 E5 E6 _ _]. split; [done|]. unfold messages, holds. by rewrite E3, E4, E5. Qed.

Lemma inv_ckpt i kv l p kv' p' :
  barrier_inv members kv l → l !! i = Some p → drainInFlightP2p members i kv p = Some (kv', p') → barrier_inv members kv' (<[i := p']> l).
Proof.
  intros [Hb Hok Hc Hs Hps] Hi E. assert (p ∈ l) as Hel by (by eapply list_elem_of_lookup_2).
  destruct (app_side_balance p p' (ckpt_app_side _ _ _ _ _ _ E)) as [Es Em]. split.
  - by apply (balance_insert l i p p').
  - apply procs_ok_insert; [done|]. eapply ckpt_proc_ok; [|exact E]. auto.
  - by eapply control_ckpt.
  - by eapply store_ckpt.
  - by eapply posts_ckpt.
Qed.

Lemma inv_barrier i kv l p pc :
  barrier_inv members kv l → l !! i = Some p → after_barrier (b_pc p) = Some pc →
  (∀ q, q ∈ l → length (b_barriers p) ≤ length (b_barriers q)) → barrier_inv members kv (<[i := p <| b_pc := pc |>]> l).
Proof.
  intros [Hb Hok Hc Hs Hps] Hi E Hall. assert (p ∈ l) as Hel by (by eapply list_elem_of_lookup_2). split.
  - by apply (balance_insert l i p).
  - apply procs_ok_insert; [done|]. apply barrier_proc_ok; auto.
  - by apply control_barrier.
  - by apply store_barrier.
  - by apply posts_barrier.
Qed.

Lemma inv_close i kv l p :
  barrier_inv members kv l → l !! i = Some p → b_pc p = Leaving → barrier_inv members kv (<[i := p <| b_pc := Done |>]> l).
Proof.
  intros [Hb Hok Hc Hs Hps] Hi Epc. assert (p ∈ l) as Hel by (by eapply list_elem_of_lookup_2). split.
  - by apply (balance_insert l i p).
  - apply procs_ok_insert; [done|]. destruct (Hok p Hel) as [H1 H2 H3 H4 H5 H6 H7 H8 H9]. unfold pc_ok, stage, recv_ok, past_close, post_ok in *. rewrite Epc in *. by split.
  - apply (control_step l i p _ []); rewrite ?app_nil_r; try done; unfold stage, left_rounds, passed, continued, past_loop; cbn; by rewrite ?Epc.
  - apply (store_quiet kv kv l i p); try done; unfold nsent, published; cbn; by rewrite ?Epc.
  - apply (posts_move members kv kv l i p); try done; unfold sent_slots; cbn; by rewrite ?Epc.
Qed.

(** ** The application thread *)

(** The parts of a process that a step of the application thread leaves. *)
Definition ckpt_side (p : proc) : recv_envelope * nat * bool * barrier_pc * bool * option (nat * Z) * list barrier_name * list nat :=
  (b_env p, b_sent p, b_phase p, b_pc p, b_blocked p, b_post p, b_barriers p, b_hist p).

Lemma barrier_inv_app i kv l p p' :
  barrier_inv members kv l → l !! i = Some p → ckpt_side p' = ckpt_side p → proc_ok p' → messages p' = messages p →
  (in_recv p' = true → in_recv p = true) → Forall (dummy_for (b_env p)) (b_dummies p') →
  length (b_dummies p') + got_dummies p' = length (b_dummies p) + got_dummies p → barrier_inv members kv (<[i := p']> l).
Proof.
  intros [Hb Hok Hc Hs Hps] Hi [= E1 E2 E3 E4 E5 E6 E7 E8] Hp' Em Hr Hf Hl. split.
  - by apply (balance_insert l i p).
  - by apply procs_ok_insert.
  - by apply (control_stay l i p).
  - by apply (store_stay kv l i p).
  - apply (posts_insert members kv kv l i p); try done; rewrite ?E4.
    + auto.
    + intros j. apply (ps_fetch _ _ _ Hps p j). by eapply list_elem_of_lookup_2.
    + intros j s Es. by apply (ps_slot _ _ _ Hps i p j s).
    + intros k n Es. by apply (ps_send _ _ _ Hps i p k n).
    + unfold sent_slots. by rewrite E4.
Qed.

Lemma proc_ok_app p p' :
  proc_ok p → ckpt_side p' = ckpt_side p → b_recv p ≤ b_recv p' → (b_slot p' = PENDING_RECV_ACTIVE ↔ in_recv p' = true) →
  (past_close p = true → b_slot p' ≠ PENDING_RECV_IDLE) → recv_ok p' → proc_ok p'.
Proof.
  intros [H1 H2 H3 H4 H5 H6 H7 H8 H9] [= E1 E2 E3 E4 E5 E6 E7 E8] Hle Hs Hc Hr.
  split; unfold pc_ok, stage, past_close, post_ok in *; rewrite ?E2, ?E3, ?E4, ?E5, ?E6, ?E7, ?E8; try done.
  - intros k n Hk. specialize (H2 k n Hk). lia.
  - destruct (b_pc p) as [[]| | | | | |]; done || lia.
Qed.

(** A dummy exists only after the second barrier of [unblockPendingRecvs()], and
    for a process that was blocked. *)
Lemma dummy_late kv l i p :
  barrier_inv members kv l → l !! i = Some p → 0 < length (b_dummies p) + got_dummies p → 2 ≤ stage p ∧ b_blocked p = true.
Proof.
  intros Hi Hp Hd. assert (p ∈ l) as Hel by (by eapply list_elem_of_lookup_2). pose proof (bi_posts _ _ _ Hi) as Hps.
  destruct (ps_dummies _ _ _ Hps i p Hp) as [_ H1]. destruct (b_post p) as [[j s]|] eqn:Epo; [|destruct H1 as [E1 E2]; rewrite E1, E2 in Hd; cbn in Hd; lia].
  split; [|by eapply post_blocked; [apply (bi_proc _ _ _ Hi)|]]. destruct H1 as (q & Hq & E). case_decide as Hs; [|lia].
  assert (q ∈ l) as Hqe by (by eapply list_elem_of_lookup_2). pose proof (co_passed _ (bi_control _ _ _ Hi) q p Hqe Hel) as Hle.
  destruct (ps_slot _ _ _ Hps i p j s Hp Epo) as (Hs0 & _). unfold sent_slots, passed in *.
  destruct (b_pc q) as [| | | |[]| |]; lia.
Qed.

(** A message of the application that is not counted keeps every process in the
    loop. *)
Lemma real_early kv l p q : barrier_inv members kv l → p ∈ l → q ∈ l → 0 < holds p ∨ 0 < b_real_to p → past_loop q = false.
Proof.
  intros Hi Hp Hq Hh. destruct (past_loop q) eqn:E; [|done]. destruct (past_loop_counted members kv l q p Hi Hq E Hp). lia.
Qed.

Lemma inv_drain i kv l p :
  barrier_inv members kv l → l !! i = Some p → 0 < b_real_to p → barrier_inv members kv (<[i := p <| b_real_to ::= pred |> <| b_recv ::= S |>]> l).
Proof.
  intros Hi Hp Hr. assert (p ∈ l) as Hel by (by eapply list_elem_of_lookup_2). pose proof (bi_proc _ _ _ Hi p Hel) as Hok.
  apply (barrier_inv_app i kv l p); try done.
  - apply (proc_ok_app p); try done; [cbn; lia|apply (po_slot _ Hok)|apply (po_closed _ Hok)|apply (po_app _ Hok)].
  - unfold messages, holds. cbn. lia.
  - by apply (ps_dummies _ _ _ (bi_posts _ _ _ Hi) i p Hp).
Qed.

Lemma inv_recv_real i kv l p :
  barrier_inv members kv l → l !! i = Some p → b_app p = InRecv → 0 < b_real_to p → barrier_inv members kv (<[i := recv_real p]> l).
Proof.
  intros Hi Hp Ea Hr. assert (p ∈ l) as Hel by (by eapply list_elem_of_lookup_2). pose proof (bi_proc _ _ _ Hi p Hel) as Hok.
  pose proof (po_slot _ Hok) as Hs. unfold in_recv in Hs. rewrite Ea in Hs. apply (barrier_inv_app i kv l p); try done.
  - apply (proc_ok_app p); try done; [apply (po_closed _ Hok)].
  - unfold messages, holds. cbn. rewrite Ea. lia.
  - unfold in_recv. by rewrite Ea.
  - by apply (ps_dummies _ _ _ (bi_posts _ _ _ Hi) i p Hp).
  - unfold got_dummies, had_dummy. cbn. by rewrite Ea.
Qed.

Lemma inv_recv_dummy i kv l p d ds :
  barrier_inv members kv l → l !! i = Some p → b_app p = InRecv → b_dummies p = d :: ds → barrier_inv members kv (<[i := recv_dummy p]> l).
Proof.
  intros Hi Hp Ea Hd. assert (p ∈ l) as Hel by (by eapply list_elem_of_lookup_2). pose proof (bi_proc _ _ _ Hi p Hel) as Hok.
  destruct (dummy_late kv l i p Hi Hp) as [_ Hb]; [rewrite Hd; cbn; lia|].
  pose proof (po_slot _ Hok) as Hs. unfold in_recv in Hs. rewrite Ea in Hs. apply (barrier_inv_app i kv l p); try done.
  - apply (proc_ok_app p); try done; [apply (po_closed _ Hok)].
  - unfold messages, holds. cbn. rewrite Ea. lia.
  - unfold in_recv. by rewrite Ea.
  - cbn. rewrite Hd. cbn. pose proof (proj1 (ps_dummies _ _ _ (bi_posts _ _ _ Hi) i p Hp)) as Hf. rewrite Hd in Hf. by apply Forall_cons_1 in Hf as [_ ?].
  - unfold got_dummies, had_dummy. cbn. rewrite Ea, Hd. cbn. lia.
Qed.

Lemma inv_after_recv i kv l p p' :
  barrier_inv members kv l → l !! i = Some p → after_recv p = Some p' → barrier_inv members kv (<[i := p']> l).
Proof.
  intros Hi Hp E. assert (p ∈ l) as Hel by (by eapply list_elem_of_lookup_2). pose proof (bi_proc _ _ _ Hi p Hel) as Hok.
  pose proof (po_slot _ Hok) as Hs. pose proof (po_app _ Hok) as Ha. pose proof (po_closed _ Hok) as Hcl.
  pose proof (proj1 (ps_dummies _ _ _ (bi_posts _ _ _ Hi) i p Hp)) as Hf.
  assert (0 < holds p → past_loop p = false) as Hre by (intros Hh; apply (real_early kv l p p); auto).
  unfold after_recv in E. unfold in_recv in Hs. unfold recv_ok in Ha. unfold holds in Hre.
  destruct (b_app p) as [| |k|k []|k] eqn:Ea; try done; injection E as <-.
  - (* reads the flag *)
    apply (barrier_inv_app i kv l p); try done; [apply (proc_ok_app p); try done|unfold messages, holds; cbn; by rewrite Ea|unfold in_recv; by rewrite Ea|unfold got_dummies, had_dummy; cbn; by rewrite Ea].
    unfold recv_ok. cbn. destruct k.
    + apply not_true_iff_false. intros E. apply (po_phase _ Hok), stage_past in E. rewrite Hre in E; [done|lia].
    + split; [|done]. apply (po_phase _ Hok). destruct (dummy_late kv l i p Hi Hp); [unfold got_dummies, had_dummy; rewrite Ea; lia|lia].
  - (* discards a dummy *)
    destruct k; [done|]. destruct Ha as [_ Hb]. apply (barrier_inv_app i kv l p); try done; [apply (proc_ok_app p); try done|unfold messages, holds; cbn; by rewrite Ea|].
    unfold got_dummies, had_dummy. cbn. by rewrite Ea, Hb.
  - (* a message *)
    destruct k; [|by destruct Ha]. specialize (Hre ltac:(lia)). apply (barrier_inv_app i kv l p); try done; [apply (proc_ok_app p); try done|unfold messages, holds; cbn; by rewrite Ea|].
    + intros Hc. apply close_past in Hc. congruence.
    + unfold got_dummies, had_dummy. cbn. by rewrite Ea.
  - (* counts it *)
    destruct k; [|done]. specialize (Hre ltac:(lia)). apply (barrier_inv_app i kv l p); try done; [apply (proc_ok_app p); try done; [cbn; lia]|unfold messages, holds; cbn; rewrite Ea; lia|].
    unfold got_dummies, had_dummy. cbn. rewrite Ea. destruct (b_blocked p) eqn:Eb; [|done]. apply (po_blocked _ Hok), close_past in Eb. congruence.
Qed.

(** ** The pending [MPI_Irecv]s *)

Lemma inv_irecv_real i kv l p es :
  barrier_inv members kv l → l !! i = Some p → 0 < b_real_to p →
  barrier_inv members kv (<[i := p <| b_irecvs := es |> <| b_real_to ::= pred |> <| b_recv ::= S |>]> l).
Proof.
  intros Hi Hp Hr. assert (p ∈ l) as Hel by (by eapply list_elem_of_lookup_2). pose proof (bi_proc _ _ _ Hi p Hel) as Hok.
  apply (barrier_inv_app i kv l p); try done.
  - apply (proc_ok_app p); try done; [cbn; lia|apply (po_slot _ Hok)|apply (po_closed _ Hok)|apply (po_app _ Hok)].
  - unfold messages, holds. cbn. lia.
  - by apply (ps_dummies _ _ _ (bi_posts _ _ _ Hi) i p Hp).
Qed.

Lemma inv_irecv_dummy i kv l p d ds es :
  barrier_inv members kv l → l !! i = Some p → b_dummies p = d :: ds →
  barrier_inv members kv (<[i := p <| b_irecvs := es |> <| b_dummies := ds |> <| b_irecv_dummies ::= S |>]> l).
Proof.
  intros Hi Hp Hd. assert (p ∈ l) as Hel by (by eapply list_elem_of_lookup_2). pose proof (bi_proc _ _ _ Hi p Hel) as Hok.
  apply (barrier_inv_app i kv l p); try done.
  - apply (proc_ok_app p); try done; [apply (po_slot _ Hok)|apply (po_closed _ Hok)|apply (po_app _ Hok)].
  - cbn. pose proof (proj1 (ps_dummies _ _ _ (bi_posts _ _ _ Hi) i p Hp)) as Hf. rewrite Hd in Hf. by apply Forall_cons_1 in Hf as [_ ?].
  - unfold got_dummies, had_dummy. cbn. rewrite Hd. cbn. lia.
Qed.

(** ** A dummy is sent *)

Lemma alter_as_insert {A} (f : A → A) w (l : list A) :
  alter f w l = match l !! w with Some q => <[w := f q]> l | None => l end.
Proof.
  apply list_eq. intros a. destruct (decide (a = w)) as [->|Hne].
  - rewrite list_lookup_alter_eq. destruct (l !! w) as [q|] eqn:E; [|by rewrite E]. by rewrite list_lookup_insert_eq by (by eapply lookup_lt_Some).
  - rewrite list_lookup_alter_ne by done. destruct (l !! w); [by rewrite list_lookup_insert_ne|done].
Qed.

Lemma inv_send i kv l p k n w d :
  barrier_inv members kv l → l !! i = Some p → b_pc p = Unblock (Send k n) → (k < n)%Z → posted_dummy members i k kv = Some (w, d) →
  barrier_inv members kv (alter (λ q, q <| b_dummies ::= λ ds, ds ++ [d] |>) w (<[i := p <| b_pc := Unblock (Send (k + 1)%Z n) |>]> l)).
Proof.
  intros [Hb Hok Hc Hs Hps] Hi Epc Hk Hd. assert (p ∈ l) as Hel by (by eapply list_elem_of_lookup_2).
  pose proof (posts_send members kv l i p k n w d Hc Hok Hps Hi Epc Hk Hd) as Hp'. set (p1 := p <| b_pc := _ |>) in *. set (l1 := <[i := p1]> l) in *.
  assert (∀ q, q ∈ l1 → proc_ok q) as Hok1.
  { apply procs_ok_insert; [done|]. destruct (Hok p Hel) as [H1 H2 H3 H4 H5 H6 H7 H8 H9]. unfold pc_ok, stage, recv_ok, past_close, post_ok in *. rewrite Epc in *. by split. }
  assert (control_ok l1) as Hc1.
  { apply (control_step l i p _ []); rewrite ?app_nil_r; try done; unfold stage, left_rounds, passed, continued, past_loop; cbn; by rewrite ?Epc. }
  assert (store_ok kv l1) as Hs1 by (apply (store_quiet kv kv l i p); try done; unfold nsent, published; cbn; by rewrite ?Epc).
  pose proof (balance_insert l i p p1 Hi eq_refl eq_refl Hb) as Hb1. fold l1 in Hb1. rewrite alter_as_insert in Hp' |- *.
  destruct (l1 !! w) as [q|] eqn:Eq; [|done]. assert (q ∈ l1) as Hq by (by eapply list_elem_of_lookup_2). split.
  - by apply (balance_insert l1 w q).
  - apply procs_ok_insert; [done|]. apply (proc_ok_app q); try done; [by auto|by apply (po_slot q); auto|by apply (po_closed q); auto|by apply (po_app q); auto].
  - by apply (control_stay l1 w q).
  - by apply (store_stay kv l1 w q).
  - done.
Qed.

(** ** All steps *)

Lemma barrier_inv_step kv l kv' l' : barrier_inv members kv l → barrier_step members kv l kv' l' → barrier_inv members kv' l'.
Proof.
  intros Hi Hs. destruct Hs.
  - by eapply inv_ckpt.
  - by apply inv_barrier.
  - by apply inv_drain.
  - exfalso. destruct (dummy_late kv l i p Hi ltac:(done)) as [Hst _]; [rewrite H2; cbn; lia|]. unfold stage in Hst. rewrite H1 in Hst. lia.
  - by apply inv_send.
  - by apply inv_close.
  - by apply inv_recv_real.
  - by eapply inv_recv_dummy.
  - by eapply inv_after_recv.
  - by apply inv_irecv_real.
  - by apply (inv_irecv_dummy i kv l p d).
Qed.

Lemma inv_start kv l : barrier_start members kv l → barrier_inv members kv l.
Proof.
  intros (Hk1 & Hk2 & Hl & Hb). 
  assert (∀ p, p ∈ l → b_pc p = Register Add_sent ∧ b_hist p = []) as Hpc.
  { intros p Hp. apply list_elem_of_lookup in Hp as (i & Hi). by destruct (Hl i p Hi) as (? & ? & _). }
  assert (∀ f : proc → nat, (∀ p, p ∈ l → f p = 0) → sum_list_with f l = 0) as Hz.
  { clear. induction l as [|p l IH]; intros f Hf; [done|]. rewrite sum_cons, Hf by (by left). apply IH. intros q Hq. apply Hf. by right. }
  split; [done| | | |].
  - intros p Hp. apply list_elem_of_lookup in Hp as (i & Hi). destruct (Hl i p Hi) as (E1 & E2 & E3 & E4 & E5 & E6 & E7 & _ & E8 & E9 & _).
    split; unfold pc_ok, stage, past_close, post_ok; rewrite ?E1, ?E2, ?E3, ?E4, ?E5, ?E6; try done.
    + split; [done|lia].
    + unfold recv_ok, past_close. rewrite E1. by destruct (b_app p) as [| |[]|[] []|[]].
  - split.
    + intros p q Hp Hq. unfold left_rounds. destruct (Hpc p Hp) as [-> ->]. cbn. lia.
    + intros p k Hp. unfold continued. destruct (Hpc p Hp) as [-> ->]. cbn. lia.
    + intros p Hp. unfold past_loop. by destruct (Hpc p Hp) as [-> _].
    + intros p q Hp _. unfold passed. destruct (Hpc p Hp) as [-> _]. lia.
  - split.
    + intros k. unfold kv_get. rewrite (proj1 (Hk1 k)), Hz; [done|]. intros p Hp. unfold nsent. destruct (Hpc p Hp) as [-> ->]. by rewrite decide_False by (cbn; lia).
    + intros k. unfold kv_get, contributions. rewrite (proj2 (Hk1 k)), Hz; [done|]. intros p Hp. by destruct (Hpc p Hp) as [_ ->].
    + intros i p Hi. unfold kv_get, word_key, published. rewrite (proj1 (Hk2 _)). destruct (Hl i p Hi) as (-> & _). apply Z.testbit_0_l.
    + intros p Hp. by destruct (Hpc p Hp) as [-> _].
  - assert (∀ j, kv_get (ndummies_key j) kv = 0%Z) as Hn by (intros j; unfold kv_get; by rewrite (proj2 (Hk2 _))).
    split; try (intros; rewrite Hn in *; lia).
    + intros i p Hi Hr. destruct (Hl i p Hi) as (_ & _ & _ & _ & Eb & _ & _ & _ & _ & _ & He). rewrite Eb in Hr. destruct Hr; [auto|done].
    + intros p j Hp E. destruct (Hpc p Hp). congruence.
    + intros i p j s Hi E. destruct (Hl i p Hi) as (_ & _ & _ & _ & _ & E' & _). congruence.
    + intros i i' p p' x Hi _ E. destruct (Hl i p Hi) as (_ & _ & _ & _ & _ & E' & _). congruence.
    + intros i p k n Hi E. destruct (Hl i p Hi) as (E' & _). congruence.
    + intros i p Hi. destruct (Hl i p Hi) as (_ & _ & _ & _ & Eb & E6 & E7 & Et & _ & E9 & _). rewrite E6, E7. split; [done|]. split; [done|].
      unfold got_dummies, had_dummy. rewrite Eb, Et. by destruct (b_app p) as [| |[]|[] []|[]].
Qed.

(** A run: any number of steps. *)
Definition barrier_run (x y : K * list proc) : Prop := rtc (λ x y, barrier_step members x.1 x.2 y.1 y.2) x y.

Lemma runs_ok kv l kv' l' : barrier_start members kv l → barrier_run (kv, l) (kv', l') → barrier_inv members kv' l'.
Proof.
  intros Hs Hr. apply inv_start in Hs. change (barrier_inv members (kv', l').1 (kv', l').2). change (barrier_inv members (kv, l).1 (kv, l).2) in Hs.
  induction Hr as [x|x y z Hxy _ IH]; [done|]. apply IH. by eapply barrier_inv_step.
Qed.
End safe.
