(* ===== verification/BarrierDrainLive.v ===== *)
(** * The drain with barriers can always finish

    From every state a schedule leads to the end: the application threads go on
    when they can, a process drains every message before it takes part in the
    next round, and a barrier is left by the process that has entered the fewest.
    [todo] and [app_weight] measure what is left; [settled K] says that the
    processes that are past round [K] have counted everything. *)
From S2P Require Import Prelude Kvdb P2p P2pDrain P2pJob P2pJobInv BarrierDrain BarrierDrainInv BarrierDrainControl BarrierDrainSteps BarrierDrainPosts BarrierDrainSafe.
#[local] Open Scope nat_scope.

(** ** What is left to do *)

Definition todo (K : nat) (p : proc) : nat :=
  8 * (K + 2 - length (b_hist p)) +
  match b_pc p with
  | Register In_register => 27 | Register Get_sent => 26 | Register (Get_recv _) => 25 | Loop _ _ => 24 | Drain => 23
  | Register Add_sent => 22 | Register Load_recv => 21 | Register (Add_recv _) => 20
  | Isends => 14
  | Unblock Close_slot => 13 | Unblock Set_bit => 12 | Unblock Set_phase => 11 | Unblock In_published => 10
  | Unblock Choose => 9 | Unblock (Fetch_slot _) => 8 | Unblock (Set_text _ _) => 7 | Unblock In_posted => 6
  | Unblock Get_count => 5 | Unblock (Send _ _) => 4 | Unblock In_sent => 3 | Leaving => 2 | Done => 0
  end.
Definition app_weight (p : proc) : nat :=
  b_real_to p + match b_app p with Out => 0 | InRecv => 4 | Got _ => 3 | Read _ _ => 2 | Stored _ => 1 end.
Definition weight (K : nat) (p : proc) : nat := todo K p + app_weight p.
Definition sends_left (p : proc) : nat := match b_pc p with Unblock (Send k n) => Z.to_nat (n - k) | _ => 0 end.
Definition weights (K : nat) (l : list proc) : nat := sum_list_with (weight K) l.
Definition all_sends_left (l : list proc) : nat := sum_list_with sends_left l.

Definition quiet (p : proc) : Prop := b_real_to p = 0 ∧ holds p = 0.
Definition settled_proc (K : nat) (p : proc) : Prop :=
  (K < length (b_hist p) → b_hist p !! K = Some (b_recv p) ∧ quiet p) ∧
  (length (b_hist p) = K →
   match b_pc p with
   | Register (Add_sent | Load_recv) => quiet p
   | Register (Add_recv n) => n = b_recv p ∧ quiet p
   | _ => True
   end).
Definition settled (K : nat) (l : list proc) : Prop := ∀ p, p ∈ l → settled_proc K p.

Definition app_enabled (p : proc) : bool :=
  match b_app p with
  | Got _ | Read _ _ | Stored _ => true
  | InRecv => (0 <? b_real_to p) || match b_dummies p with [] => false | _ => true end
  | Out => false
  end.
Definition waits (p : proc) : bool :=
  match b_pc p with Register In_register | Unblock (In_published | In_posted | In_sent) | Done => true | _ => false end.

Section live.
Context `{KvdbLaws K} `{!KvdbText K, !KvdbTextLaws K}.
Context (members : Z → list nat).

(** No process waits for a message from any source when all that could send it
    wait too: the program is not in a deadlock of its own. *)
Definition some_sender (l : list proc) : Prop :=
  ∀ p, p ∈ l → in_recv p = true ∨ b_blocked p = true → e_source (b_env p) = None →
  ∃ j q, j ∈ members (e_gid (b_env p)) ∧ l !! j = Some q ∧ in_recv q = false ∧ b_blocked q = false.

(** No pending [MPI_Irecv] of the process matches a dummy for its [MPI_Recv]. *)
Definition no_rival (p : proc) : Prop :=
  ∀ e d, e ∈ b_irecvs p → dummy_for (b_env p) d → env_matches e d = false.
Definition clear_proc (p : proc) : Prop := no_rival p ∧ b_irecv_dummies p = 0.
Definition clear_way (l : list proc) : Prop := ∀ p, p ∈ l → in_recv p = true ∨ b_blocked p = true → clear_proc p.

Lemma take_irecv_subset d es es' : take_irecv d es = Some es' → es' ⊆ es ∧ ∃ e, e ∈ es ∧ env_matches e d = true.
Proof.
  revert es'. induction es as [|e es IH]; intros es'; cbn; [done|]. destruct (env_matches e d) eqn:E.
  - intros [= <-]. split; [set_solver|]. exists e. split; [by left|done].
  - destruct (take_irecv d es) as [es1|]; [|done]. intros [= <-]. destruct (IH es1 eq_refl) as [H1 (e' & He' & Hm)]. split; [set_solver|].
    exists e'. split; [by right|done].
Qed.
Lemma no_rival_takes_none p d : no_rival p → dummy_for (b_env p) d → take_irecv d (b_irecvs p) = None.
Proof.
  intros Hn Hd. destruct (take_irecv d (b_irecvs p)) as [es|] eqn:E; [|done]. apply take_irecv_subset in E as [_ (e & He & Hm)].
  rewrite (Hn e d He Hd) in Hm. done.
Qed.

(** ** The end of the rounds *)

Lemma settled_ends kv l R :
  barrier_inv members kv l → settled R l → (∀ q, q ∈ l → R < length (b_hist q)) → ends_loop R l.
Proof.
  intros Hi Hset Hall. unfold ends_loop.
  assert (contributions R l = sum_list_with b_recv l) as ->.
  { unfold contributions. clear Hi. induction l as [|p l IH]; [done|]. rewrite !sum_cons.
    destruct (proj1 (Hset p ltac:(by left)) (Hall p ltac:(by left))) as [-> _]. cbn. f_equal. apply IH; intros q Hq; [apply Hset|apply Hall]; by right. }
  rewrite (bi_balance _ _ _ Hi). assert (∀ f, (∀ q, q ∈ l → f q = 0) → sum_list_with f l = 0) as Hz.
  { clear. induction l as [|p l IH]; intros f Hf; [done|]. rewrite sum_cons, Hf by (by left). apply IH. intros q Hq. apply Hf. by right. }
  rewrite (Hz b_real_to), (Hz holds); [lia| |]; intros q Hq; by apply (Hset q Hq), Hall.
Qed.

Lemma round_bound kv l R p :
  barrier_inv members kv l → settled R l → p ∈ l →
  match b_pc p with Register (Add_sent | Load_recv | Add_recv _) | Drain => length (b_hist p) ≤ R | _ => True end.
Proof.
  intros Hi Hset Hp. assert (continued p = length (b_hist p) → left_rounds p = length (b_hist p) → length (b_hist p) ≤ R) as Hb.
  { intros E1 E2. destruct (decide (length (b_hist p) ≤ R)) as [|Hn]; [done|]. exfalso.
    apply (co_continued _ (bi_control _ _ _ Hi) p R Hp); [lia|]. apply (settled_ends kv); try done. intros q Hq.
    pose proof (co_left _ (bi_control _ _ _ Hi) p q Hp Hq). lia. }
  unfold continued, left_rounds in Hb. destruct (b_pc p) as [[]| | | | | |]; auto.
Qed.

(** ** Each step does some of it *)

Lemma ckpt_todo R i kv p kv' p' :
  match b_pc p with Register (Add_recv _) => length (b_hist p) ≤ R | _ => True end →
  drainInFlightP2p members i kv p = Some (kv', p') → todo R p' < todo R p.
Proof.
  intros Hb. unfold drainInFlightP2p, registerLocalSendsAndRecvs, unblockPendingRecvs.
  destruct (b_pc p) as [[]|gs gr| | |[]| |] eqn:Epc; intros E; try done.
  all: try (injection E as <- <-; unfold todo, enter; cbn; rewrite ?Epc, ?length_app; cbn; lia).
  - injection E as <- <-. unfold todo. cbn. rewrite Epc. destruct (_ <? _)%Z; lia.
  - destruct (b_blocked p); [destruct (choose_sender _ _ _) as [s|]; [|done]; cbn in E; destruct (_ !! s); [|done]|];
      injection E as <- <-; unfold todo, enter; cbn; rewrite Epc; lia.
  - destruct (request_INCRBY _ _ _ _). injection E as <- <-. unfold todo. cbn. rewrite Epc. lia.
  - destruct (_ <? _)%Z; [done|]. injection E as <- <-. unfold todo, enter. cbn. rewrite Epc. lia.
Qed.

Lemma ckpt_settled R i kv p kv' p' :
  settled_proc R p → (b_pc p = Drain → quiet p) → drainInFlightP2p members i kv p = Some (kv', p') → settled_proc R p'.
Proof.
  intros [H1 H2] Hq. unfold drainInFlightP2p, registerLocalSendsAndRecvs, unblockPendingRecvs.
  destruct (b_pc p) as [[]|gs gr| | |[]| |] eqn:Epc; intros E; try done; unfold settled_proc.
  all: try (injection E as <- <-; cbn; split; [exact H1|auto]; fail).
  - injection E as <- <-. cbn. rewrite length_app. cbn. split; [|done]. intros Hlt. destruct (decide (length (b_hist p) = R)) as [Eh|Hne].
    + destruct (H2 Eh) as [-> ?]. split; [|done]. rewrite <- Eh. by apply list_lookup_middle.
    + destruct (H1 ltac:(lia)) as [Eh ?]. split; [|done]. rewrite lookup_app_l by lia. done.
  - injection E as <- <-. cbn. split; [exact H1|]. by destruct (_ <? _)%Z.
  - destruct (b_blocked p); [destruct (choose_sender _ _ _) as [s|]; [|done]; cbn in E; destruct (_ !! s); [|done]|];
      injection E as <- <-; cbn; split; [exact H1|auto|exact H1|auto].
  - destruct (request_INCRBY _ _ _ _). injection E as <- <-. cbn. split; [exact H1|auto].
  - destruct (_ <? _)%Z; [done|]. injection E as <- <-. cbn. split; [exact H1|auto].
Qed.

(** ** Receives end and do not begin *)

Definition recv_ends (q q' : proc) : Prop :=
  b_env q' = b_env q ∧ (in_recv q' = true → in_recv q = true) ∧ (b_blocked q' = true → b_blocked q = true ∨ in_recv q = true) ∧
  b_irecvs q' ⊆ b_irecvs q ∧ b_irecv_dummies q ≤ b_irecv_dummies q' ∧ (no_rival q → b_irecv_dummies q' = b_irecv_dummies q).

Lemma ckpt_recv_ends i kv p kv' p' : proc_ok p → drainInFlightP2p members i kv p = Some (kv', p') → recv_ends p p'.
Proof.
  intros Hok E. pose proof (ckpt_app_side _ _ _ _ _ _ E) as Ea. injection Ea as E1 _ _ E4 _ _ E7 E8. split; [done|].
  split; [unfold in_recv; by rewrite E4|]. split; [|by rewrite E7, E8]. revert E. unfold drainInFlightP2p, registerLocalSendsAndRecvs, unblockPendingRecvs.
  destruct (b_pc p) as [[]|gs gr| | |[]| |]; intros E; try done; try (injection E as <- <-; by left).
  - injection E as <- <-. cbn. intros Hb. apply bool_decide_eq_true in Hb. right. by apply (po_slot _ Hok).
  - destruct (b_blocked p) eqn:Eb; [by left|]. injection E as <- <-. cbn. rewrite Eb. by left.
  - destruct (request_INCRBY _ _ _ _). injection E as <- <-. by left.
  - destruct (_ <? _)%Z; [done|]. injection E as <- <-. by left.
Qed.

Lemma step_recv_ends kv l kv' l' :
  barrier_inv members kv l → barrier_step members kv l kv' l' →
  length l' = length l ∧ ∀ a q q', l !! a = Some q → l' !! a = Some q' → recv_ends q q'.
Proof.
  intros Hi Hs.
  assert (∀ i p p', l !! i = Some p → recv_ends p p' →
    length (<[i := p']> l) = length l ∧ ∀ a q q', l !! a = Some q → <[i := p']> l !! a = Some q' → recv_ends q q') as Hins.
  { intros i p p' Hp Hr. split; [apply length_insert|]. intros a q q' Ha Ha'. apply list_lookup_insert_Some in Ha' as [(<- & <- & _)|[_ Ha']].
    - rewrite Hp in Ha. by injection Ha as <-.
    - rewrite Ha in Ha'. injection Ha' as <-. split; [done|]. split_and!; auto. }
  destruct Hs as [i p kv' p' Hp E|i p pc Hp _ _|i p Hp _ _|i p d ds Hp _ _ _|i p k n w d Hp _ _ _|i p Hp _ _|i p Hp Ea _|i p d ds Hp Ea _ _ _|i p p' Hp E|i p es e es' Hp _ _ Eirs|i p d ds es Hp Ed Et].
  - apply (Hins i p); [done|]. eapply ckpt_recv_ends; [|exact E]. eapply bi_proc, list_elem_of_lookup_2; done.
  - apply (Hins i p); [done|]. by split_and!; auto.
  - apply (Hins i p); [done|]. by split_and!; auto.
  - apply (Hins i p); [done|]. by split_and!; auto.
  - split; [by rewrite length_alter, length_insert|]. intros a q q' Ha Ha'. rewrite (sent_dummy_lookup l i p w k n d a Hp), Ha in Ha'. injection Ha' as <-.
    destruct (sent_dummy_keeps i w k n d a q) as (E1 & _ & _ & E4 & _ & _ & E7 & _ & _ & _ & E11 & E12). unfold recv_ends, in_recv. rewrite E1, E4, E7, E11, E12. by split_and!; auto.
  - apply (Hins i p); [done|]. by split_and!; auto.
  - apply (Hins i p); [done|]. unfold recv_ends, in_recv. cbn. rewrite Ea. by split_and!; auto.
  - apply (Hins i p); [done|]. unfold recv_ends, in_recv. cbn. rewrite Ea. by split_and!; auto.
  - apply (Hins i p); [done|]. unfold after_recv, recv_ends, in_recv in *. destruct (b_app p) as [| |k|k []|k]; try done; injection E as <-; by split_and!; auto.
  - apply (Hins i p); [done|]. split_and!; cbn; auto. rewrite Eirs. set_solver.
  - apply (Hins i p); [done|]. apply take_irecv_subset in Et as [H1 (e & He & Hm)]. split_and!; cbn; auto.
    intros Hn. rewrite (Hn e d He) in Hm; [done|]. pose proof (proj1 (ps_dummies _ _ _ (bi_posts _ _ _ Hi) i p Hp)) as Hf. rewrite Ed in Hf. by apply Forall_cons_1 in Hf as [? _].
Qed.

Lemma clear_proc_ends q q' : recv_ends q q' → clear_proc q → clear_proc q'.
Proof.
  intros (E1 & _ & _ & Hsub & _ & Ht) [Hn H0]. split; [|by rewrite (Ht Hn)]. intros e d He. rewrite E1. intros Hd. apply Hn; [|done]. set_solver.
Qed.
Lemma clear_way_step kv l kv' l' :
  barrier_inv members kv l → barrier_step members kv l kv' l' → clear_way l → clear_way l'.
Proof.
  intros Hi Hs Hc p' Hp' Hr. destruct (step_recv_ends _ _ _ _ Hi Hs) as [Hlen Hends]. apply list_elem_of_lookup in Hp' as (a & Ha').
  destruct (lookup_lt_is_Some_2 l a) as [p Ha]; [rewrite <- Hlen; by eapply lookup_lt_Some|]. pose proof (Hends a p p' Ha Ha') as He.
  apply (clear_proc_ends p); [done|]. destruct He as (_ & H1 & H2 & _). apply Hc; [by eapply list_elem_of_lookup_2|]. naive_solver.
Qed.

Lemma some_sender_step kv l kv' l' :
  barrier_inv members kv l → barrier_step members kv l kv' l' → some_sender l → some_sender l'.
Proof.
  intros Hi Hs Hd p' Hp' Hr Hany. destruct (step_recv_ends _ _ _ _ Hi Hs) as [Hlen Hends]. apply list_elem_of_lookup in Hp' as (a & Ha').
  destruct (lookup_lt_is_Some_2 l a) as [p Ha]; [rewrite <- Hlen; by eapply lookup_lt_Some|]. destruct (Hends a p p' Ha Ha') as (Ee & H1 & H2 & _). rewrite Ee in *.
  destruct (Hd p) as (j & q & Hj & Hq & Hn1 & Hn2); [by eapply list_elem_of_lookup_2|naive_solver|done|].
  destruct (lookup_lt_is_Some_2 l' j) as [q' Hq']; [rewrite Hlen; by eapply lookup_lt_Some|]. destruct (Hends j q q' Hq Hq') as (_ & H3 & H4 & _).
  exists j, q'. split; [done|]. split; [done|]. split; apply not_true_iff_false; intros E; [apply H3 in E|apply H4 in E as [E|E]]; congruence.
Qed.

(** ** Some step is possible *)

Lemma first_unblocked_some (kv : K) ms i n r :
  ms !! n = Some r → Z.testbit (kv_get (blocked_key (Z.quot r 64)) kv) (Z.rem r 64) = false → is_Some (first_unblocked kv ms i).
Proof.
  revert i n. induction ms as [|r' ms IH]; intros i [|n] Hn Hb; try done; cbn [first_unblocked].
  - injection Hn as ->. unfold kv_get in Hb. rewrite Hb. by eexists.
  - destruct (negb _); [by eexists|]. by apply (IH _ n).
Qed.

Lemma choose_enabled kv l i p :
  barrier_inv members kv l → some_sender l → l !! i = Some p → b_pc p = Unblock Choose → b_blocked p = true →
  ∃ s j, choose_sender members kv (b_env p) = Some s ∧ members (e_gid (b_env p)) !! s = Some j.
Proof.
  intros Hi Hd Hp Epc Hb. assert (p ∈ l) as Hel by (by eapply list_elem_of_lookup_2).
  destruct (ps_env _ _ _ (bi_posts _ _ _ Hi) i p Hp (or_intror Hb)) as (_ & _ & _ & Hsrc). unfold choose_sender.
  destruct (e_source (b_env p)) as [s|] eqn:Es.
  - specialize (Hsrc s eq_refl). rewrite (proj2 (Nat.ltb_lt _ _) Hsrc). destruct (lookup_lt_is_Some_2 _ _ Hsrc) as [j Hj]. by exists s, j.
  - destruct (Hd p Hel (or_intror Hb) Es) as (j & q & Hj & Hq & _ & Hnb). apply list_elem_of_lookup in Hj as (n & Hn).
    destruct (first_unblocked_some kv (Z.of_nat <$> members (e_gid (b_env p))) 0 n (Z.of_nat j)) as [z Hz].
    { by rewrite list_lookup_fmap, Hn. }
    { pose proof (so_bits _ _ (bi_store _ _ _ Hi) j q Hq) as E. rewrite Hnb, andb_false_r in E. exact E. }
    rewrite Hz. destruct (first_unblocked_spec _ _ _ _ Hz) as (m & r & -> & Hm & _). rewrite list_lookup_fmap in Hm.
    destruct (members _ !! m) as [j'|] eqn:Em; [|done]. exists m, j'. split; [|done]. change (Some (Z.to_nat (0 + Z.of_nat m)) = Some m). f_equal. lia.
Qed.

Lemma ckpt_enabled kv l i p :
  barrier_inv members kv l → some_sender l → l !! i = Some p → waits p = false → b_pc p ≠ Leaving →
  (∀ k n, b_pc p = Unblock (Send k n) → (n ≤ k)%Z) → ∃ kv' p', drainInFlightP2p members i kv p = Some (kv', p').
Proof.
  intros Hi Hd Hp Hw Hl Hsd. unfold waits in Hw. unfold drainInFlightP2p, registerLocalSendsAndRecvs, unblockPendingRecvs.
  destruct (b_pc p) as [[]|gs gr| | |[]| |] eqn:Epc; try done; try (by do 2 eexists).
  - destruct (b_blocked p) eqn:Eb; [|by do 2 eexists]. destruct (choose_enabled kv l i p Hi Hd Hp Epc Eb) as (s & j & -> & Hj).
    cbn. rewrite Hj. by do 2 eexists.
  - destruct (request_INCRBY _ _ _ _). by do 2 eexists.
  - specialize (Hsd k n eq_refl). rewrite (proj2 (Z.ltb_ge _ _) Hsd). by do 2 eexists.
Qed.

Lemma send_enabled kv l i p k n :
  barrier_inv members kv l → l !! i = Some p → b_pc p = Unblock (Send k n) → (k < n)%Z → ∃ w d, posted_dummy members i k kv = Some (w, d).
Proof.
  intros Hi Hp Epc Hk. pose proof (bi_posts _ _ _ Hi) as Hps. destruct (ps_send _ _ _ Hps i p k n Hp Epc) as [-> Hk0].
  destruct (ps_owner _ _ _ Hps i k ltac:(lia)) as (o & po & Ho & Hpo).
  destruct (ps_slot _ _ _ Hps o po i k Ho Hpo) as (_ & _ & [Ht|(d & Hd & _)]); [|by exists o, d].
  pose proof (co_passed _ (bi_control _ _ _ Hi) p po ltac:(by eapply list_elem_of_lookup_2) ltac:(by eapply list_elem_of_lookup_2)) as Hle.
  unfold passed, stage in Hle. rewrite Epc, Ht in Hle. lia.
Qed.

(** Once every dummy is sent, a receive that is blocked has one to take. *)
Lemma leaving_dummy kv l i p :
  barrier_inv members kv l → clear_way l → l !! i = Some p → passed p = 3 → b_app p = InRecv → b_dummies p ≠ [].
Proof.
  intros Hi Hcw Hp Hps3 Ea. assert (p ∈ l) as Hel by (by eapply list_elem_of_lookup_2). pose proof (bi_proc _ _ _ Hi p Hel) as Hok.
  pose proof (bi_posts _ _ _ Hi) as Hps. pose proof (po_app _ Hok) as Ha. unfold recv_ok in Ha. rewrite Ea in Ha.
  assert (b_blocked p = true) as Hb by (apply Ha; unfold past_close, passed in *; by destruct (b_pc p) as [| | | |[]| |]).
  assert (is_Some (b_post p)) as [[j s] Epo].
  { pose proof (po_post _ Hok) as Hpo. unfold post_ok, passed in *. destruct (b_pc p) as [| | | |[]| |]; try lia; by apply Hpo. }
  destruct (ps_dummies _ _ _ Hps i p Hp) as [_ Hd]. rewrite Epo in Hd. destruct Hd as (q & Hq & Hd).
  destruct (ps_slot _ _ _ Hps i p j s Hp Epo) as (Hs & _).
  pose proof (co_passed _ (bi_control _ _ _ Hi) p q Hel ltac:(by eapply list_elem_of_lookup_2)) as Hle. rewrite Hps3 in Hle.
  rewrite decide_True in Hd by (unfold stage, sent_slots in *; destruct (b_pc q) as [| | | |[]| |]; lia).
  destruct (Hcw p Hel (or_intror Hb)) as [_ Ht]. unfold got_dummies, had_dummy in Hd. rewrite Ea, Ht in Hd. intros E. rewrite E in Hd. cbn in Hd. lia.
Qed.

Lemma list_minimum {A} (f : A → nat) (l : list A) : l ≠ [] → ∃ x, x ∈ l ∧ ∀ y, y ∈ l → f x ≤ f y.
Proof.
  induction l as [|x l IH]; [done|]. intros _. destruct (decide (l = [])) as [->|Hn].
  - exists x. split; [by left|]. intros y Hy. apply list_elem_of_singleton in Hy. by subst y.
  - destruct (IH Hn) as (y & Hy & Hmin). destruct (decide (f x ≤ f y)) as [Hle|Hgt].
    + exists x. split; [by left|]. intros z [->|Hz]%elem_of_cons; [lia|]. specialize (Hmin z Hz). lia.
    + exists y. split; [by right|]. intros z [->|Hz]%elem_of_cons; [lia|]. by apply Hmin.
Qed.

Lemma barrier_enabled kv l p0 :
  barrier_inv members kv l → (∀ p, p ∈ l → waits p = true) → p0 ∈ l → b_pc p0 ≠ Done →
  ∃ i p pc, l !! i = Some p ∧ after_barrier (b_pc p) = Some pc ∧ ∀ q, q ∈ l → length (b_barriers p) ≤ length (b_barriers q).
Proof.
  intros Hi Hw Hp0 Hn0. destruct (list_minimum (λ p, length (b_barriers p)) l) as (m & Hm & Hmin); [by intros ->; apply not_elem_of_nil in Hp0|].
  assert (∀ p, p ∈ l → b_pc p ≠ Done → ∃ pc, after_barrier (b_pc p) = Some pc) as Hb.
  { intros p Hp Hn. specialize (Hw p Hp). unfold waits in Hw. destruct (b_pc p) as [[]| | | |[]| |]; try done; by eexists. }
  assert (∃ p, p ∈ l ∧ b_pc p ≠ Done ∧ ∀ q, q ∈ l → length (b_barriers p) ≤ length (b_barriers q)) as (p & Hp & Hn & Hmin').
  { destruct (b_pc m) eqn:Em; try (exists m; rewrite Em; by split_and!).
    exists p0. split_and!; [done|done|]. intros q Hq. specialize (Hmin q Hq). pose proof (bi_proc _ _ _ Hi) as Hok.
    pose proof (co_passed _ (bi_control _ _ _ Hi) m p0 Hm Hp0) as Hle. unfold passed in Hle. rewrite Em in Hle.
    pose proof (same_rounds l m p0 (bi_control _ _ _ Hi) Hok Hm Hp0) as E. unfold past_loop at 1 in E. rewrite Em in E.
    specialize (E eq_refl (stage_past p0 ltac:(lia))). rewrite !(barriers_length m), (barriers_length p0) in * by auto.
    assert (stage p0 ≤ 3 ∧ stage m = 3) as [H1 H2] by (unfold stage; rewrite Em; split; [destruct (b_pc p0) as [| | | |[]| |]; lia|done]). lia. }
  destruct (Hb p Hp Hn) as [pc Hpc]. apply list_elem_of_lookup in Hp as (i & Hpi). by exists i, p, pc.
Qed.

(** ** Each step brings the end nearer *)

Definition nearer (R : nat) (l l' : list proc) : Prop :=
  weights R l' < weights R l ∨ weights R l' = weights R l ∧ all_sends_left l' < all_sends_left l.

Lemma weights_insert R l i p p' : l !! i = Some p → weight R p' < weight R p → nearer R l (<[i := p']> l).
Proof. intros Hp Hlt. left. unfold weights. pose proof (sum_insert (weight R) l i p p' Hp). lia. Qed.
Lemma settled_insert R l i p' : settled R l → settled_proc R p' → settled R (<[i := p']> l).
Proof. intros Hs Hp q [->|Hq]%elem_of_insert_inv; auto. Qed.
Lemma settled_app R p p' :
  settled_proc R p → b_hist p' = b_hist p → b_pc p' = b_pc p → (quiet p → quiet p' ∧ b_recv p' = b_recv p) → settled_proc R p'.
Proof.
  intros [H1 H2] Eh Ep Hq. unfold settled_proc. rewrite Eh, Ep. split.
  - intros Hlt. destruct (H1 Hlt) as [E Hqt]. destruct (Hq Hqt) as [Hq' ->]. done.
  - intros E. specialize (H2 E). destruct (b_pc p) as [[]| | | | | |]; try done; [by apply Hq|by apply Hq|]. destruct H2 as [-> Hqt]. destruct (Hq Hqt) as [? ->]. done.
Qed.

Definition progress_step (R : nat) (kv : K) (l : list proc) : Prop :=
  ∃ kv' l', barrier_step members kv l kv' l' ∧ settled R l' ∧ nearer R l l'.

Lemma recv_progress R kv l i p :
  barrier_inv members kv l → clear_way l → settled R l → l !! i = Some p → app_enabled p = true → progress_step R kv l.
Proof.
  intros Hi Hcw Hset Hp He. assert (p ∈ l) as Hel by (by eapply list_elem_of_lookup_2). pose proof (bi_proc _ _ _ Hi p Hel) as Hok.
  assert (∀ p', b_hist p' = b_hist p → b_pc p' = b_pc p → (quiet p → quiet p' ∧ b_recv p' = b_recv p) → app_weight p' < app_weight p →
    barrier_step members kv l kv (<[i := p']> l) → progress_step R kv l) as Hgo.
  { intros p' Eh Epc Hq Hw Hs. exists kv, (<[i := p']> l). split_and!; [done|apply settled_insert; [done|]; by apply (settled_app R p); auto|].
    apply (weights_insert R l i p); [done|]. unfold weight, todo. rewrite Eh, Epc. lia. }
  pose proof (po_app _ Hok) as Ha. unfold app_enabled in He. unfold recv_ok in Ha.
  destruct (b_app p) as [| |k|k b|k] eqn:Ea; [done| | | |].
  - destruct (Nat.ltb_spec 0 (b_real_to p)) as [Hr|Hr].
    + apply (Hgo (recv_real p)); try done; [|unfold app_weight; cbn; rewrite Ea; lia|by apply bs_recv_real]. intros [Hq _]. lia.
    + destruct (b_dummies p) as [|d ds] eqn:Ed; [done|]. apply (Hgo (recv_dummy p)); try done; [|unfold app_weight; cbn; rewrite Ea; lia|].
      * unfold quiet, holds. cbn. by intros [-> _].
      * pose proof (proj1 (ps_dummies _ _ _ (bi_posts _ _ _ Hi) i p Hp)) as Hf. rewrite Ed in Hf. apply Forall_cons_1 in Hf as [Hfd _].
        apply (bs_recv_dummy _ _ _ i p d ds); try done; [|apply Hfd]. apply no_rival_takes_none; [|done].
        apply (Hcw p Hel). left. unfold in_recv. by rewrite Ea.
  - apply (Hgo (p <| b_app := Read k (b_phase p) |>)); try done.
    + unfold quiet, holds. cbn. by rewrite Ea.
    + unfold app_weight. cbn. rewrite Ea. lia.
    + apply (bs_after_recv _ _ _ i p); [done|]. unfold after_recv. by rewrite Ea.
  - destruct b.
    + apply (Hgo (p <| b_slot := PENDING_RECV_CLOSED |> <| b_app := Out |>)); try done.
      * unfold quiet, holds. cbn. by intros [-> _].
      * unfold app_weight. cbn. rewrite Ea. lia.
      * apply (bs_after_recv _ _ _ i p); [done|]. unfold after_recv. by rewrite Ea.
    + apply (Hgo (p <| b_slot := PENDING_RECV_IDLE |> <| b_app := Stored k |>)); try done.
      * unfold quiet, holds. cbn. rewrite Ea. by destruct k.
      * unfold app_weight. cbn. rewrite Ea. lia.
      * apply (bs_after_recv _ _ _ i p); [done|]. unfold after_recv. by rewrite Ea.
  - apply (Hgo (p <| b_recv ::= S |> <| b_app := Out |>)); try done.
    + unfold quiet, holds. cbn. rewrite Ea. destruct k; [|done]. intros [_ ?]. lia.
    + unfold app_weight. cbn. rewrite Ea. lia.
    + apply (bs_after_recv _ _ _ i p); [done|]. unfold after_recv. by rewrite Ea.
Qed.

Lemma send_progress R kv l i p k n w d :
  settled R l → l !! i = Some p → b_pc p = Unblock (Send k n) → (k < n)%Z → posted_dummy members i k kv = Some (w, d) → progress_step R kv l.
Proof.
  intros Hset Hp Epc Hk Hd. eexists kv, _. split; [by eapply bs_send|]. set (p1 := p <| b_pc := _ |>).
  assert (settled R (<[i := p1]> l)) as Hs1.
  { apply settled_insert; [done|]. destruct (Hset p) as [H1 _]; [by eapply list_elem_of_lookup_2|]. by split. }
  assert (weights R (<[i := p1]> l) = weights R l) as Ew.
  { apply (sum_insert_same _ l i p); [done|]. unfold weight, todo. cbn. by rewrite Epc. }
  assert (all_sends_left (<[i := p1]> l) < all_sends_left l) as Es.
  { unfold all_sends_left. pose proof (sum_insert sends_left l i p p1 Hp) as E. unfold sends_left at 2 4 in E. cbn in E. rewrite Epc in E. lia. }
  rewrite alter_as_insert. destruct (<[i := p1]> l !! w) as [q|] eqn:Eq; [|by split; [|right]]. split.
  - apply settled_insert; [done|]. apply (settled_app R q); try done. apply Hs1. by eapply list_elem_of_lookup_2.
  - right. unfold weights, all_sends_left in *. by rewrite !(sum_insert_same _ (<[i := p1]> l) w q) by done.
Qed.

Lemma ckpt_progress R kv l i p :
  barrier_inv members kv l → some_sender l → clear_way l → settled R l → (∀ q, q ∈ l → app_enabled q = false) →
  l !! i = Some p → waits p = false → progress_step R kv l.
Proof.
  intros Hi Hd Hcw Hset Happ Hp Hw. assert (p ∈ l) as Hel by (by eapply list_elem_of_lookup_2).
  destruct (decide (b_pc p = Drain ∧ 0 < b_real_to p)) as [[Epc Hr]|Hnd].
  { exists kv, (<[i := p <| b_real_to ::= pred |> <| b_recv ::= S |>]> l). split; [by apply bs_drain|]. split.
    - apply settled_insert; [done|]. apply (settled_app R p); auto. unfold quiet. lia.
    - apply (weights_insert R l i p); [done|]. unfold weight, todo, app_weight. cbn. lia. }
  destruct (decide (b_pc p = Leaving)) as [Epc|Hnl].
  { exists kv, (<[i := p <| b_pc := Done |>]> l). split; [|split].
    - apply bs_close; [done|done|]. specialize (Happ p Hel). unfold app_enabled in Happ. destruct (b_app p) eqn:Ea; try done.
      apply orb_false_iff in Happ as [_ Hdm]. destruct (leaving_dummy kv l i p Hi Hcw Hp) as []; [unfold passed; by rewrite Epc|done|by destruct (b_dummies p)].
    - apply settled_insert; [done|]. destruct (Hset p Hel) as [H1 _]. by split.
    - apply (weights_insert R l i p); [done|]. unfold weight, todo, app_weight. cbn. rewrite Epc. lia. }
  destruct (decide (sends_left p = 0)) as [Hz|Hnz].
  - destruct (ckpt_enabled kv l i p) as (kv' & p' & E); try done.
    { intros k n Epc. unfold sends_left in Hz. rewrite Epc in Hz. lia. }
    exists kv', (<[i := p']> l). split; [by eapply bs_ckpt|]. split.
    + apply settled_insert; [done|]. eapply ckpt_settled; [by apply Hset| |exact E]. intros Epc. split; [apply Nat.le_0_r, Nat.nlt_ge; intros Hr; by apply Hnd|]. specialize (Happ p Hel).
      unfold app_enabled, holds in *. by destruct (b_app p) as [| |[]|[]|[]].
    + apply (weights_insert R l i p); [done|]. pose proof (round_bound kv l R p Hi Hset Hel) as Hb.
      assert (todo R p' < todo R p) as Ht by (eapply ckpt_todo; [|exact E]; by destruct (b_pc p) as [[]| | | | | |]).
      pose proof (ckpt_app_side _ _ _ _ _ _ E) as Eap. injection Eap as _ _ _ Ea Er _ _ _. unfold weight, app_weight. rewrite Ea, Er. lia.
  - unfold sends_left in Hnz. destruct (b_pc p) as [| | | |[]| |] eqn:Epc; try done.
    destruct (send_enabled kv l i p k n Hi Hp Epc ltac:(lia)) as (w & d & Hdm). by apply (send_progress R kv l i p k n w d); try done; lia.
Qed.

Lemma progress R kv l p0 :
  barrier_inv members kv l → some_sender l → clear_way l → settled R l → p0 ∈ l → b_pc p0 ≠ Done → progress_step R kv l.
Proof.
  intros Hi Hd Hcw Hset Hp0 Hn0. destruct (existsb app_enabled l) eqn:Ea.
  - apply existsb_exists in Ea as (p & Hp & Ha). apply list_elem_of_In, list_elem_of_lookup in Hp as (i & Hp). by apply (recv_progress R kv l i p).
  - assert (∀ q, q ∈ l → app_enabled q = false) as Happ.
    { intros q Hq. apply not_true_iff_false. intros E. apply not_true_iff_false in Ea. apply Ea, existsb_exists. exists q. split; [by apply list_elem_of_In|done]. }
    destruct (forallb waits l) eqn:Ew.
    + assert (∀ q, q ∈ l → waits q = true) as Hw by (intros q Hq; by eapply forallb_forall; [exact Ew|apply list_elem_of_In]).
      destruct (barrier_enabled kv l p0 Hi Hw Hp0 Hn0) as (i & p & pc & Hp & Hpc & Hall). exists kv, (<[i := p <| b_pc := pc |>]> l).
      split; [by apply bs_barrier|]. assert (p ∈ l) as Hel by (by eapply list_elem_of_lookup_2). split.
      * apply settled_insert; [done|]. destruct (Hset p Hel) as [H1 _]. split; [done|]. cbn. intros _.
        destruct (b_pc p) as [[]| | | |[]| |]; try done; by injection Hpc as <-.
      * apply (weights_insert R l i p); [done|]. unfold weight, todo, app_weight. cbn.
        destruct (b_pc p) as [[]| | | |[]| |]; try done; injection Hpc as <-; lia.
    + apply not_true_iff_false in Ew. rewrite forallb_forall in Ew. destruct (decide (Exists (λ q, waits q = false) l)) as [Hex|Hne].
      * apply Exists_exists in Hex as (p & Hp & Hw). apply list_elem_of_lookup in Hp as (i & Hp). by apply (ckpt_progress R kv l i p).
      * destruct Ew. intros q Hq. apply not_false_iff_true. intros E. apply Hne, Exists_exists. exists q. split; [by apply list_elem_of_In|done].
Qed.

Lemma finish R n m kv l :
  weights R l = n → all_sends_left l = m → barrier_inv members kv l → some_sender l → clear_way l → settled R l →
  ∃ kv' l', barrier_run members (kv, l) (kv', l') ∧ ∀ p, p ∈ l' → b_pc p = Done.
Proof.
  revert m kv l. induction n as [n IHn] using lt_wf_ind. intros m. induction m as [m IHm] using lt_wf_ind.
  intros kv l En Em Hi Hd Hcw Hset. destruct (decide (Forall (λ p, b_pc p = Done) l)) as [Hall|Hne].
  - exists kv, l. split; [apply rtc_refl|]. by apply Forall_forall.
  - assert (∃ p0, p0 ∈ l ∧ b_pc p0 ≠ Done) as (p0 & Hp0 & Hn0).
    { apply not_Forall_Exists in Hne; [|apply _]. apply Exists_exists in Hne as (p & Hp & Hn). by exists p. }
    destruct (progress R kv l p0 Hi Hd Hcw Hset Hp0 Hn0) as (kv1 & l1 & Hs & Hset1 & Hnear).
    assert (∃ kv' l', barrier_run members (kv1, l1) (kv', l') ∧ ∀ p, p ∈ l' → b_pc p = Done) as (kv' & l' & Hr & Hx).
    { pose proof (barrier_inv_step members _ _ _ _ Hi Hs) as Hi1. pose proof (some_sender_step _ _ _ _ Hi Hs Hd) as Hd1. pose proof (clear_way_step _ _ _ _ Hi Hs Hcw) as Hcw1. destruct Hnear as [Hlt|[Heq Hlt]].
      - eapply (IHn (weights R l1)); try done. lia.
      - eapply (IHm (all_sends_left l1)); try done; [lia|by rewrite Heq]. }
    exists kv', l'. split; [|done]. eapply rtc_l; [|exact Hr]. done.
Qed.

(** The rounds that have begun are over before the next but one. *)
Lemma can_finish_barriers kv l :
  barrier_inv members kv l → some_sender l → clear_way l → ∃ kv' l', barrier_run members (kv, l) (kv', l') ∧ ∀ p, p ∈ l' → b_pc p = Done.
Proof.
  intros Hi Hd Hcw. apply (finish (S (sum_list_with (λ p, length (b_hist p)) l)) _ _ kv l eq_refl eq_refl Hi Hd Hcw).
  intros p Hp. assert (length (b_hist p) ≤ sum_list_with (λ p, length (b_hist p)) l) as Hle.
  { clear -Hp. induction l as [|q l IH]; [by apply not_elem_of_nil in Hp|]. rewrite sum_cons. apply elem_of_cons in Hp as [->|Hp]; [lia|]. specialize (IH Hp). lia. }
  split; lia.
Qed.
End live.
