(* ===== verification/BarrierDrainRun.v ===== *)
(** * The drain with barriers, as a function of a schedule

    [do_barrier_action] executes one step of [barrier_step] when its guard holds;
    a schedule is a list of actions.  [text_kvdb] is a store with text values
    that has the laws of [KvdbTextLaws]. *)
From S2P Require Import Prelude Kvdb P2p P2pDrain P2pJob BarrierDrain BarrierDrainInv BarrierDrainSafe.
#[local] Open Scope nat_scope.

Inductive barrier_action :=
  | Do_ckpt (i : nat) | Do_barrier (i : nat) | Do_drain_msg (i : nat) | Do_send (i : nat) | Do_close (i : nat)
  | Do_real (i : nat) | Do_dummy (i : nat) | Do_after (i : nat) | Do_irecv (i : nat).

Section run.
Context `{Kvdb K} `{!KvdbText K}.
Context (members : Z → list nat).

Definition when (b : bool) (x : K * list proc) : option (K * list proc) := if b then Some x else None.
Definition is_out (a : app_pc) : bool := match a with Out => true | _ => false end.
Definition is_waiting (a : app_pc) : bool := match a with InRecv => true | _ => false end.

Definition do_barrier_action (x : K * list proc) (a : barrier_action) : option (K * list proc) :=
  let '(kv, l) := x in
  match a with
  | Do_ckpt i => p ← l !! i; '(kv', p') ← drainInFlightP2p members i kv p; Some (kv', <[i := p']> l)
  | Do_barrier i => p ← l !! i; pc ← after_barrier (b_pc p);
      when (forallb (λ q, length (b_barriers p) <=? length (b_barriers q)) l) (kv, <[i := p <| b_pc := pc |>]> l)
  | Do_drain_msg i => p ← l !! i;
      when (bool_decide (b_pc p = Drain) && (0 <? b_real_to p)) (kv, <[i := p <| b_real_to ::= pred |> <| b_recv ::= S |>]> l)
  | Do_send i => p ← l !! i;
      match b_pc p with
      | Unblock (Send k n) =>
          '(w, d) ← posted_dummy members i k kv;
          when (k <? n)%Z (kv, alter (λ q, q <| b_dummies ::= λ ds, ds ++ [d] |>) w (<[i := p <| b_pc := Unblock (Send (k + 1)%Z n) |>]> l))
      | _ => None
      end
  | Do_close i => p ← l !! i; when (bool_decide (b_pc p = Leaving) && is_out (b_app p)) (kv, <[i := p <| b_pc := Done |>]> l)
  | Do_real i => p ← l !! i; when (is_waiting (b_app p) && (0 <? b_real_to p)) (kv, <[i := recv_real p]> l)
  | Do_dummy i => p ← l !! i;
      match b_dummies p with
      | d :: _ => when (is_waiting (b_app p) && env_matches (b_env p) d && bool_decide (take_irecv d (b_irecvs p) = None)) (kv, <[i := recv_dummy p]> l)
      | [] => None
      end
  | Do_after i => p ← l !! i; p' ← after_recv p; Some (kv, <[i := p']> l)
  | Do_irecv i => p ← l !! i;
      match b_dummies p with
      | d :: ds => es ← take_irecv d (b_irecvs p);
          Some (kv, <[i := p <| b_irecvs := es |> <| b_dummies := ds |> <| b_irecv_dummies ::= S |>]> l)
      | [] => None
      end
  end.

Fixpoint run_barriers (x : K * list proc) (s : list barrier_action) : option (K * list proc) :=
  match s with [] => Some x | a :: s => y ← do_barrier_action x a; run_barriers y s end.

Lemma when_some b x y : when b x = Some y → b = true ∧ x = y.
Proof. unfold when. destruct b; [|done]. by intros [= ->]. Qed.

Lemma do_barrier_action_step x a y : do_barrier_action x a = Some y → barrier_step members x.1 x.2 y.1 y.2.
Proof.
  destruct x as [kv l]. destruct a as [i|i|i|i|i|i|i|i|i]; cbn [do_barrier_action fst snd]; destruct (l !! i) as [p|] eqn:Hp; cbn [mbind option_bind]; intros E; try done.
  - destruct (drainInFlightP2p _ _ _ _) as [[kv' p']|] eqn:Ed; [|done]. injection E as <-. by eapply bs_ckpt.
  - destruct (after_barrier _) as [pc|] eqn:Ea; [|done]. apply when_some in E as [Hall <-]. apply bs_barrier; try done.
    intros q Hq. rewrite forallb_forall in Hall. apply Nat.leb_le, Hall. by apply list_elem_of_In.
  - apply when_some in E as [[H1%bool_decide_eq_true H2%Nat.ltb_lt]%andb_true_iff <-]. by apply bs_drain.
  - destruct (b_pc p) as [| | | |[]| |] eqn:Epc; try done. destruct (posted_dummy _ _ _ _) as [[w d]|] eqn:Ed; [|done].
    apply when_some in E as [Hk%Z.ltb_lt <-]. by apply bs_send.
  - apply when_some in E as [[H1%bool_decide_eq_true H2]%andb_true_iff <-]. apply bs_close; try done. by destruct (b_app p).
  - apply when_some in E as [[H1 H2%Nat.ltb_lt]%andb_true_iff <-]. apply bs_recv_real; try done. by destruct (b_app p).
  - destruct (b_dummies p) as [|d ds] eqn:Ed; [done|]. apply when_some in E as [[[H1 H2]%andb_true_iff H3%bool_decide_eq_true]%andb_true_iff <-].
    apply (bs_recv_dummy _ _ _ i p d ds); try done. by destruct (b_app p).
  - destruct (after_recv p) as [p'|] eqn:Ea; [|done]. injection E as <-. by eapply bs_after_recv.
  - destruct (b_dummies p) as [|d ds] eqn:Ed; [done|]. destruct (take_irecv _ _) as [es|] eqn:Et; [|done]. injection E as <-. by eapply bs_irecv_dummy.
Qed.

Lemma run_barriers_run s x y : run_barriers x s = Some y → barrier_run members x y.
Proof.
  revert x. induction s as [|a s IH]; intros x; cbn [run_barriers]; [intros [= ->]; apply rtc_refl|].
  destruct (do_barrier_action x a) as [z|] eqn:E; [|done]. intros Hr. eapply rtc_l; [by apply do_barrier_action_step in E|]. by apply IH.
Qed.
End run.

(** ** A store with text values *)

Definition text_kvdb : Type := assoc_kvdb * list ((kvdb_name * kvdb_key) * list Z).
#[export] Instance text_kvdb_ops : Kvdb text_kvdb := {|
  get64 db key kv := get64 db key kv.1;
  set64 db key v kv := (set64 db key v kv.1, kv.2);
  request_MAX db key v kv := (request_MAX db key v kv.1, kv.2);
  request_INCRBY db key v kv := let '(old, kv1) := request_INCRBY db key v kv.1 in (old, (kv1, kv.2));
  request_OR db key v kv := (request_OR db key v kv.1, kv.2)
|}.
#[export] Instance text_kvdb_text : KvdbText text_kvdb := {|
  get_text db key kv := snd ∘ snd <$> list_find (λ x, x.1 = (db, key)) kv.2;
  set_text db key v kv := (kv.1, ((db, key), v) :: kv.2)
|}.
#[export] Instance text_kvdb_laws : KvdbLaws text_kvdb.
Proof. split; intros; [exact (set64_spec db key v kv.1)|exact (MAX_spec db key v kv.1)|exact (INCRBY_spec db key v kv.1)|done|exact (OR_spec db key v kv.1)]. Qed.
#[export] Instance text_kvdb_text_laws : KvdbTextLaws text_kvdb.
Proof.
  split; intros; try done.
  - cbn. by rewrite decide_True.
  - cbn. rewrite decide_False by congruence. by destruct (list_find _ kv.2) as [[]|].
Qed.

(** ** A concrete job *)

(** Process 0 waits in [MPI_Recv] for a message of communicator 5 with tag 7; it has sent
    one message to process 1, which has not received it. *)
Definition members2 (gid : Z) : list nat := if (gid =? 5)%Z then [0; 1] else [].
Definition start2_with (irecvs : list recv_envelope) : list proc :=
  [mk_proc (mk_env 5 None (Some 7%Z) 4 0) 1 0 PENDING_RECV_ACTIVE false InRecv 0 [] (Register Add_sent) false None [] [] irecvs 0;
   mk_proc (mk_env 0 None None 0 0) 0 0 PENDING_RECV_CLOSED false Out 1 [] (Register Add_sent) false None [] [] [] 0].
(** Its pending [MPI_Irecv] waits for another tag. *)
Definition start2 : list proc := start2_with [mk_env 5 None (Some 8%Z) 4 0].
Definition store2 : text_kvdb := ([], []).
Definition both (a : nat → barrier_action) : list barrier_action := [a 0; a 1].
Definition round_actions : list barrier_action :=
  both Do_ckpt ++ both Do_ckpt ++ both Do_ckpt ++ both Do_barrier ++ both Do_ckpt ++ both Do_ckpt ++ both Do_ckpt.
(** Up to the last barrier, and to the end. *)
Definition dummies_sent : list barrier_action :=
  round_actions ++ [Do_drain_msg 1] ++ both Do_ckpt ++ round_actions ++
  both Do_ckpt ++ both Do_ckpt ++ both Do_ckpt ++ both Do_ckpt ++ both Do_barrier ++
  [Do_ckpt 0; Do_ckpt 0; Do_ckpt 0; Do_ckpt 1] ++ both Do_barrier ++ both Do_ckpt ++ [Do_send 1] ++ both Do_ckpt ++ both Do_barrier.
Definition whole_barrier_drain : list barrier_action :=
  dummies_sent ++ [Do_close 1; Do_dummy 0; Do_after 0; Do_after 0; Do_close 0].
Definition after2 (s : list barrier_action) : text_kvdb * list proc := default (store2, []) (run_barriers members2 (store2, start2) s).

Lemma start2_with_ok es : barrier_start members2 store2 (start2_with es).
Proof.
  split; [done|]. split; [done|]. split; [|done]. intros [|[|i]] p Hp; try done; injection Hp as <-; cbn; split_and!; try done.
  intros _. split_and!; try done; [repeat constructor; set_solver|repeat constructor; lia].
Qed.
Lemma start2_ok : barrier_start members2 store2 start2.
Proof. apply start2_with_ok. Qed.
Lemma run2_dummies : barrier_run members2 (store2, start2) (after2 dummies_sent).
Proof. apply (run_barriers_run _ dummies_sent). vm_compute. reflexivity. Qed.
Lemma run2_whole : barrier_run members2 (store2, start2) (after2 whole_barrier_drain).
Proof. apply (run_barriers_run _ whole_barrier_drain). vm_compute. reflexivity. Qed.
