(* ===== verification/BarrierDrainSpec.v ===== *)
(** * What the drain with barriers guarantees; the end of the drain without them *)
From S2P Require Import Prelude Kvdb P2p P2pDrain P2pJob P2pJobInv BarrierDrain BarrierDrainInv BarrierDrainControl BarrierDrainSteps BarrierDrainPosts BarrierDrainSafe BarrierDrainLive BarrierDrainRun.
#[local] Open Scope nat_scope.

(** The value of [p2p_dummy_phase] that the application thread should read. *)
Definition dummy_flag (k : msg_kind) : bool := match k with Real => false | Dummy => true end.

(** A process that is ready for the checkpoint. *)
Definition drained (p : proc) : Prop :=
  b_app p = Out ∧ b_slot p = PENDING_RECV_CLOSED ∧ b_real_to p = 0 ∧ b_dummies p = [].

Section spec.
Context `{KvdbLaws K} `{!KvdbText K, !KvdbTextLaws K}.
Context (members : Z → list nat).

(** ** Lemmas *)

Lemma same_barriers kv l p q n b b' :
  barrier_inv members kv l → p ∈ l → q ∈ l → b_barriers p !! n = Some b → b_barriers q !! n = Some b' → b = b'.
Proof.
  intros Hi. revert p q b b'.
  assert (∀ p q b b', length (b_hist p) ≤ length (b_hist q) → p ∈ l → q ∈ l → b_barriers p !! n = Some b → b_barriers q !! n = Some b' → b = b') as Hle.
  { intros p q b b' Hl Hp Hq Hb Hb'. pose proof (bi_proc _ _ _ Hi) as Hok. rewrite (po_barriers _ (Hok p Hp)) in Hb. rewrite (po_barriers _ (Hok q Hq)) in Hb'.
    assert (length (b_hist p) = length (b_hist q) ∨ stage p = 0) as [El|Es].
    { destruct (decide (stage p = 0)) as [|Hs]; [by right|]. left. pose proof (stage_past p ltac:(lia)) as Hx.
      destruct (past_loop q) eqn:Hxq; [by apply (same_rounds l p q (bi_control _ _ _ Hi) Hok)|].
      pose proof (in_loop_not_ahead l q p (bi_control _ _ _ Hi) Hok Hq Hp Hx Hxq). lia. }
    - rewrite El in Hb. apply lookup_app_Some in Hb, Hb'. rewrite length_replicate in *. destruct Hb as [Hb|[Hn Hb]], Hb' as [Hb'|[Hn' Hb']].
      + apply lookup_replicate in Hb as [-> _]. by apply lookup_replicate in Hb' as [-> _].
      + apply lookup_replicate in Hb as [_ Hb]. lia.
      + apply lookup_replicate in Hb' as [_ Hb']. lia.
      + apply lookup_take_Some in Hb as [Hb _]. apply lookup_take_Some in Hb' as [Hb' _]. congruence.
    - rewrite Es in Hb. cbn in Hb. rewrite app_nil_r in Hb. apply lookup_replicate in Hb as [-> Hn].
      rewrite lookup_app_l in Hb' by (rewrite length_replicate; lia). by apply lookup_replicate in Hb' as [-> _]. }
  intros p q b b' Hp Hq Hb Hb'. destruct (Nat.le_ge_cases (length (b_hist p)) (length (b_hist q))) as [Hl|Hl]; [by eapply Hle|].
  symmetry. by eapply (Hle q p).
Qed.

Lemma done_out kv l kv' l' :
  barrier_start members kv l → barrier_run members (kv, l) (kv', l') → ∀ p, p ∈ l' → b_pc p = Done → b_app p = Out.
Proof.
  intros Hst Hr. assert (∀ x y, barrier_run members x y → (∀ p, p ∈ x.2 → b_pc p = Done → b_app p = Out) → ∀ p, p ∈ y.2 → b_pc p = Done → b_app p = Out) as Hrun.
  { clear. intros x y Hr. induction Hr as [x|x y z Hxy _ IH]; [done|]. intros Hx. apply IH. clear IH. destruct x as [kv l], y as [kv' l']. cbn in *.
    assert (∀ i p p', l !! i = Some p → (b_pc p' = Done → b_app p' = Out) → ∀ q, q ∈ <[i := p']> l → b_pc q = Done → b_app q = Out) as Hins.
    { intros i p p' _ Hp' q [->|Hq]%elem_of_insert_inv; [done|]. by apply Hx. }
    assert (∀ i p, l !! i = Some p → b_pc p = Done → b_app p = Out) as Hx' by (intros i p Hp; eapply Hx, list_elem_of_lookup_2; done).
    destruct Hxy as [i p kv' p' Hp E|i p pc Hp E _|i p Hp Epc _|i p d ds Hp Epc _ _|i p k n w d Hp Epc _ _|i p Hp _ Eo|i p Hp Ea _|i p d ds Hp Ea _ _ _|i p p' Hp E|i p es e es' Hp Epc _ _|i p d ds es Hp _ _].
    - apply (Hins i p); [done|]. intros Ed. exfalso. revert E Ed. unfold drainInFlightP2p, registerLocalSendsAndRecvs, unblockPendingRecvs.
      destruct (b_pc p) as [[]|gs gr| | |[]| |]; intros E Ed; try done; try (by injection E as _ <-).
      + injection E as _ <-. cbn in Ed. by destruct (_ <? _)%Z.
      + destruct (b_blocked p); [destruct (choose_sender _ _ _) as [s|]; [|done]; cbn in E; destruct (_ !! s); [|done]|]; by injection E as _ <-.
      + destruct (request_INCRBY _ _ _ _). by injection E as _ <-.
      + destruct (_ <? _)%Z; [done|]. by injection E as _ <-.
    - apply (Hins i p); [done|]. cbn. destruct (b_pc p) as [[]| | | |[]| |]; try done; by injection E as <-.
    - apply (Hins i p); [done|]. cbn. rewrite Epc. done.
    - apply (Hins i p); [done|]. cbn. rewrite Epc. done.
    - intros q Hq. apply list_elem_of_lookup in Hq as (a & Ha). rewrite sent_dummy_lookup in Ha by done. destruct (l !! a) as [q0|] eqn:Eq; [|done].
      injection Ha as <-. destruct (sent_dummy_keeps i w k n d a q0) as (_ & _ & _ & Eapp & _ & _ & _ & _ & Ep & _). rewrite Ep, Eapp. case_decide; [done|]. by apply (Hx' a).
    - apply (Hins i p); [done|]. done.
    - apply (Hins i p); [done|]. cbn. intros Ed. rewrite (Hx' i p Hp Ed) in Ea. done.
    - apply (Hins i p); [done|]. cbn. intros Ed. rewrite (Hx' i p Hp Ed) in Ea. done.
    - apply (Hins i p); [done|]. unfold after_recv in E. intros Ed. destruct (b_app p) as [| |k|k []|k] eqn:Ea; try done; injection E as <-; cbn in *; try done;
        rewrite (Hx' i p Hp Ed) in Ea; done.
    - apply (Hins i p); [done|]. cbn. rewrite Epc. done.
    - apply (Hins i p); [done|]. by apply (Hx' i p). }
  apply (Hrun (kv, l) (kv', l') Hr). cbn. intros p Hp Ed. apply list_elem_of_lookup in Hp as (i & Hp). destruct Hst as (_ & _ & Hl & _).
  destruct (Hl i p Hp) as (E & _). congruence.
Qed.

(** The dummies of a process once every process has left the last barrier but
    one. *)
Lemma blocked_dummy kv l i p q :
  barrier_inv members kv l → q ∈ l → passed q = 3 → l !! i = Some p →
  if b_blocked p then length (b_dummies p) + got_dummies p = 1 ∧ ∃ j s, b_post p = Some (j, s) ∧ sender_ok members l (b_env p) j
  else in_recv p = false ∧ b_dummies p = [].
Proof.
  intros Hi Hq H3 Hp. assert (p ∈ l) as Hel by (by eapply list_elem_of_lookup_2). pose proof (bi_proc _ _ _ Hi p Hel) as Hok.
  pose proof (bi_posts _ _ _ Hi) as Hps. pose proof (co_passed _ (bi_control _ _ _ Hi) q p Hq Hel) as Hst. rewrite H3 in Hst.
  destruct (b_blocked p) eqn:Hb.
  - assert (is_Some (b_post p)) as [[j s] Epo].
    { pose proof (po_post _ Hok) as Hpo. unfold post_ok, stage in *. destruct (b_pc p) as [| | | |[]| |]; try lia; by apply Hpo. }
    destruct (ps_slot _ _ _ Hps i p j s Hp Epo) as (Hs & Hso & _). split; [|by exists j, s].
    destruct (ps_dummies _ _ _ Hps i p Hp) as [_ Hd]. rewrite Epo in Hd. destruct Hd as (r & Hr & ->). apply decide_True.
    pose proof (co_passed _ (bi_control _ _ _ Hi) q r Hq ltac:(by eapply list_elem_of_lookup_2)) as Hst'. rewrite H3 in Hst'.
    unfold sent_slots, stage in *. destruct (b_pc r) as [| | | |[]| |]; lia.
  - destruct (past_loop_counted members kv l q p Hi Hq) as [_ Hh]; [by apply stage_past; pose proof (passed_stage q); lia|done|].
    pose proof (po_app _ Hok) as Ha. assert (past_close p = true) as Hc by (unfold stage, past_close in *; destruct (b_pc p) as [| | | |[]| |]; done || lia).
    split.
    + unfold recv_ok, in_recv, holds in *. rewrite Hb in Ha. destruct (b_app p) as [| |[]|[] b|[]]; try done; [by specialize (Ha Hc)|by destruct Ha].
    + destruct (ps_dummies _ _ _ Hps i p Hp) as [_ Hd]. destruct (b_post p) as [x|] eqn:Ex; [|by destruct Hd].
      pose proof (post_blocked p x Hok Ex). congruence.
Qed.

Lemma done_drained kv l p i :
  barrier_inv members kv l → l !! i = Some p → b_pc p = Done → b_app p = Out → drained p.
Proof.
  intros Hi Hp Ed Ea. assert (p ∈ l) as Hel by (by eapply list_elem_of_lookup_2). pose proof (bi_proc _ _ _ Hi p Hel) as Hok.
  pose proof (blocked_dummy kv l i p p Hi Hel) as Hd. unfold passed in Hd. rewrite Ed in Hd. specialize (Hd eq_refl Hp).
  pose proof (po_closed _ Hok) as Hc. unfold past_close in Hc. rewrite Ed in Hc. specialize (Hc eq_refl).
  pose proof (po_slot _ Hok) as Hs. unfold in_recv in Hs. rewrite Ea in Hs. split_and!; [done| | |].
  - destruct (b_slot p); [done| |done]. by destruct Hs as [Hs _]; specialize (Hs eq_refl).
  - apply (past_loop_counted members kv l p p Hi Hel); [|done]. unfold past_loop. by rewrite Ed.
  - unfold got_dummies, had_dummy in Hd. rewrite Ea in Hd. destruct (b_blocked p); [|by apply Hd]. destruct Hd as [Hd _]. destruct (b_dummies p); cbn in Hd; [done|lia].
Qed.

(** ** Safety *)

(** C7. The drain with barriers ([MANA_P2P_WAIT=blocking] without a lower-half TLS
    of the checkpoint thread), in every interleaving of the processes and their
    threads.  (1) The processes enter the same barriers in the same order,
    though each decides for itself whether to make another round.  (2) One read
    of [p2p_dummy_phase] after the receive tells a dummy from a message, and no
    dummy is counted.  (3) When one process has left the loop of
    [drainInFlightP2p()], every message of the application is received and
    counted, in all processes.  (4) A process that has closed the lower half
    after the drain has no message or dummy on its way, its application thread
    is in no receive and can start none. *)
Theorem barrier_drain_safe kv0 l0 kv l p :
  barrier_start members kv0 l0 → barrier_run members (kv0, l0) (kv, l) → p ∈ l →
  (∀ q n b b', q ∈ l → b_barriers p !! n = Some b → b_barriers q !! n = Some b' → b = b') ∧
  match b_app p with Got k => b_phase p = dummy_flag k | Read k b => b = dummy_flag k | Stored k => k = Real | _ => True end ∧
  (past_loop p = true → (∀ q, q ∈ l → b_real_to q = 0 ∧ holds q = 0) ∧ sum_list_with b_recv l = sum_list_with b_sent l) ∧
  (b_pc p = Done → drained p).
Proof.
  intros Hs Hr Hel. pose proof (runs_ok members _ _ _ _ Hs Hr) as Hi. pose proof (bi_proc _ _ _ Hi p Hel) as Hok.
  pose proof Hel as Hel'. apply list_elem_of_lookup in Hel' as (i & Hp). split_and!.
  - intros q n b b' Hq. by apply (same_barriers kv l).
  - pose proof (po_app _ Hok) as Ha. unfold recv_ok in Ha. destruct (b_app p) as [| |k|[] b|[]] eqn:Ea; try done; [|by destruct Ha].
    destruct k.
    + apply not_true_iff_false. intros E. apply (po_phase _ Hok), stage_past in E.
      rewrite (real_early members kv l p p Hi Hel Hel) in E; [done|]. left. unfold holds. rewrite Ea. lia.
    + apply (po_phase _ Hok). destruct (dummy_late members kv l i p Hi Hp); [unfold got_dummies, had_dummy; rewrite Ea; lia|lia].
  - intros Hx. assert (∀ q, q ∈ l → b_real_to q = 0 ∧ holds q = 0) as Hc by (intros q; by apply (past_loop_counted members kv l p)). split; [done|].
    pose proof (co_exit _ (bi_control _ _ _ Hi) p Hel Hx) as He. pose proof (contributions_le (pred (length (b_hist p))) l (bi_proc _ _ _ Hi)).
    pose proof (bi_balance _ _ _ Hi). unfold ends_loop in He. lia.
  - intros Ed. apply (done_drained kv l p i); try done. by eapply done_out.
Qed.

(** ** Every blocked receive gets its dummy *)

Lemma recv_ends_trans p q r : recv_ends p q → recv_ends q r → recv_ends p r.
Proof.
  intros (E1 & A1 & B1 & C1 & D1 & F1) (E2 & A2 & B2 & C2 & D2 & F2). split_and!; [congruence|auto| |set_solver|lia|].
  - intros Hb. destruct (B2 Hb) as [Hq|Hq]; [by apply B1|right; by apply A1].
  - intros Hn. rewrite F2; [by apply F1|]. intros e d He. rewrite E1. apply Hn. set_solver.
Qed.
Lemma run_recv_ends kv l kv' l' i p p' :
  barrier_inv members kv l → barrier_run members (kv, l) (kv', l') → l !! i = Some p → l' !! i = Some p' → recv_ends p p'.
Proof.
  intros Hi Hr. change l with (kv, l).2. change l' with (kv', l').2. change (barrier_inv members (kv, l).1 (kv, l).2) in Hi.
  revert Hi. generalize (kv, l) (kv', l') Hr. clear Hr kv l kv' l'. intros x y Hr. revert p. induction Hr as [x|x y z Hxy _ IH]; intros p Hi Hp Hp'.
  - rewrite Hp in Hp'. injection Hp' as <-. by split_and!; auto.
  - destruct (step_recv_ends members _ _ _ _ Hi Hxy) as [Hlen He]. destruct (lookup_lt_is_Some_2 y.2 i) as [q Hq]; [rewrite Hlen; by eapply lookup_lt_Some|].
    apply (recv_ends_trans p q); [by eapply He|]. apply IH; [by eapply barrier_inv_step|done|done].
Qed.


(** ** The drain can always finish *)


(** A dummy that a pending [MPI_Irecv] took leaves the [MPI_Recv] blocked, and the
    process never closes the lower half. *)
Theorem taken_dummy_never_done kv0 l0 kv l kv' l' i p p' :
  barrier_start members kv0 l0 → barrier_run members (kv0, l0) (kv, l) → l !! i = Some p → 0 < b_irecv_dummies p →
  barrier_run members (kv, l) (kv', l') → l' !! i = Some p' → b_pc p' ≠ Done.
Proof.
  intros Hs Hr Hp Ht Hr' Hp' Ed. assert (barrier_run members (kv0, l0) (kv', l')) as Hrr by (unfold barrier_run in *; by etrans).
  pose proof (runs_ok members _ _ _ _ Hs Hr) as Hi. pose proof (runs_ok members _ _ _ _ Hs Hrr) as Hi'.
  destruct (run_recv_ends kv l kv' l' i p p' Hi Hr' Hp Hp') as (_ & _ & _ & _ & Hle & _).
  assert (p' ∈ l') as Hel by (by eapply list_elem_of_lookup_2).
  pose proof (blocked_dummy kv' l' i p' p' Hi' Hel) as Hd. unfold passed in Hd. rewrite Ed in Hd. specialize (Hd eq_refl Hp').
  destruct (dummy_late members kv' l' i p' Hi' Hp') as [_ Hb]; [unfold got_dummies; lia|]. rewrite Hb in Hd. destruct Hd as [Hd _].
  unfold got_dummies, had_dummy in Hd. rewrite (done_out _ _ _ _ Hs Hrr p' Hel Ed), Hb in Hd. lia.
Qed.
End spec.

(** ** Witnesses *)

Lemma barrier_drain_safe_witness :
  ∃ p, (after2 whole_barrier_drain).2 !! 0 = Some p ∧ b_pc p = Done ∧ drained p.
Proof.
  destruct ((after2 whole_barrier_drain).2 !! 0) as [p|] eqn:E; [|exfalso; vm_compute in E; discriminate].
  exists p. assert (b_pc p = Done) as Ed.
  { assert (Some (b_pc p) = Some Done) as H; [|by injection H]. change (b_pc <$> Some p = Some Done). rewrite <- E. vm_compute. reflexivity. }
  split; [done|]. split; [done|].
  destruct (barrier_drain_safe members2 store2 start2 (after2 whole_barrier_drain).1 (after2 whole_barrier_drain).2 p start2_ok) as (_ & _ & _ & Hd).
  - pose proof run2_whole as Hr. by destruct (after2 whole_barrier_drain).
  - by eapply list_elem_of_lookup_2.
  - exact (Hd Ed).
Defined.



(** The same job with an [MPI_Irecv] in front that matches the dummy. *)
Definition rival2 : list proc := start2_with [mk_env 5 None (Some 7%Z) 4 0].
Definition rival_taken : text_kvdb * list proc :=
  default (store2, []) (run_barriers members2 (store2, rival2) (dummies_sent ++ [Do_irecv 0])).
Lemma taken_dummy_never_done_witness :
  ∀ kv' l' p', barrier_run members2 rival_taken (kv', l') → l' !! 0 = Some p' → b_pc p' ≠ Done.
Proof.
  intros kv' l' p' Hr Hp'. destruct (rival_taken.2 !! 0) as [p|] eqn:E; [|exfalso; vm_compute in E; discriminate].
  assert (rival_taken = (rival_taken.1, rival_taken.2)) as Ep by apply surjective_pairing. rewrite Ep in Hr.
  refine (taken_dummy_never_done members2 store2 rival2 rival_taken.1 rival_taken.2 kv' l' 0 p p' (start2_with_ok _) _ E _ Hr Hp').
  - rewrite <- Ep. apply (run_barriers_run _ (dummies_sent ++ [Do_irecv 0])). vm_compute. reflexivity.
  - assert (Some (b_irecv_dummies p) = Some 1) as H; [|injection H; lia].
    change (b_irecv_dummies <$> Some p = Some 1). rewrite <- E. vm_compute. reflexivity.
Defined.

(** ** The end of the drain without barriers
    ([waitForAllRanksDone()] and [drainHasNoBarrier()] of [src/src/p2p_drain.cpp])

    A process that has left the loop of [drainWithoutBarriers()] adds one to a
    counter in the coordinator's store and polls it until it is the number of
    processes; between polls it calls MPI.  A step relation on the store and the
    places of all processes: one step for each request. *)
Module RanksDone.
#[local] Close Scope nat_scope.
(** Without barriers: no application thread waits in the lower half, or the
    checkpoint thread has a TLS of its own there ([ckpt_fsaddr]). *)
Definition drainHasNoBarrier (polling : bool) (ckpt_fsaddr : Z) : bool := polling || negb (ckpt_fsaddr =? 0).

Inductive wait_pc := Arriving | Polling | Gone.
#[export] Instance wait_pc_eq_dec : EqDecision wait_pc.
Proof. solve_decision. Defined.

Section done.
Context `{KvdbLaws K}.
Definition done_key : kvdb_key := other_key "done".

(** One step of [waitForAllRanksDone()] of a process of [world_size]. *)
Definition waitForAllRanksDone (world_size : Z) (pc : wait_pc) (kv : K) : option (K * wait_pc) :=
  match pc with
  | Arriving => Some ((request_INCRBY P2P done_key 1 kv).2, Polling)
  | Polling => Some (kv, if world_size <=? kv_get done_key kv then Gone else Polling)
  | Gone => None
  end.

Inductive wait_step : K * list wait_pc → K * list wait_pc → Prop :=
  | ws_step kv l i pc kv' pc' :
      l !! i = Some pc → waitForAllRanksDone (Z.of_nat (length l)) pc kv = Some (kv', pc') →
      wait_step (kv, l) (kv', <[i := pc']> l).

Definition arrived (pc : wait_pc) : nat := match pc with Arriving => 0 | _ => 1 end.
Definition wait_ok (x : K * list wait_pc) : Prop :=
  kv_get done_key x.1 = Z.of_nat (sum_list_with arrived x.2) ∧ (Gone ∈ x.2 → Arriving ∉ x.2).

Lemma all_arrived l : (length l ≤ sum_list_with arrived l)%nat → Arriving ∉ l.
Proof.
  assert (∀ l, sum_list_with arrived l ≤ length l)%nat as Hle.
  { clear. induction l as [|pc l IH]; [done|]. rewrite sum_cons. unfold arrived at 1. cbn. destruct pc; lia. }
  induction l as [|pc l IH]; [intros _ []%not_elem_of_nil|]. rewrite sum_cons. cbn [length]. intros Hl [<-|Hin]%elem_of_cons.
  - specialize (Hle l). cbn in Hl. lia.
  - revert Hin. apply IH. unfold arrived at 1 in Hl. destruct pc; lia.
Qed.

Lemma wait_step_ok x y : wait_step x y → wait_ok x → wait_ok y.
Proof.
  intros Hs [H1 H2]. destruct Hs as [kv l i pc kv' pc' Hi E]. cbn in *.
  assert (arrived pc' = 1%nat) as Ea by (destruct pc; try done; injection E as _ <-; [done|by case_match]).
  pose proof (sum_insert arrived l i pc pc' Hi) as Hsum. split; cbn.
  - destruct pc; try done; injection E as <- _.
    + rewrite kv_get_INCRBY, decide_True by done. cbn in Hsum. lia.
    + cbn in Hsum. lia.
  - intros HG HA.
    assert (Arriving ∈ l) as HA' by (apply elem_of_insert_inv in HA as [<-|HA]; [done|done]).
    apply elem_of_insert_inv in HG as [HG|HG]; [|by apply H2]. subst pc'. destruct pc; [done| |done]. injection E as _ E.
    destruct (Z.leb_spec (Z.of_nat (length l)) (kv_get done_key kv)) as [Hle|]; [|done]. apply (all_arrived l); [lia|done].
Qed.

(** No process returns from [waitForAllRanksDone()] before every process has called
    it, and, from every state that the processes can reach, all can return. *)
Theorem all_ranks_done kv0 l0 kv l :
  get64 P2P done_key kv0 = None → (∀ pc, pc ∈ l0 → pc = Arriving) → rtc wait_step (kv0, l0) (kv, l) →
  (Gone ∈ l → Arriving ∉ l) ∧ ∃ kv' l', rtc wait_step (kv, l) (kv', l') ∧ ∀ pc, pc ∈ l' → pc = Gone.
Proof.
  intros Hk Hl Hr. assert (wait_ok (kv0, l0)) as Hok0.
  { split; cbn; [|intros HG; by specialize (Hl _ HG)]. unfold kv_get. rewrite Hk. cbn. clear Hr. induction l0 as [|pc l0 IH]; [done|].
    rewrite sum_cons, (Hl pc) by (by left). cbn. apply IH. intros pc' Hpc. apply Hl. by right. }
  assert (wait_ok (kv, l)) as Hok by (induction Hr; [done|]; eauto using wait_step_ok). split; [apply Hok|].
  remember (sum_list_with (λ pc, match pc with Arriving => 2 | Polling => 1 | Gone => 0 end)%nat l) as n eqn:En. clear Hr Hok0 Hl Hk.
  revert kv l En Hok. induction n as [n IH] using lt_wf_ind. intros kv l En Hok.
  assert (∀ i pc kv' pc', l !! i = Some pc → waitForAllRanksDone (Z.of_nat (length l)) pc kv = Some (kv', pc') → pc' ≠ pc →
    ∃ kv' l', rtc wait_step (kv, l) (kv', l') ∧ ∀ pc, pc ∈ l' → pc = Gone) as Hgo.
  { intros i pc kv' pc' Hi E Hne. pose proof (ws_step kv l i pc kv' pc' Hi E) as Hs.
    destruct (IH (sum_list_with (λ pc, match pc with Arriving => 2 | Polling => 1 | Gone => 0 end)%nat (<[i := pc']> l))) with (kv := kv') (l := <[i := pc']> l)
      as (kv2 & l2 & Hr2 & Hx); [|done|by eapply wait_step_ok|exists kv2, l2; split; [by eapply rtc_l|done]].
    pose proof (sum_insert (λ pc, match pc with Arriving => 2 | Polling => 1 | Gone => 0 end)%nat l i pc pc' Hi) as Hsum. cbn beta in Hsum.
    destruct pc; try done; injection E as _ <-; [lia|]. destruct (_ <=? _); [lia|done]. }
  destruct (decide (Arriving ∈ l)) as [(i & Hi)%list_elem_of_lookup|HnA]; [by eapply Hgo|].
  destruct (decide (Polling ∈ l)) as [(i & Hi)%list_elem_of_lookup|HnP].
  - eapply (Hgo i Polling); [done|done|]. destruct Hok as [H1 _]. cbn in H1. rewrite H1.
    assert (sum_list_with arrived l = length l) as ->; [|by rewrite Z.leb_refl].
    clear -HnA. induction l as [|pc l IHl]; [done|]. rewrite sum_cons, IHl by (intros H; apply HnA; by right). destruct pc; [|done..]. destruct HnA. by left.
  - exists kv, l. split; [apply rtc_refl|]. intros [] Hpc; done.
Qed.
End done.
End RanksDone.
