(* ===== verification/LaunchStack.v ===== *)
(** * The upper half's initial stack
    ([deepCopyStack()] of [src/src/lower-half/copy-stack.c] and [patchAuxv()] of
    [src/src/lower-half/lower-half.cpp])

    The launcher starts the upper half's dynamic linker in its own process, on a
    new stack: it copies the strings of the arguments and of the environment,
    the auxiliary vector and new arrays of pointers to the address that the
    program's entry point expects.  Memory is a function from addresses to
    bytes.  The strings and the vector that the code copies are given as
    values: the code takes their addresses and lengths before it writes.  The
    sizes are [int]s, as in the code; the theorems are about stacks below 2 GB
    (the kernel allows an environment and arguments of a few MB). *)
From S2P Require Import Prelude.

Definition mem : Type := Z → Z.
Definition text : Type := list Z.

(** ** Memory *)

(** [memcpy] of bytes, and of 64-bit words, to [a]. *)
Definition store (m : mem) (a : Z) (bs : list Z) : mem := λ x,
  if (a <=? x) && (x <? a + Z.of_nat (length bs)) then nth (Z.to_nat (x - a)) bs 0 else m x.
Definition store64 (m : mem) (a v : Z) : mem := store m a (Z_to_little_endian 8 8 v).
Fixpoint store_words (m : mem) (a : Z) (ws : list Z) : mem :=
  match ws with [] => m | w :: ws => store_words (store64 m a w) (a + 8) ws end.
Definition load64 (m : mem) (a : Z) : Z := little_endian_to_Z 8 (m <$> seqZ a 8).

(** ** [deepCopyStack()] *)

Definition ROUND_UP (x : Z) : Z := Z.land (x + (4096 - 1)) (Z.lnot (4096 - 1)).
(** [sysconf(_SC_PAGESIZE)] on x86-64. *)
Definition page : Z := 4096.
(** [mmap] with [MAP_ANONYMOUS]: whole pages of zeros. *)
Definition map_zero (m : mem) (a len : Z) : mem := λ x, if (a <=? x) && (x <? a + ROUND_UP len) then 0 else m x.

(** [strstr]: whether [pat] occurs in [s]. *)
Fixpoint prefix_of_text (pat s : text) : bool :=
  match pat, s with
  | [], _ => true
  | c :: pat, d :: s => (c =? d) && prefix_of_text pat s
  | _, [] => false
  end.
Fixpoint strstr (s pat : text) : bool :=
  prefix_of_text pat s || match s with [] => false | _ :: s => strstr s pat end.
(** "UH_PRELOAD" and "LD". *)
Definition UH_PRELOAD : text := [85; 72; 95; 80; 82; 69; 76; 79; 65; 68].
Definition LD : text := [76; 68].

(** The [int] that the loops add up. *)
Definition strings_size (strs : list text) : Z := fold_left (λ n s, s32 (n + Z.of_nat (length s) + 1)) strs 0.

(** The copies of the strings from [cur] on, their addresses, and the end. *)
Fixpoint copy_env_strings (m : mem) (cur : Z) (strs : list text) : mem * list Z * Z :=
  match strs with
  | [] => (m, [], cur)
  | s :: rest =>
      let m1 := store (store m cur s) (cur + Z.of_nat (length s)) [0] in
      let m2 := if strstr s UH_PRELOAD then store m1 cur LD else m1 in
      let '(m', ptrs, end_) := copy_env_strings m2 (cur + Z.of_nat (length s) + 1) rest in
      (m', cur :: ptrs, end_)
  end.
Fixpoint copy_argv_strings (m : mem) (arg : Z) (strs : list text) : mem * list Z :=
  match strs with
  | [] => (m, [])
  | s :: rest =>
      let '(m', ptrs) := copy_argv_strings (store m arg (s ++ [0])) (arg + Z.of_nat (length s) + 1) rest in
      (m', arg :: ptrs)
  end.

(** The result: the memory, the new stack pointer, the address of the auxiliary
    vector, the end of the stack, and the range that was mapped for it. *)
Record new_stack := mk_stack {
  ns_mem : mem; ns_sp : Z; ns_auxv : Z; ns_bottom : Z; ns_map : Z; ns_map_len : Z
}.

(** [auxv] is the vector without its last entry [(AT_NULL, null_val)], [argc_word] the
    word below [argv], and [granted] tells which mappings the kernel makes; [None] is
    an exit or a failed assertion.  (A [dest_argc] beyond the array's NULL is left
    out: the code would read past the array.) *)
Definition deepCopyStack (granted : Z → Z → bool) (m : mem) (argc argc_word dest_argc : Z) (dest_argv environ : list text)
    (auxv : list (Z * Z)) (null_val dest_stack : Z) : option new_stack :=
  if negb (Z.land dest_stack (16 - 1) =? 0) then None else
  if negb (argc_word =? argc) then None else
  let env_strings_size := strings_size environ in
  let env_ptr_size := s32 ((Z.of_nat (length environ) + 1) * 8) in
  if negb (dest_argc =? Z.of_nat (length dest_argv)) then None else   (* dest_argv[dest_argc] == NULL *)
  let argv_strings_size := strings_size dest_argv in
  let argv_ptr_size := s32 ((dest_argc + 1) * 8) in
  let auxv_size := s32 ((Z.of_nat (length auxv) + 1) * 16) in
  if negb (Z.rem auxv_size 16 =? 0) then None else
  let argc_align_pad := Z.rem (16 - Z.rem (s32 (env_ptr_size + argv_ptr_size + 8)) 16) 16 in
  if negb (Z.rem (s32 (auxv_size + env_ptr_size)) 8 =? 0) then None else
  let dest_stack_size :=
    s32 (8 + env_strings_size + argv_strings_size + 32 + auxv_size + argc_align_pad + env_ptr_size + argv_ptr_size + 8) in
  let dest_stack_bottom := ROUND_UP (u64 (dest_stack + dest_stack_size)) in
  let dest_stack_low := dest_stack_bottom - ROUND_UP dest_stack_size in
  if negb (granted (dest_stack_low - page) (dest_stack_size + page)) then None else   (* MAP_FAILED *)
  let m0 := map_zero m (dest_stack_low - page) (dest_stack_size + page) in
  (* end marker *)
  let cur := dest_stack_bottom - 8 in
  let m1 := store64 m0 cur 0 in
  (* environment strings *)
  let cur := cur - env_strings_size in
  let '(m2, new_env_ptrs, end_) := copy_env_strings m1 cur environ in
  if negb (end_ =? dest_stack_bottom - 8) then None else
  (* argv strings *)
  let cur := cur - argv_strings_size in
  let '(m3, new_argv_ptrs) := copy_argv_strings m2 cur dest_argv in
  (* padding *)
  let cur := cur - 32 in
  let cur := Z.lor cur 15 - 15 in
  (* auxv *)
  let cur := cur - auxv_size - argc_align_pad in
  let dest_auxv_ptr := cur in
  let m4 := store_words m3 cur (concat ((λ '(t, v), [t; v]) <$> auxv ++ [(0, null_val)])) in
  (* environment pointers *)
  let cur := cur - env_ptr_size in
  let m5 := store_words m4 cur (new_env_ptrs ++ [0]) in
  if negb (load64 m5 (cur + 8 * Z.of_nat (length environ)) =? 0) then None else
  (* argv pointers *)
  let cur := cur - argv_ptr_size in
  let m6 := store_words m5 cur (new_argv_ptrs ++ [0]) in
  if negb (load64 m6 (cur + 8 * dest_argc) =? 0) then None else
  (* argc *)
  let cur := cur - 8 in
  let m7 := store64 m6 cur dest_argc in
  if negb (Z.rem cur 16 =? 0) then None else
  Some (mk_stack m7 cur dest_auxv_ptr dest_stack_bottom (dest_stack_low - page) (dest_stack_size + page)).

(** ** [patchAuxv()] *)

Definition AT_NULL : Z := 0.
Definition AT_PHDR : Z := 3.
Definition AT_PHNUM : Z := 5.
Definition AT_ENTRY : Z := 9.

Definition patch_entry (phnum phdr entry : Z) (e : Z * Z) : Z * Z :=
  let '(t, v) := e in
  if t =? AT_PHNUM then (t, phnum) else if t =? AT_PHDR then (t, phdr) else if t =? AT_ENTRY then (t, entry) else (t, v).
(** [None] is a loop that does not end within [fuel] entries. *)
Fixpoint patchAuxv (fuel : nat) (m : mem) (av phnum phdr entry : Z) : option mem :=
  match fuel with
  | O => None
  | S fuel' =>
      let t := load64 m av in
      if t =? AT_NULL then Some m else
      let m' :=
        if t =? AT_PHNUM then store64 m (av + 8) phnum
        else if t =? AT_PHDR then store64 m (av + 8) phdr
        else if t =? AT_ENTRY then store64 m (av + 8) entry else m in
      patchAuxv fuel' m' (av + 16) phnum phdr entry
  end.

(** ** Lemmas on memory *)

Lemma store_out m a bs x : x < a ∨ a + Z.of_nat (length bs) ≤ x → store m a bs x = m x.
Proof. intros Hx. unfold store. destruct (Z.leb_spec a x), (Z.ltb_spec x (a + Z.of_nat (length bs))); cbn; done || lia. Qed.
Lemma store_in m a bs i b : bs !! i = Some b → store m a bs (a + Z.of_nat i) = b.
Proof.
  intros Hb. pose proof (lookup_lt_Some _ _ _ Hb) as Hi. unfold store.
  rewrite (proj2 (Z.leb_le _ _)), (proj2 (Z.ltb_lt _ _)) by lia. cbn. replace (Z.to_nat (a + Z.of_nat i - a)) with i by lia.
  by apply nth_lookup_Some.
Qed.
Lemma word_length v : length (Z_to_little_endian 8 8 v) = 8%nat.
Proof. reflexivity. Qed.
Lemma load64_ext m m' a : (∀ x, a ≤ x < a + 8 → m x = m' x) → load64 m a = load64 m' a.
Proof. intros Hx. unfold load64. f_equal. apply list_fmap_ext. intros i x Hi. apply lookup_seqZ in Hi as [-> Hi]. apply Hx. lia. Qed.
Lemma load64_out m a bs b : b + 8 ≤ a ∨ a + Z.of_nat (length bs) ≤ b → load64 (store m a bs) b = load64 m b.
Proof. intros Hb. apply load64_ext. intros x Hx. apply store_out. lia. Qed.
Lemma load64_same m a v : 0 ≤ v < 2 ^ 64 → load64 (store64 m a v) a = v.
Proof.
  intros Hv. unfold load64. assert (store64 m a v <$> seqZ a 8 = Z_to_little_endian 8 8 v) as ->.
  { apply list_eq. intros i. destruct (decide (i < 8)%nat) as [Hi|Hi].
    - rewrite list_lookup_fmap, lookup_seqZ_lt by lia. cbn [fmap option_fmap option_map].
      destruct (lookup_lt_is_Some_2 (Z_to_little_endian 8 8 v) i) as [b Hb]; [by rewrite word_length|].
      rewrite Hb. f_equal. by apply store_in.
    - rewrite !lookup_ge_None_2; [done|rewrite word_length; lia|rewrite length_fmap, length_seqZ; lia]. }
  rewrite little_endian_to_Z_to_little_endian by lia. apply Z.mod_small. exact Hv.
Qed.
Lemma store64_out m a v x : x < a ∨ a + 8 ≤ x → store64 m a v x = m x.
Proof. intros Hx. apply store_out. rewrite word_length. lia. Qed.
Lemma load64_store64_out m a v b : b + 8 ≤ a ∨ a + 8 ≤ b → load64 (store64 m a v) b = load64 m b.
Proof. intros Hb. apply load64_out. rewrite word_length. lia. Qed.

Lemma store_words_out ws : ∀ m a x, x < a ∨ a + 8 * Z.of_nat (length ws) ≤ x → store_words m a ws x = m x.
Proof. induction ws as [|w ws IH]; intros m a x Hx; cbn in *; [done|]. rewrite IH by lia. apply store64_out. lia. Qed.
Lemma store_words_in ws : ∀ m a i w, ws !! i = Some w → 0 ≤ w < 2 ^ 64 → load64 (store_words m a ws) (a + 8 * Z.of_nat i) = w.
Proof.
  induction ws as [|v ws IH]; intros m a i w Hi Hw; [done|]. destruct i as [|i]; cbn in Hi |- *.
  - injection Hi as ->. replace (a + 8 * Z.of_nat 0) with a by lia. rewrite <- (load64_same m a w Hw) at 2. apply load64_ext.
    intros x Hx. apply store_words_out. lia.
  - replace (a + 8 * Z.of_nat (S i)) with (a + 8 + 8 * Z.of_nat i) by lia. by apply IH.
Qed.

(** ** Copies of strings *)

(** The C string [s] is at [p]. *)
Definition cstring (m : mem) (p : Z) (s : text) : Prop := ∀ i b, (s ++ [0]) !! i = Some b → m (p + Z.of_nat i) = b.
(** The environment string that the upper half gets: the code writes over the
    first two characters. *)
Definition env_copy (s : text) : text := if strstr s UH_PRELOAD then LD ++ drop 2 s else s.

Lemma cstring_ext m m' p s : (∀ x, p ≤ x < p + Z.of_nat (length s) + 1 → m' x = m x) → cstring m p s → cstring m' p s.
Proof.
  intros Hx Hs i b Hi. rewrite Hx; [by apply Hs|]. apply lookup_lt_Some in Hi. rewrite length_app in Hi. cbn in Hi. lia.
Qed.
Lemma cstring_store m a s : cstring (store m a (s ++ [0])) a s.
Proof. intros i b Hi. by apply store_in. Qed.

Lemma strstr_length s pat : strstr s pat = true → (length pat ≤ length s)%nat.
Proof.
  assert (∀ pat s, prefix_of_text pat s = true → (length pat ≤ length s)%nat) as Hp.
  { clear. intros pat. induction pat as [|c pat0 IH]; intros [|d s0]; cbn; intros H; try done; try lia. apply andb_true_iff in H as [_ H]. apply IH in H. lia. }
  induction s as [|c s IH]; cbn; intros [H|H]%orb_true_iff; try done; apply Hp in H || apply IH in H; cbn in *; lia.
Qed.
Lemma env_copy_length s : length (env_copy s) = length s.
Proof. unfold env_copy. destruct (strstr s UH_PRELOAD) eqn:E; [|done]. apply strstr_length in E. cbn in *. rewrite length_drop. lia. Qed.

(** The bytes of the strings. *)
Definition strings_bytes (strs : list text) : Z := foldr (λ s n, Z.of_nat (length s) + 1 + n) 0 strs.
Lemma strings_bytes_nonneg strs : 0 ≤ strings_bytes strs.
Proof. induction strs as [|s strs IH]; unfold strings_bytes in *; cbn in *; lia. Qed.
Lemma strings_size_bytes strs : strings_bytes strs < 2 ^ 31 → strings_size strs = strings_bytes strs.
Proof.
  intros Hb. unfold strings_size. assert (∀ n, 0 ≤ n → n + strings_bytes strs < 2 ^ 31 →
    fold_left (λ n s, s32 (n + Z.of_nat (length s) + 1)) strs n = n + strings_bytes strs) as H; [|by rewrite H by lia].
  clear Hb. induction strs as [|s strs IH]; intros n Hn Hb; [cbn; lia|]. pose proof (strings_bytes_nonneg strs) as H0.
  cbn [fold_left]. unfold strings_bytes in *. cbn [foldr] in *. rewrite s32_small by lia. rewrite IH by lia. lia.
Qed.

(** One string of the environment. *)
Lemma env_string_stored m cur s :
  let m1 := store (store m cur s) (cur + Z.of_nat (length s)) [0] in
  let m2 := if strstr s UH_PRELOAD then store m1 cur LD else m1 in
  cstring m2 cur (env_copy s) ∧ ∀ x, x < cur ∨ cur + Z.of_nat (length s) + 1 ≤ x → m2 x = m x.
Proof.
  cbv zeta. set (m1 := store _ _ [0]).
  assert (cstring m1 cur s) as H1.
  { intros i b Hi. unfold m1. apply lookup_app_Some in Hi as [Hi|[Hl Hi]].
    - rewrite store_out by (apply lookup_lt_Some in Hi; lia). by apply store_in.
    - apply list_lookup_singleton_Some in Hi as [Hi <-]. assert (i = length s) as -> by lia.
      replace (cur + Z.of_nat (length s)) with (cur + Z.of_nat (length s) + Z.of_nat 0) at 2 by lia. by apply store_in. }
  assert (∀ x, x < cur ∨ cur + Z.of_nat (length s) + 1 ≤ x → m1 x = m x) as H2.
  { intros x Hx. unfold m1. rewrite !store_out; [done|lia|cbn; lia]. }
  unfold env_copy. destruct (strstr s UH_PRELOAD) eqn:E; [|done]. apply strstr_length in E. cbn [length UH_PRELOAD] in E. split.
  - intros i b Hi. rewrite <- app_assoc in Hi. apply lookup_app_Some in Hi as [Hi|[Hl Hi]]; [by apply store_in|]. cbn [length LD] in Hl, Hi.
    rewrite store_out by (cbn; lia). apply H1. rewrite <- Hi. rewrite <- drop_app_le by lia. rewrite lookup_drop. f_equal. cbn in Hl. lia.
  - intros x Hx. rewrite store_out by (cbn; lia). by apply H2.
Qed.

Definition copied (m' : mem) (lo hi : Z) (ptrs : list Z) (strs : list text) : Prop :=
  length ptrs = length strs ∧
  ∀ i s, strs !! i = Some s → ∃ p, ptrs !! i = Some p ∧ lo ≤ p ∧ p + Z.of_nat (length s) + 1 ≤ hi ∧ cstring m' p s.

Lemma copied_ext m m' lo hi ptrs strs : (∀ x, lo ≤ x < hi → m' x = m x) → copied m lo hi ptrs strs → copied m' lo hi ptrs strs.
Proof.
  intros Hx [Hl Hs]. split; [done|]. intros i s Hi. destruct (Hs i s Hi) as (p & Hp & H1 & H2 & H3). exists p. split_and!; try done.
  apply (cstring_ext m); [|done]. intros x Hx'. apply Hx. lia.
Qed.

Lemma copy_env_strings_ok strs : ∀ m cur m' ptrs end_,
  copy_env_strings m cur strs = (m', ptrs, end_) →
  end_ = cur + strings_bytes strs ∧ copied m' cur (cur + strings_bytes strs) ptrs (env_copy <$> strs) ∧ ∀ x, x < cur ∨ cur + strings_bytes strs ≤ x → m' x = m x.
Proof.
  induction strs as [|s strs IH]; intros m cur m' ptrs end_ E; cbn [copy_env_strings strings_bytes foldr fmap list_fmap] in *.
  - injection E as <- <- <-. split; [lia|]. split; [|done]. by split.
  - destruct (env_string_stored m cur s) as [H1 H2]. cbv zeta in H1, H2.
    destruct (copy_env_strings _ _ strs) as [[m1 ptrs1] e1] eqn:E1. injection E as <- <- <-. apply IH in E1 as (-> & [Hl Hs] & Ho).
    pose proof (strings_bytes_nonneg strs) as Hn. fold (strings_bytes strs). split; [lia|]. split; [split|].
    + cbn. by rewrite Hl.
    + intros [|i] t Hi; cbn in Hi.
      * injection Hi as <-. exists cur. rewrite env_copy_length. split_and!; [done|lia|lia|]. eapply cstring_ext; [|exact H1]. intros x Hx. rewrite env_copy_length in Hx. apply Ho. lia.
      * destruct (Hs i t Hi) as (p & Hp & H3 & H4 & H5). exists p. split_and!; try done; lia.
    + intros x Hx. rewrite Ho by lia. apply H2. lia.
Qed.

Lemma copy_argv_strings_ok strs : ∀ m cur m' ptrs,
  copy_argv_strings m cur strs = (m', ptrs) →
  copied m' cur (cur + strings_bytes strs) ptrs strs ∧ ∀ x, x < cur ∨ cur + strings_bytes strs ≤ x → m' x = m x.
Proof.
  induction strs as [|s strs IH]; intros m cur m' ptrs E; cbn [copy_argv_strings strings_bytes foldr] in *.
  - injection E as <- <-. split; [|done]. by split.
  - destruct (copy_argv_strings _ _ strs) as [m1 ptrs1] eqn:E1. injection E as <- <-. apply IH in E1 as [[Hl Hs] Ho].
    pose proof (strings_bytes_nonneg strs) as Hn. fold (strings_bytes strs). split; [split|].
    + cbn. by rewrite Hl.
    + intros [|i] t Hi; cbn in Hi.
      * injection Hi as <-. exists cur. split_and!; [done|lia|lia|]. apply (cstring_ext (store m cur (s ++ [0]))); [intros x Hx; apply Ho; lia|apply cstring_store].
      * destruct (Hs i t Hi) as (p & Hp & H3 & H4 & H5). exists p. split_and!; try done; lia.
    + intros x Hx. rewrite Ho by lia. apply store_out. rewrite length_app. cbn. lia.
Qed.

(** ** Addresses *)

Lemma round_up_page x : ∃ k, ROUND_UP x = 4096 * k ∧ x ≤ ROUND_UP x < x + 4096.
Proof.
  exists ((x + 4095) / 4096). unfold ROUND_UP. change (4096 - 1) with (2 ^ 12 - 1). rewrite land_lnot_ones by lia.
  change (2 ^ 12) with 4096. Z.div_mod_to_equations. lia.
Qed.
Lemma ROUND_UP_add x k : ROUND_UP (x + 4096 * k) = ROUND_UP x + 4096 * k.
Proof.
  unfold ROUND_UP. change (4096 - 1) with (2 ^ 12 - 1). rewrite !land_lnot_ones by lia. change (2 ^ 12) with 4096.
  replace (x + 4096 * k + (4096 - 1)) with (x + (4096 - 1) + k * 4096) by lia. rewrite Z.div_add by lia. lia.
Qed.
Lemma round_down_16 c : Z.lor c 15 - 15 = c / 16 * 16.
Proof.
  assert (Z.lor c 15 = c / 16 * 16 + 15) as ->; [|lia]. apply Z.bits_inj'. intros n Hn. rewrite Z.lor_spec.
  change 16 with (2 ^ 4). rewrite <- (lor_shiftl_add (c / 2 ^ 4) 15 4) by lia. rewrite Z.lor_spec, Z.shiftl_spec by lia.
  destruct (Z.ltb_spec n 4) as [Hlt|Hge].
  - assert (Z.testbit 15 n = true) as ->; [|by rewrite !orb_true_r].
    assert (n = 0 ∨ n = 1 ∨ n = 2 ∨ n = 3) as [->|[->|[->| ->]]] by lia; done.
  - rewrite <- Z.shiftr_div_pow2, Z.shiftr_spec by lia. by replace (n - 4 + 4) with n by lia.
Qed.

(** ** What the program reads *)

(** The stack that the entry point of a program expects at its stack pointer. *)
Definition stack_holds (m : mem) (sp : Z) (argv env : list text) (auxv : list (Z * Z)) : Prop :=
  let argv_ptr := sp + 8 in
  let env_ptr := argv_ptr + 8 * (Z.of_nat (length argv) + 1) in
  let auxv_ptr := env_ptr + 8 * (Z.of_nat (length env) + 1) in
  load64 m sp = Z.of_nat (length argv) ∧
  (∀ i s, argv !! i = Some s → cstring m (load64 m (argv_ptr + 8 * Z.of_nat i)) s) ∧
  load64 m (argv_ptr + 8 * Z.of_nat (length argv)) = 0 ∧
  (∀ i s, env !! i = Some s → cstring m (load64 m (env_ptr + 8 * Z.of_nat i)) s) ∧
  load64 m (env_ptr + 8 * Z.of_nat (length env)) = 0 ∧
  ∀ i t v, auxv !! i = Some (t, v) →
    load64 m (auxv_ptr + 16 * Z.of_nat i) = t ∧ load64 m (auxv_ptr + 16 * Z.of_nat i + 8) = v.
Definition word (v : Z) : Prop := 0 ≤ v < 2 ^ 64.

Lemma pairs_lookup (l : list (Z * Z)) i t v :
  l !! i = Some (t, v) →
  concat ((λ '(t, v), [t; v]) <$> l) !! (2 * i)%nat = Some t ∧ concat ((λ '(t, v), [t; v]) <$> l) !! (2 * i + 1)%nat = Some v.
Proof.
  revert i. induction l as [|[t' v'] l IH]; intros [|i] Hi; try done; cbn in Hi.
  - by injection Hi as -> ->.
  - replace (2 * S i)%nat with (S (S (2 * i))) by lia. cbn. by apply IH.
Qed.
Lemma pairs_length (l : list (Z * Z)) : length (concat ((λ '(t, v), [t; v]) <$> l)) = (2 * length l)%nat.
Proof. induction l as [|[] l IH]; cbn; [done|]. rewrite IH. lia. Qed.

(** The arrays below the strings: [sp] is the stack pointer, [Pa] and [Pe] are the
    arrays of pointers, [X] is the auxiliary vector, and the strings are above
    [S]. *)
Section arrays.
Context (m3 : mem) (argv env : list text) (aptrs eptrs : list Z) (auxv : list (Z * Z)) (sp S A0 E0 B : Z).
Let Pa : Z := sp + 8.
Let Pe : Z := Pa + 8 * (Z.of_nat (length argv) + 1).
Let X : Z := Pe + 8 * (Z.of_nat (length env) + 1).
Let m4 : mem := store_words m3 X (concat ((λ '(t, v), [t; v]) <$> auxv)).
Let m5 : mem := store_words m4 Pe (eptrs ++ [0]).
Let m6 : mem := store_words m5 Pa (aptrs ++ [0]).
Let m7 : mem := store64 m6 sp (Z.of_nat (length argv)).

Lemma arrays_hold :
  X + 16 * Z.of_nat (length auxv) ≤ S → S ≤ A0 → A0 ≤ E0 → E0 ≤ B → 0 ≤ sp → B < 2 ^ 64 →
  copied m3 A0 E0 aptrs argv → copied m3 E0 B eptrs env → Forall (λ e, word e.1 ∧ word e.2) auxv →
  stack_holds m7 sp argv env auxv ∧ ∀ x, x < sp ∨ S ≤ x → m7 x = m3 x.
Proof using Type.
  intros HX HS HA HE Hsp HB [Hla Ha] [Hle He] Hw.
  assert (∀ x, sp + 8 ≤ x → m7 x = m6 x) as F7 by (intros x Hx; apply store64_out; lia).
  assert (∀ x, Pe ≤ x → m6 x = m5 x) as F6 by (intros x Hx; apply store_words_out; rewrite length_app, Hla; cbn; unfold Pe in *; lia).
  assert (∀ x, X ≤ x → m5 x = m4 x) as F5 by (intros x Hx; apply store_words_out; rewrite length_app, Hle; cbn; unfold X in *; lia).
  assert (∀ x, X + 16 * Z.of_nat (length auxv) ≤ x → m4 x = m3 x) as F4 by (intros x Hx; apply store_words_out; rewrite pairs_length; lia).
  assert (Pa ≤ Pe ∧ Pe ≤ X) as [Hp1 Hp2] by (unfold X, Pe; lia).
  assert (∀ x, S ≤ x → m7 x = m3 x) as FS by (intros x Hx; rewrite F7, F6, F5, F4 by (unfold Pa in *; lia); done).
  assert (∀ i p, aptrs !! i = Some p → word p → load64 m7 (Pa + 8 * Z.of_nat i) = p) as La.
  { intros i p Hi Hp. rewrite (load64_ext m7 m6) by (intros x Hx; apply F7; unfold Pa in *; lia). apply store_words_in; [|done]. by apply lookup_app_l_Some. }
  assert (∀ i p, (eptrs ++ [0]) !! i = Some p → word p → load64 m7 (Pe + 8 * Z.of_nat i) = p) as Le.
  { intros i p Hi Hp. rewrite (load64_ext m7 m5); [by apply store_words_in|]. intros x Hx. rewrite F7, F6 by (unfold Pa, Pe in *; lia). done. }
  split; [|intros x [Hx|Hx]; [|by apply FS]].
  - unfold stack_holds. fold Pa Pe X. split_and!.
    + apply load64_same. unfold word in *. unfold X, Pe, Pa in *. lia.
    + intros i s Hi. destruct (Ha i s Hi) as (p & Hp & H1 & H2 & H3). rewrite (La i p Hp) by (unfold word, X, Pe, Pa in *; lia).
      apply (cstring_ext m3); [|done]. intros x Hx. apply FS. lia.
    + rewrite (load64_ext m7 m6) by (intros x Hx; apply F7; unfold Pa in *; lia). apply store_words_in; [|done].
      rewrite <- Hla. by apply list_lookup_middle.
    + intros i s Hi. destruct (He i s Hi) as (p & Hp & H1 & H2 & H3). rewrite (Le i p) by (by apply lookup_app_l_Some || (unfold word, X, Pe, Pa in *; lia)).
      apply (cstring_ext m3); [|done]. intros x Hx. apply FS. lia.
    + apply Le; [|done]. rewrite <- Hle. by apply list_lookup_middle.
    + intros i t v Hi. destruct (pairs_lookup _ _ _ _ Hi) as [H1 H2]. rewrite Forall_forall in Hw.
      destruct (Hw (t, v)) as [Hw1 Hw2]; [by eapply list_elem_of_lookup_2|].
      assert (∀ a, X ≤ a → load64 m7 a = load64 m4 a) as E by (intros a Hx; apply load64_ext; intros x Hx'; rewrite F7, F6, F5 by (unfold Pa in *; lia); done).
      rewrite !E by lia. split.
      * replace (X + 16 * Z.of_nat i) with (X + 8 * Z.of_nat (2 * i)) by lia. by apply store_words_in.
      * replace (X + 16 * Z.of_nat i + 8) with (X + 8 * Z.of_nat (2 * i + 1)) by lia. by apply store_words_in.
  - unfold m7, m6, m5, m4. rewrite store64_out, !store_words_out by (unfold X, Pe, Pa in *; lia). done.
Qed.
End arrays.

(** ** The copy *)

Lemma align_pad n : 0 ≤ n → let pad := Z.rem (16 - Z.rem (8 * n) 16) 16 in 0 ≤ pad < 16 ∧ (pad + 8 * n) mod 16 = 0.
Proof.
  intros Hn. cbv zeta. rewrite (Z.rem_mod_nonneg (8 * n)) by lia.
  pose proof (Z.mod_pos_bound (8 * n) 16 ltac:(lia)). rewrite Z.rem_mod_nonneg by lia. split; Z.div_mod_to_equations; lia.
Qed.

Lemma null_after_pointers m a ptrs n : length ptrs = n → load64 (store_words m a (ptrs ++ [0])) (a + 8 * Z.of_nat n) = 0.
Proof. intros <-. apply store_words_in; [by apply list_lookup_middle|lia]. Qed.

(** The bytes of the new stack, with the pages that rounding adds. *)
Definition stack_bytes (argv env : list text) (auxv : list (Z * Z)) : Z :=
  strings_bytes env + strings_bytes argv + 8 * Z.of_nat (length env + length argv) + 16 * Z.of_nat (length auxv) + 8192.

(** The new stack, and where it is. *)
Lemma deepCopyStack_builds granted m argc argv env auxv null_val dest_stack :
  Z.land dest_stack 15 = 0 → 8192 ≤ dest_stack →
  stack_bytes argv env auxv < 2 ^ 31 → dest_stack + stack_bytes argv env auxv ≤ 2 ^ 64 → (∀ a n, granted a n = true) →
  Forall (λ e, word e.1 ∧ word e.2) auxv → word null_val →
  ∃ r, deepCopyStack granted m argc argc (Z.of_nat (length argv)) argv env auxv null_val dest_stack = Some r ∧
    ns_sp r mod 16 = 0 ∧
    stack_holds (ns_mem r) (ns_sp r) argv (env_copy <$> env) (auxv ++ [(AT_NULL, null_val)]) ∧
    ns_auxv r = ns_sp r + 8 * (Z.of_nat (length argv + length env) + 3) ∧
    ns_map r ≤ ns_sp r ∧ ns_bottom r = ns_map r + ROUND_UP (ns_map_len r) ∧
    (∀ x, x < ns_map r ∨ ns_bottom r ≤ x → ns_mem r x = m x) ∧
    dest_stack - 8192 < ns_map r ∧ dest_stack < ns_bottom r ∧ ROUND_UP (ns_bottom r) = ns_bottom r.
Proof.
  intros Hal Hlo Hint Hhi Hg Hw Hnv. unfold stack_bytes in Hint, Hhi. unfold deepCopyStack. change (16 - 1) with 15. rewrite Hal. cbn [negb Z.eqb].
  pose proof (strings_bytes_nonneg env) as HE. pose proof (strings_bytes_nonneg argv) as HA.
  rewrite !strings_size_bytes by lia. rewrite !Z.eqb_refl. cbn [negb].
  rewrite (s32_small ((Z.of_nat (length env) + 1) * 8)), (s32_small ((Z.of_nat (length argv) + 1) * 8)), (s32_small ((Z.of_nat (length auxv) + 1) * 16)) by lia.
  rewrite (s32_small ((Z.of_nat (length env) + 1) * 8 + (Z.of_nat (length argv) + 1) * 8 + 8)), (s32_small ((Z.of_nat (length auxv) + 1) * 16 + (Z.of_nat (length env) + 1) * 8)) by lia.
  rewrite Z.rem_mul, Z.eqb_refl by lia. cbn [negb].
  replace ((Z.of_nat (length auxv) + 1) * 16 + (Z.of_nat (length env) + 1) * 8) with ((2 * (Z.of_nat (length auxv) + 1) + Z.of_nat (length env) + 1) * 8) by lia.
  rewrite Z.rem_mul, Z.eqb_refl by lia. cbn [negb].
  replace ((Z.of_nat (length env) + 1) * 8 + (Z.of_nat (length argv) + 1) * 8 + 8) with (8 * (Z.of_nat (length env + length argv) + 3)) by lia.
  destruct (align_pad (Z.of_nat (length env + length argv) + 3) ltac:(lia)) as [Hpad Hmod]. set (pad := Z.rem (16 - _) 16) in *.
  rewrite (s32_small (8 + _ + _ + 32 + _ + pad + _ + _ + 8)) by lia.
  set (size := 8 + strings_bytes env + _ + 32 + _ + pad + _ + _ + 8). rewrite (u64_small (dest_stack + size)) by (unfold size; lia). set (bottom := ROUND_UP (dest_stack + size)). rewrite Hg. cbn [negb].
  destruct (round_up_page (dest_stack + size)) as (k1 & Ek1 & Hb). destruct (round_up_page size) as (k2 & Ek2 & Hs). fold bottom in Ek1, Hb.
  set (m0 := map_zero _ _ _). destruct (copy_env_strings _ _ env) as [[m2 eptrs] end_] eqn:Ee. apply copy_env_strings_ok in Ee as (-> & Hce & Hoe).
  rewrite (proj2 (Z.eqb_eq (bottom - 8 - strings_bytes env + strings_bytes env) (bottom - 8))) by lia. cbn [negb].
  destruct (copy_argv_strings _ _ argv) as [m3 aptrs] eqn:Ea. apply copy_argv_strings_ok in Ea as [Hca Hoa].
  set (E0 := bottom - 8 - strings_bytes env) in *. set (A0 := E0 - strings_bytes argv) in *. rewrite round_down_16.
  set (S := (A0 - 32) / 16 * 16). assert (S ≤ A0 - 32 < S + 16) as HS by (unfold S; Z.div_mod_to_equations; lia).
  set (sp := S - _ - pad - _ - _ - 8).
  assert (sp mod 16 = 0) as Hsp.
  { unfold sp, S. replace ((A0 - 32) / 16 * 16 - (Z.of_nat (length auxv) + 1) * 16 - pad - (Z.of_nat (length env) + 1) * 8 - (Z.of_nat (length argv) + 1) * 8 - 8)
      with (((A0 - 32) / 16 - Z.of_nat (length auxv) - 1) * 16 - (pad + 8 * (Z.of_nat (length env + length argv) + 3))) by lia.
    Z.div_mod_to_equations. lia. }
  assert (bottom - size - 15 ≤ sp) as Hge by (unfold sp, size, E0, A0 in *; lia).
  rewrite (null_after_pointers _ _ eptrs) by (destruct Hce as [-> _]; by rewrite length_fmap).
  rewrite (null_after_pointers _ _ aptrs) by apply Hca. rewrite Z.eqb_refl. cbn [negb].
  assert (0 ≤ sp) as Hsp0 by lia. rewrite Z.rem_mod_nonneg, Hsp by lia. cbn [negb Z.eqb].
  eexists. split; [done|]. cbn [ns_sp ns_mem ns_auxv ns_map ns_bottom ns_map_len]. split; [done|].
  assert (S - (Z.of_nat (length auxv) + 1) * 16 - pad = sp + 8 + 8 * (Z.of_nat (length argv) + 1) + 8 * (Z.of_nat (length env) + 1)) as EX by (unfold sp; lia).
  assert (S - (Z.of_nat (length auxv) + 1) * 16 - pad - (Z.of_nat (length env) + 1) * 8 = sp + 8 + 8 * (Z.of_nat (length argv) + 1)) as EP by (unfold sp; lia).
  assert (S - (Z.of_nat (length auxv) + 1) * 16 - pad - (Z.of_nat (length env) + 1) * 8 - (Z.of_nat (length argv) + 1) * 8 = sp + 8) as EQ by (unfold sp; lia).
  rewrite EQ, EP, EX.
  destruct (arrays_hold m3 argv (env_copy <$> env) aptrs eptrs (auxv ++ [(AT_NULL, null_val)]) sp S A0 E0 (bottom - 8)) as [Hh Ho].
  - rewrite length_fmap, length_app. cbn [length]. lia.
  - lia.
  - unfold A0. lia.
  - unfold E0. lia.
  - done.
  - unfold size in *. lia.
  - replace (A0 + strings_bytes argv) with E0 in Hca by (unfold A0; lia). done.
  - replace (E0 + strings_bytes env) with (bottom - 8) in Hce by (unfold E0; lia).
    apply (copied_ext m2); [|done]. intros x Hx. apply Hoa. unfold A0 in *. lia.
  - apply Forall_app. split; [done|]. apply Forall_singleton. cbn. split; [unfold word, AT_NULL; lia|done].
  - rewrite length_fmap in Hh, Ho. split; [exact Hh|]. split; [rewrite Nat2Z.inj_add; lia|].
    assert (bottom = bottom - ROUND_UP size - page + ROUND_UP (size + page)) as Ebot.
    { unfold page. replace (size + 4096) with (size + 4096 * 1) by lia. rewrite ROUND_UP_add. lia. }
    split; [unfold page; lia|]. split; [exact Ebot|]. split.
    2:{ split_and!; [unfold page; lia|unfold size; lia|]. replace bottom with (0 + 4096 * k1) by lia. by rewrite ROUND_UP_add. }
    intros x Hx. rewrite Ho by (unfold page, A0, E0 in *; lia).
    rewrite Hoa, Hoe by (unfold page, A0, E0 in *; lia). rewrite store64_out by (unfold page, A0, E0 in *; lia).
    unfold m0, map_zero. rewrite <- Ebot. destruct (Z.leb_spec (bottom - ROUND_UP size - page) x), (Z.ltb_spec x bottom); cbn; done || lia.
Qed.

(** C15. [deepCopyStack()] passes all its assertions and returns, for every argument
    list, environment and auxiliary vector of less than 2 GB in all (so that the
    code's [int]s hold the sizes), when the kernel makes the mapping; and the program that starts on the new stack finds what it expects:
    its stack pointer is a multiple of 16; from it on are the number of
    arguments, pointers to copies of the arguments, NULL, pointers to copies of
    the environment's strings ([env_copy]: one that contains [UH_PRELOAD] has [LD]
    for its first two characters), NULL, and the same auxiliary vector.  All of it
    is in the range that was mapped, and no memory outside that range changes. *)
Theorem new_stack_read_back granted m argc argv env auxv null_val dest_stack :
  Z.land dest_stack 15 = 0 → 8192 ≤ dest_stack →
  stack_bytes argv env auxv < 2 ^ 31 → dest_stack + stack_bytes argv env auxv ≤ 2 ^ 64 → (∀ a n, granted a n = true) →
  Forall (λ e, word e.1 ∧ word e.2) auxv → word null_val →
  ∃ r, deepCopyStack granted m argc argc (Z.of_nat (length argv)) argv env auxv null_val dest_stack = Some r ∧
    ns_sp r mod 16 = 0 ∧
    stack_holds (ns_mem r) (ns_sp r) argv (env_copy <$> env) (auxv ++ [(AT_NULL, null_val)]) ∧
    ns_auxv r = ns_sp r + 8 * (Z.of_nat (length argv + length env) + 3) ∧
    ns_map r ≤ ns_sp r ∧ ns_bottom r = ns_map r + ROUND_UP (ns_map_len r) ∧
    ∀ x, x < ns_map r ∨ ns_bottom r ≤ x → ns_mem r x = m x.
Proof.
  intros Hal Hlo Hint Hhi Hg Hw Hnv. destruct (deepCopyStack_builds granted m argc argv env auxv null_val dest_stack Hal Hlo Hint Hhi Hg Hw Hnv) as (r & E & H1 & H2 & H3 & H4 & H5 & H6 & _).
  exists r. split_and!; done.
Qed.

(** ** The auxiliary vector *)

Definition auxv_at (m : mem) (av : Z) (auxv : list (Z * Z)) : Prop :=
  ∀ i t v, auxv !! i = Some (t, v) → load64 m (av + 16 * Z.of_nat i) = t ∧ load64 m (av + 16 * Z.of_nat i + 8) = v.

Lemma auxv_at_cons m av t v auxv :
  auxv_at m av ((t, v) :: auxv) ↔ (load64 m av = t ∧ load64 m (av + 8) = v) ∧ auxv_at m (av + 16) auxv.
Proof.
  split.
  - intros H. split; [specialize (H 0%nat t v eq_refl); by replace (av + 16 * Z.of_nat 0) with av in H by lia|].
    intros i t' v' Hi. specialize (H (S i) t' v' Hi). by replace (av + 16 * Z.of_nat (S i)) with (av + 16 + 16 * Z.of_nat i) in H by lia.
  - intros [H1 H2] [|i] t' v' Hi; cbn in Hi.
    + injection Hi as <- <-. by replace (av + 16 * Z.of_nat 0) with av by lia.
    + replace (av + 16 * Z.of_nat (S i)) with (av + 16 + 16 * Z.of_nat i) by lia. by apply H2.
Qed.
Lemma auxv_at_ext m m' av auxv : (∀ x, av ≤ x → m' x = m x) → auxv_at m av auxv → auxv_at m' av auxv.
Proof. intros Hx Ha i t v Hi. rewrite !(load64_ext m' m) by (intros x Hx'; apply Hx; lia). by apply Ha. Qed.

(** [patchAuxv()] ends at [AT_NULL], sets exactly the entries of the program headers
    and of the entry point, and changes nothing outside the vector. *)
Theorem patchAuxv_patches phnum phdr entry null_val auxv : ∀ fuel m av,
  word phnum → word phdr → word entry → Forall (λ e, e.1 ≠ AT_NULL) auxv → (length auxv < fuel)%nat →
  auxv_at m av (auxv ++ [(AT_NULL, null_val)]) →
  ∃ m', patchAuxv fuel m av phnum phdr entry = Some m' ∧
    auxv_at m' av ((patch_entry phnum phdr entry <$> auxv) ++ [(AT_NULL, null_val)]) ∧
    ∀ x, x < av ∨ av + 16 * Z.of_nat (length auxv) ≤ x → m' x = m x.
Proof.
  induction auxv as [|[t v] auxv IH]; intros [|fuel] m av H1 H2 H3 Hn Hf Ha; try (cbn in Hf; lia); cbn [app fmap list_fmap] in *.
  - exists m. apply auxv_at_cons in Ha as Ha'. destruct Ha' as [[Et _] _]. cbn [patchAuxv]. by rewrite Et, Z.eqb_refl.
  - apply auxv_at_cons in Ha as [[Et Ev] Ha]. apply Forall_cons in Hn as [Hn Hn']. cbn [patchAuxv fst] in *. rewrite Et, (proj2 (Z.eqb_neq _ _) Hn).
    set (m1 := if t =? AT_PHNUM then _ else _).
    assert ((load64 m1 av = t ∧ load64 m1 (av + 8) = (patch_entry phnum phdr entry (t, v)).2) ∧ ∀ x, x < av ∨ av + 16 ≤ x → m1 x = m x) as [Hm1 Ho1].
    { unfold m1, patch_entry. repeat case_match; cbn [snd]; rewrite ?load64_same, ?load64_store64_out by (done || lia); split; try done; intros x Hx; apply store64_out; lia. }
    destruct (IH fuel m1 (av + 16) H1 H2 H3 Hn') as (m' & Em & Ham & Ho); [cbn in Hf; lia| |].
    { apply (auxv_at_ext m); [|done]. intros x Hx. apply Ho1. lia. }
    exists m'. split; [done|]. split.
    + assert (patch_entry phnum phdr entry (t, v) = (t, (patch_entry phnum phdr entry (t, v)).2)) as -> by (unfold patch_entry; by repeat case_match).
      apply auxv_at_cons. split; [|done]. rewrite !(load64_ext m' m1) by (intros x Hx; apply Ho; lia). done.
    + intros x Hx. cbn [length] in Hx. rewrite Ho by lia. apply Ho1. lia.
Qed.

(** The code looks for [UH_PRELOAD] anywhere in a string of the environment: the
    variable A with that value becomes another. *)
Lemma env_value_renamed : env_copy ([65; 61] ++ UH_PRELOAD) = LD ++ UH_PRELOAD.
Proof. reflexivity. Qed.

(** ** Witness *)

Lemma new_stack_read_back_witness :
  ∃ r, deepCopyStack (λ _ _, true) (λ _, 7) 1 1 2 [[97]; [98; 99]] [UH_PRELOAD ++ [61; 49]] [(AT_PHDR, 64)] 0 1048576 = Some r ∧
    stack_holds (ns_mem r) (ns_sp r) [[97]; [98; 99]] [LD ++ [95; 80; 82; 69; 76; 79; 65; 68; 61; 49]] [(AT_PHDR, 64); (AT_NULL, 0)].
Proof.
  destruct (new_stack_read_back (λ _ _, true) (λ _, 7) 1 [[97]; [98; 99]] [UH_PRELOAD ++ [61; 49]] [(AT_PHDR, 64)] 0 1048576) as (r & E & _ & Hh & _).
  - reflexivity.
  - lia.
  - vm_compute. reflexivity.
  - vm_compute. discriminate.
  - reflexivity.
  - apply Forall_singleton. unfold word, AT_PHDR. cbn. lia.
  - unfold word. lia.
  - exists r. split; [exact E|]. exact Hh.
Defined.
