(* ===== verification/Launch.v ===== *)
(** * The launcher's own arguments, environment and code patches
    ([src/src/lower-half/lower-half.cpp], [src/src/lower-half/patch-trampoline.c]) and
    the memory areas of MPI_Init ([src/src/mpi_plugin.cpp])

    Arrays of pointers and of strings are lists that the loops of the code
    change by index; an access out of range, or a loop that reads past the end,
    is [None]. *)
From S2P Require Import Prelude LaunchStack.

(** ** Trampolines (x86-64) *)

(** [mov $imm64, %rax; jmpq *%rax]. *)
Definition asm_jump : list Z := [0x48; 0xb8; 0x78; 0x56; 0x34; 0x12; 0x78; 0x56; 0x34; 0x12; 0xff; 0xe0].
Definition addr_offset : Z := 2.
Definition ROUND_DOWN (x : Z) : Z := Z.land x (Z.lnot (page - 1)).

(** The range whose protection is changed, and the memory after the patch. *)
Definition patch_trampoline (m : mem) (from_addr to_addr : Z) : Z * Z * mem :=
  let page_base := ROUND_DOWN from_addr in
  let page_length := if page <? from_addr + Z.of_nat (length asm_jump) - page_base then 2 * page else page in
  (page_base, page_length, store64 (store m from_addr asm_jump) (from_addr + addr_offset) to_addr).

(** What the processor does at [a]: where the two instructions lead. *)
Definition jump_target (m : mem) (a : Z) : option Z :=
  if (m a =? 0x48) && (m (a + 1) =? 0xb8) && (m (a + 10) =? 0xff) && (m (a + 11) =? 0xe0) then Some (load64 m (a + 2)) else None.

(** The patched function jumps to the new one; the patch is in the pages that were
    made writable, and no other byte changes. *)
Theorem trampoline_jumps m from_addr to_addr :
  word to_addr →
  let '(page_base, page_length, m') := patch_trampoline m from_addr to_addr in
  jump_target m' from_addr = Some to_addr ∧
  page_base mod page = 0 ∧ page_base ≤ from_addr ∧ from_addr + 12 ≤ page_base + page_length ∧
  ∀ x, x < from_addr ∨ from_addr + 12 ≤ x → m' x = m x.
Proof.
  intros Hw. unfold patch_trampoline. split_and!.
  - unfold jump_target, addr_offset. rewrite !store64_out by lia.
    assert (∀ i b, asm_jump !! i = Some b → store m from_addr asm_jump (from_addr + Z.of_nat i) = b) as Hs by (intros i b; apply store_in).
    pose proof (Hs 0%nat 0x48 eq_refl) as H0. replace (from_addr + Z.of_nat 0) with from_addr in H0 by lia.
    pose proof (Hs 1%nat 0xb8 eq_refl) as H1. pose proof (Hs 10%nat 0xff eq_refl) as H10. pose proof (Hs 11%nat 0xe0 eq_refl) as H11. change (Z.of_nat 1) with 1 in H1. change (Z.of_nat 10) with 10 in H10. change (Z.of_nat 11) with 11 in H11.
    rewrite H0, H1, H10, H11. cbn [Z.eqb Pos.eqb andb]. by rewrite load64_same.
  - unfold ROUND_DOWN, page. change (4096 - 1) with (2 ^ 12 - 1). rewrite land_lnot_ones by lia. apply Z.mod_mul. lia.
  - unfold ROUND_DOWN, page. change (4096 - 1) with (2 ^ 12 - 1). rewrite land_lnot_ones by lia. Z.div_mod_to_equations. lia.
  - unfold ROUND_DOWN, page. change (4096 - 1) with (2 ^ 12 - 1). rewrite land_lnot_ones by lia. cbn [length asm_jump].
    destruct (Z.ltb_spec 4096 (from_addr + Z.of_nat 12 - from_addr / 2 ^ 12 * 2 ^ 12)); change (2 ^ 12) with 4096 in *; Z.div_mod_to_equations; lia.
  - intros x Hx. rewrite store64_out by (unfold addr_offset; lia). apply store_out. cbn. lia.
Qed.

(** ** [remove_dangling_env_entries()] *)

Section environ.
Context (stack_addr argv : Z).
Definition dangling (entry : Z) : bool := (stack_addr <=? entry) && (entry <? argv).

Fixpoint remove_dangling_loop (fuel : nat) (environ : list Z) (i j : nat) : option (list Z) :=
  match fuel with
  | O => None
  | S fuel' =>
      entry ← environ !! i;
      if entry =? 0 then Some (<[j := 0]> environ)
      else if dangling entry then remove_dangling_loop fuel' environ (S i) j
      else remove_dangling_loop fuel' (<[j := entry]> environ) (S i) (S j)
  end.
Definition remove_dangling_env_entries (environ : list Z) : option (list Z) :=
  remove_dangling_loop (length environ) environ 0 0.

(** The loop keeps, in order, the entries that do not point into dead stack, and
    ends them with NULL. *)
Lemma remove_dangling_from env : ∀ fuel pre kept rest,
  (length env < fuel)%nat → Forall (λ e, e ≠ 0) env → (length kept ≤ length pre)%nat →
  take (length kept) pre = kept →
  ∃ rest', remove_dangling_loop fuel (pre ++ env ++ 0 :: rest) (length pre) (length kept) = Some (kept ++ filter (λ e, dangling e = false) env ++ 0 :: rest').
Proof.
  induction env as [|e env IH]; intros [|fuel] pre kept rest Hf Hn Hl Hk; try (cbn in Hf; lia); cbn [remove_dangling_loop app].
  - rewrite list_lookup_middle by done. cbn [mbind option_bind]. rewrite Z.eqb_refl. exists (drop (S (length kept)) (pre ++ 0 :: rest)).
    rewrite insert_take_drop by (rewrite length_app; cbn; lia). rewrite take_app_le by done. by rewrite Hk.
  - apply Forall_cons in Hn as [Hn Hn']. rewrite list_lookup_middle by done. cbn [mbind option_bind]. rewrite (proj2 (Z.eqb_neq _ _) Hn).
    assert (∀ k, pre ++ e :: env ++ k = (pre ++ [e]) ++ env ++ k) as Eapp by (intros k; by rewrite <- app_assoc).
    destruct (dangling e) eqn:Ed.
    + rewrite filter_cons_False by congruence. rewrite Eapp. replace (S (length pre)) with (length (pre ++ [e])) by (rewrite length_app; cbn; lia).
      apply IH; [cbn in Hf; lia|done|rewrite length_app; lia|by rewrite take_app_le].
    + rewrite filter_cons_True by done. rewrite Eapp, insert_app_l by (rewrite length_app; cbn; lia).
      destruct (IH fuel (<[length kept := e]> (pre ++ [e])) (kept ++ [e]) rest) as (rest' & E).
      * cbn in Hf. lia.
      * done.
      * rewrite length_insert, !length_app. cbn. lia.
      * rewrite insert_take_drop by (rewrite length_app; cbn; lia). rewrite (take_app_le pre) by done. rewrite Hk. set (tl := drop _ _).
        replace (kept ++ e :: tl) with ((kept ++ [e]) ++ tl) by (by rewrite <- app_assoc). apply take_app_length.
      * exists rest'. rewrite length_insert, !length_app in E. cbn in E. replace (length pre + 1)%nat with (S (length pre)) in E by lia.
        replace (length kept + 1)%nat with (S (length kept)) in E by lia. rewrite E, <- app_assoc. done.
Qed.

Theorem remove_dangling_filters env :
  Forall (λ e, e ≠ 0) env →
  ∃ rest', remove_dangling_env_entries (env ++ [0]) = Some (filter (λ e, dangling e = false) env ++ 0 :: rest').
Proof.
  intros Hn. unfold remove_dangling_env_entries. destruct (remove_dangling_from env (length (env ++ [0])) [] [] []) as (rest' & E); try done.
  - rewrite length_app. cbn. lia.
  - by exists rest'.
Qed.
End environ.

(** ** [parse_restore_flag()] and [prepend_elf_interpreter_to_path()] *)

(** "--restore". *)
Definition RESTORE : text := [45; 45; 114; 101; 115; 116; 111; 114; 101].

(** [for (j = i; j < argc; j++) argv[j] = argv[j + 1];], with [n] iterations left. *)
Fixpoint shift_left (n j : nat) (argv : list text) : option (list text) :=
  match n with
  | O => Some argv
  | S n' => s ← argv !! S j; shift_left n' (S j) (<[j := s]> argv)
  end.
(** [n] arguments are left from [i] on; the result is the flag, [argc] and [argv]. *)
Fixpoint parse_restore_from (n i argc : nat) (argv : list text) : option (bool * nat * list text) :=
  match n with
  | O => Some (false, argc, argv)
  | S n' =>
      s ← argv !! i;
      if bool_decide (s = RESTORE) then argv' ← shift_left (pred argc - i) i argv; Some (true, pred argc, argv')
      else parse_restore_from n' (S i) argc argv
  end.
Definition parse_restore_flag (argc : nat) (argv : list text) : option (bool * nat * list text) :=
  parse_restore_from (pred argc) 1 argc argv.

Definition MAX_CMD_ARGV2_LENGTH : nat := 100.
(** [cmd_argv2], without the NULL at its end; the assertion on its length. *)
Definition prepend_elf_interpreter_to_path (cmd_argv : list text) (elf_interpreter : text) : option (list text) :=
  if (length cmd_argv + 1 <? MAX_CMD_ARGV2_LENGTH)%nat then Some (elf_interpreter :: cmd_argv) else None.

Lemma shift_left_ok post : ∀ pre s rest,
  ∃ x, shift_left (length post) (length pre) (pre ++ s :: post ++ rest) = Some (pre ++ post ++ x :: rest).
Proof.
  induction post as [|t post IH]; intros pre s rest; cbn [shift_left length].
  - by exists s.
  - assert ((pre ++ s :: (t :: post) ++ rest) !! S (length pre) = Some t) as ->.
    { replace (pre ++ s :: (t :: post) ++ rest) with ((pre ++ [s]) ++ t :: post ++ rest) by (by rewrite <- app_assoc).
      apply list_lookup_middle. rewrite length_app. cbn. lia. }
    cbn [mbind option_bind]. rewrite insert_app_r_alt, Nat.sub_diag by lia. cbn [insert list_insert].
    replace (pre ++ t :: (t :: post) ++ rest) with ((pre ++ [t]) ++ t :: post ++ rest) by (by rewrite <- app_assoc).
    destruct (IH (pre ++ [t]) t rest) as (x & E). rewrite length_app in E. cbn in E. replace (length pre + 1)%nat with (S (length pre)) in E by lia.
    exists x. by rewrite E, <- app_assoc.
Qed.

Lemma parse_restore_from_ok args : ∀ pre,
  (args = [] ∨ RESTORE ∉ args → parse_restore_from (length args) (length pre) (length pre + length args) (pre ++ args) = Some (false, (length pre + length args)%nat, pre ++ args)) ∧
  ∀ a b, args = a ++ RESTORE :: b → RESTORE ∉ a →
    ∃ x, parse_restore_from (length args) (length pre) (length pre + length args) (pre ++ args) = Some (true, pred (length pre + length args), pre ++ a ++ b ++ [x]).
Proof.
  induction args as [|s args IH]; intros pre.
  - split; [|intros [] b; done]. intros _. cbn. by rewrite Nat.add_0_r, app_nil_r.
  - destruct (IH (pre ++ [s])) as [IH1 IH2]. rewrite length_app, <- app_assoc in IH1, IH2. cbn [length app] in IH1, IH2.
    replace (length pre + 1 + length args)%nat with (length pre + S (length args))%nat in IH1, IH2 by lia. replace (length pre + 1)%nat with (S (length pre)) in IH1, IH2 by lia.
    cbn [length parse_restore_from]. rewrite list_lookup_middle by done. cbn [mbind option_bind]. split.
    + intros [|Hn]; [done|]. rewrite bool_decide_false by (intros ->; apply Hn; by left). apply IH1. right. intros H. apply Hn. by right.
    + intros a b E Hn. destruct a as [|s' a]; injection E as -> ->.
      * rewrite bool_decide_true by done. destruct (shift_left_ok b pre RESTORE []) as (x & E). rewrite app_nil_r in E.
        replace (pred (length pre + S (length b)) - length pre)%nat with (length b) by lia. rewrite E. cbn. by exists x.
      * rewrite bool_decide_false by (intros ->; apply Hn; by left). destruct (IH2 a b eq_refl) as (x & Ex); [intros H; apply Hn; by right|].
        exists x. rewrite Ex. by rewrite <- app_assoc.
Qed.

(** [parse_restore_flag()] finds the flag after the program's name, removes its first
    occurrence and keeps the other arguments in order; without the flag it changes
    nothing. *)
Theorem parse_restore_flag_removes prog args :
  (RESTORE ∉ args → parse_restore_flag (S (length args)) (prog :: args) = Some (false, S (length args), prog :: args)) ∧
  ∀ a b, args = a ++ RESTORE :: b → RESTORE ∉ a →
    ∃ argv', parse_restore_flag (S (length args)) (prog :: args) = Some (true, length args, argv') ∧ take (length args) argv' = prog :: a ++ b.
Proof.
  destruct (parse_restore_from_ok args [prog]) as [H1 H2]. split.
  - intros Hn. apply H1. by right.
  - intros a b E Hn. destruct (H2 a b E Hn) as (x & Ex). eexists. split; [exact Ex|]. subst args.
    change ([prog] ++ a ++ b ++ [x]) with (prog :: a ++ b ++ [x]). rewrite app_assoc.
    replace (length (a ++ RESTORE :: b)) with (S (length (a ++ b))) by (rewrite !length_app; cbn; lia). cbn [take]. f_equal. by rewrite take_app_length.
Qed.

(** ** The areas that MPI_Init maps *)

Record area := mk_area { a_addr : Z; a_size : Z }.
Definition endAddr (a : area) : Z := a_addr a + a_size a.
Definition regionContains (haystackStart haystackEnd needleStart needleEnd : Z) : bool :=
  (haystackStart <=? needleStart) && (needleEnd <=? haystackEnd).

(** The areas of /proc/self/maps after MPI_Init, without the one that holds the copy
    of that file ([data]); [insert] keeps an entry that exists. *)
Definition insert_area (data : Z) (M : gmap Z Z) (a : area) : gmap Z Z :=
  if regionContains (a_addr a) (endAddr a) data data then M
  else match M !! a_addr a with Some _ => M | None => <[a_addr a := a_size a]> M end.
(** One area from before MPI_Init. *)
Definition remove_area (M : gmap Z Z) (a : area) : gmap Z Z :=
  match M !! a_addr a with
  | Some _ => delete (a_addr a) M
  | None =>
      if existsb (λ '(addr, size), addr + size =? endAddr a) (map_to_list M) then delete (a_addr a) M else M
  end.
Definition lh_areas (data : Z) (pre post : list area) : gmap Z Z :=
  foldl remove_area (foldl (insert_area data) ∅ post) pre.

(** [preMpiInitMaps], [postMpiInitMaps] and [mpiInitLhAreas]; the null pointers are [None]. *)
Record init_maps := mk_init_maps {
  preMpiInitMaps : option (list area);
  postMpiInitMaps : option (list area);
  mpiInitLhAreas : option (gmap Z Z)
}.
Definition recordPreMpiInitMaps (maps : list area) (st : init_maps) : init_maps :=
  match preMpiInitMaps st with
  | Some _ => st
  | None => mk_init_maps (Some maps) (postMpiInitMaps st) (Some ∅)
  end.
(** [None] where the code dereferences a null pointer. *)
Definition recordPostMpiInitMaps (data : Z) (maps : list area) (st : init_maps) : option init_maps :=
  match postMpiInitMaps st with
  | Some _ => Some st
  | None =>
      M ← mpiInitLhAreas st; pre ← preMpiInitMaps st;
      Some (mk_init_maps (Some pre) (Some maps) (Some (foldl remove_area (foldl (insert_area data) M maps) pre)))
  end.

Lemma remove_area_deletes M a : remove_area M a = delete (a_addr a) M.
Proof.
  unfold remove_area. destruct (M !! a_addr a) eqn:E; [done|]. rewrite (delete_id M) by done. by case_match.
Qed.

Lemma lh_areas_lookup data pre post addr :
  is_Some (lh_areas data pre post !! addr) ↔
  (∃ a, a ∈ post ∧ a_addr a = addr ∧ regionContains (a_addr a) (endAddr a) data data = false) ∧ addr ∉ (a_addr <$> pre).
Proof.
  assert (∀ post M, is_Some (foldl (insert_area data) M post !! addr) ↔
    is_Some (M !! addr) ∨ ∃ a, a ∈ post ∧ a_addr a = addr ∧ regionContains (a_addr a) (endAddr a) data data = false) as Hins.
  { clear. induction post as [|a post IH]; intros M; cbn; [set_solver|]. rewrite IH. unfold insert_area.
    setoid_rewrite elem_of_cons. destruct (regionContains _ _ _ _) eqn:Er; [split; [intros [?|(b & Hb & Eb)]|intros [?|(b & [->|Hb] & Eb & Hr)]]; eauto 6; congruence|]. destruct (M !! a_addr a) as [z|] eqn:Ea.
    - split; [naive_solver|]. intros [H|(b & [->|Hb] & Eb & Hr)]; [by left| |naive_solver]. left. rewrite <- Eb, Ea. by eexists.
    - rewrite lookup_insert_is_Some'. naive_solver. }
  assert (∀ pre M, is_Some (foldl remove_area M pre !! addr) ↔ is_Some (M !! addr) ∧ addr ∉ (a_addr <$> pre)) as Hrem.
  { clear. induction pre as [|a pre IH]; intros M; cbn; [set_solver|]. rewrite IH, remove_area_deletes, lookup_delete_is_Some, not_elem_of_cons. naive_solver. }
  unfold lh_areas. rewrite Hrem, Hins, lookup_empty. split; [|naive_solver]. intros [[[? H]|H] Hn]; done.
Qed.

(** What is left are the areas of after MPI_Init that do not begin where one of
    before began; calls after the first pair change nothing.  An area that has grown
    at its beginning, and ends where it ended before, stays: the branch for it erases
    nothing. *)
Theorem recorded_areas data pre post :
  ∃ st M, recordPostMpiInitMaps data post (recordPreMpiInitMaps pre (mk_init_maps None None None)) = Some st ∧
  mpiInitLhAreas st = Some M ∧
  (∀ addr, is_Some (M !! addr) ↔
    (∃ a, a ∈ post ∧ a_addr a = addr ∧ regionContains (a_addr a) (endAddr a) data data = false) ∧ addr ∉ (a_addr <$> pre)) ∧
  ∀ data' pre' post', recordPostMpiInitMaps data' post' (recordPreMpiInitMaps pre' st) = Some st.
Proof. eexists _, (lh_areas data pre post). split_and!; [done..|apply lh_areas_lookup|done]. Qed.

(** A stack that grew downwards during MPI_Init is recorded as the lower half's. *)
Example grown_stack_recorded :
  lh_areas 0 [mk_area 0x7000 0x1000] [mk_area 0x6000 0x2000] = {[ 0x6000 := 0x2000 ]}.
Proof. vm_compute. reflexivity. Qed.
