(* ===== verification/ElfLoad.v ===== *)
(** * Loading the upper half's dynamic linker
    ([get_elf_interpreter()], [load_elf_interpreter()] and
    [map_elf_interpreter_load_segment()] of [src/src/lower-half/lower-half.cpp])

    The launcher finds the dynamic linker of the application in its ELF file and
    maps the linker's loadable segments itself.  A file is the list of its bytes;
    both files could be opened.  Memory gives the byte and the protection of an
    address; [None] is an address where an access raises a signal: it is not mapped,
    or its page of a file mapping is past the end of the file.  A result [None] is an
    exit, a failed assertion or such a signal.  There is no arena yet when the linker
    is loaded, so [mmap_wrapper()] is the kernel's mmap on whole pages. *)
From S2P Require Import Prelude LaunchStack Launch.

(** ** Headers *)

Definition PT_LOAD : Z := 1.
Definition PT_INTERP : Z := 3.
Definition PF_X : Z := 1.
Definition PF_W : Z := 2.
Definition PF_R : Z := 4.
Definition PROT_READ : Z := 1.
Definition PROT_WRITE : Z := 2.
Definition PROT_EXEC : Z := 4.

Record Elf64_Phdr := mk_phdr {
  p_type : Z; p_flags : Z; p_offset : Z; p_vaddr : Z; p_filesz : Z; p_memsz : Z; p_align : Z
}.
Record Elf64_Ehdr := mk_ehdr { e_entry : Z; e_phoff : Z; e_phnum : Z }.

(** A little-endian field of a structure. *)
Definition field (bs : list Z) (off len : nat) : Z := little_endian_to_Z 8 (take len (drop off bs)).
Definition phdr_of (bs : list Z) : Elf64_Phdr :=
  mk_phdr (field bs 0 4) (field bs 4 4) (field bs 8 8) (field bs 16 8) (field bs 32 8) (field bs 40 8) (field bs 48 8).
Definition ehdr_of (bs : list Z) : Elf64_Ehdr := mk_ehdr (field bs 24 8) (field bs 32 8) (field bs 56 2).

(** [read()] at a position of the file. *)
Definition read_at (file : list Z) (pos len : Z) : list Z := take (Z.to_nat len) (drop (Z.to_nat pos) file).
(** [lseek()] with [SEEK_SET]: a negative offset is an error and moves nothing. *)
Definition lseek (pos off : Z) : Z := if off <? 0 then pos else off.
(** A structure after a [read()] of its size that gave [bs]. *)
Definition overwrite (buf bs : list Z) : list Z := bs ++ drop (length bs) buf.

(** The checks of [e_ident]: the magic number and ELFCLASS64; then the header. *)
Definition ELFMAG : list Z := [0x7f; 69; 76; 70].
Definition read_ehdr (file : list Z) : option Elf64_Ehdr :=
  let e_ident := read_at file 0 16 in
  if negb (bool_decide (length e_ident = 16%nat)) then None
  else if negb (bool_decide (take 4 e_ident = ELFMAG)) then None
  else if negb (bool_decide (e_ident !! 4%nat = Some 2)) then None
  else
    let bs := read_at file 0 64 in
    if negb (bool_decide (length bs = 64%nat)) then None else Some (ehdr_of bs).

(** ** [get_elf_interpreter()] *)

Definition MAX_ELF_INTERP_SZ : Z := 256.

(** [n] headers are left; [buf] is the variable [phdr] as bytes. *)
Fixpoint find_interp (file : list Z) (n : nat) (pos : Z) (buf : list Z) : option (Elf64_Phdr * Z) :=
  match n with
  | O => None
  | S n' =>
      let bs := read_at file pos 56 in
      let buf' := overwrite buf bs in
      let pos' := pos + Z.of_nat (length bs) in
      if p_type (phdr_of buf') =? PT_INTERP then Some (phdr_of buf', pos') else find_interp file n' pos' buf'
  end.
(** The entry point and the bytes of the path; [buf] is the uninitialised [phdr]. *)
Definition get_elf_interpreter (file buf : list Z) : option (Z * list Z) :=
  elf_hdr ← read_ehdr file;
  '(phdr, pos) ← find_interp file (Z.to_nat (e_phnum elf_hdr)) (lseek 64 (s32 (e_phoff elf_hdr))) buf;
  if negb (p_filesz phdr <? MAX_ELF_INTERP_SZ) then None else
  let elf_interpreter := read_at file (lseek pos (s64 (p_offset phdr))) (p_filesz phdr) in
  if negb (Z.of_nat (length elf_interpreter) =? p_filesz phdr) then None else
  Some (e_entry elf_hdr, elf_interpreter).

(** ** Memory *)

Definition pages : Type := Z → option (Z * Z).

Definition file_byte (file : list Z) (pos : Z) : option Z :=
  if pos <? Z.of_nat (length file) then Some (nth (Z.to_nat pos) file 0)
  else if pos <? ROUND_UP (Z.of_nat (length file)) then Some 0 else None.
Definition map_file (file : list Z) (m : pages) (addr len prot offset : Z) : pages := λ x,
  if (addr <=? x) && (x <? addr + ROUND_UP len) then (λ b, (b, prot)) <$> file_byte file (offset + (x - addr)) else m x.

Definition writable (c : option (Z * Z)) : bool :=
  match c with Some (_, prot) => negb (Z.land prot PROT_WRITE =? 0) | None => false end.
(** [memset] with 0. *)
Definition memset (m : pages) (a n : Z) : option pages :=
  if forallb (λ x, writable (m x)) (seqZ a n)
  then Some (λ x, if (a <=? x) && (x <? a + n) then (λ '(_, prot), (0, prot)) <$> m x else m x) else None.

(** ** [map_elf_interpreter_load_segment()] *)

Definition PAGE_OFFSET (x : Z) : Z := x - ROUND_DOWN x.

(** The static variables, and memory. *)
Record loader := mk_loader { base_address : Z; first_time : bool; ld_mem : pages }.

Definition segment_prot (p_flags : Z) : Z :=
  let prot := 0 in
  let prot := if negb (Z.land p_flags PF_R =? 0) then Z.lor prot PROT_READ else prot in
  let prot := if negb (Z.land p_flags PF_W =? 0) then Z.lor prot PROT_WRITE else prot in
  if negb (Z.land p_flags PF_X =? 0) then Z.lor prot PROT_EXEC else prot.

Section load.
(** Where the kernel maps without [MAP_FIXED]; whether it maps a range at all. *)
Context (place : Z → Z → Z) (granted : Z → Z → bool).
Context (file : list Z) (ld_so_addr : Z).

Definition mmap_segment (m : pages) (addr len prot offset : Z) : option (Z * pages) :=
  if (len =? 0) || negb (granted addr len) then None else Some (addr, map_file file m addr len prot offset).

Definition map_elf_interpreter_load_segment (phdr : Elf64_Phdr) (s : loader) : option loader :=
  let prot := segment_prot (p_flags phdr) in
  if p_memsz phdr <? p_filesz phdr then None else
  if (1 <? p_align phdr) && negb (p_vaddr phdr mod p_align phdr =? p_offset phdr mod p_align phdr) then None else
  if negb (PAGE_OFFSET (p_vaddr phdr) =? PAGE_OFFSET (p_offset phdr)) then None else
  let base := base_address s in
  let addr := u64 ((if first_time s then ld_so_addr else base) + ROUND_DOWN (p_vaddr phdr)) in
  let len := u64 (p_memsz phdr + PAGE_OFFSET (p_vaddr phdr)) in
  let offset := ROUND_DOWN (p_offset phdr) in
  '(rc2, m1) ←
    (if first_time s && (ld_so_addr =? 0) then mmap_segment (ld_mem s) (place addr len) len prot offset
     else if u64 (base + p_vaddr phdr + p_memsz phdr) <=? u64 (addr + len) then mmap_segment (ld_mem s) addr len prot offset
     else None);
  m2 ←
    (if p_filesz phdr <? p_memsz phdr then
       if negb (u64 (addr + len) =? u64 (base + p_vaddr phdr + p_memsz phdr)) then None else
       m' ← memset m1 (u64 (base + p_vaddr phdr + p_filesz phdr)) (p_memsz phdr - p_filesz phdr);
       let endBSS := u64 (base + p_vaddr phdr + p_memsz phdr) in
       memset m' endBSS (ROUND_UP endBSS - endBSS)
     else Some m1);
  Some (mk_loader (if first_time s then rc2 else base) false m2).

(** ** [load_elf_interpreter()] *)

(** [n] headers are left; [interp_base_address] is what the last segment returned. *)
Fixpoint load_loop (n : nat) (pos : Z) (buf : list Z) (interp_base_address : Z) (s : loader) : option (Z * loader) :=
  match n with
  | O => Some (interp_base_address, s)
  | S n' =>
      let bs := read_at file pos 56 in
      let buf' := overwrite buf bs in
      let pos' := pos + Z.of_nat (length bs) in
      if p_type (phdr_of buf') =? PT_LOAD then
        s' ← map_elf_interpreter_load_segment (phdr_of buf') s;
        load_loop n' pos' buf' (base_address s') s'
      else load_loop n' pos' buf' interp_base_address s
  end.
Definition load_elf_interpreter (buf : list Z) (s : loader) : option (Z * Elf64_Ehdr * loader) :=
  elf_hdr ← read_ehdr file;
  '(interp_base_address, s') ← load_loop (Z.to_nat (e_phnum elf_hdr)) (lseek 64 (s32 (e_phoff elf_hdr))) buf 0 s;
  if interp_base_address =? 0 then None else Some (interp_base_address, elf_hdr, s').

(** ** Segments in memory *)

Definition seg_end (ph : Elf64_Phdr) : Z := p_vaddr ph + p_memsz ph.

(** The segment is at its place: the bytes of the file, then zeros to the end of the
    last page. *)
Definition loaded (m : pages) (base : Z) (ph : Elf64_Phdr) : Prop :=
  let prot := segment_prot (p_flags ph) in
  (∀ i, 0 ≤ i < p_filesz ph → m (base + p_vaddr ph + i) = Some (nth (Z.to_nat (p_offset ph + i)) file 0, prot)) ∧
  (p_filesz ph < p_memsz ph → ∀ x, p_vaddr ph + p_filesz ph ≤ x < ROUND_UP (seg_end ph) → m (base + x) = Some (0, prot)).

(** What the ELF format asks of a loadable segment, that the kernel maps it, and that
    the pages of a segment with a bss are writable and in the file. *)
Definition segment_ok (base : Z) (ph : Elf64_Phdr) : Prop :=
  0 ≤ p_vaddr ph ∧ 0 ≤ p_offset ph ∧ 0 ≤ p_filesz ph ≤ p_memsz ph ∧ 0 < p_memsz ph ∧
  (1 < p_align ph → p_vaddr ph mod p_align ph = p_offset ph mod p_align ph) ∧
  p_vaddr ph mod page = p_offset ph mod page ∧
  p_offset ph + p_filesz ph ≤ Z.of_nat (length file) ∧
  base + seg_end ph + page ≤ 2 ^ 64 ∧
  granted (base + ROUND_DOWN (p_vaddr ph)) (p_memsz ph + PAGE_OFFSET (p_vaddr ph)) = true ∧
  (p_filesz ph < p_memsz ph → Z.land (p_flags ph) PF_W ≠ 0 ∧ ROUND_UP (p_offset ph + p_memsz ph) ≤ ROUND_UP (Z.of_nat (length file))).

Lemma round_down_page x : ROUND_DOWN x = x / 4096 * 4096.
Proof. unfold ROUND_DOWN, page. change (4096 - 1) with (2 ^ 12 - 1). by rewrite land_lnot_ones by lia. Qed.
Lemma PAGE_OFFSET_mod x : PAGE_OFFSET x = x mod 4096.
Proof. unfold PAGE_OFFSET. rewrite round_down_page. Z.div_mod_to_equations. lia. Qed.
Lemma round_up_shift x y : (x - y) mod 4096 = 0 → ROUND_UP x - x = ROUND_UP y - y.
Proof.
  intros H. replace x with (y + 4096 * ((x - y) / 4096)) by (Z.div_mod_to_equations; lia). rewrite ROUND_UP_add. lia.
Qed.

Lemma segment_prot_writable flags : Z.land flags PF_W ≠ 0 → Z.land (segment_prot flags) PROT_WRITE ≠ 0.
Proof.
  intros Hw. unfold segment_prot. rewrite (proj2 (Z.eqb_neq _ _) Hw). cbn [negb].
  destruct (negb (Z.land flags PF_R =? 0)), (negb (Z.land flags PF_X =? 0)); done.
Qed.

Lemma memset_ok m a n : (∀ x, a ≤ x < a + n → writable (m x) = true) →
  memset m a n = Some (λ x, if (a <=? x) && (x <? a + n) then (λ '(_, prot), (0, prot)) <$> m x else m x).
Proof.
  intros Hw. unfold memset. rewrite (proj2 (forallb_forall _ _)); [done|]. intros x Hx. apply Hw. by apply list_elem_of_In, elem_of_seqZ in Hx.
Qed.

Lemma file_byte_in pos : 0 ≤ pos < Z.of_nat (length file) → file_byte file pos = Some (nth (Z.to_nat pos) file 0).
Proof. intros H. unfold file_byte. by rewrite (proj2 (Z.ltb_lt _ _)) by lia. Qed.
Lemma file_byte_page pos : pos < ROUND_UP (Z.of_nat (length file)) → is_Some (file_byte file pos).
Proof. intros H. unfold file_byte. case_match; [by eexists|]. rewrite (proj2 (Z.ltb_lt _ _)) by lia. by eexists. Qed.
Lemma map_file_in m addr len prot offset x : addr ≤ x < addr + ROUND_UP len →
  map_file file m addr len prot offset x = (λ b, (b, prot)) <$> file_byte file (offset + (x - addr)).
Proof. intros H. unfold map_file. by rewrite (proj2 (Z.leb_le _ _)), (proj2 (Z.ltb_lt _ _)) by lia. Qed.
Lemma map_file_out m addr len prot offset x : x < addr ∨ addr + ROUND_UP len ≤ x → map_file file m addr len prot offset x = m x.
Proof. intros H. unfold map_file. destruct (Z.leb_spec addr x), (Z.ltb_spec x (addr + ROUND_UP len)); cbn; done || lia. Qed.

Definition mapped (m : pages) (base : Z) (ph : Elf64_Phdr) : pages :=
  map_file file m (base + ROUND_DOWN (p_vaddr ph)) (p_memsz ph + PAGE_OFFSET (p_vaddr ph)) (segment_prot (p_flags ph)) (ROUND_DOWN (p_offset ph)).

Lemma mapped_len ph : ROUND_DOWN (p_vaddr ph) + ROUND_UP (p_memsz ph + PAGE_OFFSET (p_vaddr ph)) = ROUND_UP (seg_end ph).
Proof.
  assert (ROUND_UP (seg_end ph) - seg_end ph = ROUND_UP (p_memsz ph + PAGE_OFFSET (p_vaddr ph)) - (p_memsz ph + PAGE_OFFSET (p_vaddr ph))) as E.
  { apply round_up_shift. unfold seg_end. rewrite PAGE_OFFSET_mod. Z.div_mod_to_equations. lia. }
  unfold seg_end, PAGE_OFFSET in *. lia.
Qed.
Lemma mapped_out m base ph x :
  x < base + ROUND_DOWN (p_vaddr ph) ∨ base + ROUND_UP (seg_end ph) ≤ x → mapped m base ph x = m x.
Proof. intros Hx. apply map_file_out. pose proof (mapped_len ph). lia. Qed.
Lemma mapped_in m base ph x :
  p_vaddr ph mod page = p_offset ph mod page → p_vaddr ph ≤ x < ROUND_UP (seg_end ph) →
  mapped m base ph (base + x) = (λ b, (b, segment_prot (p_flags ph))) <$> file_byte file (p_offset ph + (x - p_vaddr ph)).
Proof.
  intros Hm Hx. pose proof (mapped_len ph). unfold mapped. rewrite map_file_in.
  - f_equal. f_equal. rewrite !round_down_page. unfold page in Hm. Z.div_mod_to_equations. lia.
  - rewrite round_down_page in *. Z.div_mod_to_equations. lia.
Qed.

Lemma segment_end_bounds ph : seg_end ph ≤ ROUND_UP (seg_end ph) < seg_end ph + 4096 ∧ ROUND_DOWN (p_vaddr ph) ≤ p_vaddr ph.
Proof. destruct (round_up_page (seg_end ph)) as (k & _ & H). rewrite round_down_page. Z.div_mod_to_equations. lia. Qed.

(** Zeroing the bss and the rest of its last page leaves the segment loaded. *)
Lemma bss_zeroed m base ph :
  base mod 4096 = 0 → segment_ok base ph → p_filesz ph < p_memsz ph →
  ∃ m1 m2, memset (mapped m base ph) (base + p_vaddr ph + p_filesz ph) (p_memsz ph - p_filesz ph) = Some m1 ∧
    memset m1 (base + p_vaddr ph + p_memsz ph) (ROUND_UP (base + p_vaddr ph + p_memsz ph) - (base + p_vaddr ph + p_memsz ph)) = Some m2 ∧
    loaded m2 base ph ∧ ∀ x, x < base + ROUND_DOWN (p_vaddr ph) ∨ base + ROUND_UP (seg_end ph) ≤ x → m2 x = m x.
Proof.
  intros Hb (Hv & Ho & Hf & Hm & _ & Hpo & Hfile & Htop & _ & Hbss) Hlt. destruct (Hbss Hlt) as [Hw Hpages].
  destruct (segment_end_bounds ph) as [He Hd].
  assert (ROUND_UP (base + p_vaddr ph + p_memsz ph) = base + ROUND_UP (seg_end ph)) as Eup.
  { assert (ROUND_UP (base + p_vaddr ph + p_memsz ph) - (base + p_vaddr ph + p_memsz ph) = ROUND_UP (seg_end ph) - seg_end ph); [|unfold seg_end in *; lia].
    apply round_up_shift. unfold seg_end. by replace (base + p_vaddr ph + p_memsz ph - (p_vaddr ph + p_memsz ph)) with base by lia. }
  assert (∀ x, p_vaddr ph ≤ x < ROUND_UP (seg_end ph) → ∃ b, mapped m base ph (base + x) = Some (b, segment_prot (p_flags ph))) as Hcell.
  { intros x Hx. rewrite mapped_in by done. destruct (file_byte_page (p_offset ph + (x - p_vaddr ph))) as [b ->]; [|by exists b].
    pose proof (round_up_shift (seg_end ph) (p_offset ph + p_memsz ph)) as E.
    assert (ROUND_UP (seg_end ph) - seg_end ph = ROUND_UP (p_offset ph + p_memsz ph) - (p_offset ph + p_memsz ph)).
    { apply E. unfold seg_end, page in *. Z.div_mod_to_equations. lia. }
    unfold seg_end in *. lia. }
  assert (∀ b, writable (Some (b, segment_prot (p_flags ph))) = true) as Hwr by (intros b; cbn; by rewrite (proj2 (Z.eqb_neq _ _) (segment_prot_writable _ Hw))).
  assert (∀ x, base + p_vaddr ph ≤ x < base + ROUND_UP (seg_end ph) → ∃ b, mapped m base ph x = Some (b, segment_prot (p_flags ph))) as Hcell'.
  { intros x Hx. destruct (Hcell (x - base) ltac:(lia)) as [b E]. replace (base + (x - base)) with x in E by lia. eauto. }
  rewrite memset_ok by (intros x Hx; destruct (Hcell' x) as [b ->]; [unfold seg_end in *; lia|apply Hwr]).
  eexists _, _. split; [done|]. rewrite memset_ok.
  2:{ intros x Hx. rewrite (proj2 (Z.ltb_ge _ _)), andb_false_r by (unfold seg_end in *; lia). destruct (Hcell' x) as [b ->]; [unfold seg_end in *; lia|apply Hwr]. }
  split; [done|]. rewrite Eup. unfold loaded. split_and!.
  - intros i Hi. rewrite (proj2 (Z.leb_gt _ _)), (proj2 (Z.leb_gt _ _)) by lia. cbn. rewrite <- Z.add_assoc, mapped_in by (done || unfold seg_end in *; lia).
    replace (p_offset ph + (p_vaddr ph + i - p_vaddr ph)) with (p_offset ph + i) by lia. by rewrite file_byte_in by lia.
  - intros _ x Hx. destruct (Hcell x ltac:(lia)) as [b Eb]. rewrite Eb. unfold seg_end in *.
    repeat (match goal with |- context [?a <=? ?b] => destruct (Z.leb_spec a b) | |- context [?a <? ?b] => destruct (Z.ltb_spec a b) end; cbn); done || lia.
  - intros x Hx. rewrite <- (mapped_out m base ph x) by done. unfold seg_end in *.
    repeat (match goal with |- context [?a <=? ?b] => destruct (Z.leb_spec a b) | |- context [?a <? ?b] => destruct (Z.ltb_spec a b) end; cbn); done || lia.
Qed.

(** The first segment is mapped where the caller asks, has no bss and begins in the
    first page; the others are relative to it. *)
Definition may_load (base : Z) (ph : Elf64_Phdr) (s : loader) : Prop :=
  if first_time s then base_address s = 0 ∧ ld_so_addr = base ∧ p_vaddr ph < page ∧ p_filesz ph = p_memsz ph
  else base_address s = base.

Lemma segment_loaded base ph s :
  base mod 4096 = 0 → 0 < base → segment_ok base ph → may_load base ph s →
  ∃ m', map_elf_interpreter_load_segment ph s = Some (mk_loader base false m') ∧ loaded m' base ph ∧
    ∀ x, x < base + ROUND_DOWN (p_vaddr ph) ∨ base + ROUND_UP (seg_end ph) ≤ x → m' x = ld_mem s x.
Proof.
  intros Hb Hpos Hok Hs. pose proof Hok as (Hv & Ho & Hf & Hm & Hal & Hpo & Hfile & Htop & Hg & _). unfold seg_end, page in Htop.
  assert (0 ≤ ROUND_DOWN (p_vaddr ph) ≤ p_vaddr ph ∧ PAGE_OFFSET (p_vaddr ph) = p_vaddr ph - ROUND_DOWN (p_vaddr ph)) as [Hd Epo].
  { unfold PAGE_OFFSET. rewrite round_down_page. clear - Hv. Z.div_mod_to_equations. lia. }
  unfold map_elf_interpreter_load_segment. rewrite (proj2 (Z.ltb_ge _ _)) by lia.
  assert ((1 <? p_align ph) && negb (p_vaddr ph mod p_align ph =? p_offset ph mod p_align ph) = false) as ->.
  { destruct (Z.ltb_spec 1 (p_align ph)); [|reflexivity]. rewrite andb_true_l. apply negb_false_iff, Z.eqb_eq. apply Hal. assumption. }
  rewrite (proj2 (Z.eqb_eq (PAGE_OFFSET (p_vaddr ph)) (PAGE_OFFSET (p_offset ph)))) by (rewrite !PAGE_OFFSET_mod; exact Hpo). cbn [negb].
  rewrite (u64_small (p_memsz ph + PAGE_OFFSET (p_vaddr ph))) by lia.
  assert ((if first_time s then ld_so_addr else base_address s) = base) as -> by (unfold may_load in Hs; destruct (first_time s); naive_solver).
  rewrite (u64_small (base + ROUND_DOWN (p_vaddr ph))) by lia.
  assert (first_time s && (ld_so_addr =? 0) = false) as ->.
  { unfold may_load in Hs. destruct (first_time s); [|done]. destruct Hs as (_ & -> & _). cbn. apply Z.eqb_neq. lia. }
  assert (0 ≤ base_address s ≤ base) as Hbs by (unfold may_load in Hs; destruct (first_time s); lia).
  rewrite !u64_small by lia. rewrite (proj2 (Z.leb_le (base_address s + p_vaddr ph + p_memsz ph) _)) by lia.
  unfold mmap_segment. rewrite (proj2 (Z.eqb_neq (p_memsz ph + PAGE_OFFSET (p_vaddr ph)) 0)), Hg by lia. cbn [orb negb mbind option_bind].
  fold (mapped (ld_mem s) base ph). destruct (Z.ltb_spec (p_filesz ph) (p_memsz ph)) as [Hlt|Hge].
  - assert (first_time s = false ∧ base_address s = base) as [-> ->] by (unfold may_load in Hs; destruct (first_time s); [lia|done]).
    rewrite (proj2 (Z.eqb_eq _ _)) by lia. cbn [negb]. destruct (bss_zeroed (ld_mem s) base ph Hb Hok Hlt) as (m1 & m2 & E1 & E2 & Hl & Hout).
    rewrite E1. cbn [mbind option_bind]. rewrite E2. cbn. by exists m2.
  - cbn [mbind option_bind]. exists (mapped (ld_mem s) base ph). split_and!.
    + f_equal. unfold may_load in Hs. destruct (first_time s); [|by rewrite Hs]. destruct Hs as (_ & _ & Hsm & _).
      f_equal. rewrite round_down_page. unfold page in Hsm. rewrite Z.div_small by lia. lia.
    + split; [|lia]. intros i Hi. destruct (segment_end_bounds ph) as [He _]. rewrite <- Z.add_assoc, mapped_in by (done || unfold seg_end in *; lia).
      replace (p_offset ph + (p_vaddr ph + i - p_vaddr ph)) with (p_offset ph + i) by lia. by rewrite file_byte_in by lia.
    + intros x Hx. by apply mapped_out.
Qed.

(** ** All segments *)

Definition below (a b : Elf64_Phdr) : Prop := ROUND_UP (seg_end a) ≤ ROUND_DOWN (p_vaddr b).
Definition is_load (ph : Elf64_Phdr) : Prop := p_type ph = PT_LOAD.
#[local] Instance is_load_dec ph : Decision (is_load ph).
Proof. unfold is_load. apply _. Defined.

(** The program headers of the file. *)
Definition phdr_at (pos : Z) : Elf64_Phdr := phdr_of (read_at file pos 56).
Definition phdrs_from (pos : Z) (n : nat) : list Elf64_Phdr := (λ i, phdr_at (pos + 56 * i)) <$> seqZ 0 (Z.of_nat n).

Lemma phdrs_from_S pos n : phdrs_from pos (S n) = phdr_at pos :: phdrs_from (pos + 56) n.
Proof.
  unfold phdrs_from. rewrite seqZ_cons by lia. cbn [fmap list_fmap]. f_equal; [f_equal; lia|].
  replace (Z.pred (Z.of_nat (S n))) with (Z.of_nat n) by lia.
  apply list_eq. intros i. rewrite !list_lookup_fmap. destruct (decide (i < n)%nat).
  - rewrite !lookup_seqZ_lt by lia. cbn. do 2 f_equal. lia.
  - by rewrite !lookup_seqZ_ge by lia.
Qed.

Lemma read_full pos n : 0 ≤ pos → pos + Z.of_nat n ≤ Z.of_nat (length file) → length (read_at file pos (Z.of_nat n)) = n.
Proof. intros H1 H2. unfold read_at. rewrite length_take, length_drop. lia. Qed.
Lemma overwrite_full buf bs : (length buf ≤ length bs)%nat → overwrite buf bs = bs.
Proof. intros H. unfold overwrite. by rewrite drop_ge, app_nil_r by lia. Qed.

(** The loop of [load_elf_interpreter()] from some header on, once the base is known. *)
Lemma load_loop_loads base : base mod 4096 = 0 → 0 < base →
  ∀ n pos buf interp m, 0 ≤ pos → pos + 56 * Z.of_nat n ≤ Z.of_nat (length file) → (length buf ≤ 56)%nat →
  Forall (segment_ok base) (filter is_load (phdrs_from pos n)) → StronglySorted below (filter is_load (phdrs_from pos n)) →
  ∃ m', load_loop n pos buf interp (mk_loader base false m) =
      Some (if bool_decide (filter is_load (phdrs_from pos n) = []) then interp else base, mk_loader base false m') ∧
    (∀ ph, ph ∈ filter is_load (phdrs_from pos n) → loaded m' base ph) ∧
    ∀ x, (∀ ph, ph ∈ filter is_load (phdrs_from pos n) → x < base + ROUND_DOWN (p_vaddr ph)) → m' x = m x.
Proof.
  intros Hb Hpos. induction n as [|n IH]; intros pos buf interp m H0 Hlen Hbuf Hok Hss.
  { exists m. cbn. split_and!; [done|intros ph Hph; set_solver|done]. }
  rewrite phdrs_from_S in Hok, Hss |- *. cbn [load_loop].
  assert (length (read_at file pos 56) = 56%nat) as Hr by (apply (read_full pos 56); lia).
  rewrite overwrite_full by lia. rewrite Hr. change (Z.of_nat 56) with 56. fold (phdr_at pos).
  destruct (Z.eqb_spec (p_type (phdr_at pos)) PT_LOAD) as [El|El].
  - rewrite filter_cons_True in Hok, Hss |- * by done. apply Forall_cons in Hok as [Hk Hok]. apply StronglySorted_inv in Hss as [Hss Hbel].
    destruct (segment_loaded base (phdr_at pos) (mk_loader base false m) Hb Hpos Hk eq_refl) as (m1 & E1 & Hl1 & Hout1).
    rewrite E1. cbn [mbind option_bind base_address].
    destruct (IH (pos + 56) (read_at file pos 56) base m1 ltac:(lia) ltac:(lia) ltac:(lia) Hok Hss) as (m' & E & Hl & Hout).
    exists m'. rewrite E. split_and!.
    + rewrite (bool_decide_false (_ :: _ = [])) by done. by case_bool_decide.
    + intros ph [->|Hph]%elem_of_cons; [|by apply Hl]. rewrite Forall_forall in Hbel.
      destruct (segment_end_bounds (phdr_at pos)) as [He Hd]. destruct Hk as (Hv & _ & Hf & _). destruct Hl1 as [Hd1 Hz1]. split.
      * intros i Hi. rewrite Hout; [by apply Hd1|]. intros b Hb'. specialize (Hbel b Hb'). unfold below, seg_end in *. lia.
      * intros Hlt x Hx. rewrite Hout; [by apply Hz1|]. intros b Hb'. specialize (Hbel b Hb'). unfold below in *. lia.
    + intros x Hx. rewrite Hout by (intros ph Hph; apply Hx; by right). rewrite Hout1; [done|]. left. apply Hx. by left.
  - rewrite filter_cons_False in Hok, Hss |- * by done. apply IH; lia || done.
Qed.

(** Headers before the first loadable segment are skipped. *)
Lemma load_loop_first n : ∀ pos buf interp s first rest,
  0 ≤ pos → pos + 56 * Z.of_nat n ≤ Z.of_nat (length file) → (length buf ≤ 56)%nat →
  filter is_load (phdrs_from pos n) = first :: rest →
  ∃ n' pos', 0 ≤ pos' ∧ pos' + 56 * Z.of_nat n' ≤ Z.of_nat (length file) ∧ filter is_load (phdrs_from pos' n') = rest ∧
    load_loop n pos buf interp s =
    (s' ← map_elf_interpreter_load_segment first s; load_loop n' pos' (read_at file (pos' - 56) 56) (base_address s') s').
Proof.
  induction n as [|n IH]; intros pos buf interp s first rest H0 Hlen Hbuf Hf; [done|].
  rewrite phdrs_from_S in Hf. cbn [load_loop].
  assert (length (read_at file pos 56) = 56%nat) as Hr by (apply (read_full pos 56); lia).
  rewrite overwrite_full by lia. rewrite Hr. change (Z.of_nat 56) with 56. fold (phdr_at pos).
  destruct (Z.eqb_spec (p_type (phdr_at pos)) PT_LOAD) as [El|El].
  - rewrite filter_cons_True in Hf by done. injection Hf as <- <-. exists n, (pos + 56). replace (pos + 56 - 56) with pos by lia. split_and!; done || lia.
  - rewrite filter_cons_False in Hf by done. apply IH; done || lia.
Qed.

(** The loadable segments of a file. *)
Definition load_segments (elf_hdr : Elf64_Ehdr) : list Elf64_Phdr :=
  filter is_load (phdrs_from (e_phoff elf_hdr) (Z.to_nat (e_phnum elf_hdr))).

(** The header and the program headers are in the file. *)
Definition headers_ok (elf_hdr : Elf64_Ehdr) : Prop :=
  read_ehdr file = Some elf_hdr ∧ 0 ≤ e_phoff elf_hdr < 2 ^ 31 ∧ 0 ≤ e_phnum elf_hdr ∧
  e_phoff elf_hdr + 56 * e_phnum elf_hdr ≤ Z.of_nat (length file).
(** The segments are in order and share no page; the first begins in the first page
    and has no bss. *)
Definition segments_ok (base : Z) (segs : list Elf64_Phdr) : Prop :=
  match segs with
  | [] => False
  | first :: _ => p_vaddr first < page ∧ p_filesz first = p_memsz first ∧ Forall (segment_ok base) segs ∧ StronglySorted below segs
  end.

(** C16. [load_elf_interpreter()] loads a linker whose headers are in order: it returns
    the address that it was given as the base, and every loadable segment is at the
    base plus its address, with the bytes of the file, its protection, and zeros for
    its bss up to the end of the page. *)
Theorem interpreter_loaded elf_hdr buf m :
  headers_ok elf_hdr → (length buf ≤ 56)%nat → ld_so_addr mod page = 0 → 0 < ld_so_addr →
  segments_ok ld_so_addr (load_segments elf_hdr) →
  ∃ m', load_elf_interpreter buf (mk_loader 0 true m) = Some (ld_so_addr, elf_hdr, mk_loader ld_so_addr false m') ∧
    ∀ ph, ph ∈ load_segments elf_hdr → loaded m' ld_so_addr ph.
Proof.
  intros (Eh & Hoff & Hnum & Hlen) Hbuf Hal Hpos Hsegs. destruct (load_segments elf_hdr) as [|first rest] eqn:Hs; [done|].
  destruct Hsegs as (Hfv & Hfz & Hok & Hss). unfold load_elf_interpreter. rewrite Eh. cbn [mbind option_bind].
  rewrite s32_small by lia. unfold lseek. rewrite (proj2 (Z.ltb_ge _ _)) by lia. unfold page in Hal.
  destruct (load_loop_first (Z.to_nat (e_phnum elf_hdr)) (e_phoff elf_hdr) buf 0 (mk_loader 0 true m) first rest) as (n' & pos' & Hp' & Hl' & <- & ->); [lia..|done|].
  apply Forall_cons in Hok as [Hk Hok]. apply StronglySorted_inv in Hss as [Hss Hbel]. rewrite Forall_forall in Hbel.
  destruct (segment_loaded ld_so_addr first (mk_loader 0 true m) Hal Hpos Hk) as (m1 & E1 & Hl1 & _); [by cbn|].
  rewrite E1. cbn [mbind option_bind base_address].
  destruct (load_loop_loads ld_so_addr Hal Hpos n' pos' (read_at file (pos' - 56) 56) ld_so_addr m1) as (m' & E & Hl & Hout); try done.
  { unfold read_at. rewrite length_take. lia. }
  rewrite E. exists m'. split.
  { case_bool_decide; cbn; by rewrite (proj2 (Z.eqb_neq _ _)) by lia. }
  intros ph Hph. apply elem_of_cons in Hph as [->|Hph]; [|by apply Hl].
  destruct (segment_end_bounds first) as [He Hd]. destruct Hk as (Hv & _ & Hf & _). destruct Hl1 as [Hd1 _]. split; [|lia].
  intros i Hi. rewrite Hout; [by apply Hd1|]. intros b Hb'. specialize (Hbel b Hb'). unfold below, seg_end in *. lia.
Qed.

(** ** The path of the linker *)

Definition is_interp (ph : Elf64_Phdr) : Prop := p_type ph = PT_INTERP.
#[local] Instance is_interp_dec ph : Decision (is_interp ph).
Proof. unfold is_interp. apply _. Defined.

Lemma find_interp_first n : ∀ pos buf,
  0 ≤ pos → pos + 56 * Z.of_nat n ≤ Z.of_nat (length file) → (length buf ≤ 56)%nat →
  fst <$> find_interp file n pos buf = head (filter is_interp (phdrs_from pos n)).
Proof.
  induction n as [|n IH]; intros pos buf H0 Hlen Hbuf; [done|]. rewrite phdrs_from_S. cbn [find_interp].
  assert (length (read_at file pos 56) = 56%nat) as Hr by (apply (read_full pos 56); lia).
  rewrite overwrite_full by lia. rewrite Hr. change (Z.of_nat 56) with 56. fold (phdr_at pos).
  destruct (Z.eqb_spec (p_type (phdr_at pos)) PT_INTERP) as [El|El].
  - by rewrite filter_cons_True.
  - rewrite filter_cons_False by done. apply IH; rewrite ?Hr; lia.
Qed.

(** [get_elf_interpreter()] gives the bytes of the first PT_INTERP segment, if they
    are in the file and fit the buffer; it fails when there is no such segment. *)
Theorem interpreter_found elf_hdr buf :
  headers_ok elf_hdr → (length buf ≤ 56)%nat →
  match head (filter is_interp (phdrs_from (e_phoff elf_hdr) (Z.to_nat (e_phnum elf_hdr)))) with
  | None => get_elf_interpreter file buf = None
  | Some ph =>
      0 ≤ p_offset ph < 2 ^ 63 → 0 ≤ p_filesz ph < MAX_ELF_INTERP_SZ → p_offset ph + p_filesz ph ≤ Z.of_nat (length file) →
      get_elf_interpreter file buf = Some (e_entry elf_hdr, take (Z.to_nat (p_filesz ph)) (drop (Z.to_nat (p_offset ph)) file))
  end.
Proof.
  intros (Eh & Hoff & Hnum & Hlen) Hbuf. unfold get_elf_interpreter. rewrite Eh. cbn [mbind option_bind].
  rewrite s32_small by lia. unfold lseek. rewrite (proj2 (Z.ltb_ge (e_phoff elf_hdr) 0)) by lia.
  pose proof (find_interp_first (Z.to_nat (e_phnum elf_hdr)) (e_phoff elf_hdr) buf ltac:(lia) ltac:(lia) Hbuf) as E.
  destruct (find_interp _ _ _ _) as [[ph pos]|]; cbn in E; rewrite <- E; [|done]. intros Ho Hf Hfile. cbn [mbind option_bind].
  rewrite s64_small, (proj2 (Z.ltb_lt _ _)), (proj2 (Z.ltb_ge _ _)) by lia. cbn [negb].
  rewrite <- (Z2Nat.id (p_filesz ph)) at 2 by lia. rewrite <- (Z2Nat.id (p_filesz ph)) at 1 by lia. rewrite read_full by lia. by rewrite Z.eqb_refl.
Qed.
End load.

(** ** [setup_upper_half_stack()] and [create_red_zone()] *)

Definition LOADER_SIZE_LIMIT : Z := 0x2000000.
Definition RLIM_INFINITY : Z := 2 ^ 64 - 1.

(** What the function leaves: the new stack, [lh_info->uh_stack_start] and
    [uh_stack_end], the page of the red zone, and the beginning of the arena. *)
Record upper_half_stack := mk_uh_stack {
  uh_stack : new_stack; uh_stack_start : Z; uh_stack_end : Z; uh_red_zone : Z; uh_arena : Z
}.
Definition create_red_zone (stack_addr : Z) : Z := u64 (stack_addr - page).
Definition setup_upper_half_stack (granted : Z → Z → bool) (m : mem) (argc argc_word : Z) (cmd_argv2 environ : list text) (auxv : list (Z * Z)) (null_val rlim_cur interp_base_address : Z) :
    option upper_half_stack :=
  let rlim_cur := if rlim_cur =? RLIM_INFINITY then 0x1000000 else rlim_cur in
  r ← deepCopyStack granted m argc argc_word (Z.of_nat (length cmd_argv2)) cmd_argv2 environ auxv null_val (u64 (interp_base_address + rlim_cur + LOADER_SIZE_LIMIT));
  let stack_start := ROUND_DOWN (interp_base_address + LOADER_SIZE_LIMIT) in
  let stack_end := ROUND_UP (ns_bottom r) in
  Some (mk_uh_stack r stack_start stack_end (create_red_zone (u64 (stack_start - rlim_cur))) (ROUND_UP (stack_end + page))).

(** The stack is above [uh_stack_start] and ends at [uh_stack_end], the arena begins a
    page above it, and the red zone is the page below the stack's start less the
    limit of its size. *)
Theorem upper_half_stack_layout granted m argc argv env auxv null_val rlim_cur base :
  let rlim := if rlim_cur =? RLIM_INFINITY then 0x1000000 else rlim_cur in
  base mod page = 0 → page ≤ base → 8192 ≤ rlim → Z.land rlim 15 = 0 →
  stack_bytes argv env auxv < 2 ^ 31 → base + rlim + LOADER_SIZE_LIMIT + stack_bytes argv env auxv ≤ 2 ^ 64 → (∀ a n, granted a n = true) →
  Forall (λ e, word e.1 ∧ word e.2) auxv → word null_val →
  ∃ u, setup_upper_half_stack granted m argc argc argv env auxv null_val rlim_cur base = Some u ∧
    uh_stack_start u = base + LOADER_SIZE_LIMIT ∧ uh_stack_start u < ns_map (uh_stack u) ∧
    uh_stack_end u = ns_bottom (uh_stack u) ∧ uh_arena u = uh_stack_end u + page ∧
    (rlim ≤ base + LOADER_SIZE_LIMIT - page → uh_red_zone u = base + LOADER_SIZE_LIMIT - rlim - page).
Proof.
  intros rlim Hb Hp Hr Hal Hint Hhi Hg Hw Hnv. unfold page in Hb, Hp.
  assert (∀ x y, Z.land x 15 = 0 → y mod 4096 = 0 → Z.land (y + x) 15 = 0) as Hland.
  { intros x y Hx Hy. change 15 with (Z.ones 4) in *. rewrite Z.land_ones in * by lia. change (2 ^ 4) with 16 in *. Z.div_mod_to_equations. lia. }
  assert (8192 ≤ stack_bytes argv env auxv) as Hsb by (unfold stack_bytes; pose proof (strings_bytes_nonneg env); pose proof (strings_bytes_nonneg argv); lia). unfold LOADER_SIZE_LIMIT in *.
  unfold setup_upper_half_stack, LOADER_SIZE_LIMIT. fold rlim. rewrite (u64_small (base + rlim + _)) by lia.
  destruct (deepCopyStack_builds granted m argc argv env auxv null_val (base + rlim + 0x2000000)) as (r & -> & _ & _ & _ & _ & _ & _ & Hmap & Hbot & Eup); [|lia|done|lia|done..|].
  { replace (base + rlim + 0x2000000) with (base + 0x2000000 + rlim) by lia. apply Hland; [done|]. Z.div_mod_to_equations. lia. }
  cbn [mbind option_bind]. eexists. split; [done|]. cbn [uh_stack uh_stack_start uh_stack_end uh_red_zone uh_arena].
  assert (ROUND_DOWN (base + 0x2000000) = base + 0x2000000) as -> by (rewrite round_down_page; Z.div_mod_to_equations; lia).
  split_and!; [done|lia|done| |].
  - unfold page. replace (ROUND_UP (ns_bottom r) + 4096) with (ROUND_UP (ns_bottom r) + 4096 * 1) by lia. rewrite ROUND_UP_add, !Eup. lia.
  - intros Hz. unfold page in *. unfold create_red_zone, page. rewrite (u64_small (base + 0x2000000 - rlim)) by lia. rewrite u64_small by lia. lia.
Qed.

(** With a limit of 32 MB less one page, the red zone, which is mapped over what is
    there, is the first page of the linker. *)
Lemma red_zone_over_linker :
  ∃ u, setup_upper_half_stack (λ _ _, true) (λ _, 0) 1 1 [[97]] [] [] 0 0x1fff000 0x80000000 = Some u ∧ uh_red_zone u = 0x80000000.
Proof.
  destruct (upper_half_stack_layout (λ _ _, true) (λ _, 0) 1 [[97]] [] [] 0 0x1fff000 0x80000000) as (u & E & _ & _ & _ & _ & Hz);
    [reflexivity|vm_compute; discriminate|vm_compute; discriminate|reflexivity|reflexivity|vm_compute; discriminate|reflexivity|apply Forall_nil_2|vm_compute; done|].
  exists u. split; [done|]. rewrite Hz; [done|]. vm_compute. discriminate.
Qed.

(** ** A linker *)

Definition phdr_bytes (ph : Elf64_Phdr) : list Z :=
  let le n v := Z_to_little_endian n 8 v in
  le 4 (p_type ph) ++ le 4 (p_flags ph) ++ le 8 (p_offset ph) ++ le 8 (p_vaddr ph) ++ le 8 (p_vaddr ph) ++ le 8 (p_filesz ph) ++ le 8 (p_memsz ph) ++ le 8 (p_align ph).
Definition small_phdrs : list Elf64_Phdr :=
  [mk_phdr PT_LOAD 5 0 0 232 232 4096; mk_phdr 6 4 64 64 168 168 8; mk_phdr PT_LOAD 6 232 4328 8 16 4096].
Definition small_elf : list Z :=
  ELFMAG ++ [2; 1; 1] ++ replicate 17 0 ++ Z_to_little_endian 8 8 100 ++ Z_to_little_endian 8 8 64 ++ replicate 16 0 ++ Z_to_little_endian 2 8 3 ++ replicate 6 0 ++
  concat (phdr_bytes <$> small_phdrs) ++ [1; 2; 3; 4; 5; 6; 7; 8].

(** A bss that reaches past the last page of the file is not zeroed: the [memset] is
    on a page that has no part of the file. *)
Lemma bss_past_file_fails :
  map_elf_interpreter_load_segment (λ a _, a) (λ _ _, true) small_elf 0x80000000
    (mk_phdr PT_LOAD 6 232 4328 8 8192 4096) (mk_loader 0x80000000 false (λ _, None)) = None.
Proof. vm_compute. reflexivity. Qed.

Lemma interpreter_loaded_witness :
  let hdr := mk_ehdr 100 64 3 in
  ∃ m', load_elf_interpreter (λ a _, a) (λ _ _, true) small_elf 0x80000000 (replicate 56 0) (mk_loader 0 true (λ _, None)) =
    Some (0x80000000, hdr, mk_loader 0x80000000 false m') ∧
    ∀ ph, ph ∈ load_segments small_elf hdr → loaded small_elf m' 0x80000000 ph.
Proof.
  apply (interpreter_loaded (λ a _, a) (λ _ _, true) small_elf 0x80000000 (mk_ehdr 100 64 3) (replicate 56 0) (λ _, None)).
  - unfold headers_ok. split_and!; [vm_compute; reflexivity|cbn; lia..|vm_compute; discriminate].
  - cbn. lia.
  - reflexivity.
  - lia.
  - assert (load_segments small_elf (mk_ehdr 100 64 3) = [mk_phdr PT_LOAD 5 0 0 232 232 4096; mk_phdr PT_LOAD 6 232 4328 8 16 4096]) as -> by (vm_compute; reflexivity).
    split_and!; [cbn; unfold page; lia|reflexivity| |].
    + repeat constructor; cbn; try lia; try reflexivity; vm_compute; discriminate || reflexivity || idtac.
    + repeat constructor. unfold below. vm_compute. discriminate.
Defined.
